(* ===== verification/_CoqProject ===== *)
-Q . S2P
Prelude.v
StructMap.v
SqlName.v
AttrNames.v
Event.v
PartitionKey.v
ConflictCache.v
PartitionStrategy.v
Streaming.v
DataFile.v
CsvFile.v
ImportState.v
BatchProducer.v
BatchImport.v
ImportSystem.v
RandomProducer.v
ConnPool.v
AdaptiveParallelism.v
TaskPicker.v
ColocatedAwarePicker.v
ImportLoop.v
MetaDB.v
EventQueue.v
ArchiveChanges.v
QueueSystem.v
Cutover.v
CutoverSystem.v
CutoverSafety.v
NameReg.v
RegistryStrategies.v
SchemaSnapshot.v
SchemaDiff.v
DriftGuidance.v
SchemaDrift.v
TablePatterns.v
DriftScope.v
SnapshotStore.v
DriftCheck.v
CivilTime.v
ValueSuite.v
ValueConverter.v
StreamingValues.v
