(* ===== verification/Prelude.v ===== *)
(** * yb-voyager: a verification development

    yb-voyager migrates a database to YugabyteDB in two phases.  In the snapshot phase
    the rows of every table, exported to data files, are cut into batch files and the
    batches are copied to the target by workers; in the streaming phase change events,
    queued by Debezium, are routed to channels, batched, and applied to the target.
    A cutover then hands the application over to the target, and may hand it back.  All of
    it can be killed and resumed at any point.  This development models the Go code that
    carries these phases and proves that they lose nothing, repeat nothing, keep the order
    that matters and come to an end.  While it runs, the schema of the source is recorded,
    and detect-drift compares the recorded schemas with the live one; that is modelled too.
    Paths below are under src/yb-voyager/.

    ** How the parts interact

    Snapshot: [ImportLoop] classifies the tasks (one per data file) and asks a picker
    ([TaskPicker], [ColocatedAwarePicker]) which one to advance; the task's producer
    ([BatchProducer], wrapped by [RandomProducer]) reads the file through [DataFile] and
    files batches in the directory modelled by [ImportState]; a worker ([BatchImport])
    copies a batch and files its outcome; [ImportSystem] is the composition of producer,
    workers, other tasks and crashes over directory and target.  The workers take their
    connections from [ConnPool], whose size [AdaptiveParallelism] changes.
    Streaming: [PartitionStrategy] fixes per table how events are routed, [PartitionKey]
    computes an event's key and channel, [ConflictCache] holds an event back while an
    event it conflicts with is in flight, [Event] is the event, its SQL and the batch,
    and [Streaming] composes them with the workers, the target's bookkeeping, restarts
    and crashes.  It takes the conversion of values as a function; [StreamingValues] puts
    the converter of [ValueConverter], which applies the converters of [ValueSuite], in its
    place.  The events come from segments of the queue ([EventQueue]), whose rows and
    the migration status record are in [MetaDB]; [ArchiveChanges] removes the segments all
    importers have read; [QueueSystem] is the composition of exporters, importers and
    cleaner.  [Cutover] has the steps the commands take over the status record,
    [CutoverSystem] the processes that take them, [CutoverSafety] what follows.
    All name tables by [SqlName]'s tuples, which [NameReg] finds and every command shares,
    file per-table data in [StructMap], and columns by [AttrNames]; [RegistryStrategies]
    discharges what [PartitionStrategy] assumes of the name registry.
    Schema drift: the exporter's captures ([SchemaSnapshot]) are kept by [SnapshotStore];
    [DriftCheck] loads them, reads the live schema, takes the scope from the flags
    ([DriftScope], whose names are [NameReg]'s and whose patterns [TablePatterns] matches)
    and reports ([SchemaDrift]) what [SchemaDiff] finds between usable neighbours, each
    finding with the guidance of [DriftGuidance]; its theorem composes those of the others.

    ** Files, what they model, and what their theorems show

    - [Prelude]: Go's three outcomes as [result] with its monad (a value, an error, a
      panic), int64 wrap-around, strings, lists, permutations; hints and tactics.
    - [StructMap] (src/utils/struct_map.go): maps keyed by structs through their key
      strings; every operation refines a finite map with keys up to their key string.
    - [SqlName] (src/utils/sqlname/sqlname.go, nametuple.go): quoting, object names, name
      tuples; the key under which per-table data is filed is injective.
    - [AttrNames] (src/tgtdb/attr_name_registry.go): target names of source columns; the
      registry's memory does not change its answers.
    - [Event] (src/tgtdb/event.go): events, prepared statements and their cache (the
      cache returns what building the statement anew would), event batches.
    - [PartitionKey] (cmd/live_migration.go, partition key and hash): events of one row
      have one key, different tables have different keys, the channel is in range.
    - [ConflictCache] (cmd/conflictDetectionCache.go): the cache's three maps agree after
      any sequence of operations, and the lookup finds an event exactly when some cached
      event conflicts by the definition stated without any index.
    - [PartitionStrategy] (cmd/live_migration_cdc_partition_strategy.go, cmd/import.go):
      flags to strategies, guardrails, the persisted record and the comparison on resume.
    - [Streaming] (cmd/live_migration.go, src/tgtdb/yugabytedb.go ExecuteBatch): the step
      relation of main goroutine, workers, restarts and crashes; exactly-once application,
      conflicting events in commit order, completeness, no deadlock of the wait,
      statistics that count every event once.
    - [CivilTime] (Go's time package as far as it is used): dates of the proleptic Gregorian
      calendar, clock times and fractions as text; every one is read back.
    - [ValueSuite] (src/tgtdb/suites): the converters per type; instants, texts, bytes and
      bits are read back by the target as they were sent, what is malformed is refused.
    - [ValueConverter] (src/utils/schemareg, src/dbzm/valueConverter.go): the schemas of the
      exported tables and the conversion of events and rows with their caches.
    - [StreamingValues] (cmd/live_migration.go handleEvent): the target applies the events
      of the queue, in order, with values that mean what was sent.
    - [DataFile] (src/datafile: datafile.go, textdatafile.go, sqldatafile.go): the reader
      interface as a class with laws, text and SQL readers as instances, seek and resume.
    - [CsvFile] (src/utils/csv/reader.go, src/datafile/csvdatafile.go): the third instance,
      over files that arrive in chunks; the reader returns the records of the whole file,
      rows are read back as written, and where records end is the rule of CSV, except after
      three escapes in a row.
    - [ImportState] (cmd/importDataState.go): batch file names, directory operations,
      recovery of batches, the state of a file's import.
    - [BatchProducer] (cmd/importDataSequentialFileBatchProducer.go): production and
      recovery as a step relation with the workers' renames and crashes; the batches hold
      exactly the rows of a prefix of the file, and a completed file all of them; a call
      for the next batch returns one.
    - [RandomProducer] (cmd/importDataRandomFileBatchProducer.go): the producer goroutine
      and its buffer; what it hands out is a permutation of what the wrapped producer
      yields.
    - [BatchImport] (cmd/importDataFileTaskImporter.go, src/tgtdb/yugabytedb.go,
      src/errs/targetdb.go): one attempt on the transactional and on the fast path with
      row-by-row recovery, the retry loop, the filing of the outcome; a transactional
      attempt is all or nothing, the loop returns, recovery of SQL scripts loses rows.
    - [ImportSystem]: rows reach the table exactly once with transactions; without, every
      key is there when the import completes.
    - [ConnPool] (src/tgtdb/conn_pool.go): channels, growing, shrinking, failed
      connections; the pool's invariant, completion of its operations, draining.
    - [AdaptiveParallelism] (src/adaptiveparallelism/adaptive_parallelism.go): the loop
      over the pool through the interface [TargetPool]; when it adds or takes a
      connection, and that it stays within the limits.
    - [TaskPicker], [ColocatedAwarePicker] (cmd/importDataFileTaskPicker.go): the three
      pickers as instances of one class with laws; what the capped picker picks, and the
      weights of the colocated-aware one.
    - [ImportLoop] (cmd/importData.go: classifyTasksForImport, getTableTypes,
      importTasksViaTaskPicker): for every picker that keeps the laws, all tasks are
      imported when the loop ends, and it ends.
    - [MetaDB] (src/metadb: metadataDB.go, migrationStatus.go): the queries and updates of
      the segments' table and the status record.
    - [EventQueue] (cmd/eventQueue.go, src/utils/tail_reader.go): the queue's segments and
      the reader that stops at the committed size; a segment is read back as written.
    - [ArchiveChanges] (src/archivechanges/cleanup.go): the cleaner as a program over a
      world of files and rows whose every effect may fail or be the last; it completes.
    - [QueueSystem]: a segment stays until every importer that needs it has read it, and
      the importers read in order, whatever fails.
    - [Cutover] (cmd/cutover.go, cutoverStatus.go, common.go): requests, statuses, the start
      of the next iteration, which resumes where it was interrupted.
    - [CutoverSystem], [CutoverSafety]: over all runs of the processes, statuses only
      advance, marks come in order, and a requested cutover can be completed.
    - [NameReg] (src/namereg/namereg.go, src/utils/jsonfile): the registry, its file and
      its lookups; a table is found by its key, in the command that filed it and in every
      later one, except where the target has variants of its name in several cases.
    - [RegistryStrategies]: strategies filed under keys are loaded as computed.
    - [SchemaSnapshot] (src/schemasnapshot: snapshot.go, postgres.go, capture.go, labels.go):
      from the rows of the catalogue queries to tables; every row is filed under its table,
      and a capture is well-formed.
    - [SchemaDiff] (src/schemadiff): the comparison by ID or by name and the scope; it finds
      exactly what an abstract specification says, nothing just when the schemas are the
      same, and the mirror image the other way round.
    - [DriftGuidance] (src/schema/schemadrift/classification.go): the tables of severity,
      impact and action per change and timing; every change gets advice that fits.
    - [SchemaDrift] (src/schema/schemadrift: build.go, report.go): the report; it compares
      each usable capture with the usable one before it, and is always built.
    - [TablePatterns] (src/utils/sqlname/nametuple.go, cmd/exportData.go
      extractTableListFromString): patterns of names, what they match, table lists.
    - [DriftScope] (cmd/detectDrift.go, flags and scope): the tables and types compared are
      those asked for, with their partitions; a table with a dot in its name stops it.
    - [SnapshotStore] (src/schemasnapshot/persist.go, src/metadb/schemaSnapshot.go,
      src/export/schema_snapshot_capture.go): captures and placeholders in the metadata
      database; every entry is a placeholder or loads, whatever fails.
    - [DriftCheck] (cmd/detectDrift.go checkSchemaDrift): a check without findings means
      that no table or column changed since the first capture.

    ** Conventions, bounds and fuel

    Goroutines are steps of a relation; a step takes a lock at most once, so it is atomic
    in the program too.  Integers are [Z]; where the code computes with int64 and may
    overflow the wrap-around is written ([wrap64]) or the theorem has the premise that
    the file's offsets fit.  Strings are ASCII byte strings.  Loops that are not
    structural take fuel, and a theorem says how much is enough: [NextBatch] as many
    turns as lines are left plus one, the SQL reader's skip as many as bytes are left
    plus one, a read of a CSV file as many as bytes are left, those of the file twice,
    plus three, row-by-row recovery as many as lines plus two, the worker's retry loop as
    many as the maximal number of attempts plus two, the walk over partitions as many as
    tables it can come to plus one, the digits of a number as many as it has bits.  Dates
    are those Go's clock can hold; the theorems on them reach back to year 1.  The numbers of channels, sizes of
    batches, limits of tasks and the like are arguments.  The order in which Go ranges
    over a map is that of [map_to_list], or any order where the result depends on it.
    Random choices, catalogue queries, the target's failures and libraries are
    arguments, with what is relied on as hypotheses that a witness satisfies.

    ** Not modelled

    Process control and drivers (pg_dump, ora2pg, Debezium, SQL connections); of the value
    converters Oracle's INTERVAL DAY TO SECOND (floating point) and ZonedTimestamp (parsing
    of zones), which are arguments, and the splitting of rows into columns, so that
    [BatchProducer] takes a row's conversion as a function; the schema commands, which are built on PostgreSQL's C parser; assessment, reports,
    call-home, control plane, metrics, logging and the command line; of the drift check the
    SQL text of the catalogue queries and the rendering of the report.  Time, waiting and
    logging have no effect on the states modelled. *)
From Stdlib Require Export ZArith Ascii.
From Stdlib Require String DecimalString DecimalPos DecimalZ.
From stdpp Require Export base tactics list strings gmap sorting relations.
Open Scope Z_scope.
#[global] Arguments String.append !s1 s2 / : simpl nomatch.

(** ** Go's three outcomes: a value, an error value, a panic *)

Inductive result (A : Type) : Type :=
  | Ok (a : A)
  | Err (msg : string)
  | Panic (msg : string).
Arguments Ok {A} a.
Arguments Err {A} msg.
Arguments Panic {A} msg.

#[global] Instance result_ret : MRet result := λ A a, Ok a.
#[global] Instance result_bind : MBind result := λ A B f r,
  match r with Ok a => f a | Err e => Err e | Panic e => Panic e end.
#[global] Instance result_fmap : FMap result := λ A B f r,
  match r with Ok a => Ok (f a) | Err e => Err e | Panic e => Panic e end.

Definition is_ok {A} (r : result A) : bool :=
  match r with Ok _ => true | _ => false end.

#[global] Instance result_eq_dec {A} `{EqDecision A} : EqDecision (result A).
Proof. intros r1 r2; unfold Decision; decide equality; apply decide; apply _. Defined.

Declare Scope voyager_scope.
Delimit Scope voyager_scope with voyager.
(** [guard! b else e ;; k] is Go's [if !b { return e }; k]. *)
Notation "'guard!' b 'else' e ';;' k" := (if b then k else e)
  (at level 100, b at level 99, e at level 99, k at level 200, right associativity) : voyager_scope.
Open Scope voyager_scope.

Lemma bind_Ok {A B} (f : A → result B) (r : result A) b :
  r ≫= f = Ok b ↔ ∃ a, r = Ok a ∧ f a = Ok b.
Proof.
  destruct r as [a|e|e]; cbn; split; try done; try by intros (? & ? & _).
  - eauto.
  - by intros (? & [= ->] & ?).
Qed.
Lemma bind_Ok_l {A B} (f : A → result B) a : Ok a ≫= f = f a.
Proof. done. Qed.

(** [mapM_result f l]: a Go loop that appends [f x] and returns at the first error. *)
Fixpoint mapM_result {A B} (f : A → result B) (l : list A) : result (list B) :=
  match l with
  | [] => Ok []
  | x :: l => y ← f x; ys ← mapM_result f l; Ok (y :: ys)
  end.

(** [foldM f s l]: a Go loop that threads a state and returns at the first error. *)
Fixpoint foldM {A S} (f : S → A → result S) (s : S) (l : list A) : result S :=
  match l with
  | [] => Ok s
  | x :: l => s' ← f s x; foldM f s' l
  end.

Lemma mapM_result_Ok {A B} (f : A → result B) l ys :
  mapM_result f l = Ok ys ↔ Forall2 (λ x y, f x = Ok y) l ys.
Proof.
  revert ys. induction l as [|x l IH]; intros ys; cbn [mapM_result].
  - split; [by intros [= <-]|by inversion 1].
  - rewrite bind_Ok. setoid_rewrite bind_Ok. setoid_rewrite IH. split.
    + intros (y & Hy & ys' & H & [= <-]). by constructor.
    + inversion 1; subst; eauto 8.
Qed.
Lemma mapM_result_pure {A B} (f : A → B) l : mapM_result (λ x, Ok (f x)) l = Ok (map f l).
Proof. induction l as [|x l IH]; cbn; [done|]. by rewrite IH. Qed.
Lemma mapM_result_ext {A B} (f g : A → result B) l :
  (∀ x, x ∈ l → f x = g x) → mapM_result f l = mapM_result g l.
Proof.
  induction l as [|x l IH]; intros H; cbn; [done|].
  rewrite H by set_solver. destruct (g x); cbn; [|done..]. rewrite IH by set_solver. done.
Qed.

(** What a loop that collects lists has collected. *)
Lemma mapM_result_concat {A B} (f : A → result (list B)) l ys b :
  mapM_result f l = Ok ys → b ∈ concat ys ↔ ∃ a y, a ∈ l ∧ f a = Ok y ∧ b ∈ y.
Proof.
  rewrite mapM_result_Ok. induction 1 as [|a y l ys Hf _ IH]; cbn.
  - set_solver.
  - rewrite elem_of_app, IH. split.
    + intros [H|(a' & y' & H & ? & ?)]; [exists a, y|exists a', y']; set_solver.
    + intros (a' & y' & [->|H]%elem_of_cons & Hf' & Hb); [|naive_solver].
      rewrite Hf in Hf'. injection Hf' as ->. by left.
Qed.
Lemma mapM_result_elem {A B} (f : A → result B) l ys a :
  mapM_result f l = Ok ys → a ∈ l → ∃ y, f a = Ok y ∧ y ∈ ys.
Proof. rewrite mapM_result_Ok. induction 1; set_solver. Qed.

(** A fold that preserves an invariant at every successful step preserves it. *)
Lemma foldM_ind {A S} (P : S → Prop) (f : S → A → result S) l s s' :
  (∀ s x s', x ∈ l → P s → f s x = Ok s' → P s') →
  P s → foldM f s l = Ok s' → P s'.
Proof.
  revert s. induction l as [|x l IH]; intros s Hstep Hs; cbn; [by intros [= <-]|].
  rewrite bind_Ok. intros (s1 & H1 & H2).
  eapply IH; [|eapply Hstep; [left|done|done]|done].
  intros ????; eapply Hstep. by right.
Qed.
Lemma foldM_snoc {A S} (f : S → A → result S) s l x : foldM f s (l ++ [x]) = (foldM f s l ≫= λ s', f s' x).
Proof.
  revert s. induction l as [|y l IH]; intros s; cbn.
  - by destruct (f s x).
  - destruct (f s y); cbn; [apply IH|done..].
Qed.
(** ... with the index of the step. *)
Lemma foldM_prefix {A S} (f : S → A → result S) (P : nat → S → Prop) l s s' : P 0%nat s →
  (∀ n x s s', l !! n = Some x → P n s → f s x = Ok s' → P (Datatypes.S n) s') → foldM f s l = Ok s' → P (length l) s'.
Proof.
  intros H0 Hstep. revert s'. induction l as [|x l IH] using rev_ind; intros s'; cbn; [by intros [= <-]|].
  rewrite foldM_snoc, bind_Ok. intros (s1 & Hl & Hx). rewrite length_app, Nat.add_1_r.
  apply (Hstep _ x s1); [by rewrite lookup_app_r, Nat.sub_diag| |done]. apply IH; [|done].
  intros n y t t' Hn. apply Hstep. by rewrite lookup_app_l by (by eapply lookup_lt_Some).
Qed.
Lemma mapM_result_total {A B} (f : A → result B) l : Forall (λ x, ∃ y, f x = Ok y) l → ∃ ys, mapM_result f l = Ok ys.
Proof. induction 1 as [|x l [y Hy] _ [ys IH]]; cbn; [by eexists|]. rewrite Hy, IH. by eexists. Qed.
Lemma elem_of_concat_map {A B} (f : A → list B) l y : y ∈ concat (map f l) ↔ ∃ x, x ∈ l ∧ y ∈ f x.
Proof.
  induction l as [|a l IH]; cbn; [by split; [intros ?%elem_of_nil|intros (? & ?%elem_of_nil & _)]|].
  rewrite elem_of_app, IH. split.
  - intros [?|(x & ? & ?)]; [exists a|exists x]; (split; [|done]); [by left|by right].
  - intros (x & [->|?]%elem_of_cons & ?); [by left|right; eauto].
Qed.
(** A decidable fact about concrete data, by evaluation. *)
Ltac decided := apply (bool_decide_unpack _); vm_compute; exact I.

(** ** Strings *)

(** The characters a Rocq string literal cannot spell plainly. *)
Definition DQ : string := String (ascii_of_nat 34) "".
Definition NUL : string := String (ascii_of_nat 0) "".

Fixpoint str_forallb (p : ascii → bool) (s : string) : bool :=
  match s with "" => true | String c s => p c && str_forallb p s end.
Definition str_has (c : ascii) (s : string) : bool :=
  negb (str_forallb (λ d, bool_decide (d ≠ c)) s).
Fixpoint str_map (f : ascii → ascii) (s : string) : string :=
  match s with "" => "" | String c s => String (f c) (str_map f s) end.

Definition ascii_lower (c : ascii) : ascii :=
  let n := nat_of_ascii c in
  if (65 <=? n)%nat && (n <=? 90)%nat then ascii_of_nat (n + 32) else c.
Definition ascii_upper (c : ascii) : ascii :=
  let n := nat_of_ascii c in
  if (97 <=? n)%nat && (n <=? 122)%nat then ascii_of_nat (n - 32) else c.
(** [strings.ToLower], [strings.ToUpper] and [strings.EqualFold] on ASCII text. *)
Definition ToLower := str_map ascii_lower.
Definition ToUpper := str_map ascii_upper.
Definition EqualFold (a b : string) : bool := bool_decide (ToLower a = ToLower b).

(** [strings.Split(s, sep)] for a one-byte separator: never empty. *)
Fixpoint Split (sep : ascii) (s : string) : list string :=
  match s with
  | "" => [""]
  | String c s' =>
      if bool_decide (c = sep) then "" :: Split sep s'
      else match Split sep s' with
           | [] => [String c ""]
           | w :: ws => String c w :: ws
           end
  end.
(** [strings.Join(ws, sep)]. *)
Definition Join (sep : string) (ws : list string) : string := String.concat sep ws.
Definition HasPrefix (s p : string) : bool := String.prefix p s.
(** [strings.Contains(s, t)]. *)
Fixpoint str_contains (t s : string) : bool :=
  HasPrefix s t || match s with "" => false | String _ s' => str_contains t s' end.

(** [strconv.Itoa] and the [%d] verb. *)
Definition itoa (z : Z) : string := DecimalString.NilZero.string_of_int (Z.to_int z).

(** [strings.TrimSpace] on ASCII text. *)
Definition is_space (c : ascii) : bool :=
  let n := nat_of_ascii c in (n =? 32)%nat || ((9 <=? n)%nat && (n <=? 13)%nat).
Fixpoint trim_left (s : string) : string :=
  match s with String c s' => if is_space c then trim_left s' else s | "" => "" end.
Fixpoint trim_right (s : string) : string :=
  match s with
  | "" => ""
  | String c s' => match trim_right s' with
                   | "" => if is_space c then "" else String c ""
                   | r => String c r
                   end
  end.
Definition TrimSpace (s : string) : string := trim_right (trim_left s).
(** [strings.SplitN(s, sep, 2)] with a one-byte separator. *)
Fixpoint SplitN2 (sep : ascii) (s : string) : string * option string :=
  match s with
  | "" => ("", None)
  | String c s' => if bool_decide (c = sep) then ("", Some s')
                   else let '(a, b) := SplitN2 sep s' in (String c a, b)
  end.
Definition first_char (s : string) : option ascii := match s with String c _ => Some c | "" => None end.
Fixpoint last_char (s : string) : option ascii :=
  match s with String c "" => Some c | String _ s => last_char s | "" => None end.

Lemma str_app_assoc (a b c : string) : (a +:+ b) +:+ c = a +:+ (b +:+ c).
Proof. induction a as [|x a IH]; cbn; [done|]. by rewrite IH. Qed.
Lemma str_app_nil_r (a : string) : a +:+ "" = a.
Proof. induction a as [|x a IH]; cbn; [done|]. by rewrite IH. Qed.
Lemma str_length_app (a b : string) :
  String.length (a +:+ b) = (String.length a + String.length b)%nat.
Proof. induction a as [|x a IH]; cbn; [done|]. by rewrite IH. Qed.
Lemma str_forallb_app p a b : str_forallb p (a +:+ b) = str_forallb p a && str_forallb p b.
Proof. induction a as [|x a IH]; cbn; [done|]. by rewrite IH, andb_assoc. Qed.
Lemma str_has_app c a b : str_has c (a +:+ b) = str_has c a || str_has c b.
Proof. unfold str_has. by rewrite str_forallb_app, negb_andb. Qed.
Lemma str_has_cons c d s : str_has c (String d s) = bool_decide (d = c) || str_has c s.
Proof.
  unfold str_has; cbn. rewrite negb_andb. f_equal.
  destruct (decide (d = c)); [rewrite bool_decide_false, bool_decide_true by naive_solver; done|].
  by rewrite bool_decide_true, bool_decide_false.
Qed.

(** Cutting two equal strings at the first occurrence of a byte neither head holds. *)
Lemma str_cut (c : ascii) (a b a' b' : string) :
  str_has c a = false → str_has c a' = false →
  a +:+ String c b = a' +:+ String c b' → a = a' ∧ b = b'.
Proof.
  revert a'. induction a as [|x a IH]; intros [|x' a']; rewrite ?str_has_cons; cbn.
  - intros _ _ [= ->]. done.
  - intros _ [Hx _]%orb_false_iff [= -> _]. by apply bool_decide_eq_false in Hx.
  - intros [Hx _]%orb_false_iff _ [= -> _]. by apply bool_decide_eq_false in Hx.
  - intros [_ Ha]%orb_false_iff [_ Ha']%orb_false_iff [= -> He].
    destruct (IH a' Ha Ha' He) as [-> ->]. done.
Qed.

(** Equal strings with heads of equal length split at the same place. *)
Lemma str_app_len (a b a' b' : string) :
  String.length a = String.length a' → a +:+ b = a' +:+ b' → a = a' ∧ b = b'.
Proof.
  revert a'. induction a as [|x a IH]; intros [|x' a'] Hl; cbn in *; try lia; [done|].
  intros [= -> He]. destruct (IH a') as [-> ->]; [lia|done|done].
Qed.

Lemma HasPrefix_app p s : HasPrefix (p +:+ s) p = true.
Proof.
  unfold HasPrefix. induction p as [|c p IH]; cbn; [by destruct s|].
  by destruct (Ascii.ascii_dec c c).
Qed.

(** Joining with the empty separator is concatenation. *)
Lemma Join_cons (a : string) (l : list string) : Join "" (a :: l) = a +:+ Join "" l.
Proof. destruct l; cbn; [by rewrite str_app_nil_r|done]. Qed.
Lemma Join_app (l1 l2 : list string) : Join "" (l1 ++ l2) = Join "" l1 +:+ Join "" l2.
Proof. induction l1 as [|a l1 IH]; [done|]. cbn [app]. by rewrite !Join_cons, IH, str_app_assoc. Qed.

Lemma Split_nonempty c s : Split c s ≠ [].
Proof. induction s as [|d s IH]; cbn; [done|]. repeat case_match; done. Qed.

Lemma Split_app c a s :
  str_has c a = false →
  Split c (a +:+ String c s) = a :: Split c s.
Proof.
  induction a as [|d a IH]; rewrite ?str_has_cons; cbn.
  - intros _. by rewrite bool_decide_true.
  - intros [Hd Ha]%orb_false_iff. rewrite Hd, IH by done. done.
Qed.
Lemma Split_none c a : str_has c a = false → Split c a = [a].
Proof.
  induction a as [|d a IH]; rewrite ?str_has_cons; cbn; [done|].
  intros [Hd Ha]%orb_false_iff. rewrite Hd, IH by done. done.
Qed.
(** [Split] undoes [Join] when no word holds the separator. *)
Lemma Split_Join c ws :
  ws ≠ [] → Forall (λ w, str_has c w = false) ws →
  Split c (Join (String c "") ws) = ws.
Proof.
  induction ws as [|w ws IH]; [done|]. intros _ [Hw Hws]%Forall_cons.
  destruct ws as [|w' ws]; [by apply Split_none|].
  change (Join (String c "") (w :: w' :: ws)) with (w +:+ String c (Join (String c "") (w' :: ws))).
  rewrite Split_app, IH by done. done.
Qed.

Definition int64_min : Z := - 2 ^ 63.
Definition int64_max : Z := 2 ^ 63 - 1.
Definition in_int64 (z : Z) : bool := (int64_min <=? z) && (z <=? int64_max).
(** Arithmetic on an int64 wraps around. *)
Definition wrap64 (z : Z) : Z := (z + 2 ^ 63) mod 2 ^ 64 - 2 ^ 63.
Lemma wrap64_id z : in_int64 z = true → wrap64 z = z.
Proof.
  unfold in_int64, int64_min, int64_max. intros [H1%Z.leb_le H2%Z.leb_le]%andb_true_iff.
  unfold wrap64. rewrite Z.mod_small by lia. lia.
Qed.
Lemma wrap64_range z : in_int64 (wrap64 z) = true.
Proof.
  unfold in_int64, int64_min, int64_max, wrap64. pose proof (Z.mod_pos_bound (z + 2 ^ 63) (2 ^ 64)).
  apply andb_true_iff. rewrite !Z.leb_le. lia.
Qed.

(** [strconv.ParseInt(s, 10, 64)]: an optional sign, decimal digits, in range. *)
Definition ParseInt64 (s : string) : option Z :=
  let body := match s with
              | String "+" s' => match s' with String "-" _ => "" | _ => s' end
              | _ => s
              end in
  i ← DecimalString.NilZero.int_of_string body;
  let z := Z.of_int i in
  if in_int64 z then Some z else None.

Definition is_digit (c : ascii) : bool :=
  let n := nat_of_ascii c in (48 <=? n)%nat && (n <=? 57)%nat.
Definition is_int_char (c : ascii) : bool := is_digit c || bool_decide (c = "-"%char).

Lemma SplitN2_app c a b : str_has c a = false → SplitN2 c (a +:+ String c b) = (a, Some b).
Proof.
  induction a as [|d a IH]; rewrite ?str_has_cons; cbn; [by rewrite bool_decide_true|].
  intros [Hd Ha]%orb_false_iff. by rewrite Hd, IH.
Qed.
Lemma trim_right_id s :
  str_forallb (λ c, negb (is_space c)) s = true → trim_right s = s.
Proof.
  induction s as [|c s IH]; cbn; [done|]. intros [Hc Hs]%andb_true_iff. rewrite IH by done.
  apply negb_true_iff in Hc. rewrite Hc. by destruct s.
Qed.
Lemma TrimSpace_id s : str_forallb (λ c, negb (is_space c)) s = true → TrimSpace s = s.
Proof.
  intros H. unfold TrimSpace. assert (trim_left s = s) as ->; [|by apply trim_right_id].
  destruct s as [|c s]; cbn in *; [done|]. apply andb_true_iff in H as [Hc _].
  apply negb_true_iff in Hc. by rewrite Hc.
Qed.

(** A text that neither begins nor ends with white space, and is not empty. *)
Definition trimmed (s : string) : bool :=
  match first_char s, last_char s with
  | Some a, Some b => negb (is_space a) && negb (is_space b)
  | _, _ => false
  end.
Lemma first_char_app a b : a ≠ "" → first_char (a +:+ b) = first_char a.
Proof. by destruct a. Qed.
Lemma last_char_app a b : b ≠ "" → last_char (a +:+ b) = last_char b.
Proof.
  intros Hb. induction a as [|c a IH]; cbn; [done|].
  destruct (a +:+ b) eqn:He; [|by rewrite IH]. destruct a; [|done]. cbn in He. done.
Qed.
Lemma trimmed_nonempty s : trimmed s = true → s ≠ "".
Proof. by destruct s. Qed.
Lemma trimmed_first s c : trimmed s = true → first_char s = Some c → is_space c = false.
Proof.
  unfold trimmed. intros H Hf. rewrite Hf in H. destruct (last_char s); [|done].
  by apply andb_true_iff in H as [H _]; apply negb_true_iff in H.
Qed.
Lemma trim_right_last s c : last_char s = Some c → is_space c = false → trim_right s = s.
Proof.
  induction s as [|d s IH]; cbn; [done|]. intros H Hc. destruct s as [|e s].
  - cbn. injection H as ->. by rewrite Hc.
  - by rewrite (IH H Hc).
Qed.
Lemma trimmed_TrimSpace s : trimmed s = true → TrimSpace s = s.
Proof.
  destruct s as [|c s]; [done|]. unfold trimmed, TrimSpace. cbn [first_char trim_left].
  destruct (last_char (String c s)) as [d|] eqn:Hl; [|done].
  intros [Hc Hd]%andb_true_iff. apply negb_true_iff in Hc, Hd. rewrite Hc.
  by apply (trim_right_last _ d).
Qed.
Lemma trimmed_app a b : trimmed a = true → trimmed b = true → trimmed (a +:+ b) = true.
Proof.
  intros Ha Hb. pose proof (trimmed_nonempty a Ha). pose proof (trimmed_nonempty b Hb).
  unfold trimmed in *. rewrite first_char_app, last_char_app by done.
  destruct (first_char a), (last_char a), (first_char b), (last_char b); try done.
  apply andb_true_iff in Ha as [-> _], Hb as [_ ->]. done.
Qed.
Lemma trimmed_char c : is_space c = false → trimmed (String c "") = true.
Proof. intros H. cbn. by rewrite H. Qed.
Lemma trimmed_Join c ws :
  is_space c = false → ws ≠ [] → Forall (λ w, trimmed w = true) ws →
  trimmed (Join (String c "") ws) = true.
Proof.
  intros Hc. induction ws as [|w ws IH]; [done|]. intros _ [Hw Hws]%Forall_cons.
  destruct ws as [|w' ws]; [done|].
  change (Join (String c "") (w :: w' :: ws)) with (w +:+ (String c "" +:+ Join (String c "") (w' :: ws))).
  apply trimmed_app; [done|]. apply trimmed_app; [by apply trimmed_char|by apply IH].
Qed.
Lemma str_has_Join c d ws :
  c ≠ d → Forall (λ w, str_has c w = false) ws → str_has c (Join (String d "") ws) = false.
Proof.
  intros Hd. induction 1 as [|w ws Hw Hws IH]; [done|].
  destruct ws as [|w' ws]; [done|].
  change (Join (String d "") (w :: w' :: ws)) with (w +:+ (String d "" +:+ Join (String d "") (w' :: ws))).
  rewrite !str_has_app, str_has_cons, Hw, IH, bool_decide_false by done. done.
Qed.

Lemma uint_chars d : str_forallb is_int_char (DecimalString.NilEmpty.string_of_uint d) = true.
Proof. induction d; cbn; done. Qed.
Lemma itoa_chars z : str_forallb is_int_char (itoa z) = true.
Proof.
  unfold itoa, DecimalString.NilZero.string_of_int, DecimalString.NilZero.string_of_uint.
  destruct (Z.to_int z) as [d|d]; destruct d; cbn; try done; apply uint_chars.
Qed.
Lemma str_forallb_has (p : ascii → bool) c s :
  str_forallb p s = true → p c = false → str_has c s = false.
Proof.
  intros Hs Hc. induction s as [|d s IH]; [done|]. rewrite str_has_cons.
  cbn in Hs. apply andb_true_iff in Hs as [Hd Hs]. rewrite IH by done.
  rewrite bool_decide_false; [done|]. intros ->. congruence.
Qed.
(** No character but a digit or a minus sign occurs in a printed integer. *)
Lemma itoa_has c z : is_int_char c = false → str_has c (itoa z) = false.
Proof. intros. by eapply str_forallb_has; [apply itoa_chars|]. Qed.

Lemma to_int_nonnil z : ∀ d, Z.to_int z = d → d ≠ Decimal.Pos Decimal.Nil ∧ d ≠ Decimal.Neg Decimal.Nil.
Proof.
  intros d <-. destruct z as [|p|p]; cbn; [done|..];
    (split; [|try done]); try done; intros [= H];
    by apply (DecimalPos.Unsigned.to_uint_nonnil p).
Qed.
Lemma int_of_itoa z : DecimalString.NilZero.int_of_string (itoa z) = Some (Z.to_int z).
Proof.
  unfold itoa. destruct (to_int_nonnil z _ eq_refl).
  by apply DecimalString.NilZero.isi.
Qed.
Lemma itoa_inj z z' : itoa z = itoa z' → z = z'.
Proof.
  intros H. pose proof (int_of_itoa z) as H1. rewrite H, int_of_itoa in H1.
  injection H1 as H1. by rewrite <- (DecimalZ.of_to z), <- H1, DecimalZ.of_to.
Qed.
Lemma itoa_not_plus z s : itoa z ≠ String "+" s.
Proof.
  intros H. pose proof (itoa_has "+" z eq_refl) as Hp. by rewrite H, str_has_cons in Hp.
Qed.
(** Printing and parsing an int64 is the identity. *)
Lemma ParseInt64_itoa z : in_int64 z = true → ParseInt64 (itoa z) = Some z.
Proof.
  intros Hz. unfold ParseInt64.
  assert (match itoa z with
          | String "+" s' => match s' with String "-" _ => "" | _ => s' end
          | _ => itoa z end = itoa z) as ->.
  { pose proof (itoa_not_plus z) as Hp. destruct (itoa z) as [|[[][][][][][][][]] s]; try done.
    by destruct (Hp s). }
  rewrite int_of_itoa. cbn. rewrite DecimalZ.of_to, Hz. done.
Qed.
Lemma itoa_nonempty z : itoa z ≠ "".
Proof.
  unfold itoa, DecimalString.NilZero.string_of_int, DecimalString.NilZero.string_of_uint.
  destruct (Z.to_int z) as [d|d]; destruct d; done.
Qed.
#[global] Instance itoa_Inj : Inj (=) (=) itoa.
Proof. intros ??. apply itoa_inj. Qed.

(** ** Sorted views of maps and lists *)

(** [sort.Strings]: bytewise lexicographic order. *)
Definition sort_strings : list string → list string := merge_sort String.le.

Lemma sort_strings_perm l : sort_strings l ≡ₚ l.
Proof. apply merge_sort_Permutation. Qed.
Lemma sort_strings_sorted l : Sorted String.le (sort_strings l).
Proof. apply Sorted_merge_sort; apply _. Qed.
(** Sorting forgets the order of the input. *)
Lemma sort_strings_proper l1 l2 : l1 ≡ₚ l2 → sort_strings l1 = sort_strings l2.
Proof.
  intros H. apply (Sorted_unique String.le); [apply sort_strings_sorted..|].
  by rewrite !sort_strings_perm.
Qed.
#[global] Instance sort_strings_Proper : Proper ((≡ₚ) ==> (=)) sort_strings.
Proof. intros ???. by apply sort_strings_proper. Qed.
Lemma elem_of_sort_strings x l : x ∈ sort_strings l ↔ x ∈ l.
Proof. by rewrite sort_strings_perm. Qed.

(** A Go map that may be nil: reading a nil map finds nothing. *)
Definition gomap (V : Type) : Type := option (gmap string V).
Definition golookup {V} (k : string) (m : gomap V) : option V :=
  match m with Some m => m !! k | None => None end.
Definition golen {V} (m : gomap V) : nat := match m with Some m => size m | None => 0 end.
(** The entries of a map in [utils.GetMapKeysSorted] order. *)
Definition map_keys {V} (m : gmap string V) : list string := (map_to_list m).*1.
Definition sorted_keys {V} (m : gmap string V) : list string := sort_strings (map_keys m).

Lemma elem_of_map_keys {V} (m : gmap string V) k : k ∈ map_keys m ↔ is_Some (m !! k).
Proof.
  unfold map_keys. rewrite list_elem_of_fmap. split.
  - intros ([k' v] & -> & H). apply elem_of_map_to_list in H. eauto.
  - intros [v Hv]. exists (k, v). split; [done|]. by apply elem_of_map_to_list.
Qed.
Lemma elem_of_sorted_keys {V} (m : gmap string V) k : k ∈ sorted_keys m ↔ is_Some (m !! k).
Proof. unfold sorted_keys. by rewrite elem_of_sort_strings, elem_of_map_keys. Qed.
Lemma NoDup_sorted_keys {V} (m : gmap string V) : NoDup (sorted_keys m).
Proof. unfold sorted_keys. rewrite sort_strings_perm. apply NoDup_fst_map_to_list. Qed.
(** Two maps with the same keys list them in the same order. *)
Lemma sorted_keys_dom {V W} (m : gmap string V) (m' : gmap string W) :
  (∀ k, is_Some (m !! k) ↔ is_Some (m' !! k)) → sorted_keys m = sorted_keys m'.
Proof.
  intros H. apply (Sorted_unique String.le); [apply sort_strings_sorted..|].
  apply NoDup_Permutation; [apply NoDup_sorted_keys..|].
  intros k. by rewrite !elem_of_sorted_keys.
Qed.

(** ** Strictly increasing lists, cut at a bound *)
Definition leq (B : Z) (l : list Z) : list Z := filter (λ v, v ≤ B) l.
Definition lastZ (l : list Z) : Z := default 0 (last l).

Lemma leq_app B l1 l2 : leq B (l1 ++ l2) = leq B l1 ++ leq B l2.
Proof. apply filter_app. Qed.
Lemma elem_of_leq B l v : v ∈ leq B l ↔ v ≤ B ∧ v ∈ l.
Proof. unfold leq. by rewrite list_elem_of_filter. Qed.
Lemma leq_all B l : Forall (λ v, v ≤ B) l → leq B l = l.
Proof. induction 1 as [|v l Hv _ IH]; [done|]. unfold leq. rewrite filter_cons_True by done. by f_equal. Qed.
Lemma leq_none B l : Forall (λ v, B < v) l → leq B l = [].
Proof. induction 1 as [|v l Hv _ IH]; [done|]. unfold leq. rewrite filter_cons_False by lia. done. Qed.
Lemma lastZ_elem l : l ≠ [] → lastZ l ∈ l.
Proof.
  unfold lastZ. destruct (last l) as [v|] eqn:E; [intros _|by apply last_None in E].
  cbn. by apply last_Some_elem_of.
Qed.
Lemma lastZ_app l1 l2 : l2 ≠ [] → lastZ (l1 ++ l2) = lastZ l2.
Proof. intros H. unfold lastZ. rewrite last_app. destruct (last l2) eqn:E; [done|]. by apply last_None in E. Qed.
Lemma sorted_NoDup (l : list Z) : StronglySorted Z.lt l → NoDup l.
Proof.
  induction 1 as [|v l _ IH Hv]; constructor; [|done].
  intros Hin. rewrite Forall_forall in Hv. specialize (Hv _ Hin). lia.
Qed.
Lemma leq_sorted B l : StronglySorted Z.lt l → StronglySorted Z.lt (leq B l).
Proof.
  induction 1 as [|r l Hs IH Hr]; [constructor|]. unfold leq. rewrite filter_cons.
  case_decide; [|done]. constructor; [done|]. apply Forall_forall. intros v [_ Hv]%elem_of_leq.
  rewrite Forall_forall in Hr. by apply Hr.
Qed.

(** A prefix of the values up to a bound is the values up to its own last one. *)
Lemma leq_prefix R : ∀ B X Y,
  StronglySorted Z.lt R → leq B R = X ++ Y → X ≠ [] → leq (lastZ X) R = X.
Proof.
  induction R as [|r R IH]; intros B X Y HR; unfold leq; [by destruct X|].
  inversion HR as [|? ? HR' Hr]; subst. rewrite filter_cons. fold (leq B R).
  case_decide as Hd.
  - destruct X as [|x X]; [done|]. intros [= -> HX] _.
    assert (Forall (λ v, x < v) R) as Hr' by done.
    destruct (decide (X = [])) as [->|Hne].
    + change (lastZ [x]) with x. rewrite filter_cons_True by lia. f_equal. by apply leq_none.
    + assert (lastZ (x :: X) = lastZ X) as -> by (by apply (lastZ_app [x])).
      pose proof (IH _ _ _ HR' HX Hne) as E. rewrite filter_cons_True; [by f_equal|].
      assert (lastZ X ∈ leq (lastZ X) R) as Hin by (rewrite E; by apply lastZ_elem).
      apply elem_of_leq in Hin as [_ Hin]. rewrite Forall_forall in Hr'. specialize (Hr' _ Hin). lia.
  - intros HX Hne. rewrite leq_none in HX; [by destruct X|].
    eapply Forall_impl; [exact Hr|]. cbn. intros. lia.
Qed.
(** What lies past the values up to [a] is greater than [a]. *)
Lemma leq_beyond R a b X Y :
  StronglySorted Z.lt R → leq a R = X → leq b R = X ++ Y → ∀ v, v ∈ Y → a < v.
Proof.
  intros HR Ha Hb v Hv. destruct (decide (v ≤ a)) as [Hle|]; [|lia].
  assert (v ∈ X) as HX.
  { rewrite <- Ha. apply elem_of_leq. split; [done|].
    assert (v ∈ leq b R) as H by (rewrite Hb; set_solver). by apply elem_of_leq in H as [_ ?]. }
  pose proof (sorted_NoDup _ (leq_sorted b _ HR)) as Hnd. rewrite Hb in Hnd.
  apply NoDup_app in Hnd as (_ & Hdis & _). by destruct (Hdis v HX).
Qed.
Lemma leq_mono_prefix R a b :
  StronglySorted Z.lt R → a ≤ b → ∃ Y, leq b R = leq a R ++ Y ∧ ∀ v, v ∈ Y → a < v.
Proof.
  intros HR Hab. induction HR as [|r R HR IH Hr]; [exists []; split; [done|set_solver]|].
  unfold leq. rewrite !filter_cons. fold (leq a R) (leq b R). destruct IH as (Y & -> & HY).
  destruct (decide (r ≤ a)).
  - rewrite decide_True by lia. by exists Y.
  - assert (leq a R = []) as ->.
    { apply leq_none. eapply Forall_impl; [exact Hr|]. cbn; intros; lia. }
    case_decide; cbn; [exists (r :: Y)|exists Y]; (split; [done|]); [|done].
    intros v [->|Hv]%elem_of_cons; [lia|by apply HY].
Qed.

(** ** Invariants of step relations *)
Lemma rtc_invariant {A} (R : relation A) (P : A → Prop) x z :
  P x → (∀ y z, P y → R y z → P z) → rtc R x z → P z.
Proof. intros Hx Hstep H. induction H as [|y w z Hyw _ IH]; [done|]. by eapply IH, Hstep. Qed.

Create HintDb voyager.
Create Rewrite HintDb voyager.
#[export] Hint Resolve sort_strings_sorted NoDup_sorted_keys itoa_nonempty : voyager.
#[export] Hint Rewrite @elem_of_sorted_keys @elem_of_map_keys elem_of_sort_strings : voyager.
