(* ===== verification/StructMap.v ===== *)
(** * utils.StructMap (src/yb-voyager/src/utils/struct_map.go)

    A Go map keyed by values that are not comparable: the key's [Key()] string
    indexes two maps, one for the keys and one for the values.  The type class
    [Keyer] is the source's interface; the map is abstracted to one finite map
    of (key, value) pairs, which every operation refines. *)
From S2P Require Import Prelude.

(** The interface [Keyer]. *)
Class Keyer (K : Type) := Key : K → string.

Module StructMap.
Section defs.
Context {K V : Type} `{HK : Keyer K}.

Record t : Type := mk { kmap : gmap string K; vmap : gmap string V }.

Definition NewStructMap : t := mk ∅ ∅.
Definition Put (m : t) (key : K) (value : V) : t :=
  mk (<[Key key := key]> (kmap m)) (<[Key key := value]> (vmap m)).
Definition Get (m : t) (key : K) : option V := vmap m !! Key key.
Definition Delete (m : t) (key : K) : t :=
  mk (delete (Key key) (kmap m)) (delete (Key key) (vmap m)).
(** A client that keeps a pointer to the stored value writes through it: only
    the value changes, the key object stays the one that was put first. *)
Definition Assign (m : t) (key : K) (value : V) : t := mk (kmap m) (<[Key key := value]> (vmap m)).
Definition Clear (m : t) : t := mk ∅ ∅.
Definition Keys (m : t) : list string := (map_to_list (kmap m)).*1.
Definition ActualKeys (m : t) : list K := (map_to_list (kmap m)).*2.

(** The loop of [IterKV] over the enumeration [order] of [kmap]: the callback
    threads a state and says whether to go on; its error stops the loop.  The
    value of a missing entry is Go's zero value. *)
Fixpoint iter_loop {S} (zero : V) (f : S → K → V → result (bool * S)) (m : t)
    (order : list (string * K)) (s : S) : result S :=
  match order with
  | [] => Ok s
  | (k, key) :: rest =>
      let value := default zero (vmap m !! k) in
      '(shouldContinue, s') ← f s key value;
      if shouldContinue : bool then iter_loop zero f m rest s' else Ok s'
  end.
(** Go leaves the order open; [order] is any enumeration of the map. *)
Definition IterKV {S} (order : list (string * K)) (zero : V)
    (f : S → K → V → result (bool * S)) (m : t) (s : S) : result S :=
  iter_loop zero f m order s.

Definition SortedActualKeys (le : relation K) `{∀ a b, Decision (le a b)} (m : t) : list K :=
  merge_sort le (ActualKeys m).
Definition IterKVSorted {S} (le : relation K) `{∀ a b, Decision (le a b)} (zero : V)
    (f : S → K → V → result (bool * S)) (m : t) (s : S) : result S :=
  iter_loop zero f m (map (λ k, (Key k, k)) (SortedActualKeys le m)) s.

(** ** Well-formedness and the abstraction *)

(** Both maps have the same index, and each key sits under its own string. *)
Definition wf (m : t) : Prop :=
  (∀ s, is_Some (kmap m !! s) ↔ is_Some (vmap m !! s)) ∧
  (∀ s k, kmap m !! s = Some k → Key k = s).

Definition abs (m : t) : gmap string (K * V) := map_zip (kmap m) (vmap m).

Lemma wf_New : wf NewStructMap.
Proof. split; intros s; cbn; rewrite !lookup_empty; done. Qed.
Lemma wf_Put m k v : wf m → wf (Put m k v).
Proof.
  intros [H1 H2]; split; intros s; cbn.
  - rewrite !lookup_insert. case_decide; [by split; eauto|apply H1].
  - intros k'. rewrite lookup_insert. case_decide; [by intros [= <-]|apply H2].
Qed.
Lemma wf_Delete m k : wf m → wf (Delete m k).
Proof.
  intros [H1 H2]; split; intros s; cbn.
  - rewrite !lookup_delete. case_decide; [by split; intros []|apply H1].
  - intros k'. rewrite lookup_delete. case_decide; [done|apply H2].
Qed.

Lemma wf_Assign m k v : wf m → is_Some (vmap m !! Key k) → wf (Assign m k v).
Proof.
  intros [H1 H2] Hk; split; intros s; cbn; [|apply H2].
  rewrite lookup_insert. case_decide; [|apply H1]. subst. rewrite H1. by split; eauto.
Qed.

Lemma abs_lookup m s : wf m → abs m !! s = k ← kmap m !! s; v ← vmap m !! s; Some (k, v).
Proof. intros _. unfold abs. rewrite map_lookup_zip_with. by destruct (kmap m !! s). Qed.

Lemma Get_abs m k : wf m → Get m k = snd <$> abs m !! Key k.
Proof.
  intros Hwf. rewrite abs_lookup by done. unfold Get. destruct Hwf as [H _].
  specialize (H (Key k)). destruct (kmap m !! Key k), (vmap m !! Key k); try done.
  destruct (proj2 H); eauto; done.
Qed.
Lemma abs_Put m k v : abs (Put m k v) = <[Key k := (k, v)]> (abs m).
Proof. unfold abs, Put; cbn. by rewrite <- map_insert_zip_with. Qed.
Lemma abs_Delete m k : abs (Delete m k) = delete (Key k) (abs m).
Proof. unfold abs, Delete; cbn. by rewrite <- map_delete_zip_with. Qed.

(** A callback that never stops early folds over every entry once. *)
Lemma iter_loop_fold {S} zero (g : S → K → V → S) m order s :
  wf m → (∀ k key, (k, key) ∈ order → kmap m !! k = Some key) →
  iter_loop zero (λ s k v, Ok (true, g s k v)) m order s =
    Ok (foldl (λ s p, g s p.2 (default zero (Get m p.2))) s order).
Proof.
  intros [_ Hk]. revert s. induction order as [|[k key] order IH]; intros s Ho; cbn; [done|].
  rewrite IH by (intros; apply Ho; by right). do 2 f_equal.
  assert (Key key = k) as <- by (apply Hk, Ho; left). done.
Qed.

(** A loop of [Put]s over a list: what it stores under a key all of whose
    entries agree. *)
Lemma wf_foldl_Put {A} (key : A → K) (g : A → V) l m :
  wf m → wf (foldl (λ r a, Put r (key a) (g a)) m l).
Proof. revert m. induction l as [|a l IH]; intros m Hm; [done|]. by apply IH, wf_Put. Qed.
Lemma Get_Put m k v k' : Get (Put m k v) k' = if decide (Key k = Key k') then Some v else Get m k'.
Proof. unfold Get; cbn. rewrite lookup_insert. by repeat case_decide. Qed.
Lemma Get_foldl_Put {A} (key : A → K) (g : A → V) l m k v :
  (∀ a, a ∈ l → Key (key a) = Key k → g a = v) →
  Get (foldl (λ r a, Put r (key a) (g a)) m l) k =
    if decide (Key k ∈ map (λ a, Key (key a)) l) then Some v else Get m k.
Proof.
  revert m. induction l as [|a l IH]; intros m Hg; [done|]. cbn [foldl map].
  rewrite IH by (intros; apply Hg; [by right|done]). rewrite Get_Put.
  destruct (decide (Key (key a) = Key k)) as [Hk|Hk].
  - rewrite (Hg a) by first [by left|done].
    rewrite (decide_True (P := Key k ∈ _ :: _)) by (rewrite Hk; left).
    by case_decide.
  - destruct (decide (Key k ∈ map (λ a, Key (key a)) l)).
    + rewrite decide_True by (by right). done.
    + rewrite decide_False; [done|]. rewrite elem_of_cons. naive_solver.
Qed.
(** The entries an enumeration shows are the ones [Get] reads. *)
Lemma Get_entries m k :
  wf m → is_Some (Get m k) ↔ Key k ∈ map (λ p, Key p.2) (map_to_list (kmap m)).
Proof.
  intros [H1 H2]. unfold Get. rewrite <- (H1 (Key k)). rewrite list_elem_of_fmap. split.
  - intros [key Hk]. exists (Key k, key). cbn. split; [by rewrite (H2 _ _ Hk)|].
    by apply elem_of_map_to_list.
  - intros ([s key] & -> & Hp). apply elem_of_map_to_list in Hp. cbn.
    rewrite (H2 _ _ Hp). by exists key.
Qed.
Lemma entries_NoDup m : wf m → NoDup (map (λ p, Key p.2) (map_to_list (kmap m))).
Proof.
  intros [_ H2].
  assert (map (λ p, Key p.2) (map_to_list (kmap m)) = (map_to_list (kmap m)).*1) as ->.
  { apply list_fmap_ext. intros i [s key] Hi. cbn. apply H2, elem_of_map_to_list.
    by apply list_elem_of_lookup_2 with i. }
  apply NoDup_fst_map_to_list.
Qed.

(** ** Client programs against the abstract map *)

Inductive op : Type := OPut (k : K) (v : V) | ODelete (k : K) | OClear.
Definition apply (m : t) (o : op) : t :=
  match o with OPut k v => Put m k v | ODelete k => Delete m k | OClear => Clear m end.
Definition run (m : t) (os : list op) : t := foldl apply m os.

(** What a client expects: one finite map from key strings to entries. *)
Definition spec_apply (m : gmap string (K * V)) (o : op) : gmap string (K * V) :=
  match o with
  | OPut k v => <[Key k := (k, v)]> m
  | ODelete k => delete (Key k) m
  | OClear => ∅
  end.
Definition spec_run (m : gmap string (K * V)) (os : list op) : gmap string (K * V) :=
  foldl spec_apply m os.

Lemma wf_apply m o : wf m → wf (apply m o).
Proof. destruct o; cbn; intros; [by apply wf_Put|by apply wf_Delete|apply wf_New]. Qed.
Lemma abs_apply m o : abs (apply m o) = spec_apply (abs m) o.
Proof. destruct o; cbn; [apply abs_Put|apply abs_Delete|apply map_zip_with_empty]. Qed.
Lemma run_refines m os : wf m → wf (run m os) ∧ abs (run m os) = spec_run (abs m) os.
Proof.
  unfold run, spec_run. revert m. induction os as [|o os IH]; intros m Hm; cbn; [done|].
  rewrite <- abs_apply. by apply IH, wf_apply.
Qed.

Lemma ActualKeys_abs m : wf m → ActualKeys m ≡ₚ (map_to_list (abs m)).*2.*1.
Proof.
  intros Hwf. assert (kmap m = fst <$> abs m) as Hk.
  { apply map_eq. intros s. rewrite lookup_fmap, abs_lookup by done.
    destruct Hwf as [H _]. specialize (H s).
    destruct (kmap m !! s), (vmap m !! s); try done. destruct (proj1 H); eauto; done. }
  unfold ActualKeys. rewrite Hk, map_to_list_fmap, <- !list_fmap_compose. done.
Qed.

(** The map promises its clients a finite map from key strings to (key, value)
    pairs: after any sequence of puts, deletes and clears, [Get] reads that map and
    [ActualKeys] lists its keys. *)
Theorem StructMap_refines (os : list op) (k : K) :
  let m := run NewStructMap os in
  let sp := spec_run ∅ os in
  Get m k = snd <$> sp !! Key k ∧ ActualKeys m ≡ₚ (map_to_list sp).*2.*1 ∧ wf m.
Proof.
  cbn zeta. destruct (run_refines NewStructMap os wf_New) as [Hwf Habs].
  assert (abs NewStructMap = ∅) as H0 by apply map_zip_with_empty.
  rewrite H0 in Habs. rewrite Get_abs, ActualKeys_abs, Habs by done. done.
Qed.
End defs.
Arguments t K V : clear implicits.
Arguments op K V : clear implicits.
End StructMap.
