(* ===== verification/SqlName.v ===== *)
(** * sqlname (src/yb-voyager/src/utils/sqlname: sqlname.go and nametuple.go)

    Quoted, unquoted and minimally quoted spellings of schema and object names,
    the tuple of source and target names a table goes by, and the key string
    under which every per-table map of the importer files it.  A panic of the
    source is a [Panic] of the result type.  Names are ASCII text: Go's
    [unicode.IsLetter] and [strings.ToLower] are read on the ASCII range.

    Go's process-wide [SourceDBType] and [PreserveCase] are arguments. *)
From S2P Require Import Prelude StructMap.

Module SqlName.

(** ** Database types (src/yb-voyager/src/constants/constants.go) *)
Definition YUGABYTEDB : string := "yugabytedb".
Definition POSTGRESQL : string := "postgresql".
Definition ORACLE : string := "oracle".
Definition MYSQL : string := "mysql".
Definition YUGABYTEDB_AMP : string := "yugabytedb-amp".

Definition is_pg_family (dbType : string) : bool :=
  bool_decide (dbType ∈ [YUGABYTEDB; POSTGRESQL; YUGABYTEDB_AMP]).

(** ** Character tests and reserved words *)
Definition first_is (c : ascii) (s : string) : bool :=
  match s with String d _ => bool_decide (d = c) | "" => false end.
Fixpoint last_is (c : ascii) (s : string) : bool :=
  match s with
  | "" => false
  | String d "" => bool_decide (d = c)
  | String _ s => last_is c s
  end.
Definition dq : ascii := ascii_of_nat 34.
Definition bq : ascii := ascii_of_nat 96.

Definition IsQuoted (s : string) : bool :=
  if (String.length s <? 2)%nat then false
  else (first_is dq s && last_is dq s) || (first_is bq s && last_is bq s).

(** [s[1 : len(s)-1]]. *)
Definition strip_ends (s : string) : string := String.substring 1 (String.length s - 2) s.

Definition is_upper (c : ascii) : bool :=
  let n := nat_of_ascii c in (65 <=? n)%nat && (n <=? 90)%nat.
Definition is_lower (c : ascii) : bool :=
  let n := nat_of_ascii c in (97 <=? n)%nat && (n <=? 122)%nat.
Definition IsAllUppercase (s : string) : bool := str_forallb (λ c, negb (is_lower c)) s.
Definition IsAllLowercase (s : string) : bool :=
  str_forallb (λ c, bool_decide (c = "_"%char)
                    || ((is_lower c || is_upper c || is_digit c) && negb (is_upper c))) s.

Definition PgReservedKeywords : list string :=
  ["all"; "analyse"; "analyze"; "and"; "any"; "array"; "as"; "asc"; "asymmetric"; "both";
   "case"; "cast"; "check"; "collate"; "column"; "constraint"; "create"; "current_catalog";
   "current_date"; "current_role"; "current_time"; "current_timestamp"; "current_user";
   "default"; "deferrable"; "desc"; "distinct"; "do"; "else"; "end"; "except"; "false";
   "fetch"; "for"; "foreign"; "from"; "grant"; "group"; "having"; "in"; "initially";
   "intersect"; "into"; "lateral"; "leading"; "limit"; "localtime"; "localtimestamp"; "not";
   "null"; "offset"; "on"; "only"; "or"; "order"; "placing"; "primary"; "references";
   "returning"; "select"; "session_user"; "some"; "symmetric"; "table"; "then"; "to";
   "trailing"; "true"; "union"; "unique"; "user"; "using"; "variadic"; "when"; "where";
   "window"; "with"].
Definition OracleReservedKeywords : list string :=
  ["ACCESS"; "ADD"; "ADMIN"; "AFTER"; "ALL"; "ALTER"; "ANALYZE"; "AND"; "ANY"; "ARCHIVE";
   "ARCHIVELOG"; "ARRAYLEN"; "AS"; "ASC"; "AUTHORIZATION"; "AVG"; "BACKUP"; "BECOME"; "BEFORE";
   "BEGIN"; "BETWEEN"; "BLOCK"; "BODY"; "BY"; "CACHE"; "CANCEL"; "CASCADE"; "CHANGE"; "CHAR";
   "CHECK"; "CHECKPOINT"; "CLOSE"; "CLUSTER"; "COBOL"; "COLUMN"; "COMMENT"; "COMMIT";
   "COMPILE"; "COMPRESS"; "CONNECT"; "CONSTRAINT"; "CONSTRAINTS"; "CONTENTS"; "CONTINUE";
   "CONTROLFILE"; "COUNT"; "CREATE"; "CURRENT"; "CYCLE"; "DATAFILE"; "DATABASE"; "DATE";
   "DECIMAL"; "DECLARE"; "DEFAULT"; "DEFERRABLE"; "DELETE"; "DESC"; "DISABLE"; "DISTINCT";
   "DISTRIBUTE"; "DROP"; "DUMP"; "EACH"; "ELSE"; "ENABLE"; "END"; "ESCAPE"; "EXCEPT";
   "EXCEPTIONS"; "EXCLUSIVE"; "EXEC"; "EXECUTE"; "EXISTS"; "EXIT"; "EXTERNALLY"; "EXTRACT";
   "FAILED"; "FETCH"; "FLOAT"; "FOR"; "FORCE"; "FOREIGN"; "FOUND"; "FROM"; "FUNCTION"; "GOTO";
   "GRANT"; "GROUP"; "GROUPS"; "HAVING"; "IDENTIFIED"; "IMMEDIATE"; "INCLUDING"; "INCREMENT";
   "INDEX"; "INDICATOR"; "INITIAL"; "INITRANS"; "INSERT"; "INSTANCE"; "INT"; "INTEGER";
   "INTERSECT"; "INTO"; "IS"; "KEY"; "LAYER"; "LEVEL"; "LIKE"; "LINK"; "LISTS"; "LOCK";
   "LOGFILE"; "LONG"; "MANAGE"; "MANUAL"; "MAX"; "MAXDATAFILES"; "MAXEXTENTS"; "MAXINSTANCES";
   "MAXLOGFILES"; "MAXLOGHISTORY"; "MAXLOGMEMBERS"; "MAXTRANS"; "MAXVALUE"; "MIN";
   "MINEXTENTS"; "MINUS"; "MINVALUE"; "MODE"; "MODIFY"; "MODULE"; "MOUNT"; "NEXT";
   "NOARCHIVELOG"; "NOCACHE"; "NOCOMPRESS"; "NOCYCLE"; "NOORDER"; "NORESETLOGS"; "NORMAL";
   "NOT"; "NOTFOUND"; "NOWAIT"; "NULL"; "NUMBER"; "NUMERIC"; "OFF"; "OFFLINE"; "ON"; "ONLINE";
   "ONLY"; "OPEN"; "OPTION"; "OR"; "ORDER"; "OWN"; "PACKAGE"; "PARALLEL"; "PCTFREE";
   "PCTINCREASE"; "PCTUSED"; "PLAN"; "PLI"; "POOL"; "PRIOR"; "PRIVILEGES"; "PROCEDURE";
   "PUBLIC"; "RAW"; "RBA"; "READ"; "REAL"; "RECOVER"; "REFERENCES"; "REFERENCING"; "RELEASE";
   "RENAME"; "RESOURCE"; "RESTRICTED"; "RETURN"; "REUSE"; "REVOKE"; "ROLE"; "ROLES";
   "ROLLBACK"; "ROW"; "ROWID"; "ROWLABEL"; "ROWNUM"; "ROWS"; "SCHEMA"; "SCN"; "SECTION";
   "SEGMENT"; "SELECT"; "SEQUENCE"; "SESSION"; "SET"; "SHARE"; "SHARED"; "SIZE"; "SMALLINT";
   "SNAPSHOT"; "SOME"; "SORT"; "SQL"; "SQLBUF"; "SQLCODE"; "SQLERROR"; "SQLSTATE"; "START";
   "STATEMENT_ID"; "STATISTICS"; "STOP"; "STORAGE"; "SUCCESSFUL"; "SWITCH"; "SYNONYM";
   "SYSDATE"; "SYSTEM"; "TABLE"; "TABLES"; "TABLESPACE"; "TEMPORARY"; "THEN"; "THREAD"; "TIME";
   "TO"; "TRACING"; "TRIGGER"; "TRIGGERS"; "TRUNCATE"; "UID"; "UNION"; "UNIQUE"; "UNTIL";
   "UPDATE"; "USE"; "USER"; "VALIDATE"; "VALUES"; "VARCHAR"; "VARCHAR2"; "VIEW"; "WHEN";
   "WHENEVER"; "WHERE"; "WHILE"; "WITH"; "WORK"; "WRITE"].
Definition IsReservedKeywordPG (word : string) : bool := bool_decide (word ∈ PgReservedKeywords).
Definition IsReservedKeywordOracle (word : string) : bool :=
  bool_decide (word ∈ OracleReservedKeywords).
Definition IsCaseSensitive (s sourceDbType : string) : result bool :=
  if decide (sourceDbType = ORACLE) then Ok (negb (IsAllUppercase s))
  else if decide (sourceDbType = POSTGRESQL) then Ok (negb (IsAllLowercase s))
  else if decide (sourceDbType = MYSQL) then Ok false
  else Panic "invalid source db type".

(** ** Quoting *)
Definition quoted (s : string) : string := DQ +:+ s +:+ DQ.

Definition unquote (s dbType : string) : result string :=
  if IsQuoted s then Ok (strip_ends s)
  else if is_pg_family dbType then Ok (ToLower s)
  else if decide (dbType = MYSQL) then Ok s
  else if decide (dbType = ORACLE) then Ok (ToUpper s)
  else Panic "unknown source db type".

Definition quote (s dbType : string) : result string :=
  if IsQuoted s then
    if first_is bq s && bool_decide (dbType = YUGABYTEDB) then quoted <$> unquote s dbType
    else Ok s
  else if is_pg_family dbType then Ok (quoted (ToLower s))
  else if decide (dbType = MYSQL) then Ok s
  else if decide (dbType = ORACLE) then Ok (quoted (ToUpper s))
  else Panic ("unknown source db type " +:+ dbType).

Definition quote2 (dbType name : string) : result string :=
  if is_pg_family dbType || bool_decide (dbType = ORACLE) || bool_decide (dbType = MYSQL)
  then Ok (quoted name)
  else Panic ("unknown source db type " +:+ dbType).

Definition minQuote (objectName sourceDBType : string) : result string :=
  objectName ← unquote objectName sourceDBType;
  if is_pg_family sourceDBType then
    if IsAllLowercase objectName && negb (IsReservedKeywordPG objectName)
    then Ok objectName else Ok (quoted objectName)
  else if decide (sourceDBType = MYSQL) then Ok objectName
  else if decide (sourceDBType = ORACLE) then
    if IsAllUppercase objectName && negb (IsReservedKeywordOracle objectName)
    then Ok objectName else Ok (quoted objectName)
  else Panic "invalid source db type".

Definition minQuote2 (objectName sourceDBType : string) : result string :=
  if is_pg_family sourceDBType then
    if IsAllLowercase objectName && negb (IsReservedKeywordPG objectName)
    then Ok objectName else Ok (quoted objectName)
  else if decide (sourceDBType = MYSQL) then Ok (quoted objectName)
  else if decide (sourceDBType = ORACLE) then
    if IsAllUppercase objectName && negb (IsReservedKeywordOracle objectName)
    then Ok objectName else Ok (quoted objectName)
  else Panic "invalid source db type".

(** ** Identifiers *)
Record Identifier : Type := mkIdentifier { Quoted : string; Unquoted : string; MinQuoted : string }.
#[global] Instance Identifier_eq_dec : EqDecision Identifier.
Proof. solve_decision. Defined.

Definition NewIdentifier (dbType name : string) : result Identifier :=
  name ← (if IsQuoted name then unquote name dbType else Ok name);
  q ← quote2 dbType name;
  m ← minQuote2 name dbType;
  Ok (mkIdentifier q name m).

Definition Equals (i other : Identifier) : bool :=
  bool_decide (Quoted i = Quoted other) && bool_decide (Unquoted i = Unquoted other)
  && bool_decide (MinQuoted i = MinQuoted other).
Definition CaseSensitiveMatch (i other : Identifier) : bool :=
  bool_decide (Quoted i = Quoted other).
Definition CaseInSensitiveMatch (i other : Identifier) : bool :=
  EqualFold (Unquoted i) (Unquoted other).
(** The first loop prefers an exact spelling, the second accepts another case. *)
Definition FindBestMatchingIdenitifier (i : Identifier) (schemaIdenitifiers : list Identifier)
    : bool * Identifier :=
  match List.find (λ schema, CaseSensitiveMatch schema i) schemaIdenitifiers with
  | Some schema => (true, schema)
  | None =>
      match List.find (λ schemaOnDB, CaseInSensitiveMatch schemaOnDB i) schemaIdenitifiers with
      | Some schemaOnDB => (true, schemaOnDB)
      | None => (false, mkIdentifier "" "" "")
      end
  end.
Definition ExtractIdentifiersMinQuoted (identifiers : list Identifier) := map MinQuoted identifiers.
Definition ExtractIdentifiersUnquoted (identifiers : list Identifier) := map Unquoted identifiers.
Definition ExtractIdentifiersQuoted (identifiers : list Identifier) := map Quoted identifiers.
Definition JoinIdentifiersUnquoted (identifiers : list Identifier) (separator : string) :=
  Join separator (ExtractIdentifiersUnquoted identifiers).
Definition JoinIdentifiersQuoted (identifiers : list Identifier) (separator : string) :=
  Join separator (ExtractIdentifiersQuoted identifiers).
Definition JoinIdentifiersMinQuoted (identifiers : list Identifier) (separator : string) :=
  Join separator (ExtractIdentifiersMinQuoted identifiers).
Definition ParseIdentifiersFromStrings (dbType : string) (schemaList : list string)
    : result (list Identifier) :=
  mapM_result (NewIdentifier dbType) schemaList.
(** For the one-byte separators the callers pass. *)
Definition ParseIdentifiersFromString (dbType schemaConfig : string) (separator : ascii)
    : result (list Identifier) :=
  mapM_result (NewIdentifier dbType) (Split separator schemaConfig).

(** ** Source and target names *)
Record QualifiedName : Type := mkQualifiedName {
  qn_ObjectName : Identifier; qn_SchemaName : Identifier; qn_Qualified : Identifier }.
Definition SourceName := QualifiedName.
Definition TargetName := QualifiedName.

Definition ensure_quoted (s : string) : string := if IsQuoted s then s else quoted s.

Definition spell (s dbType : string) : result Identifier :=
  q ← quote s dbType; u ← unquote s dbType; m ← minQuote s dbType;
  Ok (mkIdentifier q u m).
Definition dotted (a b : Identifier) : Identifier :=
  mkIdentifier (Quoted a +:+ "." +:+ Quoted b) (Unquoted a +:+ "." +:+ Unquoted b)
               (MinQuoted a +:+ "." +:+ MinQuoted b).

Definition NewSourceName (SourceDBType schemaName objectName : string) : result SourceName :=
  if decide (schemaName = "") then Panic "schema name cannot be empty" else
  let schemaName := ensure_quoted schemaName in
  let objectName := ensure_quoted objectName in
  o ← spell objectName SourceDBType;
  s ← spell schemaName SourceDBType;
  Ok (mkQualifiedName o s (dotted s o)).
Definition NewTargetName (schemaName objectName : string) : result TargetName :=
  if decide (schemaName = "") then Panic "schema name cannot be empty" else
  let schemaName := ensure_quoted schemaName in
  let objectName := ensure_quoted objectName in
  o ← spell objectName YUGABYTEDB;
  s ← spell schemaName YUGABYTEDB;
  Ok (mkQualifiedName o s (dotted s o)).

Definition NewSourceNameFromQualifiedName (SourceDBType qualifiedName : string) : result SourceName :=
  match Split "." qualifiedName with
  | [p0; p1] => NewSourceName SourceDBType p0 p1
  | _ => Panic ("invalid qualified name: " +:+ qualifiedName)
  end.
Definition NewSourceNameFromMaybeQualifiedName
    (SourceDBType qualifiedName defaultSchemaName : string) : result SourceName :=
  match Split "." qualifiedName with
  | [p0; p1] => NewSourceName SourceDBType p0 p1
  | [p0] => NewSourceName SourceDBType defaultSchemaName p0
  | _ => Panic ("invalid qualified name: " +:+ qualifiedName)
  end.
Definition NewTargetNameFromQualifiedName (qualifiedName : string) : result TargetName :=
  match Split "." qualifiedName with
  | [p0; p1] => NewTargetName p0 p1
  | _ => Panic ("invalid qualified name: " +:+ qualifiedName)
  end.
Definition NewTargetNameFromMaybeQualifiedName (qualifiedName defaultSchemaName : string)
    : result TargetName :=
  match Split "." qualifiedName with
  | [p0; p1] => NewTargetName p0 p1
  | [p0] => NewTargetName defaultSchemaName p0
  | _ => Panic ("invalid qualified name: " +:+ qualifiedName)
  end.
Definition SourceName_String (s : SourceName) : string := MinQuoted (qn_Qualified s).
Definition TargetName_String (t : TargetName) : string := Quoted (qn_Qualified t).
Definition ToTargetName (PreserveCase : bool) (s : SourceName) : result TargetName :=
  if PreserveCase then NewTargetName (Quoted (qn_SchemaName s)) (Quoted (qn_ObjectName s))
  else NewTargetName (Unquoted (qn_SchemaName s)) (Unquoted (qn_ObjectName s)).

(** The loop shared by the three set differences: drop what [b] names. *)
Definition difference_by {A} (f : A → string) (a b : list A) : list A :=
  let m : gmap string bool := foldl (λ m x, <[f x := true]> m) ∅ b in
  foldl (λ res x, if default false (m !! f x) then res else res ++ [x]) [] a.
Definition SetDifference (a b : list SourceName) : list SourceName :=
  difference_by SourceName_String a b.

(** ** Object names and name tuples (nametuple.go) *)
Record ObjectName : Type := mkObjectName {
  SchemaName : Identifier; FromDefaultSchema : bool;
  Qualified : Identifier; Unqualified : Identifier; MinQualified : Identifier }.
#[global] Instance ObjectName_eq_dec : EqDecision ObjectName.
Proof. solve_decision. Defined.

Definition zeroIdentifier : Identifier := mkIdentifier "" "" "".

(** [NewObjectName]: [schemaName[1:len-1]] strips the quotes without [unquote]. *)
Definition NewObjectName (dbType defaultSchemaName schemaName tableName : string)
    : result ObjectName :=
  let schemaName := if IsQuoted schemaName then strip_ends schemaName else schemaName in
  let tableName := if IsQuoted tableName then strip_ends tableName else tableName in
  sq ← quote2 dbType schemaName;
  sm ← minQuote2 schemaName dbType;
  tq ← quote2 dbType tableName;
  tm ← minQuote2 tableName dbType;
  let sid := mkIdentifier sq schemaName sm in
  let tid := mkIdentifier tq tableName tm in
  let fromDefault := bool_decide (schemaName = defaultSchemaName) in
  let qid := dotted sid tid in
  Ok (mkObjectName sid fromDefault qid tid (if fromDefault then tid else qid)).

Definition NewObjectNameWithQualifiedName (dbType defaultSchemaName objName : string)
    : result ObjectName :=
  match Split "." objName with
  | [p0; p1] =>
      s ← unquote (ensure_quoted p0) dbType;
      t ← unquote (ensure_quoted p1) dbType;
      NewObjectName dbType defaultSchemaName s t
  | _ => Panic ("invalid qualified name: " +:+ objName)
  end.
Definition NewObjectNameFromMaybeQualifiedName (dbType defaultSchemaName objName : string)
    : result ObjectName :=
  if str_has "." objName then NewObjectNameWithQualifiedName dbType defaultSchemaName objName
  else
    identifier ← NewIdentifier dbType objName;
    Ok (mkObjectName zeroIdentifier false zeroIdentifier identifier identifier).
Definition ObjectName_String (nv : ObjectName) : string := MinQuoted (MinQualified nv).
#[global] Instance ObjectName_Keyer : Keyer ObjectName := λ o, Unquoted (Qualified o).

(** A nil name is [None]. *)
Record NameTuple : Type := mkNameTuple {
  CurrentName : option ObjectName; nt_SourceName : option ObjectName;
  nt_TargetName : option ObjectName }.
#[global] Instance NameTuple_eq_dec : EqDecision NameTuple.
Proof. solve_decision. Defined.

Definition NIL_NAME_TUPLE : NameTuple := mkNameTuple None None None.
(** [reflect.DeepEqual]: pointers are followed, so the comparison is structural. *)
Definition NameTuple_Equals (t1 t2 : NameTuple) : bool := bool_decide (t1 = t2).
Definition NameTuple_String (t : NameTuple) : string :=
  let str o := match o with Some n => ObjectName_String n | None => "" end in
  "[CurrentName=(" +:+ str (CurrentName t) +:+ ") SourceName=(" +:+ str (nt_SourceName t)
  +:+ ") TargetName=(" +:+ str (nt_TargetName t) +:+ ")]".
Definition TargetTableAvailable (t : NameTuple) : bool := bool_decide (is_Some (nt_TargetName t)).

(** A method that dereferences a nil name panics. *)
Definition deref {A} (o : option A) : result A :=
  match o with Some a => Ok a | None => Panic "nil pointer dereference" end.
Definition ForUserQuery (t : NameTuple) : result string :=
  n ← deref (CurrentName t); Ok (Quoted (Qualified n)).
Definition ForOutput (t : NameTuple) : result string :=
  n ← deref (CurrentName t); Ok (MinQuoted (Qualified n)).
Definition ForCatalogQuery (t : NameTuple) : result (string * string) :=
  n ← deref (CurrentName t); Ok (Unquoted (SchemaName n), Unquoted (Unqualified n)).
Definition AsQualifiedCatalogName (t : NameTuple) : result string :=
  n ← deref (CurrentName t); Ok (Unquoted (Qualified n)).
Definition ForMinOutput (t : NameTuple) : result string :=
  n ← deref (CurrentName t); Ok (MinQuoted (MinQualified n)).
Definition ForKey_r (t : NameTuple) : result string :=
  match nt_SourceName t with
  | Some s => Ok (Quoted (Qualified s))
  | None => n ← deref (nt_TargetName t); Ok (Quoted (Qualified n))
  end.
(** The key of a tuple that names a table on one side at least; the callers
    below only file such tuples. *)
Definition ForKey (t : NameTuple) : string :=
  match ForKey_r t with Ok s => s | _ => "" end.
Definition ForKeyTableSchema (t : NameTuple) : result (string * string) :=
  let objName := match nt_SourceName t with Some s => Some s | None => nt_TargetName t end in
  n ← deref objName; Ok (Unquoted (SchemaName n), Unquoted (Unqualified n)).
#[global] Instance NameTuple_Keyer : Keyer NameTuple := ForKey.

Definition SetDifferenceNameTuples (a b : list NameTuple) : list NameTuple :=
  difference_by NameTuple_String a b.
Definition SetDifferenceNameTuplesWithKey (a b : list NameTuple) : list NameTuple :=
  difference_by ForKey a b.
Definition NameTupleListToStrings (nameTuples : list NameTuple) : result (list string) :=
  mapM_result ForOutput nameTuples.
Definition ExtractNameTuplesUnquoted (nameTuples : list NameTuple) : result (list string) :=
  mapM_result AsQualifiedCatalogName nameTuples.
Definition JoinNameTuplesUnquoted (nameTuples : list NameTuple) (separator : string)
    : result string :=
  ws ← ExtractNameTuplesUnquoted nameTuples; Ok (Join separator ws).

(** ** Names qualified with a table (indexes, constraints) *)
Record ObjectNameQualifiedWithTableName : Type := mkObjectNameQ {
  oq_SchemaName : Identifier; oq_TableName : ObjectName; oq_ObjectName : string;
  oq_FromDefaultSchema : bool; oq_Qualified : Identifier; oq_Unqualified : Identifier;
  oq_MinQualified : Identifier }.
Definition NewObjectNameQualifiedWithTableName
    (dbType defaultSchemaName objectName schemaName tableName : string)
    : result ObjectNameQualifiedWithTableName :=
  let schemaName := if IsQuoted schemaName then strip_ends schemaName else schemaName in
  let tableName := if IsQuoted tableName then strip_ends tableName else tableName in
  let objectName := if IsQuoted objectName then strip_ends objectName else objectName in
  sq ← quote2 dbType schemaName; sm ← minQuote2 schemaName dbType;
  table ← NewObjectName dbType defaultSchemaName schemaName tableName;
  tq ← quote2 dbType tableName; tm ← minQuote2 tableName dbType;
  oq ← quote2 dbType objectName; om ← minQuote2 objectName dbType;
  let full := mkIdentifier (sq +:+ "." +:+ tq +:+ "." +:+ oq)
                (schemaName +:+ "." +:+ tableName +:+ "." +:+ objectName)
                (sm +:+ "." +:+ tm +:+ "." +:+ om) in
  Ok (mkObjectNameQ (mkIdentifier sq schemaName sm) table objectName
        (bool_decide (schemaName = defaultSchemaName)) full full full).
Definition CatalogName (o : ObjectNameQualifiedWithTableName) : string :=
  Unquoted (oq_Qualified o).
Definition GetObjectONTableFormatString (o : ObjectNameQualifiedWithTableName) : string :=
  oq_ObjectName o +:+ " ON " +:+ MinQuoted (Qualified (oq_TableName o)).
#[global] Instance ObjectNameQ_Keyer : Keyer ObjectNameQualifiedWithTableName := CatalogName.
Definition GetQualifiedTableName (o : ObjectNameQualifiedWithTableName) : string :=
  MinQuoted (Qualified (oq_TableName o)).

(** ** Lemmas *)
Lemma quoted_IsQuoted s : IsQuoted (quoted s) = true.
Proof.
  unfold IsQuoted, quoted. change (DQ +:+ s +:+ DQ) with (String dq (s +:+ DQ)).
  assert (last_is dq (String dq (s +:+ DQ)) = true) as Hl.
  { change (String dq (s +:+ DQ)) with (String dq s +:+ DQ). clear.
    generalize dq at 2. induction s as [|c s IH]; intros d; [done|].
    change (last_is dq (String d (String c s) +:+ DQ)) with (last_is dq (String c s +:+ DQ)).
    apply IH. }
  assert ((String.length (String dq (s +:+ DQ)) <? 2)%nat = false) as ->.
  { apply Nat.ltb_ge. cbn. rewrite str_length_app. cbn. lia. }
  rewrite Hl. done.
Qed.
Lemma substring_prefix s t : String.substring 0 (String.length s) (s +:+ t) = s.
Proof. induction s as [|c s IH]; cbn; [by destruct t|]. by rewrite IH. Qed.
Lemma strip_quoted s : strip_ends (quoted s) = s.
Proof.
  unfold strip_ends, quoted. change (DQ +:+ s +:+ DQ) with (String dq (s +:+ DQ)).
  cbn [String.length]. rewrite str_length_app. cbn [String.length DQ].
  replace (S (String.length s + 1) - 2)%nat with (String.length s) by lia.
  cbn. apply substring_prefix.
Qed.
Lemma unquote_quoted s db : unquote (quoted s) db = Ok s.
Proof. unfold unquote. by rewrite quoted_IsQuoted, strip_quoted. Qed.
Lemma ensure_quoted_quoted s : ensure_quoted (quoted s) = quoted s.
Proof. unfold ensure_quoted. by rewrite quoted_IsQuoted. Qed.
Lemma quote2_inv db n q : quote2 db n = Ok q → q = quoted n.
Proof. unfold quote2. case_match; naive_solver. Qed.
Lemma quoted_inj a b : quoted a = quoted b → a = b.
Proof. intros H. by rewrite <- (strip_quoted a), H, strip_quoted. Qed.
#[export] Hint Rewrite quoted_IsQuoted strip_quoted unquote_quoted ensure_quoted_quoted : voyager.
(** A name of any kind of database that is known has its forms. *)
Definition knownTypes : list string := [ORACLE; MYSQL; POSTGRESQL; YUGABYTEDB; YUGABYTEDB_AMP].
Lemma quotes_total db u : db ∈ knownTypes → quote2 db u = Ok (quoted u) ∧ ∃ v, minQuote2 u db = Ok v.
Proof.
  unfold knownTypes. rewrite !elem_of_cons. intros [->|[->|[->|[->|[->|?]]]]]; [..|set_solver]; (split; [done|]); unfold minQuote2;
    vm_compute is_pg_family; repeat case_decide; try done; eauto; case_match; eauto.
Qed.
Lemma NewIdentifier_known db q : db ∈ knownTypes → ∃ i, NewIdentifier db q = Ok i.
Proof.
  intros H. assert (NewIdentifier db q = (let u := if IsQuoted q then strip_ends q else q in x ← quote2 db u; m ← minQuote2 u db; Ok (mkIdentifier x u m)))
    as -> by (unfold NewIdentifier, unquote; by destruct (IsQuoted q)).
  cbv zeta. destruct (quotes_total db (if IsQuoted q then strip_ends q else q) H) as (-> & v & ->). by eexists.
Qed.
Lemma NewObjectName_known db d s t : db ∈ knownTypes → ∃ o, NewObjectName db d s t = Ok o.
Proof.
  intros H. unfold NewObjectName. destruct (quotes_total db (if IsQuoted s then strip_ends s else s) H) as (-> & sv & ->).
  destruct (quotes_total db (if IsQuoted t then strip_ends t else t) H) as (-> & tv & ->). by eexists.
Qed.

Lemma first_is_has c s : str_has c s = false → first_is c s = false.
Proof.
  destruct s as [|d s]; [done|]. rewrite str_has_cons. by intros [H _]%orb_false_iff.
Qed.
Lemma not_quoted s : str_has dq s = false → str_has bq s = false → IsQuoted s = false.
Proof.
  intros H1 H2. unfold IsQuoted. case_match; [done|].
  by rewrite (first_is_has _ _ H1), (first_is_has _ _ H2).
Qed.
Lemma all_lower_not_quoted s : IsAllLowercase s = true → IsQuoted s = false.
Proof. intros H. apply not_quoted; by eapply str_forallb_has. Qed.

(** The minimal spelling is the bare name or the quoted one. *)
Lemma minQuote2_cases n db m : minQuote2 n db = Ok m → m = n ∨ m = quoted n.
Proof. unfold minQuote2. repeat case_match; naive_solver. Qed.
Lemma minQuote2_pg n db m :
  is_pg_family db = true → minQuote2 n db = Ok m →
  (m = n ∧ IsQuoted n = false) ∨ m = quoted n.
Proof.
  intros Hpg. unfold minQuote2. rewrite Hpg.
  destruct (IsAllLowercase n) eqn:Hl; cbn; [|naive_solver].
  apply all_lower_not_quoted in Hl. case_match; naive_solver.
Qed.

(** What parsing a spelling gives depends only on the bare name it denotes. *)
Lemma NewIdentifier_name db name n :
  (if IsQuoted name then unquote name db else Ok name) = Ok n →
  NewIdentifier db name = q ← quote2 db n; m ← minQuote2 n db; Ok (mkIdentifier q n m).
Proof. intros H. unfold NewIdentifier. by rewrite H. Qed.

Lemma NewIdentifier_inv db name id :
  NewIdentifier db name = Ok id →
  ∃ n m, id = mkIdentifier (quoted n) n m ∧ minQuote2 n db = Ok m ∧
         ∀ name', (if IsQuoted name' then unquote name' db else Ok name') = Ok n →
                  NewIdentifier db name' = Ok id.
Proof.
  intros H. pose proof H as H0. unfold NewIdentifier in H0. rewrite bind_Ok in H0.
  destruct H0 as (n & Hn & H0). exists n.
  assert (∀ name', (if IsQuoted name' then unquote name' db else Ok name') = Ok n →
                   NewIdentifier db name' = Ok id) as Hre.
  { intros name' Hn'. by rewrite (NewIdentifier_name _ _ _ Hn'), <- (NewIdentifier_name _ _ _ Hn). }
  rewrite bind_Ok in H0. destruct H0 as (q & Hq & H0).
  rewrite bind_Ok in H0. destruct H0 as (m & Hm & [= <-]).
  apply quote2_inv in Hq as ->. eauto.
Qed.

(** Every spelling of an identifier, the fully and the minimally quoted one,
    parses back to that identifier (PostgreSQL-family databases). *)
Theorem NewIdentifier_reparse (db name : string) (id : Identifier) :
  is_pg_family db = true → NewIdentifier db name = Ok id →
  NewIdentifier db (Quoted id) = Ok id ∧ NewIdentifier db (MinQuoted id) = Ok id.
Proof.
  intros Hpg (n & m & -> & Hm & Hre)%NewIdentifier_inv. cbn [Quoted MinQuoted].
  assert (NewIdentifier db (quoted n) = Ok (mkIdentifier (quoted n) n m)) as Hq.
  { apply Hre. by rewrite quoted_IsQuoted, unquote_quoted. }
  split; [done|]. destruct (minQuote2_pg _ _ _ Hpg Hm) as [[-> Hn]| ->]; [|done].
  apply Hre. by rewrite Hn.
Qed.
Lemma NewIdentifier_reparse_witness :
  ∃ id, NewIdentifier POSTGRESQL "Orders" = Ok id ∧
        NewIdentifier POSTGRESQL (Quoted id) = Ok id ∧ NewIdentifier POSTGRESQL (MinQuoted id) = Ok id.
Proof.
  eexists. split; [vm_compute; reflexivity|].
  apply (NewIdentifier_reparse POSTGRESQL "Orders"); vm_compute; reflexivity.
Defined.

(** [NewObjectName] on bare names, in one equation. *)
Lemma NewObjectName_bare db def s t o :
  IsQuoted s = false → IsQuoted t = false → NewObjectName db def s t = Ok o →
  Quoted (Qualified o) = quoted s +:+ "." +:+ quoted t ∧
  ∃ sm tm, minQuote2 s db = Ok sm ∧ minQuote2 t db = Ok tm ∧
           MinQuoted (Qualified o) = sm +:+ "." +:+ tm.
Proof.
  intros Hs Ht. unfold NewObjectName. rewrite Hs, Ht.
  repeat setoid_rewrite bind_Ok. intros (sq & Hsq & sm & Hsm & tq & Htq & tm & Htm & [= <-]).
  apply quote2_inv in Hsq as ->. apply quote2_inv in Htq as ->. eauto 10.
Qed.
Lemma dot_quoted s : str_has "." s = false → str_has "." (quoted s) = false.
Proof. intros H. unfold quoted. by rewrite !str_has_app, H. Qed.
Lemma qualified_reparse db def a b s t :
  (a = s ∧ IsQuoted s = false ∨ a = quoted s) → (b = t ∧ IsQuoted t = false ∨ b = quoted t) →
  str_has "." s = false → str_has "." t = false →
  NewObjectNameWithQualifiedName db def (a +:+ "." +:+ b) = NewObjectName db def s t.
Proof.
  intros Ha Hb Hs Ht. unfold NewObjectNameWithQualifiedName.
  assert (str_has "." a = false) as Ha1 by (destruct Ha as [[-> _]| ->]; auto using dot_quoted).
  assert (str_has "." b = false) as Hb1 by (destruct Hb as [[-> _]| ->]; auto using dot_quoted).
  change ("." +:+ b) with (String "." b). rewrite Split_app, (Split_none _ b) by done.
  assert (∀ x y, x = y ∧ IsQuoted y = false ∨ x = quoted y → unquote (ensure_quoted x) db = Ok y) as E.
  { intros x y [[-> Hx]| ->]; [unfold ensure_quoted; rewrite Hx|rewrite ensure_quoted_quoted];
      apply unquote_quoted. }
  by rewrite (E a s), (E b t).
Qed.

(** The qualified spellings of an object name, quoted or minimally quoted, parse
    back to the same object name, for every database type. *)
Theorem ObjectName_reparse (db def s t : string) (o : ObjectName) :
  IsQuoted s = false → IsQuoted t = false →
  str_has "." s = false → str_has "." t = false →
  NewObjectName db def s t = Ok o →
  NewObjectNameWithQualifiedName db def (Quoted (Qualified o)) = Ok o ∧
  NewObjectNameWithQualifiedName db def (MinQuoted (Qualified o)) = Ok o.
Proof.
  intros Hs Ht Hs' Ht' Ho.
  destruct (NewObjectName_bare _ _ _ _ _ Hs Ht Ho) as (-> & sm & tm & Hsm & Htm & ->).
  split; (rewrite (qualified_reparse _ _ _ _ s t); [done|..|done|done]); auto.
  - destruct (minQuote2_cases _ _ _ Hsm) as [-> | ->]; auto.
  - destruct (minQuote2_cases _ _ _ Htm) as [-> | ->]; auto.
Qed.
Lemma ObjectName_reparse_witness :
  ∃ o, NewObjectName ORACLE "HR" "HR" "Emp" = Ok o ∧
       NewObjectNameWithQualifiedName ORACLE "HR" (Quoted (Qualified o)) = Ok o ∧
       NewObjectNameWithQualifiedName ORACLE "HR" (MinQuoted (Qualified o)) = Ok o.
Proof.
  eexists. split; [vm_compute; reflexivity|].
  apply (ObjectName_reparse ORACLE "HR" "HR" "Emp"); vm_compute; reflexivity.
Defined.

(** ** Keys *)

(** [nt] goes by the bare name [schema.table] on its key side. *)
Definition keyed_by (nt : NameTuple) (schema table : string) : Prop :=
  ∃ db def o, NewObjectName db def schema table = Ok o ∧
    (nt_SourceName nt = Some o ∨ nt_SourceName nt = None ∧ nt_TargetName nt = Some o) ∧
    str_has dq schema = false ∧ str_has bq schema = false ∧
    str_has dq table = false ∧ str_has bq table = false.

Lemma keyed_by_ForKey nt s t : keyed_by nt s t → ForKey nt = quoted s +:+ "." +:+ quoted t.
Proof.
  intros (db & def & o & Ho & Hnt & ? & ? & ? & ?).
  edestruct (NewObjectName_bare db def s t o) as [Hq _]; [by apply not_quoted..|done|].
  unfold ForKey, ForKey_r. rewrite <- Hq. by destruct Hnt as [-> | [-> ->]].
Qed.
Lemma quoted_dot_inj s t s' t' :
  str_has dq s = false → str_has dq s' = false →
  quoted s +:+ "." +:+ quoted t = quoted s' +:+ "." +:+ quoted t' → s = s' ∧ t = t'.
Proof.
  intros Hs Hs' H. unfold quoted in H. rewrite !str_app_assoc in H.
  change DQ with (String dq "") in H. cbn in H. injection H as H.
  apply str_cut in H as [-> H]; [|done..]. injection H as H. split; [done|].
  apply quoted_inj. unfold quoted. by f_equal.
Qed.

(** Two tables share a key exactly when they are the same table: per-table maps
    keyed by [ForKey] never mix two tables (names free of quote characters). *)
Theorem ForKey_injective (n1 n2 : NameTuple) (s1 t1 s2 t2 : string) :
  keyed_by n1 s1 t1 → keyed_by n2 s2 t2 →
  ForKey n1 = ForKey n2 ↔ s1 = s2 ∧ t1 = t2.
Proof.
  intros H1 H2. rewrite (keyed_by_ForKey _ _ _ H1), (keyed_by_ForKey _ _ _ H2).
  split; [|by intros [-> ->]].
  destruct H1 as (?&?&?&?&?&?&_). destruct H2 as (?&?&?&?&?&?&_). by apply quoted_dot_inj.
Qed.
Lemma ForKey_injective_witness :
  ∃ o1 o2, let n1 := mkNameTuple (Some o1) (Some o1) None in
           let n2 := mkNameTuple (Some o2) None (Some o2) in
           keyed_by n1 "public" "a" ∧ keyed_by n2 "public" "b" ∧ (ForKey n1 = ForKey n2 ↔ "public" = "public" ∧ "a" = "b").
Proof.
  destruct (NewObjectName POSTGRESQL "public" "public" "a") as [o1|e|e] eqn:E1;
    [|by vm_compute in E1..].
  destruct (NewObjectName POSTGRESQL "public" "public" "b") as [o2|e|e] eqn:E2;
    [|by vm_compute in E2..].
  exists o1, o2. intros n1 n2.
  assert (keyed_by n1 "public" "a") as H1 by (exists POSTGRESQL, "public", o1; auto 10).
  assert (keyed_by n2 "public" "b") as H2 by (exists POSTGRESQL, "public", o2; auto 10).
  split; [done|]. split; [done|]. by apply (ForKey_injective n1 n2).
Defined.

(** The set difference keeps, in order, what the other list does not name. *)
Lemma difference_by_spec {A} (f : A → string) a b :
  difference_by f a b = filter (λ x, f x ∉ map f b) a.
Proof.
  unfold difference_by.
  assert (∀ (m : gmap string bool) k, default false (foldl (λ m x, <[f x := true]> m) m b !! k)
            = bool_decide (k ∈ map f b) || default false (m !! k)) as Hm.
  { induction b as [|x b IH]; intros m k; cbn; [done|]. rewrite IH, lookup_insert.
    case_decide as Hk; subst; cbn.
    - rewrite orb_true_r. symmetry. rewrite bool_decide_true by left. done.
    - f_equal. apply bool_decide_ext. rewrite elem_of_cons. naive_solver. }
  assert (∀ acc, foldl (λ res x, if default false (foldl (λ m x, <[f x := true]> m) (∅ : gmap string bool) b !! f x)
                                 then res else res ++ [x]) acc a
                 = acc ++ filter (λ x, f x ∉ map f b) a) as H; [|by rewrite (H [])].
  induction a as [|x a IH]; intros acc; cbn [foldl]; [by rewrite app_nil_r|].
  rewrite IH, filter_cons, Hm, lookup_empty, orb_false_r. cbn.
  case_bool_decide; case_decide; try done; by rewrite <- app_assoc.
Qed.

(** The difference by key keeps exactly the tuples of the first list whose table
    the second list does not name, in their order. *)
Theorem SetDifferenceNameTuplesWithKey_spec (a b : list NameTuple) :
  SetDifferenceNameTuplesWithKey a b `sublist_of` a ∧
  ∀ x, x ∈ SetDifferenceNameTuplesWithKey a b ↔ x ∈ a ∧ ∀ y, y ∈ b → ForKey y ≠ ForKey x.
Proof.
  unfold SetDifferenceNameTuplesWithKey. rewrite difference_by_spec.
  split; [apply sublist_filter|]. intros x. rewrite list_elem_of_filter, list_elem_of_fmap.
  naive_solver.
Qed.
End SqlName.
