(* ===== verification/AttrNames.v ===== *)
(** * Column names of the target (src/yb-voyager/src/tgtdb/attr_name_registry.go)

    The name a source column has on the target, found by exact or
    case-insensitive comparison, and the registry that remembers what it has
    answered.  The target's catalogue query is an argument. *)
From S2P Require Import Prelude StructMap SqlName.
Import SqlName.

Module AttrNames.

(** The two error types callers tell apart. *)
Inductive columnMatch : Type :=
  | Found (name : string)
  | ErrAmbiguousColumnName (colName : string) (candidates : list string)
  | ErrColumnNameNotFound (colName : string) (targetColumns : list string).
#[global] Instance columnMatch_eq_dec : EqDecision columnMatch.
Proof. solve_decision. Defined.

Definition candidatesOf (colName : string) (targetColumns : list string) : list string :=
  filter (λ c, EqualFold c colName = true) targetColumns.
(** The quotes around a name are dropped.  An empty name, and a name that is one
    quote character, are sliced out of range. *)
Definition stripColumnQuotes (colName : string) : result string :=
  match first_char colName with
  | None => Panic "index out of range"
  | Some c =>
      if bool_decide (String c "" = DQ) && bool_decide (last_char colName = Some c) then
        if (String.length colName <? 2)%nat then Panic "slice bounds out of range"
        else Ok (strip_ends colName)
      else Ok colName
  end.
(** The name in the case the database folds unquoted names to. *)
Definition foldedName (dbType colName : string) : option string :=
  if bool_decide (dbType = POSTGRESQL) || bool_decide (dbType = YUGABYTEDB)
  then Some (ToLower colName)
  else if decide (dbType = ORACLE) then Some (ToUpper colName) else None.
Definition FindBestMatchingColumnName (dbType colName : string) (targetColumns : list string)
    : result columnMatch :=
  colName ← stripColumnQuotes colName;
  if decide (colName ∈ targetColumns) then Ok (Found colName)
  else
    match candidatesOf colName targetColumns with
    | [] => Ok (ErrColumnNameNotFound colName targetColumns)
    | [c] => Ok (Found c)
    | candidates =>
        Ok (match foldedName dbType colName with
            | Some folded => if decide (folded ∈ candidates) then Found folded
                             else ErrAmbiguousColumnName colName candidates
            | None => ErrAmbiguousColumnName colName candidates
            end)
    end.

(** ** The registry *)
Record AttributeNameRegistry : Type := mkRegistry {
  attrNames : StructMap.t NameTuple (list string);
  resultCache : gmap string (gmap string string) }.
Definition NewAttributeNameRegistry : AttributeNameRegistry := mkRegistry StructMap.NewStructMap ∅.

Definition lookupCachedQuotedAttributeName (reg : AttributeNameRegistry) (t : NameTuple)
    (columnName : string) : option string :=
  resultMap ← resultCache reg !! ForKey t; resultMap !! columnName.
Definition cacheQuotedAttributeName (reg : AttributeNameRegistry) (t : NameTuple)
    (columnName res : string) : AttributeNameRegistry :=
  let resultMap := default ∅ (resultCache reg !! ForKey t) in
  mkRegistry (attrNames reg) (<[ForKey t := <[columnName := res]> resultMap]> (resultCache reg)).

Section registry.
Context (dbType : string) (GetListOfTableAttributes : NameTuple → result (list string)).

(** The registry after the call, also of a call that fails. *)
Definition QuoteAttributeName (reg : AttributeNameRegistry) (t : NameTuple) (columnName : string)
    : AttributeNameRegistry * result string :=
  match lookupCachedQuotedAttributeName reg t columnName with
  | Some r => (reg, Ok r)
  | None =>
      match (match StructMap.Get (attrNames reg) t with
             | Some cols => (reg, Ok cols)
             | None => match GetListOfTableAttributes t with
                       | Ok cols => (mkRegistry (StructMap.Put (attrNames reg) t cols) (resultCache reg), Ok cols)
                       | e => (reg, e)
                       end
             end) with
      | (reg, Ok targetColumns) =>
          match FindBestMatchingColumnName dbType columnName targetColumns with
          | Ok (Found c) => (cacheQuotedAttributeName reg t columnName (quoted c), Ok (quoted c))
          | Ok _ => (reg, Err "find best matching column name")
          | Err e => (reg, Err e)
          | Panic e => (reg, Panic e)
          end
      | (reg, Err e) => (reg, Err "get list of table attributes")
      | (reg, Panic e) => (reg, Panic e)
      end
  end.
Fixpoint QuoteAttributeNames (reg : AttributeNameRegistry) (t : NameTuple) (columns : list string)
    : AttributeNameRegistry * result (list string) :=
  match columns with
  | [] => (reg, Ok [])
  | c :: columns =>
      match QuoteAttributeName reg t c with
      | (reg, Ok q) =>
          match QuoteAttributeNames reg t columns with
          | (reg, Ok qs) => (reg, Ok (q :: qs))
          | r => r
          end
      | (reg, Err e) => (reg, Err "quote attribute name")
      | (reg, Panic e) => (reg, Panic e)
      end
  end.

(** What one call answers when nothing is remembered. *)
Definition quoteSpec (t : NameTuple) (columnName : string) : result string :=
  match GetListOfTableAttributes t with
  | Ok cols => match FindBestMatchingColumnName dbType columnName cols with
               | Ok (Found c) => Ok (quoted c)
               | Ok _ => Err "find best matching column name"
               | Err e => Err e
               | Panic e => Panic e
               end
  | Err e => Err "get list of table attributes"
  | Panic e => Panic e
  end.

(** ** The registry answers what the catalogue says *)

(** What is remembered is what the catalogue answers now. *)
Definition consistent (reg : AttributeNameRegistry) : Prop :=
  (∀ t cols, StructMap.Get (attrNames reg) t = Some cols → GetListOfTableAttributes t = Ok cols) ∧
  (∀ t c q, lookupCachedQuotedAttributeName reg t c = Some q → quoteSpec t c = Ok q).
Definition quoteAll (reg : AttributeNameRegistry) (calls : list (NameTuple * string))
    : AttributeNameRegistry :=
  foldl (λ reg p, (QuoteAttributeName reg p.1 p.2).1) reg calls.

Lemma consistent_New : consistent NewAttributeNameRegistry.
Proof. by split; [intros t cols [=]|intros t c q]. Qed.

(** Tuples with one key are one table to the catalogue. *)
Context (Hcat : ∀ t t', ForKey t = ForKey t' → GetListOfTableAttributes t = GetListOfTableAttributes t').

Lemma quoteSpec_key t t' c : ForKey t = ForKey t' → quoteSpec t c = quoteSpec t' c.
Proof. intros H. unfold quoteSpec. by rewrite (Hcat t t' H). Qed.
Lemma consistent_attrs reg t cols :
  consistent reg → GetListOfTableAttributes t = Ok cols →
  consistent (mkRegistry (StructMap.Put (attrNames reg) t cols) (resultCache reg)).
Proof.
  intros [H1 H2] Hl. split; [|exact H2]. intros t' cols'. cbn. unfold StructMap.Get; cbn.
  rewrite lookup_insert. case_decide as Hk; [|apply H1].
  intros [= <-]. by rewrite <- (Hcat t t' Hk).
Qed.
Lemma lookup_cached reg t c q t' c' :
  lookupCachedQuotedAttributeName (cacheQuotedAttributeName reg t c q) t' c' =
    if decide (ForKey t = ForKey t' ∧ c = c') then Some q else lookupCachedQuotedAttributeName reg t' c'.
Proof.
  unfold lookupCachedQuotedAttributeName, cacheQuotedAttributeName; cbn [resultCache].
  rewrite lookup_insert. case_decide as Hk; cbn [mbind option_bind].
  - rewrite lookup_insert. case_decide as Hc; [rewrite decide_True by done; done|].
    rewrite decide_False by tauto. rewrite <- Hk. by destruct (resultCache reg !! ForKey t).
  - rewrite decide_False by tauto. done.
Qed.
Lemma consistent_cache reg t c q :
  consistent reg → quoteSpec t c = Ok q → consistent (cacheQuotedAttributeName reg t c q).
Proof.
  intros [H1 H2] Hq. split; [exact H1|]. intros t' c' q'. rewrite lookup_cached.
  case_decide as Hk; [|apply H2]. destruct Hk as [Hk ->]. intros [= <-].
  by rewrite <- (quoteSpec_key t t' c' Hk).
Qed.
Lemma QuoteAttributeName_step reg t c :
  consistent reg →
  (QuoteAttributeName reg t c).2 = quoteSpec t c ∧ consistent (QuoteAttributeName reg t c).1.
Proof.
  intros Hc. pose proof Hc as [H1 H2]. unfold QuoteAttributeName.
  destruct (lookupCachedQuotedAttributeName reg t c) as [q|] eqn:Hq; [by rewrite (H2 t c q Hq)|].
  unfold quoteSpec at 1.
  destruct (StructMap.Get (attrNames reg) t) as [cols|] eqn:Ha.
  - pose proof (H1 t cols Ha) as Hl. rewrite Hl.
    destruct (FindBestMatchingColumnName dbType c cols) as [[n| |]|e|e] eqn:Hf; cbn; try done.
    split; [done|]. apply consistent_cache; [done|]. unfold quoteSpec. by rewrite Hl, Hf.
  - destruct (GetListOfTableAttributes t) as [cols|e|e] eqn:Hl; cbn; try done.
    pose proof (consistent_attrs reg t cols Hc Hl) as Hc'.
    destruct (FindBestMatchingColumnName dbType c cols) as [[n| |]|e|e] eqn:Hf; cbn; try done.
    split; [done|]. apply consistent_cache; [done|]. unfold quoteSpec. by rewrite Hl, Hf.
Qed.
Lemma quoteAll_consistent calls reg : consistent reg → consistent (quoteAll reg calls).
Proof.
  revert reg. induction calls as [|p calls IH]; intros reg H; [done|].
  by apply IH, QuoteAttributeName_step.
Qed.

(** Whatever was asked before, the registry answers what a fresh query of the
    catalogue would, so its two caches are invisible. *)
Theorem QuoteAttributeName_transparent (calls : list (NameTuple * string)) (t : NameTuple) (c : string) :
  (QuoteAttributeName (quoteAll NewAttributeNameRegistry calls) t c).2 = quoteSpec t c.
Proof. by apply QuoteAttributeName_step, quoteAll_consistent, consistent_New. Qed.
End registry.

Definition sampleName (t : string) : option ObjectName :=
  match NewObjectName POSTGRESQL "public" "public" t with Ok n => Some n | _ => None end.
Definition sampleTable : NameTuple := mkNameTuple (sampleName "users") (sampleName "users") None.
Lemma QuoteAttributeName_transparent_witness :
  (∀ t t', ForKey t = ForKey t' → (λ _, Ok ["id"; "Name"]) t = (λ _ : NameTuple, Ok ["id"; "Name"]) t') ∧
  (QuoteAttributeName POSTGRESQL (λ _, Ok ["id"; "Name"])
     (quoteAll POSTGRESQL (λ _, Ok ["id"; "Name"]) NewAttributeNameRegistry [(sampleTable, "NAME")])
     sampleTable "NAME").2 = Ok (quoted "Name").
Proof.
  split; [done|].
  rewrite (QuoteAttributeName_transparent POSTGRESQL (λ _, Ok ["id"; "Name"]) (λ _ _ _, eq_refl)).
  vm_compute. reflexivity.
Defined.

(** ** The best match *)
Lemma EqualFold_refl c : EqualFold c c = true.
Proof. by apply bool_decide_eq_true. Qed.
Lemma elem_candidates c colName cols :
  c ∈ candidatesOf colName cols ↔ c ∈ cols ∧ EqualFold c colName = true.
Proof. unfold candidatesOf. rewrite list_elem_of_filter. tauto. Qed.

Lemma found_in_columns dbType colName cols c :
  FindBestMatchingColumnName dbType colName cols = Ok (Found c) → c ∈ cols.
Proof.
  unfold FindBestMatchingColumnName. rewrite bind_Ok. intros (name & _ & H).
  case_decide; [by injection H as <-|].
  assert (∀ c, c ∈ candidatesOf name cols → c ∈ cols) as Hc by (intros ? Hx; by apply elem_candidates in Hx as [? _]).
  destruct (candidatesOf name cols) as [|c1 [|c2 l]]; [done|injection H as <-; apply Hc; by left|].
  destruct (foldedName dbType name) as [f|]; [|done].
  case_decide; [|done]. injection H as <-. by apply Hc.
Qed.

(** A name is found only among the table's columns and equal to the requested one
    up to case; the exact spelling wins over every other; and [ErrColumnNameNotFound]
    is returned exactly when no column matches up to case. *)
Theorem FindBestMatchingColumnName_spec (dbType colName name : string) (cols : list string) (m : columnMatch) :
  stripColumnQuotes colName = Ok name →
  FindBestMatchingColumnName dbType colName cols = Ok m →
  (∀ c, m = Found c → c ∈ cols ∧ EqualFold c name = true) ∧
  (name ∈ cols → m = Found name) ∧
  (m = ErrColumnNameNotFound name cols ↔ ∀ c, c ∈ cols → EqualFold c name = false).
Proof.
  unfold FindBestMatchingColumnName. intros -> . cbn [mbind result_bind].
  case_decide as Hin.
  { intros [= <-]. split; [intros c [= <-]; by rewrite EqualFold_refl|]. split; [done|].
    split; [done|]. intros H. specialize (H name Hin). by rewrite EqualFold_refl in H. }
  assert (∀ c, c ∈ candidatesOf name cols → c ∈ cols ∧ EqualFold c name = true) as Hc
    by (intros c; apply elem_candidates).
  assert (candidatesOf name cols = [] ↔ ∀ c, c ∈ cols → EqualFold c name = false) as Hnil.
  { split.
    - intros He c H. destruct (EqualFold c name) eqn:E; [|done].
      assert (c ∈ candidatesOf name cols) as Hx by (by apply elem_candidates). rewrite He in Hx. set_solver.
    - intros H. destruct (candidatesOf name cols) as [|c l]; [done|].
      destruct (Hc c) as [H1 H2]; [left|]. by rewrite H in H2. }
  rewrite <- Hnil. destruct (candidatesOf name cols) as [|c1 [|c2 l]].
  - intros [= <-]. done.
  - intros [= <-]. split; [|done]. intros c [= <-]. apply Hc. by left.
  - intros [= <-]. destruct (foldedName dbType name) as [f|]; [|done].
    case_decide; [|done]. split; [|done]. intros c [= <-]. by apply Hc.
Qed.
Lemma FindBestMatchingColumnName_spec_witness :
  stripColumnQuotes "ID" = Ok "ID" ∧
  FindBestMatchingColumnName YUGABYTEDB "ID" ["Id"; "id"] = Ok (Found "id") ∧
  (∀ c, Found "id" = Found c → c ∈ ["Id"; "id"] ∧ EqualFold c "ID" = true).
Proof.
  assert (stripColumnQuotes "ID" = Ok "ID") as H1 by (vm_compute; reflexivity).
  assert (FindBestMatchingColumnName YUGABYTEDB "ID" ["Id"; "id"] = Ok (Found "id")) as H2
    by (vm_compute; reflexivity).
  destruct (FindBestMatchingColumnName_spec YUGABYTEDB "ID" "ID" _ _ H1 H2) as [H _]. done.
Defined.

(** A column given as one quote character is sliced out of range. *)
Lemma single_quote_panics dbType cols :
  FindBestMatchingColumnName dbType DQ cols = Panic "slice bounds out of range".
Proof. reflexivity. Qed.
End AttrNames.
