(* ===== verification/Event.v ===== *)
(** * tgtdb.Event and tgtdb.EventBatch (src/yb-voyager/src/tgtdb/event.go)

    A change event of the CDC stream, the SQL it turns into on the target and
    the batch of events a worker commits at once.  A Go [map[string]*string] is
    a nil-able finite map to optional strings ([None] is SQL NULL).  Where the
    source ranges over a map, the model uses the map's [map_to_list] order. *)
From S2P Require Import Prelude StructMap SqlName.
Import SqlName.

Module Event.

(** ** Roles (src/yb-voyager/src/constants/roles.go) *)
Definition SOURCE_DB_EXPORTER_ROLE : string := "source_db_exporter".
Definition TARGET_DB_EXPORTER_FF_ROLE : string := "target_db_exporter_ff".
Definition TARGET_DB_EXPORTER_FB_ROLE : string := "target_db_exporter_fb".
Definition TARGET_DB_IMPORTER_ROLE : string := "target_db_importer".
Definition SOURCE_REPLICA_DB_IMPORTER_ROLE : string := "source_replica_db_importer".
Definition SOURCE_DB_IMPORTER_ROLE : string := "source_db_importer".
Definition IMPORT_FILE_ROLE : string := "import_file".

(** ** Events *)
Definition fields : Type := gomap (option string).

Record Event : Type := mkEvent {
  Vsn : Z; Op : string; TableNameTup : NameTuple;
  partitionSchemaName : string; partitionTableName : string; PartitionTableTup : NameTuple;
  EvKey : fields; Fields : fields; BeforeFields : fields; AfterFields : fields;
  ExporterRole : string }.

Definition set_PartitionTableTup (e : Event) (t : NameTuple) : Event :=
  mkEvent (Vsn e) (Op e) (TableNameTup e) (partitionSchemaName e) (partitionTableName e) t
    (EvKey e) (Fields e) (BeforeFields e) (AfterFields e) (ExporterRole e).

(** The body of a nil map ranges over nothing. *)
Definition entries (m : fields) : gmap string (option string) := default ∅ m.

(** An update's after-image is the before-image overlaid with the changes. *)
Definition GenerateAfterFields (op : string) (beforeFields changeFields : fields) : fields :=
  if decide (op = "c") then changeFields
  else if decide (op = "u") then Some (entries changeFields ∪ entries beforeFields)
  else if decide (op = "d") then None
  else None.

Definition IsCutoverToTarget (e : Event) : bool := bool_decide (Op e = "cutover.target").
Definition IsCutoverToSourceReplica (e : Event) : bool :=
  bool_decide (Op e = "cutover.source_replica").
Definition IsCutoverToSource (e : Event) : bool := bool_decide (Op e = "cutover.source").
Definition IsCutoverEvent (e : Event) : bool :=
  IsCutoverToTarget e || IsCutoverToSourceReplica e || IsCutoverToSource e.
Definition IsPartitionEvent (e : Event) : bool :=
  negb (bool_decide (partitionSchemaName e = "")) && negb (bool_decide (partitionTableName e = "")).
Definition shouldUsePartitionTable (e : Event) (usePartitionRoot : bool) : bool :=
  if negb (IsPartitionEvent e) then false else negb usePartitionRoot.

(** The JSON object of a queue line. *)
Record RawEvent : Type := mkRawEvent {
  r_Vsn : Z; r_Op : string; r_SchemaName : string; r_TableName : string;
  r_PartitionSchemaName : string; r_PartitionTableName : string;
  r_Key : fields; r_Fields : fields; r_BeforeFields : fields; r_ExporterRole : string }.

(** [UnmarshalJSON] after the JSON decoder: [None] is [null] or an empty string,
    which leave the event as it is.  [LookupTableName] is the name registry. *)
Definition UnmarshalJSON (LookupTableName : string → result NameTuple) (e : Event)
    (raw : option RawEvent) : result Event :=
  match raw with
  | None => Ok e
  | Some r =>
      let e := mkEvent (r_Vsn r) (r_Op r) (TableNameTup e) (r_PartitionSchemaName r)
                 (r_PartitionTableName r) (PartitionTableTup e) (r_Key r) (r_Fields r)
                 (r_BeforeFields r) (GenerateAfterFields (r_Op r) (r_BeforeFields r) (r_Fields r))
                 (r_ExporterRole r) in
      if negb (IsCutoverEvent e) then
        t ← LookupTableName (r_SchemaName r +:+ "." +:+ r_TableName r);
        Ok (mkEvent (Vsn e) (Op e) t (partitionSchemaName e) (partitionTableName e)
              (PartitionTableTup e) (EvKey e) (Fields e) (BeforeFields e) (AfterFields e)
              (ExporterRole e))
      else Ok e
  end.

(** [lo.MapEntries] with the identity: a fresh map, empty for a nil one. *)
Definition MapEntries (m : fields) : fields := Some (entries m).
Definition Copy (e : Event) : Event :=
  mkEvent (Vsn e) (Op e) (TableNameTup e) (partitionSchemaName e) (partitionTableName e)
    (PartitionTableTup e) (MapEntries (EvKey e)) (MapEntries (Fields e))
    (MapEntries (BeforeFields e)) (MapEntries (AfterFields e)) (ExporterRole e).

Definition GetEffectiveTableName (e : Event) (usePartitionRoot : bool) : result NameTuple :=
  if shouldUsePartitionTable e usePartitionRoot then
    if negb (bool_decide (PartitionTableTup e = NIL_NAME_TUPLE)) then Ok (PartitionTableTup e)
    else Err "Partition table is not set for event"
  else Ok (TableNameTup e).

(** ** SQL *)

(** What the statements need of a target database ([tgtdb.TargetDB]). *)
Class TargetDB : Type := QuoteAttributeName : NameTuple → string → result string.

Definition insertTemplate (t cols vals : string) : string :=
  "INSERT INTO " +:+ t +:+ " (" +:+ cols +:+ ") VALUES (" +:+ vals +:+ ")".
Definition updateTemplate (t sets wheres : string) : string :=
  "UPDATE " +:+ t +:+ " SET " +:+ sets +:+ " WHERE " +:+ wheres.
Definition deleteTemplate (t wheres : string) : string :=
  "DELETE FROM " +:+ t +:+ " WHERE " +:+ wheres.

(** [GetMapKeysSorted] of a nil-able map. *)
Definition GetMapKeysSorted (m : fields) : list string := sorted_keys (entries m).
Definition getMapValuesForQuery (m : fields) : list (option string) :=
  map (λ key, default None (golookup key m)) (GetMapKeysSorted m).

Section sql.
Context `{tdb : TargetDB}.

Definition value_or_null (v : option string) : string := default "NULL" v.

Definition getInsertStmt (e : Event) (usePartitionRoot : bool) : result string :=
  let row := map_to_list (entries (Fields e)) in
  columnList ← mapM_result (λ p, QuoteAttributeName (TableNameTup e) p.1) row;
  let valueList := map (λ p, value_or_null p.2) row in
  tableName ← GetEffectiveTableName e usePartitionRoot;
  t ← ForUserQuery tableName;
  Ok (insertTemplate t (Join ", " columnList) (Join ", " valueList)).

(** [col = value] for every key column; a NULL key value panics. *)
Definition whereClauses (e : Event) : result (list string) :=
  mapM_result (λ p : string * option string,
    match p.2 with
    | None => Panic "key value is nil"
    | Some v => column ← QuoteAttributeName (TableNameTup e) p.1; Ok (column +:+ " = " +:+ v)
    end) (map_to_list (entries (EvKey e))).

Definition getUpdateStmt (e : Event) (usePartitionRoot : bool) : result string :=
  setClauses ← mapM_result (λ p : string * option string,
    column ← QuoteAttributeName (TableNameTup e) p.1;
    Ok (column +:+ " = " +:+ value_or_null p.2)) (map_to_list (entries (Fields e)));
  wheres ← whereClauses e;
  tableName ← GetEffectiveTableName e usePartitionRoot;
  t ← ForUserQuery tableName;
  Ok (updateTemplate t (Join ", " setClauses) (Join " AND " wheres)).

Definition getDeleteStmt (e : Event) (usePartitionRoot : bool) : result string :=
  wheres ← whereClauses e;
  tableName ← GetEffectiveTableName e usePartitionRoot;
  t ← ForUserQuery tableName;
  Ok (deleteTemplate t (Join " AND " wheres)).

(** [col = $pos] for the [i]-th key, [pos = i + 1 + offset]. *)
Definition bindClauses (e : Event) (offset : nat) (keys : list string) : result (list string) :=
  mapM_result (λ p : nat * string,
    key ← QuoteAttributeName (TableNameTup e) p.2;
    Ok (key +:+ " = $" +:+ itoa (Z.of_nat (p.1 + 1 + offset)))) (imap pair keys).

(** A failure to quote an inserted column panics, one to quote a key column of
    the conflict clause is returned. *)
Definition getPreparedInsertStmt (e : Event) (targetDBType : string) (usePartitionRoot : bool)
    : result string :=
  let keys := GetMapKeysSorted (Fields e) in
  columnList ← mapM_result (λ key,
    match QuoteAttributeName (TableNameTup e) key with Err m => Panic m | r => r end) keys;
  let valueList := imap (λ pos _, "$" +:+ itoa (Z.of_nat (pos + 1))) keys in
  tableName ← GetEffectiveTableName e usePartitionRoot;
  t ← ForUserQuery tableName;
  let stmt := insertTemplate t (Join ", " columnList) (Join ", " valueList) in
  if bool_decide (targetDBType = POSTGRESQL) || bool_decide (targetDBType = YUGABYTEDB) then
    keyColumns ← mapM_result (QuoteAttributeName (TableNameTup e)) (GetMapKeysSorted (EvKey e));
    Ok (stmt +:+ " ON CONFLICT (" +:+ Join "," keyColumns +:+ ") DO NOTHING")
  else Ok stmt.

Definition getPreparedUpdateStmt (e : Event) (usePartitionRoot : bool) : result string :=
  setClauses ← bindClauses e 0 (GetMapKeysSorted (Fields e));
  wheres ← bindClauses e (golen (Fields e)) (GetMapKeysSorted (EvKey e));
  tableName ← GetEffectiveTableName e usePartitionRoot;
  t ← ForUserQuery tableName;
  Ok (updateTemplate t (Join ", " setClauses) (Join " AND " wheres)).

Definition getPreparedDeleteStmt (e : Event) (usePartitionRoot : bool) : result string :=
  wheres ← bindClauses e 0 (GetMapKeysSorted (EvKey e));
  tableName ← GetEffectiveTableName e usePartitionRoot;
  t ← ForUserQuery tableName;
  Ok (deleteTemplate t (Join " AND " wheres)).

(** Looking the partition up writes [PartitionTableTup]; the log call evaluates
    both names. *)
Definition resolvePartition (LookupTableName : string → result NameTuple) (e : Event)
    (usePartitionRoot : bool) : result Event :=
  if shouldUsePartitionTable e usePartitionRoot then
    t ← LookupTableName (partitionSchemaName e +:+ "." +:+ partitionTableName e);
    let e := set_PartitionTableTup e t in
    _ ← ForUserQuery (PartitionTableTup e);
    _ ← ForUserQuery (TableNameTup e);
    Ok e
  else Ok e.

Definition GetSQLStmt (LookupTableName : string → result NameTuple) (e : Event)
    (usePartitionRoot : bool) : result (Event * string) :=
  e ← resolvePartition LookupTableName e usePartitionRoot;
  s ← (if decide (Op e = "c") then getInsertStmt e usePartitionRoot
       else if decide (Op e = "u") then getUpdateStmt e usePartitionRoot
       else if decide (Op e = "d") then getDeleteStmt e usePartitionRoot
       else Panic ("unknown op: " +:+ Op e));
  Ok (e, s).
End sql.

(** ** Parameters of prepared statements *)
Definition getInsertParams (e : Event) : list (option string) := getMapValuesForQuery (Fields e).
Definition getUpdateParams (e : Event) : list (option string) :=
  getMapValuesForQuery (Fields e) ++ getMapValuesForQuery (EvKey e).
Definition getDeleteParams (e : Event) : list (option string) := getMapValuesForQuery (EvKey e).
Definition GetParams (e : Event) : result (list (option string)) :=
  if decide (Op e = "c") then Ok (getInsertParams e)
  else if decide (Op e = "u") then Ok (getUpdateParams e)
  else if decide (Op e = "d") then Ok (getDeleteParams e)
  else Panic ("unknown op: " +:+ Op e).
Definition GetParamsString (e : Event) : result string :=
  params ← GetParams e;
  Ok (foldl (λ acc p, acc +:+ value_or_null p +:+ ", ") "" params).

(** ** Names of prepared statements *)
Definition getExporterRoleID (exporterRole : string) : string :=
  if decide (exporterRole = SOURCE_DB_EXPORTER_ROLE) then "src"
  else if decide (exporterRole = TARGET_DB_EXPORTER_FF_ROLE) then "tff"
  else if decide (exporterRole = TARGET_DB_EXPORTER_FB_ROLE) then "tfb"
  else "unk".

Section prepared.
(** The first 12 bytes of a SHA-256 digest, in hexadecimal. *)
Context (sha256_hex24 : string → string).

Definition stmtBaseName (e : Event) (table : string) : string :=
  if decide (Op e = "u") then table +:+ ":" +:+ Join "," (GetMapKeysSorted (Fields e)) else table.
Definition GetPreparedStmtName (e : Event) (usePartitionRoot : bool) : result string :=
  tableName ← GetEffectiveTableName e usePartitionRoot;
  t ← ForUserQuery tableName;
  let baseName := stmtBaseName e t in
  let roleID := getExporterRoleID (ExporterRole e) in
  let fullName := baseName +:+ "_" +:+ roleID +:+ "_" +:+ Op e in
  if (60 <=? String.length fullName)%nat
  then Ok (sha256_hex24 baseName +:+ "_" +:+ roleID +:+ "_" +:+ Op e)
  else Ok fullName.

Context `{tdb : TargetDB}.

(** The statement the cache is filled with on a miss. *)
Definition genPreparedStmt (e : Event) (targetDBType : string) (usePartitionRoot : bool)
    : result string :=
  if decide (Op e = "c") then getPreparedInsertStmt e targetDBType usePartitionRoot
  else if decide (Op e = "u") then getPreparedUpdateStmt e usePartitionRoot
  else if decide (Op e = "d") then getPreparedDeleteStmt e usePartitionRoot
  else Panic ("unknown op: " +:+ Op e).

(** [GetPreparedSQLStmt] with the process-wide [cachePreparedStmt] threaded. *)
Definition GetPreparedSQLStmt (LookupTableName : string → result NameTuple)
    (cache : gmap string string) (e : Event) (targetDBType : string) (usePartitionRoot : bool)
    : result (gmap string string * Event * string) :=
  e ← resolvePartition LookupTableName e usePartitionRoot;
  psName ← GetPreparedStmtName e usePartitionRoot;
  match cache !! psName with
  | Some stmt => Ok (cache, e, stmt)
  | None =>
      ps ← genPreparedStmt e targetDBType usePartitionRoot;
      Ok (<[psName := ps]> cache, e, ps)
  end.
End prepared.

(** ** Counters and batches *)
Record EventCounter : Type := mkEventCounter {
  TotalEvents : Z; NumInserts : Z; NumUpdates : Z; NumDeletes : Z }.
Definition zeroCounter : EventCounter := mkEventCounter 0 0 0 0.

Definition CountEvent (ec : EventCounter) (ev : Event) : EventCounter :=
  let ec := mkEventCounter (TotalEvents ec + 1) (NumInserts ec) (NumUpdates ec) (NumDeletes ec) in
  if decide (Op ev = "c") then
    mkEventCounter (TotalEvents ec) (NumInserts ec + 1) (NumUpdates ec) (NumDeletes ec)
  else if decide (Op ev = "u") then
    mkEventCounter (TotalEvents ec) (NumInserts ec) (NumUpdates ec + 1) (NumDeletes ec)
  else if decide (Op ev = "d") then
    mkEventCounter (TotalEvents ec) (NumInserts ec) (NumUpdates ec) (NumDeletes ec + 1)
  else ec.
Definition Merge (ec ec2 : EventCounter) : EventCounter :=
  mkEventCounter (TotalEvents ec + TotalEvents ec2) (NumInserts ec + NumInserts ec2)
    (NumUpdates ec + NumUpdates ec2) (NumDeletes ec + NumDeletes ec2).

Record EventBatch : Type := mkEventBatch {
  Events : list Event; ChanNo : Z; EventCounts : EventCounter;
  EventCountsByTable : StructMap.t NameTuple EventCounter }.

(** One turn of the loop of [updateCounts]; the counter is reached by pointer. *)
Definition countOne (acc : EventCounter * StructMap.t NameTuple EventCounter) (event : Event) :=
  let '(counts, byTable) := acc in
  let byTable := match StructMap.Get byTable (TableNameTup event) with
                 | Some _ => byTable
                 | None => StructMap.Put byTable (TableNameTup event) zeroCounter
                 end in
  let eventCounter := default zeroCounter (StructMap.Get byTable (TableNameTup event)) in
  (CountEvent counts event,
   StructMap.Assign byTable (TableNameTup event) (CountEvent eventCounter event)).
Definition updateCounts (eb : EventBatch) : EventBatch :=
  let '(counts, byTable) := foldl countOne (EventCounts eb, EventCountsByTable eb) (Events eb) in
  mkEventBatch (Events eb) (ChanNo eb) counts byTable.
Definition NewEventBatch (events : list Event) (chanNo : Z) : EventBatch :=
  updateCounts (mkEventBatch events chanNo zeroCounter StructMap.NewStructMap).

(** An empty batch has no last event: the slice access panics. *)
Definition GetLastVsn (eb : EventBatch) : result Z :=
  match last (Events eb) with Some e => Ok (Vsn e) | None => Panic "index out of range" end.
Definition ID (eb : EventBatch) : result string :=
  match head (Events eb) with
  | Some e => l ← GetLastVsn eb; Ok (itoa (Vsn e) +:+ ":" +:+ itoa l)
  | None => Panic "index out of range"
  end.
Definition GetAllVsns (eb : EventBatch) : list Z := map Vsn (Events eb).
Definition GetTableNames (eb : EventBatch) : list NameTuple :=
  StructMap.ActualKeys (EventCountsByTable eb).

(** The bookkeeping statements, by what they write rather than by their text:
    the row of [event_channels_metadata] or of [imported_event_count_by_table]
    they address and the increments they carry. *)
Record ChannelMetadataUpdate : Type := mkChannelMetadataUpdate {
  cmu_last_applied_vsn : Z; cmu_num_inserts : Z; cmu_num_updates : Z; cmu_num_deletes : Z;
  cmu_migration_uuid : string; cmu_channel_no : Z }.
Definition GetChannelMetadataUpdateQuery (eb : EventBatch) (migrationUUID : string)
    : result ChannelMetadataUpdate :=
  l ← GetLastVsn eb;
  Ok (mkChannelMetadataUpdate l (NumInserts (EventCounts eb)) (NumUpdates (EventCounts eb))
        (NumDeletes (EventCounts eb)) migrationUUID (ChanNo eb)).
Record EventStatsRow : Type := mkEventStatsRow {
  es_counter : EventCounter; es_migration_uuid : string; es_table_name : string;
  es_channel_no : Z }.
(** A table the batch does not hold has a nil counter: the statement panics. *)
Definition eventStats (eb : EventBatch) (migrationUUID : string) (tableNameTup : NameTuple)
    : result EventStatsRow :=
  eventCounter ← deref (StructMap.Get (EventCountsByTable eb) tableNameTup);
  k ← ForKey_r tableNameTup;
  Ok (mkEventStatsRow eventCounter migrationUUID k (ChanNo eb)).
Definition GetQueriesToUpdateEventStatsByTable := eventStats.
Definition GetQueriesToInsertEventStatsByTable := eventStats.

(** ** Lemmas: prepared statements *)
Lemma golen_entries (m : fields) : golen m = size (entries m).
Proof. destruct m; cbn; [done|by rewrite map_size_empty]. Qed.
Lemma golookup_entries (m : fields) k : golookup k m = entries m !! k.
Proof. destruct m; cbn; [done|by rewrite lookup_empty]. Qed.
Lemma length_keys (m : fields) : length (GetMapKeysSorted m) = golen m.
Proof.
  unfold GetMapKeysSorted, sorted_keys, map_keys.
  by rewrite sort_strings_perm, length_fmap, length_map_to_list, golen_entries.
Qed.
Lemma getMapValues_lookup (m : fields) i k :
  GetMapKeysSorted m !! i = Some k →
  getMapValuesForQuery m !! i = Some (default None (golookup k m)).
Proof. intros H. unfold getMapValuesForQuery. by rewrite list_lookup_fmap, H. Qed.
Lemma length_values (m : fields) : length (getMapValuesForQuery m) = golen m.
Proof. unfold getMapValuesForQuery. by rewrite length_fmap, length_keys. Qed.

Lemma bindClauses_lookup `{TargetDB} e off keys cls i k :
  bindClauses e off keys = Ok cls → keys !! i = Some k →
  ∃ col, QuoteAttributeName (TableNameTup e) k = Ok col ∧
         cls !! i = Some (col +:+ " = $" +:+ itoa (Z.of_nat (i + 1 + off))).
Proof.
  intros Hb Hk. apply mapM_result_Ok in Hb.
  assert (imap pair keys !! i = Some (i, k)) as Hi by (by rewrite list_lookup_imap, Hk).
  destruct (Forall2_lookup_l _ _ _ _ _ Hb Hi) as (c & Hc & Hcol). cbn in Hcol.
  rewrite bind_Ok in Hcol. destruct Hcol as (col & Hq & [= <-]). eauto.
Qed.

(** In a prepared UPDATE, the placeholder written after each column is the
    position of that column's value in the parameters: [$i+1] is bound to the new
    value of the [i]-th changed column, and the placeholder of each key column to
    its key value. *)
Theorem update_placeholders_bound `{TargetDB} (e : Event) (upr : bool) (stmt : string) :
  getPreparedUpdateStmt e upr = Ok stmt →
  ∃ t sets wheres, stmt = updateTemplate t (Join ", " sets) (Join " AND " wheres) ∧
    (∀ i k, GetMapKeysSorted (Fields e) !! i = Some k →
       ∃ col pos, QuoteAttributeName (TableNameTup e) k = Ok col ∧
         sets !! i = Some (col +:+ " = $" +:+ itoa (Z.of_nat (S pos))) ∧
         getUpdateParams e !! pos = Some (default None (golookup k (Fields e)))) ∧
    (∀ i k, GetMapKeysSorted (EvKey e) !! i = Some k →
       ∃ col pos, QuoteAttributeName (TableNameTup e) k = Ok col ∧
         wheres !! i = Some (col +:+ " = $" +:+ itoa (Z.of_nat (S pos))) ∧
         getUpdateParams e !! pos = Some (default None (golookup k (EvKey e)))).
Proof.
  unfold getPreparedUpdateStmt. rewrite bind_Ok. intros (sets & Hs & H1).
  rewrite bind_Ok in H1. destruct H1 as (wheres & Hw & H1).
  rewrite bind_Ok in H1. destruct H1 as (tn & _ & H1).
  rewrite bind_Ok in H1. destruct H1 as (t & _ & [= <-]).
  exists t, sets, wheres. split; [done|]. split; intros i k Hk.
  - destruct (bindClauses_lookup _ _ _ _ _ _ Hs Hk) as (col & Hq & Hc).
    exists col, i. split; [done|]. split; [by rewrite Hc; do 4 f_equal; lia|].
    unfold getUpdateParams. rewrite lookup_app_l; [by apply getMapValues_lookup|].
    rewrite length_values, <- length_keys. by apply lookup_lt_Some in Hk.
  - destruct (bindClauses_lookup _ _ _ _ _ _ Hw Hk) as (col & Hq & Hc).
    exists col, (golen (Fields e) + i)%nat. split; [done|].
    split; [by rewrite Hc; do 4 f_equal; lia|].
    unfold getUpdateParams. rewrite lookup_app_r, length_values by (rewrite length_values; lia).
    replace (golen (Fields e) + i - golen (Fields e))%nat with i by lia.
    by apply getMapValues_lookup.
Qed.

(** ** A concrete event for the witnesses *)
Definition quoteAll : TargetDB := λ _ c, Ok (quoted c).
Definition sampleTable : NameTuple :=
  match NewObjectName POSTGRESQL "public" "public" "accounts" with
  | Ok o => mkNameTuple (Some o) (Some o) None
  | _ => NIL_NAME_TUPLE
  end.
Definition sampleUpdate : Event :=
  mkEvent 7 "u" sampleTable "" "" NIL_NAME_TUPLE
    (Some {[ "id" := Some "1" ]}) (Some {[ "b" := Some "x"; "a" := None ]})
    (Some {[ "id" := Some "1"; "a" := Some "old"; "b" := Some "y" ]}) None
    SOURCE_DB_EXPORTER_ROLE.
Example sampleUpdate_stmt :
  getPreparedUpdateStmt (tdb := quoteAll) sampleUpdate false =
  Ok ("UPDATE " +:+ quoted "public" +:+ "." +:+ quoted "accounts" +:+ " SET "
      +:+ quoted "a" +:+ " = $1, " +:+ quoted "b" +:+ " = $2 WHERE " +:+ quoted "id" +:+ " = $3").
Proof. vm_compute. reflexivity. Qed.
Lemma update_placeholders_bound_witness :
  ∃ stmt, getPreparedUpdateStmt (tdb := quoteAll) sampleUpdate false = Ok stmt ∧
  ∃ t sets wheres, stmt = updateTemplate t (Join ", " sets) (Join " AND " wheres) ∧
    (∀ i k, GetMapKeysSorted (Fields sampleUpdate) !! i = Some k →
       ∃ col pos, QuoteAttributeName (TargetDB := quoteAll) (TableNameTup sampleUpdate) k = Ok col ∧
         sets !! i = Some (col +:+ " = $" +:+ itoa (Z.of_nat (S pos))) ∧
         getUpdateParams sampleUpdate !! pos = Some (default None (golookup k (Fields sampleUpdate)))) ∧
    (∀ i k, GetMapKeysSorted (EvKey sampleUpdate) !! i = Some k →
       ∃ col pos, QuoteAttributeName (TargetDB := quoteAll) (TableNameTup sampleUpdate) k = Ok col ∧
         wheres !! i = Some (col +:+ " = $" +:+ itoa (Z.of_nat (S pos))) ∧
         getUpdateParams sampleUpdate !! pos = Some (default None (golookup k (EvKey sampleUpdate)))).
Proof.
  eexists. split; [vm_compute; reflexivity|].
  apply (update_placeholders_bound (H := quoteAll) sampleUpdate false). vm_compute. reflexivity.
Defined.

(** ** Lemmas: statement names *)
Lemma getExporterRoleID_length r : String.length (getExporterRoleID r) = 3%nat.
Proof. unfold getExporterRoleID. repeat case_decide; done. Qed.

(** A prepared statement's name stays under PostgreSQL's 63-byte identifier limit,
    so the server never truncates two names to the same one. *)
Theorem GetPreparedStmtName_length (sha : string → string) (e : Event) (upr : bool) (n : string) :
  (∀ s, String.length (sha s) = 24%nat) →
  String.length (Op e) = 1%nat →
  GetPreparedStmtName sha e upr = Ok n → (String.length n < 63)%nat.
Proof.
  intros Hsha Hop. unfold GetPreparedStmtName. rewrite bind_Ok. intros (tn & _ & H).
  rewrite bind_Ok in H. destruct H as (t & _ & H). revert H. cbv zeta.
  destruct (60 <=? _)%nat eqn:Hl; intros [= <-].
  - rewrite str_length_app, Hsha. cbn [String.append String.length].
    rewrite str_length_app, getExporterRoleID_length. cbn. rewrite Hop. lia.
  - apply Nat.leb_gt in Hl. eapply Nat.lt_trans; [exact Hl|lia].
Qed.
Lemma GetPreparedStmtName_length_witness :
  ∃ n, GetPreparedStmtName (λ _, "0123456789abcdef01234567") sampleUpdate false = Ok n ∧
       (String.length n < 63)%nat.
Proof.
  eexists. split; [vm_compute; reflexivity|].
  apply (GetPreparedStmtName_length (λ _, "0123456789abcdef01234567") sampleUpdate false);
    [intros _|..]; vm_compute; reflexivity.
Defined.

(** ** Lemmas: the statement cache *)

(** What a prepared statement is generated from: two events of one shape differ
    in their values at most. *)
Definition stmtShape (e : Event) : string * NameTuple * NameTuple * list string * list string :=
  (Op e, TableNameTup e, PartitionTableTup e, GetMapKeysSorted (Fields e),
   GetMapKeysSorted (EvKey e)).

Lemma bindClauses_shape `{TargetDB} e1 e2 off keys :
  TableNameTup e1 = TableNameTup e2 → bindClauses e1 off keys = bindClauses e2 off keys.
Proof. intros E. apply mapM_result_ext. intros p _. by rewrite E. Qed.
Lemma effective_shape e1 e2 upr :
  TableNameTup e1 = TableNameTup e2 → PartitionTableTup e1 = PartitionTableTup e2 →
  IsPartitionEvent e1 = IsPartitionEvent e2 →
  GetEffectiveTableName e1 upr = GetEffectiveTableName e2 upr.
Proof. intros E1 E2 E3. unfold GetEffectiveTableName, shouldUsePartitionTable. by rewrite E1, E2, E3. Qed.
Lemma genPreparedStmt_shape `{TargetDB} e1 e2 ty upr :
  stmtShape e1 = stmtShape e2 → IsPartitionEvent e1 = IsPartitionEvent e2 →
  genPreparedStmt e1 ty upr = genPreparedStmt e2 ty upr.
Proof.
  unfold stmtShape. intros [= Eop Et Ep Ef Ek] Epe.
  pose proof (effective_shape e1 e2 upr Et Ep Epe) as Eff.
  assert (golen (Fields e1) = golen (Fields e2)) as El by (by rewrite <- !length_keys, Ef).
  unfold genPreparedStmt, getPreparedInsertStmt, getPreparedUpdateStmt, getPreparedDeleteStmt.
  rewrite Eop, Ef, Ek, El, Eff, Et, !(bindClauses_shape e1 e2) by done. done.
Qed.

(** Every cached statement is the one its events would generate. *)
Definition cacheOk `{TargetDB} (sha : string → string) (ty : string) (upr : bool)
    (evs : Event → Prop) (cache : gmap string string) : Prop :=
  ∀ n stmt, cache !! n = Some stmt →
    ∃ e, evs e ∧ GetPreparedStmtName sha e upr = Ok n ∧ genPreparedStmt e ty upr = Ok stmt.

(** The prepared-statement cache is transparent: when events filed under the same
    statement name have the same shape, [GetPreparedSQLStmt] returns the statement
    the event itself generates, hit or miss, and keeps the cache that way. *)
Theorem GetPreparedSQLStmt_cache_transparent `{TargetDB} (sha : string → string)
    (lookup : string → result NameTuple) (ty : string) (upr : bool) (evs : Event → Prop)
    (cache cache' : gmap string string) (e e' : Event) (stmt : string) :
  (∀ e1 e2 n, evs e1 → evs e2 → GetPreparedStmtName sha e1 upr = Ok n →
     GetPreparedStmtName sha e2 upr = Ok n →
     stmtShape e1 = stmtShape e2 ∧ IsPartitionEvent e1 = IsPartitionEvent e2) →
  cacheOk sha ty upr evs cache →
  GetPreparedSQLStmt sha lookup cache e ty upr = Ok (cache', e', stmt) → evs e' →
  genPreparedStmt e' ty upr = Ok stmt ∧ cacheOk sha ty upr evs cache'.
Proof.
  intros Hshape Hc. unfold GetPreparedSQLStmt. rewrite bind_Ok. intros (e1 & _ & H1).
  rewrite bind_Ok in H1. destruct H1 as (n & Hn & H1). destruct (cache !! n) as [s|] eqn:Hhit.
  - injection H1 as <- <- <-. intros He. split; [|done].
    destruct (Hc _ _ Hhit) as (e2 & He2 & Hn2 & Hg).
    destruct (Hshape e1 e2 n) as [Hs Hp]; [done..|]. by rewrite (genPreparedStmt_shape e1 e2).
  - rewrite bind_Ok in H1. destruct H1 as (ps & Hg & [= <- <- <-]). intros He. split; [done|].
    intros n' s'. rewrite lookup_insert. case_decide as Hd; [|apply Hc].
    intros [= <-]. subst n'. eauto.
Qed.
Lemma GetPreparedSQLStmt_cache_transparent_witness :
  ∃ cache' stmt,
    GetPreparedSQLStmt (tdb := quoteAll) (λ _, "") (λ _, Err "") ∅ sampleUpdate POSTGRESQL true
      = Ok (cache', sampleUpdate, stmt) ∧
    genPreparedStmt (tdb := quoteAll) sampleUpdate POSTGRESQL true = Ok stmt ∧
    cacheOk (H := quoteAll) (λ _, "") POSTGRESQL true (λ e, e = sampleUpdate) cache'.
Proof.
  eexists _, _. split; [vm_compute; reflexivity|].
  eapply (GetPreparedSQLStmt_cache_transparent (H := quoteAll) (λ _, "") (λ _, Err "") POSTGRESQL
            true (λ e, e = sampleUpdate) ∅ _ sampleUpdate sampleUpdate).
  - by intros e1 e2 n -> ->.
  - intros n s Hn. by rewrite lookup_empty in Hn.
  - vm_compute. reflexivity.
  - done.
Defined.

(** ** Lemmas: counters *)
Definition countOp (op : string) (l : list Event) : Z :=
  Z.of_nat (length (filter (λ e, Op e = op) l)).
(** What a counter should read after the events of [l]. *)
Definition tally (l : list Event) : EventCounter :=
  mkEventCounter (Z.of_nat (length l)) (countOp "c" l) (countOp "u" l) (countOp "d" l).

Lemma countOp_snoc op l e :
  countOp op (l ++ [e]) = countOp op l + (if decide (Op e = op) then 1 else 0).
Proof.
  unfold countOp. rewrite filter_app, length_app, filter_cons, filter_nil.
  case_decide; cbn [length]; lia.
Qed.
Lemma tally_snoc l e : tally (l ++ [e]) = CountEvent (tally l) e.
Proof.
  unfold tally, CountEvent. rewrite !countOp_snoc, length_app. cbn [length].
  repeat case_decide; try congruence; cbn; f_equal; lia.
Qed.
Lemma Merge_tally l1 l2 : Merge (tally l1) (tally l2) = tally (l1 ++ l2).
Proof.
  unfold tally, countOp, Merge; cbn. rewrite !filter_app, !length_app. f_equal; lia.
Qed.

(** The events of [l] on the table of [t]. *)
Definition onTable (t : NameTuple) (l : list Event) : list Event :=
  filter (λ e, ForKey (TableNameTup e) = ForKey t) l.
Definition tableCount (t : NameTuple) (l : list Event) : option EventCounter :=
  match onTable t l with [] => None | l' => Some (tally l') end.

Lemma onTable_snoc t l e :
  onTable t (l ++ [e]) =
    onTable t l ++ (if decide (ForKey (TableNameTup e) = ForKey t) then [e] else []).
Proof. unfold onTable. rewrite filter_app, filter_cons, filter_nil. by case_decide. Qed.

Lemma Get_Assign {V} (m : StructMap.t NameTuple V) k k' v :
  StructMap.Get (StructMap.Assign m k v) k' =
    if decide (ForKey k = ForKey k') then Some v else StructMap.Get m k'.
Proof. unfold StructMap.Get, StructMap.Assign; cbn. by rewrite lookup_insert. Qed.
Lemma Get_Put_tuple {V} (m : StructMap.t NameTuple V) k k' v :
  StructMap.Get (StructMap.Put m k v) k' =
    if decide (ForKey k = ForKey k') then Some v else StructMap.Get m k'.
Proof. unfold StructMap.Get, StructMap.Put; cbn. by rewrite lookup_insert. Qed.

(** The loop of [updateCounts] keeps both counters equal to the tally of the
    events seen. *)
Definition countsOk (l : list Event) (acc : EventCounter * StructMap.t NameTuple EventCounter) : Prop :=
  acc.1 = tally l ∧ StructMap.wf acc.2 ∧ ∀ t, StructMap.Get acc.2 t = tableCount t l.

Lemma tableCount_snoc t l e :
  tableCount t (l ++ [e]) =
    if decide (ForKey (TableNameTup e) = ForKey t)
    then Some (CountEvent (default zeroCounter (tableCount t l)) e) else tableCount t l.
Proof.
  unfold tableCount. rewrite onTable_snoc. case_decide; [|by rewrite app_nil_r].
  destruct (onTable t l) as [|e' l'] eqn:E; cbn [app default].
  - f_equal. by rewrite <- (tally_snoc []).
  - change (e' :: l' ++ [e]) with ((e' :: l') ++ [e]). by rewrite tally_snoc.
Qed.
Lemma tableCount_key t t' l : ForKey t = ForKey t' → tableCount t l = tableCount t' l.
Proof. intros H. unfold tableCount, onTable. by rewrite H. Qed.

Lemma countOne_ok l acc e : countsOk l acc → countsOk (l ++ [e]) (countOne acc e).
Proof.
  destruct acc as [c m]. intros (Hc & Hwf & Hm); cbn in Hc, Hwf, Hm.
  unfold countOne. rewrite Hm.
  set (m' := match tableCount _ l with Some _ => m | None => _ end).
  assert (StructMap.wf m') as Hwf' by (subst m'; case_match; [done|by apply StructMap.wf_Put]).
  assert (∀ t, StructMap.Get m' t = if decide (ForKey (TableNameTup e) = ForKey t)
    then Some (default zeroCounter (tableCount t l)) else tableCount t l) as Hm'.
  { intros t. subst m'. destruct (tableCount (TableNameTup e) l) as [x|] eqn:E.
    - rewrite Hm. case_decide as Hk; [|done].
      by rewrite <- (tableCount_key _ _ _ Hk), E.
    - rewrite Get_Put_tuple, Hm. case_decide as Hk; [|done].
      by rewrite <- (tableCount_key _ _ _ Hk), E. }
  split; [cbn; by rewrite tally_snoc, Hc|]. split; cbn.
  - apply StructMap.wf_Assign; [done|]. fold (StructMap.Get m' (TableNameTup e)).
    rewrite Hm'. by rewrite decide_True.
  - intros t. rewrite Get_Assign, tableCount_snoc. case_decide as Hk.
    + rewrite Hm', decide_True by done. cbn. by rewrite (tableCount_key _ _ _ Hk).
    + by rewrite Hm', decide_False.
Qed.
Lemma countLoop_ok l : countsOk l (foldl countOne (zeroCounter, StructMap.NewStructMap) l).
Proof.
  induction l as [|e l IH] using rev_ind.
  - split; [done|]. split; [apply StructMap.wf_New|]. intros t. apply lookup_empty.
  - rewrite foldl_snoc. by apply countOne_ok.
Qed.

Lemma NewEventBatch_facts (events : list Event) (chanNo : Z) :
  let eb := NewEventBatch events chanNo in
  Events eb = events ∧ ChanNo eb = chanNo ∧ EventCounts eb = tally events ∧
  (∀ t, StructMap.Get (EventCountsByTable eb) t = tableCount t events) ∧
  (∀ t, t ∈ GetTableNames eb → onTable t events ≠ []).
Proof.
  cbn zeta. unfold NewEventBatch, updateCounts. cbn [Events EventCounts EventCountsByTable ChanNo].
  destruct (countLoop_ok events) as (H1 & Hwf & H2).
  destruct (foldl countOne _ events) as [c m]. cbn in *. split_and!; [done..|].
  intros t Ht. unfold GetTableNames in Ht. cbn in Ht. unfold StructMap.ActualKeys in Ht.
  apply list_elem_of_fmap in Ht as ([k t'] & -> & Hin). apply elem_of_map_to_list in Hin.
  destruct Hwf as [Hd Hk]. pose proof (Hk _ _ Hin) as <-. cbn.
  specialize (H2 t'). unfold StructMap.Get in H2.
  destruct (proj1 (Hd (Key t')) (ex_intro _ _ Hin)) as [v Hv].
  rewrite Hv in H2. unfold tableCount in H2. by destruct (onTable t' events).
Qed.

(** A batch counts what it holds: its total counter and the counter of every
    table are the numbers of events, inserts, updates and deletes among its
    events (on that table), and a table without an event has no counter. *)
Theorem NewEventBatch_counts (events : list Event) (chanNo : Z) :
  let eb := NewEventBatch events chanNo in
  Events eb = events ∧ ChanNo eb = chanNo ∧ EventCounts eb = tally events ∧
  (∀ t, StructMap.Get (EventCountsByTable eb) t = tableCount t events) ∧
  (∀ t, t ∈ GetTableNames eb → onTable t events ≠ []).
Proof. apply NewEventBatch_facts. Qed.

(** The statement that moves a channel forward carries the batch's last VSN and
    its counts; every event of a known operation is counted under exactly one. *)
Lemma tally_total l :
  Forall (λ e, Op e = "c" ∨ Op e = "u" ∨ Op e = "d") l →
  TotalEvents (tally l) = NumInserts (tally l) + NumUpdates (tally l) + NumDeletes (tally l).
Proof.
  induction l as [|e l IH] using rev_ind; [done|].
  intros [Hl He]%Forall_app. apply Forall_cons in He as [He _]. specialize (IH Hl).
  rewrite tally_snoc. revert IH. generalize (tally l). intros [] IH. cbn in IH.
  unfold CountEvent; cbn. repeat case_decide; cbn; [lia..|naive_solver].
Qed.
Lemma NewEventBatch_nonempty events chanNo :
  events ≠ [] → ∃ e, last events = Some e ∧ GetLastVsn (NewEventBatch events chanNo) = Ok (Vsn e).
Proof.
  intros Hne. destruct (NewEventBatch_facts events chanNo) as (He & _).
  unfold GetLastVsn. cbn zeta in He. rewrite He.
  destruct (last events) eqn:El; [eauto|]. by apply last_None in El.
Qed.

(** ** Lemmas: images of an event *)
Lemma golookup_Copy (m : fields) k : golookup k (MapEntries m) = golookup k m.
Proof. destruct m; cbn; [done|]. by rewrite lookup_empty. Qed.
(** An update's after-image: the changed value where the column changed, the old
    value otherwise. *)
Lemma GenerateAfterFields_update before change k :
  golookup k (GenerateAfterFields "u" before change) =
    match golookup k change with Some v => Some v | None => golookup k before end.
Proof.
  change (golookup k (GenerateAfterFields "u" before change))
    with ((entries change ∪ entries before) !! k).
  rewrite !golookup_entries, lookup_union. by destruct (entries change !! k), (entries before !! k).
Qed.
End Event.
