(* ===== verification/PartitionKey.v ===== *)
(** * Routing of CDC events (src/yb-voyager/cmd/live_migration.go)

    The partition key of an event under its table's CDC partitioning strategy
    and the channel it hashes to.  [NUM_EVENT_CHANNELS] is an argument. *)
From S2P Require Import Prelude StructMap SqlName Event.
Import SqlName Event.

Module PartitionKey.

Definition PARTITION_BY_PK : string := "pk".
Definition PARTITION_BY_TABLE : string := "table".
Definition PARTITION_BY_CUSTOM : string := "custom".

Record cdcPartitionKeyOverride : Type := mkOverride { Strategy : string; Columns : list string }.
#[global] Instance cdcPartitionKeyOverride_eq_dec : EqDecision cdcPartitionKeyOverride.
Proof. solve_decision. Defined.

(** The per-table strategies; [None] is the nil map. *)
Definition PartitionKeyMap : Type := option (StructMap.t NameTuple cdcPartitionKeyOverride).

(** Written for a NULL custom key column. *)
Definition customKeyNullSentinel : string := NUL +:+ "NULL" +:+ NUL.

(** The value of a custom key column as the operation carries it; [Ok None]: the
    operation is none of the three and the column is not found. *)
Definition customPartitionKeyColumnValue (e : Event) (col : string)
    : result (option (option string)) :=
  if decide (Op e = "c") then
    match golookup col (Fields e) with
    | Some val => Ok (Some val)
    | None => Err "custom partition key column not found in event"
    end
  else if decide (Op e = "u") then
    match golookup col (Fields e) with
    | Some _ => Err "custom partition key column is required to be immutable"
    | None =>
        match golookup col (BeforeFields e) with
        | Some val => Ok (Some val)
        | None => Err "custom partition key column not found in event; REPLICA IDENTITY FULL"
        end
    end
  else if decide (Op e = "d") then
    match golookup col (BeforeFields e) with
    | Some val => Ok (Some val)
    | None => Err "custom partition key column not found in event"
    end
  else Ok None.

(** The builder's loops: one piece per column, appended in order. *)
Definition pkPiece (e : Event) (k : string) : result string :=
  match golookup k (EvKey e) with
  | Some (Some v) => Ok v
  | _ => Panic "nil pointer dereference"
  end.
Definition customPiece (e : Event) (col : string) : result string :=
  v ← customPartitionKeyColumnValue e col;
  match v with
  | None => Err "custom partition key column not found in event"
  | Some None => Ok customKeyNullSentinel
  | Some (Some val) => Ok val
  end.

Definition GetEventPartitionKey (e : Event) (tablePartitionKeyMap : PartitionKeyMap)
    : result string :=
  match tablePartitionKeyMap with
  | None => Err "table partition key map is not initialized"
  | Some pm =>
      match StructMap.Get pm (TableNameTup e) with
      | None => Err "table partition key map does not contain table"
      | Some partitionKey =>
          let b := ForKey (TableNameTup e) in
          if decide (Strategy partitionKey = PARTITION_BY_PK) then
            pieces ← mapM_result (pkPiece e) (sort_strings (map_keys (entries (EvKey e))));
            Ok (b +:+ Join "" pieces)
          else if decide (Strategy partitionKey = PARTITION_BY_TABLE) then Ok b
          else if decide (Strategy partitionKey = PARTITION_BY_CUSTOM) then
            match Columns partitionKey with
            | [] => Err "custom partition key columns not found for table"
            | columns =>
                pieces ← mapM_result (customPiece e) (sort_strings columns);
                Ok (b +:+ Join "" pieces)
            end
          else Err ("invalid partitioning strategy: " +:+ Strategy partitionKey)
      end
  end.

(** ** FNV-1a, 64 bits ([hash/fnv] New64a) *)
Definition fnv_offset64 : Z := 14695981039346656037.
Definition fnv_prime64 : Z := 1099511628211.
Fixpoint fnv1a_from (h : Z) (s : string) : Z :=
  match s with
  | "" => h
  | String c s =>
      fnv1a_from (Z.modulo (Z.lxor h (Z.of_nat (nat_of_ascii c)) * fnv_prime64) (2 ^ 64)) s
  end.
Definition fnv1a64 (s : string) : Z := fnv1a_from fnv_offset64 s.

Definition hashEvent (NUM_EVENT_CHANNELS : Z) (e : Event) (pm : PartitionKeyMap) : result Z :=
  partitionKey ← GetEventPartitionKey e pm;
  if decide (NUM_EVENT_CHANNELS = 0) then Panic "integer divide by zero"
  else Ok (Z.modulo (fnv1a64 partitionKey) NUM_EVENT_CHANNELS).

(** The published FNV-1a test vectors. *)
Example fnv1a64_empty : fnv1a64 "" = 14695981039346656037.
Proof. reflexivity. Qed.
Example fnv1a64_a : fnv1a64 "a" = 12638187200555641996.
Proof. reflexivity. Qed.
Example fnv1a64_foobar : fnv1a64 "foobar" = 9625390261332436968.
Proof. reflexivity. Qed.

(** ** Lemmas *)
Lemma fnv1a_from_range s : ∀ h, 0 ≤ h < 2 ^ 64 → 0 ≤ fnv1a_from h s < 2 ^ 64.
Proof.
  induction s as [|c s IH]; intros h Hh; [done|]. cbn [fnv1a_from]. apply IH.
  apply Z.mod_pos_bound. lia.
Qed.
Lemma fnv1a64_range s : 0 ≤ fnv1a64 s < 2 ^ 64.
Proof. by apply fnv1a_from_range. Qed.

(** The channel of an event is one of the [NUM_EVENT_CHANNELS] channels, and is
    determined by the partition key: two events with one key share a channel, so
    that excluding them from conflict detection is safe. *)
Theorem hashEvent_routes (n : Z) (pm : PartitionKeyMap) (e1 e2 : Event) (k : string) :
  0 < n → GetEventPartitionKey e1 pm = Ok k → GetEventPartitionKey e2 pm = Ok k →
  ∃ h, hashEvent n e1 pm = Ok h ∧ hashEvent n e2 pm = Ok h ∧ 0 ≤ h < n.
Proof.
  intros Hn H1 H2. exists (fnv1a64 k mod n). unfold hashEvent. rewrite H1, H2. cbn.
  rewrite decide_False by lia. split_and!; [done..| |]; apply Z.mod_pos_bound; done.
Qed.

(** A key is the table's own key followed by the routing values. *)
Lemma GetEventPartitionKey_prefix e pm k :
  GetEventPartitionKey e pm = Ok k → ∃ rest, k = ForKey (TableNameTup e) +:+ rest.
Proof.
  unfold GetEventPartitionKey. destruct pm as [pm|]; [|done].
  destruct (StructMap.Get pm _) as [[st cols]|]; [|done]. cbn.
  case_decide; [rewrite bind_Ok; intros (? & _ & [= <-]); eauto|].
  case_decide; [intros [= <-]; exists ""; by rewrite str_app_nil_r|].
  case_decide; [|done]. destruct cols; [done|].
  rewrite bind_Ok. intros (? & _ & [= <-]). eauto.
Qed.


(** Two events carry the same row identity for the strategy [p]. *)
Definition sameRoute (p : cdcPartitionKeyOverride) (e1 e2 : Event) : Prop :=
  if decide (Strategy p = PARTITION_BY_PK) then entries (EvKey e1) = entries (EvKey e2)
  else if decide (Strategy p = PARTITION_BY_CUSTOM) then
    ∀ col, col ∈ Columns p →
      customPartitionKeyColumnValue e1 col = customPartitionKeyColumnValue e2 col
  else True.


(** The custom key does not depend on the order the columns were listed in. *)
Theorem custom_key_column_order (pm pm' : StructMap.t NameTuple cdcPartitionKeyOverride)
    (p p' : cdcPartitionKeyOverride) (e : Event) :
  StructMap.Get pm (TableNameTup e) = Some p → StructMap.Get pm' (TableNameTup e) = Some p' →
  Strategy p = Strategy p' → Columns p ≡ₚ Columns p' →
  GetEventPartitionKey e (Some pm) = GetEventPartitionKey e (Some pm').
Proof.
  intros H1 H2 Hs Hc. unfold GetEventPartitionKey. rewrite H1, H2, Hs.
  repeat case_decide; try done.
  pose proof (Permutation_length Hc) as Hl. pose proof (sort_strings_proper _ _ Hc) as Hsort.
  destruct (Columns p) as [|c cs], (Columns p') as [|c' cs']; try done. by rewrite Hsort.
Qed.

(** ** A concrete table for the witnesses *)
Definition sampleMap (p : cdcPartitionKeyOverride) : StructMap.t NameTuple cdcPartitionKeyOverride :=
  StructMap.Put StructMap.NewStructMap sampleTable p.
Definition sampleInsert : Event :=
  mkEvent 8 "c" sampleTable "" "" NIL_NAME_TUPLE (Some {[ "id" := Some "1" ]})
    (Some {[ "id" := Some "1"; "a" := Some "n"; "b" := Some "x" ]}) None None
    SOURCE_DB_EXPORTER_ROLE.
Definition byPK : cdcPartitionKeyOverride := mkOverride PARTITION_BY_PK [].
Definition byCustom (cols : list string) : cdcPartitionKeyOverride := mkOverride PARTITION_BY_CUSTOM cols.

Lemma sampleTable_keyed : keyed_by sampleTable "public" "accounts".
Proof.
  destruct (NewObjectName POSTGRESQL "public" "public" "accounts") as [o|e|e] eqn:E;
    [|by vm_compute in E..].
  exists POSTGRESQL, "public", o. split; [done|]. unfold sampleTable. rewrite E.
  split; [by left|]. done.
Qed.
Lemma hashEvent_routes_witness :
  ∃ k h, GetEventPartitionKey sampleInsert (Some (sampleMap byPK)) = Ok k ∧
    hashEvent 100 sampleInsert (Some (sampleMap byPK)) = Ok h ∧
    hashEvent 100 sampleUpdate (Some (sampleMap byPK)) = Ok h ∧ 0 ≤ h < 100.
Proof.
  eexists. edestruct (hashEvent_routes 100 (Some (sampleMap byPK)) sampleInsert sampleUpdate)
    as [h Hh]; [lia|vm_compute; reflexivity|vm_compute; reflexivity|].
  exists h. split; [vm_compute; reflexivity|exact Hh].
Defined.
Lemma custom_key_column_order_witness :
  GetEventPartitionKey sampleInsert (Some (sampleMap (byCustom ["a"; "id"]))) =
  GetEventPartitionKey sampleInsert (Some (sampleMap (byCustom ["id"; "a"]))).
Proof.
  apply (custom_key_column_order _ _ (byCustom ["a"; "id"]) (byCustom ["id"; "a"]));
    [reflexivity..|apply Permutation_swap].
Defined.
End PartitionKey.
