(* ===== verification/ConflictCache.v ===== *)
(** * The conflict detection cache (src/yb-voyager/cmd/conflictDetectionCache.go)

    In-flight updates and deletes are cached by the unique-key values they free;
    an incoming insert or update that claims such a value waits until the cached
    event is applied.  The cache is the maps [m], [ukLookup] and [vsnToBuckets];
    the lock and the condition variable are the atomicity of the operations (see
    Streaming.v for their interleaving).  Logging and metrics are left out. *)
From S2P Require Import Prelude StructMap SqlName Event PartitionKey.
Import SqlName Event PartitionKey.

Module ConflictCache.

(** [tgtdb.UniqueIndex] *)
Record UniqueIndex : Type := mkUniqueIndex {
  IndexName : string; IndexColumns : list string; IsPartialIndex : bool; NullsNotDistinct : bool }.
#[global] Instance UniqueIndex_eq_dec : EqDecision UniqueIndex.
Proof. solve_decision. Defined.
Definition UniqueIndex_String (u : UniqueIndex) : string :=
  IndexName u +:+ "(" +:+ Join ", " (IndexColumns u) +:+ ")"
  +:+ (if IsPartialIndex u then " [partial]" else "")
  +:+ (if NullsNotDistinct u then " [nulls not distinct]" else "").

Definition isTargetDBExporter (exporterRole : string) : bool :=
  bool_decide (exporterRole = TARGET_DB_EXPORTER_FF_ROLE)
  || bool_decide (exporterRole = TARGET_DB_EXPORTER_FB_ROLE).

(** ** Comparing index values *)
Definition uniqueKeyColumnValuesEqual (left right : option string) (nullsNotDistinct : bool) : bool :=
  let bothNil := bool_decide (left = None ∧ right = None) in
  let valuesEqual := match left, right with Some l, Some r => bool_decide (l = r) | _, _ => false end in
  if nullsNotDistinct then bothNil || valuesEqual else valuesEqual.
Definition uniqueIndexColumnsExistInBothFields (leftFields rightFields : fields)
    (indexColumns : list string) : bool :=
  forallb (λ column, bool_decide (is_Some (golookup column leftFields))
                     && bool_decide (is_Some (golookup column rightFields))) indexColumns.
(** Reading a missing column of a Go map gives nil. *)
Definition uniqueIndexColumnValuesEqual (leftFields rightFields : fields)
    (indexColumns : list string) (nullsNotDistinct : bool) : bool :=
  forallb (λ column, uniqueKeyColumnValuesEqual (default None (golookup column leftFields))
                       (default None (golookup column rightFields)) nullsNotDistinct) indexColumns.
Definition anyUniqueIndexColumnChanged (fs : fields) (indexColumns : list string) : bool :=
  existsb (λ column, bool_decide (is_Some (golookup column fs))) indexColumns.
Definition indexRelevantForUpdate (event : Event) (index : UniqueIndex) : bool :=
  IsPartialIndex index || anyUniqueIndexColumnChanged (Fields event) (IndexColumns index).
Definition anyUniqueIndexColumnValueIsNull (fs : fields) (indexColumns : list string) : bool :=
  existsb (λ column, bool_decide (golookup column fs = Some None)) indexColumns.
Definition formatUniqueIndexColumnValuesForLog (fs : fields) (indexColumns : list string) : string :=
  Join ", " (map (λ column, match golookup column fs with
                            | None => column +:+ "=<missing>"
                            | Some None => column +:+ "=nil"
                            | Some (Some v) => column +:+ "=" +:+ v
                            end) indexColumns).

(** ** Bucket keys *)
Definition conflictBucketNull : string := "N".
Definition conflictBucketValue : string := "V".

(** One turn of the loop of [computeConflictBucketKey]. *)
Definition bucketPiece (fs : fields) (index : UniqueIndex) (column : string) : result string :=
  match golookup column fs with
  | None => Err "column is missing from fields"
  | Some None =>
      if negb (NullsNotDistinct index) then Err "column has null value but index is not NULLS NOT DISTINCT"
      else Ok (NUL +:+ conflictBucketNull)
  | Some (Some v) =>
      Ok (NUL +:+ conflictBucketValue +:+ itoa (Z.of_nat (String.length v)) +:+ ":" +:+ v)
  end.
Definition computeConflictBucketKey (table : NameTuple) (fs : fields) (index : UniqueIndex)
    : result string :=
  match fs with
  | None => Err "fields are nil"
  | Some _ =>
      pieces ← mapM_result (bucketPiece fs index) (IndexColumns index);
      Ok (ForKey table +:+ NUL +:+ IndexName index +:+ Join "" pieces)
  end.

(** ** The cache *)
Record Cache : Type := mkCache {
  m : gmap Z Event;
  ukLookup : gmap string (gmap Z Event);
  vsnToBuckets : gmap Z (list string) }.
Definition NewConflictDetectionCache : Cache := mkCache ∅ ∅ ∅.

Record Conflict : Type := mkConflict {
  indexName : string; eventsConflicting : list Event; indexColumns : list string;
  matchType : string; matchedValue : string }.
Definition noConflict : Conflict := mkConflict "" [] [] "" "".

Section cache.
(** The immutable configuration of a cache. *)
Context (tableToUniqueIndexes : StructMap.t NameTuple (list UniqueIndex))
        (tablePartitionKeyMap : PartitionKeyMap).

Definition indexesOf (t : NameTuple) : list UniqueIndex :=
  default [] (StructMap.Get tableToUniqueIndexes t).

(** The guards of [indexEventLocked]: is the event filed under this index? *)
Definition indexed (event : Event) (index : UniqueIndex) : bool :=
  if bool_decide (Op event = "u") && negb (indexRelevantForUpdate event index) then false
  else if negb (NullsNotDistinct index)
          && anyUniqueIndexColumnValueIsNull (BeforeFields event) (IndexColumns index) then false
  else true.

(** The event enters one bucket. *)
Definition addToBucket (c : Cache) (key : string) (event : Event) : Cache :=
  let bucket := default ∅ (ukLookup c !! key) in
  mkCache (m c) (<[key := <[Vsn event := event]> bucket]> (ukLookup c))
    (<[Vsn event := default [] (vsnToBuckets c !! Vsn event) ++ [key]]> (vsnToBuckets c)).

(** The loop stops at the first key that cannot be computed, and the buckets
    already filled stay filled. *)
Fixpoint index_loop (c : Cache) (event : Event) (ixs : list UniqueIndex) : Cache * result unit :=
  match ixs with
  | [] => (c, Ok tt)
  | index :: ixs =>
      if indexed event index then
        match computeConflictBucketKey (TableNameTup event) (BeforeFields event) index with
        | Ok key => index_loop (addToBucket c key event) event ixs
        | Err e => (c, Err e)
        | Panic e => (c, Panic e)
        end
      else index_loop c event ixs
  end.
Definition indexEventLocked (c : Cache) (event : Event) : Cache * result unit :=
  let uniqueIndexes := indexesOf (TableNameTup event) in
  if (length uniqueIndexes =? 0)%nat then (c, Ok tt) else index_loop c event uniqueIndexes.

Definition Put (c : Cache) (event : Event) : Cache * result unit :=
  if bool_decide (BeforeFields event = None) || bool_decide (Op event = "c")
  then (c, Err "before fields are nil for event")
  else
    let cachedEvent := Copy event in
    if isTargetDBExporter (ExporterRole event)
    then (mkCache (<[Vsn cachedEvent := cachedEvent]> (m c)) (ukLookup c) (vsnToBuckets c), Ok tt)
    else indexEventLocked c cachedEvent.

(** One turn of the loop of [deindexEventLocked]. *)
Definition dropFromBucket (vsn : Z) (lk : gmap string (gmap Z Event)) (key : string)
    : gmap string (gmap Z Event) :=
  match lk !! key with
  | None => lk
  | Some bucket =>
      let bucket := delete vsn bucket in
      if (size bucket =? 0)%nat then delete key lk else <[key := bucket]> lk
  end.
Definition deindexEventLocked (c : Cache) (vsn : Z) : Cache :=
  match vsnToBuckets c !! vsn with
  | None => c
  | Some keys =>
      mkCache (m c) (foldl (dropFromBucket vsn) (ukLookup c) keys) (delete vsn (vsnToBuckets c))
  end.
Definition removeOne (acc : Cache * bool) (event : Event) : Cache * bool :=
  let '(c, eventsRemoved) := acc in
  match m c !! Vsn event with
  | Some _ => (mkCache (delete (Vsn event) (m c)) (ukLookup c) (vsnToBuckets c), true)
  | None =>
      match vsnToBuckets c !! Vsn event with
      | Some _ => (deindexEventLocked c (Vsn event), true)
      | None => (c, eventsRemoved)
      end
  end.
(** The flag says whether the waiting goroutine is woken. *)
Definition RemoveEvents (c : Cache) (events : list Event) : Cache * bool :=
  foldl removeOne (c, false) events.

(** ** Looking for conflicts *)

(** The cached events of a bucket that another channel may be applying. *)
Definition getConflictingEventsWithDifferentPartitionKey (c : Cache) (key : string)
    (incomingEvent : Event) : result (list Event) :=
  incomingPartitionKey ← GetEventPartitionKey incomingEvent tablePartitionKeyMap;
  let bucket := default ∅ (ukLookup c !! key) in
  picked ← mapM_result (λ cachedEvent,
    cachedPartitionKey ← GetEventPartitionKey cachedEvent tablePartitionKeyMap;
    Ok (if decide (cachedPartitionKey = incomingPartitionKey) then [] else [cachedEvent]))
    (map_to_list bucket).*2;
  Ok (concat picked).

Definition checkConflict (c : Cache) (incomingEvent : Event) (index : UniqueIndex)
    (fs : fields) (matchType : string) : result Conflict :=
  if negb (NullsNotDistinct index) && anyUniqueIndexColumnValueIsNull fs (IndexColumns index)
  then Ok noConflict
  else
    key ← computeConflictBucketKey (TableNameTup incomingEvent) fs index;
    cachedEvents ← getConflictingEventsWithDifferentPartitionKey c key incomingEvent;
    if (length cachedEvents =? 0)%nat then Ok noConflict
    else Ok (mkConflict (IndexName index) cachedEvents (IndexColumns index) matchType
               (formatUniqueIndexColumnValuesForLog fs (IndexColumns index))).
Definition checkBeforeAfterConflict (c : Cache) (incomingEvent : Event) (index : UniqueIndex)
    : result Conflict :=
  checkConflict c incomingEvent index (AfterFields incomingEvent) "before-after".
Definition checkBeforeBeforeConflict (c : Cache) (incomingEvent : Event) (index : UniqueIndex)
    : result Conflict :=
  checkConflict c incomingEvent index (BeforeFields incomingEvent) "before-before".

Definition keepConflict (conflict : Conflict) : list Conflict :=
  if (0 <? length (eventsConflicting conflict))%nat then [conflict] else [].

(** The switch inside the loop of [findValueConflictLocked]. *)
Definition conflictsAtIndex (c : Cache) (incomingEvent : Event) (index : UniqueIndex)
    : result (list Conflict) :=
  if decide (Op incomingEvent = "c") then
    conflict ← checkBeforeAfterConflict c incomingEvent index; Ok (keepConflict conflict)
  else if decide (Op incomingEvent = "u") then
    l1 ← (if anyUniqueIndexColumnChanged (Fields incomingEvent) (IndexColumns index) then
            conflict ← checkBeforeAfterConflict c incomingEvent index; Ok (keepConflict conflict)
          else Ok []);
    l2 ← (if IsPartialIndex index then
            conflict ← checkBeforeBeforeConflict c incomingEvent index; Ok (keepConflict conflict)
          else Ok []);
    Ok (l1 ++ l2)
  else Ok [].
Definition findValueConflictLocked (c : Cache) (incomingEvent : Event) : result (list Conflict) :=
  if decide (Op incomingEvent = "d") then Err "incoming event is a delete event"
  else
    let uniqueIndexes := indexesOf (TableNameTup incomingEvent) in
    if (length uniqueIndexes =? 0)%nat then Ok []
    else ls ← mapM_result (conflictsAtIndex c incomingEvent) uniqueIndexes; Ok (concat ls).

(** *** The full-scan comparison, used for events exported from the target *)
Definition eventsAreOfSameTable (event1 event2 : Event) : bool :=
  NameTuple_Equals (TableNameTup event1) (TableNameTup event2).
(** A NULL key value is dereferenced: panic. *)
Fixpoint samePK_loop (key2 : fields) (l : list (string * option string)) : result bool :=
  match l with
  | [] => Ok true
  | (key, value) :: l =>
      match golookup key key2 with
      | None => Ok false
      | Some value2 =>
          v ← deref value; v2 ← deref value2;
          if decide (v = v2) then samePK_loop key2 l else Ok false
      end
  end.
Definition sameTableEventsHaveSamePK (event1 event2 : Event) : result bool :=
  if negb (golen (EvKey event1) =? golen (EvKey event2))%nat then Ok false
  else samePK_loop (EvKey event2) (map_to_list (entries (EvKey event1))).

Definition checkUniqueIndexBeforeAfterConflict (cachedEvent incomingEvent : Event)
    (index : UniqueIndex) : bool :=
  uniqueIndexColumnsExistInBothFields (BeforeFields cachedEvent) (Fields incomingEvent) (IndexColumns index)
  && uniqueIndexColumnValuesEqual (BeforeFields cachedEvent) (Fields incomingEvent)
       (IndexColumns index) (NullsNotDistinct index).
Definition checkUniqueIndexBeforeBeforeConflict (cachedEvent incomingEvent : Event)
    (index : UniqueIndex) : bool :=
  uniqueIndexColumnsExistInBothFields (BeforeFields cachedEvent) (BeforeFields incomingEvent) (IndexColumns index)
  && uniqueIndexColumnValuesEqual (BeforeFields cachedEvent) (BeforeFields incomingEvent)
       (IndexColumns index) (NullsNotDistinct index).
Definition uniqueIndexConflicts (cachedEvent incomingEvent : Event) (index : UniqueIndex) : bool :=
  checkUniqueIndexBeforeAfterConflict cachedEvent incomingEvent index
  || checkUniqueIndexBeforeBeforeConflict cachedEvent incomingEvent index.

(** [lo.Some(incoming columns, lo.Intersect(cached columns, unique columns))]. *)
Definition touchSameUniqueColumn (cachedEvent incomingEvent : Event) (uniqueKeyColumns : list string)
    : bool :=
  existsb (λ col, bool_decide (is_Some (golookup col (Fields cachedEvent)))
                  && bool_decide (is_Some (golookup col (Fields incomingEvent)))) uniqueKeyColumns.
Definition eventsConfict (cachedEvent incomingEvent : Event) : result bool :=
  if negb (eventsAreOfSameTable cachedEvent incomingEvent) then Ok false
  else
    samePK ← sameTableEventsHaveSamePK cachedEvent incomingEvent;
    if samePK : bool then Ok false
    else
      let uniqueIndexes := indexesOf (TableNameTup cachedEvent) in
      if isTargetDBExporter (ExporterRole incomingEvent) then
        let uniqueKeyColumns := concat (map IndexColumns uniqueIndexes) in
        Ok (if decide (Op cachedEvent = "d") then true
            else if decide (Op cachedEvent = "u")
                 then touchSameUniqueColumn cachedEvent incomingEvent uniqueKeyColumns
                 else false)
      else Ok (existsb (uniqueIndexConflicts cachedEvent incomingEvent) uniqueIndexes).

(** The scan of [m] returns at the first conflicting cached event. *)
Fixpoint scan_loop (incomingEvent : Event) (l : list Event) : result (list Conflict) :=
  match l with
  | [] => Ok []
  | cachedEvent :: l =>
      conflict ← eventsConfict cachedEvent incomingEvent;
      if conflict : bool then Ok [mkConflict "" [cachedEvent] [] "" ""]
      else scan_loop incomingEvent l
  end.
Definition findConflictLocked (c : Cache) (incomingEvent : Event) : result (list Conflict) :=
  if isTargetDBExporter (ExporterRole incomingEvent)
  then scan_loop incomingEvent (map_to_list (m c)).*2
  else findValueConflictLocked c incomingEvent.

(** [WaitUntilNoConflict] against the cache states it finds each time it holds
    the lock: it returns at the first state without a conflict (or on an error) and
    sleeps otherwise; [None] is a call that is still asleep. *)
Fixpoint WaitUntilNoConflict (states : list Cache) (incomingEvent : Event) : option (result unit) :=
  match states with
  | [] => None
  | c :: states =>
      match findConflictLocked c incomingEvent with
      | Ok [] => Some (Ok tt)
      | Ok _ => WaitUntilNoConflict states incomingEvent
      | Err e => Some (Err e)
      | Panic e => Some (Panic e)
      end
  end.

(** ** Lemmas: bucket keys *)

(** What a bucket key says of one column. *)
Definition encodeValue (v : option string) : string :=
  match v with
  | None => NUL +:+ conflictBucketNull
  | Some v => NUL +:+ conflictBucketValue +:+ itoa (Z.of_nat (String.length v)) +:+ ":" +:+ v
  end.
Definition encodeValues (vs : list (option string)) : string := Join "" (map encodeValue vs).
(** Column [col] is present with value [v], which the index can file. *)
Definition columnIs (fs : fields) (index : UniqueIndex) (col : string) (v : option string) : Prop :=
  golookup col fs = Some v ∧ (v = None → NullsNotDistinct index = true).

Lemma bucketPiece_Ok fs ix col s :
  bucketPiece fs ix col = Ok s ↔ ∃ v, columnIs fs ix col v ∧ s = encodeValue v.
Proof.
  unfold bucketPiece, columnIs. destruct (golookup col fs) as [[v|]|].
  - split; [intros [= <-]; exists (Some v); done|]. by intros (? & [[= <-] _] & ->).
  - destruct (NullsNotDistinct ix); cbn; split.
    + intros [= <-]. by exists None.
    + by intros (? & [[= <-] _] & ->).
    + done.
    + intros (? & [[= <-] H] & _). by specialize (H eq_refl).
  - split; [done|]. by intros (? & [? _] & _).
Qed.
Lemma computeConflictBucketKey_Ok t fs ix k :
  computeConflictBucketKey t fs ix = Ok k ↔
    fs ≠ None ∧ ∃ vs, Forall2 (columnIs fs ix) (IndexColumns ix) vs ∧
      k = ForKey t +:+ NUL +:+ IndexName ix +:+ encodeValues vs.
Proof.
  unfold computeConflictBucketKey. destruct fs as [f|]; [|split; [done|by intros [? _]]].
  rewrite bind_Ok. setoid_rewrite mapM_result_Ok. split.
  - intros (ps & Hps & [= <-]). split; [done|].
    assert (∃ vs, Forall2 (columnIs (Some f) ix) (IndexColumns ix) vs ∧ ps = map encodeValue vs)
      as (vs & Hvs & ->); [|by exists vs].
    induction Hps as [|c p cs ps Hc _ (vs & Hvs & ->)]; [by exists []|].
    apply bucketPiece_Ok in Hc as (v & Hv & ->). exists (v :: vs). by split; [constructor|].
  - intros [_ (vs & Hvs & ->)]. exists (map encodeValue vs). split; [|done].
    induction Hvs; constructor; [|done]. apply bucketPiece_Ok. eauto.
Qed.

Definition nul : ascii := ascii_of_nat 0.
Lemma encodeValue_cons v : ∃ s, encodeValue v = String nul s.
Proof. destruct v; cbn; eauto. Qed.
Lemma encodeValue_inj v1 v2 r1 r2 :
  encodeValue v1 +:+ r1 = encodeValue v2 +:+ r2 → v1 = v2 ∧ r1 = r2.
Proof.
  destruct v1 as [v1|], v2 as [v2|]; cbn; intros [= H]; [|done].
  rewrite !str_app_assoc in H. cbn in H.
  apply str_cut in H as [Hl H]; [|by apply itoa_has..].
  apply itoa_inj in Hl. apply str_app_len in H as [-> ->]; [done|lia].
Qed.
Lemma encodeValues_cons v vs : encodeValues (v :: vs) = encodeValue v +:+ encodeValues vs.
Proof. apply Join_cons. Qed.
(** The values can be read back from the key: no two tuples collide. *)
Lemma encodeValues_inj vs1 vs2 : encodeValues vs1 = encodeValues vs2 → vs1 = vs2.
Proof.
  revert vs2. induction vs1 as [|v1 vs1 IH]; intros [|v2 vs2]; rewrite ?encodeValues_cons; [done|..].
  - destruct (encodeValue_cons v2) as [s ->]. done.
  - destruct (encodeValue_cons v1) as [s ->]. done.
  - intros [-> H]%encodeValue_inj. f_equal. by apply IH.
Qed.
Lemma encodeValues_cut a1 a2 vs1 vs2 :
  str_has nul a1 = false → str_has nul a2 = false →
  a1 +:+ encodeValues vs1 = a2 +:+ encodeValues vs2 → a1 = a2 ∧ vs1 = vs2.
Proof.
  intros Ha1 Ha2 H. assert (∀ vs, ∃ s, encodeValues vs +:+ NUL = String nul s) as Hn.
  { intros [|v vs]; [by exists ""|]. rewrite encodeValues_cons.
    destruct (encodeValue_cons v) as [s ->]. cbn. eauto. }
  destruct (Hn vs1) as [s1 E1], (Hn vs2) as [s2 E2].
  assert (a1 +:+ String nul s1 = a2 +:+ String nul s2) as H'.
  { by rewrite <- E1, <- E2, <- !str_app_assoc, H. }
  apply str_cut in H' as [-> _]; [|done..]. split; [done|].
  apply encodeValues_inj. apply str_app_len in H; naive_solver.
Qed.
Lemma bucket_key_fields t1 t2 n1 n2 vs1 vs2 :
  str_has nul (ForKey t1) = false → str_has nul (ForKey t2) = false →
  str_has nul n1 = false → str_has nul n2 = false →
  ForKey t1 +:+ NUL +:+ n1 +:+ encodeValues vs1 = ForKey t2 +:+ NUL +:+ n2 +:+ encodeValues vs2 →
  ForKey t1 = ForKey t2 ∧ n1 = n2 ∧ vs1 = vs2.
Proof.
  intros ???? H. cbn in H. apply str_cut in H as [-> H]; [|done..].
  apply encodeValues_cut in H as [-> ->]; done.
Qed.

Lemma valuesEqual_spec (v1 v2 : option string) nnd :
  uniqueKeyColumnValuesEqual v1 v2 nnd = true ↔ v1 = v2 ∧ (v1 = None → nnd = true).
Proof.
  unfold uniqueKeyColumnValuesEqual.
  destruct v1 as [v1|], v2 as [v2|], nnd; cbn; rewrite ?bool_decide_eq_true; naive_solver.
Qed.
(** The reference comparison of the full scan, on columns known to be there. *)
Lemma indexValuesEqual_spec f1 f2 ix :
  uniqueIndexColumnsExistInBothFields f1 f2 (IndexColumns ix)
  && uniqueIndexColumnValuesEqual f1 f2 (IndexColumns ix) (NullsNotDistinct ix) = true ↔
  ∃ vs, Forall2 (columnIs f1 ix) (IndexColumns ix) vs ∧ Forall2 (columnIs f2 ix) (IndexColumns ix) vs.
Proof.
  unfold uniqueIndexColumnsExistInBothFields, uniqueIndexColumnValuesEqual, columnIs.
  induction (IndexColumns ix) as [|c cs IH]; cbn.
  { split; [|done]. intros _. exists []. by split. }
  rewrite !andb_true_iff in *. rewrite !bool_decide_eq_true, valuesEqual_spec. split.
  - intros [[[[v1 H1] [v2 H2]] Hex] [[He Hn] Heq]]. rewrite H1, H2 in *. cbn in *. subst v2.
    destruct (proj1 IH (conj Hex Heq)) as (vs & Hv1 & Hv2). exists (v1 :: vs).
    split; constructor; done.
  - intros (vs & H1 & H2). inversion H1 as [|? v ? vs' [Hc1 Hn] Hr1]; subst.
    inversion H2 as [|? ? ? ? [Hc2 _] Hr2]; subst.
    destruct (proj2 IH) as [Hex Heq]; [by exists vs'|]. rewrite Hc1, Hc2. cbn. eauto 8.
Qed.

(** The table keys and index names of this program hold no NUL byte. *)
Definition nulFree (t : NameTuple) (ix : UniqueIndex) : Prop :=
  str_has nul (ForKey t) = false ∧ str_has nul (IndexName ix) = false.

(** A bucket-key match is exactly the full comparison: two keys computed for an
    index agree when, and only when, the tables agree, all index columns exist on
    both sides and their values are equal under the index's NULLS [NOT] DISTINCT
    rule; the length prefixes rule out collisions. *)
Theorem bucket_key_match (ix : UniqueIndex) (t1 t2 : NameTuple) (f1 f2 : fields) (k1 k2 : string) :
  nulFree t1 ix → nulFree t2 ix →
  computeConflictBucketKey t1 f1 ix = Ok k1 → computeConflictBucketKey t2 f2 ix = Ok k2 →
  k1 = k2 ↔ ForKey t1 = ForKey t2 ∧
    uniqueIndexColumnsExistInBothFields f1 f2 (IndexColumns ix)
    && uniqueIndexColumnValuesEqual f1 f2 (IndexColumns ix) (NullsNotDistinct ix) = true.
Proof.
  intros [Ht1 Hn] [Ht2 _] (_ & vs1 & Hv1 & ->)%computeConflictBucketKey_Ok
    (_ & vs2 & Hv2 & ->)%computeConflictBucketKey_Ok.
  rewrite indexValuesEqual_spec. split.
  - intros H. apply bucket_key_fields in H as (Ht & _ & <-); [|done..]. split; [done|]. by exists vs1.
  - intros (-> & vs & H1 & H2). assert (vs1 = vs2) as ->; [|done].
    assert (∀ f (a b : list (option string)), Forall2 (columnIs f ix) (IndexColumns ix) a →
              Forall2 (columnIs f ix) (IndexColumns ix) b → a = b) as Hdet.
    { clear. intros f a b Ha. revert b. induction Ha as [|c v cs a [Hc _] _ IH]; intros b Hb;
        inversion Hb as [|? ? ? ? [Hc' _] Hb']; subst; [done|].
      rewrite Hc in Hc'. injection Hc' as ->. f_equal. by apply IH. }
    by rewrite (Hdet _ _ _ Hv1 H1), (Hdet _ _ _ Hv2 H2).
Qed.

(** ** Lemmas: the cache against the set of in-flight events *)

(** The keys an event is filed under: those of the indexes that concern it. *)
Definition bucketKeys (event : Event) : result (list string) :=
  mapM_result (computeConflictBucketKey (TableNameTup event) (BeforeFields event))
    (filter (λ ix, indexed event ix = true) (indexesOf (TableNameTup event))).
Definition keysOf (event : Event) : list string :=
  if isTargetDBExporter (ExporterRole event) then []
  else match bucketKeys event with Ok ks => ks | _ => [] end.
(** The content of a bucket; an absent bucket is empty. *)
Definition bucketAt (lk : gmap string (gmap Z Event)) (key : string) : gmap Z Event :=
  default ∅ (lk !! key).
Definition noEmptyBucket (lk : gmap string (gmap Z Event)) : Prop :=
  ∀ key b, lk !! key = Some b → b ≠ ∅.

(** The cache [c] holds exactly the in-flight events [S]: [m] those of a target
    exporter, each bucket of [ukLookup] those whose freed values it stands for,
    [vsnToBuckets] the buckets of each. *)
Record Inv (c : Cache) (S : gmap Z Event) : Prop := {
  Inv_vsn : ∀ vsn e, S !! vsn = Some e → Vsn e = vsn;
  Inv_keys : ∀ vsn e, S !! vsn = Some e → isTargetDBExporter (ExporterRole e) = false →
    bucketKeys e = Ok (keysOf e);
  Inv_m : ∀ vsn e, m c !! vsn = Some e ↔
    S !! vsn = Some e ∧ isTargetDBExporter (ExporterRole e) = true;
  Inv_lookup : ∀ key vsn e, bucketAt (ukLookup c) key !! vsn = Some e ↔
    S !! vsn = Some e ∧ key ∈ keysOf e;
  Inv_buckets : ∀ vsn, vsnToBuckets c !! vsn =
    (e ← S !! vsn; match keysOf e with [] => None | ks => Some ks end);
  Inv_nonempty : noEmptyBucket (ukLookup c) }.

Lemma Inv_New : Inv NewConflictDetectionCache ∅.
Proof.
  split; cbn; intros *; rewrite ?lookup_empty; try done; unfold bucketAt; cbn;
    rewrite ?lookup_empty; cbn; rewrite ?lookup_empty; naive_solver.
Qed.

Definition addAll (c : Cache) (keys : list string) (event : Event) : Cache :=
  foldl (λ c key, addToBucket c key event) c keys.
Lemma index_loop_keys c event ixs c' :
  index_loop c event ixs = (c', Ok tt) →
  ∃ keys, mapM_result (computeConflictBucketKey (TableNameTup event) (BeforeFields event))
            (filter (λ ix, indexed event ix = true) ixs) = Ok keys ∧ c' = addAll c keys event.
Proof.
  revert c. induction ixs as [|ix ixs IH]; intros c; cbn [index_loop].
  - intros [= <-]. by exists [].
  - rewrite filter_cons. destruct (indexed event ix) eqn:Hi.
    + rewrite decide_True by done. cbn [mapM_result].
      destruct (computeConflictBucketKey _ _ _) as [k|e|e]; [|done..].
      intros (keys & Hk & ->)%IH. exists (k :: keys). cbn. by rewrite Hk.
    + rewrite decide_False by done. apply IH.
Qed.

Lemma bucketAt_insert lk k b k' :
  bucketAt (<[k := b]> lk) k' = if decide (k = k') then b else bucketAt lk k'.
Proof. unfold bucketAt. rewrite lookup_insert. by case_decide. Qed.
Lemma addAll_spec event keys c :
  let c' := addAll c keys event in
  m c' = m c ∧
  (∀ key vsn, bucketAt (ukLookup c') key !! vsn =
     if decide (vsn = Vsn event ∧ key ∈ keys) then Some event else bucketAt (ukLookup c) key !! vsn) ∧
  (∀ vsn, vsnToBuckets c' !! vsn =
     if decide (vsn = Vsn event ∧ keys ≠ [])
     then Some (default [] (vsnToBuckets c !! vsn) ++ keys) else vsnToBuckets c !! vsn) ∧
  (noEmptyBucket (ukLookup c) → noEmptyBucket (ukLookup c')).
Proof.
  cbn zeta. revert c. induction keys as [|k keys IH]; intros c.
  - cbn. split_and!; [done| |..|done]; intros; rewrite decide_False; set_solver.
  - change (addAll c (k :: keys) event) with (addAll (addToBucket c k event) keys event).
    destruct (IH (addToBucket c k event)) as (Hm & Hb & Hv & Hn). split_and!; [done|..].
    + intros key vsn. rewrite Hb. cbn. rewrite bucketAt_insert.
      destruct (decide (vsn = Vsn event ∧ key ∈ keys)) as [[-> Hk]|Hno];
        [by rewrite decide_True by set_solver|].
      case_decide as Hkk; [|rewrite decide_False by set_solver; done]. subst key.
      rewrite lookup_insert. unfold bucketAt. case_decide as Hvv.
      * subst. by rewrite decide_True by set_solver.
      * by rewrite decide_False by naive_solver.
    + intros vsn. rewrite Hv. cbn. rewrite lookup_insert.
      destruct (decide (Vsn event = vsn)) as [<-|Hne].
      * rewrite (decide_True (P := _ = _ ∧ k :: keys ≠ [])) by done. cbn.
        destruct keys; [by rewrite decide_False by naive_solver|].
        rewrite decide_True by done. by rewrite <- app_assoc.
      * by rewrite !decide_False by naive_solver.
    + intros Hne. apply Hn. cbn. intros key b. rewrite lookup_insert. case_decide; [|apply Hne].
      intros [= <-]. apply insert_non_empty.
Qed.

Lemma drop_spec vsn lk k :
  (∀ key v, bucketAt (dropFromBucket vsn lk k) key !! v =
     if decide (v = vsn ∧ key = k) then None else bucketAt lk key !! v) ∧
  (noEmptyBucket lk → noEmptyBucket (dropFromBucket vsn lk k)).
Proof.
  unfold dropFromBucket. destruct (lk !! k) as [b|] eqn:Hk.
  - destruct (size (delete vsn b) =? 0)%nat eqn:Hs.
    + apply Nat.eqb_eq, map_size_empty_iff in Hs. split.
      * intros key v. unfold bucketAt. rewrite lookup_delete. case_decide as Hkk.
        -- subst key. rewrite Hk. cbn. rewrite lookup_empty.
           case_decide as Hd; [done|]. rewrite <- (lookup_delete_ne b vsn v) by naive_solver.
           by rewrite Hs, lookup_empty.
        -- by rewrite decide_False by naive_solver.
      * intros Hn key b'. rewrite lookup_delete. case_decide; [done|apply Hn].
    + apply Nat.eqb_neq in Hs. split.
      * intros key v. rewrite bucketAt_insert. case_decide as Hkk.
        -- subst key. unfold bucketAt. rewrite Hk. cbn. rewrite lookup_delete.
           repeat case_decide; naive_solver.
        -- by rewrite decide_False by naive_solver.
      * intros Hn key b'. rewrite lookup_insert. case_decide; [|apply Hn].
        intros [= <-] He. apply Hs. by rewrite He, map_size_empty.
  - split; [|done]. intros key v. case_decide as Hd; [|done]. destruct Hd as [-> ->].
    unfold bucketAt. rewrite Hk. cbn. by rewrite lookup_empty.
Qed.
Lemma dropAll_spec vsn keys lk :
  let lk' := foldl (dropFromBucket vsn) lk keys in
  (∀ key v, bucketAt lk' key !! v =
     if decide (v = vsn ∧ key ∈ keys) then None else bucketAt lk key !! v) ∧
  (noEmptyBucket lk → noEmptyBucket lk').
Proof.
  cbn zeta. revert lk. induction keys as [|k keys IH]; intros lk.
  - split; [|done]. intros key v. by rewrite decide_False by set_solver.
  - cbn [foldl]. destruct (IH (dropFromBucket vsn lk k)) as [H1 H2].
    destruct (drop_spec vsn lk k) as [D1 D2]. split; [|auto].
    intros key v. rewrite H1, D1. repeat case_decide; set_solver.
Qed.

(** An event of a target exporter enters [m] only. *)
Lemma add_target_inv c S ev :
  Inv c S → S !! Vsn ev = None → isTargetDBExporter (ExporterRole ev) = true →
  Inv (mkCache (<[Vsn ev := ev]> (m c)) (ukLookup c) (vsnToBuckets c)) (<[Vsn ev := ev]> S).
Proof.
  intros [Hv Hk Hm Hl Hb Hn] Hfresh Hrole.
  assert (keysOf ev = []) as Hke by (unfold keysOf; by rewrite Hrole).
  split; cbn; [..|done].
  - intros vsn e. rewrite lookup_insert. case_decide; [by intros [= <-]|apply Hv].
  - intros vsn e. rewrite lookup_insert. case_decide; [|apply Hk]. intros [= <-]. by rewrite Hrole.
  - intros vsn e. rewrite !lookup_insert. case_decide; [|apply Hm].
    split; [intros [= <-]|naive_solver]. by rewrite Hrole.
  - intros key vsn e. rewrite Hl, lookup_insert. case_decide; [|done]. subst.
    rewrite Hfresh. split; [naive_solver|]. intros [[= <-] Hin]. rewrite Hke in Hin. set_solver.
  - intros vsn. rewrite Hb, lookup_insert. case_decide; [|done]. subst. rewrite Hfresh. cbn. by rewrite Hke.
Qed.
(** Any other event enters the buckets of its keys. *)
Lemma addAll_inv c S ev keys :
  Inv c S → S !! Vsn ev = None → isTargetDBExporter (ExporterRole ev) = false →
  bucketKeys ev = Ok keys → Inv (addAll c keys ev) (<[Vsn ev := ev]> S).
Proof.
  intros [Hv Hk Hm Hl Hb Hn] Hfresh Hrole Hkeys.
  assert (keysOf ev = keys) as Hke by (unfold keysOf; by rewrite Hrole, Hkeys).
  destruct (addAll_spec ev keys c) as (Am & Al & Ab & An). split; [..|by apply An].
  - intros vsn e. rewrite lookup_insert. case_decide; [by intros [= <-]|apply Hv].
  - intros vsn e. rewrite lookup_insert. case_decide; [|apply Hk]. intros [= <-] _. by rewrite Hke.
  - intros vsn e. rewrite Am, Hm, lookup_insert. case_decide; [|done]. subst vsn.
    rewrite Hfresh. split; [naive_solver|]. intros [[= <-] Hr]. by rewrite Hrole in Hr.
  - intros key vsn e. rewrite Al, lookup_insert. destruct (decide (Vsn ev = vsn)) as [<-|Hne].
    + case_decide as Hd; [|rewrite Hl, Hfresh]; naive_solver.
    + rewrite decide_False by naive_solver. apply Hl.
  - intros vsn. rewrite Ab, lookup_insert. destruct (decide (Vsn ev = vsn)) as [<-|Hne].
    + rewrite Hb, Hfresh. cbn. rewrite Hke. destruct keys; [by rewrite decide_False by naive_solver|].
      by rewrite decide_True by done.
    + rewrite decide_False by naive_solver. apply Hb.
Qed.
(** A successful [Put] files a copy of the event. *)
Lemma Put_cases c event c' :
  Put c event = (c', Ok tt) →
  BeforeFields event ≠ None ∧ Op event ≠ "c" ∧
  if isTargetDBExporter (ExporterRole event)
  then c' = mkCache (<[Vsn event := Copy event]> (m c)) (ukLookup c) (vsnToBuckets c)
  else ∃ keys, bucketKeys (Copy event) = Ok keys ∧ c' = addAll c keys (Copy event).
Proof.
  unfold Put. rewrite <- bool_decide_or. case_bool_decide as Hc; [done|].
  intros Hput. split; [naive_solver|]. split; [naive_solver|].
  destruct (isTargetDBExporter (ExporterRole event)); [by injection Hput as <-|].
  unfold indexEventLocked in Hput. unfold bucketKeys.
  destruct (length _ =? 0)%nat eqn:Hlen; [|by apply index_loop_keys].
  apply Nat.eqb_eq, length_zero_iff_nil in Hlen. rewrite Hlen. injection Hput as <-. by exists [].
Qed.
Lemma Put_inv c S event c' :
  Inv c S → S !! Vsn event = None → Put c event = (c', Ok tt) →
  Inv c' (<[Vsn event := Copy event]> S).
Proof.
  intros HI Hfresh (_ & _ & Hput)%Put_cases.
  destruct (isTargetDBExporter (ExporterRole event)) eqn:Hrole; [subst|destruct Hput as (ks & Hks & ->)].
  - by apply (add_target_inv c S (Copy event)).
  - by apply (addAll_inv c S (Copy event)).
Qed.

Lemma remove_m_inv c S vsn e :
  Inv c S → m c !! vsn = Some e →
  Inv (mkCache (delete vsn (m c)) (ukLookup c) (vsnToBuckets c)) (delete vsn S).
Proof.
  intros [Hv Hk Hm Hl Hb Hn] [HS0 Ht0]%Hm.
  assert (keysOf e = []) as Hk0 by (unfold keysOf; by rewrite Ht0).
  split; cbn; [..|done].
  - intros v e' [_ H]%lookup_delete_Some. by apply Hv.
  - intros v e' [_ H]%lookup_delete_Some. by apply Hk with v.
  - intros v e'. rewrite !lookup_delete_Some, Hm. naive_solver.
  - intros key v e'. rewrite lookup_delete_Some, Hl. split; [|naive_solver].
    intros [HS Hin]. split_and!; [|done..]. intros ->. rewrite HS0 in HS. injection HS as <-.
    rewrite Hk0 in Hin. set_solver.
  - intros v. rewrite Hb, lookup_delete. case_decide; [|done]. subst. rewrite HS0. cbn. by rewrite Hk0.
Qed.
Lemma deindex_inv c S vsn :
  Inv c S → m c !! vsn = None → Inv (deindexEventLocked c vsn) (delete vsn S).
Proof.
  intros [Hv Hk Hm Hl Hb Hn] Hm0.
  assert (∀ v e, m c !! v = Some e ↔ delete vsn S !! v = Some e ∧ isTargetDBExporter (ExporterRole e) = true) as Hm'.
  { intros v e. rewrite lookup_delete_Some, Hm. split; [|naive_solver]. intros [HS Ht].
    split_and!; [|done..]. intros ->. assert (m c !! v = Some e) by (by apply Hm). congruence. }
  unfold deindexEventLocked. destruct (vsnToBuckets c !! vsn) as [ks|] eqn:Hvb.
  - pose proof Hvb as Hvb'. rewrite Hb in Hvb. destruct (S !! vsn) as [e0|] eqn:HS0; [|done].
    cbn in Hvb. assert (keysOf e0 = ks) as Hke by (destruct (keysOf e0); naive_solver).
    destruct (dropAll_spec vsn ks (ukLookup c)) as [D1 D2]. split; cbn; [| |done| | |by apply D2].
    + intros v e [_ H]%lookup_delete_Some. by apply Hv.
    + intros v e [_ H]%lookup_delete_Some. by apply Hk with v.
    + intros key v e. rewrite D1, lookup_delete_Some. case_decide as Hc; [naive_solver|]. rewrite Hl.
      split; [|naive_solver]. intros [HS Hin]. split_and!; [|done..]. intros ->.
      apply Hc. split; [done|]. rewrite HS0 in HS. injection HS as <-. by rewrite <- Hke.
    + intros v. rewrite !lookup_delete. case_decide; [done|apply Hb].
  - split; [| |done| | |done].
    + intros v e [_ H]%lookup_delete_Some. by apply Hv.
    + intros v e [_ H]%lookup_delete_Some. by apply Hk with v.
    + intros key v e. rewrite lookup_delete_Some, Hl. split; [|naive_solver]. intros [HS Hin].
      split_and!; [|done..]. intros ->. rewrite Hb, HS in Hvb. cbn in Hvb.
      destruct (keysOf e); [set_solver|done].
    + intros v. rewrite lookup_delete. case_decide; [by subst|apply Hb].
Qed.
Lemma removeOne_inv c S b event :
  Inv c S → Inv (removeOne (c, b) event).1 (delete (Vsn event) S).
Proof.
  intros HI. unfold removeOne. destruct (m c !! Vsn event) as [e0|] eqn:Hm0.
  - by eapply remove_m_inv.
  - pose proof (deindex_inv _ _ _ HI Hm0) as H. unfold deindexEventLocked in *.
    by destruct (vsnToBuckets c !! Vsn event).
Qed.
Lemma RemoveEvents_inv events : ∀ c S, Inv c S →
  Inv (RemoveEvents c events).1 (foldl (λ S e, delete (Vsn e) S) S events).
Proof.
  unfold RemoveEvents. generalize false. induction events as [|e events IH]; intros b c S HI; [done|].
  cbn [foldl]. pose proof (removeOne_inv c S b e HI) as H.
  destruct (removeOne (c, b) e) as [c1 b1]. by apply IH.
Qed.

(** C9: The cache is what it stands for at every moment: empty at the start, an event
    put into it (whose VSN is not in it) is filed under exactly the buckets of the
    values it frees, and removing events leaves the cache of the others, with no stale
    bucket entry and no empty bucket. *)
Theorem cache_invariant_preserved :
  Inv NewConflictDetectionCache ∅ ∧
  (∀ c S event c', Inv c S → S !! Vsn event = None → Put c event = (c', Ok tt) →
     Inv c' (<[Vsn event := Copy event]> S)) ∧
  (∀ c S events, Inv c S →
     Inv (RemoveEvents c events).1 (foldl (λ S e, delete (Vsn e) S) S events)).
Proof.
  split; [apply Inv_New|]. split; [exact Put_inv|]. intros c S events. by apply RemoveEvents_inv.
Qed.

(** ** Lemmas: the lookup against the full scan *)
Lemma getConflicting_spec c key e es :
  getConflictingEventsWithDifferentPartitionKey c key e = Ok es →
  ∃ k, GetEventPartitionKey e tablePartitionKeyMap = Ok k ∧
  ∀ e', e' ∈ es ↔ (∃ v, bucketAt (ukLookup c) key !! v = Some e') ∧
                  ∃ k', GetEventPartitionKey e' tablePartitionKeyMap = Ok k' ∧ k' ≠ k.
Proof.
  unfold getConflictingEventsWithDifferentPartitionKey. rewrite bind_Ok. intros (k & Hk & H).
  rewrite bind_Ok in H. destruct H as (ps & Hps & [= <-]). exists k. split; [done|].
  intros e'. rewrite (mapM_result_concat _ _ _ _ Hps). unfold bucketAt. split.
  - intros (a & y & Ha & Hy & Hin). rewrite bind_Ok in Hy. destruct Hy as (k' & Hk' & [= <-]).
    case_decide; [set_solver|]. apply list_elem_of_singleton in Hin as ->.
    apply list_elem_of_fmap in Ha as ([v a'] & -> & Hv). apply elem_of_map_to_list in Hv. eauto.
  - intros ([v Hv] & k' & Hk' & Hne). exists e', [e']. split_and!; [|by rewrite Hk'; cbn; rewrite decide_False|set_solver].
    apply list_elem_of_fmap. exists (v, e'). split; [done|]. by apply elem_of_map_to_list.
Qed.

(** The null check of the detection, and what it guards. *)
Definition nullSkip (ix : UniqueIndex) (fs : fields) : bool :=
  negb (NullsNotDistinct ix) && anyUniqueIndexColumnValueIsNull fs (IndexColumns ix).
Lemma nullSkip_columns ix fs vs : Forall2 (columnIs fs ix) (IndexColumns ix) vs → nullSkip ix fs = false.
Proof.
  unfold nullSkip, anyUniqueIndexColumnValueIsNull.
  induction 1 as [|c v cs vs [Hc Hn] _ IH]; [by rewrite andb_false_r|]. cbn.
  destruct (NullsNotDistinct ix); [done|]. cbn in *. rewrite IH, orb_false_r.
  apply bool_decide_eq_false. rewrite Hc. intros [= ->]. by specialize (Hn eq_refl).
Qed.

Lemma checkConflict_spec c e ix fs ty cf :
  checkConflict c e ix fs ty = Ok cf →
  if nullSkip ix fs then eventsConflicting cf = [] else
  ∃ key k, computeConflictBucketKey (TableNameTup e) fs ix = Ok key ∧
    GetEventPartitionKey e tablePartitionKeyMap = Ok k ∧
    ∀ e', e' ∈ eventsConflicting cf ↔ (∃ v, bucketAt (ukLookup c) key !! v = Some e') ∧
      ∃ k', GetEventPartitionKey e' tablePartitionKeyMap = Ok k' ∧ k' ≠ k.
Proof.
  unfold checkConflict. fold (nullSkip ix fs). destruct (nullSkip ix fs); [by intros [= <-]|].
  rewrite bind_Ok. intros (key & Hkey & H). rewrite bind_Ok in H. destruct H as (es & Hes & H).
  apply getConflicting_spec in Hes as (k & Hk & Hes). exists key, k. split_and!; [done..|].
  intros e'. rewrite <- Hes. destruct (length es =? 0)%nat eqn:Hl; injection H as <-; [|done].
  apply Nat.eqb_eq, length_zero_iff_nil in Hl. by rewrite Hl.
Qed.

(** The values an incoming event claims in an index: those of its after-image when
    it inserts or changes an index column, those of its before-image when an update
    may move the row in or out of a partial index. *)
Definition claims (e : Event) (ix : UniqueIndex) (fs : fields) : Prop :=
  fs = AfterFields e ∧
    (Op e = "c" ∨ Op e = "u" ∧ anyUniqueIndexColumnChanged (Fields e) (IndexColumns ix) = true) ∨
  fs = BeforeFields e ∧ Op e = "u" ∧ IsPartialIndex ix = true.

Lemma elem_keepConflict cf cf' : cf ∈ keepConflict cf' ↔ cf = cf' ∧ eventsConflicting cf' ≠ [].
Proof. unfold keepConflict. destruct (eventsConflicting cf'); cbn; set_solver. Qed.

Lemma conflictsAtIndex_sound c e ix l cf :
  conflictsAtIndex c e ix = Ok l → cf ∈ l →
  ∃ fs ty, claims e ix fs ∧ checkConflict c e ix fs ty = Ok cf.
Proof.
  unfold conflictsAtIndex, claims. case_decide as Hc.
  - rewrite bind_Ok. intros (cf' & H & [= <-]) [-> _]%elem_keepConflict. eauto 8.
  - case_decide as Hu; [|intros [= <-]; set_solver].
    rewrite bind_Ok. intros (l1 & H1 & H). rewrite bind_Ok in H. destruct H as (l2 & H2 & [= <-]).
    rewrite elem_of_app. intros [Hin|Hin].
    + destruct (anyUniqueIndexColumnChanged _ _) eqn:Hch; [|injection H1 as <-; set_solver].
      rewrite bind_Ok in H1. destruct H1 as (cf' & H & [= <-]).
      apply elem_keepConflict in Hin as [-> _]. eauto 10.
    + destruct (IsPartialIndex ix); [|injection H2 as <-; set_solver].
      rewrite bind_Ok in H2. destruct H2 as (cf' & H & [= <-]).
      apply elem_keepConflict in Hin as [-> _]. eauto 10.
Qed.
Lemma conflictsAtIndex_complete c e ix l fs :
  conflictsAtIndex c e ix = Ok l → claims e ix fs →
  ∃ ty cf, checkConflict c e ix fs ty = Ok cf ∧ (eventsConflicting cf ≠ [] → cf ∈ l).
Proof.
  unfold conflictsAtIndex, claims. case_decide as Hc.
  - rewrite Hc, bind_Ok. intros (cf' & H & [= <-]) [[-> _]|(_ & [=] & _)].
    eexists _, _. split; [exact H|]. by rewrite elem_keepConflict.
  - case_decide as Hu; [|naive_solver].
    rewrite bind_Ok. intros (l1 & H1 & H). rewrite bind_Ok in H. destruct H as (l2 & H2 & [= <-]).
    intros [[-> [?|[_ Hch]]]|(-> & _ & Hp)]; [done|rewrite Hch in H1|rewrite Hp in H2].
    + rewrite bind_Ok in H1. destruct H1 as (cf' & H & [= <-]).
      eexists _, _. split; [exact H|]. rewrite elem_of_app, elem_keepConflict. by left.
    + rewrite bind_Ok in H2. destruct H2 as (cf' & H & [= <-]).
      eexists _, _. split; [exact H|]. rewrite elem_of_app, !elem_keepConflict. by right.
Qed.

(** Index names of a table are distinct and, like table keys, hold no NUL. *)
Definition wellNamed : Prop :=
  ∀ t ix, ix ∈ indexesOf t → nulFree t ix ∧
    ∀ ix', ix' ∈ indexesOf t → IndexName ix' = IndexName ix → ix' = ix.

(** The specification of a conflict, by comparison of values: the cached event
    frees, in an index it concerns, the very values the incoming one claims there, and
    another channel applies it. *)
Definition conflictsWith (cached incoming : Event) : Prop :=
  isTargetDBExporter (ExporterRole cached) = false ∧
  ForKey (TableNameTup cached) = ForKey (TableNameTup incoming) ∧
  ∃ ix fs, ix ∈ indexesOf (TableNameTup incoming) ∧ claims incoming ix fs ∧ fs ≠ None ∧
    indexed cached ix = true ∧
    uniqueIndexColumnsExistInBothFields (BeforeFields cached) fs (IndexColumns ix)
    && uniqueIndexColumnValuesEqual (BeforeFields cached) fs (IndexColumns ix) (NullsNotDistinct ix)
      = true ∧
    ∃ k k', GetEventPartitionKey incoming tablePartitionKeyMap = Ok k ∧
            GetEventPartitionKey cached tablePartitionKeyMap = Ok k' ∧ k' ≠ k.

Lemma indexesOf_key t t' : ForKey t = ForKey t' → indexesOf t = indexesOf t'.
Proof. intros H. unfold indexesOf, StructMap.Get, Key, NameTuple_Keyer. by rewrite H. Qed.
Lemma elem_keysOf c S v e key :
  Inv c S → S !! v = Some e →
  key ∈ keysOf e ↔ isTargetDBExporter (ExporterRole e) = false ∧
    ∃ ix, ix ∈ indexesOf (TableNameTup e) ∧ indexed e ix = true ∧
          computeConflictBucketKey (TableNameTup e) (BeforeFields e) ix = Ok key.
Proof.
  intros HI HS. destruct (isTargetDBExporter (ExporterRole e)) eqn:Hr.
  - unfold keysOf. rewrite Hr. set_solver.
  - pose proof (Inv_keys _ _ HI _ _ HS Hr) as Hk. pose proof Hk as Hk'. unfold bucketKeys in Hk.
    split.
    + intros Hin. split; [done|]. apply mapM_result_Ok in Hk.
      apply list_elem_of_lookup in Hin as [i Hi].
      destruct (Forall2_lookup_r _ _ _ _ _ Hk Hi) as (ix & Hix & Hc).
      apply list_elem_of_lookup_2, list_elem_of_filter in Hix. naive_solver.
    + intros (_ & ix & Hix & Hi & Hc).
      destruct (mapM_result_elem _ _ _ ix Hk) as (y & Hy & Hin); [by apply list_elem_of_filter|].
      congruence.
Qed.
Lemma key_conflict c S v e e' ix fs key :
  wellNamed → Inv c S → S !! v = Some e' → ix ∈ indexesOf (TableNameTup e) →
  computeConflictBucketKey (TableNameTup e) fs ix = Ok key →
  key ∈ keysOf e' ↔
    isTargetDBExporter (ExporterRole e') = false ∧ ForKey (TableNameTup e') = ForKey (TableNameTup e) ∧
    indexed e' ix = true ∧
    uniqueIndexColumnsExistInBothFields (BeforeFields e') fs (IndexColumns ix)
    && uniqueIndexColumnValuesEqual (BeforeFields e') fs (IndexColumns ix) (NullsNotDistinct ix) = true ∧
    ∃ key', computeConflictBucketKey (TableNameTup e') (BeforeFields e') ix = Ok key'.
Proof.
  intros Hwn HI HS Hix Hkey. rewrite (elem_keysOf c S v e' key HI HS).
  destruct (Hwn _ _ Hix) as [Hn Huniq]. split.
  - intros (Hr & ix' & Hix' & Hi' & Hkey').
    destruct (proj1 (computeConflictBucketKey_Ok _ _ _ _) Hkey) as (_ & vs & Hvs & E1).
    destruct (proj1 (computeConflictBucketKey_Ok _ _ _ _) Hkey') as (_ & vs' & Hvs' & E2).
    destruct (Hwn _ _ Hix') as [[Ht' Hn'] _]. rewrite E1 in E2.
    apply bucket_key_fields in E2 as (Ht & Hname & <-); [|by destruct Hn..].
    rewrite <- (indexesOf_key _ _ Ht) in Hix'. assert (ix' = ix) as -> by (by apply Huniq).
    split_and!; try done; [|by exists key]. apply indexValuesEqual_spec. by exists vs.
  - intros (Hr & Ht & Hi & Heq & key' & Hkey'). split; [done|]. exists ix.
    split; [by rewrite (indexesOf_key _ _ Ht)|]. split; [done|]. rewrite Hkey'. f_equal.
    eapply (bucket_key_match ix (TableNameTup e') (TableNameTup e)); [|done|done|done|done].
    split; [rewrite Ht|]; by destruct Hn.
Qed.

Lemma conflict_found c S e e' v ix fs cf ty :
  wellNamed → Inv c S → S !! v = Some e' → ix ∈ indexesOf (TableNameTup e) →
  claims e ix fs → checkConflict c e ix fs ty = Ok cf → e' ∈ eventsConflicting cf →
  conflictsWith e' e.
Proof.
  intros Hwn HI HS Hix Hcl Hck%checkConflict_spec Hin.
  destruct (nullSkip ix fs); [rewrite Hck in Hin; set_solver|].
  destruct Hck as (key & k & Hkey & Hk & Hes). apply Hes in Hin as ([v' Hb] & k' & Hk' & Hne).
  apply (Inv_lookup _ _ HI) in Hb as [HS' Hin].
  apply (key_conflict c S v' e e' ix fs key) in Hin as (Hr & Ht & Hi & Heq & _); [|done..].
  split; [done|]. split; [done|]. exists ix, fs. split_and!; [done..| |done|done|eauto].
  by apply computeConflictBucketKey_Ok in Hkey as [? _].
Qed.
Lemma conflict_listed c S e e' v infos :
  wellNamed → Inv c S → S !! v = Some e' → conflictsWith e' e →
  mapM_result (conflictsAtIndex c e) (indexesOf (TableNameTup e)) = Ok infos →
  ∃ cf, cf ∈ concat infos ∧ e' ∈ eventsConflicting cf.
Proof.
  intros Hwn HI HS (Hr & Ht & ix & fs & Hix & Hcl & Hfs & Hi & Heq & k & k' & Hk & Hk' & Hne) Hm.
  destruct (mapM_result_elem _ _ _ ix Hm Hix) as (l & Hl & _).
  destruct (conflictsAtIndex_complete _ _ _ _ _ Hl Hcl) as (ty & cf & Hck & Hcf).
  pose proof Hck as Hck'. apply checkConflict_spec in Hck.
  destruct (proj1 (indexValuesEqual_spec _ _ _) Heq) as (vs & Hvs' & Hvs).
  rewrite (nullSkip_columns _ _ _ Hvs) in Hck. destruct Hck as (key & k0 & Hkey & Hk0 & Hes).
  rewrite Hk in Hk0. injection Hk0 as <-.
  assert (e' ∈ eventsConflicting cf) as Hin.
  { apply Hes. split; [|eauto]. exists v. apply (Inv_lookup _ _ HI). split; [done|].
    apply (key_conflict c S v e e' ix fs key); [done..|]. split_and!; [done..|].
    pose proof (Inv_keys _ _ HI _ _ HS Hr) as Hks.
    destruct (mapM_result_elem _ _ _ ix Hks) as (y & Hy & _); [|by exists y].
    apply list_elem_of_filter. by rewrite (indexesOf_key _ _ Ht). }
  exists cf. split; [|done]. apply (mapM_result_concat _ _ _ _ Hm). exists ix, l.
  split_and!; [done..|]. apply Hcf. intros E. rewrite E in Hin. set_solver.
Qed.

Lemma findConflict_is_scan c S e infos :
  wellNamed → Inv c S → isTargetDBExporter (ExporterRole e) = false →
  findConflictLocked c e = Ok infos →
  ∀ e', (∃ info, info ∈ infos ∧ e' ∈ eventsConflicting info) ↔
        (∃ v, S !! v = Some e') ∧ conflictsWith e' e.
Proof.
  intros Hwn HI Hr Hf e'. unfold findConflictLocked in Hf. rewrite Hr in Hf.
  unfold findValueConflictLocked in Hf. case_decide; [done|].
  assert (∃ ls, mapM_result (conflictsAtIndex c e) (indexesOf (TableNameTup e)) = Ok ls ∧
                infos = concat ls) as (ls & Hls & ->).
  { destruct (length _ =? 0)%nat eqn:Hl.
    - apply Nat.eqb_eq, length_zero_iff_nil in Hl. rewrite Hl. injection Hf as <-. by exists [].
    - rewrite bind_Ok in Hf. destruct Hf as (ls & Hls & [= <-]). eauto. }
  split.
  - intros (info & Hinfo & Hin). apply (mapM_result_concat _ _ _ _ Hls) in Hinfo
      as (ix & l & Hix & Hl & Hinfo).
    destruct (conflictsAtIndex_sound _ _ _ _ _ Hl Hinfo) as (fs & ty & Hcl & Hck).
    pose proof Hck as Hck'. apply checkConflict_spec in Hck'.
    destruct (nullSkip ix fs); [rewrite Hck' in Hin; set_solver|].
    destruct Hck' as (key & k & _ & _ & Hes). pose proof Hin as Hin'.
    apply Hes in Hin' as [[v Hb] _]. apply (Inv_lookup _ _ HI) in Hb as [HS _].
    split; [by exists v|]. by eapply conflict_found.
  - intros [[v HS] Hc]. by eapply conflict_listed.
Qed.

(** A reported conflict names an event. *)
Lemma conflict_nonempty c e infos info :
  isTargetDBExporter (ExporterRole e) = false → findConflictLocked c e = Ok infos →
  info ∈ infos → eventsConflicting info ≠ [].
Proof.
  intros Hr. unfold findConflictLocked. rewrite Hr. unfold findValueConflictLocked.
  case_decide; [done|]. case_match; [intros [= <-]; set_solver|].
  rewrite bind_Ok. intros (ls & Hls & [= <-]) Hin.
  apply (mapM_result_concat _ _ _ _ Hls) in Hin as (ix & l & _ & Hl & Hin). revert Hl Hin.
  unfold conflictsAtIndex. repeat case_decide; [|..|by intros [= <-] ?%elem_of_nil].
  - rewrite bind_Ok. intros (cf & _ & [= <-]) [-> ?]%elem_keepConflict. done.
  - rewrite bind_Ok. intros (l1 & E1 & E2). rewrite bind_Ok in E2. destruct E2 as (l2 & E2 & [= <-]).
    assert (∀ (b : bool) cfr l', (if b then cf ← cfr; Ok (keepConflict cf) else Ok []) = Ok l' →
              info ∈ l' → eventsConflicting info ≠ []) as Hk.
    { intros [] cfr l'; [|intros [= <-] ?%elem_of_nil; done].
      rewrite bind_Ok. intros (cf & _ & [= <-]) [-> ?]%elem_keepConflict. done. }
    rewrite elem_of_app. intros [?|?]; [by eapply (Hk _ _ l1)|by eapply (Hk _ _ l2)].
Qed.

(** C6: The value-keyed lookup is the full scan: on a cache that holds the in-flight
    events [S], [findConflictLocked] for a source event returns exactly the events of
    [S] that free, in some unique index, values the incoming event claims, and that
    another channel may be applying. *)
Theorem findConflict_spec (c : Cache) (S : gmap Z Event) (e : Event) (infos : list Conflict) :
  wellNamed → Inv c S → isTargetDBExporter (ExporterRole e) = false →
  findConflictLocked c e = Ok infos →
  ∀ e', (∃ info, info ∈ infos ∧ e' ∈ eventsConflicting info) ↔
        (∃ v, S !! v = Some e') ∧ conflictsWith e' e.
Proof. apply findConflict_is_scan. Qed.

(** A source event passes [WaitUntilNoConflict] only at a moment when no event in
    flight on another channel conflicts with it. *)
Theorem WaitUntilNoConflict_safe (states : list Cache) (Ss : list (gmap Z Event)) (e : Event) :
  wellNamed → isTargetDBExporter (ExporterRole e) = false → Forall2 Inv states Ss →
  WaitUntilNoConflict states e = Some (Ok tt) →
  ∃ c S, c ∈ states ∧ S ∈ Ss ∧ Inv c S ∧ ∀ v e', S !! v = Some e' → ¬ conflictsWith e' e.
Proof.
  intros Hwn Hr. induction 1 as [|c S states Ss HI HF IH]; cbn; [done|].
  destruct (findConflictLocked c e) as [[|i l]|er|er] eqn:Hf; [|intros H|done..].
  - intros _. exists c, S. split_and!; [by left|by left|done|]. intros v e' HS Hc.
    destruct (proj2 (findConflict_is_scan c S e [] Hwn HI Hr Hf e')) as (info & Hin & _); [eauto|].
    set_solver.
  - destruct (IH H) as (c' & S' & ? & ? & ? & ?). exists c', S'. split_and!; [by right|by right|done|done].
Qed.

(** [Put] refuses an event without a before-image and an insert, and leaves the
    cache as it was. *)
Lemma Put_rejects (c : Cache) (event : Event) :
  BeforeFields event = None ∨ Op event = "c" →
  Put c event = (c, Err "before fields are nil for event").
Proof.
  intros H. unfold Put. rewrite <- bool_decide_or. by rewrite bool_decide_true.
Qed.
End cache.

(** ** A concrete cache for the witnesses *)
Definition emailIndex : UniqueIndex := mkUniqueIndex "accounts_email_key" ["email"] false false.
Definition sampleIndexes : StructMap.t NameTuple (list UniqueIndex) :=
  StructMap.Put StructMap.NewStructMap sampleTable [emailIndex].
Definition pkMap : PartitionKeyMap := Some (sampleMap byPK).
Definition mkChange (vsn : Z) (op id old new : string) : Event :=
  mkEvent vsn op sampleTable "" "" NIL_NAME_TUPLE (Some {[ "id" := Some id ]})
    (Some {[ "email" := Some new ]}) (Some {[ "id" := Some id; "email" := Some old ]})
    (GenerateAfterFields op (Some {[ "id" := Some id; "email" := Some old ]})
       (Some {[ "email" := Some new ]})) SOURCE_DB_EXPORTER_ROLE.
(** Row 1 gives up [a@x], row 2 takes it. *)
Definition freeing : Event := mkChange 1 "u" "1" "a@x" "b@x".
Definition claiming : Event := mkChange 2 "u" "2" "c@x" "a@x".
Definition cacheOfOne : Cache := (Put sampleIndexes NewConflictDetectionCache freeing).1.

Lemma sampleIndexes_wellNamed : wellNamed sampleIndexes.
Proof.
  intros t ix. unfold indexesOf, StructMap.Get, sampleIndexes. cbn.
  rewrite lookup_insert, lookup_empty. case_decide as Hk; [|set_solver].
  cbn. intros ->%list_elem_of_singleton. split; [|by intros ix' ->%list_elem_of_singleton].
  split; [|reflexivity].
  change (ForKey sampleTable = ForKey t) in Hk. rewrite <- Hk. vm_compute. reflexivity.
Qed.
Lemma cacheOfOne_Inv : Inv sampleIndexes cacheOfOne (<[1 := Copy freeing]> ∅).
Proof.
  apply (Put_inv sampleIndexes NewConflictDetectionCache ∅ freeing);
    [apply Inv_New|apply lookup_empty|vm_compute; reflexivity].
Qed.
Lemma bucket_key_match_witness :
  ∃ k, computeConflictBucketKey sampleTable (BeforeFields freeing) emailIndex = Ok k ∧
       computeConflictBucketKey sampleTable (AfterFields claiming) emailIndex = Ok k ∧
       (k = k ↔ ForKey sampleTable = ForKey sampleTable ∧
         uniqueIndexColumnsExistInBothFields (BeforeFields freeing) (AfterFields claiming) ["email"]
         && uniqueIndexColumnValuesEqual (BeforeFields freeing) (AfterFields claiming) ["email"] false = true).
Proof.
  eexists. split; [vm_compute; reflexivity|]. split; [vm_compute; reflexivity|].
  apply (bucket_key_match emailIndex sampleTable sampleTable (BeforeFields freeing) (AfterFields claiming));
    [split; vm_compute; reflexivity|split; vm_compute; reflexivity|vm_compute; reflexivity..].
Defined.
Lemma findConflict_spec_witness :
  ∃ infos, findConflictLocked sampleIndexes pkMap cacheOfOne claiming = Ok infos ∧ infos ≠ [] ∧
    ∀ e', (∃ info, info ∈ infos ∧ e' ∈ eventsConflicting info) ↔
          (∃ v, (<[1 := Copy freeing]> ∅ : gmap Z Event) !! v = Some e') ∧
          conflictsWith sampleIndexes pkMap e' claiming.
Proof.
  eexists. split; [vm_compute; reflexivity|]. split; [done|].
  eapply (findConflict_spec sampleIndexes pkMap cacheOfOne);
    [apply sampleIndexes_wellNamed|apply cacheOfOne_Inv|reflexivity|vm_compute; reflexivity].
Defined.
Lemma WaitUntilNoConflict_safe_witness :
  WaitUntilNoConflict sampleIndexes pkMap [cacheOfOne; NewConflictDetectionCache] claiming
    = Some (Ok tt) ∧
  ∃ c S, c ∈ [cacheOfOne; NewConflictDetectionCache] ∧ S ∈ [<[1 := Copy freeing]> ∅; ∅] ∧
    Inv sampleIndexes c S ∧ ∀ v e', S !! v = Some e' → ¬ conflictsWith sampleIndexes pkMap e' claiming.
Proof.
  split; [vm_compute; reflexivity|].
  apply (WaitUntilNoConflict_safe sampleIndexes pkMap [cacheOfOne; NewConflictDetectionCache]
           [<[1 := Copy freeing]> ∅; ∅]).
  - apply sampleIndexes_wellNamed.
  - reflexivity.
  - constructor; [apply cacheOfOne_Inv|]. constructor; [apply Inv_New|constructor].
  - vm_compute. reflexivity.
Defined.
End ConflictCache.
