(* ===== verification/PartitionStrategy.v ===== *)
(** * CDC partitioning strategies (src/yb-voyager/cmd/live_migration_cdc_partition_strategy.go)

    From the flags --cdc-partition-key and --cdc-partition-key-overrides to the
    per-table strategy the router uses: parsing (cmd/import.go), resolution,
    guardrails, the record persisted in the metadata database and the comparison
    on resume.  The name registry and the target database are arguments. *)
From S2P Require Import Prelude StructMap SqlName AttrNames Event PartitionKey ConflictCache.
Import SqlName AttrNames Event PartitionKey ConflictCache.

Module PartitionStrategy.

(** ** Parsing the overrides flag (src/yb-voyager/cmd/import.go) *)

(** One turn of the loop over the custom columns: [seen] is the list built. *)
Definition addColumn (columns : list string) (raw : string) : result (list string) :=
  let col := TrimSpace raw in
  if decide (col = "") then Err "empty column name in custom key"
  else if decide (col ∈ columns) then Err "duplicate column in custom key"
  else Ok (columns ++ [col]).
Definition parseCdcPartitionKeyOverrideValue (value : string) : result cdcPartitionKeyOverride :=
  if decide (value = PARTITION_BY_PK) then Ok (mkOverride PARTITION_BY_PK [])
  else if decide (value = PARTITION_BY_TABLE) then Ok (mkOverride PARTITION_BY_TABLE [])
  else if negb (bool_decide (first_char value = Some "("%char))
          || negb (bool_decide (last_char value = Some ")"%char))
  then Err "expected pk, table, or a parenthesized custom key column list"
  else
    let value := TrimSpace (strip_ends value) in
    if decide (value = "") then Err "custom key column list is empty"
    else columns ← foldM addColumn [] (Split "," value); Ok (mkOverride PARTITION_BY_CUSTOM columns).

Definition addOverrideEntry (acc : gmap string cdcPartitionKeyOverride) (entry : string)
    : result (gmap string cdcPartitionKeyOverride) :=
  let entry := TrimSpace entry in
  if decide (entry = "") then Ok acc
  else
    match SplitN2 ":" entry with
    | (_, None) => Err "expected format schema.table:pk|table|(col1,col2,...)"
    | (p0, Some p1) =>
        let tableName := TrimSpace p0 in
        let value := TrimSpace p1 in
        if bool_decide (tableName = "") || bool_decide (value = "")
        then Err "table and strategy/columns must both be non-empty"
        else
          override ← parseCdcPartitionKeyOverrideValue value;
          match acc !! tableName with
          | Some _ => Err "duplicate table in cdc-partition-key-overrides"
          | None => Ok (<[tableName := override]> acc)
          end
    end.
Definition parseCdcPartitionKeyOverrides (overrides : string)
    : result (gmap string cdcPartitionKeyOverride) :=
  let overrides := TrimSpace overrides in
  if decide (overrides = "") then Ok ∅
  else foldM addOverrideEntry ∅ (Split ";" overrides).

(** *** Printing an override and reading it back *)
Definition printOverride (o : cdcPartitionKeyOverride) : string :=
  if decide (Strategy o = PARTITION_BY_CUSTOM) then "(" +:+ Join "," (Columns o) +:+ ")" else Strategy o.
Definition printEntry (p : string * cdcPartitionKeyOverride) : string := p.1 +:+ ":" +:+ printOverride p.2.
Definition printOverrides (l : list (string * cdcPartitionKeyOverride)) : string :=
  Join ";" (map printEntry l).

(** A name the flag can spell: no white space at its ends, none of the separators. *)
Definition flagName (sep : ascii) (s : string) : Prop :=
  trimmed s = true ∧ str_has ";" s = false ∧ str_has sep s = false.
Definition flagOverride (o : cdcPartitionKeyOverride) : Prop :=
  o = mkOverride PARTITION_BY_PK [] ∨ o = mkOverride PARTITION_BY_TABLE [] ∨
  (Strategy o = PARTITION_BY_CUSTOM ∧ Columns o ≠ [] ∧ NoDup (Columns o) ∧
   Forall (flagName ",") (Columns o)).

Lemma strip_parens s : strip_ends ("(" +:+ s +:+ ")") = s.
Proof.
  unfold strip_ends. cbn [String.append String.length]. rewrite str_length_app. cbn [String.length].
  replace (S (String.length s + 1) - 2)%nat with (String.length s) by lia. apply substring_prefix.
Qed.
Lemma addColumn_all columns acc :
  NoDup (acc ++ columns) → Forall (flagName ",") columns → foldM addColumn acc columns = Ok (acc ++ columns).
Proof.
  revert acc. induction columns as [|c cols IH]; intros acc Hnd Hf; cbn [foldM]; [by rewrite app_nil_r|].
  apply Forall_cons in Hf as [[Hc _] Hf].
  assert (addColumn acc c = Ok (acc ++ [c])) as ->.
  { unfold addColumn. rewrite (trimmed_TrimSpace c) by done.
    rewrite decide_False by (by apply trimmed_nonempty). apply decide_False.
    intros Hin. apply NoDup_app in Hnd as (_ & Hd & _). apply (Hd c Hin). by left. }
  cbn [mbind result_bind]. rewrite IH; [by rewrite <- app_assoc| |done]. by rewrite <- app_assoc.
Qed.
Lemma parse_printOverride o :
  flagOverride o → parseCdcPartitionKeyOverrideValue (printOverride o) = Ok o.
Proof.
  intros [->|[->|(Hs & Hne & Hnd & Hf)]]; [done|done|]. destruct o as [st cols]; cbn in *. subst st.
  unfold printOverride; cbn [Strategy Columns]. rewrite decide_True by done.
  unfold parseCdcPartitionKeyOverrideValue.
  rewrite !decide_False by (cbn; done).
  rewrite (bool_decide_true (first_char _ = _)) by done.
  assert (last_char ("(" +:+ Join "," cols +:+ ")") = Some ")"%char) as Hl.
  { rewrite last_char_app by (by destruct (Join "," cols)). by rewrite last_char_app. }
  rewrite Hl, bool_decide_true by done. cbn [negb orb].
  rewrite strip_parens.
  assert (trimmed (Join "," cols) = true) as Ht.
  { apply trimmed_Join; [done|done|]. eapply Forall_impl; [exact Hf|]. by intros c []. }
  rewrite trimmed_TrimSpace by done.
  rewrite decide_False by (by apply trimmed_nonempty).
  rewrite Split_Join; [|done|eapply Forall_impl; [exact Hf|]; by intros c (_ & _ & ?)].
  by rewrite addColumn_all.
Qed.
Lemma printOverride_trimmed o : flagOverride o → trimmed (printOverride o) = true.
Proof.
  intros [->|[->|(Hs & Hne & Hnd & Hf)]]; [done|done|].
  unfold printOverride. rewrite decide_True by done.
  apply (trimmed_app "(" _); [done|]. apply trimmed_app; [|done].
  apply trimmed_Join; [done|done|]. eapply Forall_impl; [exact Hf|]. by intros c [].
Qed.
Lemma printOverride_has o : flagOverride o → str_has ";" (printOverride o) = false.
Proof.
  intros [->|[->|(Hs & Hne & Hnd & Hf)]]; [done|done|].
  unfold printOverride. rewrite decide_True by done.
  rewrite !str_has_app, (str_has_Join ";" ","); [done|done|].
  eapply Forall_impl; [exact Hf|]. by intros c (_ & ? & _).
Qed.
Lemma addOverrideEntry_print acc t o :
  flagName ":" t → flagOverride o → acc !! t = None →
  addOverrideEntry acc (printEntry (t, o)) = Ok (<[t := o]> acc).
Proof.
  intros (Ht & _ & Hc) Ho Hacc. unfold addOverrideEntry, printEntry; cbn [fst snd].
  pose proof (printOverride_trimmed o Ho) as Hp.
  rewrite trimmed_TrimSpace by (apply trimmed_app; [done|]; by apply (trimmed_app ":")).
  rewrite decide_False by (by destruct t).
  change (":" +:+ printOverride o) with (String ":" (printOverride o)).
  rewrite SplitN2_app by done. rewrite !trimmed_TrimSpace by done.
  rewrite !bool_decide_false by (by apply trimmed_nonempty). cbn [orb].
  rewrite parse_printOverride by done. cbn [mbind result_bind]. by rewrite Hacc.
Qed.
Lemma addOverrideEntry_all l acc :
  NoDup l.*1 → (∀ t, t ∈ l.*1 → acc !! t = None) →
  Forall (λ p, flagName ":" p.1 ∧ flagOverride p.2) l →
  foldM addOverrideEntry acc (map printEntry l) = Ok (list_to_map l ∪ acc).
Proof.
  revert acc. induction l as [|[t o] l IH]; intros acc Hnd Hacc Hf; cbn [foldM map list_to_map].
  { by rewrite list_to_map_nil, (left_id_L ∅ (∪)). }
  apply Forall_cons in Hf as [[Ht Ho] Hf]. cbn [fst snd fmap list_fmap] in *.
  apply NoDup_cons in Hnd as [Hni Hnd].
  rewrite addOverrideEntry_print; [|done|done|apply Hacc; by left]. cbn [mbind result_bind].
  rewrite IH; [|done| |done]; cycle 1.
  { intros t' Ht'. rewrite lookup_insert_ne; [apply Hacc; by right|]. intros ->. done. }
  rewrite list_to_map_cons, <- insert_union_l, insert_union_r by (by apply not_elem_of_list_to_map_1). done.
Qed.

(** The overrides flag reads back: printing a list of overrides in the documented
    syntax and parsing it gives the map of those overrides, custom columns in the
    order written. *)
Theorem parse_print_overrides (l : list (string * cdcPartitionKeyOverride)) :
  NoDup l.*1 → Forall (λ p, flagName ":" p.1 ∧ flagOverride p.2) l →
  parseCdcPartitionKeyOverrides (printOverrides l) = Ok (list_to_map l).
Proof.
  intros Hnd Hf. unfold parseCdcPartitionKeyOverrides, printOverrides.
  destruct l as [|p l]; [done|]. set (l' := p :: l) in *.
  assert (Forall (λ w, trimmed w = true ∧ str_has ";" w = false) (map printEntry l')) as Hw.
  { apply Forall_map. eapply Forall_impl; [exact Hf|]. intros [t o] [(H1 & H2 & H3) Ho]; cbn in *. split.
    - apply trimmed_app; [done|]. by apply (trimmed_app ":"), printOverride_trimmed.
    - unfold printEntry; cbn [fst snd]. rewrite !str_has_app. rewrite str_has_cons, H2, printOverride_has by done. done. }
  assert (trimmed (Join ";" (map printEntry l')) = true) as Ht.
  { apply trimmed_Join; [done|done|]. eapply Forall_impl; [exact Hw|]. by intros w []. }
  rewrite trimmed_TrimSpace by done. rewrite decide_False by (by apply trimmed_nonempty).
  rewrite Split_Join; [|done|eapply Forall_impl; [exact Hw|]; by intros w []].
  rewrite addOverrideEntry_all; [by rewrite (right_id_L ∅ (∪))|done| |done].
  intros t _. apply lookup_empty.
Qed.
Lemma parse_print_overrides_witness :
  let l := [("public.a", mkOverride PARTITION_BY_PK []);
            ("public.b", mkOverride PARTITION_BY_CUSTOM ["x"; "y"])] in
  printOverrides l = "public.a:pk;public.b:(x,y)" ∧
  parseCdcPartitionKeyOverrides "public.a:pk;public.b:(x,y)" = Ok (list_to_map l).
Proof.
  cbn zeta. split; [reflexivity|].
  apply (parse_print_overrides [("public.a", mkOverride PARTITION_BY_PK []);
            ("public.b", mkOverride PARTITION_BY_CUSTOM ["x"; "y"])]).
  - apply (bool_decide_unpack _). vm_compute. exact I.
  - apply Forall_cons; split; [|apply Forall_cons; split; [|by apply Forall_nil]].
    + split; [by repeat split|by left].
    + split; [by repeat split|]. right; right. split; [done|]. split; [done|]. split.
      * apply (bool_decide_unpack _). vm_compute. exact I.
      * by repeat (apply Forall_cons; split; [by repeat split|]).
Defined.

(** ** Resolution *)
Definition Strategies : Type := StructMap.t NameTuple cdcPartitionKeyOverride.
Definition TableSet : Type := StructMap.t NameTuple bool.

Record GeneratedStoredColumn : Type := mkGenerated { gc_Name : string; InUniqueIndex : bool }.
Definition GeneratedColumns : Type := StructMap.t NameTuple (list GeneratedStoredColumn).

(** The parts of [metadb.ImportDataStatusRecord] read and written here. *)
Record ImportDataStatusRecord : Type := mkStatus {
  TableToCDCPartitionKey : option (gmap string cdcPartitionKeyOverride);
  CdcExpressionUniqueIndexTables : option (list string);
  CdcPartitionKeyOverridesConfig : string }.

(** Visiting all entries of a struct map with a callback that never stops. *)
Definition IterAll {V S} (zero : V) (f : S → NameTuple → V → S) (m : StructMap.t NameTuple V) (s : S)
    : result S :=
  StructMap.IterKV (map_to_list (StructMap.kmap m)) zero (λ s k v, Ok (true, f s k v)) m s.
Definition zeroOverride : cdcPartitionKeyOverride := mkOverride "" [].

Definition shouldForceTablePartitioning (importerRole sourceDBType targetDBType : string) : bool :=
  if negb (bool_decide (importerRole = TARGET_DB_IMPORTER_ROLE)) then true
  else if negb (bool_decide (sourceDBType = POSTGRESQL)) then true
  else if bool_decide (targetDBType = YUGABYTEDB_AMP) then true
  else false.

Definition tableHasUniqueIndexOnGenerated (generatedStoredCols : GeneratedColumns) (t : NameTuple) : bool :=
  match StructMap.Get generatedStoredCols t with
  | None => false
  | Some cols => existsb InUniqueIndex cols
  end.
Definition tableHasGeneratedColumn (generatedStoredCols : GeneratedColumns) (t : NameTuple)
    (overrideColumns : list string) : list string * bool :=
  match StructMap.Get generatedStoredCols t with
  | None => ([], false)
  | Some cols =>
      let generatedCustomCols :=
        filter (λ col, existsb (λ c, bool_decide (gc_Name c = col)) cols = true) overrideColumns in
      (generatedCustomCols, (0 <? length generatedCustomCols)%nat)
  end.
(** Forced, because of an expression index, because of a generated column. *)
Definition shouldForceTablePartitioningForTable (table : NameTuple) (exprUKSet : TableSet)
    (generatedStoredCols : GeneratedColumns) : bool * bool * bool :=
  match StructMap.Get exprUKSet table with
  | Some _ => (true, true, false)
  | None => if tableHasUniqueIndexOnGenerated generatedStoredCols table then (true, false, true)
            else (false, false, false)
  end.

Section strategy.
Context (importerRole sourceDBType TargetDBType : string)
        (LookupTableName : string → result NameTuple).

Definition baseStrategy (globalKey : string) (exprUKSet : TableSet) (gen : GeneratedColumns)
    (t : NameTuple) : cdcPartitionKeyOverride :=
  if decide (globalKey = "auto") then
    if shouldForceTablePartitioning importerRole sourceDBType TargetDBType
    then mkOverride PARTITION_BY_TABLE []
    else if (shouldForceTablePartitioningForTable t exprUKSet gen).1.1
         then mkOverride PARTITION_BY_TABLE [] else mkOverride PARTITION_BY_PK []
  else mkOverride globalKey [].
(** A nil map argument is read as an empty one. *)
Definition resolveEffectiveCdcPartitionKeys (tableNames : list NameTuple) (globalKey : string)
    (overrides : option Strategies) (exprUKSet : option TableSet) (gen : option GeneratedColumns)
    : result Strategies :=
  let overrides := default StructMap.NewStructMap overrides in
  let exprUKSet := default StructMap.NewStructMap exprUKSet in
  let gen := default StructMap.NewStructMap gen in
  let base := foldl (λ r t, StructMap.Put r t (baseStrategy globalKey exprUKSet gen t))
                StructMap.NewStructMap tableNames in
  IterAll zeroOverride (λ r t o, StructMap.Put r t o) overrides base.

Definition addResolved (importTableSet : TableSet) (resolved : Strategies)
    (p : string * cdcPartitionKeyOverride) : result Strategies :=
  tuple ← match LookupTableName p.1 with
          | Ok t => Ok t
          | Err _ => Err "table not found in name registry"
          | Panic e => Panic e
          end;
  match StructMap.Get importTableSet tuple with
  | None => Err "table is not in the import table list"
  | Some _ =>
      match StructMap.Get resolved tuple with
      | Some _ => Err "table specified multiple times"
      | None => Ok (StructMap.Put resolved tuple p.2)
      end
  end.
Definition tableSetOf (l : list NameTuple) : TableSet :=
  foldl (λ s t, StructMap.Put s t true) StructMap.NewStructMap l.
Definition resolveCdcPartitionKeyOverrides (rawOverrides : gmap string cdcPartitionKeyOverride)
    (importTableList : list NameTuple) : result Strategies :=
  if (size rawOverrides =? 0)%nat then Ok StructMap.NewStructMap
  else foldM (addResolved (tableSetOf importTableList)) StructMap.NewStructMap
         (map_to_list rawOverrides).

(** The iteration stops at the first override that is not table-wise. *)
Definition needsNonTablePartitionKeyChecks (cdcPartitionKey : string) (overrides : Strategies)
    : result bool :=
  if negb (bool_decide (cdcPartitionKey = PARTITION_BY_TABLE)) then Ok true
  else StructMap.IterKV (map_to_list (StructMap.kmap overrides)) zeroOverride
         (λ needed _ o, if negb (bool_decide (Strategy o = PARTITION_BY_TABLE))
                        then Ok (false, true) else Ok (true, needed)) overrides false.

(** ** Facts about the target and the source *)
Context (GetTablesHavingExpressionUniqueIndexes : list NameTuple → result (list NameTuple))
        (TableToGeneratedStoredColumns : option (gmap string (list string))).

Definition getExpressionUniqueIndexTables (tableNames : list NameTuple) : result (list NameTuple) :=
  if negb (bool_decide (TargetDBType = YUGABYTEDB)) then Ok []
  else GetTablesHavingExpressionUniqueIndexes tableNames.
Definition getExpressionUniqueIndexTablesIfRequired (tableNames : list NameTuple)
    (overrides : Strategies) (cdcPartitionKey : string) (isFirstRun : bool)
    (importDataStatus : option ImportDataStatusRecord) : result TableSet :=
  needsExprUKCheck ← needsNonTablePartitionKeyChecks cdcPartitionKey overrides;
  if negb needsExprUKCheck then Ok StructMap.NewStructMap
  else
    tables ← (if isFirstRun then getExpressionUniqueIndexTables tableNames
              else match importDataStatus with
                   | None => Err "import data status record not found"
                   | Some st =>
                       match CdcExpressionUniqueIndexTables st with
                       | None => Err "cdc expression unique index tables not found"
                       | Some keys => mapM_result LookupTableName keys
                       end
                   end);
    Ok (tableSetOf tables).

Definition buildGeneratedStoredColumns (sourceGenCols : list string)
    (hasUniqueIndexOnTarget : gset string) : list GeneratedStoredColumn :=
  map (λ name, mkGenerated name (bool_decide (name ∈ hasUniqueIndexOnTarget))) sourceGenCols.
(** [None]: the exporter that wrote the directory did not capture the columns. *)
Definition getGeneratedStoredColumnsHybrid (tableNames : list NameTuple)
    (tableToUniqueIndexes : StructMap.t NameTuple (list UniqueIndex)) : GeneratedColumns :=
  match TableToGeneratedStoredColumns with
  | None => StructMap.NewStructMap
  | Some captured =>
      let colsOf t := default [] (captured !! ForKey t) in
      foldl (λ r t,
        let hasUniqueIndexOnTarget : gset string :=
          list_to_set (concat (map IndexColumns (default [] (StructMap.Get tableToUniqueIndexes t)))) in
        StructMap.Put r t (buildGeneratedStoredColumns (colsOf t) hasUniqueIndexOnTarget))
        StructMap.NewStructMap (filter (λ t, colsOf t ≠ []) tableNames)
  end.
Definition getGeneratedStoredColumnsIfRequired (tableNames : list NameTuple) (overrides : Strategies)
    (cdcPartitionKey : string) (tableToUniqueIndexes : StructMap.t NameTuple (list UniqueIndex))
    : result GeneratedColumns :=
  needsCheck ← needsNonTablePartitionKeyChecks cdcPartitionKey overrides;
  Ok (if negb needsCheck then StructMap.NewStructMap
      else getGeneratedStoredColumnsHybrid tableNames tableToUniqueIndexes).

(** ** The guardrails *)
Context (GetListOfTableAttributes : NameTuple → result (list string)).

(** One turn of the loop over the custom columns of a table. *)
Definition matchColumn (tableColumns : list string) (acc : list string * list string * list string)
    (c : string) : result (list string * list string * list string) :=
  let '(overrideColumns, missing, ambiguous) := acc in
  m ← FindBestMatchingColumnName TargetDBType c tableColumns;
  Ok (match m with
      | Found best => (overrideColumns ++ [best], missing, ambiguous)
      | ErrAmbiguousColumnName _ _ => (overrideColumns, missing, ambiguous ++ [c])
      | ErrColumnNameNotFound _ _ => (overrideColumns, missing ++ [c], ambiguous)
      end).
Record finalizeState : Type := mkFinalize {
  tableToPartitionKeyOverrideMap : Strategies;
  missingColumnsOnTables : gmap string (list string);
  ambiguousColumnsOnTables : gmap string (list string) }.
Definition finalizeTable (s : finalizeState) (t : NameTuple) : result finalizeState :=
  let override := default zeroOverride (StructMap.Get (tableToPartitionKeyOverrideMap s) t) in
  tableColumns ← GetListOfTableAttributes t;
  '(overrideColumns, missing, ambiguous) ← foldM (matchColumn tableColumns) ([], [], []) (Columns override);
  out ← ForOutput t;
  Ok (if negb (length missing =? 0)%nat then
        mkFinalize (tableToPartitionKeyOverrideMap s)
          (<[out := sort_strings missing]> (missingColumnsOnTables s)) (ambiguousColumnsOnTables s)
      else if negb (length ambiguous =? 0)%nat then
        mkFinalize (tableToPartitionKeyOverrideMap s) (missingColumnsOnTables s)
          (<[out := sort_strings ambiguous]> (ambiguousColumnsOnTables s))
      else
        mkFinalize
          (StructMap.Put (tableToPartitionKeyOverrideMap s) t (mkOverride (Strategy override) overrideColumns))
          (missingColumnsOnTables s) (ambiguousColumnsOnTables s)).
Definition checkGuardrail (m : Strategies) (exprUKSet : TableSet) (gen : GeneratedColumns)
    (_ : unit) (t : NameTuple) : result unit :=
  let override := default zeroOverride (StructMap.Get m t) in
  if decide (Strategy override = PARTITION_BY_TABLE) then Ok ()
  else
    let '(ok, isExprUK, isGeneratedStoredColumn) := shouldForceTablePartitioningForTable t exprUKSet gen in
    if ok && isExprUK then Err "not allowed: expression-based unique index"
    else if ok && isGeneratedStoredColumn then Err "not allowed: unique index on a stored generated column"
    else if decide (Strategy override = PARTITION_BY_CUSTOM) then
      if (tableHasGeneratedColumn gen t (Columns override)).2
      then Err "not allowed: custom key column is a stored generated column" else Ok ()
    else Ok ().
(** The strategies with the custom columns in the target's case. *)
Definition validateAndFinalizeCDCPartitionKeysPerTable (m : Strategies) (tableNames : list NameTuple)
    (exprUKSet : TableSet) (gen : GeneratedColumns) : result Strategies :=
  customTables ← IterAll zeroOverride (λ customTables t override,
      if decide (Strategy override = PARTITION_BY_CUSTOM) then customTables ++ [t] else customTables) m [];
  s ← foldM finalizeTable (mkFinalize m ∅ ∅) customTables;
  if negb (size (missingColumnsOnTables s) =? 0)%nat || negb (size (ambiguousColumnsOnTables s) =? 0)%nat
  then Err "custom key column(s) do not exist or are ambiguous"
  else
    _ ← foldM (checkGuardrail (tableToPartitionKeyOverrideMap s) exprUKSet gen) () tableNames;
    Ok (tableToPartitionKeyOverrideMap s).

(** ** Computing, persisting, loading *)
Context (cdcPartitionKey cdcPartitionKeyOverrides : string).
Definition changeStreamingIsEnabled (exportType : string) : bool :=
  bool_decide (exportType = "changes-only") || bool_decide (exportType = "snapshot-and-changes").

Definition computeCdcPartitioningStrategyPerTable (tableNames : list NameTuple) (isFirstRun : bool)
    (importDataStatus : option ImportDataStatusRecord)
    (tableToUniqueIndexes : StructMap.t NameTuple (list UniqueIndex)) : result (Strategies * list string) :=
  rawOverrides ← parseCdcPartitionKeyOverrides cdcPartitionKeyOverrides;
  overrides ← resolveCdcPartitionKeyOverrides rawOverrides tableNames;
  exprUKSet ← getExpressionUniqueIndexTablesIfRequired tableNames overrides cdcPartitionKey isFirstRun importDataStatus;
  gen ← getGeneratedStoredColumnsIfRequired tableNames overrides cdcPartitionKey tableToUniqueIndexes;
  m ← resolveEffectiveCdcPartitionKeys tableNames cdcPartitionKey (Some overrides) (Some exprUKSet) (Some gen);
  m ← validateAndFinalizeCDCPartitionKeysPerTable m tableNames exprUKSet gen;
  Ok (m, StructMap.Keys exprUKSet).
Definition toMetadbMap (m : Strategies) : result (gmap string cdcPartitionKeyOverride) :=
  IterAll zeroOverride (λ acc t o, <[ForKey t := mkOverride (Strategy o) (Columns o)]> acc) m ∅.
(** The strategies and the record as the metadata database then holds it. *)
Definition computeAndPersistCdcPartitioningStrategyPerTable (tableNames : list NameTuple)
    (importDataStatus : ImportDataStatusRecord)
    (tableToUniqueIndexes : StructMap.t NameTuple (list UniqueIndex))
    : result (Strategies * ImportDataStatusRecord) :=
  '(m, exprUKKeysForStorage) ← computeCdcPartitioningStrategyPerTable tableNames true (Some importDataStatus) tableToUniqueIndexes;
  metadbMap ← toMetadbMap m;
  Ok (m, mkStatus (Some metadbMap) (Some exprUKKeysForStorage) (CdcPartitionKeyOverridesConfig importDataStatus)).

Definition loadPartitionKey (r : Strategies) (p : string * cdcPartitionKeyOverride) : result Strategies :=
  tuple ← LookupTableName p.1; Ok (StructMap.Put r tuple (mkOverride (Strategy p.2) (Columns p.2))).
Definition checkLoaded (r : Strategies) (_ : unit) (t : NameTuple) : result unit :=
  match StructMap.Get r t with
  | None => Err "cdc partitioning strategy not found for table"
  | Some o => if bool_decide (Strategy o = PARTITION_BY_CUSTOM) && (length (Columns o) =? 0)%nat
              then Err "cdc custom partition key columns not found for table" else Ok ()
  end.
Definition getCdcPartitioningStrategyPerTable (importDataStatus : option ImportDataStatusRecord)
    (tableNames : list NameTuple) : result Strategies :=
  if shouldForceTablePartitioning importerRole sourceDBType TargetDBType
  then Ok (foldl (λ r t, StructMap.Put r t (mkOverride PARTITION_BY_TABLE [])) StructMap.NewStructMap tableNames)
  else
    match importDataStatus with
    | None => Err "import data status record not found"
    | Some st =>
        match TableToCDCPartitionKey st with
        | None => Err "cdc partitioning strategy per table not found in metadb"
        | Some stored =>
            r ← foldM loadPartitionKey StructMap.NewStructMap (map_to_list stored);
            _ ← foldM (checkLoaded r) () tableNames;
            Ok r
        end
    end.

(** ** Resume *)
Definition diffTable (stored : gmap string cdcPartitionKeyOverride)
    (acc : list NameTuple * list string) (t : NameTuple) (override : cdcPartitionKeyOverride)
    : list NameTuple * list string :=
  let '(changed, missingInStored) := acc in
  let compareColumns missingInStored oldColumns :=
    if bool_decide (Strategy override = PARTITION_BY_CUSTOM)
       && negb (bool_decide (oldColumns = Columns override))
    then (changed ++ [t], missingInStored) else (changed, missingInStored) in
  match stored !! ForKey t with
  | None => compareColumns (missingInStored ++ [ForKey t]) []
  | Some p => if decide (Strategy p = Strategy override)
              then compareColumns missingInStored (Columns p)
              else (changed ++ [t], missingInStored)
  end.
Definition checkResolved (resolved : Strategies) (missingInResolved : list string) (storedTable : string)
    : result (list string) :=
  tuple ← LookupTableName storedTable;
  Ok (match StructMap.Get resolved tuple with
      | Some _ => missingInResolved
      | None => missingInResolved ++ [storedTable]
      end).
Definition diffCdcPartitioningStrategy (resolved : Strategies)
    (stored : gmap string cdcPartitionKeyOverride) : result unit :=
  '(changed, missingInStored) ← IterAll zeroOverride (diffTable stored) resolved ([], []);
  missingInResolved ← foldM (checkResolved resolved) [] (map_to_list stored).*1;
  if (0 <? length missingInStored)%nat || (0 <? length missingInResolved)%nat || (0 <? length changed)%nat
  then Err "change in cdc-partition-key-overrides in between runs detected" else Ok ().
Definition validateCdcPartitioningStrategyUnchanged (tableNames : list NameTuple)
    (importDataStatus : ImportDataStatusRecord)
    (tableToUniqueIndexes : StructMap.t NameTuple (list UniqueIndex)) : result unit :=
  if decide (CdcPartitionKeyOverridesConfig importDataStatus = cdcPartitionKeyOverrides) then Ok ()
  else
    r ← computeCdcPartitioningStrategyPerTable tableNames false (Some importDataStatus) tableToUniqueIndexes;
    diffCdcPartitioningStrategy r.1 (default ∅ (TableToCDCPartitionKey importDataStatus)).
(** The record after the call; [None] before and after: there is none. *)
Definition prepareCdcPartitionKey (importType : string) (importDataStatus : option ImportDataStatusRecord)
    (tableNames : list NameTuple) (tableToUniqueIndexes : StructMap.t NameTuple (list UniqueIndex))
    : result (option ImportDataStatusRecord) :=
  if negb (bool_decide (importerRole = TARGET_DB_IMPORTER_ROLE))
     || negb (changeStreamingIsEnabled importType) || negb (bool_decide (sourceDBType = POSTGRESQL))
  then Ok importDataStatus
  else
    match importDataStatus with
    | None => Err "import data status record not found"
    | Some st =>
        match TableToCDCPartitionKey st with
        | Some _ => _ ← validateCdcPartitioningStrategyUnchanged tableNames st tableToUniqueIndexes; Ok (Some st)
        | None =>
            r ← computeAndPersistCdcPartitioningStrategyPerTable tableNames st tableToUniqueIndexes;
            Ok (Some r.2)
        end
    end.

(** The check of the two flags when the command starts (cmd/import.go).  The
    record's own fields [ImportDataStarted] and [CdcPartitioningStrategyConfig]
    are arguments, [None] when there is no record. *)
Definition validCdcPartitionKeys : list string := [PARTITION_BY_PK; PARTITION_BY_TABLE; "auto"].
Definition validateCdcPartitionKeyFlags (importType : string) (globalPassed overridesPassed startClean : bool)
    (importDataStatus : option (bool * string)) : result unit :=
  let anyPassed := globalPassed || overridesPassed in
  if negb (bool_decide (importerRole = TARGET_DB_IMPORTER_ROLE))
     || negb (bool_decide (TargetDBType = YUGABYTEDB)) then
    if anyPassed then Err "only supported for import data to target" else Ok ()
  else if negb (changeStreamingIsEnabled importType) then
    if anyPassed then Err "not supported for offline migration" else Ok ()
  else if negb (bool_decide (sourceDBType = POSTGRESQL)) && anyPassed then
    Err "only supported for PostgreSQL source"
  else if decide (cdcPartitionKey = "") then Err "cdc-partition-key is required"
  else if negb (bool_decide (cdcPartitionKey ∈ validCdcPartitionKeys)) then Err "invalid cdc-partition-key"
  else
    _ ← parseCdcPartitionKeyOverrides cdcPartitionKeyOverrides;
    match importDataStatus with
    | None => Ok ()
    | Some (ImportDataStarted, CdcPartitioningStrategyConfig) =>
        if negb ImportDataStarted || startClean then Ok ()
        else if decide (CdcPartitioningStrategyConfig = "") then Err "resuming from an earlier version"
        else if negb (bool_decide (cdcPartitionKey = CdcPartitioningStrategyConfig))
        then Err "changing cdc-partition-key is not allowed" else Ok ()
    end.

(** ** What the resolved strategies are *)

Lemma IterAll_eq {V S} (zero : V) (f : S → NameTuple → V → S) (m : StructMap.t NameTuple V) (s : S) :
  StructMap.wf m →
  IterAll zero f m s =
    Ok (foldl (λ s p, f s p.2 (default zero (StructMap.Get m p.2))) s (map_to_list (StructMap.kmap m))).
Proof.
  intros Hm. unfold IterAll, StructMap.IterKV. apply StructMap.iter_loop_fold; [done|].
  intros k key Hin. by apply elem_of_map_to_list in Hin.
Qed.
Lemma Get_key {V} (m : StructMap.t NameTuple V) t t' :
  ForKey t = ForKey t' → StructMap.Get m t = StructMap.Get m t'.
Proof. unfold StructMap.Get, Key, NameTuple_Keyer. by intros ->. Qed.
Lemma baseStrategy_key g eu gen t t' :
  ForKey t = ForKey t' → baseStrategy g eu gen t = baseStrategy g eu gen t'.
Proof.
  intros H. unfold baseStrategy, shouldForceTablePartitioningForTable, tableHasUniqueIndexOnGenerated.
  by rewrite (Get_key eu t t' H), (Get_key gen t t' H).
Qed.

(** An override wins; every other table of the list gets the base strategy. *)
Lemma resolveEffective_spec tableNames g ov eu gen :
  StructMap.wf ov → ∃ m,
  resolveEffectiveCdcPartitionKeys tableNames g (Some ov) (Some eu) (Some gen) = Ok m ∧
  StructMap.wf m ∧
  ∀ k, StructMap.Get m k =
    match StructMap.Get ov k with
    | Some o => Some o
    | None => if decide (ForKey k ∈ map ForKey tableNames) then Some (baseStrategy g eu gen k) else None
    end.
Proof.
  intros Hov. unfold resolveEffectiveCdcPartitionKeys. cbn [default]. rewrite IterAll_eq by done.
  eexists. split; [reflexivity|]. split.
  { apply StructMap.wf_foldl_Put. apply (StructMap.wf_foldl_Put (λ t, t)), StructMap.wf_New. }
  intros k.
  rewrite (StructMap.Get_foldl_Put (λ p : string * NameTuple, p.2) _ _ _ _ (default zeroOverride (StructMap.Get ov k)))
    by (intros a _ Ha; cbn beta; f_equal; by apply Get_key).
  rewrite (StructMap.Get_foldl_Put (λ t : NameTuple, t) _ _ _ _ (baseStrategy g eu gen k))
    by (intros a _ Ha; by apply baseStrategy_key).
  pose proof (StructMap.Get_entries ov k Hov) as He.
  destruct (StructMap.Get ov k) as [o|] eqn:Ho.
  - by rewrite decide_True by (apply He; eauto).
  - rewrite decide_False; [done|]. intros H. apply He in H as [? [=]].
Qed.

(** The overrides are filed well and carry what was parsed. *)
Lemma parse_columns v o :
  parseCdcPartitionKeyOverrideValue v = Ok o → Strategy o = PARTITION_BY_CUSTOM → Columns o ≠ [].
Proof.
  unfold parseCdcPartitionKeyOverrideValue. case_decide; [by intros [= <-]|]. case_decide; [by intros [= <-]|].
  destruct (_ || _); [done|]. case_decide; [done|]. rewrite bind_Ok.
  intros (cols & Hc & [= <-]) _. cbn [Columns].
  pose proof (Split_nonempty "," (TrimSpace (strip_ends v))) as Hs.
  destruct (Split "," (TrimSpace (strip_ends v))) as [|w ws]; [done|].
  cbn [foldM] in Hc. apply bind_Ok in Hc as (acc & Ha & Hc).
  assert (acc ≠ []) as Hacc.
  { unfold addColumn in Ha. repeat case_decide; try done. by injection Ha as <-. }
  refine (foldM_ind (λ l : list string, l ≠ []) _ _ _ _ _ Hacc Hc). intros s x s' _ Hne.
  unfold addColumn. repeat case_decide; try done. intros [= <-]. by destruct s.
Qed.
Definition customHasColumns (o : cdcPartitionKeyOverride) : Prop :=
  Strategy o = PARTITION_BY_CUSTOM → Columns o ≠ [].
Lemma parseOverrides_columns s raw :
  parseCdcPartitionKeyOverrides s = Ok raw → map_Forall (λ _, customHasColumns) raw.
Proof.
  unfold parseCdcPartitionKeyOverrides. case_decide; [intros [= <-]; apply map_Forall_empty|].
  apply (foldM_ind (map_Forall (λ _, customHasColumns))); [|apply map_Forall_empty]. intros acc e acc' _ Hacc. unfold addOverrideEntry.
  case_decide; [by intros [= <-]|]. destruct (SplitN2 _ _) as [p0 [p1|]]; [|done].
  destruct (_ || _); [done|]. rewrite bind_Ok. intros (o & Ho & Hput).
  destruct (acc !! TrimSpace p0) eqn:Hl; [done|]. injection Hput as <-.
  apply map_Forall_insert_2; [|done]. intros Hc. by eapply parse_columns.
Qed.
Lemma resolveOverrides_spec raw tableNames ov :
  map_Forall (λ _, customHasColumns) raw →
  resolveCdcPartitionKeyOverrides raw tableNames = Ok ov →
  StructMap.wf ov ∧
  ∀ k o, StructMap.Get ov k = Some o → customHasColumns o ∧ ForKey k ∈ map ForKey tableNames.
Proof.
  intros Hraw. unfold resolveCdcPartitionKeyOverrides.
  destruct (_ =? _)%nat; [intros [= <-]; split; [apply StructMap.wf_New|by intros k o [=]]|].
  apply (foldM_ind (λ ov, StructMap.wf ov ∧ ∀ k o, StructMap.Get ov k = Some o →
           customHasColumns o ∧ ForKey k ∈ map ForKey tableNames));
    [|split; [apply StructMap.wf_New|by intros k o [=]]].
  intros r [name o] r' Hin [Hwf Hr]. unfold addResolved. rewrite bind_Ok. intros (t & _ & Hput).
  cbn [snd] in Hput.
  destruct (StructMap.Get (tableSetOf tableNames) t) eqn:Hset; [|done].
  destruct (StructMap.Get r t); [done|]. injection Hput as <-.
  split; [by apply StructMap.wf_Put|]. intros k o'. rewrite StructMap.Get_Put.
  case_decide as Hk; [|apply Hr]. intros [= <-]. split.
  - apply elem_of_map_to_list in Hin. by apply (Hraw name o).
  - unfold tableSetOf in Hset.
    rewrite (StructMap.Get_foldl_Put (λ t : NameTuple, t) (λ _, true) _ _ _ true) in Hset by done.
    case_decide as Hd; [|done]. change (Key k) with (ForKey k) in Hk. by rewrite <- Hk.
Qed.

(** The checks are skipped only when every strategy is table-wise. *)
Lemma needsChecks_false g ov :
  StructMap.wf ov → needsNonTablePartitionKeyChecks g ov = Ok false →
  g = PARTITION_BY_TABLE ∧ ∀ k o, StructMap.Get ov k = Some o → Strategy o = PARTITION_BY_TABLE.
Proof.
  intros Hwf. unfold needsNonTablePartitionKeyChecks.
  destruct (bool_decide (g = _)) eqn:Hg; [|done]. apply bool_decide_eq_true in Hg. cbn [negb].
  intros Hl. split; [done|].
  assert (∀ order, StructMap.IterKV order zeroOverride
     (λ needed _ o, if negb (bool_decide (Strategy o = PARTITION_BY_TABLE))
                    then Ok (false, true) else Ok (true, needed)) ov false = Ok false →
     ∀ p, p ∈ order → Strategy (default zeroOverride (StructMap.vmap ov !! p.1)) = PARTITION_BY_TABLE) as Hloop.
  { unfold StructMap.IterKV. induction order as [|[k key] order IH]; [set_solver|]. cbn [StructMap.iter_loop].
    destruct (bool_decide _) eqn:Hb; [|done]. apply bool_decide_eq_true in Hb.
    intros Ho p [-> | Hp]%elem_of_cons; [done|by apply IH]. }
  intros k o Ho. pose proof Ho as Hs. unfold StructMap.Get in Ho.
  assert (is_Some (StructMap.kmap ov !! Key k)) as [key Hk] by (apply (proj1 Hwf); eauto).
  apply elem_of_map_to_list in Hk. specialize (Hloop _ Hl _ Hk). cbn [fst] in Hloop.
  by rewrite Ho in Hloop.
Qed.

(** ** The custom columns in the target's spelling *)
Definition matched (tableColumns : list string) (c best : string) : Prop :=
  FindBestMatchingColumnName TargetDBType c tableColumns = Ok (Found best).
Lemma matchColumns_all tableColumns columns acc res :
  foldM (matchColumn tableColumns) acc columns = Ok res →
  res.1.2 = [] → res.2 = [] →
  acc.1.2 = [] ∧ acc.2 = [] ∧ ∃ best, Forall2 (matched tableColumns) columns best ∧ res.1.1 = acc.1.1 ++ best.
Proof.
  revert acc. induction columns as [|c columns IH]; intros [[ok mis] amb]; cbn [foldM].
  { intros [= <-] ? ?. split; [done|]. split; [done|]. exists []. by rewrite app_nil_r. }
  rewrite bind_Ok. intros (acc' & Hm & Hrest) H1 H2.
  destruct (IH _ Hrest H1 H2) as (E1 & E2 & best & Hf & Hr). clear IH Hrest.
  unfold matchColumn in Hm. apply bind_Ok in Hm as (m & Hm & [= <-]).
  destruct m as [b|? ?|? ?]; cbn [fst snd] in *; [|by apply app_nil in E2 as [_ [=]]|by apply app_nil in E1 as [_ [=]]].
  split; [done|]. split; [done|]. exists (b :: best). split; [by constructor|].
  by rewrite Hr, <- app_assoc.
Qed.
Definition noMismatch (s : finalizeState) : Prop :=
  missingColumnsOnTables s = ∅ ∧ ambiguousColumnsOnTables s = ∅.
Lemma finalizeTable_ok s t s' :
  finalizeTable s t = Ok s' → noMismatch s' →
  noMismatch s ∧ ∃ cols best,
    GetListOfTableAttributes t = Ok cols ∧
    Forall2 (matched cols) (Columns (default zeroOverride (StructMap.Get (tableToPartitionKeyOverrideMap s) t))) best ∧
    tableToPartitionKeyOverrideMap s' =
      StructMap.Put (tableToPartitionKeyOverrideMap s) t
        (mkOverride (Strategy (default zeroOverride (StructMap.Get (tableToPartitionKeyOverrideMap s) t))) best).
Proof.
  unfold finalizeTable. rewrite bind_Ok. intros (cols & Hcols & H) [N1 N2].
  apply bind_Ok in H as ([[best mis] amb] & Hm & H). apply bind_Ok in H as (out & _ & [= <-]).
  destruct mis as [|x mis]; cbn [length Nat.eqb negb] in *; cycle 1.
  { cbn [missingColumnsOnTables] in N1. by apply insert_non_empty in N1. }
  destruct amb as [|x amb]; cbn [length Nat.eqb negb] in *; cycle 1.
  { cbn [ambiguousColumnsOnTables] in N2. by apply insert_non_empty in N2. }
  split; [done|].
  destruct (matchColumns_all _ _ _ _ Hm eq_refl eq_refl) as (_ & _ & b & Hf & Hb).
  cbn [fst snd app] in Hb. subst b. by exists cols, best.
Qed.
(** What finalization leaves under a key: the columns of the visited tables in the
    target's spelling, everything else as it was. *)
Lemma finalizeTables_ok l s s' :
  foldM finalizeTable s l = Ok s' → noMismatch s' → NoDup (map ForKey l) →
  StructMap.wf (tableToPartitionKeyOverrideMap s) →
  noMismatch s ∧ StructMap.wf (tableToPartitionKeyOverrideMap s') ∧
  ∀ k,
    (ForKey k ∉ map ForKey l →
       StructMap.Get (tableToPartitionKeyOverrideMap s') k = StructMap.Get (tableToPartitionKeyOverrideMap s) k) ∧
    (ForKey k ∈ map ForKey l → ∃ t cols best,
       ForKey t = ForKey k ∧ GetListOfTableAttributes t = Ok cols ∧
       Forall2 (matched cols) (Columns (default zeroOverride (StructMap.Get (tableToPartitionKeyOverrideMap s) k))) best ∧
       StructMap.Get (tableToPartitionKeyOverrideMap s') k =
         Some (mkOverride (Strategy (default zeroOverride (StructMap.Get (tableToPartitionKeyOverrideMap s) k))) best)).
Proof.
  revert s. induction l as [|t l IH]; intros s; cbn [foldM map].
  { intros [= <-] Hn _ Hwf. split; [done|]. split; [done|]. intros k. split; [done|set_solver]. }
  rewrite bind_Ok. intros (s1 & H1 & H2) Hn [Hni Hnd]%NoDup_cons Hwf.
  assert (noMismatch s1) as Hn1.
  { clear IH Hni Hnd H1. revert s1 H2. induction l as [|x l IH]; intros s1; cbn [foldM]; [by intros [= <-]|].
    rewrite bind_Ok. intros (s2 & H1 & H2). by apply (finalizeTable_ok _ _ _ H1), IH. }
  destruct (finalizeTable_ok _ _ _ H1 Hn1) as (Hn0 & cols & best & Hcols & Hf & Hmap).
  assert (StructMap.wf (tableToPartitionKeyOverrideMap s1)) as Hwf1 by (rewrite Hmap; by apply StructMap.wf_Put).
  destruct (IH s1 H2 Hn Hnd Hwf1) as (_ & Hwf' & HIH). clear IH.
  split; [done|]. split; [done|]. intros k. destruct (HIH k) as [Hout Hin]. rewrite Hmap in Hout, Hin.
  rewrite StructMap.Get_Put in Hout, Hin. change (Key t) with (ForKey t) in *. change (Key k) with (ForKey k) in *.
  destruct (decide (ForKey t = ForKey k)) as [Hk|Hk].
  - split; [rewrite elem_of_cons; naive_solver|]. intros _. rewrite <- Hk in Hout. rewrite Hout by done.
    rewrite <- (Get_key (tableToPartitionKeyOverrideMap s) t k Hk). by exists t, cols, best.
  - rewrite elem_of_cons. split; [intros Hni'; apply Hout; tauto|]. intros [?|?]; [congruence|by apply Hin].
Qed.

Lemma foldl_collect {A B} (P : A → Prop) `{∀ a, Decision (P a)} (g : A → B) l acc :
  foldl (λ acc a, if decide (P a) then acc ++ [g a] else acc) acc l = acc ++ map g (filter P l).
Proof.
  revert acc. induction l as [|a l IH]; intros acc; cbn [foldl]; [by rewrite app_nil_r|].
  rewrite IH, filter_cons. case_decide; [|done]. by rewrite <- app_assoc.
Qed.
Lemma foldM_unit_all {A} (f : unit → A → result unit) l :
  foldM f () l = Ok () → ∀ a, a ∈ l → f () a = Ok ().
Proof.
  induction l as [|x l IH]; cbn [foldM]; [set_solver|]. rewrite bind_Ok. intros ([] & Hx & Hl).
  intros a [->|Ha]%elem_of_cons; [done|by apply IH].
Qed.
Lemma foldM_unit_intro {A} (f : unit → A → result unit) l :
  (∀ a, a ∈ l → f () a = Ok ()) → foldM f () l = Ok ().
Proof.
  induction l as [|x l IH]; cbn [foldM]; [done|]. intros H. rewrite (H x) by (by left).
  cbn [mbind result_bind]. apply IH. intros; apply H; by right.
Qed.

(** Finalization respells the custom columns and changes nothing else. *)
Definition finalizedAs (o o' : cdcPartitionKeyOverride) (k : NameTuple) : Prop :=
  Strategy o' = Strategy o ∧
  (Strategy o ≠ PARTITION_BY_CUSTOM → o' = o) ∧
  (Strategy o = PARTITION_BY_CUSTOM → ∃ t cols,
     ForKey t = ForKey k ∧ GetListOfTableAttributes t = Ok cols ∧
     Forall2 (matched cols) (Columns o) (Columns o')).
Lemma validateAndFinalize_ok m tableNames eu gen F :
  StructMap.wf m →
  validateAndFinalizeCDCPartitionKeysPerTable m tableNames eu gen = Ok F →
  StructMap.wf F ∧
  (∀ k, match StructMap.Get m k, StructMap.Get F k with
        | None, None => True
        | Some o, Some o' => finalizedAs o o' k
        | _, _ => False
        end) ∧
  (∀ t, t ∈ tableNames → checkGuardrail F eu gen () t = Ok ()).
Proof.
  intros Hwf. unfold validateAndFinalizeCDCPartitionKeysPerTable. rewrite IterAll_eq by done.
  rewrite (foldl_collect (λ p : string * NameTuple,
    Strategy (default zeroOverride (StructMap.Get m p.2)) = PARTITION_BY_CUSTOM) snd).
  cbn [mbind result_bind app]. set (custom := map snd _).
  intros H. apply bind_Ok in H as (s & Hs & H).
  destruct (negb _ || negb _) eqn:Hn; [done|].
  assert (noMismatch s) as Hno.
  { apply orb_false_iff in Hn as [N1 N2]. apply negb_false_iff, Nat.eqb_eq in N1, N2.
    by split; apply map_size_empty_inv. }
  apply bind_Ok in H as ([] & Hg & [= <-]).
  assert (NoDup (map ForKey custom)) as Hnd.
  { unfold custom. rewrite map_map. eapply sublist_NoDup; [apply (StructMap.entries_NoDup m Hwf)|].
    apply fmap_sublist, sublist_filter. }
  assert (∀ k, ForKey k ∈ map ForKey custom ↔
     Strategy (default zeroOverride (StructMap.Get m k)) = PARTITION_BY_CUSTOM) as Hin.
  { intros k. unfold custom. rewrite map_map, list_elem_of_fmap. setoid_rewrite list_elem_of_filter. split.
    - intros (p & Hp & Hst & _). by rewrite (Get_key m k p.2 Hp).
    - intros Hst. assert (is_Some (StructMap.Get m k)) as Hk by (by destruct (StructMap.Get m k); eauto).
      apply (StructMap.Get_entries m k Hwf), list_elem_of_fmap in Hk as (p & Hp & Hpin).
      exists p. split; [done|]. split; [|done]. by rewrite <- (Get_key m k p.2 Hp). }
  destruct (finalizeTables_ok _ _ _ Hs Hno Hnd Hwf) as (_ & HF & Hk). cbn [tableToPartitionKeyOverrideMap] in Hk.
  split; [done|]. split; [|by apply foldM_unit_all].
  intros k. destruct (Hk k) as [Hout Hcus]. rewrite Hin in Hout, Hcus.
  destruct (StructMap.Get m k) as [o|] eqn:Ho; cbn [default] in *; [|by rewrite Hout].
  destruct (decide (Strategy o = PARTITION_BY_CUSTOM)) as [Hc|Hc].
  - destruct (Hcus Hc) as (t & cols & best & Ht & Hcols & Hf & ->).
    split; [done|]. split; [done|]. intros _. by exists t, cols.
  - rewrite (Hout Hc). by split.
Qed.

(** ** The guarantees of a successful computation *)
Definition effective (tableNames : list NameTuple) (ov : Strategies) (eu : TableSet)
    (gen : GeneratedColumns) (k : NameTuple) : option cdcPartitionKeyOverride :=
  match StructMap.Get ov k with
  | Some o => Some o
  | None => if decide (ForKey k ∈ map ForKey tableNames)
            then Some (baseStrategy cdcPartitionKey eu gen k) else None
  end.
Record computed (tableNames : list NameTuple) (isFirstRun : bool) (st : option ImportDataStatusRecord)
    (uix : StructMap.t NameTuple (list UniqueIndex)) (ov : Strategies) (eu : TableSet)
    (gen : GeneratedColumns) (m : Strategies) (keys : list string) : Prop := mkComputed {
  co_wf : StructMap.wf ov;
  co_ov : ∀ k o, StructMap.Get ov k = Some o → customHasColumns o ∧ ForKey k ∈ map ForKey tableNames;
  co_eu : getExpressionUniqueIndexTablesIfRequired tableNames ov cdcPartitionKey isFirstRun st = Ok eu;
  co_gen : getGeneratedStoredColumnsIfRequired tableNames ov cdcPartitionKey uix = Ok gen;
  co_keys : keys = StructMap.Keys eu;
  co_wfm : StructMap.wf m;
  co_eff : ∀ k, match effective tableNames ov eu gen k, StructMap.Get m k with
                | None, None => True
                | Some o, Some o' => finalizedAs o o' k
                | _, _ => False
                end;
  co_guard : ∀ t, t ∈ tableNames → checkGuardrail m eu gen () t = Ok () }.
Lemma compute_ok tableNames first st uix m keys :
  computeCdcPartitioningStrategyPerTable tableNames first st uix = Ok (m, keys) →
  ∃ ov eu gen, computed tableNames first st uix ov eu gen m keys.
Proof.
  unfold computeCdcPartitioningStrategyPerTable. rewrite bind_Ok. intros (raw & Hraw & H).
  apply bind_Ok in H as (ov & Hov & H). apply bind_Ok in H as (eu & Heu & H).
  apply bind_Ok in H as (gen & Hgen & H).
  destruct (resolveOverrides_spec raw tableNames ov) as [Hwf Hcols]; [by eapply parseOverrides_columns|done|].
  destruct (resolveEffective_spec tableNames cdcPartitionKey ov eu gen Hwf) as (m0 & Hm0 & Hwf0 & Hget).
  apply bind_Ok in H as (m1 & Hm1 & H). pose proof (eq_trans (eq_sym Hm1) Hm0) as [= ->]. apply bind_Ok in H as (F & HF & [= <- <-]).
  destruct (validateAndFinalize_ok _ _ _ _ _ Hwf0 HF) as (HwfF & Heff & Hg).
  exists ov, eu, gen. split; try done. intros k. specialize (Heff k). by rewrite Hget in Heff.
Qed.

Definition generatedOf (t : NameTuple) : list string :=
  match TableToGeneratedStoredColumns with Some c => default [] (c !! ForKey t) | None => [] end.
Lemma hybrid_Get tableNames uix t :
  t ∈ tableNames →
  StructMap.Get (getGeneratedStoredColumnsHybrid tableNames uix) t =
    if decide (generatedOf t = []) then None
    else Some (buildGeneratedStoredColumns (generatedOf t)
           (list_to_set (concat (map IndexColumns (default [] (StructMap.Get uix t)))))).
Proof.
  intros Hin. unfold getGeneratedStoredColumnsHybrid, generatedOf.
  destruct TableToGeneratedStoredColumns as [captured|]; [|done].
  rewrite (StructMap.Get_foldl_Put (λ t : NameTuple, t) _ _ _ _
    (buildGeneratedStoredColumns (default [] (captured !! ForKey t))
       (list_to_set (concat (map IndexColumns (default [] (StructMap.Get uix t))))))).
  2:{ intros a _ Ha. change (ForKey a = ForKey t) in Ha. rewrite Ha. by rewrite (Get_key uix a t Ha). }
  assert (Key t ∈ map (λ a, Key a) (filter (λ t, default [] (captured !! ForKey t) ≠ []) tableNames)
    ↔ default [] (captured !! ForKey t) ≠ []) as Hiff.
  { rewrite list_elem_of_fmap. setoid_rewrite list_elem_of_filter. split.
    - intros (a & Ha & Hne & _). change (ForKey t = ForKey a) in Ha. by rewrite Ha.
    - intros Hne. by exists t. }
  destruct (decide (default [] (captured !! ForKey t) = [])) as [He|He].
  - rewrite decide_False; [done|]. rewrite Hiff. tauto.
  - by rewrite decide_True by (by apply Hiff).
Qed.
Lemma generated_unprotected tableNames uix t :
  t ∈ tableNames →
  tableHasUniqueIndexOnGenerated (getGeneratedStoredColumnsHybrid tableNames uix) t = false →
  ∀ c idxs idx, c ∈ generatedOf t → StructMap.Get uix t = Some idxs → idx ∈ idxs → c ∉ IndexColumns idx.
Proof.
  intros Hin Hf c idxs idx Hc Hidxs Hidx Hcol. unfold tableHasUniqueIndexOnGenerated in Hf.
  rewrite hybrid_Get in Hf by done. case_decide as He; [rewrite He in Hc; set_solver|].
  apply not_true_iff_false in Hf. apply Hf, existsb_exists. rewrite Hidxs. cbn [default].
  eexists. split.
  { apply list_elem_of_In, list_elem_of_fmap. exists c. by split. }
  cbn [InUniqueIndex]. apply bool_decide_eq_true, elem_of_list_to_set.
  apply list_elem_of_In, in_concat. exists (IndexColumns idx).
  split; [apply in_map|]; by apply list_elem_of_In.
Qed.
Lemma custom_not_generated tableNames uix t cols :
  t ∈ tableNames →
  (tableHasGeneratedColumn (getGeneratedStoredColumnsHybrid tableNames uix) t cols).2 = false →
  ∀ c, c ∈ cols → c ∉ generatedOf t.
Proof.
  intros Hin Hf c Hc Hg. unfold tableHasGeneratedColumn in Hf. rewrite hybrid_Get in Hf by done.
  case_decide as He; [rewrite He in Hg; set_solver|]. cbn [snd] in Hf.
  apply Nat.ltb_ge in Hf. 
  assert (c ∈ filter (λ col, existsb (λ g, bool_decide (gc_Name g = col))
    (buildGeneratedStoredColumns (generatedOf t)
       (list_to_set (concat (map IndexColumns (default [] (StructMap.Get uix t)))))) = true) cols) as Hx.
  { apply list_elem_of_filter. split; [|done]. apply existsb_exists. eexists. split.
    - apply list_elem_of_In, list_elem_of_fmap. exists c. by split.
    - by apply bool_decide_eq_true. }
  destruct (filter _ cols); [set_solver|cbn in Hf; lia].
Qed.

Lemma base_not_custom eu gen t :
  cdcPartitionKey ∈ validCdcPartitionKeys →
  Strategy (baseStrategy cdcPartitionKey eu gen t) ≠ PARTITION_BY_CUSTOM.
Proof.
  intros Hv. unfold baseStrategy. case_decide as Ha.
  - destruct (shouldForceTablePartitioning _ _ _); [done|].
    by destruct (shouldForceTablePartitioningForTable t eu gen).1.1.
  - cbn [Strategy]. intros Hc. rewrite Hc in Hv. revert Hv.
    apply (bool_decide_eq_false (PARTITION_BY_CUSTOM ∈ validCdcPartitionKeys)). vm_compute. reflexivity.
Qed.

Lemma computed_entry tableNames first st uix ov eu gen m keys k o :
  cdcPartitionKey ∈ validCdcPartitionKeys →
  computed tableNames first st uix ov eu gen m keys → StructMap.Get m k = Some o →
  customHasColumns o ∧ ForKey k ∈ map ForKey tableNames.
Proof.
  intros Hvalid [Hwf Hov _ _ _ _ Heff _] Ho. specialize (Heff k). rewrite Ho in Heff.
  destruct (effective tableNames ov eu gen k) as [e|] eqn:He; [|done].
  assert (customHasColumns e ∧ ForKey k ∈ map ForKey tableNames) as [Hec Hin].
  { unfold effective in He. destruct (StructMap.Get ov k) as [o'|] eqn:Hot.
    - injection He as <-. by apply (Hov k).
    - case_decide; [|done]. injection He as <-. split; [|done].
      intros Hcu. by apply base_not_custom in Hcu. }
  split; [|done]. destruct Heff as (Hs & _ & Hcust). intros Hcu.
  rewrite Hs in Hcu. destruct (Hcust Hcu) as (t & cols & _ & _ & Hf).
  intros Hnil. rewrite Hnil in Hf. apply Forall2_nil_inv_r in Hf. by apply Hec.
Qed.
Lemma computed_total tableNames first st uix ov eu gen m keys t :
  computed tableNames first st uix ov eu gen m keys → t ∈ tableNames → is_Some (StructMap.Get m t).
Proof.
  intros [_ _ _ _ _ _ Heff _] Ht. specialize (Heff t).
  assert (is_Some (effective tableNames ov eu gen t)) as [e He].
  { unfold effective. destruct (StructMap.Get ov t); [eauto|].
    rewrite decide_True by (apply list_elem_of_fmap; eauto). eauto. }
  rewrite He in Heff. destruct (StructMap.Get m t); [eauto|done].
Qed.

(** C32: The guardrails: after a successful first run every imported table has a
    strategy, and one that spreads a table's events over channels is only given to a
    table with no expression unique index on the target and no unique index on a
    stored generated column; a custom key names existing columns of the target, at
    least one, none of them generated. *)
Theorem strategies_respect_guardrails (tableNames : list NameTuple) (st : option ImportDataStatusRecord)
    (uix : StructMap.t NameTuple (list UniqueIndex)) (m : Strategies) (keys : list string) (t : NameTuple) :
  cdcPartitionKey ∈ validCdcPartitionKeys →
  computeCdcPartitioningStrategyPerTable tableNames true st uix = Ok (m, keys) → t ∈ tableNames →
  ∃ o, StructMap.Get m t = Some o ∧
  (Strategy o ≠ PARTITION_BY_TABLE →
    (∀ tabs t', getExpressionUniqueIndexTables tableNames = Ok tabs → t' ∈ tabs → ForKey t' ≠ ForKey t) ∧
    (∀ c idxs idx, c ∈ generatedOf t → StructMap.Get uix t = Some idxs → idx ∈ idxs → c ∉ IndexColumns idx) ∧
    (Strategy o = PARTITION_BY_CUSTOM → Columns o ≠ [] ∧ ∃ t' cols,
       ForKey t' = ForKey t ∧ GetListOfTableAttributes t' = Ok cols ∧
       ∀ c, c ∈ Columns o → c ∈ cols ∧ c ∉ generatedOf t)).
Proof.
  intros Hvalid Hc Ht. destruct (compute_ok _ _ _ _ _ _ Hc) as (ov & eu & gen & Hcomp).
  destruct (computed_total _ _ _ _ _ _ _ _ _ _ Hcomp Ht) as [o Ho].
  destruct (computed_entry _ _ _ _ _ _ _ _ _ _ _ Hvalid Hcomp Ho) as [Hcols0 _].
  destruct Hcomp as [Hwf Hov Heu Hgen _ _ Heff Hg].
  specialize (Heff t). specialize (Hg t Ht). unfold checkGuardrail in Hg.
  destruct (effective tableNames ov eu gen t) as [e|] eqn:He; [|by rewrite Ho in Heff].
  rewrite Ho in Heff, Hg. cbn [default] in Hg.
  exists o. split; [done|]. intros Hnt. rewrite decide_False in Hg by done.
  destruct Heff as (Hs & Hsame & Hcust).
  unfold getExpressionUniqueIndexTablesIfRequired in Heu. apply bind_Ok in Heu as ([|] & Hneed & Heu); cycle 1.
  { (* the checks are skipped: then this strategy is table-wise *)
    destruct (needsChecks_false _ _ Hwf Hneed) as [Hgk Hall]. exfalso. apply Hnt. rewrite Hs.
    unfold effective in He. destruct (StructMap.Get ov t) as [o'|] eqn:Hot.
    - injection He as <-. by apply (Hall t).
    - destruct (decide (ForKey t ∈ _)); [|done]. injection He as <-. unfold baseStrategy. by rewrite Hgk. }
  unfold getGeneratedStoredColumnsIfRequired in Hgen. rewrite Hneed in Hgen.
  cbn [mbind result_bind negb] in Hgen. injection Hgen as <-.
  cbn [negb] in Heu. apply bind_Ok in Heu as (tabs & Htabs & [= <-]).
  unfold shouldForceTablePartitioningForTable in Hg.
  assert (∀ t', t' ∈ tabs → ForKey t' ≠ ForKey t) as Hexpr.
  { intros t' Ht' Hk. destruct (StructMap.Get (tableSetOf tabs) t) eqn:Hset; [done|].
    unfold tableSetOf in Hset.
    rewrite (StructMap.Get_foldl_Put (λ t : NameTuple, t) (λ _, true) _ _ _ true) in Hset by done.
    destruct (decide (Key t ∈ _)) as [Hd|Hd]; [done|]. apply Hd, list_elem_of_fmap. by exists t'. }
  destruct (StructMap.Get (tableSetOf tabs) t) eqn:Hset; [done|].
  destruct (tableHasUniqueIndexOnGenerated _ t) eqn:Hu; [done|]. cbn [andb] in Hg.
  split; [|split].
  - intros tabs' t' Htabs'. rewrite Htabs in Htabs'. injection Htabs' as <-. apply Hexpr.
  - by apply (generated_unprotected tableNames uix).
  - intros Hcu. rewrite decide_True in Hg by done.
    destruct (tableHasGeneratedColumn (getGeneratedStoredColumnsHybrid tableNames uix) t
                (Columns (id o))).2 eqn:Hgc; [done|].
    destruct (Hcust (eq_trans (eq_sym Hs) Hcu)) as (t' & cols & Ht' & Hcols & Hf). split.
    + by apply Hcols0.
    + exists t', cols. split; [done|]. split; [done|]. intros c Hc'. split.
      * apply Forall2_length in Hf as Hlen. clear - Hf Hc'.
        induction Hf as [|x y l l' Hxy Hf IH]; [set_solver|]. apply elem_of_cons in Hc' as [->|Hc']; [|by apply IH].
        by eapply found_in_columns.
      * by apply (custom_not_generated tableNames uix t (Columns o)).
Qed.

(** ** Persisting and loading *)

Lemma foldl_insert_lookup {A B} (key : A → string) (g : A → B) l (acc : gmap string B) s v :
  (∀ a, a ∈ l → key a = s → g a = v) →
  foldl (λ acc a, <[key a := g a]> acc) acc l !! s = if decide (s ∈ map key l) then Some v else acc !! s.
Proof.
  revert acc. induction l as [|a l IH]; intros acc Hg; [done|]. cbn [foldl map].
  rewrite IH by (intros; apply Hg; [by right|done]). rewrite lookup_insert.
  destruct (decide (key a = s)) as [Hk|Hk].
  - rewrite (Hg a) by first [by left|done]. rewrite (decide_True (P := s ∈ _ :: _)) by (rewrite Hk; left).
    by case_decide.
  - destruct (decide (s ∈ map key l)); [by rewrite decide_True by (by right)|].
    rewrite decide_False; [done|]. rewrite elem_of_cons. naive_solver.
Qed.
Lemma toMetadbMap_ok m :
  StructMap.wf m → ∃ d, toMetadbMap m = Ok d ∧
    (∀ k, d !! ForKey k = StructMap.Get m k) ∧ (∀ s, is_Some (d !! s) → ∃ k, s = ForKey k).
Proof.
  intros Hwf. unfold toMetadbMap. rewrite IterAll_eq by done. eexists. split; [reflexivity|]. split.
  - intros k. rewrite (foldl_insert_lookup (λ p : string * NameTuple, ForKey p.2)
      (λ p : string * NameTuple, let o := default zeroOverride (StructMap.Get m p.2) in mkOverride (Strategy o) (Columns o))
      _ _ _ (default zeroOverride (StructMap.Get m k))).
    2:{ intros p _ Hp. rewrite (Get_key m p.2 k Hp). by destruct (default zeroOverride _). }
    pose proof (StructMap.Get_entries m k Hwf) as He. destruct (StructMap.Get m k) as [o|].
    + by rewrite decide_True by (apply He; eauto).
    + rewrite decide_False; [done|]. intros H. by apply He in H as [? [=]].
  - intros s. generalize (map_to_list (StructMap.kmap m)). intros l.
    assert (∀ acc : gmap string cdcPartitionKeyOverride, (∀ s, is_Some (acc !! s) → ∃ k, s = ForKey k) →
      is_Some (foldl (λ acc p, <[ForKey p.2 := let o := default zeroOverride (StructMap.Get m p.2) in
         mkOverride (Strategy o) (Columns o)]> acc) acc l !! s) → ∃ k, s = ForKey k) as H.
    { induction l as [|p l IH]; intros acc Hacc; [apply Hacc|]. apply IH. intros s'.
      rewrite lookup_insert. case_decide as Hs; [by exists p.2|apply Hacc]. }
    apply H. intros s'. rewrite lookup_empty. by intros [].
Qed.

Lemma load_ok l r :
  (∀ p, p ∈ l → ∃ t, LookupTableName p.1 = Ok t ∧ ForKey t = p.1) → NoDup l.*1 →
  ∃ r', foldM loadPartitionKey r l = Ok r' ∧
  ∀ k, (∀ o, (ForKey k, o) ∈ l → StructMap.Get r' k = Some o) ∧
       (ForKey k ∉ l.*1 → StructMap.Get r' k = StructMap.Get r k).
Proof.
  revert r. induction l as [|[s o] l IH]; intros r Hreg; cbn [foldM fmap list_fmap fst].
  { intros _. exists r. split; [done|]. intros k. split; [set_solver|done]. }
  intros [Hni Hnd]%NoDup_cons. destruct (Hreg (s, o)) as (t & Ht & Hk); [by left|]. cbn [fst] in Ht, Hk.
  unfold loadPartitionKey at 2. cbn [fst snd]. rewrite Ht. cbn [mbind result_bind].
  destruct (IH (StructMap.Put r t (mkOverride (Strategy o) (Columns o)))) as (r' & Hr' & Hget);
    [intros; apply Hreg; by right|done|].
  exists r'. split; [done|]. intros k. destruct (Hget k) as [Hin Hout].
  rewrite StructMap.Get_Put in Hout. change (Key t) with (ForKey t) in Hout.
  change (Key k) with (ForKey k) in Hout. split.
  - intros o' [He|Hl]%elem_of_cons; [|by apply Hin]. injection He as Hks ->.
    rewrite Hout by congruence. rewrite decide_True by congruence. by destruct o.
  - rewrite elem_of_cons. intros Hn. rewrite Hout by tauto. rewrite decide_False; [done|]. intros ?. apply Hn. left. congruence.
Qed.

(** What the first run persists is what streaming loads: with a registry that
    finds the imported tables under their keys, loading the record written by the
    computation succeeds and gives every table its computed strategy and columns. *)
Theorem persisted_strategies_load (tableNames : list NameTuple) (st st' : ImportDataStatusRecord)
    (uix : StructMap.t NameTuple (list UniqueIndex)) (m : Strategies) :
  cdcPartitionKey ∈ validCdcPartitionKeys →
  shouldForceTablePartitioning importerRole sourceDBType TargetDBType = false →
  (∀ t, t ∈ tableNames → ∃ t', LookupTableName (ForKey t) = Ok t' ∧ ForKey t' = ForKey t) →
  computeAndPersistCdcPartitioningStrategyPerTable tableNames st uix = Ok (m, st') →
  ∃ r, getCdcPartitioningStrategyPerTable (Some st') tableNames = Ok r ∧
       ∀ k, StructMap.Get r k = StructMap.Get m k.
Proof.
  intros Hvalid Hforce Hreg. unfold computeAndPersistCdcPartitioningStrategyPerTable.
  rewrite bind_Ok. intros ([m1 keys] & Hc & H).
  destruct (compute_ok _ _ _ _ _ _ Hc) as (ov & eu & gen & Hcomp).
  destruct (toMetadbMap_ok m1 (co_wfm _ _ _ _ _ _ _ _ _ Hcomp)) as (d & Hd & Hlk & Hkeys).
  rewrite Hd in H. cbn [mbind result_bind] in H. injection H as <- <-.
  unfold getCdcPartitioningStrategyPerTable. rewrite Hforce. cbn [TableToCDCPartitionKey].
  destruct (load_ok (map_to_list d) StructMap.NewStructMap) as (r & Hr & Hget).
  { intros [s o] Hp%elem_of_map_to_list. cbn [fst]. destruct (Hkeys s) as [k ->]; [eauto|].
    rewrite Hlk in Hp. destruct (computed_entry _ _ _ _ _ _ _ _ _ _ _ Hvalid Hcomp Hp) as [_ Hin].
    apply list_elem_of_fmap in Hin as (t & Ht & Hin). rewrite Ht. by apply Hreg. }
  { apply NoDup_fst_map_to_list. }
  rewrite Hr. cbn [mbind result_bind].
  assert (∀ k, StructMap.Get r k = StructMap.Get m1 k) as Hsame.
  { intros k. destruct (Hget k) as [Hin Hout]. rewrite <- Hlk. destruct (d !! ForKey k) as [o|] eqn:Hdk.
    - by apply Hin, elem_of_map_to_list.
    - rewrite Hout; [done|]. intros ([s o] & Hs & Ho)%list_elem_of_fmap.
      apply elem_of_map_to_list in Ho. cbn [fst] in Hs. congruence. }
  exists r. split; [|done]. rewrite (foldM_unit_intro (checkLoaded r)); [done|].
  intros t Ht. unfold checkLoaded. destruct (computed_total _ _ _ _ _ _ _ _ _ _ Hcomp Ht) as [o Ho].
  rewrite Hsame, Ho. destruct (computed_entry _ _ _ _ _ _ _ _ _ _ _ Hvalid Hcomp Ho) as [Hcols _].
  unfold customHasColumns in Hcols. case_bool_decide as Hcu; [|done].
  destruct (Columns o); [by destruct (Hcols Hcu)|done].
Qed.

(** ** The comparison on resume *)
Definition sameEntry (stored : gmap string cdcPartitionKeyOverride) (t : NameTuple)
    (o : cdcPartitionKeyOverride) : Prop :=
  ∃ p, stored !! ForKey t = Some p ∧ Strategy p = Strategy o ∧
       (Strategy o = PARTITION_BY_CUSTOM → Columns p = Columns o).
Lemma diffTable_clean stored acc t o :
  diffTable stored acc t o = ([], []) ↔ acc = ([], []) ∧ sameEntry stored t o.
Proof using .
  unfold diffTable, sameEntry. destruct acc as [ch mis]. split.
  - destruct (stored !! ForKey t) as [p|].
    + case_decide as Hs; [|intros [= H _]; by destruct ch].
      case_bool_decide as Hc; cbn [andb]; [case_bool_decide as Hcols; cbn [negb]|].
      * intros [= -> ->]. split; [done|]. by exists p.
      * intros [= H _]. by destruct ch.
      * intros [= -> ->]. split; [done|]. by exists p.
    + destruct (_ && _); intros [= _ H]; by destruct mis.
  - intros [[= -> ->] (p & -> & Hs & Hc)]. rewrite decide_True by done.
    case_bool_decide as Hcu; [|done]. by rewrite bool_decide_true by auto.
Qed.
Lemma diff_fold_clean stored m l acc :
  foldl (λ s (p : string * NameTuple), diffTable stored s p.2 (default zeroOverride (StructMap.Get m p.2))) acc l
    = ([], []) ↔
  acc = ([], []) ∧ ∀ p, p ∈ l → sameEntry stored p.2 (default zeroOverride (StructMap.Get m p.2)).
Proof using .
  revert acc. induction l as [|p l IH]; intros acc; cbn [foldl].
  { split; [intros ->; split; [done|]; intros p Hp; by apply not_elem_of_nil in Hp|by intros [-> _]]. }
  rewrite IH, diffTable_clean. split.
  - intros [[-> Hp] Hl]. split; [done|]. by intros q [->|Hq]%elem_of_cons; [|apply Hl].
  - intros [-> H]. split; [split; [done|apply H; by left]|]. intros q Hq. apply H. by right.
Qed.
Lemma checkResolved_ok resolved l acc :
  (∀ s, s ∈ l → ∃ t, LookupTableName s = Ok t ∧ ForKey t = s) →
  ∃ mis, foldM (checkResolved resolved) acc l = Ok mis ∧
  (mis = [] ↔ acc = [] ∧ ∀ k, ForKey k ∈ l → is_Some (StructMap.Get resolved k)).
Proof using LookupTableName.
  revert acc. induction l as [|s l IH]; intros acc Hreg; cbn [foldM].
  { exists acc. split; [done|]. set_solver. }
  destruct (Hreg s) as (t & Ht & Hk); [by left|]. unfold checkResolved at 2. rewrite Ht. cbn [mbind result_bind].
  destruct (IH (match StructMap.Get resolved t with Some _ => acc | None => acc ++ [s] end)) as (mis & Hm & Hiff);
    [intros; apply Hreg; by right|].
  exists mis. split; [done|]. rewrite Hiff. clear Hiff Hm IH. setoid_rewrite elem_of_cons. split.
  - destruct (StructMap.Get resolved t) as [o|] eqn:Ho; [|intros [H _]; by destruct acc].
    intros [-> H]. split; [done|]. intros k [Hks|Hkl]; [|by apply H].
    rewrite (Get_key resolved k t) by congruence. eauto.
  - intros [-> H]. destruct (H t) as [o ->]; [by left|]. split; [done|]. intros k Hkl. apply H. by right.
Qed.

(** On resume the change of strategy is refused exactly when it is one: with a
    registry that finds the stored tables under their keys, the comparison succeeds
    if and only if both runs import the same tables, each with the same strategy and,
    under a custom key, the same columns in the same order. *)
Theorem diff_detects_every_change (resolved : Strategies) (stored : gmap string cdcPartitionKeyOverride) :
  StructMap.wf resolved →
  (∀ s, is_Some (stored !! s) → ∃ t, LookupTableName s = Ok t ∧ ForKey t = s) →
  diffCdcPartitioningStrategy resolved stored = Ok () ↔
  ∀ k, match StructMap.Get resolved k with
       | Some o => sameEntry stored k o
       | None => stored !! ForKey k = None
       end.
Proof using LookupTableName.
  intros Hwf Hreg. unfold diffCdcPartitioningStrategy. rewrite IterAll_eq by done. cbn [mbind result_bind].
  destruct (checkResolved_ok resolved (map_to_list stored).*1 []) as (mis & -> & Hmis).
  { intros s ([? p] & -> & Hp)%list_elem_of_fmap. apply elem_of_map_to_list in Hp. apply Hreg. eauto. }
  pose proof (diff_fold_clean stored resolved (map_to_list (StructMap.kmap resolved)) ([], [])) as Hdiff.
  destruct (foldl _ _ _) as [ch miss]. cbn [mbind result_bind].
  assert (∀ k, ForKey k ∈ (map_to_list stored).*1 ↔ is_Some (stored !! ForKey k)) as Hst.
  { intros k. rewrite list_elem_of_fmap. split.
    - intros ([s p] & Hs & Hp). apply elem_of_map_to_list in Hp. cbn [fst] in Hs. rewrite Hs. eauto.
    - intros [p Hp]. exists (ForKey k, p). split; [done|]. by apply elem_of_map_to_list. }
  setoid_rewrite Hst in Hmis.
  assert (∀ a b c : nat, ((0 <? a) || (0 <? b) || (0 <? c))%nat = false ↔ a = 0%nat ∧ b = 0%nat ∧ c = 0%nat) as Hz.
  { intros a b c. rewrite !orb_false_iff, !Nat.ltb_ge. lia. }
  transitivity ((ch, miss) = ([], []) ∧ mis = []).
  { specialize (Hz (length miss) (length mis) (length ch)). destruct (_ || _ || _).
    - split; [done|]. intros [[= -> ->] ->]. by discriminate (proj2 Hz).
    - destruct (proj1 Hz eq_refl) as (H1 & H2 & H3). destruct miss, mis, ch; done. }
  rewrite Hmis, Hdiff. split.
  - intros [[_ Hall] [_ Hin]] k. destruct (StructMap.Get resolved k) as [o|] eqn:Ho.
    + pose proof (proj1 (StructMap.Get_entries resolved k Hwf)) as He.
      destruct (list_elem_of_fmap_1 _ _ _ (He ltac:(eauto))) as (p & Hp & Hpl). specialize (Hall p Hpl).
      unfold sameEntry in *. change (ForKey k = ForKey p.2) in Hp.
      rewrite <- (Get_key resolved k p.2 Hp), Ho, <- Hp in Hall. done.
    + apply eq_None_not_Some. intros Hs. specialize (Hin k Hs). rewrite Ho in Hin. by destruct Hin.
  - intros Hk. split; (split; [done|]).
    + intros p Hp. specialize (Hk p.2). destruct (StructMap.Get resolved p.2) as [o|] eqn:Ho; [done|].
      assert (is_Some (StructMap.Get resolved p.2)) as [? ?]; [|congruence].
      apply (StructMap.Get_entries resolved p.2 Hwf), list_elem_of_fmap. by exists p.
    + intros k [p Hp]. specialize (Hk k). destruct (StructMap.Get resolved k); [eauto|congruence].
Qed.
End strategy.

(** ** A run on a concrete table *)
Definition sampleRegistry (_ : string) : result NameTuple := Ok sampleTable.
Definition sampleCaptured : option (gmap string (list string)) :=
  Some {[ForKey sampleTable := ["full_name"]]}.
Definition sampleAttributes (_ : NameTuple) : result (list string) := Ok ["id"; "Email"; "full_name"].
Definition sampleStatus : ImportDataStatusRecord := mkStatus None None "".
(** The custom key is written in another case than the target's. *)
Definition sampleRun : result (Strategies * ImportDataStatusRecord) :=
  computeAndPersistCdcPartitioningStrategyPerTable TARGET_DB_IMPORTER_ROLE POSTGRESQL YUGABYTEDB
    sampleRegistry (λ _, Ok []) sampleCaptured sampleAttributes "auto" "public.users:(email)"
    [sampleTable] sampleStatus StructMap.NewStructMap.
Definition sampleResult : Strategies * ImportDataStatusRecord :=
  match sampleRun with Ok r => r | _ => (StructMap.NewStructMap, sampleStatus) end.
Lemma sampleRun_ok : sampleRun = Ok sampleResult.
Proof. vm_compute. reflexivity. Qed.

Lemma strategies_respect_guardrails_witness :
  StructMap.Get sampleResult.1 sampleTable = Some (mkOverride PARTITION_BY_CUSTOM ["Email"]) ∧
  ∃ t' cols, ForKey t' = ForKey sampleTable ∧ sampleAttributes t' = Ok cols ∧ "Email" ∈ cols.
Proof.
  assert (StructMap.Get sampleResult.1 sampleTable = Some (mkOverride PARTITION_BY_CUSTOM ["Email"])) as Hget
    by (vm_compute; reflexivity).
  split; [exact Hget|].
  destruct (strategies_respect_guardrails TARGET_DB_IMPORTER_ROLE POSTGRESQL YUGABYTEDB
    sampleRegistry (λ _, Ok []) sampleCaptured sampleAttributes "auto" "public.users:(email)"
    [sampleTable] (Some sampleStatus) StructMap.NewStructMap sampleResult.1 [] sampleTable) as (o & Ho & H).
  - apply (bool_decide_unpack _). vm_compute. exact I.
  - vm_compute. reflexivity.
  - by left.
  - rewrite Hget in Ho. injection Ho as <-. destruct H as (_ & _ & H); [done|].
    destruct (H eq_refl) as (_ & t' & cols & Ht & Hcols & Hc). exists t', cols.
    split; [done|]. split; [done|]. apply Hc. by left.
Defined.
Lemma persisted_strategies_load_witness :
  ∃ r, getCdcPartitioningStrategyPerTable TARGET_DB_IMPORTER_ROLE POSTGRESQL YUGABYTEDB sampleRegistry
         (Some sampleResult.2) [sampleTable] = Ok r ∧
       StructMap.Get r sampleTable = StructMap.Get sampleResult.1 sampleTable.
Proof.
  destruct (persisted_strategies_load TARGET_DB_IMPORTER_ROLE POSTGRESQL YUGABYTEDB
    sampleRegistry (λ _, Ok []) sampleCaptured sampleAttributes "auto" "public.users:(email)"
    [sampleTable] sampleStatus sampleResult.2 StructMap.NewStructMap sampleResult.1) as (r & Hr & Hg).
  - apply (bool_decide_unpack _). vm_compute. exact I.
  - vm_compute. reflexivity.
  - intros t Ht. apply list_elem_of_singleton in Ht as ->. by exists sampleTable.
  - vm_compute. reflexivity.
  - exists r. split; [exact Hr|apply Hg].
Defined.
(** Reordering a custom key is a change; the persisted strategies themselves are not. *)
Lemma diff_detects_every_change_witness :
  let stored := {[ForKey sampleTable := mkOverride PARTITION_BY_CUSTOM ["b"; "a"]]} in
  let resolved := StructMap.Put StructMap.NewStructMap sampleTable (mkOverride PARTITION_BY_CUSTOM ["a"; "b"]) in
  diffCdcPartitioningStrategy sampleRegistry resolved stored ≠ Ok ().
Proof.
  cbn zeta. intros H.
  apply (diff_detects_every_change sampleRegistry
    (StructMap.Put StructMap.NewStructMap sampleTable (mkOverride PARTITION_BY_CUSTOM ["a"; "b"]))
    {[ForKey sampleTable := mkOverride PARTITION_BY_CUSTOM ["b"; "a"]]}) with (k := sampleTable) in H.
  - destruct H as (p & Hp & _ & Hc). rewrite lookup_singleton_eq in Hp. injection Hp as <-.
    by specialize (Hc eq_refl).
  - apply StructMap.wf_Put, StructMap.wf_New.
  - intros s [p Hp]. apply lookup_singleton_Some in Hp as [<- _]. exists sampleTable. split; reflexivity.
Defined.
End PartitionStrategy.
