(* ===== verification/Streaming.v ===== *)
(** * Streaming changes to the target (src/yb-voyager/cmd/live_migration.go)

    The main goroutine reads the event queue in order, holds back an event that
    conflicts with one in flight and sends the others to their channels; a worker
    per channel batches events and commits each batch together with the channel's
    [last_applied_vsn]; a restart re-reads the queue from the first unprocessed
    segment.  The goroutines are the steps of [step]: each takes the conflict
    cache's lock at most once, so a step is atomic in the program too.

    The end-of-segment marker is abstracted: [S_segment] is the moment at which
    every channel has drained and every worker is done, which is what sending the
    marker to all channels and waiting on all [done] channels waits for.  An error
    that makes the process exit is a [S_crash].  The target database is its
    bookkeeping row per channel and the log of applied events; a batch is one
    transaction ([TargetYugabyteDB.ExecuteBatch]). *)
From S2P Require Import Prelude StructMap SqlName Event PartitionKey ConflictCache.
Import SqlName Event PartitionKey ConflictCache.

Module Streaming.

(** ** Decisions of the main goroutine *)

(** [tconf.TargetDBType] decides whether values are formatted as SQL literals. *)
Definition shouldFormatValues (TargetDBType : string) (event : Event) : bool :=
  if decide (TargetDBType ∈ [YUGABYTEDB; YUGABYTEDB_AMP; POSTGRESQL]) then bool_decide (Op event = "u")
  else bool_decide (TargetDBType = ORACLE).

Definition shouldHandleConflicts (event : Event)
    (tableToUniqueIndexes : option (StructMap.t NameTuple (list UniqueIndex)))
    (tablePartitionKeyMap : PartitionKeyMap) : result bool :=
  match tableToUniqueIndexes, tablePartitionKeyMap with
  | None, _ => Err "table to unique indexes is not initialized"
  | _, None => Err "table partition key map is not initialized"
  | Some ti, Some pm =>
      let uniqueIndexes := default [] (StructMap.Get ti (TableNameTup event)) in
      match StructMap.Get pm (TableNameTup event) with
      | None => Err "table partition key map does not contain table"
      | Some partitionKey =>
          Ok (negb ((length uniqueIndexes =? 0)%nat
                    || bool_decide (Strategy partitionKey = PARTITION_BY_TABLE)))
      end
  end.

(** ** The conflict set of custom-key tables *)

(** Set equality as the source tests it: sizes, then membership in [want]. *)
Definition uniqueIndexWithSameColumnsExists (indexes : list UniqueIndex) (columns : list string) : bool :=
  let want : gset string := list_to_set columns in
  existsb (λ index, (length (IndexColumns index) =? size want)%nat
                    && forallb (λ c, bool_decide (c ∈ want)) (IndexColumns index)) indexes.

Definition pkConflictGuard (table : NameTuple) (pkColumns : list string) : UniqueIndex :=
  mkUniqueIndex (ForKey table +:+ "_pk_conflict_guard") pkColumns false true.

(** One turn of the second loop. *)
Definition addGuard (tableToPKColumns : StructMap.t NameTuple (list string))
    (ti : StructMap.t NameTuple (list UniqueIndex)) (table : NameTuple)
    : result (StructMap.t NameTuple (list UniqueIndex)) :=
  match StructMap.Get tableToPKColumns table with
  | None | Some [] => Err "no primary key columns found for custom-key table"
  | Some pkColumns =>
      let existingIndexes := default [] (StructMap.Get ti table) in
      if uniqueIndexWithSameColumnsExists existingIndexes pkColumns then Ok ti
      else Ok (StructMap.Put ti table (existingIndexes ++ [pkConflictGuard table pkColumns]))
  end.
Definition isCustomTable (pm : StructMap.t NameTuple cdcPartitionKeyOverride) (table : NameTuple)
    : result (list NameTuple) :=
  match StructMap.Get pm table with
  | None => Err "table partition key map does not contain table"
  | Some partitionKey =>
      Ok (if decide (Strategy partitionKey = PARTITION_BY_CUSTOM) then [table] else [])
  end.
Definition addPrimaryKeyToConflictSetForCustomTables
    (ti : StructMap.t NameTuple (list UniqueIndex)) (importTableList : list NameTuple)
    (pm : StructMap.t NameTuple cdcPartitionKeyOverride)
    (tableToPKColumns : StructMap.t NameTuple (list string))
    : result (StructMap.t NameTuple (list UniqueIndex)) :=
  customTables ← mapM_result (isCustomTable pm) importTableList;
  foldM (addGuard tableToPKColumns) ti (concat customTables).
(** The cache is built anew; it reads the table map the guard was added to. *)
Definition initializeConflictDetectionCache
    (ti : StructMap.t NameTuple (list UniqueIndex)) (importTableList : list NameTuple)
    (pm : StructMap.t NameTuple cdcPartitionKeyOverride)
    (tableToPKColumns : StructMap.t NameTuple (list string))
    : result (StructMap.t NameTuple (list UniqueIndex) * Cache) :=
  ti ← addPrimaryKeyToConflictSetForCustomTables ti importTableList pm tableToPKColumns;
  Ok (ti, NewConflictDetectionCache).

(** ** The target database *)

(** The row of the channel in [event_channels_metadata]. *)
Record ChannelRow : Type := mkChannelRow { last_applied_vsn : Z; counts : EventCounter }.
Definition initialRow : ChannelRow := mkChannelRow (-1) zeroCounter.
Record DB : Type := mkDB { rows : Z → ChannelRow; applied : list (Z * Event) }.
Definition initialDB : DB := mkDB (λ _, initialRow) [].

Definition upd {A} (f : Z → A) (c : Z) (a : A) : Z → A := λ c', if decide (c' = c) then a else f c'.

Lemma upd_eq {A} (f : Z → A) c a : upd f c a c = a.
Proof. unfold upd. by rewrite decide_True. Qed.
Lemma upd_ne {A} (f : Z → A) c a c' : c' ≠ c → upd f c a c' = f c'.
Proof. intros. unfold upd. by rewrite decide_False. Qed.

Definition lastVsn (b : list Event) : Z := match last b with Some e => Vsn e | None => 0 end.

(** The transaction of [ExecuteBatch], when it commits: the events are applied in
    order and the channel's row moves to the batch's last VSN. *)
Definition commitBatch (db : DB) (chanNo : Z) (events : list Event) : DB :=
  let eb := NewEventBatch events chanNo in
  let row := rows db chanNo in
  mkDB (upd (rows db) chanNo
          (mkChannelRow (lastVsn (Events eb)) (Merge (counts row) (EventCounts eb))))
       (applied db ++ map (pair (ChanNo eb)) (Events eb)).

Definition IsEventBatchAlreadyImported (db : DB) (chanNo : Z) (events : list Event) : bool :=
  lastVsn events <=? last_applied_vsn (rows db chanNo).

(** ** The concurrent system *)
Inductive msg : Type := MEvent (e : Event) | MFlush.

(** Where a worker is: filling a batch, about to execute it, about to check
    whether a failed attempt has committed after all, about to clear the cache. *)
Inductive wphase : Type :=
  | Batching (b : list Event)
  | Exec (b : list Event)
  | Retry (b : list Event)
  | Finish (b : list Event).
(** Where the main goroutine is in [handleEvent]. *)
Inductive mphase : Type := MIdle | MPut (e : Event) (h : Z) | MSend (e : Event) (h : Z).

Record sys : Type := mkSys {
  main : mphase;
  pos : nat;                     (* the next event of the queue *)
  segStart : nat;                (* the first event of the oldest unprocessed segment *)
  chans : Z → list msg;
  workers : Z → wphase;
  cache : Cache;
  prevRole : string;             (* [prevExporterRole] *)
  start : Z → Z;                 (* last_applied_vsn as read when streaming started *)
  db : DB }.

Section streaming.
Context (input : list Event) (boundary : nat → bool)
        (NUM_EVENT_CHANNELS : Z) (EVENT_CHANNEL_SIZE MAX_EVENTS_PER_BATCH : nat)
        (importerRole : string)
        (ti : StructMap.t NameTuple (list UniqueIndex))
        (pm : StructMap.t NameTuple cdcPartitionKeyOverride)
        (ConvertEvent : Event → result Event).

Definition initial : sys :=
  mkSys MIdle 0 0 (λ _, []) (λ _, Batching []) NewConflictDetectionCache ""
    (λ c, last_applied_vsn (rows initialDB c)) initialDB.

Definition concernsMe (e : Event) : bool :=
  IsCutoverToTarget e && bool_decide (importerRole = TARGET_DB_IMPORTER_ROLE)
  || IsCutoverToSourceReplica e && bool_decide (importerRole = SOURCE_REPLICA_DB_IMPORTER_ROLE)
  || IsCutoverToSource e && bool_decide (importerRole = SOURCE_DB_IMPORTER_ROLE).

(** The two tests of [processEvents] that drop an event. *)
Definition roleMismatch (e : Event) : bool :=
  bool_decide (importerRole = SOURCE_DB_IMPORTER_ROLE)
  && negb (bool_decide (ExporterRole e = TARGET_DB_EXPORTER_FB_ROLE)).
Definition dropped (lastAppliedVsn : Z) (e : Event) : bool :=
  (Vsn e <=? lastAppliedVsn) || roleMismatch e.

Definition hashOf (e : Event) : result Z := hashEvent NUM_EVENT_CHANNELS e (Some pm).
Definition mustCheck (e : Event) : result bool := shouldHandleConflicts e (Some ti) (Some pm).
Definition conflictsNow (s : sys) (e : Event) : result (list Conflict) :=
  findConflictLocked ti (Some pm) (cache s) e.

Definition set_main (s : sys) (m : mphase) : sys :=
  mkSys m (pos s) (segStart s) (chans s) (workers s) (cache s) (prevRole s) (start s) (db s).
Definition set_chan (s : sys) (c : Z) (l : list msg) : sys :=
  mkSys (main s) (pos s) (segStart s) (upd (chans s) c l) (workers s) (cache s) (prevRole s) (start s) (db s).
Definition set_worker (s : sys) (c : Z) (w : wphase) : sys :=
  mkSys (main s) (pos s) (segStart s) (chans s) (upd (workers s) c w) (cache s) (prevRole s) (start s) (db s).
Definition set_cache (s : sys) (ca : Cache) : sys :=
  mkSys (main s) (pos s) (segStart s) (chans s) (workers s) ca (prevRole s) (start s) (db s).
Definition set_db (s : sys) (d : DB) : sys :=
  mkSys (main s) (pos s) (segStart s) (chans s) (workers s) (cache s) (prevRole s) (start s) d.
Definition set_pos (s : sys) (p : nat) : sys :=
  mkSys (main s) p (segStart s) (chans s) (workers s) (cache s) (prevRole s) (start s) (db s).
Definition set_segStart (s : sys) (p : nat) : sys :=
  mkSys (main s) (pos s) p (chans s) (workers s) (cache s) (prevRole s) (start s) (db s).

(** The first event, and one of another exporter, gets a new cache. *)
Definition renew (s : sys) (role : string) : sys :=
  mkSys (main s) (pos s) (segStart s) (chans s) (workers s) NewConflictDetectionCache role
    (start s) (db s).

(** The event the main goroutine is about to handle. *)
Definition next (s : sys) (e : Event) : Prop :=
  main s = MIdle ∧ input !! pos s = Some e ∧ prevRole s = ExporterRole e.

(** The non-blocking sends of [WaitUntilNoConflict]. *)
Definition flushAll (chs : Z → list msg) : Z → list msg := λ c,
  if decide (0 ≤ c < NUM_EVENT_CHANNELS) then
    if (length (chs c) <? EVENT_CHANNEL_SIZE)%nat then chs c ++ [MFlush] else chs c
  else chs c.
Definition set_flush (s : sys) : sys :=
  mkSys (main s) (pos s) (segStart s) (flushAll (chans s)) (workers s) (cache s) (prevRole s) (start s) (db s).

(** A restart: memory is lost, the database stays, the queue is read again from
    the first segment not marked as processed. *)
Definition restart (s : sys) : sys :=
  mkSys MIdle (segStart s) (segStart s) (λ _, []) (λ _, Batching []) NewConflictDetectionCache ""
    (λ c, last_applied_vsn (rows (db s) c)) (db s).

Definition drained (s : sys) : Prop :=
  main s = MIdle ∧ ∀ c, chans s c = [] ∧ workers s c = Batching [].

Inductive step : sys → sys → Prop :=
  (* streamChangesFromSegment: another exporter's events begin *)
  | S_renew s e :
      main s = MIdle → input !! pos s = Some e → prevRole s ≠ ExporterRole e →
      step s (renew s (ExporterRole e))
  (* handleEvent: events for another importer's cutover are passed over *)
  | S_cutover_skip s e :
      next s e → IsCutoverEvent e = true → concernsMe e = false →
      step s (set_pos s (S (pos s)))
  (* handleEvent up to the point where the event is released *)
  | S_nocheck s e h :
      next s e → IsCutoverEvent e = false → hashOf e = Ok h →
      mustCheck e = Ok false → step s (set_main s (MSend e h))
  | S_delete s e h :
      next s e → IsCutoverEvent e = false → hashOf e = Ok h →
      mustCheck e = Ok true → Op e = "d" → step s (set_main s (MPut e h))
  | S_clear s e h :
      next s e → IsCutoverEvent e = false → hashOf e = Ok h →
      mustCheck e = Ok true → Op e ≠ "d" → conflictsNow s e = Ok [] →
      step s (set_main s (if decide (Op e = "u") then MPut e h else MSend e h))
  | S_flush s e h infos :
      next s e → IsCutoverEvent e = false → hashOf e = Ok h →
      mustCheck e = Ok true → Op e ≠ "d" → conflictsNow s e = Ok infos → infos ≠ [] →
      step s (set_flush s)
  | S_put s e h ca :
      main s = MPut e h → Put ti (cache s) e = (ca, Ok tt) →
      step s (set_main (set_cache s ca) (MSend e h))
  | S_send s e e' h :
      main s = MSend e h → ConvertEvent e = Ok e' → (length (chans s h) < EVENT_CHANNEL_SIZE)%nat →
      step s (set_pos (set_main (set_chan s h (chans s h ++ [MEvent e'])) MIdle) (S (pos s)))
  (* streamChangesFromSegment: all channels drained, the segment is marked *)
  | S_segment s :
      drained s → boundary (pos s) = true → step s (set_segStart s (pos s))
  (* processEvents *)
  | W_drop s c e l b :
      chans s c = MEvent e :: l → workers s c = Batching b → (length b < MAX_EVENTS_PER_BATCH)%nat →
      dropped (start s c) e = true →
      step s (set_cache (set_chan s c l) (RemoveEvents (cache s) [e]).1)
  | W_recv s c e l b :
      chans s c = MEvent e :: l → workers s c = Batching b → (length b < MAX_EVENTS_PER_BATCH)%nat →
      dropped (start s c) e = false →
      step s (set_worker (set_chan s c l) c (Batching (b ++ [e])))
  | W_flush s c l b :
      chans s c = MFlush :: l → workers s c = Batching b → (length b < MAX_EVENTS_PER_BATCH)%nat →
      step s (set_worker (set_chan s c l) c (if decide (b = []) then Batching [] else Exec b))
  | W_close s c b :
      (* the batch is full or its timer fired *)
      workers s c = Batching b → b ≠ [] → step s (set_worker s c (Exec b))
  | W_exec s c b :
      workers s c = Exec b → step s (set_worker (set_db s (commitBatch (db s) c b)) c (Finish b))
  | W_exec_unknown s c b :
      (* the transaction commits but the call reports an error *)
      workers s c = Exec b → step s (set_worker (set_db s (commitBatch (db s) c b)) c (Retry b))
  | W_exec_error s c b :
      workers s c = Exec b → step s (set_worker s c (Retry b))
  | W_check s c b :
      workers s c = Retry b →
      step s (set_worker s c (if IsEventBatchAlreadyImported (db s) c b then Finish b else Exec b))
  | W_finish s c b :
      workers s c = Finish b →
      step s (set_worker (set_cache s (RemoveEvents (cache s) b).1) c (Batching []))
  | S_crash s : step s (restart s).

Definition reachable (s : sys) : Prop := rtc step initial s.

(** ** What is owed to a channel *)

(** The events of the queue that channel [c] must apply. *)
Definition relevant (c : Z) (e : Event) : Prop :=
  IsCutoverEvent e = false ∧ roleMismatch e = false ∧ hashOf e = Ok c.
#[local] Instance relevant_dec c e : Decision (relevant c e).
Proof. apply _. Qed.
Definition owed (c : Z) (l : list Event) : list Z := map Vsn (filter (relevant c) l).

(** The queue is written in VSN order. *)
Context (input_sorted : StronglySorted (λ a b, Vsn a < Vsn b) input)
        (input_vsn : Forall (λ e, 0 ≤ Vsn e) input).
(** Converting values keeps the event's identity. *)
Context (convert_id : ∀ e e', ConvertEvent e = Ok e' →
           Vsn e' = Vsn e ∧ ExporterRole e' = ExporterRole e).

(** The VSN of the last event before position [p]. *)
Definition frontier (p : nat) : Z :=
  match p with O => -1 | S q => match input !! q with Some e => Vsn e | None => -1 end end.

Lemma owed_app c l1 l2 : owed c (l1 ++ l2) = owed c l1 ++ owed c l2.
Proof. unfold owed. by rewrite filter_app, map_app. Qed.
Lemma elem_of_owed c l v : v ∈ owed c l ↔ ∃ e, e ∈ l ∧ relevant c e ∧ v = Vsn e.
Proof.
  unfold owed. rewrite list_elem_of_fmap. setoid_rewrite list_elem_of_filter. naive_solver.
Qed.
Lemma owed_sorted c l : StronglySorted (λ a b, Vsn a < Vsn b) l → StronglySorted Z.lt (owed c l).
Proof.
  induction 1 as [|e l _ IH He]; [constructor|]. unfold owed. rewrite filter_cons.
  case_decide; [|done]. cbn. constructor; [done|]. apply Forall_forall. intros v Hv.
  apply elem_of_owed in Hv as (e' & Hin & _ & ->). rewrite Forall_forall in He. by apply He.
Qed.
Lemma input_lookup_lt i j e e' :
  (i < j)%nat → input !! i = Some e → input !! j = Some e' → Vsn e < Vsn e'.
Proof.
  intros Hij Hi Hj. rewrite <- (take_drop_middle _ _ _ Hi) in input_sorted.
  apply StronglySorted_app_1_r in input_sorted. apply StronglySorted_cons in input_sorted as [Hall _].
  rewrite Forall_forall in Hall. apply Hall. apply list_elem_of_lookup. exists (j - S i)%nat.
  rewrite lookup_drop. by replace (S i + (j - S i))%nat with j by lia.
Qed.
Lemma input_vsn_inj i j e e' :
  input !! i = Some e → input !! j = Some e' → Vsn e = Vsn e' → i = j.
Proof.
  intros Hi Hj Hv. destruct (Nat.lt_trichotomy i j) as [H|[H|H]]; [|done|].
  - pose proof (input_lookup_lt _ _ _ _ H Hi Hj). lia.
  - pose proof (input_lookup_lt _ _ _ _ H Hj Hi). lia.
Qed.
Lemma input_nonneg i e : input !! i = Some e → 0 ≤ Vsn e.
Proof. intros Hi. rewrite Forall_forall in input_vsn. apply input_vsn. by eapply list_elem_of_lookup_2. Qed.
Lemma frontier_ge p i e : (i < p)%nat → input !! i = Some e → (p ≤ length input)%nat → Vsn e ≤ frontier p.
Proof.
  intros Hip Hi Hp. destruct p as [|q]; [lia|]. cbn.
  destruct (input !! q) as [e'|] eqn:Hq; [|apply lookup_ge_None in Hq; lia].
  destruct (decide (i = q)) as [->|]; [rewrite Hi in Hq; injection Hq as ->; lia|].
  assert (Vsn e < Vsn e') by (eapply (input_lookup_lt i q); [lia|done|done]). lia.
Qed.
Lemma frontier_lt p e : input !! p = Some e → frontier p < Vsn e.
Proof.
  intros Hp. destruct p as [|q]; cbn; [pose proof (input_nonneg _ _ Hp); lia|].
  destruct (input !! q) as [e'|] eqn:Hq; [|pose proof (input_nonneg _ _ Hp); lia].
  eapply (input_lookup_lt q (S q)); [lia|done|done].
Qed.
Lemma frontier_S p e : input !! p = Some e → frontier (S p) = Vsn e.
Proof. intros Hp. cbn. by rewrite Hp. Qed.

(** Moving the queue past one event owes its channel that event, if it is new. *)
Lemma owed_extend c s p e :
  input !! p = Some e →
  leq (Z.max s (frontier (S p))) (owed c input) =
    leq (Z.max s (frontier p)) (owed c input)
    ++ (if decide (relevant c e ∧ s < Vsn e) then [Vsn e] else []).
Proof.
  intros Hp. rewrite (frontier_S _ _ Hp). pose proof (frontier_lt _ _ Hp) as Hf.
  pose proof (take_drop_middle _ _ _ Hp) as Hsplit.
  assert (Forall (λ v, v ≤ frontier p) (owed c (take p input))) as H1.
  { apply Forall_forall. intros v Hv. apply elem_of_owed in Hv as (e' & Hin & _ & ->).
    apply list_elem_of_lookup in Hin as [i Hi]. pose proof (lookup_lt_Some _ _ _ Hi) as Hlt.
    rewrite length_take in Hlt. rewrite lookup_take_Some in Hi. destruct Hi as [Hi ?].
    apply (frontier_ge _ i); [lia|done|]. apply lookup_lt_Some in Hp. lia. }
  assert (Forall (λ v, Vsn e < v) (owed c (drop (S p) input))) as H2.
  { apply Forall_forall. intros v Hv. apply elem_of_owed in Hv as (e' & Hin & _ & ->).
    apply list_elem_of_lookup in Hin as [i Hi]. rewrite lookup_drop in Hi.
    eapply (input_lookup_lt p (S p + i)); [lia|done|done]. }
  rewrite <- Hsplit. change (e :: ?x) with ([e] ++ x). rewrite !owed_app, !leq_app.
  set (R1 := owed c (take p input)) in *. set (R2 := owed c (drop (S p) input)) in *.
  destruct (decide (Vsn e ≤ s)) as [Hs|Hs].
  - replace (Z.max s (Vsn e)) with s by lia. replace (Z.max s (frontier p)) with s by lia.
    rewrite decide_False by lia. by rewrite app_nil_r.
  - replace (Z.max s (Vsn e)) with (Vsn e) by lia.
    rewrite !(leq_none _ R2), !app_nil_r; [|eapply Forall_impl; [exact H2|cbn; lia]..].
    rewrite !(leq_all _ R1); [|eapply Forall_impl; [exact H1|cbn; lia]..].
    rewrite <- app_assoc. f_equal. unfold owed. rewrite !filter_cons, !filter_nil.
    destruct (decide (relevant c e)) as [Hr|Hr]; cbn; [|by rewrite decide_False by naive_solver].
    rewrite decide_True, decide_False, decide_True by (done || lia || (split; [done|lia])). done.
Qed.

(** ** One channel: its log, its row, its queue and its worker *)
Definition evsOf (l : list msg) : list Event :=
  omap (λ m, match m with MEvent e => Some e | MFlush => None end) l.
Definition batchOf (w : wphase) : list Event :=
  match w with Batching b | Exec b | Retry b | Finish b => b end.
(** The part of a worker's batch that is not in the database yet. *)
Definition uncommitted (la : Z) (w : wphase) : list Event :=
  match w with
  | Batching b | Exec b => b
  | Retry b => if lastVsn b <=? la then [] else b
  | Finish _ => []
  end.
Definition owes (la st : Z) (ch : list msg) (w : wphase) : list Z :=
  map Vsn (uncommitted la w ++ filter (λ e, dropped st e = false) (evsOf ch)).
Definition logOf (d : DB) (c : Z) : list Z :=
  map (λ p, Vsn p.2) (filter (λ p, p.1 = c) (applied d)).

(** A message comes from an event of the queue before [p] that hashes to [c]. *)
Definition fromQueue (p : nat) (c : Z) (e' : Event) : Prop :=
  ∃ j e, (j < p)%nat ∧ input !! j = Some e ∧ Vsn e' = Vsn e ∧ ExporterRole e' = ExporterRole e ∧
         hashOf e = Ok c ∧ IsCutoverEvent e = false.

(** [p]: queue position; [st]: the channel's VSN when streaming started; [la] and
    [lg]: its row and log in the database; [ch] and [w]: its queue and worker. *)
Record chanOk (p : nat) (st la : Z) (lg : list Z) (ch : list msg) (w : wphase) (c : Z) : Prop := {
  ck_log : lg = leq la (owed c input);
  ck_owes : lg ++ owes la st ch w = leq (Z.max st (frontier p)) (owed c input);
  ck_start : st ≤ la;
  ck_batch : match w with Batching _ => True | Exec b | Retry b | Finish b => b ≠ [] end;
  ck_done : match w with
            | Finish b => ∀ e, e ∈ b → Vsn e ∈ lg
            | Retry b => lastVsn b ≤ la → ∀ e, e ∈ b → Vsn e ∈ lg
            | _ => True
            end;
  ck_src : ∀ e', e' ∈ batchOf w ++ evsOf ch → fromQueue p c e' }.

Lemma evsOf_app l1 l2 : evsOf (l1 ++ l2) = evsOf l1 ++ evsOf l2.
Proof. apply omap_app. Qed.
Lemma owed_input_sorted c : StronglySorted Z.lt (owed c input).
Proof. by apply owed_sorted. Qed.
Lemma dropped_ext st e e' :
  Vsn e' = Vsn e → ExporterRole e' = ExporterRole e → dropped st e' = dropped st e.
Proof. intros Hv Hr. unfold dropped, roleMismatch. by rewrite Hv, Hr. Qed.
Lemma fromQueue_S p c e : fromQueue p c e → fromQueue (S p) c e.
Proof. intros (j & e0 & ? & H). exists j, e0. split; [lia|done]. Qed.
Lemma lastVsn_lastZ b : b ≠ [] → lastVsn b = lastZ (map Vsn b).
Proof.
  intros Hb. unfold lastVsn, lastZ. induction b as [|e b IH] using rev_ind; [done|]. rewrite map_app. cbn [map]. by rewrite !last_snoc.
Qed.
Lemma lastVsn_elem b : b ≠ [] → lastVsn b ∈ map Vsn b.
Proof. intros Hb. rewrite lastVsn_lastZ by done. apply lastZ_elem. by destruct b. Qed.

(** A batch at the head of what is owed lies past the channel's row, and is exactly
    what brings the log up to its last VSN. *)
Lemma chanOk_head p st la lg ch w c b rest :
  chanOk p st la lg ch w c → owes la st ch w = map Vsn b ++ rest → b ≠ [] →
  la < lastVsn b ∧ lg ++ map Vsn b = leq (lastVsn b) (owed c input).
Proof.
  intros [Hl Ho _ _ _ _] Hb Hne. rewrite Hb in Ho. pose proof (owed_input_sorted c) as HR.
  split.
  - eapply (leq_beyond _ la _ lg (map Vsn b ++ rest)); [exact HR|done|done|].
    apply elem_of_app. left. by apply lastVsn_elem.
  - rewrite app_assoc in Ho. symmetry in Ho.
    rewrite <- (leq_prefix _ _ _ _ HR Ho) at 1 by (destruct lg, b; done).
    f_equal. rewrite lastZ_app, lastVsn_lastZ; by destruct b.
Qed.

Lemma chanOk_init c : chanOk 0 (-1) (-1) [] [] (Batching []) c.
Proof.
  assert (leq (-1) (owed c input) = []) as H.
  { apply leq_none, Forall_forall. intros v Hv. apply elem_of_owed in Hv as (e & Hin & _ & ->).
    apply list_elem_of_lookup in Hin as [i Hi]. pose proof (input_nonneg _ _ Hi). lia. }
  split; cbn; [by rewrite H|done|lia|done|done|set_solver].
Qed.

(** The queue moves past an event that is not for this channel. *)
Lemma chanOk_pass p st la lg ch w c e :
  chanOk p st la lg ch w c → input !! p = Some e → ¬ relevant c e →
  chanOk (S p) st la lg ch w c.
Proof.
  intros [Hl Ho Hs Hb Hd Hsrc] Hp Hr. split; [done| |done|done|done|].
  - rewrite (owed_extend _ _ _ _ Hp), decide_False by naive_solver. by rewrite app_nil_r.
  - intros e' He'. by apply fromQueue_S, Hsrc.
Qed.
(** The event is sent to its channel. *)
Lemma chanOk_send p st la lg ch w c e e' :
  chanOk p st la lg ch w c → input !! p = Some e → IsCutoverEvent e = false →
  hashOf e = Ok c → ConvertEvent e = Ok e' → chanOk (S p) st la lg (ch ++ [MEvent e']) w c.
Proof.
  intros [Hl Ho Hs Hb Hd Hsrc] Hp Hcut Hh Hc. destruct (convert_id _ _ Hc) as [Hv Hr].
  split; [done| |done|done|done|].
  - rewrite (owed_extend _ _ _ _ Hp), <- Ho, <- app_assoc. f_equal.
    unfold owes. rewrite evsOf_app, filter_app, app_assoc, map_app. f_equal. cbn [evsOf omap list_omap].
    rewrite filter_cons, filter_nil, (dropped_ext _ e e') by done.
    assert (relevant c e ∧ st < Vsn e ↔ dropped st e = false) as Hiff
      by (unfold dropped, relevant; rewrite orb_false_iff, Z.leb_gt; naive_solver).
    destruct (decide (dropped st e = false)) as [Hdr|Hdr].
    + rewrite decide_True by (by apply Hiff). cbn. by rewrite Hv.
    + rewrite decide_False by naive_solver. done.
  - intros e0. rewrite evsOf_app, app_assoc, elem_of_app. intros [H|H]; [by apply fromQueue_S, Hsrc|].
    apply list_elem_of_singleton in H as ->. exists p, e. split_and!; [lia|done..].
Qed.
(** A flush marker comes or goes. *)
Lemma chanOk_flush p st la lg ch w c :
  chanOk p st la lg ch w c → chanOk p st la lg (ch ++ [MFlush]) w c.
Proof.
  assert (evsOf (ch ++ [MFlush]) = evsOf ch) as E by (rewrite evsOf_app; apply app_nil_r).
  intros [Hl Ho Hs Hb Hd Hsrc]. split; unfold owes in *; rewrite ?E; done.
Qed.
Lemma chanOk_unflush p st la lg ch b w c :
  chanOk p st la lg (MFlush :: ch) (Batching b) c → w = Batching b ∨ w = Exec b ∧ b ≠ [] →
  chanOk p st la lg ch w c.
Proof. intros [Hl Ho Hs Hb Hd Hsrc] [->|[-> ?]]; split; done. Qed.
(** An event already applied, or of the wrong role, is dropped. *)
Lemma chanOk_drop p st la lg ch b c e :
  chanOk p st la lg (MEvent e :: ch) (Batching b) c → dropped st e = true →
  chanOk p st la lg ch (Batching b) c.
Proof.
  intros [Hl Ho Hs Hb Hd Hsrc] Hdr. split; [done| |done|done|done|].
  - rewrite <- Ho. unfold owes. cbn [evsOf omap list_omap]. rewrite filter_cons, decide_False by congruence.
    done.
  - intros e' He'. apply Hsrc. cbn in *. set_solver.
Qed.
(** An event is taken into the batch. *)
Lemma chanOk_recv p st la lg ch b c e :
  chanOk p st la lg (MEvent e :: ch) (Batching b) c → dropped st e = false →
  chanOk p st la lg ch (Batching (b ++ [e])) c.
Proof.
  intros [Hl Ho Hs Hb Hd Hsrc] Hdr. split; [done| |done|done|done|].
  - rewrite <- Ho. unfold owes, uncommitted. cbn [evsOf omap list_omap]. rewrite filter_cons, decide_True by done.
    by rewrite <- app_assoc.
  - intros e' He'. apply Hsrc. cbn in *. set_solver.
Qed.
Lemma chanOk_close p st la lg ch b c :
  chanOk p st la lg ch (Batching b) c → b ≠ [] → chanOk p st la lg ch (Exec b) c.
Proof. intros [Hl Ho Hs Hb Hd Hsrc] ?; split; done. Qed.
(** The batch commits: the log, the row and the worker move together. *)
Lemma chanOk_commit p st la lg ch b w c :
  chanOk p st la lg ch (Exec b) c → w = Finish b ∨ w = Retry b →
  chanOk p st (lastVsn b) (lg ++ map Vsn b) ch w c.
Proof.
  intros Hck Hw. pose proof Hck as [Hl Ho Hs Hb Hd Hsrc].
  assert (owes la st ch (Exec b) = map Vsn b ++ map Vsn (filter (λ e, dropped st e = false) (evsOf ch)))
    as E by apply map_app.
  destruct (chanOk_head _ _ _ _ _ _ _ _ _ Hck E Hb) as [Hlt Hlog].
  assert (uncommitted (lastVsn b) w = []) as Eu.
  { destruct Hw as [->| ->]; [done|]. cbn. by rewrite Z.leb_refl. }
  split.
  - done.
  - rewrite <- Ho, E, <- app_assoc. unfold owes. by rewrite Eu.
  - lia.
  - by destruct Hw as [->| ->].
  - destruct Hw as [->| ->]; [intros e He|intros _ e He]; apply elem_of_app; right;
      apply list_elem_of_fmap; eauto.
  - intros e' He'. apply Hsrc. by destruct Hw as [->| ->].
Qed.
(** The attempt fails without committing. *)
Lemma chanOk_error p st la lg ch b c :
  chanOk p st la lg ch (Exec b) c → chanOk p st la lg ch (Retry b) c.
Proof.
  intros Hck. pose proof Hck as [Hl Ho Hs Hb Hd Hsrc].
  destruct (chanOk_head _ _ _ _ _ _ _ b _ Hck (map_app _ _ _) Hb) as [Hlt _].
  split; [done| |done|done|lia|done].
  rewrite <- Ho. unfold owes, uncommitted. by rewrite (proj2 (Z.leb_gt _ _)).
Qed.
(** The check tells the two cases apart. *)
Lemma chanOk_check p st la lg ch b c :
  chanOk p st la lg ch (Retry b) c →
  chanOk p st la lg ch (if lastVsn b <=? la then Finish b else Exec b) c.
Proof.
  intros [Hl Ho Hs Hb Hd Hsrc]. unfold owes, uncommitted in *.
  destruct (Z.leb_spec (lastVsn b) la); split; auto.
Qed.
Lemma chanOk_finish p st la lg ch b c :
  chanOk p st la lg ch (Finish b) c → chanOk p st la lg ch (Batching []) c.
Proof.
  intros [Hl Ho Hs Hb Hd Hsrc]; split; [done..|]. intros e' He'. apply Hsrc. cbn in *. set_solver.
Qed.
(** A restart from [p'] keeps the log; nothing owed lies before [p']. *)
Lemma chanOk_restart p p' st la lg ch w c :
  chanOk p st la lg ch w c → (p' ≤ length input)%nat →
  (∀ i e, (i < p')%nat → input !! i = Some e → relevant c e → Vsn e ≤ la) →
  chanOk p' la la lg [] (Batching []) c.
Proof.
  intros [Hl Ho Hs Hb Hd Hsrc] Hp' Hseg. split; [done| |lia|done|done|set_solver].
  change (owes la la [] (Batching [])) with (@nil Z). rewrite app_nil_r, Hl.
  destruct (leq_mono_prefix (owed c input) la (Z.max la (frontier p')) (owed_input_sorted c))
    as (Y & E & HY); [lia|]. rewrite E.
  destruct Y as [|v Y]; [by rewrite app_nil_r|exfalso].
  assert (v ∈ leq (Z.max la (frontier p')) (owed c input)) as Hv by (rewrite E; set_solver).
  specialize (HY v ltac:(left)). apply elem_of_leq in Hv as [Hle Hv].
  apply elem_of_owed in Hv as (e & Hin & Hr & ->). apply list_elem_of_lookup in Hin as [i Hi].
  destruct (decide (i < p')%nat) as [Hlt|Hge]; [pose proof (Hseg _ _ Hlt Hi Hr); lia|].
  assert (frontier p' < Vsn e); [|lia].
  destruct (input !! p') as [e'|] eqn:Hp; [|apply lookup_ge_None in Hp; apply lookup_lt_Some in Hi; lia].
  pose proof (frontier_lt _ _ Hp). destruct (decide (i = p')) as [->|]; [naive_solver|].
  pose proof (input_lookup_lt p' i e' e ltac:(lia) Hp Hi). lia.
Qed.
(** When nothing is owed any more, the log covers the queue up to [p]. *)
Lemma chanOk_drained p st la lg c i e :
  chanOk p st la lg [] (Batching []) c → (i < p)%nat → (p ≤ length input)%nat →
  input !! i = Some e → relevant c e → Vsn e ≤ la.
Proof.
  intros [Hl Ho _ _ _ _] Hip Hp Hi Hr.
  change (owes la st [] (Batching [])) with (@nil Z) in Ho. rewrite app_nil_r, Hl in Ho.
  assert (Vsn e ∈ leq (Z.max st (frontier p)) (owed c input)) as Hin.
  { apply elem_of_leq. split; [pose proof (frontier_ge _ _ _ Hip Hi Hp); lia|].
    apply elem_of_owed. exists e. split_and!; [by eapply list_elem_of_lookup_2|done..]. }
  rewrite <- Ho in Hin. by apply elem_of_leq in Hin as [? _].
Qed.

(** ** The whole system: what every reachable state satisfies *)
Definition la (s : sys) (c : Z) : Z := last_applied_vsn (rows (db s) c).

Record Inv1 (s : sys) : Prop := {
  i_pos : (pos s ≤ length input)%nat;
  i_seg : (segStart s ≤ pos s)%nat;
  i_main : match main s with
           | MIdle => True
           | MPut e h | MSend e h =>
               input !! pos s = Some e ∧ IsCutoverEvent e = false ∧ hashOf e = Ok h
           end;
  i_chan : ∀ c, chanOk (pos s) (start s c) (la s c) (logOf (db s) c) (chans s c) (workers s c) c;
  i_segdone : ∀ c i e, (i < segStart s)%nat → input !! i = Some e → relevant c e → Vsn e ≤ la s c }.

#[local] Arguments commitBatch : simpl never.
#[local] Arguments RemoveEvents : simpl never.
Lemma commit_row d c b c' :
  rows (commitBatch d c b) c' =
    if decide (c' = c) then mkChannelRow (lastVsn b) (Merge (counts (rows d c)) (tally b))
    else rows d c'.
Proof.
  unfold commitBatch. cbn [rows]. destruct (NewEventBatch_facts b c) as (He & _ & Hc & _).
  cbn zeta in He, Hc. rewrite He, Hc. done.
Qed.
Lemma commit_applied d c b : applied (commitBatch d c b) = applied d ++ map (pair c) b.
Proof.
  unfold commitBatch. cbn [applied]. destruct (NewEventBatch_facts b c) as (He & Hn & _).
  cbn zeta in He, Hn. by rewrite He, Hn.
Qed.
Lemma commit_log d c b c' :
  logOf (commitBatch d c b) c' = logOf d c' ++ (if decide (c' = c) then map Vsn b else []).
Proof.
  unfold logOf. rewrite commit_applied, filter_app, map_app. f_equal. case_decide as Hc.
  - subst. induction b as [|e b IH]; [done|]. cbn [map]. rewrite filter_cons_True by done.
    cbn [map]. by rewrite IH.
  - induction b as [|e b IH]; [done|]. cbn [map]. rewrite filter_cons_False by (cbn; congruence). done.
Qed.

Lemma Inv1_initial : Inv1 initial.
Proof. split; cbn; [lia|lia|done|intros c; apply chanOk_init|intros; lia]. Qed.

Lemma input_pos p e : input !! p = Some e → (S p ≤ length input)%nat.
Proof. intros H. apply lookup_lt_Some in H. lia. Qed.

(** A step of worker [c] changes that channel's queue and phase, nothing else. *)
Lemma Inv1_worker s c l w ca :
  Inv1 s → chanOk (pos s) (start s c) (la s c) (logOf (db s) c) l w c →
  Inv1 (set_cache (set_worker (set_chan s c l) c w) ca).
Proof.
  intros [Hp Hs Hm Hc Hd] Hok. split; try done. intros c'. cbn. unfold la. cbn.
  destruct (decide (c' = c)) as [->|Hne]; rewrite ?upd_eq, ?upd_ne by done; [done|apply Hc].
Qed.
(** A commit of worker [c] also moves its row and its log. *)
Lemma Inv1_commit s c b w :
  Inv1 s → workers s c = Exec b → w = Finish b ∨ w = Retry b →
  Inv1 (set_worker (set_db s (commitBatch (db s) c b)) c w).
Proof.
  intros [Hp Hs Hm Hc Hd] Hw Hw'. pose proof (Hc c) as Hcc. rewrite Hw in Hcc.
  assert (∀ c', la s c' ≤ last_applied_vsn (rows (commitBatch (db s) c b) c')) as Hmono.
  { intros c'. rewrite commit_row. case_decide as Hd'; [subst; cbn|done].
    destruct (chanOk_head _ _ _ _ _ _ _ b _ Hcc (map_app _ _ _)) as [Hlt _]; [apply Hcc|lia]. }
  split; [done|done|done| |].
  - intros c'. cbn. unfold la. cbn. rewrite commit_row, commit_log.
    destruct (decide (c' = c)) as [->|Hne].
    + rewrite upd_eq. cbn. by eapply chanOk_commit.
    + rewrite upd_ne, app_nil_r by done. apply Hc.
  - intros c' i e Hi He Hr. etrans; [by eapply Hd|apply Hmono].
Qed.

Lemma set_chan_id s c : ∀ c', chans s c' = chans (set_chan s c (chans s c)) c'.
Proof. intros c'. cbn. destruct (decide (c' = c)) as [->|]; [by rewrite upd_eq|by rewrite upd_ne]. Qed.
Lemma Inv1_ext s s' :
  Inv1 s → main s' = main s → pos s' = pos s → segStart s' = segStart s →
  (∀ c, chans s' c = chans s c) → (∀ c, workers s' c = workers s c) →
  start s' = start s → db s' = db s → Inv1 s'.
Proof.
  intros [Hp Hs Hm Hc Hd] E1 E2 E3 E4 E5 E6 E7. split.
  - by rewrite E2.
  - by rewrite E2, E3.
  - by rewrite E1, E2.
  - intros c. unfold la. rewrite E2, E4, E5, E6, E7. apply Hc.
  - intros c i e. unfold la. rewrite E3, E7. apply Hd.
Qed.
(** Releasing an event only changes where the main goroutine is. *)
Lemma Inv1_main s m :
  Inv1 s → match m with
           | MIdle => True
           | MPut e h | MSend e h =>
               input !! pos s = Some e ∧ IsCutoverEvent e = false ∧ hashOf e = Ok h
           end → Inv1 (set_main s m).
Proof. intros [Hp Hs Hm Hc Hd] H. split; done. Qed.
Lemma Inv1_send s e e' h :
  Inv1 s → main s = MSend e h → ConvertEvent e = Ok e' →
  Inv1 (set_pos (set_main (set_chan s h (chans s h ++ [MEvent e'])) MIdle) (S (pos s))).
Proof.
  intros [Hp Hs Hm Hc Hd] Hmain Hconv. rewrite Hmain in Hm. destruct Hm as (He & Hcut & Hh).
  split; cbn; [by eapply input_pos|lia|done| |done].
  intros c. unfold la. cbn. destruct (decide (c = h)) as [->|Hne].
  - rewrite upd_eq. by eapply chanOk_send.
  - rewrite upd_ne by done. eapply chanOk_pass; [apply Hc|done|]. intros (_ & _ & Hr). congruence.
Qed.

Lemma Inv1_step s s' : Inv1 s → step s s' → Inv1 s'.
Proof.
  intros HI Hstep. destruct Hstep as
    [s e Hm He Hr|s e Hn Hcut _|s e h Hn Hcut Hh _|s e h Hn Hcut Hh _ _|s e h Hn Hcut Hh _ _ _
    |s e h infos _ _ _ _ _ _ _|s e h ca Hm Hput|s e e' h Hm Hconv _|s Hdr _
    |s c e l b Hc Hw _ Hd|s c e l b Hc Hw _ Hd|s c l b Hc Hw _|s c b Hw Hne|s c b Hw|s c b Hw
    |s c b Hw|s c b Hw|s c b Hw|s];
    try (pose proof (i_chan _ HI c) as Hck; rewrite Hw in Hck; try rewrite Hc in Hck).
  - by apply (Inv1_ext s).
  - destruct HI as [Hp Hs Hmn Hc Hd]. destruct Hn as (Hm & He & _).
    split; cbn; [by eapply input_pos|lia|by rewrite Hm| |done].
    intros c. eapply chanOk_pass; [apply Hc|done|]. unfold relevant. rewrite Hcut. naive_solver.
  - apply Inv1_main; [done|]. by destruct Hn as (_ & ? & _).
  - apply Inv1_main; [done|]. by destruct Hn as (_ & ? & _).
  - apply Inv1_main; [done|]. destruct Hn as (_ & ? & _). by case_decide.
  - destruct HI as [Hp Hs Hmn Hc Hd]. split; try done. intros c. cbn. unfold flushAll.
    repeat case_match; first [apply Hc | apply chanOk_flush, Hc].
  - apply Inv1_main; [by apply (Inv1_ext s)|]. pose proof (i_main _ HI) as H. by rewrite Hm in H.
  - by eapply Inv1_send.
  - destruct HI as [Hp Hs Hmn Hc Hd]. split; try done. intros c i e Hi He Hr. cbn in Hi.
    destruct Hdr as [_ Hdr]. destruct (Hdr c) as [Ec Ew]. specialize (Hc c). rewrite Ec, Ew in Hc.
    by eapply chanOk_drained.
  - apply (Inv1_ext (set_cache (set_worker (set_chan s c l) c (Batching b)) (RemoveEvents (cache s) [e]).1));
      [|done..| |done|done].
    + apply Inv1_worker; [done|]. by eapply chanOk_drop.
    + intros c'. cbn. destruct (decide (c' = c)) as [->|]; [by rewrite upd_eq|by rewrite upd_ne].
  - apply (Inv1_ext (set_cache (set_worker (set_chan s c l) c (Batching (b ++ [e]))) (cache s))); [|done..].
    apply Inv1_worker; [done|]. by eapply chanOk_recv.
  - apply (Inv1_ext (set_cache (set_worker (set_chan s c l) c
             (if decide (b = []) then Batching [] else Exec b)) (cache s))); [|done..].
    apply Inv1_worker; [done|]. eapply chanOk_unflush; [exact Hck|].
    case_decide; [left; by subst|right; done].
  - eapply (Inv1_ext (set_cache (set_worker (set_chan s c (chans s c)) c (Exec b)) (cache s)));
      [|done..|exact (set_chan_id s c)|done|done|done].
    apply Inv1_worker; [done|]. by apply chanOk_close.
  - apply Inv1_commit; auto.
  - apply Inv1_commit; auto.
  - eapply (Inv1_ext (set_cache (set_worker (set_chan s c (chans s c)) c (Retry b)) (cache s)));
      [|done..|exact (set_chan_id s c)|done|done|done].
    apply Inv1_worker; [done|]. by apply chanOk_error.
  - eapply (Inv1_ext (set_cache (set_worker (set_chan s c (chans s c)) c
             (if IsEventBatchAlreadyImported (db s) c b then Finish b else Exec b)) (cache s)));
      [|done..|exact (set_chan_id s c)|done|done|done].
    apply Inv1_worker; [done|]. by apply chanOk_check.
  - eapply (Inv1_ext (set_cache (set_worker (set_chan s c (chans s c)) c (Batching []))
             (RemoveEvents (cache s) b).1)); [|done..|exact (set_chan_id s c)|done|done|done].
    apply Inv1_worker; [done|]. by eapply chanOk_finish.
  - destruct HI as [Hp Hs Hmn Hc Hd]. split; cbn; [lia|lia|done| |done].
    intros c. eapply chanOk_restart; [apply Hc|lia|intros i e; apply Hd].
Qed.
Lemma Inv1_reachable s : reachable s → Inv1 s.
Proof.
  apply rtc_invariant; [apply Inv1_initial|]. intros y z. apply Inv1_step.
Qed.

(** ** Conflicting events are applied in commit order *)
Definition appliedVsns (d : DB) : list Z := map (λ p, Vsn p.2) (applied d).
Definition before (x y : Z) (l : list Z) : Prop := ∃ l1 l2 l3, l = l1 ++ x :: l2 ++ y :: l3.

(** The main goroutine has put the event at [i] in the cache if it belongs there;
    it has let the event at [i] pass the conflict check. *)
Definition handled (s : sys) (i : nat) : Prop :=
  (i < pos s)%nat ∨ i = pos s ∧ ∃ e h, main s = MSend e h.
Definition released (s : sys) (i : nat) : Prop := (i < pos s)%nat ∨ i = pos s ∧ main s ≠ MIdle.
Definition inFlight (s : sys) (v : Z) : Prop :=
  (∃ e h, main s = MSend e h ∧ Vsn e = v) ∨
  ∃ c, v ∈ map Vsn (batchOf (workers s c) ++ evsOf (chans s c)).

(** An event that is cached while it is in flight. *)
Definition cacheable (e : Event) : Prop :=
  mustCheck e = Ok true ∧ (Op e = "d" ∨ Op e = "u") ∧ IsCutoverEvent e = false ∧
  roleMismatch e = false.
Definition sameRun (i p : nat) (r : string) : Prop :=
  ∀ k e, (i ≤ k < p)%nat → input !! k = Some e → ExporterRole e = r.

(** Two source events of the queue, the earlier an update or delete that frees
    unique values the later one claims on another channel, with no change of
    exporter in between. *)
Definition conflictPair (i j : nat) (ei ej : Event) : Prop :=
  (i < j)%nat ∧ input !! i = Some ei ∧ input !! j = Some ej ∧
  sameRun i (S j) (ExporterRole ej) ∧ isTargetDBExporter (ExporterRole ej) = false ∧
  IsCutoverEvent ei = false ∧ roleMismatch ei = false ∧ (Op ei = "d" ∨ Op ei = "u") ∧
  conflictsWith ti (Some pm) (Copy ei) ej.

Record Inv2 (s : sys) (S : gmap Z Event) : Prop := {
  j_cache : ConflictCache.Inv ti (cache s) S;
  j_S : ∀ v e, S !! v = Some e →
    ∃ j e0, input !! j = Some e0 ∧ e = Copy e0 ∧ v = Vsn e0 ∧ handled s j ∧ inFlight s v;
  j_cover : ∀ i e, input !! i = Some e → (segStart s ≤ i)%nat → handled s i →
    ExporterRole e = prevRole s → sameRun i (pos s) (prevRole s) → cacheable e →
    is_Some (S !! Vsn e) ∨ Vsn e ∈ appliedVsns (db s);
  j_prev : (segStart s < pos s)%nat → ∃ p e, pos s = Datatypes.S p ∧ input !! p = Some e ∧
    (ExporterRole e = prevRole s ∨ ∃ e', input !! pos s = Some e' ∧ ExporterRole e' = prevRole s);
  j_main : main s ≠ MIdle → ∃ e, input !! pos s = Some e ∧ ExporterRole e = prevRole s;
  j_rel : ∀ i j ei ej, conflictPair i j ei ej → released s j → Vsn ei ∈ appliedVsns (db s);
  j_order : ∀ i j ei ej, conflictPair i j ei ej → Vsn ej ∈ appliedVsns (db s) →
    before (Vsn ei) (Vsn ej) (appliedVsns (db s)) }.

Lemma elem_of_logOf d c v : v ∈ logOf d c → v ∈ appliedVsns d.
Proof.
  unfold logOf, appliedVsns. rewrite !list_elem_of_fmap. intros (p & -> & [_ H]%list_elem_of_filter). eauto.
Qed.
Lemma before_app x y l l' : before x y l → before x y (l ++ l').
Proof.
  intros (l1 & l2 & l3 & ->). exists l1, l2, (l3 ++ l').
  rewrite <- app_assoc. cbn. by rewrite <- app_assoc.
Qed.
Lemma before_new x y l l' : x ∈ l → y ∈ l' → before x y (l ++ l').
Proof.
  intros (a & b & ->)%list_elem_of_split (c & d & ->)%list_elem_of_split.
  exists a, (b ++ c), d. rewrite <- app_assoc. cbn. by rewrite <- app_assoc.
Qed.

Lemma partitionKey_Copy e o : GetEventPartitionKey (Copy e) o = GetEventPartitionKey e o.
Proof.
  unfold GetEventPartitionKey. destruct o as [p|]; [|done]. cbn [TableNameTup Copy].
  destruct (StructMap.Get p _) as [[st cols]|]; [|done]. cbn [Strategy Columns].
  assert (∀ k, pkPiece (Copy e) k = pkPiece e k) as Hp.
  { intros k. unfold pkPiece. cbn [EvKey Copy]. by rewrite golookup_Copy. }
  assert (∀ k, customPiece (Copy e) k = customPiece e k) as Hc.
  { intros k. unfold customPiece, customPartitionKeyColumnValue. cbn [Op Fields BeforeFields Copy].
    by rewrite !golookup_Copy. }
  change (entries (EvKey (Copy e))) with (entries (EvKey e)).
  case_decide; [by rewrite (mapM_result_ext _ (pkPiece e))|].
  case_decide; [done|]. case_decide; [|done]. destruct cols; [done|].
  by rewrite (mapM_result_ext _ (customPiece e)).
Qed.
Lemma mustCheck_key e e' :
  ForKey (TableNameTup e) = ForKey (TableNameTup e') → mustCheck e = mustCheck e'.
Proof.
  intros H. unfold mustCheck, shouldHandleConflicts, StructMap.Get, Key, NameTuple_Keyer. by rewrite H.
Qed.
(** An event that is not checked has no conflict: its table has no unique index,
    or all its events share one channel. *)
Lemma unchecked_no_conflict ca e : mustCheck e = Ok false → ¬ conflictsWith ti (Some pm) ca e.
Proof.
  unfold mustCheck, shouldHandleConflicts. intros H (_ & Hkey & ix & fs & Hix & _ & _ & _ & _ & k & k' & Hk & Hk' & Hne).
  destruct (StructMap.Get pm (TableNameTup e)) as [p|] eqn:Hp; [|done]. injection H as H.
  apply negb_false_iff, orb_true_iff in H as [H|H].
  - apply Nat.eqb_eq, length_zero_iff_nil in H. unfold indexesOf in Hix. rewrite H in Hix. set_solver.
  - apply bool_decide_eq_true in H. apply Hne.
    assert (StructMap.Get pm (TableNameTup ca) = Some p) as Hp'.
    { rewrite <- Hp. unfold StructMap.Get, Key, NameTuple_Keyer. by rewrite Hkey. }
    unfold GetEventPartitionKey in Hk, Hk'. rewrite Hp, H in Hk. rewrite Hp', H in Hk'.
    rewrite decide_False in Hk, Hk' by done. rewrite decide_True in Hk, Hk' by done. congruence.
Qed.
Lemma conflict_op ca e : conflictsWith ti (Some pm) ca e → Op e = "c" ∨ Op e = "u".
Proof. intros (_ & _ & ix & fs & _ & [[_ [?|[? _]]]|(_ & ? & _)] & _); auto. Qed.
Lemma cutover_op e : IsCutoverEvent e = true → Op e ≠ "c" ∧ Op e ≠ "u".
Proof.
  unfold IsCutoverEvent, IsCutoverToTarget, IsCutoverToSourceReplica, IsCutoverToSource.
  rewrite !orb_true_iff, !bool_decide_eq_true. intros [[->| ->]| ->]; done.
Qed.
Lemma hashOf_channels e h : hashOf e = Ok h → NUM_EVENT_CHANNELS ≠ 0.
Proof. unfold hashOf, hashEvent. rewrite bind_Ok. intros (k & _ & H). by case_decide. Qed.

Context (ti_named : wellNamed ti).

(** At the moment the wait ends, the earlier half of every conflicting pair has
    been applied. *)
Lemma clear_applied s S e h i ei :
  Inv1 s → Inv2 s S → next s e → hashOf e = Ok h → mustCheck e = Ok true →
  conflictsNow s e = Ok [] → conflictPair i (pos s) ei e → Vsn ei ∈ appliedVsns (db s).
Proof.
  intros HI HJ (Hm & He & Hrole) Hh Hmust Hnow (Hij & Hi & _ & Hrun & Htgt & Hcut & Hmis & Hop & Hcw).
  assert (ExporterRole ei = ExporterRole e) as Hri by (eapply Hrun; [|exact Hi]; lia).
  pose proof Hcw as (Hnt & Hkey & ix & fs & _ & _ & _ & _ & _ & k & k' & _ & Hk' & _).
  destruct (decide (i < segStart s)%nat) as [Hlt|Hge].
  - rewrite partitionKey_Copy in Hk'. pose proof (hashOf_channels _ _ Hh) as HN.
    assert (∃ c, hashOf ei = Ok c) as [c Hc].
    { unfold hashOf, hashEvent. rewrite Hk'. cbn. rewrite decide_False by done. eauto. }
    assert (relevant c ei) as Hr by (split_and!; done).
    apply (elem_of_logOf _ c). rewrite (ck_log _ _ _ _ _ _ _ (i_chan _ HI c)).
    apply elem_of_leq. split; [by eapply (i_segdone _ HI)|].
    apply elem_of_owed. exists ei. split_and!; [by eapply list_elem_of_lookup_2|done..].
  - destruct (j_cover _ _ HJ i ei) as [[e' HS]|]; [done|lia|by left|by rewrite Hrole| | |exfalso|done].
    + intros q eq Hq Heq. rewrite Hrole. eapply Hrun; [|exact Heq]. lia.
    + split_and!; [|done..]. rewrite (mustCheck_key ei e); [done|]. exact Hkey.
    + destruct (j_S _ _ HJ _ _ HS) as (j & e0 & Hj & -> & Hv & _).
      assert (j = i) as -> by (eapply input_vsn_inj; [exact Hj|exact Hi|congruence]).
      assert (e0 = ei) as -> by congruence.
      destruct (proj2 (findConflict_is_scan ti (Some pm) (cache s) S e [] ti_named (j_cache _ _ HJ)
                  Htgt Hnow (Copy ei))) as (info & Hin & _); [eauto|set_solver].
Qed.

Lemma Inv2_initial : Inv2 initial ∅.
Proof.
  split; cbn.
  - apply Inv_New.
  - intros v e. by rewrite lookup_empty.
  - intros i e _ _ [H|[-> (?&?&[=])]]; cbn in H; lia.
  - lia.
  - done.
  - intros i j ei ej _ [H|[_ H]]; [cbn in H; lia|done].
  - intros i j ei ej _ H. set_solver.
Qed.

(** Steps that move messages between a queue and a worker, or a worker from phase
    to phase, without losing one. *)
Lemma Inv2_frame s s' S :
  Inv2 s S → main s' = main s → pos s' = pos s → segStart s' = segStart s →
  cache s' = cache s → prevRole s' = prevRole s → applied (db s') = applied (db s) →
  (∀ v, inFlight s v → inFlight s' v) → Inv2 s' S.
Proof.
  intros [J1 J2 J3 J4 J5 J6 J7] E1 E2 E3 E4 E5 E6 Hf.
  split; unfold handled, released, appliedVsns in *; rewrite ?E1, ?E2, ?E3, ?E4, ?E5, ?E6 in *; try done.
  intros v e HS. destruct (J2 _ _ HS) as (j & e0 & ? & ? & ? & ? & ?). exists j, e0. eauto 10.
Qed.
(** In flight on a channel. *)
Lemma inFlight_chan s s' c :
  main s' = main s →
  (∀ c', c' ≠ c → chans s' c' = chans s c' ∧ workers s' c' = workers s c') →
  (∀ e, e ∈ batchOf (workers s c) ++ evsOf (chans s c) → e ∈ batchOf (workers s' c) ++ evsOf (chans s' c)) →
  ∀ v, inFlight s v → inFlight s' v.
Proof.
  intros Em Hne Hc v [H|[c' H]]; [left; by rewrite Em|right]. exists c'.
  destruct (decide (c' = c)) as [->|Hn]; [|destruct (Hne _ Hn) as [-> ->]; done].
  apply list_elem_of_fmap in H as (e & -> & H). apply list_elem_of_fmap. eauto.
Qed.

Lemma inFlight_main s s' v :
  (∀ c, chans s' c = chans s c ∧ workers s' c = workers s c) → main s = MIdle →
  inFlight s v → inFlight s' v.
Proof.
  intros Hc Hm [(e & h & H & _)|[c H]]; [congruence|]. right. exists c. by destruct (Hc c) as [-> ->].
Qed.

(** Another exporter's events begin: the new cache owes nothing. *)
Lemma Inv2_renew s S e :
  Inv2 s S → main s = MIdle → input !! pos s = Some e → prevRole s ≠ ExporterRole e →
  Inv2 (renew s (ExporterRole e)) ∅.
Proof.
  intros [J1 J2 J3 J4 J5 J6 J7] Hm He Hr. split; cbn; try done.
  - apply Inv_New.
  - intros i ei Hi Hseg [Hlt|[_ (?&?&H)]] Hrole Hrun _; [|cbn in H; congruence]. cbn in Hlt. exfalso.
    destruct J4 as (p & ep & Hp & Hep & [H|(e' & He' & H)]); [lia|..].
    + apply Hr. rewrite <- H. apply (Hrun p); [lia|done].
    + congruence.
  - intros Hlt. destruct (J4 Hlt) as (p & ep & Hp & Hep & _). exists p, ep. split_and!; [done..|]. eauto.
Qed.

(** The main goroutine lets the event at [pos] pass. *)
Lemma Inv2_release s S e m :
  Inv2 s S → next s e → m ≠ MIdle →
  (∀ e' h, m = MSend e' h → ¬ cacheable e) →
  (∀ i ei, conflictPair i (pos s) ei e → Vsn ei ∈ appliedVsns (db s)) →
  Inv2 (set_main s m) S.
Proof.
  intros [J1 J2 J3 J4 J5 J6 J7] (Hm & He & Hrole) Hne Hnc Hcl. split; cbn; try done.
  - intros v e' HS. destruct (J2 _ _ HS) as (j & e0 & Hj & -> & -> & Hh & Hf).
    exists j, e0. split_and!; [done..| |by apply (inFlight_main s)].
    destruct Hh as [Hlt|[_ (?&?&H)]]; [by left|congruence].
  - intros i ei Hi Hseg [Hlt|[-> (e' & h & Hms)]] Hr Hrun Hca; [apply J3 with i; try done; by left|].
    cbn in *. assert (ei = e) as -> by congruence. by destruct (Hnc _ _ Hms).
  - intros _. exists e. done.
  - intros i j ei ej Hp [Hlt|[-> _]]; [eapply J6; [done|by left]|]. cbn in *.
    assert (ej = e) as -> by (destruct Hp as (_ & _ & Hj & _); congruence). by eapply Hcl.
Qed.

(** The event enters the cache. *)
Lemma Inv2_put s S e h ca :
  Inv1 s → Inv2 s S → main s = MPut e h → Put ti (cache s) e = (ca, Ok tt) →
  Inv2 (set_main (set_cache s ca) (MSend e h)) (<[Vsn e := Copy e]> S).
Proof.
  intros HI [J1 J2 J3 J4 J5 J6 J7] Hm Hput. pose proof (i_main _ HI) as H. rewrite Hm in H.
  destruct H as (He & Hcut & _).
  assert (S !! Vsn e = None) as Hfresh.
  { apply eq_None_not_Some. intros [e' HS]. destruct (J2 _ _ HS) as (j & e0 & Hj & _ & Hv & Hh & _).
    assert (j = pos s) as -> by (by eapply input_vsn_inj).
    destruct Hh as [Hlt|[_ (?&?&H)]]; [lia|congruence]. }
  assert (∀ v, inFlight s v → inFlight (set_main (set_cache s ca) (MSend e h)) v) as Hf.
  { intros v [(?&?&H&_)|H]; [congruence|by right]. }
  split; cbn; try done.
  - by eapply Put_inv.
  - intros v e'. rewrite lookup_insert. case_decide as Hv.
    + intros [= <-]. subst v. exists (pos s), e. split_and!; [done..|right; cbn; eauto|left; cbn; eauto].
    + intros HS. destruct (J2 _ _ HS) as (j & e0 & Hj & -> & -> & Hh & Hfl).
      exists j, e0. split_and!; [done..| |by apply Hf].
      destruct Hh as [Hlt|[_ (?&?&H)]]; [by left|congruence].
  - intros i ei Hi Hseg Hh Hr Hrun Hca. rewrite lookup_insert.
    case_decide as Hv; [left; eauto|].
    destruct Hh as [Hlt|[-> _]]; [|cbn in Hi; congruence].
    apply J3 with i; try done. by left.
  - intros _. apply J5. by rewrite Hm.
  - intros i j ei ej Hp [Hlt|[-> _]]; (eapply J6; [exact Hp|]); [by left|right; split; [done|by rewrite Hm]].
Qed.

(** The event is sent: it is now in its channel. *)
Lemma Inv2_send s S e e' h :
  Inv1 s → Inv2 s S → main s = MSend e h → ConvertEvent e = Ok e' →
  Inv2 (set_pos (set_main (set_chan s h (chans s h ++ [MEvent e'])) MIdle) (Datatypes.S (pos s))) S.
Proof.
  intros HI [J1 J2 J3 J4 J5 J6 J7] Hm Hconv. pose proof (i_main _ HI) as H. rewrite Hm in H.
  destruct H as (He & Hcut & Hh). destruct (convert_id _ _ Hconv) as [Hv Hr].
  destruct J5 as (e0 & He0 & Hr0); [by rewrite Hm|]. assert (e0 = e) as -> by congruence.
  split; cbn; try done.
  - intros v e1 HS. destruct (J2 _ _ HS) as (j & e2 & Hj & -> & -> & Hhd & Hf).
    exists j, e2. split_and!; [done..|left; cbn; destruct Hhd as [?|[-> _]]; lia|].
    destruct Hf as [(e3 & h3 & H & Hv3)|[c H]]; right.
    + exists h. rewrite Hm in H. injection H as <- <-. cbn. rewrite upd_eq, evsOf_app, app_assoc.
      rewrite map_app, elem_of_app. right. cbn. rewrite Hv, Hv3. by left.
    + exists c. cbn. destruct (decide (c = h)) as [->|Hne]; [|by rewrite upd_ne].
      rewrite upd_eq, evsOf_app, app_assoc, map_app, elem_of_app. by left.
  - intros i ei Hi Hseg [Hlt|[_ (?&?&[=])]] Hrole Hrun Hca. cbn in Hlt.
    apply J3 with i; try done.
    + destruct (decide (i = pos s)) as [->|]; [right; eauto|left; lia].
    + intros k ek Hk. apply Hrun. lia.
  - intros _. exists (pos s), e. eauto.
  - intros i j ei ej Hp [Hlt|[_ H]]; [|done]. cbn in Hlt. eapply J6; [exact Hp|].
    destruct (decide (j = pos s)) as [->|]; [right; by rewrite Hm|left; lia].
Qed.
Lemma Inv2_skip s S e :
  Inv2 s S → next s e → IsCutoverEvent e = true → Inv2 (set_pos s (Datatypes.S (pos s))) S.
Proof.
  intros [J1 J2 J3 J4 J5 J6 J7] (Hm & He & Hr) Hcut. split; cbn; try done.
  - intros v e1 HS. destruct (J2 _ _ HS) as (j & e2 & Hj & -> & -> & Hhd & Hf).
    exists j, e2. split_and!; [done..| |done]. left. cbn. destruct Hhd as [?|[-> _]]; lia.
  - intros i ei Hi Hseg [Hlt|[_ (?&?&H)]] Hrole Hrun Hca; [|cbn in H; congruence]. cbn in Hlt.
    destruct (decide (i = pos s)) as [->|].
    + destruct Hca as (_ & _ & H & _). congruence.
    + apply J3 with i; try done; [left; lia|]. intros k ek Hk. apply Hrun. lia.
  - intros _. exists (pos s), e. eauto.
  - intros i j ei ej Hp [Hlt|[_ H]]; [|by destruct (H Hm)]. cbn in Hlt.
    destruct (decide (j = pos s)) as [->|]; [|eapply J6; [exact Hp|left; lia]].
    exfalso. destruct Hp as (_ & _ & Hj & _ & _ & _ & _ & _ & Hcw).
    assert (ej = e) as -> by congruence. apply conflict_op in Hcw. apply cutover_op in Hcut. naive_solver.
Qed.
Lemma Inv2_segment s S : Inv2 s S → main s = MIdle → Inv2 (set_segStart s (pos s)) S.
Proof.
  intros [J1 J2 J3 J4 J5 J6 J7] Hm. split; cbn; try done; [|lia].
  intros i ei Hi Hseg [Hlt|[_ (?&?&H)]]; [cbn in Hlt; lia|cbn in H; congruence].
Qed.
Lemma Inv2_restart s S : Inv1 s → Inv2 s S → Inv2 (restart s) ∅.
Proof.
  intros HI [J1 J2 J3 J4 J5 J6 J7]. pose proof (i_seg _ HI). split; cbn; try done.
  - apply Inv_New.
  - intros i ei Hi Hseg [Hlt|[_ (?&?&[=])]]; cbn in Hlt; lia.
  - lia.
  - intros i j ei ej Hp [Hlt|[_ ?]]; [|done]. cbn in Hlt. eapply J6; [exact Hp|left; lia].
Qed.

(** Applied events leave the cache. *)
Lemma Inv2_remove s s' S es :
  Inv1 s → Inv2 s S → main s' = main s → pos s' = pos s → segStart s' = segStart s →
  prevRole s' = prevRole s → db s' = db s → cache s' = (RemoveEvents (cache s) es).1 →
  (∀ e, e ∈ es → ∃ c, fromQueue (pos s) c e ∧ (roleMismatch e = false → Vsn e ∈ appliedVsns (db s))) →
  (∀ v, inFlight s v → v ∈ map Vsn es ∨ inFlight s' v) →
  Inv2 s' (foldl (λ S e, delete (Vsn e) S) S es).
Proof.
  intros HI [J1 J2 J3 J4 J5 J6 J7] E1 E2 E3 E4 E5 E6 Hes Hf.
  assert (∀ v e, foldl (λ (S : gmap Z Event) e, delete (Vsn e) S) S es !! v = Some e ↔
            S !! v = Some e ∧ v ∉ map Vsn es) as Hdel.
  { clear. revert S. induction es as [|e0 es IH]; intros S v e; cbn [foldl map]; [set_solver|].
    rewrite IH, lookup_delete_Some, not_elem_of_cons. naive_solver. }
  split; unfold handled, released in *; rewrite ?E1, ?E2, ?E3, ?E4, ?E5, ?E6 in *; try done.
  - by apply RemoveEvents_inv.
  - intros v e [HS Hv]%Hdel. destruct (J2 _ _ HS) as (j & e0 & ? & ? & ? & ? & Hfl).
    exists j, e0. split_and!; [done..|]. by destruct (Hf _ Hfl).
  - intros i ei Hi Hseg Hh Hr Hrun Hca.
    destruct (J3 i ei Hi Hseg Hh Hr Hrun Hca) as [[e' HS]|]; [|by right].
    destruct (decide (Vsn ei ∈ map Vsn es)) as [Hin|Hnin].
    + right. apply list_elem_of_fmap in Hin as (e1 & Hv & Hin).
      destruct (Hes _ Hin) as (c & (j & e2 & Hj & He2 & Hv2 & Hr2 & _) & Happ). rewrite Hv. apply Happ.
      assert (j = i) as -> by (eapply input_vsn_inj; [exact He2|exact Hi|congruence]).
      assert (e2 = ei) as -> by congruence. destruct Hca as (_ & _ & _ & Hmis).
      unfold roleMismatch in *. by rewrite Hr2.
    + left. exists e'. apply Hdel. done.
Qed.

(** A batch commits: its events join the log, each after all it conflicts with. *)
Lemma Inv2_commit s S c b w :
  Inv1 s → Inv2 s S → workers s c = Exec b → batchOf w = b →
  Inv2 (set_worker (set_db s (commitBatch (db s) c b)) c w) S.
Proof.
  intros HI [J1 J2 J3 J4 J5 J6 J7] Hw Hb.
  assert (appliedVsns (commitBatch (db s) c b) = appliedVsns (db s) ++ map Vsn b) as Ea.
  { unfold appliedVsns. rewrite commit_applied, map_app, map_map. done. }
  split; cbn; rewrite ?Ea; try done.
  - intros v e HS. destruct (J2 _ _ HS) as (j & e0 & ? & ? & ? & ? & Hf). exists j, e0.
    split_and!; [done..|]. eapply (inFlight_chan s _ c); [done| |cbn; rewrite upd_eq, Hw, Hb; done|exact Hf].
    intros c' Hne. cbn. by rewrite upd_ne.
  - intros i ei Hi Hseg Hh Hr Hrun Hca. rewrite elem_of_app.
    destruct (J3 i ei Hi Hseg Hh Hr Hrun Hca); auto.
  - intros i j ei ej Hp Hrel. rewrite elem_of_app. left. by eapply J6.
  - intros i j ei ej Hp. rewrite elem_of_app. intros [H|H]; [by eapply before_app, J7|].
    apply before_new; [|done]. eapply J6; [exact Hp|]. left.
    apply list_elem_of_fmap in H as (e & Hv & Hin).
    pose proof (ck_src _ _ _ _ _ _ _ (i_chan _ HI c) e) as Hsrc. rewrite Hw in Hsrc.
    destruct Hsrc as (j' & e' & Hlt & He' & Hv' & _); [apply elem_of_app; by left|].
    destruct Hp as (_ & _ & Hj & _).
    assert (j' = j) as -> by (eapply input_vsn_inj; [exact He'|exact Hj|congruence]). done.
Qed.

Lemma chan_src s c e :
  Inv1 s → e ∈ batchOf (workers s c) ++ evsOf (chans s c) → fromQueue (pos s) c e.
Proof. intros HI He. by apply (ck_src _ _ _ _ _ _ _ (i_chan _ HI c)). Qed.
(** An event of channel [c] at or below the channel's row has been applied. *)
Lemma applied_below s c e :
  Inv1 s → fromQueue (pos s) c e → roleMismatch e = false → Vsn e ≤ la s c →
  Vsn e ∈ appliedVsns (db s).
Proof.
  intros HI (j & e0 & _ & Hj & Hv & Hr & Hh & Hcut) Hmis Hle.
  apply (elem_of_logOf _ c). rewrite (ck_log _ _ _ _ _ _ _ (i_chan _ HI c)).
  apply elem_of_leq. split; [done|]. apply elem_of_owed. exists e0.
  split_and!; [by eapply list_elem_of_lookup_2|split_and!; [done| |done]|done].
  unfold roleMismatch in *. by rewrite <- Hr.
Qed.

Lemma Inv2_worker_step s s' S c l w b :
  Inv1 s → Inv2 s S → workers s c = b →
  s' = set_worker (set_chan s c l) c w →
  (∀ e, e ∈ batchOf b ++ evsOf (chans s c) → e ∈ batchOf w ++ evsOf l) → Inv2 s' S.
Proof.
  intros HI HJ Hw -> Hin. eapply Inv2_frame; [exact HJ|done..|].
  apply (inFlight_chan s _ c); [done| |].
  - intros c' Hne. cbn. by rewrite !upd_ne.
  - cbn. rewrite !upd_eq, Hw. done.
Qed.

Lemma Inv2_flush s S : Inv2 s S → Inv2 (set_flush s) S.
Proof.
  intros HJ. eapply Inv2_frame; [exact HJ|done..|].
  intros v [H|[c H]]; [by left|right]. exists c. cbn. unfold flushAll.
  repeat case_match; try done. by rewrite evsOf_app, app_nil_r.
Qed.
Lemma Inv2_drop s S c e l b :
  Inv1 s → Inv2 s S → chans s c = MEvent e :: l → workers s c = Batching b →
  dropped (start s c) e = true →
  Inv2 (set_cache (set_chan s c l) (RemoveEvents (cache s) [e]).1) (delete (Vsn e) S).
Proof.
  intros HI HJ Hc Hw Hd. apply (Inv2_remove s _ S [e]); try done.
  - intros e' ->%list_elem_of_singleton. exists c.
    assert (fromQueue (pos s) c e) as Hsrc.
    { apply chan_src; [done|]. rewrite Hc. cbn. set_solver. }
    split; [done|]. intros Hmis. apply applied_below with c; try done.
    unfold dropped in Hd. rewrite Hmis, orb_false_r in Hd. apply Z.leb_le in Hd.
    pose proof (ck_start _ _ _ _ _ _ _ (i_chan _ HI c)). lia.
  - intros v [H|[c' H]]; [right; by left|]. destruct (decide (c' = c)) as [->|Hne].
    + rewrite Hc, Hw in H. cbn in H. rewrite map_app, elem_of_app in H. cbn in H.
      rewrite elem_of_cons in H. destruct H as [H|[->|H]]; [|left; by left|]; right; right; exists c; cbn;
        rewrite upd_eq, Hw, map_app, elem_of_app; auto.
    + right. right. exists c'. cbn. by rewrite upd_ne.
Qed.
Lemma Inv2_finish s S c b :
  Inv1 s → Inv2 s S → workers s c = Finish b →
  Inv2 (set_worker (set_cache s (RemoveEvents (cache s) b).1) c (Batching []))
    (foldl (λ S e, delete (Vsn e) S) S b).
Proof.
  intros HI HJ Hw. apply (Inv2_remove s _ S b); try done.
  - intros e He. exists c. split; [apply chan_src; [done|rewrite Hw; cbn; set_solver]|].
    intros _. pose proof (ck_done _ _ _ _ _ _ _ (i_chan _ HI c)) as Hd. rewrite Hw in Hd.
    by eapply elem_of_logOf, Hd.
  - intros v [H|[c' H]]; [right; by left|]. destruct (decide (c' = c)) as [->|Hne].
    + rewrite Hw, map_app, elem_of_app in H. destruct H as [H|H]; [by left|].
      right. right. exists c. cbn. by rewrite upd_eq.
    + right. right. exists c'. cbn. by rewrite upd_ne.
Qed.

Lemma Inv2_step s s' S : Inv1 s → Inv2 s S → step s s' → ∃ S', Inv2 s' S'.
Proof.
  intros HI HJ Hstep. destruct Hstep as
    [s e Hm He Hr|s e Hn Hcut _|s e h Hn Hcut Hh Hmust|s e h Hn Hcut Hh Hmust Hop
    |s e h Hn Hcut Hh Hmust Hop Hnow|s e h infos _ _ _ _ _ _ _|s e h ca Hm Hput|s e e' h Hm Hconv _
    |s [Hm _] _|s c e l b Hc Hw _ Hd|s c e l b Hc Hw _ _|s c l b Hc Hw _|s c b Hw Hne|s c b Hw|s c b Hw
    |s c b Hw|s c b Hw|s c b Hw|s].
  - eexists. by eapply Inv2_renew.
  - eexists. by eapply Inv2_skip.
  - exists S. apply (Inv2_release s S e); try done.
    + intros e' h' _ (Hca & _). congruence.
    + intros i ei (_ & _ & _ & _ & _ & _ & _ & _ & Hcw). by destruct (unchecked_no_conflict _ _ Hmust Hcw).
  - exists S. apply (Inv2_release s S e); try done.
    intros i ei (_ & _ & _ & _ & _ & _ & _ & _ & Hcw). apply conflict_op in Hcw. rewrite Hop in Hcw. naive_solver.
  - exists S. apply (Inv2_release s S e); try done.
    + by case_decide.
    + intros e' h' Hm. case_decide; [done|]. intros (_ & [?|?] & _); done.
    + intros i ei Hp. by eapply clear_applied.
  - exists S. by apply Inv2_flush.
  - eexists. by eapply Inv2_put.
  - exists S. by eapply Inv2_send.
  - exists S. by apply Inv2_segment.
  - eexists. by eapply Inv2_drop.
  - exists S. eapply (Inv2_worker_step s _ S c l (Batching (b ++ [e]))); [done|done|exact Hw|done|].
    rewrite Hc. cbn. intros e0. rewrite <- app_assoc. done.
  - exists S. eapply (Inv2_worker_step s _ S c l); [done|done|exact Hw|done|].
    rewrite Hc. cbn. intros e0. case_decide; subst; done.
  - exists S. eapply Inv2_frame; [exact HJ|done..|].
    apply (inFlight_chan s _ c); [done| |]; [intros c' Hne'; cbn; by rewrite upd_ne|].
    cbn. by rewrite upd_eq, Hw.
  - exists S. by apply Inv2_commit.
  - exists S. by apply Inv2_commit.
  - exists S. eapply Inv2_frame; [exact HJ|done..|].
    apply (inFlight_chan s _ c); [done| |]; [intros c' Hne'; cbn; by rewrite upd_ne|].
    cbn. by rewrite upd_eq, Hw.
  - exists S. eapply Inv2_frame; [exact HJ|done..|].
    apply (inFlight_chan s _ c); [done| |]; [intros c' Hne'; cbn; by rewrite upd_ne|].
    cbn. rewrite upd_eq, Hw. by destruct (IsEventBatchAlreadyImported (db s) c b).
  - eexists. by eapply Inv2_finish.
  - eexists. by eapply Inv2_restart.
Qed.
Lemma Inv_reachable s : reachable s → Inv1 s ∧ ∃ S, Inv2 s S.
Proof.
  apply (rtc_invariant step (λ s, Inv1 s ∧ ∃ S, Inv2 s S)); [split; [apply Inv1_initial|exists ∅; apply Inv2_initial]|].
  intros y z [HI [S HJ]] Hstep. split; [by eapply Inv1_step|by eapply Inv2_step].
Qed.

(** ** The channel's statistics *)
Definition eventsOf (d : DB) (c : Z) : list Event := map snd (filter (λ p, p.1 = c) (applied d)).
Lemma eventsOf_commit d c b c' :
  eventsOf (commitBatch d c b) c' = eventsOf d c' ++ (if decide (c' = c) then b else []).
Proof.
  unfold eventsOf. rewrite commit_applied, filter_app, map_app. f_equal. case_decide as Hc.
  - subst. induction b as [|e b IH]; [done|]. cbn [map]. rewrite filter_cons_True by done.
    cbn [map]. by rewrite IH.
  - induction b as [|e b IH]; [done|]. cbn [map]. rewrite filter_cons_False by (cbn; congruence). done.
Qed.
Definition statsOk (d : DB) : Prop := ∀ c, counts (rows d c) = tally (eventsOf d c).
Lemma statsOk_commit d c b : statsOk d → statsOk (commitBatch d c b).
Proof.
  intros H c'. rewrite commit_row, eventsOf_commit. case_decide; subst; [|by rewrite app_nil_r].
  cbn. by rewrite H, Merge_tally.
Qed.
Lemma statsOk_reachable s : reachable s → statsOk (db s).
Proof.
  apply (rtc_invariant step (λ s, statsOk (db s))); [done|].
  intros y z Hy Hstep. destruct Hstep; try done; by apply statsOk_commit.
Qed.

(** *** What the log holds *)
Lemma log_exact (s : sys) (c : Z) : reachable s → logOf (db s) c = leq (last_applied_vsn (rows (db s) c)) (owed c input).
Proof. intros HI%Inv1_reachable. exact (ck_log _ _ _ _ _ _ _ (i_chan _ HI c)). Qed.
Lemma drained_row (s : sys) (c : Z) (i : nat) (e : Event) :
  reachable s → drained s → pos s = length input → input !! i = Some e → relevant c e → Vsn e ≤ last_applied_vsn (rows (db s) c).
Proof.
  intros HI%Inv1_reachable [_ Hd] Hp Hi Hr. destruct (Hd c) as [Ec Ew].
  pose proof (i_chan _ HI c) as Hc. rewrite Ec, Ew in Hc.
  eapply chanOk_drained; [exact Hc| |by apply Nat.eq_le_incl|exact Hi|exact Hr].
  apply lookup_lt_Some in Hi. lia.
Qed.

(** ** Theorems *)

(** C3: Nothing is lost, nothing is applied twice, whatever crashes: at every moment the
    events applied on a channel are exactly the events of the queue that hash to it and
    concern this importer, in queue order, up to the channel's [last_applied_vsn]. *)
Theorem exactly_once (s : sys) (c : Z) :
  reachable s →
  logOf (db s) c = leq (last_applied_vsn (rows (db s) c)) (owed c input) ∧ NoDup (logOf (db s) c).
Proof.
  intros Hr. rewrite (log_exact s c Hr). split; [done|]. apply sorted_NoDup, leq_sorted, owed_input_sorted.
Qed.

(** C4: When the queue is read to its end and the channels have drained, every channel
    has applied all of its events. *)
Theorem all_applied (s : sys) (c : Z) :
  reachable s → drained s → pos s = length input → logOf (db s) c = owed c input.
Proof.
  intros Hs Hd Hp. rewrite (log_exact s c Hs).
  apply leq_all, Forall_forall. intros v Hv. apply elem_of_owed in Hv as (e & Hin & Hr & ->).
  apply list_elem_of_lookup in Hin as [i Hi]. by eapply drained_row.
Qed.

(** C2: Conflicting events are applied in commit order: if an update or delete of the
    source frees unique values that a later event claims on another channel, the target
    never has the later one without the earlier one before it, through any
    interleaving of the workers, failed attempts, ambiguous commits and restarts. *)
Theorem conflicts_in_commit_order (s : sys) (i j : nat) (ei ej : Event) :
  reachable s → conflictPair i j ei ej → Vsn ej ∈ appliedVsns (db s) →
  before (Vsn ei) (Vsn ej) (appliedVsns (db s)).
Proof. intros [_ [S HJ]]%Inv_reachable Hp. by apply (j_order _ _ HJ i j). Qed.

(** The statistics of a channel count every applied event once, also when the
    outcome of a commit was unknown and the batch was checked again. *)
Theorem stats_count_once (s : sys) (c : Z) :
  reachable s → counts (rows (db s) c) = tally (eventsOf (db s) c).
Proof. intros H. by apply statsOk_reachable. Qed.

(** The steps of one worker. *)
Definition workerStep (c : Z) (s s' : sys) : Prop :=
  step s s' ∧ (workers s' c ≠ workers s c ∨ chans s' c ≠ chans s c).

Lemma worker_moves s c :
  (0 < MAX_EVENTS_PER_BATCH)%nat → batchOf (workers s c) ++ evsOf (chans s c) ≠ [] →
  ∃ s', workerStep c s s'.
Proof.
  intros HM Hne. unfold workerStep. destruct (workers s c) as [b|b|b|b] eqn:Hw.
  - destruct b as [|e0 b].
    + destruct (chans s c) as [|[e|] l] eqn:Hc; [done| |].
      * destruct (dropped (start s c) e) eqn:Hd.
        -- eexists. split; [eapply W_drop; [exact Hc|exact Hw|done|done]|]. right. cbn. rewrite upd_eq.
           intros H. apply (f_equal length) in H. cbn in H. lia.
        -- eexists. split; [eapply W_recv; [exact Hc|exact Hw|done|done]|]. left. cbn. by rewrite upd_eq.
      * eexists. split; [eapply W_flush; [exact Hc|exact Hw|done]|]. right. cbn. rewrite upd_eq.
        intros H. apply (f_equal length) in H. cbn in H. lia.
    + eexists. split; [by eapply W_close|]. left. cbn. by rewrite upd_eq.
  - eexists. split; [by eapply W_exec|]. left. cbn. by rewrite upd_eq.
  - eexists. split; [by eapply W_check|]. left. cbn. rewrite upd_eq.
    by destruct (IsEventBatchAlreadyImported (db s) c b).
  - eexists. split; [by eapply W_finish|]. left. cbn. by rewrite upd_eq.
Qed.

(** C31: No deadlock on a conflict: as long as the main goroutine is held back by
    conflicting events, one of them sits in a channel whose worker can take a step. *)
Theorem wait_never_deadlocks (s : sys) (e : Event) (infos : list Conflict) :
  (0 < MAX_EVENTS_PER_BATCH)%nat → reachable s → next s e →
  isTargetDBExporter (ExporterRole e) = false → conflictsNow s e = Ok infos → infos ≠ [] →
  ∃ info e' c s', info ∈ infos ∧ e' ∈ eventsConflicting info ∧
    Vsn e' ∈ map Vsn (batchOf (workers s c) ++ evsOf (chans s c)) ∧ workerStep c s s'.
Proof.
  intros HM [HI [S HJ]]%Inv_reachable (Hm & _ & _) Htgt Hnow Hne.
  assert (∃ info e', info ∈ infos ∧ e' ∈ eventsConflicting info) as (info & e' & Hinfo & He').
  { destruct infos as [|info infos]; [done|].
    assert (eventsConflicting info ≠ []) as Hev.
    { eapply conflict_nonempty; [exact Htgt|exact Hnow|left]. }
    destruct (eventsConflicting info) as [|e' l] eqn:E; [done|]. exists info, e'. rewrite E. set_solver. }
  destruct (proj1 (findConflict_is_scan ti (Some pm) (cache s) S e infos ti_named (j_cache _ _ HJ)
              Htgt Hnow e')) as [[v HS] _]; [eauto|].
  destruct (j_S _ _ HJ _ _ HS) as (j & e0 & _ & -> & -> & _ & [(?&?&H&_)|[c Hc]]); [congruence|].
  destruct (worker_moves s c HM) as [s' Hs'].
  { intros H. rewrite H in Hc. set_solver. }
  exists info, (Copy e0), c, s'. done.
Qed.
End streaming.

(** ** A concrete run for the witnesses

    Two channels' worth of work out of 100: row 1 gives up an e-mail address, row 2
    takes it; the second commit's outcome is reported as an error. *)
Definition sampleInput : list Event := [freeing; claiming].
Definition samplePm : StructMap.t NameTuple cdcPartitionKeyOverride := sampleMap byPK.
Notation sampleStep := (step sampleInput (λ p, (p =? 2)%nat) 100 500 500 TARGET_DB_IMPORTER_ROLE
                          sampleIndexes samplePm Ok).
Notation sampleReachable := (reachable sampleInput (λ p, (p =? 2)%nat) 100 500 500
                               TARGET_DB_IMPORTER_ROLE sampleIndexes samplePm Ok).
Definition chan1 : Z := 59.
Definition chan2 : Z := 70.
Example sample_channels :
  hashEvent 100 freeing (Some samplePm) = Ok chan1 ∧ hashEvent 100 claiming (Some samplePm) = Ok chan2.
Proof. vm_compute. done. Qed.

Lemma sampleInput_sorted : StronglySorted (λ a b, Vsn a < Vsn b) sampleInput.
Proof. repeat constructor. Qed.
Lemma sampleInput_vsn : Forall (λ e, 0 ≤ Vsn e) sampleInput.
Proof. repeat constructor; cbn; lia. Qed.
Lemma sampleConvert_id (e e' : Event) : Ok e = Ok e' → Vsn e' = Vsn e ∧ ExporterRole e' = ExporterRole e.
Proof. by intros [= ->]. Qed.

Ltac run_step tac := eapply rtc_l; [tac; (reflexivity || (vm_compute; reflexivity) || (vm_compute; lia) || discriminate)|].

Lemma sample_blocked :
  ∃ s infos, sampleReachable s ∧ next sampleInput s claiming ∧
    conflictsNow sampleIndexes samplePm s claiming = Ok infos ∧ infos ≠ [].
Proof.
  eexists _, _. split_and!.
  - unfold reachable, initial.
    run_step ltac:(eapply S_renew).
    run_step ltac:(eapply (S_clear _ _ _ _ _ _ _ _ _ _ freeing chan1); [split_and!| | | | |]).
    run_step ltac:(eapply S_put).
    run_step ltac:(eapply S_send).
    apply rtc_refl.
  - split_and!; reflexivity.
  - vm_compute. reflexivity.
  - discriminate.
Qed.
(** Without the flush markers, so that no other channel has work: the first batch
    closes on its timer, the second commits behind an error. *)
Lemma sample_run :
  ∃ s, sampleReachable s ∧ drained s ∧ pos s = 2%nat ∧ appliedVsns (db s) = [1; 2] ∧
       last_applied_vsn (rows (db s) chan2) = 2 ∧ counts (rows (db s) chan2) = mkEventCounter 1 0 1 0.
Proof.
  eexists. split_and!.
  - unfold reachable, initial.
    run_step ltac:(eapply S_renew).
    run_step ltac:(eapply (S_clear _ _ _ _ _ _ _ _ _ _ freeing chan1); [split_and!| | | | |]).
    run_step ltac:(eapply S_put).
    run_step ltac:(eapply S_send).
    run_step ltac:(eapply (W_recv _ _ _ _ _ _ _ _ _ _ chan1)).
    run_step ltac:(eapply (W_close _ _ _ _ _ _ _ _ _ _ chan1)).
    run_step ltac:(eapply (W_exec _ _ _ _ _ _ _ _ _ _ chan1)).
    run_step ltac:(eapply (W_finish _ _ _ _ _ _ _ _ _ _ chan1)).
    run_step ltac:(eapply (S_clear _ _ _ _ _ _ _ _ _ _ claiming chan2); [split_and!| | | | |]).
    run_step ltac:(eapply S_put).
    run_step ltac:(eapply S_send).
    run_step ltac:(eapply (W_recv _ _ _ _ _ _ _ _ _ _ chan2)).
    run_step ltac:(eapply (W_close _ _ _ _ _ _ _ _ _ _ chan2)).
    run_step ltac:(eapply (W_exec_unknown _ _ _ _ _ _ _ _ _ _ chan2)).
    run_step ltac:(eapply (W_check _ _ _ _ _ _ _ _ _ _ chan2)).
    run_step ltac:(eapply (W_finish _ _ _ _ _ _ _ _ _ _ chan2)).
    apply rtc_refl.
  - split; [reflexivity|]. intros c. cbn. unfold upd. repeat case_decide; done.
  - reflexivity.
  - vm_compute. reflexivity.
  - vm_compute. reflexivity.
  - vm_compute. reflexivity.
Qed.

Lemma sample_pair : conflictPair sampleInput TARGET_DB_IMPORTER_ROLE sampleIndexes samplePm 0 1 freeing claiming.
Proof.
  split_and!; try reflexivity; [lia| |by right|].
  - intros [|[|k]] e Hk; [by intros [= <-]..|lia].
  - destruct sample_blocked as (s & infos & Hr & Hn & Hnow & Hne).
    split; [reflexivity|]. split; [reflexivity|].
    exists emailIndex, (AfterFields claiming). split_and!; try reflexivity.
    + left.
    + left. split; [done|]. right. done.
    + done.
    + eexists _, _. split; [vm_compute; reflexivity|]. split; [vm_compute; reflexivity|]. done.
Qed.

Lemma exactly_once_witness :
  ∃ s, sampleReachable s ∧
    logOf (db s) chan2 = leq (last_applied_vsn (rows (db s) chan2))
                           (owed 100 TARGET_DB_IMPORTER_ROLE samplePm chan2 sampleInput) ∧
    NoDup (logOf (db s) chan2).
Proof.
  destruct sample_run as (s & Hr & _). exists s. split; [exact Hr|].
  exact (exactly_once _ _ _ _ _ _ _ _ _ sampleInput_sorted sampleInput_vsn sampleConvert_id s chan2 Hr).
Defined.
Lemma all_applied_witness :
  ∃ s, sampleReachable s ∧
    logOf (db s) chan1 = owed 100 TARGET_DB_IMPORTER_ROLE samplePm chan1 sampleInput.
Proof.
  destruct sample_run as (s & Hr & Hd & Hp & _). exists s. split; [exact Hr|].
  exact (all_applied _ _ _ _ _ _ _ _ _ sampleInput_sorted sampleInput_vsn sampleConvert_id s chan1 Hr Hd Hp).
Defined.
Lemma conflicts_in_commit_order_witness :
  ∃ s, sampleReachable s ∧ before 1 2 (appliedVsns (db s)).
Proof.
  destruct sample_run as (s & Hr & _ & _ & Ha & _). exists s. split; [exact Hr|].
  apply (conflicts_in_commit_order _ _ _ _ _ _ _ _ _ sampleInput_sorted sampleInput_vsn sampleConvert_id
           sampleIndexes_wellNamed s 0 1 freeing claiming Hr sample_pair).
  rewrite Ha. right. left.
Defined.
Lemma stats_count_once_witness :
  ∃ s, sampleReachable s ∧ counts (rows (db s) chan2) = tally (eventsOf (db s) chan2).
Proof.
  destruct sample_run as (s & Hr & _). exists s. split; [exact Hr|].
  exact (stats_count_once _ _ _ _ _ _ _ _ _ s chan2 Hr).
Defined.
Lemma wait_never_deadlocks_witness :
  ∃ s infos info e' c s', conflictsNow sampleIndexes samplePm s claiming = Ok infos ∧
    info ∈ infos ∧ e' ∈ eventsConflicting info ∧
    Vsn e' ∈ map Vsn (batchOf (workers s c) ++ evsOf (chans s c)) ∧
    workerStep sampleInput (λ p, (p =? 2)%nat) 100 500 500 TARGET_DB_IMPORTER_ROLE
      sampleIndexes samplePm Ok c s s'.
Proof.
  destruct sample_blocked as (s & infos & Hr & Hn & Hnow & Hne). exists s, infos.
  assert (0 < 500)%nat as HM by lia.
  destruct (wait_never_deadlocks _ _ _ _ _ _ _ _ _ sampleInput_sorted sampleInput_vsn sampleConvert_id
           sampleIndexes_wellNamed s claiming infos HM Hr Hn eq_refl Hnow Hne)
    as (info & e' & c & s' & H).
  exists info, e', c, s'. split; [exact Hnow|exact H].
Defined.

(** ** The primary key joins the conflict set of custom-key tables *)
Section guards.
Context (pm : StructMap.t NameTuple cdcPartitionKeyOverride)
        (pkm : StructMap.t NameTuple (list string)).
Implicit Types ti : StructMap.t NameTuple (list UniqueIndex).

#[local] Arguments uniqueIndexWithSameColumnsExists : simpl never.
Definition covered ti (table : NameTuple) (pk : list string) : Prop :=
  uniqueIndexWithSameColumnsExists (default [] (StructMap.Get ti table)) pk = true.

Lemma sameColumns_app l1 l2 pk :
  uniqueIndexWithSameColumnsExists (l1 ++ l2) pk =
  uniqueIndexWithSameColumnsExists l1 pk || uniqueIndexWithSameColumnsExists l2 pk.
Proof. apply existsb_app. Qed.
Lemma guard_columns table pk :
  NoDup pk → uniqueIndexWithSameColumnsExists [pkConflictGuard table pk] pk = true.
Proof.
  intros Hnd. unfold uniqueIndexWithSameColumnsExists. cbn [existsb pkConflictGuard IndexColumns].
  rewrite orb_false_r, size_list_to_set, Nat.eqb_refl by done. cbn.
  apply forallb_forall. intros c Hc. apply bool_decide_eq_true, elem_of_list_to_set.
  by apply list_elem_of_In.
Qed.
(** With distinct columns the test is equality of the column sets. *)
Lemma sameColumns_spec ixs pk :
  (∀ ix, ix ∈ ixs → NoDup (IndexColumns ix)) → NoDup pk →
  uniqueIndexWithSameColumnsExists ixs pk = true ↔ ∃ ix, ix ∈ ixs ∧ IndexColumns ix ≡ₚ pk.
Proof.
  intros Hnd Hpk. unfold uniqueIndexWithSameColumnsExists. rewrite existsb_exists.
  split; intros (ix & Hin & H); exists ix.
  - apply list_elem_of_In in Hin. split; [done|]. apply andb_true_iff in H as [Hl Hall].
    rewrite size_list_to_set in Hl by done. apply Nat.eqb_eq in Hl.
    apply submseteq_length_Permutation; [|lia]. apply NoDup_submseteq; [by apply Hnd|].
    intros c Hc. rewrite forallb_forall in Hall. apply list_elem_of_In in Hc.
    specialize (Hall _ Hc). by apply bool_decide_eq_true, elem_of_list_to_set in Hall.
  - split; [by apply list_elem_of_In|]. apply andb_true_iff. split.
    + rewrite size_list_to_set by done. apply Nat.eqb_eq. by apply Permutation_length.
    + apply forallb_forall. intros c Hc. apply bool_decide_eq_true, elem_of_list_to_set.
      rewrite <- H. by apply list_elem_of_In.
Qed.

Lemma addGuard_cases ti table ti' :
  addGuard pkm ti table = Ok ti' →
  ∃ pk, StructMap.Get pkm table = Some pk ∧ pk ≠ [] ∧
    (covered ti table pk ∧ ti' = ti ∨
     ti' = StructMap.Put ti table (default [] (StructMap.Get ti table) ++ [pkConflictGuard table pk])).
Proof.
  unfold addGuard, covered. destruct (StructMap.Get pkm table) as [[|c pk]|]; [done| |done].
  destruct (uniqueIndexWithSameColumnsExists _ _) eqn:E; intros [= <-]; exists (c :: pk); auto.
Qed.
Lemma addGuard_covers ti table ti' pk :
  addGuard pkm ti table = Ok ti' → StructMap.Get pkm table = Some pk → NoDup pk → covered ti' table pk.
Proof.
  intros (pk' & Hpk' & _ & [[Hc ->]| ->])%addGuard_cases Hpk Hnd; rewrite Hpk in Hpk'; injection Hpk' as <-.
  - done.
  - unfold covered. rewrite Get_Put_tuple, decide_True by done. cbn.
    by rewrite sameColumns_app, guard_columns, orb_true_r.
Qed.
Lemma addGuard_mono ti table ti' t pk :
  addGuard pkm ti table = Ok ti' → covered ti t pk → covered ti' t pk.
Proof.
  intros (pk' & _ & _ & [[_ ->]| ->])%addGuard_cases; [done|]. unfold covered. rewrite Get_Put_tuple.
  case_decide as Hk; [|done]. cbn. rewrite sameColumns_app.
  assert (StructMap.Get ti t = StructMap.Get ti table) as ->; [|by intros ->].
  unfold StructMap.Get, Key, NameTuple_Keyer. by rewrite Hk.
Qed.
Lemma foldM_covers tables : ∀ ti ti',
  foldM (addGuard pkm) ti tables = Ok ti' →
  (∀ t pk, covered ti t pk → covered ti' t pk) ∧
  ∀ t pk, t ∈ tables → StructMap.Get pkm t = Some pk → NoDup pk → covered ti' t pk.
Proof.
  induction tables as [|table tables IH]; intros ti ti'; cbn [foldM].
  - intros [= <-]. split; [done|]. intros t pk H. set_solver.
  - rewrite bind_Ok. intros (ti1 & H1 & H2). destruct (IH _ _ H2) as [Hm Hc]. split.
    + intros t pk Ht. by eapply Hm, addGuard_mono.
    + intros t pk [->|Ht]%elem_of_cons Hpk Hnd; [by eapply Hm, addGuard_covers|by apply Hc].
Qed.
Lemma foldM_stable tables ti :
  (∀ t, t ∈ tables → ∃ pk, StructMap.Get pkm t = Some pk ∧ pk ≠ [] ∧ covered ti t pk) →
  foldM (addGuard pkm) ti tables = Ok ti.
Proof.
  induction tables as [|table tables IH]; intros H; [done|]. cbn [foldM].
  destruct (H table) as (pk & Hpk & Hne & Hc); [left|].
  assert (addGuard pkm ti table = Ok ti) as ->.
  { unfold addGuard. rewrite Hpk. unfold covered in Hc. destruct pk; [done|]. by rewrite Hc. }
  apply IH. intros t Ht. apply H. by right.
Qed.
Lemma customTables_spec tables l t :
  mapM_result (isCustomTable pm) tables = Ok l →
  t ∈ concat l ↔ t ∈ tables ∧ ∃ p, StructMap.Get pm t = Some p ∧ Strategy p = PARTITION_BY_CUSTOM.
Proof.
  intros H. rewrite (mapM_result_concat _ _ _ _ H). unfold isCustomTable. split.
  - intros (a & y & Ha & Hy & Hin). destruct (StructMap.Get pm a) as [p|] eqn:Hp; [|done].
    injection Hy as <-. case_decide; [|set_solver]. apply list_elem_of_singleton in Hin as ->. eauto.
  - intros (Ht & p & Hp & Hs). exists t, [t]. rewrite Hp, decide_True by done. set_solver.
Qed.

(** Under a custom partition key the primary key is in the conflict set: after the
    call every custom-key table has a unique index over exactly its primary-key
    columns, so a primary key freed and taken again on another channel is a conflict;
    and repeating the call (it runs at every change of exporter) adds nothing. *)
Theorem pk_guard_installed ti (tables : list NameTuple) ti' :
  addPrimaryKeyToConflictSetForCustomTables ti tables pm pkm = Ok ti' →
  (∀ t pk, StructMap.Get pkm t = Some pk → NoDup pk) →
  (∀ t ix, ix ∈ default [] (StructMap.Get ti' t) → NoDup (IndexColumns ix)) →
  (∀ t p, t ∈ tables → StructMap.Get pm t = Some p → Strategy p = PARTITION_BY_CUSTOM →
     ∃ pk ix, StructMap.Get pkm t = Some pk ∧ ix ∈ default [] (StructMap.Get ti' t) ∧
              IndexColumns ix ≡ₚ pk) ∧
  addPrimaryKeyToConflictSetForCustomTables ti' tables pm pkm = Ok ti'.
Proof.
  unfold addPrimaryKeyToConflictSetForCustomTables. rewrite bind_Ok. intros (l & Hl & Hf) Hpk Hnd.
  destruct (foldM_covers _ _ _ Hf) as [_ Hc].
  assert (∀ t, t ∈ concat l → ∃ pk, StructMap.Get pkm t = Some pk ∧ pk ≠ [] ∧ covered ti' t pk) as Hall.
  { intros t Ht. assert (∃ pk, StructMap.Get pkm t = Some pk ∧ pk ≠ []) as (pk & Hp & Hne).
    { clear Hc Hl. revert ti Hf. induction (concat l) as [|t0 l0 IH]; intros ti Hf; [set_solver|].
      cbn [foldM] in Hf. rewrite bind_Ok in Hf. destruct Hf as (ti1 & H1 & H2).
      apply elem_of_cons in Ht as [->|Ht]; [|by eapply IH].
      apply addGuard_cases in H1 as (pk & ? & ? & _). eauto. }
    exists pk. split_and!; [done..|]. eapply Hc; [done..|by eapply Hpk]. }
  split.
  - intros t p Ht Hp Hs. destruct (Hall t) as (pk & Hpkt & _ & Hcov).
    { apply (customTables_spec _ _ _ Hl). eauto. }
    apply sameColumns_spec in Hcov as (ix & Hix & Hperm); [|by apply Hnd|by eapply Hpk].
    exists pk, ix. done.
  - rewrite Hl. cbn. by apply foldM_stable.
Qed.
End guards.
Lemma pk_guard_installed_witness :
  let pm := sampleMap (byCustom ["email"]) in
  let pkm := StructMap.Put StructMap.NewStructMap sampleTable ["id"] in
  ∃ ti', addPrimaryKeyToConflictSetForCustomTables sampleIndexes [sampleTable] pm pkm = Ok ti' ∧
    (∀ t p, t ∈ [sampleTable] → StructMap.Get pm t = Some p → Strategy p = PARTITION_BY_CUSTOM →
       ∃ pk ix, StructMap.Get pkm t = Some pk ∧ ix ∈ default [] (StructMap.Get ti' t) ∧
                IndexColumns ix ≡ₚ pk) ∧
    addPrimaryKeyToConflictSetForCustomTables ti' [sampleTable] pm pkm = Ok ti'.
Proof.
  intros pm pkm.
  exists (StructMap.Put sampleIndexes sampleTable [emailIndex; pkConflictGuard sampleTable ["id"]]).
  assert (addPrimaryKeyToConflictSetForCustomTables sampleIndexes [sampleTable] pm pkm =
    Ok (StructMap.Put sampleIndexes sampleTable [emailIndex; pkConflictGuard sampleTable ["id"]])) as H
    by (vm_compute; reflexivity).
  split; [exact H|].
  apply (pk_guard_installed pm pkm sampleIndexes [sampleTable]); [exact H| |].
  - intros t pk. unfold pkm. rewrite Get_Put_tuple. case_decide; [|by unfold StructMap.Get; cbn; rewrite lookup_empty].
    intros [= <-]. apply NoDup_singleton.
  - intros t ix. rewrite Get_Put_tuple. case_decide as Hk; cbn.
    + intros [->|[->|[]%elem_of_nil]%elem_of_cons]%elem_of_cons; apply NoDup_singleton.
    + unfold sampleIndexes. rewrite Get_Put_tuple, decide_False by done.
      unfold StructMap.Get. cbn. rewrite lookup_empty. cbn. set_solver.
Defined.
End Streaming.
