(* ===== verification/DataFile.v ===== *)
(** * Data files (src/yb-voyager/src/datafile: datafile.go, textdatafile.go, sqldatafile.go)

    The interface the batch producer reads through, as a type class with its
    laws, and the two implementations that read a byte stream line by line:
    text files, and SQL scripts whose rows stand inside COPY blocks. *)
From S2P Require Import Prelude.

Module DataFile.

(** [io.EOF], or another error of the reader; no error is [None]. *)
Inductive readError : Type := EOF | ReadErr (msg : string).
#[global] Instance readError_eq_dec : EqDecision readError.
Proof. solve_decision. Defined.

(** The operations of the interface the producer uses. *)
Class DataFile (D : Type) := {
  NextLine : D → (string * Z * option readError) * D;
  GetBytesRead : D → Z;
  ResetBytesRead : D → Z → D }.

(** [SkipLines]: the counter is reset only when all lines could be read. *)
Fixpoint skip_lines `{DataFile D} (numLines : nat) (df : D) : option readError * D :=
  match numLines with
  | O => (None, df)
  | S n => match NextLine df with
           | ((_, _, Some e), df) => (Some e, df)
           | ((_, _, None), df) => skip_lines n df
           end
  end.
Definition SkipLines `{DataFile D} (numLines : Z) (df : D) : option readError * D :=
  match skip_lines (Z.to_nat numLines) df with
  | (None, df) => (None, ResetBytesRead df 0)
  | r => r
  end.

(** ** What a file holds *)

(** The lines a file still yields, each with the bytes its read consumed, and the
    read that reports the end of the file (its line may be non-empty). *)
Inductive Reads `{DataFile D} : D → list (string * Z) → string * Z → Prop :=
  | Reads_eof df df' line n :
      NextLine df = ((line, n, Some EOF), df') → Reads df [] (line, n)
  | Reads_line df df' line n ls last :
      NextLine df = ((line, n, None), df') → Reads df' ls last → Reads df ((line, n) :: ls) last.

(** What the producer relies on: the byte counter is independent of the lines and
    grows by what a read reports; a line before the end is not empty; after the
    end there is nothing more. *)
Class DataFileLaws (D : Type) `{DataFile D} : Prop := {
  Reset_reads df ls last b : Reads df ls last → Reads (ResetBytesRead df b) ls last;
  Reset_bytes df b : GetBytesRead (ResetBytesRead df b) = b;
  Next_bytes df df' line n : NextLine df = ((line, n, None), df') →
    GetBytesRead df' = GetBytesRead df + n ∧ 0 < n ∧ line ≠ "";
  Next_last df df' line n : NextLine df = ((line, n, Some EOF), df') → line ≠ "" →
    GetBytesRead df' = GetBytesRead df + n ∧ 0 < n;
  Next_end df df' line n : NextLine df = ((line, n, Some EOF), df') →
    ∃ m, m ≤ 0 ∧ Reads df' [] ("", m) }.

Lemma Reads_fun `{DataFile D} df ls last ls' last' :
  Reads df ls last → Reads df ls' last' → ls = ls' ∧ last = last'.
Proof.
  intros HR. revert ls' last'. induction HR as [df df' line n HN|df df' line n ls last HN HR IH];
    intros ls' last'; inversion 1; subst; rewrite HN in *; simplify_eq; [done|].
  by destruct (IH _ _ ltac:(eassumption)) as [-> ->].
Qed.

Lemma Reads_inv `{DataFile D} df ls last :
  Reads df ls last →
  (ls = [] ∧ ∃ df', NextLine df = ((last.1, last.2, Some EOF), df')) ∨
  (∃ line n ls' df', ls = (line, n) :: ls' ∧ NextLine df = ((line, n, None), df') ∧ Reads df' ls' last).
Proof. destruct 1; [left; eauto|right; eauto 10]. Qed.

(** ** Line-oriented readers *)
Definition NL : ascii := ascii_of_nat 10.
Definition NLs : string := String NL "".

(** [bufio.Reader.ReadString('\n')]: the line with its newline, the rest, and
    whether the end came first. *)
Fixpoint ReadString (s : string) : string * string * bool :=
  match s with
  | "" => ("", "", true)
  | String c s' =>
      if bool_decide (c = NL) then (NLs, s', false)
      else let '(line, rest, eof) := ReadString s' in (String c line, rest, eof)
  end.
(** [strings.Trim(line, "\n")]. *)
Fixpoint trim_nl_left (s : string) : string :=
  match s with String c s' => if bool_decide (c = NL) then trim_nl_left s' else s | "" => "" end.
Fixpoint trim_nl_right (s : string) : string :=
  match s with
  | "" => ""
  | String c s' => match trim_nl_right s' with
                   | "" => if bool_decide (c = NL) then "" else String c ""
                   | r => String c r
                   end
  end.
Definition TrimNL (s : string) : string := trim_nl_right (trim_nl_left s).

Definition endOfCopy (line : string) : bool :=
  bool_decide (line = "\.") || bool_decide (line = "\." +:+ NLs).
(** Not empty, not a newline, not the end-of-copy mark. *)
Definition isRow (line : string) : bool :=
  negb (bool_decide (line = "") || bool_decide (line = NLs) || endOfCopy line).

(** The loop of [NextLine]: lines are skipped until one is data or the reader
    fails; [cur] counts the bytes read.  [St] is what [isDataLine] remembers. *)
Fixpoint next_line {St} (isDataLine : St → string → bool * St) (fuel : nat) (st : St)
    (rest : string) (cur : Z) : option (string * Z * option readError * St * string) :=
  match fuel with
  | O => None
  | S fuel =>
      let '(line, rest, eof) := ReadString rest in
      let cur := cur + Z.of_nat (String.length line) in
      let '(isData, st) := isDataLine st line in
      if isData || eof
      then Some (TrimNL line, cur, (if eof : bool then Some EOF else None), st, rest)
      else next_line isDataLine fuel st rest cur
  end.

(** *** Text files *)
Record TextDataFile : Type := mkText { t_rest : string; t_bytesRead : Z }.
Definition text_isDataLine (_ : unit) (line : string) : bool * unit := (isRow line, ()).
(** One unit of fuel for every byte left and one for the end is enough. *)
Definition text_NextLine (df : TextDataFile) : (string * Z * option readError) * TextDataFile :=
  match next_line text_isDataLine (S (String.length (t_rest df))) () (t_rest df) 0 with
  | Some (line, cur, err, _, rest) => ((line, cur, err), mkText rest (t_bytesRead df + cur))
  | None => (("", 0, Some (ReadErr "out of fuel")), df)
  end.
#[global] Instance TextDataFile_DataFile : DataFile TextDataFile := {
  NextLine := text_NextLine;
  GetBytesRead := t_bytesRead;
  ResetBytesRead df b := mkText (t_rest df) b }.
Definition newTextDataFile (content : string) : TextDataFile := mkText content 0.

(** *** SQL scripts *)
(** The regular expression [(?i)COPY .* FROM STDIN;] on one line. *)
Fixpoint copy_match (s : string) : bool :=
  (HasPrefix s "COPY " && str_contains " FROM STDIN;" (String.substring 5 (String.length s) s))
  || match s with "" => false | String _ s' => copy_match s' end.
Definition reCopy (line : string) : bool := copy_match (ToUpper line).

Record SqlDataFile : Type := mkSql { s_rest : string; insideCopyStmt : bool; s_bytesRead : Z }.
Definition sql_isDataLine (insideCopyStmt : bool) (line : string) : bool * bool :=
  if insideCopyStmt then (isRow line, if endOfCopy line then false else true)
  else (false, reCopy line).
Definition sql_NextLine (df : SqlDataFile) : (string * Z * option readError) * SqlDataFile :=
  match next_line sql_isDataLine (S (String.length (s_rest df))) (insideCopyStmt df) (s_rest df) 0 with
  | Some (line, cur, err, inside, rest) => ((line, cur, err), mkSql rest inside (s_bytesRead df + cur))
  | None => (("", 0, Some (ReadErr "out of fuel")), df)
  end.
#[global] Instance SqlDataFile_DataFile : DataFile SqlDataFile := {
  NextLine := sql_NextLine;
  GetBytesRead := s_bytesRead;
  ResetBytesRead df b := mkSql (s_rest df) (insideCopyStmt df) b }.
(** A reader opened past the beginning is assumed to stand inside a COPY block. *)
Definition newSqlDataFile (content : string) (openedAtOffset : Z) : SqlDataFile :=
  mkSql content (0 <? openedAtOffset) 0.
(** A seek to [offset]: the bytes before it are gone. *)
Definition seek (content : string) (offset : Z) : string :=
  String.substring (Z.to_nat offset) (String.length content) content.

(** ** Lemmas: reading lines *)

Lemma ReadString_spec s line rest eof :
  ReadString s = (line, rest, eof) →
  s = line +:+ rest ∧
  (if eof then rest = "" ∧ str_has NL line = false
   else ∃ l, line = l +:+ NLs ∧ str_has NL l = false).
Proof.
  revert line rest eof. induction s as [|c s IH]; intros line rest eof; cbn [ReadString].
  { intros [= <- <- <-]. done. }
  case_bool_decide as Hc.
  { intros [= <- <- <-]. split; [by subst|]. by exists "". }
  destruct (ReadString s) as [[l r] e]. intros [= <- <- <-].
  destruct (IH _ _ _ eq_refl) as [-> He]. split; [done|]. destruct e.
  - destruct He as [-> He]. split; [done|]. by rewrite str_has_cons, bool_decide_false, He.
  - destruct He as (l0 & -> & He). exists (String c l0). split; [done|].
    by rewrite str_has_cons, bool_decide_false, He.
Qed.
Lemma trim_nl_right_id l : str_has NL l = false → trim_nl_right l = l.
Proof.
  induction l as [|c l IH]; [done|]. rewrite str_has_cons. intros [Hc Hl]%orb_false_iff.
  cbn. rewrite IH, Hc by done. by destruct l.
Qed.
Lemma trim_nl_right_NL l : str_has NL l = false → trim_nl_right (l +:+ NLs) = l.
Proof.
  induction l as [|c l IH]; [done|]. rewrite str_has_cons. intros [Hc Hl]%orb_false_iff.
  cbn. rewrite IH, Hc by done. by destruct l.
Qed.
Lemma TrimNL_line l : str_has NL l = false → l ≠ "" → TrimNL (l +:+ NLs) = l.
Proof.
  intros Hl Hne. unfold TrimNL. rewrite <- (trim_nl_right_NL l Hl) at 2. f_equal.
  destruct l as [|c l]; [done|]. rewrite str_has_cons in Hl. apply orb_false_iff in Hl as [Hc _].
  cbn. by rewrite Hc.
Qed.
Lemma isRow_line l : isRow (l +:+ NLs) = true → l ≠ "".
Proof. intros H ->. by vm_compute in H. Qed.

(** What a read that ends says of the bytes it consumed. *)
Record lineRead {St} (isDataLine : St → string → bool * St) (rest : string) (line : string) (n : Z)
    (err : option readError) (rest' : string) : Prop := mkLineRead {
  lr_consumed : ∃ bytes, rest = bytes +:+ rest' ∧ n = Z.of_nat (String.length bytes);
  lr_line : line ≠ "" → 0 < n;
  lr_data : err = None → line ≠ "" ∧ 0 < n;
  lr_eof : err = Some EOF → rest' = "";
  lr_err : err = None ∨ err = Some EOF }.
Lemma next_line_spec {St} (isDataLine : St → string → bool * St) fuel st rest cur line n err st' rest' :
  (∀ st l, (isDataLine st l).1 = true → isRow l = true) →
  next_line isDataLine fuel st rest cur = Some (line, n, err, st', rest') →
  lineRead isDataLine rest line (n - cur) err rest' ∧
  (err = None → ∃ st0 l, isDataLine st0 l = (true, st')).
Proof.
  intros Hrow. revert st rest cur. induction fuel as [|fuel IH]; intros st rest cur; cbn [next_line]; [done|].
  destruct (ReadString rest) as [[l r] eof] eqn:HR. destruct (ReadString_spec _ _ _ _ HR) as [-> He].
  destruct (isDataLine st l) as [isData st1] eqn:Hd.
  destruct (isData || eof) eqn:Hstop.
  - intros [= <- <- <- <- <-].
    replace (cur + Z.of_nat (String.length l) - cur) with (Z.of_nat (String.length l)) by lia.
    assert (TrimNL l ≠ "" → 0 < Z.of_nat (String.length l)) as Hne by (destruct l; [done|cbn; lia]).
    split; [|destruct eof; [done|]; rewrite orb_false_r in Hstop; subst isData; eauto].
    split; [by exists l|done| |destruct eof; naive_solver|destruct eof; auto].
    intros H. assert (TrimNL l ≠ "") as Ht; [|by split; [|apply Hne]].
    destruct eof; [done|]. rewrite orb_false_r in Hstop. subst isData.
    destruct He as (l0 & -> & Hl0). pose proof (Hrow st (l0 +:+ NLs)) as Hr. rewrite Hd in Hr.
    pose proof (isRow_line _ (Hr eq_refl)). by rewrite TrimNL_line.
  - intros H. destruct (IH _ _ _ H) as [[(bytes & -> & Hb) H1 H2 H3 H4] H5]. split; [|done].
    split; [exists (l +:+ bytes)|intros Hl; specialize (H1 Hl); lia| |done|done].
    + rewrite str_app_assoc, str_length_app. split; [done|lia].
    + intros He'. destruct (H2 He'). split; [done|lia].
Qed.
Lemma next_line_total {St} (isDataLine : St → string → bool * St) fuel st rest cur :
  (String.length rest < fuel)%nat → is_Some (next_line isDataLine fuel st rest cur).
Proof.
  revert st rest cur. induction fuel as [|fuel IH]; intros st rest cur; cbn [next_line]; [lia|].
  destruct (ReadString rest) as [[l r] eof] eqn:HR. destruct (ReadString_spec _ _ _ _ HR) as [-> He].
  destruct (isDataLine st l) as [isData st1]. destruct (isData || eof) eqn:Hstop; [by eauto|].
  intros Hf. apply IH. apply orb_false_iff in Hstop as [_ ->]. destruct He as (l0 & -> & _).
  rewrite !str_length_app in Hf. cbn in Hf. lia.
Qed.
Lemma text_row st l : (text_isDataLine st l).1 = true → isRow l = true.
Proof. done. Qed.
Lemma sql_row st l : (sql_isDataLine st l).1 = true → isRow l = true.
Proof. by destruct st. Qed.
(** A row leaves the reader inside the COPY block. *)
Lemma sql_row_inside st l st' : sql_isDataLine st l = (true, st') → st' = true.
Proof.
  destruct st; cbn; [|done]. intros [= Hr <-]. unfold isRow in Hr. destruct (endOfCopy l); [|done].
  by rewrite orb_true_r in Hr.
Qed.

(** *** The two readers *)
Lemma text_read df line n err df' :
  NextLine df = ((line, n, err), df') →
  lineRead text_isDataLine (t_rest df) line n err (t_rest df') ∧ t_bytesRead df' = t_bytesRead df + n.
Proof.
  cbn [NextLine TextDataFile_DataFile]. unfold text_NextLine.
  destruct (next_line_total text_isDataLine (S (String.length (t_rest df))) () (t_rest df) 0 ltac:(lia))
    as [[[[[l cur] e] st] r] Hn].
  rewrite Hn. intros [= <- <- <- <-]. cbn.
  destruct (next_line_spec _ _ _ _ _ _ _ _ _ _ text_row Hn) as [H _]. by rewrite Z.sub_0_r in H.
Qed.
Lemma sql_read df line n err df' :
  NextLine df = ((line, n, err), df') →
  lineRead sql_isDataLine (s_rest df) line n err (s_rest df') ∧ s_bytesRead df' = s_bytesRead df + n ∧
  (err = None → insideCopyStmt df' = true).
Proof.
  cbn [NextLine SqlDataFile_DataFile]. unfold sql_NextLine.
  destruct (next_line_total sql_isDataLine (S (String.length (s_rest df))) (insideCopyStmt df) (s_rest df) 0 ltac:(lia))
    as [[[[[l cur] e] st] r] Hn].
  rewrite Hn. intros [= <- <- <- <-]. cbn.
  destruct (next_line_spec _ _ _ _ _ _ _ _ _ _ sql_row Hn) as [H Hi]. rewrite Z.sub_0_r in H.
  split; [done|]. split; [done|]. intros He. destruct (Hi He) as (st0 & l0 & Hs). by apply sql_row_inside in Hs.
Qed.
(** The lines do not depend on the byte counter. *)
Lemma text_counter r b b' : (text_NextLine (mkText r b)).1 = (text_NextLine (mkText r b')).1 ∧
  t_rest (text_NextLine (mkText r b)).2 = t_rest (text_NextLine (mkText r b')).2.
Proof. unfold text_NextLine; cbn [t_rest]. by destruct (next_line _ _ _ _ _) as [[[[[? ?] ?] ?] ?]|]. Qed.
Lemma sql_counter r i b b' : (sql_NextLine (mkSql r i b)).1 = (sql_NextLine (mkSql r i b')).1 ∧
  s_rest (sql_NextLine (mkSql r i b)).2 = s_rest (sql_NextLine (mkSql r i b')).2 ∧
  insideCopyStmt (sql_NextLine (mkSql r i b)).2 = insideCopyStmt (sql_NextLine (mkSql r i b')).2.
Proof.
  unfold sql_NextLine; cbn [s_rest insideCopyStmt].
  by destruct (next_line _ _ _ _ _) as [[[[[? ?] ?] ?] ?]|].
Qed.
Lemma text_Reads_counter df ls last b :
  Reads df ls last → Reads (mkText (t_rest df) b) ls last.
Proof.
  intros HR. revert b. induction HR as [[r b0] df' line n HN|[r b0] df' line n ls last HN _ IH]; intros b;
    destruct (text_counter r b0 b) as [H1 H2]; cbn [NextLine TextDataFile_DataFile] in HN; rewrite HN in H1, H2; cbn [t_rest].
  - eapply (Reads_eof _ (text_NextLine (mkText r b)).2). cbn [NextLine TextDataFile_DataFile].
    cbn [fst] in H1. by rewrite H1, <- surjective_pairing.
  - eapply (Reads_line _ (text_NextLine (mkText r b)).2); cbn [NextLine TextDataFile_DataFile].
    + cbn [fst] in H1. by rewrite H1, <- surjective_pairing.
    + cbn [snd] in H2. specialize (IH (t_bytesRead (text_NextLine (mkText r b)).2)). rewrite H2 in IH.
      by destruct (text_NextLine (mkText r b)).2.
Qed.
Lemma sql_Reads_counter df ls last b :
  Reads df ls last → Reads (mkSql (s_rest df) (insideCopyStmt df) b) ls last.
Proof.
  intros HR. revert b. induction HR as [[r i b0] df' line n HN|[r i b0] df' line n ls last HN _ IH]; intros b;
    destruct (sql_counter r i b0 b) as (H1 & H2 & H3); cbn [NextLine SqlDataFile_DataFile] in HN;
    rewrite HN in H1, H2, H3; cbn [s_rest insideCopyStmt].
  - eapply (Reads_eof _ (sql_NextLine (mkSql r i b)).2). cbn [NextLine SqlDataFile_DataFile].
    cbn [fst] in H1. by rewrite H1, <- surjective_pairing.
  - eapply (Reads_line _ (sql_NextLine (mkSql r i b)).2); cbn [NextLine SqlDataFile_DataFile].
    + cbn [fst] in H1. by rewrite H1, <- surjective_pairing.
    + cbn [snd] in H2, H3. specialize (IH (s_bytesRead (sql_NextLine (mkSql r i b)).2)). rewrite H2, H3 in IH.
      by destruct (sql_NextLine (mkSql r i b)).2.
Qed.

(** Both readers keep the laws of the interface. *)
#[global] Instance TextDataFile_laws : DataFileLaws TextDataFile.
Proof.
  split.
  - intros df ls last b. apply text_Reads_counter.
  - done.
  - intros df df' line n HN. apply text_read in HN as [[_ _ Hd _ _] Hb]. cbn. destruct (Hd eq_refl). done.
  - intros df df' line n HN Hl. apply text_read in HN as [[_ H _ _ _] Hb]. cbn. split; [done|by apply H].
  - intros df df' line n HN. apply text_read in HN as [[_ _ _ He _] _]. specialize (He eq_refl).
    destruct df' as [r b]. cbn in He. subst r. exists 0. split; [lia|]. by eapply Reads_eof.
Qed.
#[global] Instance SqlDataFile_laws : DataFileLaws SqlDataFile.
Proof.
  split.
  - intros df ls last b. apply sql_Reads_counter.
  - done.
  - intros df df' line n HN. apply sql_read in HN as ([_ _ Hd _ _] & Hb & _). cbn. destruct (Hd eq_refl). done.
  - intros df df' line n HN Hl. apply sql_read in HN as ([_ H _ _ _] & Hb & _). cbn. split; [done|by apply H].
  - intros df df' line n HN. apply sql_read in HN as ([_ _ _ He _] & _). specialize (He eq_refl).
    destruct df' as [r i b]. cbn in He. subst r. exists 0. split; [lia|]. by destruct i; eapply Reads_eof.
Qed.

(** ** Every file is read to its end *)
Lemma str_length_drop (a b : string) : (String.length b ≤ String.length (a +:+ b))%nat.
Proof. rewrite str_length_app. lia. Qed.
Lemma Reads_exist_by `{DataFile D} (left : D → nat) :
  (∀ df line n df', NextLine df = ((line, n, None), df') → (left df' < left df)%nat) →
  (∀ df line n e df', NextLine df = ((line, n, Some e), df') → e = EOF) →
  ∀ df, ∃ ls last, Reads df ls last.
Proof.
  intros Hless Heof df. induction df as [df IH] using (well_founded_induction (well_founded_ltof _ left)).
  destruct (NextLine df) as [[[line n] [e|]] df'] eqn:HN.
  - rewrite (Heof _ _ _ _ _ HN) in HN. eexists [], (line, n). by eapply Reads_eof.
  - destruct (IH df') as (ls & last & HR); [by apply (Hless _ _ _ _ HN)|].
    eexists ((line, n) :: ls), last. by eapply Reads_line.
Qed.
Lemma lineRead_less {St} (isDataLine : St → string → bool * St) rest line n rest' :
  lineRead isDataLine rest line n None rest' → (String.length rest' < String.length rest)%nat.
Proof.
  intros [(bytes & -> & ->) _ Hd _ _]. rewrite str_length_app. destruct (Hd eq_refl). lia.
Qed.

(** The bytes of the first reads. *)
Fixpoint bytesOf (ls : list (string * Z)) : Z :=
  match ls with [] => 0 | p :: ls => p.2 + bytesOf ls end.
Lemma bytesOf_app l1 l2 : bytesOf (l1 ++ l2) = bytesOf l1 + bytesOf l2.
Proof. induction l1 as [|p l1 IH]; cbn [bytesOf app]; [done|]. rewrite IH. lia. Qed.
Lemma substring_all s m : (String.length s ≤ m)%nat → String.substring 0 m s = s.
Proof.
  revert m. induction s as [|c s IH]; intros [|m]; cbn; [done..|lia|]. intros. rewrite IH by lia. done.
Qed.
Lemma substring_skip a b m : (String.length b ≤ m)%nat → String.substring (String.length a) m (a +:+ b) = b.
Proof. induction a as [|c a IH]; cbn [String.append String.length]; [by apply substring_all|]. intros; cbn. by apply IH. Qed.
Lemma seek_app a b : seek (a +:+ b) (Z.of_nat (String.length a)) = b.
Proof. unfold seek. rewrite Nat2Z.id. apply substring_skip, str_length_drop. Qed.

(** Where a reader stands after the first [k] lines. *)
Lemma Reads_after `{DataFile D} (rest : D → string) df ls last k :
  (∀ df line n df', NextLine df = ((line, n, None), df') →
     ∃ bytes, rest df = bytes +:+ rest df' ∧ n = Z.of_nat (String.length bytes)) →
  Reads df ls last → (k ≤ length ls)%nat →
  ∃ df' bytes, Reads df' (drop k ls) last ∧ rest df = bytes +:+ rest df' ∧
    bytesOf (take k ls) = Z.of_nat (String.length bytes) ∧
    (k = 0%nat ∧ df' = df ∨ k ≠ 0%nat ∧ ∃ df0 line n, NextLine df0 = ((line, n, None), df')).
Proof.
  intros Hrest HR. revert k. induction HR as [df df' line n HN|df df' line n ls last HN HR IH]; intros k Hk.
  - destruct k; [|cbn in Hk; lia]. exists df, "". split; [by eapply Reads_eof|]. split; [done|]. split; [done|by left].
  - destruct k as [|k]; [exists df, ""; split; [by eapply Reads_line|split; [done|split; [done|by left]]]|].
    destruct (Hrest _ _ _ _ HN) as (b0 & Hb0 & Hn). cbn in Hk.
    destruct (IH k ltac:(lia)) as (d & b1 & Hd & Hb1 & Hsum & Hlast).
    exists d, (b0 +:+ b1). split; [done|]. split; [by rewrite Hb0, Hb1, str_app_assoc|].
    split; [cbn [firstn bytesOf snd]; rewrite Hsum, Hn, str_length_app; lia|].
    right. split; [done|]. destruct Hlast as [[-> ->]|[_ Hl]]; [eauto|done].
Qed.
Lemma Reads_pos `{DataFileLaws D} df ls last :
  Reads df ls last → Forall (λ p, p.1 ≠ "" ∧ 0 < p.2) ls.
Proof.
  induction 1 as [|df df' line n ls last HN HR IH]; [constructor|].
  constructor; [|done]. cbn. by destruct (Next_bytes _ _ _ _ HN) as (_ & ? & ?).
Qed.
Lemma Reads_last_pos `{DataFileLaws D} df ls last : Reads df ls last → last.1 ≠ "" → 0 < last.2.
Proof.
  induction 1 as [df df' line n HN|df df' line n ls last HN HR IH]; [|done].
  intros Hl. by destruct (Next_last _ _ _ _ HN Hl).
Qed.
Lemma bytesOf_pos ls : Forall (λ p : string * Z, p.1 ≠ "" ∧ 0 < p.2) ls → 0 ≤ bytesOf ls ∧ (ls ≠ [] → 0 < bytesOf ls).
Proof. induction 1 as [|p ls [_ Hp] _ IH]; cbn [bytesOf]; [done|]. split; [|intros _]; lia. Qed.

Lemma text_less (df : TextDataFile) line n df' :
  NextLine df = ((line, n, None), df') → (String.length (t_rest df') < String.length (t_rest df))%nat.
Proof. intros HN. apply text_read in HN as [HN _]. by apply lineRead_less in HN. Qed.
Lemma text_only_eof (df : TextDataFile) line n e df' : NextLine df = ((line, n, Some e), df') → e = EOF.
Proof. intros HN. apply text_read in HN as [[_ _ _ _ [He|He]] _]; congruence. Qed.

Lemma text_seek_ok content ls last k :
  Reads (newTextDataFile content) ls last → (k ≤ length ls)%nat →
  Reads (newTextDataFile (seek content (bytesOf (take k ls)))) (drop k ls) last.
Proof.
  intros HR Hk.
  destruct (Reads_after t_rest _ ls last k (λ df line n df' HN,
    lr_consumed _ _ _ _ _ _ (proj1 (text_read df line n None df' HN))) HR Hk) as (df' & bytes & Hd & Hb & Hsum & _).
  cbn [t_rest newTextDataFile] in Hb. rewrite Hb, Hsum, seek_app. by apply (text_Reads_counter df').
Qed.

(** Every text file is read to its end in finitely many calls, and a reader opened
    at the byte offset where [k] lines end yields exactly the remaining lines: resuming
    by a seek neither loses nor repeats a line. *)
Theorem text_seek_resumes (content : string) :
  ∃ ls last, Reads (newTextDataFile content) ls last ∧
  ∀ k, (k ≤ length ls)%nat →
    Reads (newTextDataFile (seek content (bytesOf (take k ls)))) (drop k ls) last.
Proof.
  destruct (Reads_exist_by (λ df : TextDataFile, String.length (t_rest df))
    text_less text_only_eof
    (newTextDataFile content)) as (ls & last & HR).
  exists ls, last. split; [done|]. intros k Hk. by apply text_seek_ok.
Qed.

Lemma sql_less (df : SqlDataFile) line n df' :
  NextLine df = ((line, n, None), df') → (String.length (s_rest df') < String.length (s_rest df))%nat.
Proof. intros HN. apply sql_read in HN as [HN _]. by apply lineRead_less in HN. Qed.
Lemma sql_only_eof (df : SqlDataFile) line n e df' : NextLine df = ((line, n, Some e), df') → e = EOF.
Proof. intros HN. apply sql_read in HN as [[_ _ _ _ [He|He]] _]; congruence. Qed.

Lemma sql_seek_ok content ls last k :
  Reads (newSqlDataFile content 0) ls last → (k ≤ length ls)%nat →
  Reads (newSqlDataFile (seek content (bytesOf (take k ls))) (bytesOf (take k ls))) (drop k ls) last.
Proof.
  intros HR Hk.
  destruct (Reads_after s_rest _ ls last k (λ df line n df' HN,
    lr_consumed _ _ _ _ _ _ (proj1 (sql_read df line n None df' HN))) HR Hk) as (df' & bytes & Hd & Hb & Hsum & Hlast).
  cbn [s_rest newSqlDataFile] in Hb. 
  assert (insideCopyStmt df' = (0 <? bytesOf (take k ls))) as Hi.
  { destruct Hlast as [[-> ->]|(Hk0 & df0 & line & n & HN)]; [done|].
    destruct (sql_read _ _ _ _ _ HN) as (_ & _ & Hin). rewrite Hin by done. symmetry. apply Z.ltb_lt.
    apply bytesOf_pos; [by apply Forall_take, (Reads_pos (newSqlDataFile content 0) ls last)|].
    destruct ls, k; cbn in *; [lia..|done]. }
  rewrite Hb, Hsum, seek_app, <- Hsum. unfold newSqlDataFile. rewrite <- Hi. by apply (sql_Reads_counter df').
Qed.

(** The same for SQL scripts: a reader opened past a row is inside the COPY block
    that row belongs to, so the assumption made on opening at an offset is right. *)
Theorem sql_seek_resumes (content : string) :
  ∃ ls last, Reads (newSqlDataFile content 0) ls last ∧
  ∀ k, (k ≤ length ls)%nat →
    Reads (newSqlDataFile (seek content (bytesOf (take k ls))) (bytesOf (take k ls))) (drop k ls) last.
Proof.
  destruct (Reads_exist_by (λ df : SqlDataFile, String.length (s_rest df))
    sql_less sql_only_eof
    (newSqlDataFile content 0)) as (ls & last & HR).
  exists ls, last. split; [done|]. intros k Hk. by apply sql_seek_ok.
Qed.

(** A last line without a newline is returned whatever it is: the end-of-copy mark,
    and in a script a statement outside every COPY block. *)
Lemma unterminated_last_line :
  (NextLine (newTextDataFile "\.")).1 = ("\.", 2, Some EOF) ∧
  (NextLine (newSqlDataFile "COMMIT;" 0)).1 = ("COMMIT;", 7, Some EOF).
Proof. split; vm_compute; reflexivity. Qed.
Example sample_script :
  (NextLine (newSqlDataFile (Join NLs ["SET x=1;"; "COPY t (a) FROM STDIN;"; "1"; "\."; "COMMIT;"; ""]) 0)).1 =
    ("1", 34, None).
Proof. vm_compute. reflexivity. Qed.

(** ** Files written line by line *)
(** Lines with their newlines, and what stands behind the last newline. *)
Fixpoint written (lines : list string) (last : string) : string :=
  match lines with [] => last | l :: lines => l +:+ NLs +:+ written lines last end.
Definition oneLine (l : string) : Prop := str_has NL l = false.
Definition goodLine (l : string) : Prop := oneLine l ∧ isRow (l +:+ NLs) = true.
Definition withBytes (l : string) : string * Z := (l, Z.of_nat (String.length l) + 1).
Lemma Join_written lines last : Join NLs (lines ++ [last]) = written lines last.
Proof.
  induction lines as [|l lines IH]; [done|]. cbn [app written]. rewrite <- IH. by destruct lines.
Qed.
Lemma ReadString_line l rest : oneLine l → ReadString (l +:+ NLs +:+ rest) = (l +:+ NLs, rest, false).
Proof.
  unfold oneLine. induction l as [|c l IH]; [done|]. rewrite str_has_cons. intros [Hc Hl]%orb_false_iff.
  change (String c l +:+ NLs +:+ rest) with (String c (l +:+ NLs +:+ rest)). cbn [ReadString]. by rewrite Hc, IH.
Qed.
Lemma ReadString_last l : oneLine l → ReadString l = (l, "", true).
Proof.
  unfold oneLine. induction l as [|c l IH]; [done|]. rewrite str_has_cons. intros [Hc Hl]%orb_false_iff.
  cbn [ReadString]. by rewrite Hc, IH.
Qed.
Lemma TrimNL_last l : oneLine l → TrimNL l = l.
Proof.
  intros Hl. unfold TrimNL. destruct l as [|c l]; [done|]. unfold oneLine in Hl. pose proof Hl as Hl'. rewrite str_has_cons in Hl.
  apply orb_false_iff in Hl as [Hc _]. cbn [trim_nl_left]. rewrite Hc. by apply trim_nl_right_id.
Qed.
Lemma length_line l rest : String.length (l +:+ NLs +:+ rest) = S (String.length l + String.length rest).
Proof. rewrite !str_length_app. cbn. lia. Qed.
(** A text file yields the lines written into it. *)
Lemma text_Reads_written lines last b : Forall goodLine lines → oneLine last →
  Reads (mkText (written lines last) b) (map withBytes lines) (last, Z.of_nat (String.length last)).
Proof.
  intros Hlines Hlast. revert b. induction Hlines as [|l lines [Hl Hrow] _ IH]; intros b; cbn [written map].
  - eapply (Reads_eof _ (mkText "" (b + Z.of_nat (String.length last)))). cbn [NextLine TextDataFile_DataFile]. unfold text_NextLine.
    cbn [t_rest next_line]. rewrite ReadString_last by done. unfold text_isDataLine. rewrite orb_true_r, TrimNL_last by done. done.
  - eapply (Reads_line _ (mkText (written lines last) (b + (Z.of_nat (String.length l) + 1)))); [|apply IH].
    cbn [NextLine TextDataFile_DataFile]. unfold text_NextLine. cbn [t_rest next_line]. rewrite ReadString_line by done.
    unfold text_isDataLine. rewrite Hrow. cbn [orb]. rewrite TrimNL_line by (done || by apply isRow_line). rewrite str_length_app. cbn.
    by rewrite Nat2Z.inj_add.
Qed.
(** Outside every COPY block the SQL reader passes over all lines but the last one. *)
Lemma sql_Reads_outside lines last : Forall (λ l, oneLine l ∧ reCopy (l +:+ NLs) = false) lines → oneLine last →
  Reads (newSqlDataFile (written lines last) 0) [] (last, Z.of_nat (String.length (written lines last))).
Proof.
  intros Hlines Hlast.
  assert (∀ fuel cur, (String.length (written lines last) < fuel)%nat →
    next_line sql_isDataLine fuel false (written lines last) cur =
      Some (last, cur + Z.of_nat (String.length (written lines last)), Some EOF, reCopy last, "")) as Hgo.
  { induction Hlines as [|l lines [Hl Hno] _ IH]; intros [|fuel] cur Hf; cbn [written] in *; try lia; cbn [next_line].
    - rewrite ReadString_last by done. cbn. by rewrite TrimNL_last.
    - rewrite ReadString_line by done. cbn [sql_isDataLine orb]. rewrite Hno. rewrite length_line in Hf |- *.
      rewrite IH by lia. rewrite str_length_app. change (String.length NLs) with 1%nat. do 5 f_equal. lia. }
  eapply (Reads_eof _ (mkSql "" (reCopy last) (0 + Z.of_nat (String.length (written lines last))))).
  cbn [NextLine SqlDataFile_DataFile]. unfold sql_NextLine, newSqlDataFile. cbn [s_rest insideCopyStmt s_bytesRead].
  change (0 <? 0) with false. rewrite Hgo by lia. by rewrite Z.add_0_l.
Qed.
End DataFile.
