(* ===== verification/CsvFile.v ===== *)
(** * CSV files (src/yb-voyager/src/utils/csv/reader.go, src/datafile/csvdatafile.go)

    The third reader of DataFile.v: records end at a newline outside quotes.  The file is
    read in chunks of any size into a buffer; a record that a chunk cuts is kept aside and
    looked at again with the next chunk.  What the chunks are does not matter: the reader
    returns the records of the whole file. *)
From S2P Require Import Prelude DataFile.
Import DataFile.

Set Default Proof Using "Type*".

Module CsvFile.
(** ** What is read from: [io.Reader] and what its documentation promises *)
Class ByteReader (F : Type) := {
  FRead : Z → F → string * option readError * F;
  unread : F → string }.
(** [unread], the bytes still to come, is for fuel and statements only.  A read into [space] bytes gives some of them in
    order, at least one if it reports no error; it reports the end only when nothing is
    left, and does so from then on. *)
Class ByteReaderLaws (F : Type) `{ByteReader F} : Prop := {
  FRead_bytes space f bytes err f' : FRead space f = (bytes, err, f') → 0 < space →
    unread f = bytes +:+ unread f' ∧ Z.of_nat (String.length bytes) ≤ space ∧
    (err = None → bytes ≠ "") ∧ (err = Some EOF → unread f' = "");
  FRead_end space f : 0 < space → unread f = "" → ∃ f', FRead space f = ("", Some EOF, f') ∧ unread f' = "" }.

(** ** One record of a buffer *)
(** The record with its newline and what follows it; or the end of the buffer, inside
    quotes or not. *)
Inductive scanned : Type := Line (line rest : string) | EndOfBuffer (insideQuotes : bool).
Definition push (c : ascii) (r : scanned) : scanned :=
  match r with Line line rest => Line (String c line) rest | r => r end.
Section scan.
Context (QuoteChar EscapeChar : ascii).
(** [p1], [p2]: the byte before this one and the byte before that; a read before the
    buffer's start does not happen, the opening quote being no escape. *)
Fixpoint scan (insideQuotes : bool) (p2 p1 : option ascii) (buf : string) : scanned :=
  match buf with
  | "" => EndOfBuffer insideQuotes
  | String c buf' =>
      if insideQuotes then
        if negb (bool_decide (c = QuoteChar)) then push c (scan true p1 (Some c) buf')
        else if bool_decide (QuoteChar = EscapeChar) then
          match buf' with
          | String d buf'' =>
              if bool_decide (d = QuoteChar) then push c (push d (scan true (Some c) (Some d) buf''))
              else push c (scan false p1 (Some c) buf')
          | "" => push c (scan false p1 (Some c) buf')
          end
        else if bool_decide (p1 = Some EscapeChar) && negb (bool_decide (p2 = Some EscapeChar))
             then push c (scan true p1 (Some c) buf')
             else push c (scan false p1 (Some c) buf')
      else if bool_decide (c = NL) then Line NLs buf'
      else push c (scan (bool_decide (c = QuoteChar)) p1 (Some c) buf')
  end.
End scan.

(** ** The reader *)
Record Reader (F : Type) : Type := mkReader {
  QuoteChar : ascii; EscapeChar : ascii; bufLen : Z; file : F;
  remainingBuf : string; pendingBytes : string; eof : bool; lineCount : Z }.
Arguments mkReader {F}.
Arguments QuoteChar {F} r.
Arguments EscapeChar {F} r.
Arguments bufLen {F} r.
Arguments file {F} r.
Arguments remainingBuf {F} r.
Arguments pendingBytes {F} r.
Arguments eof {F} r.
Arguments lineCount {F} r.
(** [init]: the size of the buffer, which the environment may override. *)
Definition CSV_READER_MAX_BUFFER_SIZE (envMaxBufSize : string) : result Z :=
  if decide (envMaxBufSize = "") then Ok (32 * 1024 * 1024)
  else match ParseInt64 envMaxBufSize with
       | Some maxBufSize => Ok maxBufSize
       | None => Panic "Invalid value for CSV_READER_MAX_BUFFER_SIZE_BYTES"
       end.
Definition doubleQuote : ascii := ascii_of_nat 34.
Definition NewReader {F} (bufLen : Z) (f : F) : Reader F := mkReader doubleQuote doubleQuote bufLen f "" "" false 0.
Definition set_buf {F} (remaining pending : string) (r : Reader F) : Reader F :=
  mkReader (QuoteChar r) (EscapeChar r) (bufLen r) (file r) remaining pending (eof r) (lineCount r).
Definition set_file {F} (f : F) (pending : string) (atEnd : bool) (r : Reader F) : Reader F :=
  mkReader (QuoteChar r) (EscapeChar r) (bufLen r) f (remainingBuf r) pending atEnd (lineCount r).
Definition set_line {F} (remaining : string) (r : Reader F) : Reader F :=
  mkReader (QuoteChar r) (EscapeChar r) (bufLen r) (file r) remaining (pendingBytes r) (eof r) (lineCount r + 1).
(** [read]: line, remaining buffer, inside quotes, and whether the buffer ended first. *)
Definition read {F} (r : Reader F) (buf : string) : string * string * bool * bool :=
  match scan (QuoteChar r) (EscapeChar r) false None None buf with
  | Line line rest => (line, rest, false, false)
  | EndOfBuffer insideQuotes => ("", buf, insideQuotes, true)
  end.
(** The refill at [retry]: the bytes kept aside, then the file's next chunk. *)
Definition refill `{ByteReader F} (r : Reader F) : Reader F * option readError :=
  let n1 := Z.of_nat (String.length (pendingBytes r)) in
  if (0 <? n1) && (n1 =? bufLen r) then (r, Some (ReadErr "record larger than the buffer")) else
  let '(bytes, err, f) := FRead (bufLen r - n1) (file r) in
  match err with
  | Some (ReadErr m) => (set_file f "" (eof r) r, Some (ReadErr m))
  | _ => (set_buf (pendingBytes r +:+ bytes) "" (set_file f "" (eof r || bool_decide (err = Some EOF)) r), None)
  end.
(** [Read]; [None]: out of fuel. *)
Fixpoint Read `{ByteReader F} (fuel : nat) (skippedByteCount : Z) (r : Reader F)
    : option ((string * Z * option readError) * Reader F) :=
  match fuel with
  | O => None
  | S fuel =>
      let '(r, err) := if decide (remainingBuf r = "") then refill r else (r, None) in
      match err with
      | Some e => Some (("", skippedByteCount, Some e), r)
      | None =>
          if bool_decide (remainingBuf r = "") && eof r then Some (("", skippedByteCount, Some EOF), r) else
          let '(line, remaining, insideQuotes, endOfBuffer) := read r (remainingBuf r) in
          if (String.length remaining =? String.length (remainingBuf r))%nat && eof r then
            if (insideQuotes : bool) then Some (("", skippedByteCount, Some (ReadErr "unterminated quoted field")), r)
            else Some ((remainingBuf r, skippedByteCount, None), set_buf "" (pendingBytes r) r)
          else if (endOfBuffer : bool) then Read fuel skippedByteCount (set_buf "" (pendingBytes r +:+ remaining) r)
          else
            let r := set_line remaining r in
            if decide (line = NLs) then Read fuel (skippedByteCount + 1) r
            else Some ((line, skippedByteCount, None), r)
      end
  end.

(** ** The data file *)
Record CsvDataFile (F : Type) : Type := mkCsv { reader : Reader F; c_bytesRead : Z; c_Header : string }.
Arguments mkCsv {F}.
Arguments reader {F} c.
Arguments c_bytesRead {F} c.
Arguments c_Header {F} c.
(** The bytes a reader has not returned yet. *)
Definition unreadAll `{ByteReader F} (r : Reader F) : string := remainingBuf r +:+ pendingBytes r +:+ unread (file r).
(** Enough for [Read]: a turn returns, or skips a newline, or takes bytes from the file. *)
Definition readFuel `{ByteReader F} (r : Reader F) : nat :=
  (String.length (unreadAll r) + String.length (unread (file r)) + 3)%nat.
(** The loop of [NextLine]. *)
Fixpoint next_row `{ByteReader F} (fuel : nat) (r : Reader F) (currentBytesRead : Z)
    : option ((string * Z * option readError) * Reader F) :=
  match fuel with
  | O => None
  | S fuel =>
      match Read (readFuel r) 0 r with
      | None => None
      | Some ((line, skippedByteCount, err), r) =>
          let currentBytesRead := currentBytesRead + (Z.of_nat (String.length line) + skippedByteCount) in
          match err with
          | Some e => Some (("", -1, Some e), r)
          | None => if isRow line then Some ((TrimNL line, currentBytesRead, None), r)
                    else next_row fuel r currentBytesRead
          end
      end
  end.
Definition csv_NextLine `{ByteReader F} (df : CsvDataFile F) : (string * Z * option readError) * CsvDataFile F :=
  match next_row (S (String.length (unreadAll (reader df)))) (reader df) 0 with
  | Some ((line, n, None), r) => ((line, n, None), mkCsv r (c_bytesRead df + n) (c_Header df))
  | Some (x, r) => (x, mkCsv r (c_bytesRead df) (c_Header df))
  | None => (("", -1, Some (ReadErr "out of fuel")), df)
  end.
#[global] Instance CsvDataFile_DataFile `{ByteReader F} : DataFile (CsvDataFile F) := {
  NextLine := csv_NextLine;
  GetBytesRead := c_bytesRead;
  ResetBytesRead df b := mkCsv (reader df) b (c_Header df) }.
Definition GetHeader `{ByteReader F} (df : CsvDataFile F) : result string * CsvDataFile F :=
  if decide (c_Header df = "") then
    match NextLine df with
    | ((line, _, None), df) => (Ok line, mkCsv (reader df) (c_bytesRead df) line)
    | ((_, _, Some _), df) => (Panic "finding header for csvdata file", df)
    end
  else (Ok (c_Header df), df).
(** A descriptor's quote and escape characters, where it has them. *)
Definition newCsvDataFile {F} (bufLen : Z) (f : F) (quoteChar escapeChar : option ascii) : CsvDataFile F :=
  let r := NewReader bufLen f in
  mkCsv (mkReader (default (QuoteChar r) quoteChar) (default (EscapeChar r) escapeChar) (CsvFile.bufLen r) (file r)
           (remainingBuf r) (pendingBytes r) (eof r) (lineCount r)) 0 "".

(** ** The records of a whole file *)
(** The newlines before a record. *)
Fixpoint leadingNLs (U : string) : nat * string :=
  match U with
  | String c U' => if bool_decide (c = NL) then let '(k, rest) := leadingNLs U' in (S k, rest) else (O, U)
  | "" => (O, "")
  end.
(** What a read returns, and what is left: a record with its newline, the rest of the
    file without one, the end, or an open quote. *)
Definition nextRecord (Q E : ascii) (U : string) : (string * Z * option readError) * string :=
  let '(k, U) := leadingNLs U in
  if decide (U = "") then (("", Z.of_nat k, Some EOF), "")
  else match scan Q E false None None U with
       | Line line rest => ((line, Z.of_nat k, None), rest)
       | EndOfBuffer false => ((U, Z.of_nat k, None), "")
       | EndOfBuffer true => (("", Z.of_nat k, Some (ReadErr "unterminated quoted field")), U)
       end.
(** The record fits the buffer: with its newline; without one, with a byte to spare. *)
Definition recordFits (Q E : ascii) (bufLen : Z) (U : string) : bool :=
  let U := (leadingNLs U).2 in
  match scan Q E false None None U with
  | Line line _ => Z.of_nat (String.length line) <=? bufLen
  | EndOfBuffer _ => Z.of_nat (String.length U) <? bufLen
  end.

(** ** Lemmas: scanning *)
Section scan_lemmas.
Context (Q E : ascii).
Lemma scan_close p2 p1 c d U :
  bool_decide (c = Q) = true → bool_decide (Q = E) = true → bool_decide (d = Q) = false →
  scan Q E true p2 p1 (String c (String d U)) = push c (scan Q E false p1 (Some c) (String d U)).
Proof. intros H1 H2 H3. cbn. by rewrite H1, H2, H3. Qed.
(** What is found is a prefix that ends with a newline, and what follows it does not matter. *)
Lemma scan_line iq p2 p1 U line rest : scan Q E iq p2 p1 U = Line line rest →
  U = line +:+ rest ∧ (∃ l, line = l +:+ NLs) ∧ ∀ y, scan Q E iq p2 p1 (line +:+ y) = Line line y.
Proof.
  assert (∀ n iq p2 p1 U line rest, (String.length U ≤ n)%nat → scan Q E iq p2 p1 U = Line line rest →
    U = line +:+ rest ∧ (∃ l, line = l +:+ NLs) ∧ ∀ y, scan Q E iq p2 p1 (line +:+ y) = Line line y) as H.
  2:{ by apply (H (String.length U)). }
  clear iq p2 p1 U line rest. induction n as [|n IH]; intros iq p2 p1 [|c U] line rest Hn; [done|by apply Nat.nle_succ_0 in Hn|done|].
  assert (∀ iq p2 p1 line0, push c (scan Q E iq p2 p1 U) = Line line0 rest → ∃ line', line0 = String c line' ∧
    U = line' +:+ rest ∧ (∃ l, line' = l +:+ NLs) ∧ ∀ y, scan Q E iq p2 p1 (line' +:+ y) = Line line' y) as Hpush.
  { intros iq' p2' p1' line0. destruct (scan Q E iq' p2' p1' U) as [line' rest'|] eqn:Hs; [|done]. cbn. intros [= <- <-].
    exists line'. split; [done|]. eapply IH; [|exact Hs]. cbn in Hn. lia. }
  assert (∀ line', (∃ l, line' = l +:+ NLs) → ∃ l, String c line' = l +:+ NLs) as Hnl by (intros ? [l ->]; by exists (String c l)).
  cbn [scan]. destruct iq.
  - destruct (bool_decide (c = Q)) eqn:Hc; cbn [negb].
    2:{ intros (line' & -> & -> & Hl & Hy)%Hpush. split_and!; [done|by apply Hnl|]. intros y. cbn. by rewrite Hc, Hy. }
    destruct (bool_decide (Q = E)) eqn:HQ.
    + destruct U as [|d U]; [done|]. destruct (bool_decide (d = Q)) eqn:Hd.
      * destruct (scan Q E true (Some c) (Some d) U) as [line' rest'|] eqn:Hs; [|done]. cbn. intros [= <- <-].
        destruct (IH _ _ _ _ _ _ (le_S_n _ _ (Nat.le_trans _ _ _ (Nat.le_succ_diag_r _) Hn)) Hs) as (-> & [l ->] & Hy). split_and!; [done|by exists (String c (String d l))|].
        intros y. cbn. by rewrite Hc, HQ, Hd, Hy.
      * intros (line' & -> & HU & [l ->] & Hy)%Hpush. assert (∃ l', l +:+ NLs = String d l') as [l' Hl'].
        { destruct l as [|x l]; cbn in *; injection HU as -> _; eauto. }
        rewrite HU. split_and!; [done|apply Hnl; by exists l|]. intros y. specialize (Hy y). rewrite Hl' in *. cbn [String.append] in *.
        by rewrite scan_close, Hy.
    + destruct (bool_decide (p1 = Some E) && _) eqn:He; intros (line' & -> & -> & Hl & Hy)%Hpush; (split_and!; [done|by apply Hnl|]);
        intros y; cbn; by rewrite Hc, HQ, He, Hy.
  - destruct (bool_decide (c = NL)) eqn:Hc.
    { intros [= <- <-]. apply bool_decide_eq_true in Hc as ->. split_and!; [done|by exists ""|done]. }
    intros (line' & -> & -> & Hl & Hy)%Hpush. split_and!; [done|by apply Hnl|]. intros y. cbn. by rewrite Hc, Hy.
Qed.
Lemma scan_line_nonempty iq p2 p1 U line rest : scan Q E iq p2 p1 U = Line line rest → (1 ≤ String.length line)%nat.
Proof. intros (_ & [l ->] & _)%scan_line. rewrite str_length_app. cbn. lia. Qed.
(** A record found in a prefix is the record of the whole. *)
Lemma scan_more iq p2 p1 b x line rest : scan Q E iq p2 p1 b = Line line rest → scan Q E iq p2 p1 (b +:+ x) = Line line (rest +:+ x).
Proof. intros (-> & _ & H)%scan_line. by rewrite str_app_assoc. Qed.
(** Where the buffer ends first, the record is longer than the buffer. *)
Lemma scan_longer iq p2 p1 b x line rest iq' :
  scan Q E iq p2 p1 b = EndOfBuffer iq' → scan Q E iq p2 p1 (b +:+ x) = Line line rest → (String.length b < String.length line)%nat.
Proof.
  intros Hb (Heq & _ & Hy)%scan_line. destruct (Nat.lt_ge_cases (String.length b) (String.length line)) as [|Hle]; [done|].
  assert (∃ y, b = line +:+ y) as [y ->].
  { clear Hb Hy. revert line Heq Hle. induction b as [|c b IH]; intros [|d line] Heq Hle; cbn in *; [by exists ""|lia|by eexists|].
    injection Heq as -> Heq. destruct (IH line Heq ltac:(lia)) as [y ->]. by exists y. }
  by rewrite Hy in Hb.
Qed.
(** Outside quotes a newline is a record of its own. *)
Lemma scan_first c U : scan Q E false None None (String c U) =
  if bool_decide (c = NL) then Line NLs U else push c (scan Q E (bool_decide (c = Q)) None (Some c) U).
Proof. done. Qed.
Lemma leadingNLs_id U line rest : scan Q E false None None U = Line line rest → line ≠ NLs → leadingNLs U = (0%nat, U).
Proof. destruct U as [|c U]; [done|]. rewrite scan_first. cbn [leadingNLs]. destruct (bool_decide (c = NL)); [by intros [= <- <-]|done]. Qed.
Lemma leadingNLs_end U iq : scan Q E false None None U = EndOfBuffer iq → leadingNLs U = (0%nat, U).
Proof. destruct U as [|c U]; [done|]. rewrite scan_first. cbn [leadingNLs]. by destruct (bool_decide (c = NL)). Qed.
Lemma leadingNLs_NL U rest : scan Q E false None None U = Line NLs rest → U = NLs +:+ rest.
Proof. by intros (-> & _)%scan_line. Qed.
End scan_lemmas.

(** ** Lemmas: the reader over a file *)
Section reader.
Context {F : Type} `{HF : !ByteReader F, HL : !ByteReaderLaws F}.
Implicit Types r : Reader F.
Notation scanOf r := (scan (QuoteChar r) (EscapeChar r) false None None).

(** What a reader keeps between calls. *)
Record readerOk r : Prop := {
  ro_len : 0 < bufLen r;
  ro_one : remainingBuf r = "" ∨ pendingBytes r = "";
  ro_rem : Z.of_nat (String.length (remainingBuf r)) ≤ bufLen r;
  ro_pending : Z.of_nat (String.length (pendingBytes r)) ≤ bufLen r ∧ ∃ iq, scanOf r (pendingBytes r) = EndOfBuffer iq;
  ro_eof : eof r = true → unread (file r) = "" ∧ pendingBytes r = "" }.
Definition sameConfig r r' : Prop := QuoteChar r' = QuoteChar r ∧ EscapeChar r' = EscapeChar r ∧ bufLen r' = bufLen r.
(** The bytes [Read] may still use before it returns. *)
Definition work r : nat :=
  (String.length (unreadAll r) + String.length (unread (file r)) + (if eof r then 0 else 1) +
   (if decide (remainingBuf r = "") then 0 else 1))%nat.

(** Every operation leaves the reader as it should be. *)
Lemma refill_keeps r r1 err : readerOk r → remainingBuf r = "" → refill r = (r1, err) →
  readerOk r1 ∧ (err = None → pendingBytes r1 = "" ∧ (remainingBuf r1 = "" → eof r1 = true)) ∧ err ≠ Some EOF.
Proof.
  intros Hr Hrem. destruct (ro_pending _ Hr) as [Hpl Hps]. unfold refill.
  destruct (_ && _) eqn:Hfull; [by intros [= <- <-]|]. apply andb_false_iff in Hfull. rewrite Z.ltb_ge, Z.eqb_neq in Hfull.
  pose proof (ro_len _ Hr) as Hlen.
  destruct (FRead _ (file r)) as [[bytes e] f'] eqn:HR. destruct (FRead_bytes _ _ _ _ _ HR) as (Hbytes & Hspace & Hne & Hend); [lia|].
  assert (∃ iq, scan (QuoteChar r) (EscapeChar r) false None None "" = EndOfBuffer iq) as Hscan by (by eexists).
  destruct e as [[|m]|]; intros [= <- <-]; cbn; rewrite ?orb_true_r, ?orb_false_r.
  - split_and!; [split; cbn|done|done]; [done|by right|rewrite str_length_app; lia|split; [lia|done]|intros _; by rewrite Hend].
  - split_and!; [split; cbn|done|done]; [done|by right|rewrite Hrem; cbn; lia|split; [lia|done]|].
    intros He. destruct (ro_eof _ Hr He) as [Hu _]. rewrite Hu in Hbytes. split; [|done]. by destruct bytes.
  - specialize (Hne eq_refl). assert (eof r = false) as Heof.
    { destruct (eof r) eqn:He; [|done]. destruct (ro_eof _ Hr He) as [Hu _]. rewrite Hu in Hbytes. by destruct bytes. }
    split_and!; [split; cbn| |done]; [done|by right|rewrite str_length_app; lia|split; [lia|done]|by rewrite Heof|].
    intros _. split; [done|]. intros H. by destruct (pendingBytes r), bytes.
Qed.
Lemma set_line_ok r line rest : readerOk r → pendingBytes r = "" → scanOf r (remainingBuf r) = Line line rest → readerOk (set_line rest r).
Proof.
  intros [H1 H2 H3 H4 H5] Hp (Hb & _ & _)%scan_line. split; cbn; [done|by right| |done|done].
  rewrite Hb, str_length_app in H3. lia.
Qed.
Lemma set_aside_ok r iq : readerOk r → pendingBytes r = "" → eof r = false → scanOf r (remainingBuf r) = EndOfBuffer iq →
  readerOk (set_buf "" (remainingBuf r) r).
Proof. intros [H1 H2 H3 H4 H5] Hp He Hs. split; cbn; [done|by left|lia|split; [done|by eexists]|by rewrite He]. Qed.
(** What a line that is returned looks like, and where the end of the file leaves the reader. *)
Lemma Read_keeps fuel skipped r line k err r' : readerOk r → Read fuel skipped r = Some ((line, k, err), r') →
  readerOk r' ∧ skipped ≤ k ∧ (err = None → ∃ c l, line = String c l ∧ c ≠ NL) ∧
  (err = Some EOF → remainingBuf r' = "" ∧ eof r' = true).
Proof.
  revert skipped r. induction fuel as [|fuel IH]; intros skipped r Hr; cbn [Read]; [done|].
  assert (∃ r1 e, (if decide (remainingBuf r = "") then refill r else (r, None)) = (r1, e) ∧ readerOk r1 ∧
    (e = None → pendingBytes r1 = "" ∧ (remainingBuf r1 = "" → eof r1 = true)) ∧ e ≠ Some EOF) as (r1 & e & -> & Hr1 & Hp1 & He).
  { case_decide as Hrem.
    - destruct (refill r) as [r1 e] eqn:Hre. exists r1, e. split; [done|]. by apply refill_keeps with (r := r).
    - exists r, None. split_and!; try done. intros _. split; [|done]. by destruct (ro_one _ Hr). }
  destruct e as [e|].
  { intros [= <- <- <- <-]. split_and!; [done|lia|done|]. by intros [= ->]. }
  destruct (Hp1 eq_refl) as [Hp Hempty]. clear Hp1.
  destruct (bool_decide (remainingBuf r1 = "") && eof r1) eqn:Hend.
  { intros [= <- <- <- <-]. apply andb_true_iff in Hend as [Hrem%bool_decide_eq_true He1]. split_and!; [done|lia|done|done]. }
  unfold read. destruct (scanOf r1 (remainingBuf r1)) as [l rest|iq] eqn:Hs.
  - pose proof (scan_line_nonempty _ _ _ _ _ _ _ _ Hs) as Hl1. destruct (scan_line _ _ _ _ _ _ _ _ Hs) as (Hbuf & _ & _).
    assert (String.length (remainingBuf r1) = String.length l + String.length rest)%nat as Hlen by (by rewrite Hbuf, str_length_app).
    rewrite (proj2 (Nat.eqb_neq _ _)) by lia. cbn [andb]. pose proof (set_line_ok _ _ _ Hr1 Hp Hs) as Hr2. destruct (decide (l = NLs)) as [Hnl|Hnl].
    + intros H. destruct (IH _ _ Hr2 H) as (? & ? & ? & ?). split_and!; [done|lia|done|done].
    + intros [= <- <- <- <-]. split_and!; [done|lia| |done]. intros _. destruct l as [|c l]; [cbn in Hl1; lia|]. exists c, l. split; [done|].
      intros ->. rewrite Hbuf in Hs. cbn [String.append] in Hs. rewrite scan_first, bool_decide_true in Hs by done. by injection Hs as <-.
  - rewrite Nat.eqb_refl. cbn [andb]. destruct (eof r1) eqn:He1.
    + destruct iq; intros [= <- <- <- <-]; (split_and!; [|lia| |done]); [done|done| |].
      * destruct Hr1 as [H1 H2 H3 H4 H5]. split; cbn; [done|by left|lia|done|done].
      * intros _. rewrite andb_true_r in Hend. apply bool_decide_eq_false in Hend. destruct (remainingBuf r1) as [|c l]; [done|].
        exists c, l. split; [done|]. intros ->. rewrite scan_first, bool_decide_true in Hs by done. done.
    + rewrite Hp. cbn [String.append]. intros H. apply IH in H; [done|]. by eapply set_aside_ok.
Qed.

(** The file is read without errors. *)
Context (Hnoerr : ∀ space (f : F) bytes m f', FRead space f ≠ (bytes, Some (ReadErr m), f')).
(** A record that fits leaves room behind the bytes kept aside. *)
Lemma pending_room r : readerOk r → remainingBuf r = "" → pendingBytes r ≠ "" →
  recordFits (QuoteChar r) (EscapeChar r) (bufLen r) (unreadAll r) = true →
  Z.of_nat (String.length (pendingBytes r)) < bufLen r.
Proof.
  intros Hr Hrem Hne Hfit. destruct (ro_pending _ Hr) as [Hle [iq Hiq]]. unfold recordFits, unreadAll in Hfit. rewrite Hrem in Hfit. cbn [String.append] in Hfit.
  assert (leadingNLs (pendingBytes r +:+ unread (file r)) = (0%nat, pendingBytes r +:+ unread (file r))) as Hlead.
  { apply (leadingNLs_end (QuoteChar r) (EscapeChar r)) in Hiq. destruct (pendingBytes r) as [|c p]; [done|].
    cbn in *. destruct (bool_decide (c = NL)); [by destruct (leadingNLs p)|done]. }
  rewrite Hlead in Hfit. cbn [snd] in Hfit.
  destruct (scanOf r (pendingBytes r +:+ unread (file r))) as [line rest|iq'] eqn:Hs.
  - apply scan_longer with (iq' := iq) in Hs; [|done]. apply Z.leb_le in Hfit. lia.
  - apply Z.ltb_lt in Hfit. rewrite str_length_app in Hfit. lia.
Qed.
(** The next chunk. *)
Lemma refill_ok r : readerOk r → remainingBuf r = "" →
  recordFits (QuoteChar r) (EscapeChar r) (bufLen r) (unreadAll r) = true →
  ∃ r1, refill r = (r1, None) ∧ readerOk r1 ∧ sameConfig r r1 ∧ pendingBytes r1 = "" ∧ unreadAll r1 = unreadAll r ∧
    (remainingBuf r1 = "" → eof r1 = true) ∧
    (if eof r1 then (if eof r then True else (String.length (unread (file r1)) ≤ String.length (unread (file r)))%nat)
     else eof r = false ∧ (String.length (unread (file r1)) < String.length (unread (file r)))%nat).
Proof.
  intros Hr Hrem Hfit. pose proof (ro_len _ Hr) as Hlen. unfold refill.
  assert (Z.of_nat (String.length (pendingBytes r)) < bufLen r) as Hroom.
  { destruct (decide (pendingBytes r = "")) as [->|Hne]; [done|]. by apply pending_room. }
  rewrite (proj2 (Z.eqb_neq _ _)) by lia. rewrite andb_false_r.
  destruct (FRead _ (file r)) as [[bytes err] f'] eqn:HR.
  destruct (FRead_bytes _ _ _ _ _ HR) as (Hbytes & Hspace & Hne & Hend); [lia|].
  destruct err as [[|m]|]; [| by apply Hnoerr in HR|].
  - specialize (Hend eq_refl). eexists. split; [reflexivity|]. cbn. rewrite orb_true_r.
    split_and!; [split; cbn; try done|by split_and!|done| |done|destruct (eof r); [done|rewrite Hend; cbn; lia]].
    + by right. + rewrite str_length_app. lia. + split; [lia|by eexists].
    + unfold unreadAll. cbn. rewrite Hrem, Hbytes. cbn. by rewrite str_app_assoc.
  - specialize (Hne eq_refl). eexists. split; [reflexivity|]. cbn. rewrite orb_false_r.
    assert (eof r = false) as Heof.
    { destruct (eof r) eqn:He; [|done]. destruct (ro_eof _ Hr He) as [Hu _]. rewrite Hu in Hbytes.
      by destruct bytes. }
    rewrite Heof. split_and!; [split; cbn; try done|by split_and!|done| | |done|].
    + by right. + rewrite str_length_app. lia. + split; [lia|by eexists].
    + unfold unreadAll. cbn. rewrite Hrem, Hbytes. cbn. by rewrite str_app_assoc.
    + intros H. by destruct (pendingBytes r), bytes.
    + rewrite Hbytes, str_length_app. destruct bytes; [done|cbn; lia].
Qed.
Lemma nextRecord_NL Q E U : nextRecord Q E (NLs +:+ U) =
  let '((line, k, err), rest) := nextRecord Q E U in ((line, k + 1, err), rest).
Proof.
  unfold nextRecord. cbn [String.append NLs leadingNLs]. rewrite bool_decide_true by done. destruct (leadingNLs U) as [k U'].
  case_decide; [f_equal; f_equal; f_equal; lia|]. destruct (scan Q E false None None U') as [l rest|[]]; do 3 f_equal; lia.
Qed.
Lemma recordFits_NL Q E n U : recordFits Q E n (NLs +:+ U) = recordFits Q E n U.
Proof. unfold recordFits. cbn [String.append NLs leadingNLs]. rewrite bool_decide_true by done. by destruct (leadingNLs U). Qed.
Lemma nextRecord_line Q E U line rest : scan Q E false None None U = Line line rest → line ≠ NLs →
  nextRecord Q E U = ((line, 0, None), rest).
Proof.
  intros H Hne. unfold nextRecord. rewrite (leadingNLs_id _ _ _ _ _ H Hne), H. rewrite decide_False; [done|]. by intros ->.
Qed.
Lemma nextRecord_last Q E U iq : scan Q E false None None U = EndOfBuffer iq → U ≠ "" →
  nextRecord Q E U = if iq then (("", 0, Some (ReadErr "unterminated quoted field")), U) else ((U, 0, None), "").
Proof. intros H Hne. unfold nextRecord. rewrite (leadingNLs_end _ _ _ _ H), H, decide_False by done. by destruct iq. Qed.

Lemma refilled r : readerOk r → recordFits (QuoteChar r) (EscapeChar r) (bufLen r) (unreadAll r) = true →
  ∃ r1, (if decide (remainingBuf r = "") then refill r else (r, None)) = (r1, None) ∧ readerOk r1 ∧ sameConfig r r1 ∧
    pendingBytes r1 = "" ∧ unreadAll r1 = unreadAll r ∧ (remainingBuf r1 = "" → eof r1 = true) ∧
    (remainingBuf r1 ≠ "" →
     String.length (unread (file r1)) + (if eof r1 then 0 else 1) + 1 ≤
     String.length (unread (file r)) + (if eof r then 0 else 1) + (if decide (remainingBuf r = "") then 0 else 1))%nat.
Proof.
  intros Hr Hfit. destruct (decide (remainingBuf r = "")) as [Hrem|Hrem].
  - destruct (refill_ok r Hr Hrem Hfit) as (r1 & Hre & Hr1 & Hcfg & Hp1 & Hun & Hempty & Hbound).
    exists r1. split_and!; try done. intros Hne. destruct (eof r1), (eof r) eqn:He; [|lia|naive_solver|lia].
    exfalso. apply Hne. destruct (ro_eof _ Hr He) as [Hu Hp]. unfold unreadAll in Hun. rewrite Hp1, Hrem, Hp, Hu in Hun.
    by destruct (remainingBuf r1).
  - exists r. split_and!; try done. by destruct (ro_one _ Hr).
Qed.
(** [Read] returns the next record of what is unread, whatever the chunks are. *)
Lemma Read_spec fuel skipped r line k err rest :
  readerOk r → recordFits (QuoteChar r) (EscapeChar r) (bufLen r) (unreadAll r) = true → (work r < fuel)%nat →
  nextRecord (QuoteChar r) (EscapeChar r) (unreadAll r) = ((line, k, err), rest) →
  ∃ r', Read fuel skipped r = Some ((line, skipped + k, err), r') ∧ readerOk r' ∧ sameConfig r r' ∧
        unreadAll r' = rest.
Proof.
  revert skipped r k. induction fuel as [|fuel IH]; intros skipped r k Hr Hfit Hwork Hnext; [lia|]. cbn [Read].
  (* after the refill, if any *)
  destruct (refilled r Hr Hfit) as (r1 & -> & Hr1 & (HQ & HE & HB) & Hp1 & Hun & Hempty & Hbound).
  assert (unreadAll r1 = remainingBuf r1 +:+ unread (file r1)) as Hsplit by (unfold unreadAll; by rewrite Hp1).
  rewrite <- HQ, <- HE, <- Hun in Hnext. rewrite <- HQ, <- HE, <- HB, <- Hun in Hfit. unfold work in Hwork. rewrite <- Hun in Hwork.
  destruct (decide (remainingBuf r1 = "")) as [Hrem|Hrem].
  { rewrite (Hempty Hrem). rewrite bool_decide_true by done. cbn [andb].
    destruct (ro_eof _ Hr1 (Hempty Hrem)) as [Hu _]. rewrite Hsplit, Hrem, Hu in Hnext. injection Hnext as <- <- <- <-.
    exists r1. split_and!; [f_equal; f_equal; f_equal; f_equal; lia|done|done|]. by rewrite Hsplit, Hrem, Hu. }
  rewrite bool_decide_false by done. cbn [andb]. unfold read.
  specialize (Hbound Hrem).
  destruct (scan (QuoteChar r1) (EscapeChar r1) false None None (remainingBuf r1)) as [l rest1|iq] eqn:Hscan.
  - pose proof (scan_line_nonempty _ _ _ _ _ _ _ _ Hscan) as Hl1. destruct (scan_line _ _ _ _ _ _ _ _ Hscan) as (Hbuf & _ & _).
    assert (String.length (remainingBuf r1) = String.length l + String.length rest1)%nat as Hlen by (by rewrite Hbuf, str_length_app).
    rewrite (proj2 (Nat.eqb_neq _ _)) by lia. cbn [andb].
    assert (readerOk (set_line rest1 r1)) as Hr2 by (by eapply set_line_ok).
    assert (unreadAll (set_line rest1 r1) = rest1 +:+ unread (file r1)) as Hun2 by (unfold unreadAll; cbn; by rewrite Hp1).
    apply (scan_more _ _ _ _ _ _ (unread (file r1))) in Hscan. rewrite <- Hsplit in Hscan.
    destruct (decide (l = NLs)) as [->|Hne].
    + pose proof (leadingNLs_NL _ _ _ _ Hscan) as HNL. rewrite HNL, nextRecord_NL in Hnext. rewrite HNL, recordFits_NL in Hfit.
      destruct (nextRecord _ _ (rest1 +:+ unread (file r1))) as [[[line' k'] err'] rest'] eqn:Hn2. injection Hnext as <- <- <- <-.
      rewrite <- Hun2 in Hfit, Hn2.
      destruct (IH (skipped + 1) (set_line rest1 r1) k' Hr2 Hfit) as (r' & HR & Hr' & Hcfg' & Hun'); [|exact Hn2|].
      { unfold work. rewrite Hun2. cbn. rewrite HNL in Hwork. rewrite !str_length_app in *. cbn in Hwork. cbn in Hl1.
        destruct (decide (rest1 = "")); lia. }
      exists r'. split_and!; [rewrite HR; do 4 f_equal; lia|done| |done].
      unfold sameConfig in *. cbn in Hcfg'. intuition congruence.
    + rewrite (nextRecord_line _ _ _ _ _ Hscan Hne) in Hnext. injection Hnext as <- <- <- <-.
      eexists. split_and!; [f_equal; f_equal; f_equal; f_equal; lia|done|by split_and!|done].
  - rewrite Nat.eqb_refl. cbn [andb]. destruct (eof r1) eqn:Heof.
    + destruct (ro_eof _ Hr1 Heof) as [Hu _].
      assert (unreadAll r1 = remainingBuf r1) as HU by (by rewrite Hsplit, Hu, str_app_nil_r).
      rewrite HU, (nextRecord_last _ _ _ _ Hscan Hrem) in Hnext.
      destruct iq; injection Hnext as <- <- <- <-.
      * exists r1. split_and!; [do 4 f_equal; lia|done|done|done].
      * eexists. split_and!; [do 4 f_equal; lia| |done|unfold unreadAll; cbn; by rewrite Hp1, Hu].
        destruct Hr1 as [H1 H2 H3 H4 H5]. split; cbn; [done|by left|lia|done|done].
    + rewrite Hp1. cbn [String.append]. set (r2 := set_buf "" (remainingBuf r1) r1).
      assert (unreadAll r2 = unreadAll r1) as Hun2 by (by rewrite Hsplit).
      assert (readerOk r2) as Hr2 by (by eapply set_aside_ok).
      rewrite <- Hun2 in Hnext, Hfit.
      destruct (IH skipped r2 k Hr2 Hfit) as (r' & HR & Hr' & Hcfg' & Hun'); [|done|].
      { unfold work. rewrite Hun2. cbn. rewrite Heof. rewrite (decide_True (P := "" = "")) by done. lia. }
      exists r'. split_and!; try done. unfold sameConfig in *. cbn in Hcfg'. intuition congruence.
Qed.
End reader.

(** ** The CSV file as a reader of the interface *)
Section datafile.
Context {F : Type} `{HF : !ByteReader F, HL : !ByteReaderLaws F}.
(** A data file whose reader is as its operations leave it. *)
Record OpenCsv : Type := mkOpenCsv { csv : CsvDataFile F; csv_ok : readerOk (reader csv) }.
Lemma next_row_keeps fuel (r : Reader F) cur line n err r' : readerOk r → next_row fuel r cur = Some ((line, n, err), r') →
  readerOk r' ∧ (err = None → line ≠ "" ∧ cur < n) ∧ (err = Some EOF → line = "" ∧ n = -1 ∧ remainingBuf r' = "" ∧ eof r' = true) ∧
  (err ≠ None → line = "").
Proof.
  revert r cur. induction fuel as [|fuel IH]; intros r cur Hr; cbn [next_row]; [done|].
  destruct (Read (readFuel r) 0 r) as [[[[l k] e] r1]|] eqn:HR; [|done].
  destruct (Read_keeps _ _ _ _ _ _ _ Hr HR) as (Hr1 & Hk & Hline & Heof).
  destruct e as [e|].
  { intros [= <- <- <- <-]. split_and!; [done|done| |done]. intros [= ->]. by destruct (Heof eq_refl). }
  destruct (Hline eq_refl) as (c & l' & -> & Hc). destruct (isRow _).
  - intros [= <- <- <- <-]. split_and!; [done| |done|done]. intros _. split; [|cbn; lia].
    unfold TrimNL. cbn [trim_nl_left]. rewrite bool_decide_false by done. cbn [trim_nl_right].
    destruct (trim_nl_right l'); [by rewrite bool_decide_false|done].
  - intros H. destruct (IH _ _ Hr1 H) as (? & H1 & ? & ?). split_and!; [done| |done|done].
    intros He. destruct (H1 He). split; [done|]. cbn in *. lia.
Qed.
Lemma csv_NextLine_ok (df : CsvDataFile F) : readerOk (reader df) → readerOk (reader (csv_NextLine df).2).
Proof.
  intros Hr. unfold csv_NextLine. destruct (next_row _ _ _) as [[[[l n] e] r]|] eqn:H; [|done].
  apply next_row_keeps in H as [H _]; [|done]. by destruct e.
Qed.
#[global] Instance OpenCsv_DataFile : DataFile OpenCsv := {
  NextLine df := ((csv_NextLine (csv df)).1, mkOpenCsv (csv_NextLine (csv df)).2 (csv_NextLine_ok _ (csv_ok df)));
  GetBytesRead df := c_bytesRead (csv df);
  ResetBytesRead df b := mkOpenCsv (mkCsv (reader (csv df)) b (c_Header (csv df))) (csv_ok df) }.
Lemma open_read df line n err df' : NextLine df = ((line, n, err), df') →
  (err = None → line ≠ "" ∧ 0 < n ∧ c_bytesRead (csv df') = c_bytesRead (csv df) + n) ∧
  (err = Some EOF → line = "" ∧ n = -1 ∧ remainingBuf (reader (csv df')) = "" ∧ eof (reader (csv df')) = true).
Proof.
  cbn [NextLine OpenCsv_DataFile]. intros [= H <-]. cbn [csv]. unfold csv_NextLine in *.
  destruct (next_row _ _ _) as [[[[l k] e] r]|] eqn:Hn; [|by injection H as <- <- <-].
  destruct (next_row_keeps _ _ _ _ _ _ _ (csv_ok df) Hn) as (_ & H1 & H2 & _).
  destruct e as [e|]; injection H as <- <- <-; cbn; [split; [done|]|split; [|done]]; intros He; [by apply H2|].
  destruct (H1 He). split_and!; [done|lia|done].
Qed.
Lemma same_reader (df df' : OpenCsv) : reader (csv df') = reader (csv df) →
  (NextLine df').1 = (NextLine df).1 ∧ reader (csv (NextLine df').2) = reader (csv (NextLine df).2).
Proof.
  intros H. cbn [NextLine OpenCsv_DataFile fst snd csv]. unfold csv_NextLine. rewrite H.
  by destruct (next_row _ _ _) as [[[[l n] [e|]] r]|].
Qed.
Lemma Reads_same_reader (df df' : OpenCsv) ls last : reader (csv df') = reader (csv df) → Reads df ls last → Reads df' ls last.
Proof.
  intros Hsame HR. revert df' Hsame. induction HR as [df df1 line n HN|df df1 line n ls last HN _ IH]; intros df' Hsame;
    destruct (same_reader df df' Hsame) as [H1 H2]; rewrite HN in H1, H2; cbn [fst snd] in H1, H2; destruct (NextLine df') as [x df''] eqn:HN';
    cbn [fst snd] in H1, H2; subst x.
  - by eapply Reads_eof.
  - eapply Reads_line; [done|by apply IH].
Qed.
(** At the end the reader stays there. *)
Lemma at_end_stays (r : Reader F) : readerOk r → remainingBuf r = "" → eof r = true →
  ∃ r', next_row (S (String.length (unreadAll r))) r 0 = Some (("", -1, Some EOF), r').
Proof.
  intros Hr Hrem Heof. destruct (ro_eof _ Hr Heof) as [Hu Hp]. pose proof (ro_len _ Hr) as Hlen.
  destruct (FRead_end (bufLen r - Z.of_nat (String.length (pendingBytes r))) (file r)) as (f' & HR & _); [rewrite Hp; cbn; lia|done|].
  cbn [next_row]. unfold readFuel. rewrite Nat.add_comm. cbn [Nat.add Read]. unfold refill. rewrite Hrem, decide_True by done.
  rewrite Hp in *. rewrite HR. cbn. rewrite orb_true_r. cbn. eauto.
Qed.
#[global] Instance OpenCsv_laws : DataFileLaws OpenCsv.
Proof.
  split.
  - intros df ls last b. by apply Reads_same_reader.
  - done.
  - intros df df' line n HN. destruct (proj1 (open_read _ _ _ _ _ HN) eq_refl) as (? & ? & ?). done.
  - intros df df' line n HN Hl. by destruct (proj2 (open_read _ _ _ _ _ HN) eq_refl) as (-> & _).
  - intros df df' line n HN. destruct (proj2 (open_read _ _ _ _ _ HN) eq_refl) as (_ & _ & Hrem & Heof).
    exists (-1). split; [lia|]. destruct (at_end_stays _ (csv_ok df') Hrem Heof) as [r' Hr'].
    eapply (Reads_eof _ (NextLine df').2). cbn [NextLine OpenCsv_DataFile snd]. f_equal. unfold csv_NextLine. by rewrite Hr'.
Qed.
End datafile.

(** ** Rows written to a file and read back *)
Section closed.
Context (Q E : ascii) (HQ : Q ≠ NL).
Lemma push_end c r iq : push c r = EndOfBuffer iq → r = EndOfBuffer iq.
Proof. by destruct r. Qed.
(** A row that ends outside quotes ends at the newline behind it, and at no other. *)
Lemma scan_closed iq p2 p1 b rest : scan Q E iq p2 p1 b = EndOfBuffer false →
  scan Q E iq p2 p1 (b +:+ NLs +:+ rest) = Line (b +:+ NLs) rest.
Proof.
  assert (∀ n iq p2 p1 b, (String.length b ≤ n)%nat → scan Q E iq p2 p1 b = EndOfBuffer false →
    scan Q E iq p2 p1 (b +:+ NLs +:+ rest) = Line (b +:+ NLs) rest) as H; [|by apply (H (String.length b))].
  clear iq p2 p1 b. assert (bool_decide (NL = Q) = false) as HNQ by (by apply bool_decide_eq_false).
  induction n as [|n IH]; intros iq p2 p1 [|c b] Hn.
  1,3: cbn; destruct iq; [done|]; intros _; rewrite bool_decide_true by done; done.
  { by apply Nat.nle_succ_0 in Hn. }
  assert (∀ iq p2 p1, push c (scan Q E iq p2 p1 b) = EndOfBuffer false →
    push c (scan Q E iq p2 p1 (b +:+ NLs +:+ rest)) = Line (String c b +:+ NLs) rest) as Hpush.
  { intros iq' p2' p1' H%push_end. apply IH in H; [by rewrite H|]. cbn in Hn. lia. }
  cbn [String.append]. change (String c (b +:+ NLs)) with (String c b +:+ NLs).
  destruct iq; [destruct (bool_decide (c = Q)) eqn:Hc; [destruct (bool_decide (Q = E)) eqn:HE|]|].
  - destruct b as [|d b].
    + intros _. change ("" +:+ NLs +:+ rest) with (String NL rest). rewrite scan_close by done. cbn. by rewrite bool_decide_true by done.
    + cbn [String.append] in *. destruct (bool_decide (d = Q)) eqn:Hd.
      * cbn [scan]. rewrite Hc, HE, Hd. cbn [negb]. intros H%push_end%push_end. apply IH in H; [by rewrite H|]. cbn in Hn. lia.
      * rewrite !scan_close by done. apply Hpush.
  - cbn [scan]. rewrite Hc, HE. cbn [negb]. destruct (_ && _); apply Hpush.
  - cbn [scan]. rewrite Hc. cbn [negb]. apply Hpush.
  - cbn [scan]. destruct (bool_decide (c = NL)); [done|apply Hpush].
Qed.
(** Outside quotes no row ends with a newline. *)
Lemma closed_last iq p2 p1 b : scan Q E iq p2 p1 (b +:+ NLs) ≠ EndOfBuffer false.
Proof.
  assert (∀ n iq p2 p1 b, (String.length b ≤ n)%nat → scan Q E iq p2 p1 (b +:+ NLs) ≠ EndOfBuffer false) as H; [|by apply (H (String.length b))].
  clear iq p2 p1 b. assert (bool_decide (NL = Q) = false) as HNQ by (by apply bool_decide_eq_false).
  induction n as [|n IH]; intros iq p2 p1 [|c b] Hn.
  1,3: cbn; rewrite HNQ; destruct iq; [done|]; by rewrite bool_decide_true by done.
  { by apply Nat.nle_succ_0 in Hn. }
  assert (∀ iq p2 p1, push c (scan Q E iq p2 p1 (b +:+ NLs)) ≠ EndOfBuffer false) as Hpush.
  { intros iq' p2' p1' H%push_end. apply IH in H; [done|]. cbn in Hn. lia. }
  cbn [String.append]. destruct iq; [destruct (bool_decide (c = Q)) eqn:Hc; [destruct (bool_decide (Q = E)) eqn:HE|]|].
  - destruct b as [|d b].
    + change ("" +:+ NLs) with (String NL "") in *. rewrite scan_close by done. apply Hpush.
    + cbn [String.append] in *. destruct (bool_decide (d = Q)) eqn:Hd.
      * cbn [scan]. rewrite Hc, HE, Hd. cbn [negb]. intros H%push_end%push_end. apply IH in H; [done|]. cbn in Hn. lia.
      * rewrite scan_close by done. apply Hpush.
  - cbn [scan]. rewrite Hc, HE. cbn [negb]. destruct (_ && _); apply Hpush.
  - cbn [scan]. rewrite Hc. cbn [negb]. apply Hpush.
  - cbn [scan]. destruct (bool_decide (c = NL)); [done|apply Hpush].
Qed.
End closed.

(** A row of a CSV file: it is a record, it is no end-of-copy mark, and with its newline it
    fits the buffer. *)
Definition csvRow (Q E : ascii) (bufLen : Z) (row : string) : Prop :=
  scan Q E false None None row = EndOfBuffer false ∧ row ≠ "" ∧ row ≠ "\." ∧ Z.of_nat (String.length row) < bufLen.
(** What reading a file of rows yields; the last one may lack its newline. *)
Definition csvLines (rows : list string) (last : string) : list (string * Z) :=
  map (λ row, (row, Z.of_nat (String.length row) + 1)) rows ++
  (if decide (last = "") then [] else [(last, Z.of_nat (String.length last))]).
Lemma NLs_inj a b : a +:+ NLs = b +:+ NLs → a = b.
Proof.
  revert b. induction a as [|c a IH]; intros [|d b]; cbn; [done|intros [= _ H]; by destruct b|intros [= _ H]; by destruct a|].
  intros [= -> H]. f_equal. by apply IH.
Qed.
Lemma isRow_csv Q E row : Q ≠ NL → scan Q E false None None row = EndOfBuffer false → row ≠ "" → row ≠ "\." →
  isRow (row +:+ NLs) = true ∧ isRow row = true.
Proof.
  intros HQ Hs H1 H2. unfold isRow, endOfCopy. split; rewrite !bool_decide_false; try done.
  - by intros H%NLs_inj.
  - intros H. destruct row as [|c [|d row]]; [done|done|]. injection H as -> -> H. by destruct row.
  - by intros H%(NLs_inj _ "").
  - by destruct row.
  - intros ->. by apply (closed_last Q E HQ false None None "\.") in Hs.
  - intros ->. by apply (closed_last Q E HQ false None None "") in Hs.
Qed.
Lemma trim_nl_right_app s : trim_nl_right (s +:+ NLs) = trim_nl_right s.
Proof. induction s as [|c s IH]; cbn [String.append trim_nl_right]; [|by rewrite IH]. cbn. by rewrite bool_decide_true by done. Qed.
Lemma trim_nl_right_cases s : s = "" ∨ (∃ b, s = b +:+ NLs) ∨ (s ≠ "" ∧ trim_nl_right s = s).
Proof.
  induction s as [|c s IH]; [by left|right]. destruct IH as [->|[[b ->]|[Hne IH]]].
  - destruct (decide (c = NL)) as [->|Hc]; [left; by exists ""|right]. split; [done|]. cbn. by rewrite bool_decide_false.
  - left. by exists (String c b).
  - right. split; [done|]. cbn. rewrite IH. by destruct s.
Qed.
(** Trimming newlines takes the record's own newline and nothing else. *)
Lemma TrimNL_row Q E row : Q ≠ NL → scan Q E false None None row = EndOfBuffer false → row ≠ "" →
  TrimNL row = row ∧ TrimNL (row +:+ NLs) = row.
Proof.
  intros HQ Hs Hne. assert (trim_nl_right row = row) as Hr.
  { destruct (trim_nl_right_cases row) as [?|[[b ->]|[_ ?]]]; [done| |done]. by apply closed_last in Hs. }
  destruct row as [|c row]; [done|]. rewrite scan_first in Hs. unfold TrimNL. cbn [String.append trim_nl_left].
  destruct (bool_decide (c = NL)); [done|]. change (String c (row +:+ NLs)) with (String c row +:+ NLs).
  by rewrite trim_nl_right_app.
Qed.

Section rows.
Context {F : Type} `{HF : !ByteReader F, HL : !ByteReaderLaws F}.
Context (Hnoerr : ∀ space (f : F) bytes m f', FRead space f ≠ (bytes, Some (ReadErr m), f')).
Lemma work_fuel (r : Reader F) : (work r < readFuel r)%nat.
Proof. unfold work, readFuel. destruct (eof r), (decide _); lia. Qed.
(** One call on a file that goes on with a row. *)
Lemma next_row_row (df : @OpenCsv F HF) row tail n :
  let r := reader (csv df) in
  QuoteChar r ≠ NL → csvRow (QuoteChar r) (EscapeChar r) (bufLen r) row →
  (unreadAll r = row +:+ NLs +:+ tail ∧ n = Z.of_nat (String.length row) + 1) ∨
  (unreadAll r = row ∧ tail = "" ∧ n = Z.of_nat (String.length row)) →
  ∃ df', NextLine df = ((row, n, None), df') ∧ sameConfig r (reader (csv df')) ∧ unreadAll (reader (csv df')) = tail.
Proof.
  intros r HQ (Hs & Hne & Hmark & Hlen) Hun. destruct (isRow_csv _ _ row HQ Hs Hne Hmark) as [Hrow Hrow'].
  destruct (TrimNL_row _ _ _ HQ Hs Hne) as [Ht Ht'].
  assert (∃ line, recordFits (QuoteChar r) (EscapeChar r) (bufLen r) (unreadAll r) = true ∧
    nextRecord (QuoteChar r) (EscapeChar r) (unreadAll r) = ((line, 0, None), tail) ∧
    isRow line = true ∧ TrimNL line = row ∧ Z.of_nat (String.length line) = n) as (line & Hfit & Hnext & Hl1 & Hl2 & Hl3).
  { destruct Hun as [[Hun ->]|(Hun & -> & ->)]; rewrite Hun.
    - pose proof (scan_closed _ _ HQ _ _ _ _ tail Hs) as Hsc.
      assert (row +:+ NLs ≠ NLs) as Hnn by (by intros H%(NLs_inj _ "")).
      assert (String.length (row +:+ NLs) = String.length row + 1)%nat as Hl by (by rewrite str_length_app).
      exists (row +:+ NLs). split_and!; [|by apply nextRecord_line|done|done|lia].
      unfold recordFits. rewrite (leadingNLs_id _ _ _ _ _ Hsc Hnn). cbn [snd]. rewrite Hsc. apply Z.leb_le. lia.
    - exists row. split_and!; [|by rewrite (nextRecord_last _ _ _ _ Hs Hne)|done|done|done].
      unfold recordFits. rewrite (leadingNLs_end _ _ _ _ Hs). cbn [snd]. rewrite Hs. by apply Z.ltb_lt. }
  destruct (Read_spec Hnoerr (readFuel r) 0 r _ _ _ _ (csv_ok df) Hfit (work_fuel r) Hnext) as (r' & HR & Hr' & Hcfg & Hun').
  assert (next_row (S (String.length (unreadAll r))) r 0 = Some ((row, n, None), r')) as Hnr.
  { cbn [next_row]. rewrite HR, Hl1, Hl2. do 4 f_equal. lia. }
  assert (csv_NextLine (csv df) = ((row, n, None), mkCsv r' (c_bytesRead (csv df) + n) (c_Header (csv df)))) as Hcn.
  { unfold csv_NextLine. fold r. by rewrite Hnr. }
  exists (NextLine df).2. cbn [NextLine OpenCsv_DataFile snd csv].
  split_and!; [f_equal; by rewrite Hcn|by rewrite Hcn|by rewrite Hcn].
Qed.
(** And on one that is at its end. *)
Lemma next_row_end (df : @OpenCsv F HF) : unreadAll (reader (csv df)) = "" →
  ∃ df', NextLine df = (("", -1, Some EOF), df').
Proof.
  intros Hun. set (r := reader (csv df)) in *.
  assert (nextRecord (QuoteChar r) (EscapeChar r) (unreadAll r) = (("", 0, Some EOF), "")) as Hnext by (by rewrite Hun).
  assert (recordFits (QuoteChar r) (EscapeChar r) (bufLen r) (unreadAll r) = true) as Hfit.
  { rewrite Hun. unfold recordFits. cbn. apply Z.ltb_lt. pose proof (ro_len _ (csv_ok df)). subst r. lia. }
  destruct (Read_spec Hnoerr (readFuel r) 0 r _ _ _ _ (csv_ok df) Hfit (work_fuel r) Hnext) as (r' & HR & _).
  assert (next_row (S (String.length (unreadAll r))) r 0 = Some (("", -1, Some EOF), r')) as Hnr by (cbn [next_row]; by rewrite HR).
  exists (NextLine df).2. cbn [NextLine OpenCsv_DataFile snd]. f_equal. unfold csv_NextLine. fold r. by rewrite Hnr.
Qed.
Lemma csv_Reads rows last (df : @OpenCsv F HF) :
  let r := reader (csv df) in
  QuoteChar r ≠ NL → Forall (csvRow (QuoteChar r) (EscapeChar r) (bufLen r)) rows →
  (last = "" ∨ csvRow (QuoteChar r) (EscapeChar r) (bufLen r) last) → unreadAll r = written rows last →
  Reads df (csvLines rows last) ("", -1).
Proof.
  revert df. induction rows as [|row rows IH]; intros df r HQ Hrows Hlast Hun; unfold csvLines; cbn [map app].
  - destruct (decide (last = "")) as [->|Hne]; [destruct (next_row_end df Hun) as [df' HN]; by eapply Reads_eof|].
    destruct Hlast as [?|Hlast]; [done|].
    destruct (next_row_row df last "" _ HQ Hlast (or_intror (conj Hun (conj eq_refl eq_refl)))) as (df1 & HN & _ & Hun1).
    eapply Reads_line; [exact HN|]. destruct (next_row_end df1 Hun1) as [df' HN']. by eapply Reads_eof.
  - apply Forall_cons in Hrows as [Hrow Hrows]. cbn [written] in Hun.
    destruct (next_row_row df row (written rows last) _ HQ Hrow (or_introl (conj Hun eq_refl))) as (df1 & HN & (HQ1 & HE1 & HB1) & Hun1).
    eapply Reads_line; [exact HN|]. apply IH; by rewrite ?HQ1, ?HE1, ?HB1.
Qed.
Lemma Reads_csv (df : @OpenCsv F HF) ls last : Reads df ls last → Reads (csv df) ls last.
Proof.
  induction 1 as [df df' line n HN|df df' line n ls last HN _ IH]; cbn [NextLine OpenCsv_DataFile] in HN; injection HN as H <-.
  - eapply (Reads_eof _ (csv_NextLine (csv df)).2). cbn [NextLine CsvDataFile_DataFile]. by rewrite <- H, <- surjective_pairing.
  - eapply (Reads_line _ (csv_NextLine (csv df)).2); [|exact IH]. cbn [NextLine CsvDataFile_DataFile]. by rewrite <- H, <- surjective_pairing.
Qed.
End rows.

(** ** The rule of CSV for where a record ends *)
(** Inside quotes an escape makes the next byte stand for itself, a quote that is not
    escaped ends the field, and a newline outside quotes ends the record.  A doubled quote
    ends the field and opens it again. *)
Fixpoint csvRecord (Q E : ascii) (insideQuotes escaped : bool) (U : string) : scanned :=
  match U with
  | "" => EndOfBuffer insideQuotes
  | String c U =>
      if insideQuotes then
        if escaped then push c (csvRecord Q E true false U)
        else if bool_decide (c = Q) then push c (csvRecord Q E false false U)
        else push c (csvRecord Q E true (bool_decide (c = E)) U)
      else if bool_decide (c = NL) then Line NLs U
      else push c (csvRecord Q E (bool_decide (c = Q)) false U)
  end.
(** No three escapes in a row, [run] of them being behind us. *)
Fixpoint shortRuns (E : ascii) (run : nat) (U : string) : bool :=
  match U with
  | "" => true
  | String c U => if bool_decide (c = E) then (run <? 2)%nat && shortRuns E (S run) U else shortRuns E 0 U
  end.
Lemma scan_doubled Q iq p2 p1 U : Q ≠ NL → scan Q Q iq p2 p1 U = csvRecord Q Q iq false U.
Proof.
  intros HQ. assert (∀ n iq p2 p1 U, (String.length U ≤ n)%nat → scan Q Q iq p2 p1 U = csvRecord Q Q iq false U) as H.
  2:{ by apply (H (String.length U)). }
  clear iq p2 p1 U. induction n as [|n IH]; intros iq p2 p1 [|c U] Hn; [done|by apply Nat.nle_succ_0 in Hn|done|].
  cbn in Hn. cbn [scan csvRecord]. destruct iq; [|case_bool_decide; [done|by rewrite IH by lia]].
  case_bool_decide as Hc; cbn [negb]; [|by rewrite IH by lia]. subst c. rewrite bool_decide_true by done.
  destruct U as [|d U]; [done|]. cbn in Hn. destruct (bool_decide (d = Q)) eqn:Hd; [|by rewrite IH by (cbn; lia)].
  apply bool_decide_eq_true in Hd as ->. rewrite IH by lia. cbn [csvRecord]. rewrite bool_decide_false, bool_decide_true by done. done.
Qed.
Lemma scan_escaped Q E iq p2 p1 run U : Q ≠ E → shortRuns E run U = true →
  (iq = true → (run ≤ 2)%nat ∧ (p1 = Some E ↔ (0 < run)%nat) ∧ (p1 = Some E → p2 = Some E ↔ (1 < run)%nat)) →
  scan Q E iq p2 p1 U = csvRecord Q E iq (Nat.odd run && iq) U.
Proof.
  intros HQE. revert iq p2 p1 run. induction U as [|c U IH]; intros iq p2 p1 run Hruns Hin; [done|].
  cbn [scan csvRecord shortRuns] in *. destruct iq.
  2:{ destruct (bool_decide (c = NL)); [done|]. f_equal.
      destruct (bool_decide (c = Q)) eqn:Hc; [apply bool_decide_eq_true in Hc as ->|].
      - rewrite bool_decide_false in Hruns by done. apply (IH true _ _ 0%nat Hruns). intros _. split_and!; [lia|split; [by intros [= ?]|lia]|by intros [= ?]].
      - destruct (bool_decide (c = E)); [apply andb_true_iff in Hruns as [_ Hruns]|];
          (rewrite (IH _ _ _ _ Hruns) by done; by rewrite andb_false_r). }
  destruct (Hin eq_refl) as (Hrun & H1 & H2). rewrite andb_true_r, (bool_decide_false (Q = E)) by done.
  destruct (decide (c = Q)) as [->|Hc].
  - rewrite bool_decide_false in Hruns by done. rewrite bool_decide_true by done. cbn [negb].
    assert (bool_decide (p1 = Some E) && negb (bool_decide (p2 = Some E)) = Nat.odd run) as ->.
    { destruct run as [|[|[|run]]]; [| | |lia].
      - rewrite bool_decide_false; [done|]. intros H%H1. lia.
      - assert (p1 = Some E) as H by (apply H1; lia). rewrite bool_decide_true, bool_decide_false; [done| |done]. intros ?%H2; [lia|done].
      - assert (p1 = Some E) as H by (apply H1; lia). rewrite !bool_decide_true; [done|apply H2; [done|lia]|done]. }
    destruct (Nat.odd run); (rewrite (IH _ _ _ _ Hruns); [done|]); [|done]. intros _.
    split_and!; [lia|split; [by intros [= ?]|lia]|by intros [= ?]].
  - rewrite (bool_decide_false (c = Q)) by done. cbn [negb]. destruct (decide (c = E)) as [->|He].
    + rewrite bool_decide_true in Hruns |- * by done. apply andb_true_iff in Hruns as [Hlt Hruns]. apply Nat.ltb_lt in Hlt.
      rewrite (IH _ _ _ _ Hruns); [by destruct run as [|[|run]]; [| |lia]|]. intros _. split_and!; [lia|split; [lia|done]|]. intros _.
      rewrite H1. lia.
    + rewrite bool_decide_false in Hruns |- * by done. rewrite (IH _ _ _ _ Hruns); [by destruct (Nat.odd run)|]. intros _.
      split_and!; [lia|split; [by intros [= ?]|lia]|by intros [= ?]].
Qed.
(** The reader finds the end of a record where the rule of CSV puts it: always when a
    quote is escaped by doubling it, and with another escape character as long as no three
    of them stand in a row. *)
Theorem record_ends_as_csv (Q E : ascii) (U : string) :
  Q ≠ NL → Q = E ∨ shortRuns E 0 U = true → scan Q E false None None U = csvRecord Q E false false U.
Proof.
  intros HQ [->|Hruns]; [by apply scan_doubled|]. destruct (decide (Q = E)) as [->|HQE]; [by apply scan_doubled|].
  by apply (scan_escaped Q E false None None 0 U).
Qed.

(** ** Reading files *)
(** A seek to the end of the first [k] rows leaves the others. *)
Lemma csvLines_split rows last k : (k ≤ length (csvLines rows last))%nat →
  ∃ bytes rows' last', written rows last = bytes +:+ written rows' last' ∧
    bytesOf (take k (csvLines rows last)) = Z.of_nat (String.length bytes) ∧
    drop k (csvLines rows last) = csvLines rows' last' ∧ (∀ r, r ∈ rows' → r ∈ rows) ∧ (last' = "" ∨ last' = last).
Proof.
  revert k. induction rows as [|row rows IH]; intros [|k] Hk.
  1: exists "", [], last; split_and!; [done..|by right].
  2: exists "", (row :: rows), last; split_and!; [done..|by right].
  - unfold csvLines in *. cbn [map app written] in *. destruct (decide (last = "")); cbn in Hk; [lia|].
    exists last, [], "". cbn [written firstn bytesOf snd]. split_and!; [by rewrite str_app_nil_r| | |done|by left].
    + rewrite firstn_nil. cbn [bytesOf]. lia.
    + cbn. by destruct k.
  - cbn in Hk. destruct (IH k) as (bytes & rows' & last' & Hw & Hb & Hd & Hin & Hl); [unfold csvLines; lia|].
    exists (row +:+ NLs +:+ bytes), rows', last'. cbn [written]. split_and!; [by rewrite Hw, !str_app_assoc| |done| |done].
    + change (csvLines (row :: rows) last) with ((row, Z.of_nat (String.length row) + 1) :: csvLines rows last).
      cbn [firstn bytesOf snd]. rewrite Hb, length_line. lia.
    + intros r Hr. right. by apply Hin.
Qed.
Section files.
Context {F : Type} `{HF : !ByteReader F, HL : !ByteReaderLaws F}.
Context (Hnoerr : ∀ space (f : F) bytes m f', FRead space f ≠ (bytes, Some (ReadErr m), f')).
Lemma new_readerOk n (f : F) q e : 0 < n → readerOk (reader (newCsvDataFile n f q e)).
Proof using HF. intros Hn. split; cbn; [done|by left|lia| |done]. split; [lia|by exists false]. Qed.

(** What the chunks are does not matter: a read returns the next record of the bytes not
    returned yet, newlines before it skipped and counted, or the end, or the error for an
    open quote, as [nextRecord] takes it from the whole of them; it leaves what follows.
    [readFuel] is always enough. *)
Theorem Read_is_nextRecord (r : Reader F) (skipped : Z) :
  readerOk r → recordFits (QuoteChar r) (EscapeChar r) (bufLen r) (unreadAll r) = true →
  let '((line, k, err), rest) := nextRecord (QuoteChar r) (EscapeChar r) (unreadAll r) in
  ∃ r', Read (readFuel r) skipped r = Some ((line, skipped + k, err), r') ∧ unreadAll r' = rest ∧
        readerOk r' ∧ sameConfig r r'.
Proof.
  intros Hr Hfit. destruct (nextRecord _ _ _) as [[[line k] err] rest] eqn:Hn.
  destruct (Read_spec Hnoerr (readFuel r) skipped r _ _ _ _ Hr Hfit (work_fuel Hnoerr r) Hn) as (r' & ? & ? & ? & ?). by exists r'.
Qed.

(** A field that is an escape and a quote, as CSV writes it where the escape is no quote. *)
Definition escapeQuote (Q E : ascii) : string := String Q (String E (String E (String E (String Q (String Q NLs))))).
Lemma scan_inside Q E p2 p1 U : str_has Q U = false → scan Q E true p2 p1 U = EndOfBuffer true.
Proof.
  revert p2 p1. induction U as [|c U IH]; intros p2 p1; [done|]. rewrite str_has_cons. intros [Hc HU]%orb_false_iff.
  cbn [scan]. rewrite bool_decide_false by (intros ->; by rewrite bool_decide_true in Hc). cbn [negb]. by rewrite IH.
Qed.
(** With an escape character that is no quote, three of them before a quote are miscounted:
    the record ends behind the quotes, but the reader takes the field for open, and
    when no quote follows refuses the rest of the file. *)
Theorem odd_escapes_refuse_the_file (bufLen : Z) (Q E : ascii) (U : string) (f : F) :
  Q ≠ E → Q ≠ NL → E ≠ NL → str_has Q U = false →
  unread f = escapeQuote Q E +:+ U → Z.of_nat (String.length (unread f)) < bufLen →
  csvRecord Q E false false (escapeQuote Q E +:+ U) = Line (escapeQuote Q E) U ∧
  (NextLine (newCsvDataFile bufLen f (Some Q) (Some E))).1 = ("", -1, Some (ReadErr "unterminated quoted field")).
Proof.
  intros HQE HQ HE HU Hun Hlen. split.
  { unfold escapeQuote. cbn [String.append csvRecord NLs]. rewrite (bool_decide_false (Q = NL)), (bool_decide_true (Q = Q)) by done.
    rewrite (bool_decide_false (E = Q)), (bool_decide_true (E = E)) by done. cbn [csvRecord]. by rewrite ?bool_decide_true, ?bool_decide_false by done. }
  set (r := reader (newCsvDataFile bufLen f (Some Q) (Some E))).
  assert (unreadAll r = unread f) as HrU by done.
  assert (scan Q E false None None (unread f) = EndOfBuffer true) as Hscan.
  { rewrite Hun. unfold escapeQuote. cbn [String.append scan NLs].
    rewrite (bool_decide_false (Q = NL)), (bool_decide_true (Q = Q)), (bool_decide_false (Q = E)), (bool_decide_false (E = Q)) by done.
    cbn [negb]. rewrite (bool_decide_true (Some E = Some E)) by done. cbn [andb negb].
    rewrite (bool_decide_false (NL = Q)) by done. cbn [negb]. by rewrite scan_inside. }
  assert (unread f ≠ "") as Hne by (by rewrite Hun).
  destruct (Read_spec Hnoerr (readFuel r) 0 r "" 0 (Some (ReadErr "unterminated quoted field")) (unread f)) as (r' & HR & _).
  - apply new_readerOk. lia.
  - rewrite HrU. unfold recordFits. cbn [QuoteChar EscapeChar CsvFile.bufLen r]. cbn. rewrite (leadingNLs_end _ _ _ _ Hscan). cbn [snd].
    rewrite Hscan. by apply Z.ltb_lt.
  - by apply work_fuel.
  - rewrite HrU. change (QuoteChar r) with Q. change (EscapeChar r) with E. by rewrite (nextRecord_last _ _ _ _ Hscan Hne).
  - cbn [NextLine CsvDataFile_DataFile]. unfold csv_NextLine. fold r. cbn [next_row]. by rewrite HR.
Qed.
End files.

(** ** A file that arrives in chunks *)
Record chunkFile : Type := mkChunks { left : string; chunks : list nat }.
(** As many bytes as the next chunk has and the buffer takes, at least one. *)
Definition chunkRead (space : Z) (f : chunkFile) : string * option readError * chunkFile :=
  if decide (left f = "") then ("", Some EOF, f) else
  let n := Nat.min (Z.to_nat space) (Nat.max 1 (hd 1%nat (chunks f))) in
  (String.substring 0 n (left f), None, mkChunks (seek (left f) (Z.of_nat n)) (tl (chunks f))).
#[global] Instance chunkFile_reader : ByteReader chunkFile := { FRead := chunkRead; unread := left }.
Lemma substring_more n m m' s : (String.length s ≤ m)%nat → (String.length s ≤ m')%nat → String.substring n m s = String.substring n m' s.
Proof.
  revert m m' s. induction n as [|n IH]; intros m m' [|c s] H1 H2; [by destruct m, m'| |by destruct m, m'|].
  - by rewrite !substring_all.
  - cbn in *. apply IH; lia.
Qed.
Lemma substring_split n s : s = String.substring 0 n s +:+ seek s (Z.of_nat n) ∧ (String.length (String.substring 0 n s) ≤ n)%nat.
Proof.
  unfold seek. rewrite Nat2Z.id. revert s. induction n as [|n IH]; intros [|c s]; cbn; [done|by rewrite substring_all|split; [done|lia]|].
  destruct (IH s) as [H1 H2]. split; [|lia]. f_equal. rewrite H1 at 1. f_equal.
  apply substring_more; cbn; lia.
Qed.
#[global] Instance chunkFile_laws : ByteReaderLaws chunkFile.
Proof.
  split.
  - intros space [s cs] bytes err f' HR Hspace. cbn [FRead chunkFile_reader unread] in *. unfold chunkRead in HR. cbn [left chunks] in *.
    destruct (decide (s = "")) as [->|Hne]; [injection HR as <- <- <-; by split_and!; [|cbn; lia|..]|].
    set (n := Nat.min _ _) in HR. injection HR as <- <- <-. cbn [left]. destruct (substring_split n s) as [H1 H2].
    split_and!; [exact H1|subst n; lia| |done]. intros _. destruct s as [|c s]; [done|].
    destruct n eqn:Hn; [subst n; lia|]. done.
  - intros space [s cs] _ Hs. cbn in Hs. subst s. by exists (mkChunks "" cs).
Qed.
Lemma chunk_no_error space (f : chunkFile) bytes m f' : FRead space f ≠ (bytes, Some (ReadErr m), f').
Proof. cbn. unfold chunkRead. by destruct (decide _). Qed.

(** ** CSV files under the batch producer *)
Section producer.
Context {F : Type} `{HF : !ByteReader F, HL : !ByteReaderLaws F}.
Context (Hnoerr : ∀ space (f : F) bytes m f', FRead space f ≠ (bytes, Some (ReadErr m), f')).
Context (bufLen : Z) (Hbuf : 0 < bufLen) (Q E : ascii) (HQ : Q ≠ NL).
Definition openCsv (f : F) : @OpenCsv F HF :=
  mkOpenCsv (newCsvDataFile bufLen f (Some Q) (Some E)) (new_readerOk bufLen f (Some Q) (Some E) Hbuf).
(** What the producer asks of a file and of opening it at an offset holds of a CSV file. *)
Lemma csv_openAt (fileAt : Z → F) rows last j : (∀ offset, unread (fileAt offset) = seek (written rows last) offset) →
  Forall (csvRow Q E bufLen) rows → last = "" ∨ csvRow Q E bufLen last → (j ≤ length (csvLines rows last))%nat →
  Reads (openCsv (fileAt (bytesOf (take j (csvLines rows last))))) (drop j (csvLines rows last)) ("", -1).
Proof.
  intros Hat Hrows Hlast Hj. destruct (csvLines_split rows last j Hj) as (bytes & rows' & last' & Hw & Hb & -> & Hin & Hl).
  apply (csv_Reads Hnoerr); cbn; [done| | |].
  - rewrite Forall_forall in Hrows |- *. auto.
  - destruct Hl as [->| ->]; [by left|done].
  - by rewrite Hat, Hw, Hb, seek_app.
Qed.
End producer.

(** ** Concrete files *)
Definition quoted (s : string) : string := String doubleQuote s +:+ String doubleQuote "".
(** A header, a row with a newline in quotes, and one with a doubled quote; chunks that cut them. *)
Definition sampleRows : list string := ["id,v"; "1," +:+ quoted ("a" +:+ NLs +:+ "b"); "2," +:+ quoted "c" +:+ quoted "d"].
Definition sampleFile (content : string) : chunkFile := mkChunks content [2; 5; 1; 3; 1; 1; 9]%nat.
Lemma sample_rows : Forall (csvRow doubleQuote doubleQuote 12) sampleRows.
Proof. repeat constructor; vm_compute; congruence. Qed.
Example sample_reads :
  (NextLine (newCsvDataFile 12 (sampleFile (written (drop 1 sampleRows) "")) None None)).1 = ("1," +:+ quoted ("a" +:+ NLs +:+ "b"), 8, None).
Proof. vm_compute. reflexivity. Qed.
Definition sampleReader : Reader chunkFile := reader (newCsvDataFile 12 (sampleFile (NLs +:+ written sampleRows "")) None None).
Lemma Read_is_nextRecord_witness : ∃ r',
  Read (readFuel sampleReader) 0 sampleReader = Some (("id,v" +:+ NLs, 0 + 1, None), r') ∧ unreadAll r' = written (drop 1 sampleRows) "".
Proof.
  assert (nextRecord (QuoteChar sampleReader) (EscapeChar sampleReader) (unreadAll sampleReader) =
    (("id,v" +:+ NLs, 1, None), written (drop 1 sampleRows) "")) as Hn by (vm_compute; reflexivity).
  pose proof (Read_is_nextRecord chunk_no_error sampleReader 0) as H. rewrite Hn in H.
  destruct H as (r' & HR & Hu & _); [apply (new_readerOk 12 (sampleFile (NLs +:+ written sampleRows "")) None None); lia|vm_compute; reflexivity|].
  exists r'. split; [exact HR|exact Hu].
Defined.
Definition backslash : ascii := ascii_of_nat 92.
Lemma record_ends_as_csv_witness :
  scan doubleQuote backslash false None None (quoted (String backslash (String doubleQuote "a")) +:+ NLs +:+ "b") =
  Line (quoted (String backslash (String doubleQuote "a")) +:+ NLs) "b".
Proof.
  rewrite (record_ends_as_csv doubleQuote backslash); [vm_compute; reflexivity|done|].
  right. vm_compute. reflexivity.
Defined.
Lemma odd_escapes_refuse_the_file_witness :
  (NextLine (newCsvDataFile 100 (sampleFile (escapeQuote doubleQuote backslash +:+ "1,2" +:+ NLs)) (Some doubleQuote) (Some backslash))).1
  = ("", -1, Some (ReadErr "unterminated quoted field")).
Proof.
  apply (odd_escapes_refuse_the_file chunk_no_error 100 doubleQuote backslash ("1,2" +:+ NLs)); (done || (vm_compute; reflexivity)).
Defined.
(** A last record as long as the buffer is refused: with no room left the end is not seen. *)
Example last_record_fills_the_buffer :
  (NextLine (newCsvDataFile 4 (mkChunks "abcd" [4]%nat) None None)).1 = ("", -1, Some (ReadErr "record larger than the buffer")) ∧
  (NextLine (newCsvDataFile 4 (mkChunks ("abc" +:+ NLs) [4]%nat) None None)).1 = ("abc", 4, None).
Proof. split; vm_compute; reflexivity. Qed.
End CsvFile.
