(* ===== verification/ImportState.v ===== *)
(** * The state of a file's import on disk (src/yb-voyager/cmd/importDataState.go)

    One directory per (table, data file): every batch is a regular file whose name
    carries its number, offsets, counts and state, so that listing the directory is
    all a restarted import needs.  The directory is a finite map from file names to
    contents; paths are names inside it. *)
From S2P Require Import Prelude.

Module ImportState.

(** [None]: the directory does not exist. *)
Notation Dir := (gmap string string).
Definition LAST_SPLIT_NUM : Z := 0.

Record Batch : Type := mkBatch {
  Number : Z;
  FilePath : string;
  LineOffsetStart : Z;
  LineOffsetEnd : Z;
  RecordCount : Z;
  ByteCount : Z;
  CumByteOffsetEnd : Z }.
#[global] Instance Batch_eq_dec : EqDecision Batch.
Proof. solve_decision. Defined.

(** ** File names *)
Definition batchPrefix : string := "batch::".
Definition batchFileName (n offsetEnd recordCount byteCount cum : Z) (state : string) : string :=
  batchPrefix +:+ Join "." [itoa n; itoa offsetEnd; itoa recordCount; itoa byteCount; itoa cum; state].
Definition tmpFileName (n : Z) : string := "tmp::" +:+ itoa n.

(** [strings.Split(s, "::")]. *)
Fixpoint SplitColons (s : string) : list string :=
  match s with
  | "" => [""]
  | String c s' =>
      match s' with
      | String d s'' =>
          if bool_decide (c = ":"%char) && bool_decide (d = ":"%char) then "" :: SplitColons s''
          else match SplitColons s' with [] => [String c ""] | w :: ws => String c w :: ws end
      | "" => [String c ""]
      end
  end.
Definition parseField (what s : string) : result Z :=
  match ParseInt64 s with Some z => Ok z | None => Err ("invalid " +:+ what) end.
Definition validStates : list string := ["C"; "P"; "D"; "E"].
Definition parseBatchFileName (fileName : string) : result (Z * Z * Z * Z * Z * string) :=
  match SplitColons fileName with
  | _ :: rest :: _ =>
      match Split "." rest with
      | [f0; f1; f2; f3; f4; state] =>
          batchNum ← parseField "batchNumber" f0;
          offsetEnd ← parseField "offsetEnd" f1;
          recordCount ← parseField "recordCount" f2;
          byteCount ← parseField "byteCount" f3;
          cumByteOffsetEnd ← parseField "cumByteOffsetEnd" f4;
          if decide (state ∈ validStates)
          then Ok (batchNum, offsetEnd, recordCount, byteCount, cumByteOffsetEnd, state)
          else Err "invalid state"
      | _ => Err "invalid batch file name"
      end
  | _ => Panic "index out of range"
  end.

(** ** Listing *)
(** One turn of the loop over the directory. *)
Definition batchOfFile (states : string) (name : string) : result (list Batch) :=
  if HasPrefix name batchPrefix then
    '(batchNum, offsetEnd, recordCount, byteCount, cum, state) ← parseBatchFileName name;
    if str_contains state states
    then Ok [mkBatch batchNum name (offsetEnd - recordCount) offsetEnd recordCount byteCount cum]
    else Ok []
  else Ok [].
Definition getBatches (dir : option Dir) (states : string) : result (list Batch) :=
  match dir with
  | None => Ok []
  | Some dir => ls ← mapM_result (batchOfFile states) (sort_strings (map_to_list dir).*1); Ok (concat ls)
  end.
Definition GetPendingBatches (dir : option Dir) := getBatches dir "CP".
Definition GetCompletedBatches (dir : option Dir) := getBatches dir "D".
Definition GetErroredBatches (dir : option Dir) := getBatches dir "E".
Definition GetAllBatches (dir : option Dir) := getBatches dir "CPDE".

Definition hasSuffix (c : ascii) (s : string) : bool := bool_decide (last_char s = Some c).
Definition IsNotStarted (b : Batch) : bool := hasSuffix "C" (FilePath b).
Definition IsInterrupted (b : Batch) : bool := hasSuffix "P" (FilePath b).
Definition IsDone (b : Batch) : bool := hasSuffix "D" (FilePath b).
Definition IsErrored (b : Batch) : bool := hasSuffix "E" (FilePath b).
Definition IsCompleted (b : Batch) : bool := IsDone b || IsErrored b.

(** ** The state of the file *)
Inductive FileImportState : Type :=
  | FILE_IMPORT_NOT_STARTED | FILE_IMPORT_IN_PROGRESS
  | FILE_IMPORT_COMPLETED | FILE_IMPORT_COMPLETED_WITH_ERRORS.
#[global] Instance FileImportState_eq_dec : EqDecision FileImportState.
Proof. solve_decision. Defined.

Definition countBy (p : Batch → bool) (l : list Batch) : nat := length (filter (λ b, p b = true) l).
Definition fileStateOf (batches : list Batch) : FileImportState :=
  if (length batches =? 0)%nat then FILE_IMPORT_NOT_STARTED
  else
    let doneCount := countBy IsDone batches in
    let interruptedCount := countBy (λ b, negb (IsDone b) && IsInterrupted b) batches in
    let errorCount := countBy (λ b, negb (IsDone b) && negb (IsInterrupted b) && IsErrored b) batches in
    let batchGenerationCompleted := existsb (λ b, Number b =? LAST_SPLIT_NUM) batches in
    if (doneCount =? length batches)%nat && batchGenerationCompleted then FILE_IMPORT_COMPLETED
    else if (doneCount + errorCount =? length batches)%nat && batchGenerationCompleted
    then FILE_IMPORT_COMPLETED_WITH_ERRORS
    else if (interruptedCount =? 0)%nat && (doneCount =? 0)%nat && (errorCount =? 0)%nat
    then FILE_IMPORT_NOT_STARTED else FILE_IMPORT_IN_PROGRESS.
Definition GetFileImportState (dir : option Dir) : result FileImportState :=
  batches ← GetAllBatches dir; Ok (fileStateOf batches).
Definition AllBatchesImported (dir : option Dir) : result bool :=
  taskStatus ← GetFileImportState dir;
  Ok (bool_decide (taskStatus = FILE_IMPORT_COMPLETED)
      || bool_decide (taskStatus = FILE_IMPORT_COMPLETED_WITH_ERRORS)).

Definition sumBy (f : Batch → Z) (l : list Batch) : Z := foldl (λ acc b, acc + f b) 0 l.
Definition GetImportedRowCount (dir : option Dir) : result Z :=
  batches ← GetCompletedBatches dir; Ok (sumBy RecordCount batches).
Definition GetImportedByteCount (dir : option Dir) : result Z :=
  batches ← GetCompletedBatches dir; Ok (sumBy ByteCount batches).
Definition GetErroredRowCount (dir : option Dir) : result Z :=
  batches ← GetErroredBatches dir; Ok (sumBy RecordCount batches).
Definition GetErroredByteCount (dir : option Dir) : result Z :=
  batches ← GetErroredBatches dir; Ok (sumBy ByteCount batches).

(** ** Recovery *)
Record Recovered : Type := mkRecovered {
  pendingBatches : list Batch; lastBatchNumber : Z; lastOffset : Z;
  lastBatchCumByteOffsetEnd : Z; fileFullySplit : bool }.
Definition recoverBatch (r : Recovered) (batch : Batch) : Recovered :=
  mkRecovered
    (if IsCompleted batch then pendingBatches r else pendingBatches r ++ [batch])
    (if lastBatchNumber r <? Number batch then Number batch else lastBatchNumber r)
    (if lastOffset r <? LineOffsetEnd batch then LineOffsetEnd batch else lastOffset r)
    (if lastBatchCumByteOffsetEnd r <? CumByteOffsetEnd batch then CumByteOffsetEnd batch
     else lastBatchCumByteOffsetEnd r)
    ((Number batch =? LAST_SPLIT_NUM) || fileFullySplit r).
Definition Recover (dir : option Dir) : result Recovered :=
  batches ← GetAllBatches dir; Ok (foldl recoverBatch (mkRecovered [] 0 0 0 false) batches).

(** ** Changing the state of a batch *)
Definition Rename (dir : Dir) (old new : string) : result Dir :=
  match dir !! old with
  | Some content => Ok (<[new := content]> (delete old dir))
  | None => Err "rename: no such file"
  end.
(** [path[0:len-1] + state]: the path of a batch is never empty. *)
Fixpoint withState (state : string) (path : string) : string :=
  match path with
  | "" => state
  | String _ "" => state
  | String c path => String c (withState state path)
  end.
Definition withPath (b : Batch) (path : string) : Batch :=
  mkBatch (Number b) path (LineOffsetStart b) (LineOffsetEnd b) (RecordCount b) (ByteCount b) (CumByteOffsetEnd b).
Definition MarkInProgress (dir : Dir) (b : Batch) : result (Dir * Batch) :=
  let path := withState "P" (FilePath b) in
  dir ← Rename dir (FilePath b) path; Ok (dir, withPath b path).
(** The error text is appended to the renamed file. *)
Definition MarkError (dir : Dir) (b : Batch) (errorString : string) : result (Dir * Batch) :=
  let path := withState "E" (FilePath b) in
  dir ← Rename dir (FilePath b) path;
  Ok (<[path := default "" (dir !! path) +:+ errorString]> dir, withPath b path).
Definition MarkDone (truncateSplits : bool) (dir : Dir) (b : Batch) : result (Dir * Batch) :=
  let path := withState "D" (FilePath b) in
  dir ← Rename dir (withState "P" (FilePath b)) path;
  Ok (if truncateSplits then <[path := ""]> dir else dir, withPath b path).

(** ** Writing a batch *)
Record BatchWriter : Type := mkWriter {
  batchNumber : Z; NumRecordsWritten : Z; flagFirstRecordWritten : bool; buffer : string }.
Definition LF : string := String (ascii_of_nat 10) "".
Definition NewBatchWriter (n : Z) : BatchWriter := mkWriter n 0 false "".
(** [os.Create]: the temporary file is created or emptied. *)
Definition Init (dir : Dir) (bw : BatchWriter) : Dir := <[tmpFileName (batchNumber bw) := ""]> dir.
Definition WriteHeader (bw : BatchWriter) (header : string) : BatchWriter :=
  mkWriter (batchNumber bw) (NumRecordsWritten bw) (flagFirstRecordWritten bw) (buffer bw +:+ header +:+ LF).
Definition WriteRecord (bw : BatchWriter) (record : string) : BatchWriter :=
  if decide (record = "") then bw
  else mkWriter (batchNumber bw) (NumRecordsWritten bw + 1) true
         (buffer bw +:+ (if flagFirstRecordWritten bw then LF else "") +:+ record).
Definition BatchWriter_Done (dir : Dir) (bw : BatchWriter) (isLastBatch : bool)
    (offsetEnd byteCount cumByteOffsetEnd : Z) : result (Dir * Batch) :=
  let tmp := tmpFileName (batchNumber bw) in
  let dir := <[tmp := buffer bw]> dir in
  let n := if isLastBatch then LAST_SPLIT_NUM else batchNumber bw in
  let path := batchFileName n offsetEnd (NumRecordsWritten bw) byteCount cumByteOffsetEnd "C" in
  dir ← Rename dir tmp path;
  Ok (dir, mkBatch n path (offsetEnd - NumRecordsWritten bw) offsetEnd (NumRecordsWritten bw) byteCount cumByteOffsetEnd).

(** ** What a file name says *)
Record Info : Type := mkInfo {
  i_number : Z; i_offsetEnd : Z; i_records : Z; i_bytes : Z; i_cum : Z; i_state : string }.
Definition infoName (i : Info) : string :=
  batchFileName (i_number i) (i_offsetEnd i) (i_records i) (i_bytes i) (i_cum i) (i_state i).
Definition batchOf (i : Info) : Batch :=
  mkBatch (i_number i) (infoName i) (i_offsetEnd i - i_records i) (i_offsetEnd i) (i_records i) (i_bytes i) (i_cum i).
Definition withInfoState (i : Info) (s : string) : Info :=
  mkInfo (i_number i) (i_offsetEnd i) (i_records i) (i_bytes i) (i_cum i) s.
Definition validInfo (i : Info) : Prop :=
  in_int64 (i_number i) = true ∧ in_int64 (i_offsetEnd i) = true ∧ in_int64 (i_records i) = true ∧
  in_int64 (i_bytes i) = true ∧ in_int64 (i_cum i) = true ∧ i_state i ∈ validStates.

Lemma SplitColons_none s : str_has ":" s = false → SplitColons s = [s].
Proof.
  induction s as [|c s IH]; [done|]. rewrite str_has_cons. intros [Hc Hs]%orb_false_iff.
  specialize (IH Hs). destruct s as [|d s]; [done|]. cbn [SplitColons] in *. rewrite Hc. cbn [andb].
  change (match SplitColons (String d s) with [] => [String c ""] | w :: ws => String c w :: ws end = [String c (String d s)]).
  cbn [SplitColons]. by rewrite IH.
Qed.
Lemma valid_state_cases s : s ∈ validStates → s = "C" ∨ s = "P" ∨ s = "D" ∨ s = "E".
Proof. unfold validStates. rewrite !elem_of_cons, elem_of_nil. tauto. Qed.
Lemma info_fields_has c i : is_int_char c = false → c ≠ "."%char → i_state i ∈ validStates →
  c ≠ "C"%char → c ≠ "P"%char → c ≠ "D"%char → c ≠ "E"%char →
  str_has c (Join "." [itoa (i_number i); itoa (i_offsetEnd i); itoa (i_records i); itoa (i_bytes i);
    itoa (i_cum i); i_state i]) = false.
Proof.
  intros Hc Hd Hs ????. apply str_has_Join; [done|].
  repeat (apply Forall_cons; split; [by apply itoa_has|]). apply Forall_singleton.
  destruct (valid_state_cases _ Hs) as [-> | [-> | [-> | ->] ] ]; rewrite str_has_cons, bool_decide_false by done; done.
Qed.

Lemma parse_name i :
  validInfo i →
  parseBatchFileName (infoName i) =
    Ok (i_number i, i_offsetEnd i, i_records i, i_bytes i, i_cum i, i_state i).
Proof.
  intros (H1 & H2 & H3 & H4 & H5 & Hs). unfold parseBatchFileName, infoName, batchFileName.
  set (rest := Join "." _).
  assert (SplitColons (batchPrefix +:+ rest) = ["batch"; rest]) as ->.
  { cbn. rewrite SplitColons_none; [done|]. by apply (info_fields_has ":" i). }
  unfold rest. rewrite Split_Join; [|done|].
  2:{ repeat (apply Forall_cons; split; [by apply itoa_has|]). apply Forall_singleton.
      destruct (valid_state_cases _ Hs) as [-> | [-> | [-> | ->] ] ]; done. }
  unfold parseField. rewrite !ParseInt64_itoa by done. cbn [mbind result_bind]. by rewrite decide_True.
Qed.
Lemma infoName_prefix i : HasPrefix (infoName i) batchPrefix = true.
Proof. apply HasPrefix_app. Qed.
Lemma infoName_inj i j : validInfo i → validInfo j → infoName i = infoName j → i = j.
Proof.
  intros Hi Hj H. pose proof (parse_name i Hi) as E. rewrite H, (parse_name j Hj) in E.
  destruct i, j. cbn in E. congruence.
Qed.

(** The part of the name before the state letter. *)
Lemma infoName_stem i : ∃ stem, ∀ s, infoName (withInfoState i s) = stem +:+ s.
Proof.
  exists (batchPrefix +:+ itoa (i_number i) +:+ "." +:+ itoa (i_offsetEnd i) +:+ "." +:+ itoa (i_records i)
    +:+ "." +:+ itoa (i_bytes i) +:+ "." +:+ itoa (i_cum i) +:+ ".").
  intros s. unfold infoName, batchFileName, withInfoState; cbn [i_number i_offsetEnd i_records i_bytes i_cum i_state Join].
  unfold Join. cbn [String.concat]. by rewrite !str_app_assoc.
Qed.
Lemma withState_last s stem c : withState s (stem +:+ String c "") = stem +:+ s.
Proof.
  induction stem as [|d stem IH]; [done|]. cbn [String.append withState]. rewrite IH.
  by destruct stem.
Qed.
Lemma withState_info i s :
  i_state i ∈ validStates → withState s (infoName i) = infoName (withInfoState i s).
Proof.
  intros Hs. destruct (infoName_stem i) as [stem Hst]. rewrite Hst.
  assert (infoName i = stem +:+ i_state i) as -> by (rewrite <- Hst; by destruct i).
  destruct (valid_state_cases _ Hs) as [-> | [-> | [-> | ->] ] ]; apply withState_last.
Qed.
Lemma hasSuffix_info i c : i_state i = String c "" → hasSuffix c (infoName i) = true.
Proof.
  intros Hs. destruct (infoName_stem i) as [stem Hst].
  assert (infoName i = stem +:+ i_state i) as -> by (rewrite <- Hst; by destruct i).
  unfold hasSuffix. rewrite Hs, last_char_app by done. by apply bool_decide_eq_true.
Qed.
Lemma hasSuffix_info_iff i c : i_state i ∈ validStates → hasSuffix c (infoName i) = bool_decide (i_state i = String c "").
Proof.
  intros Hs. destruct (infoName_stem i) as [stem Hst].
  assert (infoName i = stem +:+ i_state i) as -> by (rewrite <- Hst; by destruct i).
  unfold hasSuffix. rewrite last_char_app by (by destruct (valid_state_cases _ Hs) as [-> | [-> | [-> | ->] ] ]).
  destruct (valid_state_cases _ Hs) as [-> | [-> | [-> | ->] ] ]; cbn; apply bool_decide_ext; naive_solver.
Qed.

(** ** Listing a directory *)
(** Every file that looks like a batch is one. *)
Definition wellNamed (dir : Dir) : Prop :=
  ∀ name, is_Some (dir !! name) → HasPrefix name batchPrefix = true → ∃ i, validInfo i ∧ name = infoName i.
Definition stateIn (states : string) (i : Info) : Prop := str_contains (i_state i) states = true.
#[local] Instance stateIn_dec states i : Decision (stateIn states i).
Proof. unfold stateIn. apply _. Defined.

Lemma batchOfFile_info states i :
  validInfo i → batchOfFile states (infoName i) = Ok (if decide (stateIn states i) then [batchOf i] else []).
Proof.
  intros Hi. unfold batchOfFile. rewrite infoName_prefix, (parse_name i Hi). cbn [mbind result_bind].
  destruct (decide (stateIn states i)) as [Hs|Hs]; unfold stateIn in Hs; [by rewrite Hs|].
  by apply not_true_is_false in Hs as ->.
Qed.
Lemma getBatches_spec dir states :
  wellNamed dir → ∃ bs, getBatches (Some dir) states = Ok bs ∧ NoDup bs ∧
  ∀ b, b ∈ bs ↔ ∃ i, validInfo i ∧ is_Some (dir !! infoName i) ∧ stateIn states i ∧ b = batchOf i.
Proof.
  intros Hwf. unfold getBatches.
  assert (∀ l, NoDup l → (∀ name, name ∈ l → is_Some (dir !! name)) →
    ∃ ls, mapM_result (batchOfFile states) l = Ok ls ∧ NoDup (concat ls) ∧
    ∀ b, b ∈ concat ls ↔ ∃ i, validInfo i ∧ infoName i ∈ l ∧ stateIn states i ∧ b = batchOf i) as H.
  { induction l as [|name l IH]; intros Hnd Hin; cbn [mapM_result].
    { exists []. split; [done|]. split; [constructor|]. set_solver. }
    apply NoDup_cons in Hnd as [Hni Hnd].
    destruct (IH Hnd) as (ls & Hls & Hndl & Hmem); [intros; apply Hin; by right|]. rewrite Hls.
    destruct (HasPrefix name batchPrefix) eqn:Hp.
    - destruct (Hwf name) as (i & Hi & ->); [apply Hin; by left|done|].
      rewrite batchOfFile_info by done. cbn [mbind result_bind]. eexists. split; [done|]. cbn [concat].
      assert (∀ b, b ∈ concat ls → b ≠ batchOf i) as Hne.
      { intros b (j & Hj & Hjl & _ & ->)%Hmem Heq. apply Hni.
        assert (infoName j = infoName i) as <- by (by apply (f_equal FilePath) in Heq). done. }
      split.
      + case_decide; [|done]. cbn. apply NoDup_cons. split; [|done]. intros Hb. by apply (Hne _ Hb).
      + intros b. rewrite elem_of_app, Hmem. setoid_rewrite elem_of_cons. split.
        * intros [Hb|(j & ? & ? & ? & ?)]; [|exists j; tauto]. exists i.
          case_decide; [|set_solver]. apply list_elem_of_singleton in Hb. tauto.
        * intros (j & Hj & [Hji|Hji] & Hs & ->); [|right; exists j; tauto].
          apply infoName_inj in Hji as ->; [|done..]. left. rewrite decide_True by done. by left.
    - unfold batchOfFile at 1. rewrite Hp. cbn [mbind result_bind]. eexists. split; [done|]. cbn [concat app].
      split; [done|]. intros b. rewrite Hmem. setoid_rewrite elem_of_cons. split; [naive_solver|].
      intros (j & Hj & [Hjn|Hjl] & Hs & ->); [|naive_solver].
      pose proof (infoName_prefix j) as Hjp. rewrite Hjn in Hjp. congruence. }
  destruct (H (sort_strings (map_to_list dir).*1)) as (ls & -> & Hnd & Hmem).
  { rewrite sort_strings_perm. apply NoDup_fst_map_to_list. }
  { intros name Hn. rewrite elem_of_sort_strings in Hn. apply list_elem_of_fmap in Hn as ([k c] & -> & Hp).
    apply elem_of_map_to_list in Hp. eauto. }
  cbn [mbind result_bind]. eexists. split; [done|]. split; [done|]. intros b. rewrite Hmem.
  assert (∀ name, name ∈ sort_strings (map_to_list dir).*1 ↔ is_Some (dir !! name)) as Hiff.
  { intros name. rewrite elem_of_sort_strings, list_elem_of_fmap. split.
    - intros ([k c] & -> & Hp). apply elem_of_map_to_list in Hp. eauto.
    - intros [c Hc]. exists (name, c). split; [done|]. by apply elem_of_map_to_list. }
  by setoid_rewrite Hiff.
Qed.

(** A file counts as imported when no batch is left to import and the last one exists. *)
Lemma countBy_all p l : (countBy p l = length l)%nat ↔ Forall (λ b, p b = true) l.
Proof.
  unfold countBy. induction l as [|b l IH]; cbn [length]; [split; [constructor|done]|].
  rewrite filter_cons, Forall_cons. case_decide as Hb; cbn [length].
  - rewrite <- IH. split; [intros; split; [done|lia]|intros [_ ?]; lia].
  - split; [|tauto]. pose proof (length_filter (λ b, p b = true) l). lia.
Qed.
Lemma countBy_or p q l : (∀ b, p b = true → q b = true → False) →
  (countBy p l + countBy q l = countBy (λ b, p b || q b) l)%nat.
Proof.
  intros Hd. unfold countBy. induction l as [|b l IH]; [done|]. rewrite !filter_cons.
  specialize (Hd b). destruct (p b) eqn:Hp, (q b) eqn:Hq; repeat case_decide; cbn in *; try done; try lia.
Qed.
Lemma fileStateOf_imported bs :
  bool_decide (fileStateOf bs = FILE_IMPORT_COMPLETED)
    || bool_decide (fileStateOf bs = FILE_IMPORT_COMPLETED_WITH_ERRORS) = true ↔
  Forall (λ b, IsCompleted b = true) bs ∧ ∃ b, b ∈ bs ∧ Number b = LAST_SPLIT_NUM.
Proof.
  rewrite orb_true_iff, !bool_decide_eq_true. unfold fileStateOf.
  set (e := countBy (λ b, negb (IsDone b) && negb (IsInterrupted b) && IsErrored b) bs).
  set (i := countBy (λ b, negb (IsDone b) && IsInterrupted b) bs).
  assert (existsb (λ b, Number b =? LAST_SPLIT_NUM) bs = true ↔ ∃ b, b ∈ bs ∧ Number b = LAST_SPLIT_NUM) as Hlast.
  { rewrite existsb_exists. setoid_rewrite Z.eqb_eq. by setoid_rewrite list_elem_of_In. }
  assert ((countBy IsDone bs + e = length bs)%nat ↔ Forall (λ b, IsCompleted b = true) bs) as Hall.
  { unfold e. rewrite (countBy_or IsDone) by (intros b ->; done). rewrite countBy_all. apply Forall_iff. intros b.
    unfold IsCompleted, IsDone, IsInterrupted, IsErrored, hasSuffix.
    destruct (last_char (FilePath b)) as [c|]; repeat case_bool_decide; naive_solver. }
  rewrite <- Hall, <- Hlast. destruct (existsb _ bs) eqn:Hx.
  - rewrite !andb_true_r. destruct (length bs =? 0)%nat eqn:H0.
    { apply Nat.eqb_eq, nil_length_inv in H0. by subst. }
    destruct (countBy IsDone bs =? length bs)%nat eqn:H1; [apply Nat.eqb_eq in H1|].
    { pose proof (length_filter (λ b, negb (IsDone b) && negb (IsInterrupted b) && IsErrored b = true) bs).
      split; [|auto]. intros _. split; [|done]. apply Hall. apply countBy_all in H1.
      eapply Forall_impl; [exact H1|]. intros b Hb. unfold IsCompleted. by rewrite Hb. }
    destruct (countBy IsDone bs + e =? length bs)%nat eqn:H2; [apply Nat.eqb_eq in H2; tauto|apply Nat.eqb_neq in H2].
    destruct (_ && _); split; [intros [?|?]; done|tauto|intros [?|?]; done|tauto].
  - rewrite !andb_false_r. destruct (_ =? 0)%nat; [|destruct (_ && _)];
      (split; [intros [?|?]; done|intros [_ ?]; done]).
Qed.

(** A batch that has been filed is found again: after [Done] the directory lists the
    batches it listed before and the new one, every field as written. *)
Theorem filed_batch_is_listed (dir dir' : Dir) (bw : BatchWriter) (isLast : bool)
    (offsetEnd byteCount cum : Z) (b : Batch) :
  wellNamed dir →
  in_int64 (batchNumber bw) = true → in_int64 (NumRecordsWritten bw) = true →
  in_int64 offsetEnd = true → in_int64 byteCount = true → in_int64 cum = true →
  BatchWriter_Done dir bw isLast offsetEnd byteCount cum = Ok (dir', b) →
  ∃ bs bs', GetAllBatches (Some dir) = Ok bs ∧ GetAllBatches (Some dir') = Ok bs' ∧
    (∀ x, x ∈ bs' ↔ x ∈ bs ∨ x = b) ∧ IsNotStarted b = true ∧
    dir' !! FilePath b = Some (buffer bw).
Proof.
  intros Hwf Hn Hr Ho Hb Hc. unfold BatchWriter_Done, Rename. rewrite lookup_insert_eq. cbn [mbind result_bind].
  rewrite delete_insert_eq. intros [= <- <-].
  set (i := mkInfo (if isLast then LAST_SPLIT_NUM else batchNumber bw) offsetEnd (NumRecordsWritten bw) byteCount cum "C").
  assert (validInfo i) as Hi by (split_and!; try done; [by destruct isLast|by left]).
  change (batchFileName _ _ _ _ _ _) with (infoName i).
  set (dir' := <[infoName i := buffer bw]> (delete (tmpFileName (batchNumber bw)) dir)).
  assert (∀ j, is_Some (dir' !! infoName j) ↔ infoName j = infoName i ∨ is_Some (dir !! infoName j)) as Hdir.
  { intros j. unfold dir'. rewrite lookup_insert. case_decide as Hj; [split; [by left|eauto]|].
    rewrite lookup_delete_ne; [naive_solver|]. intros He. pose proof (infoName_prefix j) as Hp. by rewrite <- He in Hp. }
  assert (wellNamed dir') as Hwf'.
  { intros name Hs Hp. unfold dir' in Hs. rewrite lookup_insert in Hs. case_decide as Hd; [by exists i|].
    rewrite lookup_delete in Hs. case_decide; [by destruct Hs|]. by apply Hwf. }
  destruct (getBatches_spec dir "CPDE" Hwf) as (bs & Hbs & _ & Hm).
  destruct (getBatches_spec dir' "CPDE" Hwf') as (bs' & Hbs' & _ & Hm').
  exists bs, bs'. split; [done|]. split; [done|]. split; [|split].
  - intros x. rewrite Hm, Hm'. setoid_rewrite Hdir. change (mkBatch _ _ _ _ _ _ _) with (batchOf i). split.
    + intros (j & Hj & [Hij|Hij] & Hs & ->); [right|left; eauto 6].
      by apply infoName_inj in Hij as ->.
    + intros [(j & Hj & Hij & Hs & ->) | -> ]; [exists j; eauto|]. exists i. split; [done|]. split; [by left|]. done.
  - apply (hasSuffix_info i "C" eq_refl).
  - cbn [FilePath]. apply lookup_insert_eq.
Qed.
Definition sampleWriter : BatchWriter := WriteRecord (WriteRecord (NewBatchWriter 1) "a") "b".
Lemma filed_batch_is_listed_witness :
  ∃ bs', GetAllBatches (Some (<["batch::1.2.2.4.4.C" := "a" +:+ LF +:+ "b"]> ∅)) = Ok bs' ∧
    mkBatch 1 "batch::1.2.2.4.4.C" 0 2 2 4 4 ∈ bs'.
Proof.
  destruct (filed_batch_is_listed ∅ (<["batch::1.2.2.4.4.C" := "a" +:+ LF +:+ "b"]> ∅) sampleWriter false 2 4 4
    (mkBatch 1 "batch::1.2.2.4.4.C" 0 2 2 4 4)) as (bs & bs' & _ & Hbs' & Hm & _).
  - intros name. rewrite lookup_empty. by intros [].
  - vm_compute. reflexivity.
  - vm_compute. reflexivity.
  - vm_compute. reflexivity.
  - vm_compute. reflexivity.
  - vm_compute. reflexivity.
  - vm_compute. reflexivity.
  - exists bs'. split; [exact Hbs'|]. apply Hm. by right.
Defined.

Lemma countBy_none p l : (countBy p l = 0)%nat ↔ Forall (λ b, p b = false) l.
Proof.
  unfold countBy. induction l as [|b l IH]; [split; [constructor|done]|].
  rewrite filter_cons, Forall_cons. case_decide as Hb; cbn [length].
  - split; [done|]. intros [? _]. congruence.
  - rewrite IH. apply not_true_is_false in Hb. tauto.
Qed.
Lemma fileStateOf_spec bs :
  let lastThere := existsb (λ b, Number b =? LAST_SPLIT_NUM) bs = true in
  (fileStateOf bs = FILE_IMPORT_COMPLETED ↔ lastThere ∧ Forall (λ b, IsDone b = true) bs) ∧
  (fileStateOf bs = FILE_IMPORT_COMPLETED_WITH_ERRORS ↔
     lastThere ∧ Forall (λ b, IsCompleted b = true) bs ∧ ¬ Forall (λ b, IsDone b = true) bs) ∧
  (fileStateOf bs = FILE_IMPORT_NOT_STARTED ↔
     Forall (λ b, IsDone b = false ∧ IsInterrupted b = false ∧ IsErrored b = false) bs).
Proof.
  cbn zeta. unfold fileStateOf.
  set (e := countBy (λ b, negb (IsDone b) && negb (IsInterrupted b) && IsErrored b) bs).
  set (i := countBy (λ b, negb (IsDone b) && IsInterrupted b) bs).
  assert ((countBy IsDone bs + e = length bs)%nat ↔ Forall (λ b, IsCompleted b = true) bs) as Hall.
  { unfold e. rewrite (countBy_or IsDone) by (intros b ->; done). rewrite countBy_all. apply Forall_iff. intros b.
    unfold IsCompleted, IsDone, IsInterrupted, IsErrored, hasSuffix.
    destruct (last_char (FilePath b)) as [c|]; repeat case_bool_decide; naive_solver. }
  assert ((i =? 0)%nat && (countBy IsDone bs =? 0)%nat && (e =? 0)%nat = true ↔
    Forall (λ b, IsDone b = false ∧ IsInterrupted b = false ∧ IsErrored b = false) bs) as Hnone.
  { rewrite !andb_true_iff, !Nat.eqb_eq. unfold i, e. rewrite !countBy_none, <- !Forall_and. apply Forall_iff. intros b.
    destruct (IsDone b), (IsInterrupted b), (IsErrored b); cbn; naive_solver. }
  pose proof (countBy_all IsDone bs) as Hdone. rewrite <- Hall, <- Hdone, <- Hnone. clear Hall Hdone Hnone.
  destruct (length bs =? 0)%nat eqn:H0.
  { apply Nat.eqb_eq, nil_length_inv in H0. subst bs. cbn. unfold i, e. cbn. naive_solver. }
  apply Nat.eqb_neq in H0.
  destruct (countBy IsDone bs =? length bs)%nat eqn:H1; [apply Nat.eqb_eq in H1|apply Nat.eqb_neq in H1];
    (destruct (countBy IsDone bs + e =? length bs)%nat eqn:H2; [apply Nat.eqb_eq in H2|apply Nat.eqb_neq in H2]);
    destruct (existsb _ bs); cbn [andb];
    (destruct ((i =? 0)%nat && (countBy IsDone bs =? 0)%nat && (e =? 0)%nat) eqn:H3);
    rewrite ?andb_true_iff, ?Nat.eqb_eq in H3; try lia; try naive_solver.
Qed.

(** What the state of a file means, for a directory whose batch files are well named:
    completed is every batch done and the last one there; not started is no batch
    taken up by a worker; and completed-with-errors is every batch done or set aside,
    one at least set aside, and the last one there. *)
Theorem file_state_spec (dir : Dir) (st : FileImportState) :
  wellNamed dir → GetFileImportState (Some dir) = Ok st →
  let has := λ i, validInfo i ∧ is_Some (dir !! infoName i) in
  let lastThere := ∃ i, has i ∧ i_number i = LAST_SPLIT_NUM in
  (st = FILE_IMPORT_COMPLETED ↔ lastThere ∧ ∀ i, has i → i_state i = "D") ∧
  (st = FILE_IMPORT_COMPLETED_WITH_ERRORS ↔
     lastThere ∧ (∀ i, has i → i_state i = "D" ∨ i_state i = "E") ∧ ∃ i, has i ∧ i_state i = "E") ∧
  (st = FILE_IMPORT_NOT_STARTED ↔ ∀ i, has i → i_state i = "C").
Proof.
  intros Hwf H has lastThere. unfold GetFileImportState, GetAllBatches in H.
  destruct (getBatches_spec dir "CPDE" Hwf) as (bs & Hbs & _ & Hm). rewrite Hbs in H. injection H as <-.
  assert (∀ i, has i ↔ validInfo i ∧ batchOf i ∈ bs) as Hhas.
  { intros i. rewrite Hm. split.
    - intros [Hi Hd]. split; [done|]. exists i. split_and!; try done. unfold stateIn.
      destruct Hi as (_ & _ & _ & _ & _ & Hs). by destruct (valid_state_cases _ Hs) as [-> | [-> | [-> | ->] ] ].
    - intros [Hi (j & Hj & Hd & _ & He)]. split; [done|]. apply (f_equal FilePath) in He. cbn [FilePath batchOf] in He. by rewrite He. }
  assert (∀ b, b ∈ bs → ∃ i, validInfo i ∧ b = batchOf i) as Hto by (intros b (i & ? & _ & _ & ?)%Hm; eauto).
  assert (∀ (P : Batch → Prop), (∀ b, b ∈ bs → P b) ↔ ∀ i, has i → P (batchOf i)) as Hq.
  { intros P. split; [intros H i Hi; by apply H, Hhas|]. intros H b Hb. destruct (Hto b Hb) as (i & Hi & ->). by apply H, Hhas. }
  assert (∀ i, has i → IsDone (batchOf i) = bool_decide (i_state i = "D") ∧
    IsInterrupted (batchOf i) = bool_decide (i_state i = "P") ∧ IsErrored (batchOf i) = bool_decide (i_state i = "E")) as Hst.
  { intros i [Hi _]. destruct Hi as (_ & _ & _ & _ & _ & Hs). unfold IsDone, IsInterrupted, IsErrored; cbn [FilePath batchOf].
    by rewrite !hasSuffix_info_iff by done. }
  assert (lastThere ↔ existsb (λ b, Number b =? LAST_SPLIT_NUM) bs = true) as Hlast.
  { rewrite existsb_exists. setoid_rewrite Z.eqb_eq. setoid_rewrite <- list_elem_of_In. split.
    - intros (i & Hi & Hz). exists (batchOf i). split; [by apply Hhas|done].
    - intros (b & Hb & Hz). destruct (Hto b Hb) as (i & Hi & ->). exists i. split; [by apply Hhas|done]. }
  assert (¬ Forall (λ b, IsDone b = true) bs ↔ ∃ i, has i ∧ IsDone (batchOf i) ≠ true) as Hnd.
  { split.
    - intros Hn%not_Forall_Exists; [|intros b; apply _]. apply Exists_exists in Hn as (b & Hb & Hn).
      destruct (Hto b Hb) as (i & Hi & ->). exists i. split; [by apply Hhas|done].
    - intros (i & Hi & Hn) Hall. rewrite Forall_forall in Hall. by apply Hn, Hall, Hhas. }
  destruct (fileStateOf_spec bs) as (H1 & H2 & H3). cbn zeta in *. rewrite Hnd in H2. rewrite H1, H2, H3, !Forall_forall, !Hq, <- Hlast.
  clear H1 H2 H3 Hq Hlast Hto Hhas Hm Hnd. split; [|split].
  - apply and_iff_compat_l, forall_proper. intros i. apply forall_proper. intros Hi.
    destruct (Hst i Hi) as (-> & _ & _). apply bool_decide_eq_true.
  - apply and_iff_compat_l. split.
    + intros [Hall Hnot]. assert (∀ i, has i → i_state i = "D" ∨ i_state i = "E") as Hde.
      { intros i Hi. specialize (Hall i Hi). destruct (Hst i Hi) as (H1 & _ & H3).
        unfold IsCompleted in Hall. rewrite H1, H3, orb_true_iff, !bool_decide_eq_true in Hall. done. }
      split; [done|]. destruct Hnot as (i & Hi & Hn). exists i. split; [done|]. destruct (Hst i Hi) as (H1 & _ & _).
      rewrite H1, bool_decide_eq_true in Hn. destruct (Hde i Hi); [done|assumption].
    + intros [Hall (i & Hi & He)]. split.
      * intros j Hj. destruct (Hst j Hj) as (H1 & _ & H3). unfold IsCompleted.
        rewrite H1, H3, orb_true_iff, !bool_decide_eq_true. by apply Hall.
      * exists i. split; [done|]. destruct (Hst i Hi) as (H1 & _ & _). rewrite H1, bool_decide_eq_true. congruence.
  - apply forall_proper. intros i. apply forall_proper. intros Hi. destruct (Hst i Hi) as (-> & -> & ->).
    rewrite !bool_decide_eq_false. destruct Hi as [(_ & _ & _ & _ & _ & Hs) _].
    destruct (valid_state_cases _ Hs) as [-> | [-> | [-> | ->] ] ]; naive_solver.
Qed.
Lemma file_state_spec_witness :
  GetFileImportState (Some (<["batch::0.2.2.4.4.D" := ""]> ∅)) = Ok FILE_IMPORT_COMPLETED ∧
  ∀ i, validInfo i ∧ is_Some ((<["batch::0.2.2.4.4.D" := ""]> ∅ : Dir) !! infoName i) → i_state i = "D".
Proof.
  assert (GetFileImportState (Some (<["batch::0.2.2.4.4.D" := ""]> ∅)) = Ok FILE_IMPORT_COMPLETED) as Hst
    by (vm_compute; reflexivity).
  split; [exact Hst|].
  apply (proj1 (file_state_spec (<["batch::0.2.2.4.4.D" := ""]> ∅) FILE_IMPORT_COMPLETED
    ltac:(intros name Hn Hp; apply lookup_insert_is_Some in Hn as [<-|[_ [? Hn]]];
          [exists (mkInfo 0 2 2 4 4 "D"); split; [split_and!; try reflexivity; right; right; by left|reflexivity]
          |by rewrite lookup_empty in Hn]) Hst)). reflexivity.
Defined.
End ImportState.
