(* ===== verification/BatchProducer.v ===== *)
(** * Cutting a data file into batches (src/yb-voyager/cmd/importDataSequentialFileBatchProducer.go)

    The producer reads a data file line by line, transforms rows, and files batches
    in the import state directory; after a crash a new producer recovers its
    position from that directory alone.  The step relation interleaves production,
    the workers' state changes and crashes; its invariant gives the main theorem:
    the batches filed so far hold exactly the rows of a prefix of the file. *)
From S2P Require Import Prelude DataFile ImportState.
Import DataFile ImportState.

Module BatchProducer.
Section producer.
Context {D : Type} `{HD : DataFile D}.
Context (openFile : D)               (* dataStore.Open and NewDataFile at offset 0 *)
        (openAt : Z → option D)      (* dataStore.OpenAt; None: not implemented *)
        (HasHeader isCSV : bool)
        (MaxBatchSizeInBytes batchSizeInNumRows : Z)
        (ShouldAbort : bool)
        (transformRow : string → result string)
        (sortPending : list Batch → list Batch).

Record SequentialFileBatchProducer : Type := mkProducer {
  p_pending : list Batch;
  p_lastBatchNumber : Z;
  p_lastOffset : Z;
  p_fileFullySplit : bool;
  completed : bool;
  dataFile : option D;
  header : string;
  headerByteCount : Z;
  numLinesTaken : Z;
  p_lastBatchCum : Z;
  cumByteOffsetEnd : Z;
  lineFromPreviousBatch : string;
  errors : list (Z * string) }.      (* what the error handler has stashed *)

Definition set_reader (p : SequentialFileBatchProducer) (d : D) (taken cum : Z) (errs : list (Z * string)) : SequentialFileBatchProducer :=
  mkProducer (p_pending p) (p_lastBatchNumber p) (p_lastOffset p) (p_fileFullySplit p) (completed p)
    (Some d) (header p) (headerByteCount p) taken (p_lastBatchCum p) cum (lineFromPreviousBatch p) errs.
Definition set_header (p : SequentialFileBatchProducer) (h : string) (n : Z) : SequentialFileBatchProducer :=
  mkProducer (p_pending p) (p_lastBatchNumber p) (p_lastOffset p) (p_fileFullySplit p) (completed p)
    (dataFile p) h n (numLinesTaken p) (p_lastBatchCum p) (cumByteOffsetEnd p) (lineFromPreviousBatch p) (errors p).
Definition set_pending (p : SequentialFileBatchProducer) (l : list Batch) (done : bool) : SequentialFileBatchProducer :=
  mkProducer l (p_lastBatchNumber p) (p_lastOffset p) (p_fileFullySplit p) done
    (dataFile p) (header p) (headerByteCount p) (numLinesTaken p) (p_lastBatchCum p) (cumByteOffsetEnd p)
    (lineFromPreviousBatch p) (errors p).
(** After [finalizeBatch]: the number of the batch, the line carried over. *)
Definition set_finalized (p : SequentialFileBatchProducer) (done : bool) (carried : string) : SequentialFileBatchProducer :=
  mkProducer (p_pending p) (p_lastBatchNumber p + 1) (p_lastOffset p) (p_fileFullySplit p) done
    (dataFile p) (header p) (headerByteCount p) (numLinesTaken p) (p_lastBatchCum p) (cumByteOffsetEnd p)
    carried (errors p).
Definition set_carried (p : SequentialFileBatchProducer) (carried : string) : SequentialFileBatchProducer :=
  mkProducer (p_pending p) (p_lastBatchNumber p) (p_lastOffset p) (p_fileFullySplit p) (completed p)
    (dataFile p) (header p) (headerByteCount p) (numLinesTaken p) (p_lastBatchCum p) (cumByteOffsetEnd p)
    carried (errors p).

Definition NewSequentialFileBatchProducer (dir : option Dir) : result (Dir * SequentialFileBatchProducer) :=
  let dir := default ∅ dir in        (* PrepareForFileImport creates the directory *)
  r ← Recover (Some dir);
  let pending := pendingBatches r in
  Ok (dir, mkProducer (sortPending pending) (lastBatchNumber r) (lastOffset r) (fileFullySplit r)
             ((length pending =? 0)%nat && fileFullySplit r) None "" 0 (lastOffset r)
             (lastBatchCumByteOffsetEnd r) (lastBatchCumByteOffsetEnd r) "" []).

(** ** Opening the file *)
(** The header of [GetHeader]; failing to read it ends the process. *)
Definition openDataFileAndReadHeaderIfRequired (p : SequentialFileBatchProducer) : result (D * SequentialFileBatchProducer) :=
  if HasHeader then
    match NextLine openFile with
    | ((line, _, None), d) => Ok (ResetBytesRead d 0, set_header p line (GetBytesRead d))
    | _ => Err "finding header for data file"
    end
  else Ok (openFile, p).
Definition openDataFileAndSkipLines (p : SequentialFileBatchProducer) : result SequentialFileBatchProducer :=
  '(d, p) ← openDataFileAndReadHeaderIfRequired p;
  match SkipLines (p_lastOffset p) d with
  | (None, d) => Ok (set_reader p d (numLinesTaken p) (cumByteOffsetEnd p) (errors p))
  | (Some _, _) => Err "skipping line for offset"
  end.
Definition openDataFileAtByteOffset (p : SequentialFileBatchProducer) : result SequentialFileBatchProducer :=
  p ← (if HasHeader then r ← openDataFileAndReadHeaderIfRequired p; Ok r.2 else Ok p);
  match openAt (p_lastBatchCum p) with
  | Some d => Ok (set_reader p d (numLinesTaken p) (cumByteOffsetEnd p) (errors p))
  | None => openDataFileAndSkipLines p
  end.
Definition openDataFileFirstRun (p : SequentialFileBatchProducer) : result SequentialFileBatchProducer :=
  '(d, p) ← openDataFileAndReadHeaderIfRequired p;
  Ok (set_reader p d (numLinesTaken p) (headerByteCount p) (errors p)).
Definition openDataFile (p : SequentialFileBatchProducer) : result SequentialFileBatchProducer :=
  if 0 <? p_lastBatchCum p then openDataFileAtByteOffset p else openDataFileFirstRun p.

(** ** Producing a batch *)
Definition newBatchWriter (dir : Dir) (p : SequentialFileBatchProducer) : Dir * BatchWriter :=
  let bw := NewBatchWriter (p_lastBatchNumber p + 1) in
  (Init dir bw, if negb (bool_decide (header p = "")) && isCSV then WriteHeader bw (header p) else bw).
Definition FIRST_BATCH_NUM : Z := 1.
Definition finalizeBatch (dir : Dir) (p : SequentialFileBatchProducer) (bw : BatchWriter) (isLastBatch : bool)
    (offsetEnd bytesInBatch cum : Z) : result (Dir * Batch) :=
  let batchNum := p_lastBatchNumber p + 1 in
  let bytesInBatch := if negb (bool_decide (header p = "")) && (batchNum =? FIRST_BATCH_NUM)
                      then bytesInBatch + headerByteCount p else bytesInBatch in
  BatchWriter_Done dir bw isLastBatch offsetEnd bytesInBatch cum.

(** The loop of [produceNextBatch]; [None]: out of fuel. *)
Fixpoint produce_loop (fuel : nat) (dir : Dir) (p : SequentialFileBatchProducer) (d : D) (bw : BatchWriter)
    : option (result (Dir * SequentialFileBatchProducer * Batch)) :=
  match fuel with
  | O => None
  | S fuel =>
      let batchNum := p_lastBatchNumber p + 1 in
      let '((line, currentBytesRead, readLineErr), d) := NextLine d in
      let taken := if bool_decide (readLineErr = None)
                      || (bool_decide (readLineErr = Some EOF) && negb (bool_decide (line = "")))
                   then numLinesTaken p + 1 else numLinesTaken p in
      let cum := if 0 <? currentBytesRead then cumByteOffsetEnd p + currentBytesRead else cumByteOffsetEnd p in
      let p := set_reader p d taken cum (errors p) in
      (* an error in this row: stash it and take the row's bytes back *)
      let stash := λ row,
        if ShouldAbort then Some (Err "row processing error")
        else
          let d := ResetBytesRead d (GetBytesRead d - currentBytesRead) in
          let p := set_reader p d taken cum (errors p ++ [(batchNum, row)]) in
          match readLineErr with
          | None => produce_loop fuel dir p d bw
          | Some _ => Some (Err "could not produce next batch")
          end in
      if MaxBatchSizeInBytes <? currentBytesRead then stash line
      else if decide (line = "") then
        match readLineErr with
        | None => produce_loop fuel dir p d bw
        | Some EOF =>
            Some ('(dir, batch) ← finalizeBatch dir p bw true taken (GetBytesRead d) cum;
                  let d := ResetBytesRead d 0 in
                  Ok (dir, set_reader (set_finalized p true (lineFromPreviousBatch p)) d taken cum (errors p), batch))
        | Some _ => Some (Err "read line from data file")
        end
      else
        match transformRow line with
        | Ok row =>
            let batchBytesCount := if negb (bool_decide (header p = "")) then GetBytesRead d + headerByteCount p
                                   else GetBytesRead d in
            if (NumRecordsWritten bw =? batchSizeInNumRows) || (MaxBatchSizeInBytes <? batchBytesCount) then
              Some ('(dir, batch) ← finalizeBatch dir p bw false (taken - 1)
                                      (GetBytesRead d - currentBytesRead) (cum - currentBytesRead);
                    let d := ResetBytesRead d currentBytesRead in
                    Ok (dir, set_reader (set_finalized p (completed p) row) d taken cum (errors p), batch))
            else
              let bw := WriteRecord bw row in
              match readLineErr with
              | None => produce_loop fuel dir p d bw
              | Some EOF =>
                  Some ('(dir, batch) ← finalizeBatch dir p bw true taken (GetBytesRead d) cum;
                        let d := ResetBytesRead d 0 in
                        Ok (dir, set_reader (set_finalized p true (lineFromPreviousBatch p)) d taken cum (errors p), batch))
              | Some _ => Some (Err "read line from data file")
              end
        | Err _ => stash line
        | Panic e => Some (Panic e)
        end
  end.
Definition produceNextBatch (fuel : nat) (dir : Dir) (p : SequentialFileBatchProducer) : option (result (Dir * SequentialFileBatchProducer * Batch)) :=
  match (match dataFile p with Some _ => Ok p | None => openDataFile p end) with
  | Ok p =>
      match dataFile p with
      | Some d =>
          let '(dir, bw) := newBatchWriter dir p in
          let bw := if decide (lineFromPreviousBatch p = "") then bw else WriteRecord bw (lineFromPreviousBatch p) in
          produce_loop fuel dir (set_carried p "") d bw
      | None => Some (Panic "nil pointer dereference")
      end
  | Err e => Some (Err e)
  | Panic e => Some (Panic e)
  end.
Definition NextBatch (fuel : nat) (dir : Dir) (p : SequentialFileBatchProducer) : option (result (Dir * SequentialFileBatchProducer * Batch)) :=
  if completed p then Some (Err "already completed producing all batches")
  else
    match p_pending p with
    | batch :: rest =>
        Some (Ok (dir, set_pending p rest
                         (if (length rest =? 0)%nat && p_fileFullySplit p then true else completed p), batch))
    | [] => produceNextBatch fuel dir p
    end.

(** ** The rows of the file *)
Context `{HL : !DataFileLaws D}.
Context (hdr ls : list (string * Z)) (last : string * Z).
Context (Hfile : Reads openFile (hdr ++ ls) last)
        (Hhdr : length hdr = if HasHeader then 1%nat else 0%nat).
Context (HopenAt : ∀ j d, (j ≤ length (hdr ++ ls))%nat →
           openAt (bytesOf (take j (hdr ++ ls))) = Some d → Reads d (drop j (hdr ++ ls)) last).
Context (Htransform : ∀ line row, line ≠ "" → transformRow line = Ok row → row ≠ "").
Context (HsortPending : ∀ l, sortPending l ≡ₚ l).

Definition hdrLine : string := match hdr with (l, _) :: _ => l | [] => "" end.
(** The data lines: those that end in a newline, and what stands behind the last one. *)
Definition rows : list (string * Z) := ls ++ (if decide (last.1 = "") then [] else [last]).
(** What a line contributes: nothing when it is too long or cannot be transformed. *)
Definition keep (p : string * Z) : list string :=
  if MaxBatchSizeInBytes <? p.2 then []
  else match transformRow p.1 with Ok row => [row] | _ => [] end.
Definition processed (l : list (string * Z)) : list string := concat (map keep l).
Definition seg (k c : nat) : list (string * Z) := drop k (take c rows).
(** The byte offset at which the first [c] data lines end. *)
Definition cumAt (c : nat) : Z := bytesOf hdr + bytesOf (take c rows).
Definition content (recs : list string) : string :=
  (if negb (bool_decide (hdrLine = "")) && isCSV then hdrLine +:+ LF else "") +:+ Join LF recs.

Lemma processed_app l1 l2 : processed (l1 ++ l2) = processed l1 ++ processed l2.
Proof. unfold processed. by rewrite map_app, concat_app. Qed.
Lemma seg_nil k : seg k k = [].
Proof. unfold seg. apply drop_ge. rewrite length_take. lia. Qed.
Lemma seg_snoc k c r : (k ≤ c)%nat → rows !! c = Some r → seg k (S c) = seg k c ++ [r].
Proof.
  intros Hk Hr. unfold seg. rewrite (take_S_r _ _ _ Hr), drop_app_le; [done|].
  rewrite length_take. apply lookup_lt_Some in Hr. lia.
Qed.
Lemma take_seg k c : (k ≤ c)%nat → take k rows ++ seg k c = take c rows.
Proof. intros. unfold seg. rewrite <- (take_drop k (take c rows)) at 2. by rewrite take_take, Nat.min_l. Qed.
Lemma rows_pos : Forall (λ p : string * Z, p.1 ≠ "" ∧ 0 < p.2) ls.
Proof. pose proof (Reads_pos _ _ _ Hfile) as H. by apply Forall_app in H as [_ H]. Qed.
Lemma take_rows c : (c ≤ length ls)%nat → take c rows = take c ls.
Proof. intros. unfold rows. by rewrite take_app_le. Qed.

(** Where a reader stands: before data line [c], or behind the whole file. *)
Definition At (d : D) (c : nat) : Prop :=
  ((c ≤ length ls)%nat ∧ Reads d (drop c ls) last) ∨
  (c = length rows ∧ last.1 ≠ "" ∧ ∃ m, m ≤ 0 ∧ Reads d [] ("", m)).
Lemma At_reset d c b : At d c → At (ResetBytesRead d b) c.
Proof.
  intros [[H1 H2]|(H1 & H2 & m & H3 & H4)]; [left|right].
  - split; [done|by apply Reset_reads].
  - split; [done|]. split; [done|]. exists m. split; [done|by apply Reset_reads].
Qed.
Lemma rows_length : (length ls ≤ length rows)%nat.
Proof. unfold rows. rewrite length_app. lia. Qed.

(** The three reads a producer meets. *)
Lemma At_next d c line n err d' :
  At d c → NextLine d = ((line, n, err), d') →
  (err = None ∧ rows !! c = Some (line, n) ∧ line ≠ "" ∧ 0 < n ∧ At d' (S c)) ∨
  (err = Some EOF ∧ rows !! c = Some (line, n) ∧ line ≠ "" ∧ 0 < n ∧ S c = length rows ∧ At d' (S c)) ∨
  (err = Some EOF ∧ line = "" ∧ c = length rows ∧ (last.1 = "" ∧ n = last.2 ∨ n ≤ 0)).
Proof.
  intros [[Hc HR]|(Hc & Hl & m & Hm & HR)] HN.
  - destruct (Reads_inv _ _ _ HR) as [(Hls & df1 & HN1)|(line1 & n1 & ls1 & df1 & Hls & HN1 & HR1)];
      rewrite HN1 in HN; injection HN as <- <- <- <-.
    + apply drop_nil_inv in Hls. assert (c = length ls) as -> by lia.
      right. destruct (decide (last.1 = "")) as [Hemp|Hne].
      * right. split; [done|]. split; [done|]. split; [unfold rows; by rewrite decide_True, app_nil_r|by left].
      * left. destruct (Next_last _ _ _ _ HN1 Hne) as [_ Hn]. destruct (Next_end _ _ _ _ HN1) as (m & Hm & HRe).
        assert (S (length ls) = length rows) as Hlen by (unfold rows; rewrite decide_False, length_app by done; cbn; lia).
        split; [done|]. split.
        { unfold rows. rewrite decide_False, <- surjective_pairing by done. by apply list_lookup_middle. }
        split; [done|]. split; [done|]. split; [done|]. right. split; [done|]. split; [done|]. by exists m.
    + left. destruct (Next_bytes _ _ _ _ HN1) as (_ & Hn & Hne). split; [done|].
      assert (ls !! c = Some (line1, n1)) as Hlk.
      { rewrite <- (Nat.add_0_r c), <- lookup_drop, Hls. done. }
      split; [unfold rows; by apply lookup_app_l_Some|]. split; [done|]. split; [done|]. left.
      apply lookup_lt_Some in Hlk as Hlt. split; [lia|].
      rewrite (drop_S _ _ _ Hlk) in Hls. by injection Hls as ->.
  - destruct (Reads_inv _ _ _ HR) as [(_ & df1 & HN1)|(? & ? & ? & ? & ? & _)]; [|done].
    rewrite HN1 in HN. injection HN as <- <- <- <-. right. right. split_and!; auto.
Qed.

(** ** One batch *)

(** The writer holds the rows [recs]. *)
Record Writing (p : SequentialFileBatchProducer) (bw : BatchWriter) (recs : list string) : Prop := mkWriting {
  w_number : batchNumber bw = p_lastBatchNumber p + 1;
  w_count : NumRecordsWritten bw = Z.of_nat (length recs);
  w_flag : flagFirstRecordWritten bw = negb (length recs =? 0)%nat;
  w_buffer : buffer bw = content recs }.
Lemma Join_snoc sep ws w :
  Join sep (ws ++ [w]) = Join sep ws +:+ (if (length ws =? 0)%nat then "" else sep) +:+ w.
Proof.
  induction ws as [|v ws IH]; [done|]. destruct ws as [|v' ws]; [done|].
  change (Join sep ((v :: v' :: ws) ++ [w])) with (v +:+ sep +:+ Join sep ((v' :: ws) ++ [w])).
  rewrite IH. change (Join sep (v :: v' :: ws)) with (v +:+ sep +:+ Join sep (v' :: ws)).
  cbn [length Nat.eqb]. by rewrite !str_app_assoc.
Qed.
Lemma Writing_record p bw recs row :
  Writing p bw recs → row ≠ "" → Writing p (WriteRecord bw row) (recs ++ [row]).
Proof.
  intros [H1 H2 H3 H4] Hne. unfold WriteRecord. rewrite decide_False by done. split; cbn.
  - done.
  - rewrite H2, length_app. cbn. lia.
  - rewrite length_app. cbn. by destruct (length recs).
  - rewrite H4, H3. unfold content. rewrite Join_snoc, !str_app_assoc. by destruct (length recs =? 0)%nat.
Qed.

(** The producer between two reads: [c] lines taken, [recs] the rows of lines [k] to [c]
    in the writer. *)
Record Looping (p : SequentialFileBatchProducer) (d : D) (bw : BatchWriter) (k c : nat) : Prop := mkLooping {
  lo_at : At d c;
  lo_taken : numLinesTaken p = Z.of_nat c;
  lo_cum : cumByteOffsetEnd p = cumAt c;
  lo_not_done : completed p = false;
  lo_header : header p = hdrLine;
  lo_le : (k ≤ c ≤ length rows)%nat;
  lo_writing : Writing p bw (processed (seg k c)) }.

(** A batch that has been filed: the lines it covers and the rows it holds. *)
Record Filed (n : Z) (k k' : nat) (final : bool) (b : Batch) (recs : list string) : Prop := mkFiled {
  fi_number : Number b = if final then LAST_SPLIT_NUM else n;
  fi_end : LineOffsetEnd b = Z.of_nat k';
  fi_start : LineOffsetStart b = Z.of_nat k' - Z.of_nat (length recs);
  fi_count : RecordCount b = Z.of_nat (length recs);
  fi_path : FilePath b = batchFileName (Number b) (LineOffsetEnd b) (RecordCount b) (ByteCount b) (CumByteOffsetEnd b) "C";
  fi_cum : final = false → CumByteOffsetEnd b = cumAt k';
  fi_recs : recs = processed (seg k k');
  fi_le : (k ≤ k' ≤ length rows)%nat;
  fi_final : if final then k' = length rows else (k' < length rows)%nat }.
(** The producer after it: finished, or with the line behind the batch in hand. *)
Definition Carrying (p : SequentialFileBatchProducer) (k' : nat) : Prop :=
  ∃ d row r, dataFile p = Some d ∧ At d (S k') ∧ numLinesTaken p = Z.of_nat (S k') ∧
    cumByteOffsetEnd p = cumAt (S k') ∧ header p = hdrLine ∧
    rows !! k' = Some r ∧ keep r = [row] ∧ lineFromPreviousBatch p = row ∧ row ≠ "".
Definition After (p p' : SequentialFileBatchProducer) (k' : nat) (final : bool) : Prop :=
  p_pending p' = p_pending p ∧ p_fileFullySplit p' = p_fileFullySplit p ∧
  p_lastBatchNumber p' = p_lastBatchNumber p + 1 ∧ completed p' = final ∧
  (final = false → Carrying p' k').

Lemma Done_writes dir p bw isLast off bytes cum recs dir' b :
  Writing p bw recs → finalizeBatch dir p bw isLast off bytes cum = Ok (dir', b) →
  dir' = <[FilePath b := content recs]> (delete (tmpFileName (p_lastBatchNumber p + 1)) dir) ∧
  Number b = (if isLast then LAST_SPLIT_NUM else p_lastBatchNumber p + 1) ∧
  LineOffsetEnd b = off ∧ LineOffsetStart b = off - Z.of_nat (length recs) ∧
  RecordCount b = Z.of_nat (length recs) ∧ CumByteOffsetEnd b = cum ∧
  FilePath b = batchFileName (Number b) (LineOffsetEnd b) (RecordCount b) (ByteCount b) (CumByteOffsetEnd b) "C".
Proof.
  intros [H1 H2 H3 H4]. unfold finalizeBatch, BatchWriter_Done, Rename. rewrite lookup_insert_eq.
  cbn [mbind result_bind]. rewrite delete_insert_eq. intros [= <- <-]. cbn. rewrite H1, H2, H4. done.
Qed.

Lemma keep_ok line n row :
  (MaxBatchSizeInBytes <? n) = false → transformRow line = Ok row → keep (line, n) = [row].
Proof. unfold keep; cbn. by intros -> ->. Qed.
Lemma processed_snoc k c r : (k ≤ c)%nat → rows !! c = Some r → processed (seg k (S c)) = processed (seg k c) ++ keep r.
Proof. intros. rewrite (seg_snoc k c r), processed_app by done. unfold processed. cbn. by rewrite app_nil_r. Qed.
Lemma cumAt_S c line n : rows !! c = Some (line, n) → cumAt (S c) = cumAt c + n.
Proof. intros Hr. unfold cumAt. rewrite (take_S_r _ _ _ Hr), bytesOf_app. cbn. lia. Qed.

Definition Outcome (dir : Dir) (p : SequentialFileBatchProducer) (k : nat) (dir' : Dir) (p' : SequentialFileBatchProducer) (b : Batch) : Prop :=
  ∃ k' final recs, Filed (p_lastBatchNumber p + 1) k k' final b recs ∧ After p p' k' final ∧
    dir' = <[FilePath b := content recs]> (delete (tmpFileName (p_lastBatchNumber p + 1)) dir).

(** A finished file: the last batch ends at the last line. *)
Lemma finish_last dir p d bw k recs off bytes cum lp tk cm errs q :
  Writing p bw recs → recs = processed (seg k (length rows)) → off = Z.of_nat (length rows) → (k ≤ length rows)%nat →
  ('(dir, batch) ← finalizeBatch dir p bw true off bytes cum;
   Ok (dir, set_reader (set_finalized p true lp) d tk cm errs, batch)) = Ok q →
  Outcome dir p k q.1.1 q.1.2 q.2.
Proof.
  intros Hw Hrecs Hoff Hk Hq. apply bind_Ok in Hq as ([dir' b] & Hf & [= <-]). cbn [fst snd].
  destruct (Done_writes _ _ _ _ _ _ _ _ _ _ Hw Hf) as (Hd & Hn & Ho & Hs & Hc & Hcum & Hp).
  exists (length rows), true, recs. split; [|by split; [split_and!|]].
  split; first [done|lia|congruence].
Qed.
(** A batch filed when the next row does not fit: the row is carried over. *)
Lemma carry_over dir p p1 d1 bw k c line n row bytes (dir' : Dir) (p' : SequentialFileBatchProducer) b :
  p1 = set_reader p d1 (numLinesTaken p + 1) (cumByteOffsetEnd p + n) (errors p) →
  At d1 (S c) → numLinesTaken p = Z.of_nat c → cumByteOffsetEnd p = cumAt c → completed p = false →
  header p = hdrLine → (k ≤ c)%nat → Writing p bw (processed (seg k c)) →
  rows !! c = Some (line, n) → keep (line, n) = [row] → row ≠ "" →
  ('(dir, batch) ← finalizeBatch dir p1 bw false (numLinesTaken p + 1 - 1) bytes (cumByteOffsetEnd p + n - n);
   Ok (dir, set_reader (set_finalized p1 (completed p1) row) (ResetBytesRead d1 n) (numLinesTaken p + 1)
         (cumByteOffsetEnd p + n) (errors p1), batch)) = Ok (dir', p', b) →
  Outcome dir p k dir' p' b.
Proof.
  intros -> Hat Ht Hc Hnd Hh Hle Hw Hr Hkeep Hrow Hq. apply bind_Ok in Hq as ([dir1 b1] & Hf & [= <- <- <-]).
  apply (Done_writes _ _ _ _ _ _ _ (processed (seg k c))) in Hf; [|by destruct Hw].
  destruct Hf as (Hd & Hnum & Ho & Hs & Hcnt & Hcum & Hp). apply lookup_lt_Some in Hr as Hlt.
  exists c, false, (processed (seg k c)). split; [|split; [|done]].
  - split; first [done|lia|congruence].
  - split; [done|]. split; [done|]. split; [done|]. split; [done|]. intros _.
    exists (ResetBytesRead d1 n), row, (line, n). cbn. split; [done|]. split; [by apply At_reset|].
    split; [lia|]. split; [rewrite (cumAt_S c line n) by done; lia|]. done.
Qed.
Lemma produce_loop_spec fuel dir p d bw k c dir' p' b :
  Looping p d bw k c →
  produce_loop fuel dir p d bw = Some (Ok (dir', p', b)) →
  Outcome dir p k dir' p' b.
Proof.
  revert p d bw c. induction fuel as [|fuel IH]; intros p d bw c HL0; cbn [produce_loop]; [done|].
  destruct (NextLine d) as [[[line n] err] d1] eqn:HN. destruct HL0 as [Hat Ht Hc Hnd Hh Hle Hw].
  destruct (At_next _ _ _ _ _ _ Hat HN)
    as [(-> & Hr & Hne & Hn & Hat1)|[(-> & Hr & Hne & Hn & Hlen & Hat1)|(-> & -> & Hlen & _)]].
  - (* a line that ends in a newline *)
    rewrite (bool_decide_true (@None readError = None)) by done. cbn [orb].
    rewrite (proj2 (Z.ltb_lt 0 n)) by done.
    set (p1 := set_reader p d1 (numLinesTaken p + 1) (cumByteOffsetEnd p + n) (errors p)).
    assert (∀ errs, keep (line, n) = [] → ShouldAbort = false →
      produce_loop fuel dir
        (set_reader p1 (ResetBytesRead d1 (GetBytesRead d1 - n)) (numLinesTaken p + 1) (cumByteOffsetEnd p + n) errs)
        (ResetBytesRead d1 (GetBytesRead d1 - n)) bw = Some (Ok (dir', p', b)) → Outcome dir p k dir' p' b) as Hstash.
    { intros errs Hk _ Hloop. apply (IH _ _ _ (S c)) in Hloop; [done|]. split; try done; cbn.
      - by apply At_reset. - lia. - rewrite (cumAt_S c line n) by done. lia. - apply lookup_lt_Some in Hr. lia.
      - rewrite (processed_snoc k c (line, n)), Hk, app_nil_r by (done || lia). by destruct Hw. }
    destruct (MaxBatchSizeInBytes <? n) eqn:Hmax.
    { destruct ShouldAbort; [done|]. apply Hstash; [unfold keep; cbn; by rewrite Hmax|done]. }
    rewrite decide_False by done. destruct (transformRow line) as [row|e|e] eqn:Htr; [|destruct ShouldAbort; [done|]|done].
    2:{ apply Hstash; [unfold keep; cbn; by rewrite Hmax, Htr|done]. }
    pose proof (keep_ok _ _ _ Hmax Htr) as Hkeep. pose proof (Htransform _ _ Hne Htr) as Hrow.
    destruct (_ || _).
    + intros [= Hq]. eapply (carry_over dir p p1 d1 bw k c) in Hq; [done|done|done|done|done|done|done|lia|done|done|done|done].
    + intros Hl. apply (IH p1 d1 _ (S c)) in Hl; [exact Hl|]. split; try done; cbn.
      * lia. * rewrite (cumAt_S c line n) by done. lia. * apply lookup_lt_Some in Hr. lia.
      * rewrite (processed_snoc k c (line, n)), Hkeep by (done || lia). apply Writing_record; [|done]. by destruct Hw.
  - (* the unterminated last line *)
    rewrite (bool_decide_false (Some EOF = None)), (bool_decide_true (Some EOF = Some EOF)) by done.
    rewrite (bool_decide_false (line = "")) by done. cbn [orb andb negb].
    rewrite (proj2 (Z.ltb_lt 0 n)) by done.
    set (p1 := set_reader p d1 (numLinesTaken p + 1) (cumByteOffsetEnd p + n) (errors p)).
    destruct (MaxBatchSizeInBytes <? n) eqn:Hmax; [by destruct ShouldAbort|].
    rewrite decide_False by done. destruct (transformRow line) as [row|e|e] eqn:Htr; [|by destruct ShouldAbort|done].
    pose proof (keep_ok _ _ _ Hmax Htr) as Hkeep. pose proof (Htransform _ _ Hne Htr) as Hrow.
    destruct (_ || _).
    + intros [= Hq]. eapply (carry_over dir p p1 d1 bw k c) in Hq; [done|done|done|done|done|done|done|lia|done|done|done|done].
    + intros [= Hq]. eapply (finish_last dir p1 (ResetBytesRead d1 0) (WriteRecord bw row) k (processed (seg k (S c)))) in Hq; [done| | | |].
      * rewrite (processed_snoc k c (line, n)), Hkeep by (done || lia). apply Writing_record; [|done]. by destruct Hw.
      * by rewrite Hlen. * lia. * lia.
  - (* the end of the file *)
    rewrite (bool_decide_false (Some EOF = None)), (bool_decide_true (Some EOF = Some EOF)) by done.
    rewrite (bool_decide_true ("" = "")) by done. cbn [orb andb negb].
    destruct (MaxBatchSizeInBytes <? n); [by destruct ShouldAbort|].
    rewrite decide_True by done. intros [= Hq].
    eapply (finish_last dir _ (ResetBytesRead d1 0) bw k (processed (seg k c))) in Hq; [done| | | |].
    + by destruct Hw. + by rewrite Hlen. + lia. + lia.
Qed.

(** ** Opening the file where the last batch ended *)
Context (HfreshFile : GetBytesRead openFile = 0).

Lemma skip_lines_ok d ls' n :
  Reads d ls' last → (n ≤ length ls')%nat →
  ∃ d', skip_lines n d = (None, d') ∧ Reads d' (drop n ls') last.
Proof.
  revert d ls'. induction n as [|n IH]; intros d ls' HR Hn; cbn [skip_lines]; [by exists d|].
  destruct (Reads_inv _ _ _ HR) as [(-> & _)|(line & m & ls1 & d1 & -> & HN & HR1)]; [cbn in Hn; lia|].
  rewrite HN. apply (IH d1 ls1); [done|cbn in Hn; lia].
Qed.
Lemma readHeader_ok p d p' :
  (HasHeader = false → header p = "" ∧ headerByteCount p = 0) →
  openDataFileAndReadHeaderIfRequired p = Ok (d, p') →
  Reads d ls last ∧ p' = set_header p hdrLine (bytesOf hdr).
Proof.
  intros Hno. unfold openDataFileAndReadHeaderIfRequired, hdrLine. pose proof Hfile as HR.
  destruct HasHeader.
  - destruct hdr as [|[h n] [|? ?]]; [done| |done]. cbn [app] in HR.
    destruct (Reads_inv _ _ _ HR) as [(? & _)|(line & m & ls1 & d1 & [= -> -> <-] & HN & HR1)]; [done|].
    rewrite HN. intros [= <- <-]. split; [by apply Reset_reads|].
    destruct (Next_bytes _ _ _ _ HN) as (Hb & _ & _). rewrite Hb, HfreshFile. cbn. f_equal. lia.
  - destruct hdr; [|done]. intros [= <- <-]. split; [done|]. destruct (Hno eq_refl) as [H1 H2].
    destruct p. cbn in *. by subst.
Qed.

Record Fresh (p : SequentialFileBatchProducer) (k : nat) : Prop := mkFresh {
  fr_file : dataFile p = None;
  fr_taken : numLinesTaken p = Z.of_nat k;
  fr_offset : p_lastOffset p = Z.of_nat k;
  fr_carried : lineFromPreviousBatch p = "";
  fr_header : header p = "" ∧ headerByteCount p = 0;
  fr_le : (k ≤ length ls)%nat;
  fr_cum : cumByteOffsetEnd p = p_lastBatchCum p;
  fr_last : p_lastBatchCum p = cumAt k ∨ (k = 0%nat ∧ p_lastBatchCum p = 0) }.
Lemma hdr_pos : Forall (λ p : string * Z, p.1 ≠ "" ∧ 0 < p.2) hdr.
Proof. pose proof (Reads_pos _ _ _ Hfile) as H. by apply Forall_app in H as [H _]. Qed.
Lemma cumAt_zero k : (k ≤ length ls)%nat → cumAt k ≤ 0 → k = 0%nat.
Proof.
  intros Hk H. unfold cumAt in H. rewrite take_rows in H by done.
  destruct (bytesOf_pos hdr hdr_pos) as [H1 _].
  destruct (bytesOf_pos (take k ls)) as [_ H2]; [by apply Forall_take, rows_pos|].
  destruct k as [|k]; [done|]. destruct ls as [|r l]; [cbn in Hk; lia|].
  specialize (H2 ltac:(done)). lia.
Qed.
Lemma cumAt_offset k : (k ≤ length ls)%nat →
  cumAt k = bytesOf (take (length hdr + k) (hdr ++ ls)) ∧ drop (length hdr + k) (hdr ++ ls) = drop k ls.
Proof.
  intros Hk. split.
  - unfold cumAt. rewrite take_rows by done. rewrite take_app_add, bytesOf_app. done.
  - by rewrite drop_app_add.
Qed.
Lemma openDataFile_ok p k p' :
  Fresh p k → openDataFile p = Ok p' →
  ∃ d, dataFile p' = Some d ∧ At d k ∧ header p' = hdrLine ∧ cumByteOffsetEnd p' = cumAt k ∧
    numLinesTaken p' = numLinesTaken p ∧ lineFromPreviousBatch p' = lineFromPreviousBatch p ∧
    p_pending p' = p_pending p ∧ p_fileFullySplit p' = p_fileFullySplit p ∧
    p_lastBatchNumber p' = p_lastBatchNumber p ∧ completed p' = completed p.
Proof.
  intros [Hf Ht Hoff Hcar Hh Hk Hc Hl]. unfold openDataFile. destruct (0 <? p_lastBatchCum p) eqn:Hpos.
  - apply Z.ltb_lt in Hpos. destruct Hl as [Hl|[_ Hl]]; [|lia].
    destruct (cumAt_offset k Hk) as [Hcum Hdrop]. unfold openDataFileAtByteOffset. rewrite bind_Ok.
    intros (p1 & Hp1 & H).
    assert (p1 = set_header p hdrLine (bytesOf hdr)) as ->.
    { destruct (Sumbool.sumbool_of_bool HasHeader) as [HH|HH]; rewrite HH in Hp1.
      - apply bind_Ok in Hp1 as ([d q] & Hq & [= <-]). by apply readHeader_ok in Hq as [_ ->].
      - injection Hp1 as <-. pose proof Hhdr as Hl0. rewrite HH in Hl0. unfold hdrLine. destruct hdr; [|done]. destruct Hh, p; cbn in *; by subst. }
    cbn [p_lastBatchCum set_header] in H. rewrite Hl in H.
    destruct (openAt (cumAt k)) as [d|] eqn:Hopen.
    + injection H as <-. exists d. cbn. split; [done|]. split; [|by rewrite Hc, Hl].
      left. split; [done|]. rewrite <- Hdrop. apply HopenAt; [rewrite length_app; lia|by rewrite <- Hcum].
    + unfold openDataFileAndSkipLines in H. apply bind_Ok in H as ([d q] & Hq & H).
      apply readHeader_ok in Hq as [HR ->].
      2:{ intros HH. pose proof Hhdr as Hl0. rewrite HH in Hl0. unfold hdrLine. by destruct hdr. }
      unfold SkipLines in H. cbn [p_lastOffset set_header] in H. rewrite Hoff, Nat2Z.id in H.
      destruct (skip_lines_ok d ls k HR Hk) as (d' & Hs & HR'). rewrite Hs in H. injection H as <-.
      exists (ResetBytesRead d' 0). cbn. split; [done|]. split; [left; split; [done|by apply Reset_reads]|].
      by rewrite Hc, Hl.
  - apply Z.ltb_ge in Hpos. unfold openDataFileFirstRun. rewrite bind_Ok. intros ([d q] & Hq & [= <-]).
    apply readHeader_ok in Hq as [HR ->]; [|done].
    assert (k = 0%nat) as ->.
    { destruct Hl as [Hl|[-> _]]; [|done]. apply cumAt_zero; [done|lia]. }
    exists d. cbn. split; [done|]. split; [left; split; [lia|by rewrite drop_0]|].
    unfold cumAt. rewrite take_0. cbn. split; [done|]. split; [lia|done].
Qed.

(** ** One call *)
(** A producer that can cut the next batch, behind line [k]. *)
Definition Ready (p : SequentialFileBatchProducer) (k : nat) : Prop := completed p = false ∧ (Fresh p k ∨ Carrying p k).
Lemma produceNextBatch_spec fuel dir p k dir' p' b :
  Ready p k → produceNextBatch fuel dir p = Some (Ok (dir', p', b)) → Outcome dir p k dir' p' b.
Proof.
  intros [Hnd Hready]. unfold produceNextBatch.
  destruct (match dataFile p with Some _ => Ok p | None => openDataFile p end) as [p1|e|e] eqn:Hopen; [|done..].
  assert (∃ d c, dataFile p1 = Some d ∧ At d c ∧ header p1 = hdrLine ∧ cumByteOffsetEnd p1 = cumAt c ∧
    numLinesTaken p1 = Z.of_nat c ∧ p_pending p1 = p_pending p ∧ p_fileFullySplit p1 = p_fileFullySplit p ∧
    p_lastBatchNumber p1 = p_lastBatchNumber p ∧ completed p1 = false ∧ (k ≤ c ≤ length rows)%nat ∧
    processed (seg k c) = (if decide (lineFromPreviousBatch p1 = "") then [] else [lineFromPreviousBatch p1]))
    as (d & c & Hd & Hat & Hh & Hcum & Ht & Hpen & Hful & Hnum & Hnd1 & Hle & Hproc).
  { destruct Hready as [Hf|(d & row & r & Hd & Hat & Ht & Hcum & Hh & Hr & Hk & Hc & Hne)].
    - rewrite (fr_file _ _ Hf) in Hopen.
      destruct (openDataFile_ok _ _ _ Hf Hopen) as (d & Hd & Hat & Hh & Hcum & Ht & Hcar & Hpen & Hful & Hnum & Hnd1).
      exists d, k. pose proof rows_length. pose proof (fr_le _ _ Hf).
      rewrite Hcar, (fr_carried _ _ Hf), decide_True, seg_nil, Ht, (fr_taken _ _ Hf), Hnd1 by done.
      split_and!; done || lia.
    - rewrite Hd in Hopen. injection Hopen as <-. exists d, (S k). apply lookup_lt_Some in Hr as Hlt.
      rewrite decide_False, Hc by congruence. rewrite (seg_snoc k k r), seg_nil by (done || lia).
      unfold processed; cbn. rewrite app_nil_r. split_and!; done || lia. }
  rewrite Hd. unfold newBatchWriter.
  set (bw := if _ && isCSV then _ else _).
  assert (Writing p1 bw []) as Hw.
  { assert (∃ h : bool, h = negb (bool_decide (hdrLine = "")) && isCSV ∧
      bw = if h then WriteHeader (NewBatchWriter (p_lastBatchNumber p1 + 1)) hdrLine
           else NewBatchWriter (p_lastBatchNumber p1 + 1)) as (h & Hhe & ->).
    { eexists. split; [done|]. unfold bw. by rewrite Hh. }
    split; try by destruct h. unfold content. rewrite <- Hhe.
    destruct h; cbn; by rewrite ?str_app_nil_r. }
  intros Hloop.
  assert (Outcome (Init dir (NewBatchWriter (p_lastBatchNumber p1 + 1))) p1 k dir' p' b) as (k' & fin & recs & HF & HA & Hdir).
  { eapply (produce_loop_spec _ _ (set_carried p1 "") d _ k c); [|exact Hloop].
    split; try done. rewrite Hproc. case_decide as Hc; [by destruct Hw|].
    apply (Writing_record (set_carried p1 "") bw []); [by destruct Hw|done]. }
  exists k', fin, recs. rewrite Hnum in HF, Hdir. split; [done|]. split.
  - destruct HA as (H1 & H2 & H3 & H4 & H5). by rewrite Hpen, Hful, Hnum in *.
  - rewrite Hdir. unfold Init. cbn. by rewrite delete_insert_eq.
Qed.

(** ** Production, import and crashes interleaved *)
(** [produced]: the batches cut so far with the file contents written for them; the
    program does not keep it. *)
Record system : Type := mkSystem {
  sdir : option Dir; producer : option SequentialFileBatchProducer; produced : list (Batch * string) }.
Definition initial : system := mkSystem None None [].
(** The counters of a batch fit in an int64: the file and the counts are smaller. *)
Definition infoOf (b : Batch) (s : string) : Info :=
  mkInfo (Number b) (LineOffsetEnd b) (RecordCount b) (ByteCount b) (CumByteOffsetEnd b) s.
Definition fits (b : Batch) : Prop := validInfo (infoOf b "C").

Inductive step : system → system → Prop :=
  | B_start s d p :
      producer s = None → NewSequentialFileBatchProducer (sdir s) = Ok (d, p) →
      step s (mkSystem (Some d) (Some p) (produced s))
  | B_pending s fuel d p d' p' b :
      sdir s = Some d → producer s = Some p → p_pending p ≠ [] →
      NextBatch fuel d p = Some (Ok (d', p', b)) →
      step s (mkSystem (Some d') (Some p') (produced s))
  | B_produce s fuel d p d' p' b :
      sdir s = Some d → producer s = Some p → p_pending p = [] →
      NextBatch fuel d p = Some (Ok (d', p', b)) → fits b →
      step s (mkSystem (Some d') (Some p') (produced s ++ [(b, default "" (d' !! FilePath b))]))
  (* importBatch, on a batch some worker or the pending list holds *)
  | B_in_progress s d i d' b' :
      sdir s = Some d → validInfo i → i_state i = "C" → MarkInProgress d (batchOf i) = Ok (d', b') →
      step s (mkSystem (Some d') (producer s) (produced s))
  | B_done s d i d' b' truncateSplits :
      sdir s = Some d → validInfo i → i_state i = "P" → MarkDone truncateSplits d (batchOf i) = Ok (d', b') →
      step s (mkSystem (Some d') (producer s) (produced s))
  | B_error s d i d' b' msg :
      sdir s = Some d → validInfo i → i_state i = "P" → MarkError d (batchOf i) msg = Ok (d', b') →
      step s (mkSystem (Some d') (producer s) (produced s))
  (* the process dies, a batch possibly half written *)
  | B_crash s :
      step s (mkSystem (sdir s) None (produced s))
  | B_crash_writing s d n partial :
      sdir s = Some d →
      step s (mkSystem (Some (<[tmpFileName n := partial]> d)) None (produced s)).
Definition reachable (s : system) : Prop := rtc step initial s.

(** ** The invariant *)
Inductive Cut : list (Batch * string) → Z → nat → bool → Prop :=
  | Cut_nil : Cut [] 0 0 false
  | Cut_snoc l n k k' final b recs :
      Cut l n k false → Filed (n + 1) k k' final b recs →
      Cut (l ++ [(b, content recs)]) (n + 1) k' final.
Record DirInv (d : Dir) (l : list (Batch * string)) : Prop := mkDirInv {
  di_files : ∀ name, is_Some (d !! name) → HasPrefix name batchPrefix = true →
    ∃ b c s, (b, c) ∈ l ∧ s ∈ validStates ∧ name = infoName (infoOf b s) ∧
      (s = "C" ∨ s = "P" → d !! name = Some c);
  di_batches : ∀ b c, (b, c) ∈ l → fits b ∧
    ∃ s, s ∈ validStates ∧ is_Some (d !! infoName (infoOf b s)) }.
Definition PInv (p : SequentialFileBatchProducer) (n : Z) (k : nat) (final : bool) : Prop :=
  if final then completed p = true ∨ (p_fileFullySplit p = true ∧ p_pending p ≠ [])
  else p_lastBatchNumber p = n ∧ Ready p k ∧ p_fileFullySplit p = false.
Definition Inv (s : system) : Prop :=
  ∃ n k final, Cut (produced s) n k final ∧
    match sdir s with Some d => DirInv d (produced s) | None => produced s = [] end ∧
    match producer s with Some p => PInv p n k final ∧ is_Some (sdir s) | None => True end.

Lemma fits_valid b s : fits b → s ∈ validStates → validInfo (infoOf b s).
Proof. intros (? & ? & ? & ? & ? & _) Hs. by split_and!. Qed.
Lemma fits_with b s s' : withInfoState (infoOf b s) s' = infoOf b s'.
Proof. done. Qed.
Lemma tmp_prefix n : HasPrefix (tmpFileName n) batchPrefix = false.
Proof. done. Qed.
Lemma DirInv_wellNamed d l : DirInv d l → wellNamed d.
Proof.
  intros [H1 H2] name Hn Hp. destruct (H1 name Hn Hp) as (b & c & s & Hin & Hs & -> & _).
  exists (infoOf b s). split; [|done]. apply fits_valid; [|done]. by apply (H2 b c).
Qed.
Lemma DirInv_tmp d l n c : DirInv d l → DirInv (<[tmpFileName n := c]> d) l.
Proof.
  intros [H1 H2]. split.
  - intros name Hn Hp. assert (name ≠ tmpFileName n) as Hne by (intros ->; by rewrite tmp_prefix in Hp).
    rewrite lookup_insert_ne in Hn |- * by done. by apply H1.
  - intros b c' Hin. destruct (H2 b c' Hin) as [Hf (s & Hs & Hl)]. split; [done|]. exists s. split; [done|].
    rewrite lookup_insert. by case_decide; [eauto|].
Qed.
Lemma DirInv_delete_tmp d l n : DirInv d l → DirInv (delete (tmpFileName n) d) l.
Proof.
  intros [H1 H2]. split.
  - intros name Hn Hp. assert (name ≠ tmpFileName n) as Hne by (intros ->; by rewrite tmp_prefix in Hp).
    rewrite lookup_delete_ne in Hn |- * by done. by apply H1.
  - intros b c' Hin. destruct (H2 b c' Hin) as [Hf (s & Hs & Hl)]. split; [done|]. exists s. split; [done|].
    rewrite lookup_delete_ne; [done|]. intros He. pose proof (infoName_prefix (infoOf b s)) as Hp.
    by rewrite <- He, tmp_prefix in Hp.
Qed.
Lemma DirInv_new d l b c : DirInv d l → fits b → FilePath b = infoName (infoOf b "C") →
  DirInv (<[FilePath b := c]> d) (l ++ [(b, c)]).
Proof.
  intros [H1 H2] Hf Hp. split.
  - intros name Hn Hpre. destruct (decide (name = FilePath b)) as [->|Hne].
    + exists b, c, "C". rewrite elem_of_app, lookup_insert_eq.
      split; [right; by left|]. split; [by left|]. done.
    + rewrite lookup_insert_ne in Hn |- * by done.
      destruct (H1 name Hn Hpre) as (b' & c' & s & ? & ? & ? & ?). exists b', c', s. rewrite elem_of_app. tauto.
  - intros b' c' [Hin|Hin]%elem_of_app.
    + destruct (H2 b' c' Hin) as [Hf' (s & Hs & Hl)]. split; [done|]. exists s. split; [done|].
      rewrite lookup_insert. by case_decide; [eauto|].
    + apply list_elem_of_singleton in Hin as [= -> ->]. split; [done|]. exists "C". split; [by left|].
      rewrite Hp, lookup_insert_eq. eauto.
Qed.
(** Renaming a batch to another state, with new contents unless it stays importable. *)
Lemma DirInv_state d l i s' c :
  DirInv d l → validInfo i → s' ∈ validStates → d !! infoName i = Some c →
  (i_state i = "C" ∨ i_state i = "P") → ∀ c', (s' = "C" ∨ s' = "P" → c' = c) →
  DirInv (<[infoName (withInfoState i s') := c']> (delete (infoName i) d)) l.
Proof.
  intros [H1 H2] Hi Hs' Hc Hst c' Hc'.
  destruct (H1 (infoName i)) as (b & cb & s & Hin & Hs & Hname & Hcont); [eauto|apply infoName_prefix|].
  assert (i = infoOf b s) as -> by (apply infoName_inj; [done|apply fits_valid; [by apply (H2 b cb)|done]|done]).
  cbn [i_state infoOf] in Hst. specialize (Hcont Hst). rewrite Hc in Hcont. injection Hcont as <-.
  rewrite fits_with. split.
  - intros name Hn Hp. destruct (decide (name = infoName (infoOf b s'))) as [->|Hne].
    + exists b, c, s'. rewrite lookup_insert_eq. split_and!; try done. intros H. by rewrite Hc'.
    + rewrite lookup_insert_ne in Hn |- * by done. rewrite lookup_delete in Hn |- *.
      case_decide; [by destruct Hn|]. by apply H1.
  - intros b' cb' Hin'. destruct (H2 b' cb' Hin') as [Hf (s0 & Hs0 & Hl)]. split; [done|].
    destruct (decide (infoName (infoOf b' s0) = infoName (infoOf b s))) as [He|He].
    + apply infoName_inj in He; [|by apply fits_valid|done].
      exists s'. split; [done|]. assert (infoOf b' s' = infoOf b s') as ->.
      { unfold infoOf in *. congruence. }
      rewrite lookup_insert_eq. eauto.
    + exists s0. split; [done|]. rewrite lookup_insert, lookup_delete. case_decide; [eauto|].
      by rewrite decide_False by congruence.
Qed.

(** *** What recovery reads back *)
Lemma rows_all_pos : Forall (λ p : string * Z, p.1 ≠ "" ∧ 0 < p.2) rows.
Proof.
  unfold rows. apply Forall_app. split; [apply rows_pos|]. case_decide as Hl; [constructor|].
  constructor; [|constructor]. split; [done|]. by apply (Reads_last_pos _ _ _ Hfile).
Qed.
Lemma cumAt_nonneg k : 0 ≤ cumAt k.
Proof.
  unfold cumAt. destruct (bytesOf_pos hdr hdr_pos) as [? _].
  destruct (bytesOf_pos (take k rows)) as [? _]; [by apply Forall_take, rows_all_pos|]. lia.
Qed.
Lemma cumAt_mono k k' : (k ≤ k')%nat → cumAt k ≤ cumAt k'.
Proof.
  intros Hk. unfold cumAt. rewrite <- (take_seg k k'), bytesOf_app by lia.
  destruct (bytesOf_pos (seg k k')) as [? _]; [|lia]. apply Forall_drop, Forall_take, rows_all_pos.
Qed.
Lemma Cut_bounds l n k final : Cut l n k final →
  0 ≤ n ∧ (k ≤ length rows)%nat ∧ (final = false → (k ≤ length ls)%nat) ∧
  (∀ b c, (b, c) ∈ l → LineOffsetEnd b ≤ Z.of_nat k ∧
     (Number b = LAST_SPLIT_NUM ∧ final = true ∨ 1 ≤ Number b ≤ n ∧ CumByteOffsetEnd b ≤ cumAt k)) ∧
  (l = [] → n = 0 ∧ k = 0%nat ∧ final = false) ∧
  (l ≠ [] → ∃ b c, (b, c) ∈ l ∧ LineOffsetEnd b = Z.of_nat k ∧
     if final then Number b = LAST_SPLIT_NUM else Number b = n ∧ CumByteOffsetEnd b = cumAt k).
Proof.
  induction 1 as [|l n k k' final b recs HC IH HF].
  { split_and!; try done; try lia. intros b c. set_solver. }
  destruct IH as (Hn & Hk & _ & Hall & Hnil & Hne). specialize (Hne). destruct HF as [F1 F2 F3 F4 F5 F6 F7 F8 F9].
  assert (length rows ≤ S (length ls))%nat as Hlen by (unfold rows; rewrite length_app; case_decide; cbn; lia).
  assert (cumAt k ≤ cumAt k') as Hmono by (apply cumAt_mono; lia).
  split; [lia|]. split; [lia|]. split; [intros ->; lia|]. split; [|split].
  - intros b' c' [Hin|Hin]%elem_of_app.
    + destruct (Hall b' c' Hin) as [H1 [[_ H2]|[H2 H3]]]; [done|]. split; [lia|]. right. lia.
    + apply list_elem_of_singleton in Hin as [= -> ->]. split; [lia|]. destruct final; [by left|].
      right. specialize (F6 eq_refl). lia.
  - intros H. by apply app_eq_nil in H as [_ ?].
  - intros _. exists b, (content recs). split; [apply elem_of_app; right; by left|]. split; [done|].
    destruct final; [done|]. by specialize (F6 eq_refl).
Qed.

Lemma recover_fold bs r0 :
  let r := foldl recoverBatch r0 bs in
  let maxOf (f : Batch → Z) a x := a ≤ x ∧ (∀ b, b ∈ bs → f b ≤ x) ∧ (x = a ∨ ∃ b, b ∈ bs ∧ x = f b) in
  maxOf Number (lastBatchNumber r0) (lastBatchNumber r) ∧
  maxOf LineOffsetEnd (lastOffset r0) (lastOffset r) ∧
  maxOf CumByteOffsetEnd (lastBatchCumByteOffsetEnd r0) (lastBatchCumByteOffsetEnd r) ∧
  (fileFullySplit r = true ↔ fileFullySplit r0 = true ∨ ∃ b, b ∈ bs ∧ Number b = LAST_SPLIT_NUM).
Proof.
  cbn zeta. revert r0. induction bs as [|b bs IH]; intros r0; cbn [foldl].
  { assert (∀ b : Batch, b ∉ []) as Hno by (intros b; apply not_elem_of_nil).
    split_and!; try lia; try (by intros b Hb; destruct (Hno b)); [by left..|].
    split; [by left|]. intros [?|(b & Hb & _)]; [done|by destruct (Hno b)]. }
  destruct (IH (recoverBatch r0 b)) as (H1 & H2 & H3 & H4). clear IH.
  set (r := foldl recoverBatch (recoverBatch r0 b) bs) in *. clearbody r.
  assert (∀ (f : Batch → Z) a x, (if a <? f b then f b else a) ≤ x →
    (∀ b', b' ∈ bs → f b' ≤ x) → (x = (if a <? f b then f b else a) ∨ ∃ b', b' ∈ bs ∧ x = f b') →
    a ≤ x ∧ (∀ b', b' ∈ b :: bs → f b' ≤ x) ∧ (x = a ∨ ∃ b', b' ∈ b :: bs ∧ x = f b')) as Hmax.
  { intros f a x Ha Hall Hx. setoid_rewrite elem_of_cons.
    destruct (a <? f b) eqn:E; [apply Z.ltb_lt in E|apply Z.ltb_ge in E]; (split; [lia|]);
      (split; [intros b' [->|?]; [lia|by apply Hall]|]); destruct Hx as [->|(b' & ? & ->)]; eauto 10. }
  cbn in H1, H2, H3. split; [apply Hmax; tauto|]. split; [apply Hmax; tauto|]. split; [apply Hmax; tauto|].
  rewrite H4. cbn. rewrite orb_true_iff, Z.eqb_eq. setoid_rewrite elem_of_cons. naive_solver.
Qed.
Lemma Recover_ok d l n k final r :
  DirInv d l → Cut l n k final → Recover (Some d) = Ok r →
  lastOffset r = Z.of_nat k ∧ fileFullySplit r = final ∧
  (final = false → lastBatchNumber r = n ∧
     (lastBatchCumByteOffsetEnd r = cumAt k ∨ (k = 0%nat ∧ lastBatchCumByteOffsetEnd r = 0))).
Proof.
  intros HDI HC. destruct (getBatches_spec d "CPDE" (DirInv_wellNamed _ _ HDI)) as (bs & Hbs & _ & Hmem).
  unfold Recover, GetAllBatches. rewrite Hbs. cbn [mbind result_bind]. intros [= <-].
  assert (∀ b', b' ∈ bs → ∃ b c, (b, c) ∈ l ∧ Number b' = Number b ∧ LineOffsetEnd b' = LineOffsetEnd b ∧
    CumByteOffsetEnd b' = CumByteOffsetEnd b) as Hto.
  { intros b' (i & Hi & Hin & _ & ->)%Hmem.
    destruct (di_files _ _ HDI _ Hin (infoName_prefix i)) as (b & c & s & Hl & Hs & Hname & _).
    apply infoName_inj in Hname as ->; [by exists b, c|done|]. apply fits_valid; [|done]. by apply (di_batches _ _ HDI b c). }
  assert (∀ b c, (b, c) ∈ l → ∃ b', b' ∈ bs ∧ Number b' = Number b ∧ LineOffsetEnd b' = LineOffsetEnd b ∧
    CumByteOffsetEnd b' = CumByteOffsetEnd b) as Hfrom.
  { intros b c Hin. destruct (di_batches _ _ HDI b c Hin) as [Hf (s & Hs & Hl)].
    exists (batchOf (infoOf b s)). split; [|done]. apply Hmem. exists (infoOf b s).
    split; [by apply fits_valid|]. split; [done|]. split; [|done].
    unfold stateIn. cbn. by destruct (valid_state_cases _ Hs) as [-> | [-> | [-> | ->]]]. }
  destruct (recover_fold bs (mkRecovered [] 0 0 0 false)) as ((N1 & N2 & N3) & (O1 & O2 & O3) & (C1 & C2 & C3) & Hfull).
  cbn zeta in *. set (r := foldl _ _ bs) in *. clearbody r. cbn [lastBatchNumber lastOffset lastBatchCumByteOffsetEnd fileFullySplit] in *.
  destruct (Cut_bounds _ _ _ _ HC) as (Hn & _ & _ & Hall & Hnil & Hne).
  assert (fileFullySplit r = final) as Hfin.
  { apply eq_bool_prop_intro. split.
    - intros H%Is_true_true. apply Hfull in H as [?|(b' & Hb' & Hz)]; [done|].
      destruct (Hto b' Hb') as (b & c & Hin & Hnum & _). destruct (Hall b c Hin) as [_ [[_ ->]|[H _]]]; [done|].
      unfold LAST_SPLIT_NUM in *. lia.
    - intros H%Is_true_true. apply Is_true_true, Hfull. right.
      destruct (decide (l = [])) as [Hl|Hl]; [destruct (Hnil Hl) as (_ & _ & ?); congruence|].
      destruct (Hne Hl) as (b & c & Hin & _ & Hz). rewrite H in Hz.
      destruct (Hfrom b c Hin) as (b' & Hb' & Hnum & _). exists b'. split; [done|congruence]. }
  destruct (decide (l = [])) as [Hl|Hl].
  { assert (∀ b', b' ∉ bs) as Hno by (intros b' Hb'; destruct (Hto b' Hb') as (? & ? & Hx & _); rewrite Hl in Hx; set_solver).
    destruct (Hnil Hl) as (-> & -> & ->).
    destruct N3 as [N3|(? & ? & _)]; [|by destruct (Hno x)]. destruct O3 as [O3|(? & ? & _)]; [|by destruct (Hno x)].
    destruct C3 as [C3|(? & ? & _)]; [|by destruct (Hno x)]. auto 10. }
  destruct (Hne Hl) as (b0 & c0 & Hin0 & Hoff0 & Hfin0). destruct (Hfrom b0 c0 Hin0) as (b1 & Hb1 & E1 & E2 & E3).
  split; [|split; [done|]].
  - pose proof (O2 b1 Hb1). destruct O3 as [O3|(b' & Hb' & O3)]; [lia|].
    destruct (Hto b' Hb') as (b & c & Hin & _ & He & _). destruct (Hall b c Hin) as [? _]. lia.
  - intros Hf. rewrite Hf in Hfin0, Hall. destruct Hfin0 as [Hn0 Hc0]. split.
    + pose proof (N2 b1 Hb1). destruct N3 as [N3|(b' & Hb' & N3)]; [lia|].
      destruct (Hto b' Hb') as (b & c & Hin & He & _). destruct (Hall b c Hin) as [_ [[_ ?]|?]]; [done|lia].
    + pose proof (C2 b1 Hb1). destruct C3 as [C3|(b' & Hb' & C3)].
      * destruct (decide (k = 0%nat)); [right; auto|]. left.
        pose proof (cumAt_nonneg k). lia.
      * left. destruct (Hto b' Hb') as (b & c & Hin & _ & _ & He). destruct (Hall b c Hin) as [_ [[_ ?]|?]]; [done|lia].
Qed.

(** *** Every step keeps the invariant *)
Lemma New_ok od l n k final d p :
  Cut l n k final → match od with Some d => DirInv d l | None => l = [] end →
  NewSequentialFileBatchProducer od = Ok (d, p) → DirInv d l ∧ PInv p n k final.
Proof.
  intros HC Hod. unfold NewSequentialFileBatchProducer. rewrite bind_Ok. intros (r & Hr & [= <- <-]).
  assert (DirInv (default ∅ od) l) as HDI.
  { destruct od as [d|]; [done|]. subst l. split; [|intros ??; set_solver].
    intros name. cbn. rewrite lookup_empty. by intros []. }
  split; [done|]. destruct (Recover_ok _ _ _ _ _ _ HDI HC Hr) as (Hoff & Hfull & Hnum).
  destruct (Cut_bounds _ _ _ _ HC) as (_ & _ & Hk & _). unfold PInv. destruct final; cbn.
  - rewrite Hfull, andb_true_r. destruct (length (pendingBatches r) =? 0)%nat eqn:Hl; [by left|right].
    split; [done|]. intros Hnil. pose proof (HsortPending (pendingBatches r)) as Hperm.
    rewrite Hnil in Hperm. apply Permutation_nil_l in Hperm. by rewrite <- Hperm in Hl.
  - destruct (Hnum eq_refl) as [Hn Hcum]. split; [done|]. split; [|done]. split; [by rewrite Hfull, andb_false_r|].
    left. split; cbn; try done. by apply Hk.
Qed.
Lemma Filed_path n k k' final b recs : Filed n k k' final b recs → FilePath b = infoName (infoOf b "C").
Proof. by intros []. Qed.
Lemma Produce_ok fuel d p d' p' b l n k final :
  Cut l n k final → DirInv d l → PInv p n k final → p_pending p = [] →
  NextBatch fuel d p = Some (Ok (d', p', b)) → fits b →
  ∃ n' k' final', Cut (l ++ [(b, default "" (d' !! FilePath b))]) n' k' final' ∧
    DirInv d' (l ++ [(b, default "" (d' !! FilePath b))]) ∧ PInv p' n' k' final'.
Proof.
  intros HC HDI HP Hpen HN Hfit. unfold NextBatch in HN. rewrite Hpen in HN.
  destruct (completed p) eqn:Hcomp; [done|].
  destruct final; [cbn in HP; destruct HP as [?|[_ ?]]; congruence|]. destruct HP as (Hn & Hready & Hfull).
  destruct (produceNextBatch_spec _ _ _ _ _ _ _ Hready HN) as (k' & final & recs & HF & HA & Hd').
  assert (default "" (d' !! FilePath b) = content recs) as Hcont by (by rewrite Hd', lookup_insert_eq).
  rewrite Hcont, Hn in *. exists (n + 1), k', final. split; [by eapply Cut_snoc|]. split.
  - rewrite Hd'. apply DirInv_new; [by apply DirInv_delete_tmp|done|by eapply Filed_path].
  - destruct HA as (H1 & H2 & H3 & H4 & H5). unfold PInv. destruct final; [by left|].
    split; [congruence|]. split; [|congruence]. split; [done|]. right. by apply H5.
Qed.
Lemma Pending_ok fuel d p d' p' b n k final :
  PInv p n k final → p_pending p ≠ [] → NextBatch fuel d p = Some (Ok (d', p', b)) →
  d' = d ∧ PInv p' n k final.
Proof.
  unfold NextBatch. destruct (completed p) eqn:Hcomp; [done|].
  destruct (p_pending p) as [|b0 rest] eqn:Hpen; [done|]. intros HP _ [= <- <- <-]. split; [done|].
  unfold PInv in *. destruct final; cbn.
  - destruct HP as [?|[Hfull _]]; [congruence|]. rewrite Hfull, andb_true_r.
    destruct (length rest =? 0)%nat eqn:Hl; [by left|right]. split; [done|]. by intros ->.
  - destruct HP as (Hn & [Hnd Hready] & Hfull). rewrite Hfull, andb_false_r. split; [done|]. split; [|done].
    split; [done|]. destruct Hready as [[]|(d0 & row & r & H)]; [left|right; by exists d0, row, r].
    by split.
Qed.
Lemma Rename_ok d old new d' :
  Rename d old new = Ok d' → ∃ c, d !! old = Some c ∧ d' = <[new := c]> (delete old d).
Proof. unfold Rename. destruct (d !! old) as [c|]; [|done]. intros [= <-]. by exists c. Qed.
Lemma Mark_ok d l i s' d' path c :
  DirInv d l → validInfo i → s' ∈ validStates → (i_state i = "C" ∨ i_state i = "P") →
  path = withState s' (infoName i) → Rename d (infoName i) path = Ok d' →
  (s' = "C" ∨ s' = "P" → c = default "" (d' !! path)) → DirInv (<[path := c]> d') l.
Proof.
  intros HDI Hi Hs' Hst -> HR Hc. apply Rename_ok in HR as (c0 & Hl & ->).
  assert (i_state i ∈ validStates) as Hv by (by destruct Hi as (_ & _ & _ & _ & _ & ?)).
  rewrite withState_info in Hc |- * by done. rewrite lookup_insert_eq in Hc. rewrite insert_insert_eq.
  by eapply DirInv_state.
Qed.
Lemma Inv_step s s' : Inv s → step s s' → Inv s'.
Proof.
  intros (n & k & final & HC & HD0 & HP) Hstep. destruct Hstep as
    [s d p Hp Hnew|s fuel d p d' p' b Hd Hp Hpen HN|s fuel d p d' p' b Hd Hp Hpen HN Hfit
    |s d i d' b' Hd Hi Hst HM|s d i d' b' tr Hd Hi Hst HM|s d i d' b' msg Hd Hi Hst HM|s|s d m partial Hd];
    unfold Inv; cbn [sdir producer produced] in *; try rewrite Hd in HD0.
  - exists n, k, final. destruct (New_ok _ _ _ _ _ _ _ HC HD0 Hnew) as [H1 H2]. split_and!; eauto.
  - rewrite Hp in HP. destruct HP as [HP _].
    destruct (Pending_ok _ _ _ _ _ _ _ _ _ HP Hpen HN) as [-> HP']. exists n, k, final. split_and!; eauto.
  - rewrite Hp in HP. destruct HP as [HP _].
    destruct (Produce_ok _ _ _ _ _ _ _ _ _ _ HC HD0 HP Hpen HN Hfit) as (n' & k' & f' & H1 & H2 & H3).
    exists n', k', f'. split_and!; eauto.
  - exists n, k, final. split; [done|]. unfold MarkInProgress in HM. apply bind_Ok in HM as (d1 & HR & [= <- <-]).
    cbn [FilePath batchOf] in HR. split; [|destruct (producer s); [destruct HP; eauto|done]].
    assert (is_Some (d1 !! withState "P" (infoName i))) as [c Hc].
    { apply Rename_ok in HR as (c & _ & ->). rewrite lookup_insert_eq. eauto. }
    rewrite <- (insert_id d1 _ _ Hc). eapply (Mark_ok d _ i "P"); try done.
    + right. by left. + by left. + intros _. by rewrite Hc.
  - exists n, k, final. split; [done|]. unfold MarkDone in HM. apply bind_Ok in HM as (d1 & HR & [= <- <-]).
    cbn [FilePath batchOf] in HR |- *. split; [|destruct (producer s); [destruct HP; eauto|done]].
    assert (withState "P" (infoName i) = infoName i) as Hsame.
    { rewrite withState_info by (rewrite Hst; right; by left). unfold withInfoState. rewrite <- Hst. by destruct i. }
    rewrite Hsame in HR.
    assert (is_Some (d1 !! withState "D" (infoName i))) as [c Hc].
    { apply Rename_ok in HR as (c & _ & ->). rewrite lookup_insert_eq. eauto. }
    assert (∀ c, DirInv (<[withState "D" (infoName i) := c]> d1) (produced s)) as Hgo.
    { intros c'. eapply (Mark_ok d _ i "D"); try done; [right; right; by left|by right|by intros [?|?]]. }
    destruct tr; [apply Hgo|]. rewrite <- (insert_id d1 _ _ Hc). apply Hgo.
  - exists n, k, final. split; [done|]. unfold MarkError in HM. apply bind_Ok in HM as (d1 & HR & [= <- <-]).
    cbn [FilePath batchOf] in HR |- *. split; [|destruct (producer s); [destruct HP; eauto|done]].
    eapply (Mark_ok d _ i "E"); try done; [right; right; right; by left|by right|by intros [?|?]].
  - exists n, k, final. done.
  - exists n, k, final. split; [done|]. split; [by apply DirInv_tmp|done].
Qed.
Lemma reachable_Inv s : reachable s → Inv s.
Proof.
  intros Hr. unfold reachable in Hr. assert (Inv initial) as H0 by (exists 0, 0%nat, false; split; [constructor|done]).
  revert H0. induction Hr as [s|s1 s2 s3 Hs _ IH]; [done|]. intros H. by apply IH, (Inv_step s1).
Qed.

(** ** What the batches hold *)
Lemma Cut_rows l n k final : Cut l n k final →
  ∃ recss, map snd l = map content recss ∧ concat recss = processed (take k rows) ∧
    Forall2 (λ p recs, RecordCount p.1 = Z.of_nat (length recs)) l recss ∧
    (final = true → k = length rows) ∧ (final = true ↔ ∃ b c, (b, c) ∈ l ∧ Number b = LAST_SPLIT_NUM).
Proof.
  induction 1 as [|l n k k' final b recs HC IH HF].
  { exists []. split; [done|]. split; [done|]. split; [constructor|]. split; [done|]. split; [done|].
    intros (b & c & Hin & _). set_solver. }
  destruct IH as (recss & Hmap & Hcat & Hcnt & _ & Hfin). destruct (Cut_bounds _ _ _ _ HC) as (Hn & _ & _ & Hall & _).
  destruct HF as [F1 F2 F3 F4 F5 F6 F7 F8 F9].
  exists (recss ++ [recs]). split_and!.
  - by rewrite !map_app, Hmap.
  - rewrite concat_app, Hcat. cbn. rewrite app_nil_r, F7, <- processed_app, take_seg by lia. done.
  - apply Forall2_app; [done|]. by constructor.
  - by intros ->.
  - split; [intros ->; exists b, (content recs); rewrite elem_of_app; split; [right; by left|done]|].
    intros (b' & c' & [Hin|Hin]%elem_of_app & Hz).
    + destruct (Hall b' c' Hin) as [_ [[_ ?]|[? _]]]; [done|]. unfold LAST_SPLIT_NUM in Hz. lia.
    + apply list_elem_of_singleton in Hin as [= -> ->]. rewrite F1 in Hz. destruct final; [done|].
      unfold LAST_SPLIT_NUM in Hz. lia.
Qed.

(** A batch a worker may take up is one that was cut, with the contents written for it. *)
Lemma Inv_batch s d i c :
  Inv s → sdir s = Some d → validInfo i → (i_state i = "C" ∨ i_state i = "P") → d !! infoName i = Some c →
  ∃ b, (b, c) ∈ produced s ∧ i = infoOf b (i_state i).
Proof.
  intros (n & k & final & HC & HDI & _) Hd Hi Hst Hc. rewrite Hd in HDI.
  destruct (di_files _ _ HDI (infoName i)) as (b & cb & s' & Hin & Hs & Hname & Hcont); [eauto|apply infoName_prefix|].
  assert (i = infoOf b s') as -> by (apply infoName_inj; [done|apply fits_valid; [by apply (di_batches _ _ HDI b cb)|done]|done]).
  cbn [i_state infoOf] in *. specialize (Hcont Hst). rewrite Hc in Hcont. injection Hcont as <-. by exists b.
Qed.
Lemma Cut_numbers l n k final : Cut l n k final → NoDup (map (λ p, Number p.1) l).
Proof.
  induction 1 as [|l n k k' final b recs HC IH HF]; [constructor|]. rewrite map_app. apply NoDup_app.
  split; [done|]. split; [|cbn; apply NoDup_singleton].
  intros m ([b' c'] & -> & Hin)%list_elem_of_fmap. cbn. rewrite list_elem_of_singleton.
  destruct (Cut_bounds _ _ _ _ HC) as (Hn & _ & _ & Hall & _). rewrite (fi_number _ _ _ _ _ _ HF).
  destruct (Hall _ _ Hin) as [_ [[_ ?]|[Hb _]]]; [done|]. unfold LAST_SPLIT_NUM. destruct final; lia.
Qed.
Lemma Inv_listing s d :
  Inv s → sdir s = Some d → ∃ bs, GetAllBatches (Some d) = Ok bs ∧
    (∀ b c, (b, c) ∈ produced s → ∃ st, st ∈ validStates ∧ is_Some (d !! infoName (infoOf b st)) ∧
       batchOf (infoOf b st) ∈ bs) ∧
    ∀ b', b' ∈ bs → ∃ b c st, (b, c) ∈ produced s ∧ b' = batchOf (infoOf b st).
Proof.
  intros (n & k & final & HC & HDI & _) Hd. rewrite Hd in HDI.
  destruct (getBatches_spec d "CPDE" (DirInv_wellNamed _ _ HDI)) as (bs & Hbs & _ & Hmem).
  exists bs. split; [done|]. split.
  - intros b c Hin. destruct (di_batches _ _ HDI b c Hin) as [Hf (st & Hs & Hl)]. exists st. split; [done|]. split; [done|].
    apply Hmem. exists (infoOf b st). split_and!; try done; [by apply fits_valid|].
    unfold stateIn; cbn. by destruct (valid_state_cases _ Hs) as [-> | [-> | [-> | ->] ] ].
  - intros b' (i & Hi & Hin & _ & ->)%Hmem.
    destruct (di_files _ _ HDI _ Hin (infoName_prefix i)) as (b & c & st & Hl & Hs & Hname & _). exists b, c, st.
    split; [done|]. apply infoName_inj in Hname as ->; [done|done|]. apply fits_valid; [|done]. by apply (di_batches _ _ HDI b c).
Qed.
(** When the last batch is listed, the batches hold the whole file. *)
Lemma last_listed s d bs :
  Inv s → sdir s = Some d → GetAllBatches (Some d) = Ok bs → (∃ b, b ∈ bs ∧ Number b = LAST_SPLIT_NUM) →
  ∃ recss : list (list string), map snd (produced s) = map content recss ∧ concat recss = processed rows ∧
    Forall2 (λ p recs, RecordCount p.1 = Z.of_nat (length recs)) (produced s) recss.
Proof.
  intros HI Hd Hbs (b' & Hb' & Hz). destruct (Inv_listing _ _ HI Hd) as (bs' & Hbs' & _ & Hof).
  rewrite Hbs in Hbs'. injection Hbs' as <-. destruct (Hof _ Hb') as (b & c & st & Hin & ->).
  destruct HI as (n & k & final & HC & _). destruct (Cut_rows _ _ _ _ HC) as (recss & H1 & H2 & H3 & H4 & H5).
  exists recss. split; [done|]. split; [|done]. rewrite H2, H4, take_ge; [done|lia|]. apply H5. by exists b, c.
Qed.
(** Completed: the whole file is cut and every batch is done. *)
Lemma completed_batches s d :
  Inv s → sdir s = Some d → GetFileImportState (Some d) = Ok FILE_IMPORT_COMPLETED →
  ∃ recss : list (list string), map snd (produced s) = map content recss ∧ concat recss = processed rows ∧
    Forall2 (λ p recs, RecordCount p.1 = Z.of_nat (length recs)) (produced s) recss ∧
    ∀ b c, (b, c) ∈ produced s → is_Some (d !! infoName (infoOf b "D")).
Proof.
  intros HI Hd Hst. destruct (Inv_listing _ _ HI Hd) as (bs & Hbs & Hlist & _).
  unfold GetFileImportState in Hst. rewrite Hbs in Hst. injection Hst as Hst.
  apply (proj1 (fileStateOf_spec bs)) in Hst as [Hlast Hall]. rewrite existsb_exists in Hlast.
  setoid_rewrite Z.eqb_eq in Hlast. setoid_rewrite <- list_elem_of_In in Hlast.
  destruct (last_listed _ _ _ HI Hd Hbs Hlast) as (recss & H1 & H2 & H3). exists recss. split_and!; try done.
  intros b c Hin. destruct (Hlist b c Hin) as (st & Hs & Hl & Hb). rewrite Forall_forall in Hall. specialize (Hall _ Hb).
  unfold IsDone in Hall. cbn [FilePath batchOf] in Hall. rewrite hasSuffix_info_iff in Hall by done.
  apply bool_decide_eq_true in Hall. cbn in Hall. by subst st.
Qed.
(** Producing a batch adds its file and removes a temporary one. *)
Lemma produce_dir s fuel d p d' p' b :
  Inv s → sdir s = Some d → producer s = Some p → p_pending p = [] →
  NextBatch fuel d p = Some (Ok (d', p', b)) →
  ∃ n c, d' = <[infoName (infoOf b "C") := c]> (delete (tmpFileName n) d).
Proof.
  intros (n & k & final & _ & _ & HP) _ Hp Hpen HN. rewrite Hp in HP. destruct HP as [HP _].
  unfold NextBatch in HN. rewrite Hpen in HN. destruct (completed p) eqn:Hcomp; [done|].
  destruct final; [cbn in HP; destruct HP as [?|[_ ?]]; congruence|]. destruct HP as (_ & Hready & _).
  destruct (produceNextBatch_spec _ _ _ _ _ _ _ Hready HN) as (k' & final & recs & HF & _ & ->).
  rewrite (Filed_path _ _ _ _ _ _ HF). eauto.
Qed.



(** ** Production ends and, on good rows, succeeds *)
Lemma finalizeBatch_total dir p bw isLast off bytes cum :
  ∃ q, finalizeBatch dir p bw isLast off bytes cum = Ok q.
Proof. unfold finalizeBatch, BatchWriter_Done, Rename. rewrite lookup_insert_eq. cbn [mbind result_bind]. eauto. Qed.
(** Every row fits a batch and can be transformed; blank lines at the end are few. *)
Definition goodRows : Prop :=
  (∀ r, r ∈ rows → keep r ≠ []) ∧ 0 ≤ MaxBatchSizeInBytes ∧ (last.1 = "" → last.2 ≤ MaxBatchSizeInBytes).
Definition endsWell (r : option (result (Dir * SequentialFileBatchProducer * Batch))) : Prop :=
  ∃ q, r = Some q ∧ (goodRows → ∃ q', q = Ok q').
Lemma produce_loop_total fuel dir p d bw c :
  At d c → (length rows - c + 1 ≤ fuel)%nat → endsWell (produce_loop fuel dir p d bw).
Proof.
  revert p d bw c. induction fuel as [|fuel IH]; intros p d bw c Hat Hf; [lia|]. cbn [produce_loop].
  destruct (NextLine d) as [[[line n] err] d1] eqn:HN.
  assert (∀ (r : result (Dir * Batch)) F, (∃ q, r = Ok q) → (∀ q, ∃ q' : Dir * SequentialFileBatchProducer * Batch, F q = Ok q') →
    endsWell (Some (r ≫= F))) as Hfin.
  { intros r F [q ->] HF. eexists. split; [done|]. intros _. apply HF. }
  assert (∀ e, ¬ goodRows → endsWell (Some e)) as Herr by (intros e Hno; exists e; by split).
  assert (∀ p' d' bw', (c < length rows)%nat → At d' (S c) → endsWell (produce_loop fuel dir p' d' bw')) as Hloop.
  { intros p' d' bw' Hlt Hat'. apply (IH _ _ _ (S c)); [done|lia]. }
  assert (∀ p' d' bw', (c < length rows)%nat → At d' (S c) → ¬ goodRows → endsWell (if ShouldAbort
    then Some (Err "row processing error") else produce_loop fuel dir p' d' bw')) as Hstash.
  { intros. destruct ShouldAbort; [by apply Herr|by apply Hloop]. }
  assert (rows !! c = Some (line, n) → (∀ row, keep (line, n) ≠ [row]) → ¬ goodRows) as Hbad.
  { intros Hr Hk [Hg _]. apply (Hg (line, n)); [by eapply list_elem_of_lookup_2|]. revert Hk. unfold keep.
    destruct (_ <? _); [done|]. destruct (transformRow _) as [row| |]; [|done..]. intros Hk. by destruct (Hk row). }
  destruct (At_next _ _ _ _ _ _ Hat HN)
    as [(-> & Hr & Hne & Hn & Hat1)|[(-> & Hr & Hne & Hn & Hlen & Hat1)|(-> & -> & Hlen & Hn)]].
  - apply lookup_lt_Some in Hr as Hlt. destruct (MaxBatchSizeInBytes <? n) eqn:Hmax.
    { apply Hstash; [done|by apply At_reset|]. apply Hbad; [done|]. intros row. unfold keep; cbn. by rewrite Hmax. }
    rewrite decide_False by done. destruct (transformRow line) as [row|e|e] eqn:Htr.
    + destruct (_ || _); [|by apply Hloop]. apply Hfin; [apply finalizeBatch_total|]. intros []; eauto.
    + apply Hstash; [done|by apply At_reset|]. apply Hbad; [done|]. intros row. unfold keep; cbn. by rewrite Hmax, Htr.
    + apply Herr, Hbad; [done|]. intros row. unfold keep; cbn. by rewrite Hmax, Htr.
  - destruct (MaxBatchSizeInBytes <? n) eqn:Hmax.
    { assert (¬ goodRows) as Hno by (apply Hbad; [done|]; intros row; unfold keep; cbn; by rewrite Hmax).
      destruct ShouldAbort; by apply Herr. }
    rewrite decide_False by done. destruct (transformRow line) as [row|e|e] eqn:Htr.
    + destruct (_ || _); (apply Hfin; [apply finalizeBatch_total|]; intros []; eauto).
    + assert (¬ goodRows) as Hno by (apply Hbad; [done|]; intros row; unfold keep; cbn; by rewrite Hmax, Htr).
      destruct ShouldAbort; by apply Herr.
    + apply Herr, Hbad; [done|]. intros row. unfold keep; cbn. by rewrite Hmax, Htr.
  - destruct (MaxBatchSizeInBytes <? n) eqn:Hmax.
    { apply Z.ltb_lt in Hmax. assert (¬ goodRows) as Hno by (intros (_ & H0 & Hl); destruct Hn as [[He ->]|?]; [specialize (Hl He)|]; lia).
      destruct ShouldAbort; by apply Herr. }
    rewrite decide_True by done. apply Hfin; [apply finalizeBatch_total|]. intros []; eauto.
Qed.
Lemma openDataFile_total p k : Fresh p k → ∃ q, openDataFile p = Ok q.
Proof.
  intros [Hf Ht Hoff Hcar Hh Hk Hc Hl].
  assert (∀ p, ∃ d p', openDataFileAndReadHeaderIfRequired p = Ok (d, p')) as Hhead.
  { intros p0. unfold openDataFileAndReadHeaderIfRequired. pose proof Hfile as HR. pose proof Hhdr as Hl0.
    destruct HasHeader; [|eauto]. destruct hdr as [|[h n] [|? ?]]; [done| |done].
    destruct (Reads_inv _ _ _ HR) as [(? & _)|(line & m & ls1 & d1 & [= -> -> <-] & HN & _)]; [done|]. rewrite HN. eauto. }
  unfold openDataFile, openDataFileAtByteOffset, openDataFileFirstRun. destruct (0 <? _).
  - assert (∃ p1, (if HasHeader then r ← openDataFileAndReadHeaderIfRequired p; Ok r.2 else Ok p) = Ok p1 ∧
      p_lastBatchCum p1 = p_lastBatchCum p ∧ p_lastOffset p1 = p_lastOffset p) as (p1 & -> & Hcum & Hoff1).
    { destruct (Hhead p) as (d & p' & Hd). destruct (Sumbool.sumbool_of_bool HasHeader) as [HH|HH]; rewrite HH; [|eauto].
      rewrite Hd. cbn [mbind result_bind]. eexists. split; [done|].
      revert Hd. unfold openDataFileAndReadHeaderIfRequired. rewrite HH.
      destruct (NextLine openFile) as [[[line n] [e|]] d1]; [done|]. by intros [= _ <-]. }
    cbn [mbind result_bind]. destruct (openAt _); [eauto|]. unfold openDataFileAndSkipLines.
    destruct (Hhead p1) as (d & p' & Hd). rewrite Hd. cbn [mbind result_bind].
    assert (Reads d ls last ∧ p_lastOffset p' = p_lastOffset p1) as [HR Hoff'].
    { revert Hd. unfold openDataFileAndReadHeaderIfRequired. pose proof Hfile as HR. pose proof Hhdr as Hl0.
      destruct HasHeader.
      - destruct hdr as [|[h n] [|? ?]]; [done| |done].
        destruct (Reads_inv _ _ _ HR) as [(? & _)|(line & m & ls1 & d1 & [= -> -> <-] & HN & HR1)]; [done|].
        rewrite HN. intros [= <- <-]. split; [by apply Reset_reads|done].
      - destruct hdr; [|done]. by intros [= <- <-]. }
    unfold SkipLines. rewrite Hoff', Hoff1, Hoff, Nat2Z.id. destruct (skip_lines_ok d ls k HR Hk) as (d' & -> & _). eauto.
  - destruct (Hhead p) as (d & p' & ->). cbn. eauto.
Qed.
Lemma NextBatch_total fuel d p k :
  Ready p k → p_pending p = [] → (length rows + 1 ≤ fuel)%nat → endsWell (NextBatch fuel d p).
Proof.
  intros [Hnd Hready] Hpen Hfuel. unfold NextBatch. rewrite Hnd, Hpen. unfold produceNextBatch.
  destruct Hready as [Hf|(dd & row & r & Hd & Hat & _)].
  - rewrite (fr_file _ _ Hf). destruct (openDataFile_total _ _ Hf) as [q Hq]. rewrite Hq.
    destruct (openDataFile_ok _ _ _ Hf Hq) as (dd & -> & Hat & _).
    destruct (newBatchWriter d q) as [d' bw]. apply (produce_loop_total _ _ _ _ _ k); [done|lia].
  - rewrite Hd, Hd. destruct (newBatchWriter d p) as [d' bw]. apply (produce_loop_total _ _ _ _ _ (S k)); [done|lia].
Qed.

(** C30: Asking an unfinished producer for a batch always comes back, with fuel for one
    read per line and one for the end; and when every row fits a batch and can be
    transformed it comes back with a batch, never an error. *)
Theorem NextBatch_returns (s : system) (d : Dir) (p : SequentialFileBatchProducer) (fuel : nat) :
  reachable s → sdir s = Some d → producer s = Some p → completed p = false →
  (length rows + 1 ≤ fuel)%nat →
  ∃ r, NextBatch fuel d p = Some r ∧ (goodRows → ∃ d' p' b, r = Ok (d', p', b)).
Proof.
  intros (n & k & final & _ & _ & HP)%reachable_Inv _ Hp Hnd Hfuel. rewrite Hp in HP. destruct HP as [HP _].
  destruct (p_pending p) as [|b rest] eqn:Hpen.
  - destruct final; [destruct HP as [?|[_ ?]]; congruence|]. destruct HP as (_ & Hready & _).
    destruct (NextBatch_total fuel d p k Hready Hpen Hfuel) as (r & Hr & Hg). exists r. split; [done|].
    intros [[[d' p'] b] ->]%Hg. eauto.
  - unfold NextBatch. rewrite Hnd, Hpen. eexists. split; [done|]. eauto.
Qed.

(** ** Running the steps *)
Inductive command : Type :=
  | CStart | CNext (fuel : nat) | CInProgress (i : Info) | CDone (i : Info) (truncateSplits : bool)
  | CError (i : Info) (msg : string) | CCrash.
#[global] Instance validInfo_dec i : Decision (validInfo i).
Proof. unfold validInfo. apply _. Defined.
Definition exec_cmd (s : system) (c : command) : option system :=
  match c, sdir s, producer s with
  | CStart, od, None =>
      match NewSequentialFileBatchProducer od with
      | Ok (d, p) => Some (mkSystem (Some d) (Some p) (produced s)) | _ => None end
  | CNext fuel, Some d, Some p =>
      match NextBatch fuel d p with
      | Some (Ok (d', p', b)) =>
          match p_pending p with
          | _ :: _ => Some (mkSystem (Some d') (Some p') (produced s))
          | [] => if decide (validInfo (infoOf b "C"))
                  then Some (mkSystem (Some d') (Some p') (produced s ++ [(b, default "" (d' !! FilePath b))]))
                  else None
          end
      | _ => None
      end
  | CInProgress i, Some d, pr =>
      if decide (validInfo i ∧ i_state i = "C") then
        match MarkInProgress d (batchOf i) with Ok (d', _) => Some (mkSystem (Some d') pr (produced s)) | _ => None end
      else None
  | CDone i tr, Some d, pr =>
      if decide (validInfo i ∧ i_state i = "P") then
        match MarkDone tr d (batchOf i) with Ok (d', _) => Some (mkSystem (Some d') pr (produced s)) | _ => None end
      else None
  | CError i msg, Some d, pr =>
      if decide (validInfo i ∧ i_state i = "P") then
        match MarkError d (batchOf i) msg with Ok (d', _) => Some (mkSystem (Some d') pr (produced s)) | _ => None end
      else None
  | CCrash, od, _ => Some (mkSystem od None (produced s))
  | _, _, _ => None
  end.
Definition exec (cs : list command) (s : system) : option system :=
  foldl (λ os c, s ← os; exec_cmd s c) (Some s) cs.
Lemma exec_cmd_step s c s' : exec_cmd s c = Some s' → step s s'.
Proof.
  destruct s as [od pr l]. unfold exec_cmd; cbn [sdir producer produced]. destruct c.
  - destruct pr; [done|]. destruct (NewSequentialFileBatchProducer od) as [[d p]| |] eqn:HN; [|done..].
    intros [= <-]. by apply (B_start (mkSystem od None l)).
  - destruct od as [d|]; [|done]. destruct pr as [p|]; [|done].
    destruct (NextBatch fuel d p) as [[[[d' p'] b]| |]|] eqn:HN; [|done..].
    destruct (p_pending p) eqn:Hp.
    + case_decide; [|done]. intros [= <-]. by eapply (B_produce (mkSystem (Some d) (Some p) l)).
    + intros [= <-]. eapply (B_pending (mkSystem (Some d) (Some p) l)); [done|done| |done]. by rewrite Hp.
  - destruct od as [d|]; [|done]. case_decide as Hi; [|done]. destruct Hi as [Hi Hs].
    destruct (MarkInProgress d (batchOf i)) as [[d' b']| |] eqn:HM; [|done..]. intros [= <-].
    by eapply (B_in_progress (mkSystem (Some d) pr l)).
  - destruct od as [d|]; [|done]. case_decide as Hi; [|done]. destruct Hi as [Hi Hs].
    destruct (MarkDone truncateSplits d (batchOf i)) as [[d' b']| |] eqn:HM; [|done..]. intros [= <-].
    by eapply (B_done (mkSystem (Some d) pr l)).
  - destruct od as [d|]; [|done]. case_decide as Hi; [|done]. destruct Hi as [Hi Hs].
    destruct (MarkError d (batchOf i) msg) as [[d' b']| |] eqn:HM; [|done..]. intros [= <-].
    by eapply (B_error (mkSystem (Some d) pr l)).
  - intros [= <-]. apply (B_crash (mkSystem od pr l)).
Qed.
Lemma exec_reachable cs s : exec cs initial = Some s → reachable s.
Proof.
  assert (∀ s0, reachable s0 → exec cs s0 = Some s → reachable s) as H; [|apply H, rtc_refl].
  unfold exec. induction cs as [|c cs IH]; intros s0 H0; cbn [foldl]; [by intros [= <-]|].
  cbn [mbind option_bind]. destruct (exec_cmd s0 c) as [s1|] eqn:Hc.
  - apply IH. eapply rtc_r; [exact H0|]. by apply exec_cmd_step in Hc.
  - intros Hn. exfalso. clear IH Hc. induction cs as [|c' cs IH]; [done|]. by apply IH.
Qed.
End producer.

(** ** A text file with a header, cut into batches of two rows *)
Definition sampleContent : string := Join NLs ["id"; "1"; "2"; "3"; ""].
Definition sampleOpenAt (offset : Z) : option TextDataFile := Some (newTextDataFile (seek sampleContent offset)).
Definition sampleTransform (line : string) : result string := Ok line.
Notation sampleSystem := (system (D:=TextDataFile)).
Definition sampleStep : sampleSystem → sampleSystem → Prop :=
  step (newTextDataFile sampleContent) sampleOpenAt true true 1000 2 true sampleTransform (λ l, l).
Definition sampleExec (cs : list command) : sampleSystem :=
  default initial (exec (newTextDataFile sampleContent) sampleOpenAt true true 1000 2 true sampleTransform (λ l, l) cs initial).
Definition info1 (st : string) : Info := mkInfo 1 2 2 7 7 st.
Definition info0 (st : string) : Info := mkInfo 0 3 1 2 9 st.
(** One batch, a crash, the recovered batch handed out again. *)
Definition sampleCommands : list command := [CStart; CNext 6; CInProgress (info1 "C"); CCrash; CStart; CNext 6].
(** And to the end: the rest of the file is cut, both batches are imported. *)
Definition sampleToEnd : list command :=
  sampleCommands ++ [CNext 6; CInProgress (info0 "C"); CDone (info1 "P") false; CDone (info0 "P") true].
Definition sampleHdr : list (string * Z) := [("id", 3)].
Definition sampleLines : list (string * Z) := [("1", 2); ("2", 2); ("3", 2)].
Lemma sample_file : Reads (newTextDataFile sampleContent) (sampleHdr ++ sampleLines) ("", 0).
Proof.
  eapply Reads_line; [vm_compute; reflexivity|]. eapply Reads_line; [vm_compute; reflexivity|].
  eapply Reads_line; [vm_compute; reflexivity|]. eapply Reads_line; [vm_compute; reflexivity|].
  eapply Reads_eof. vm_compute. reflexivity.
Qed.
Lemma sample_openAt j d :
  (j ≤ length (sampleHdr ++ sampleLines))%nat →
  sampleOpenAt (bytesOf (take j (sampleHdr ++ sampleLines))) = Some d →
  Reads d (drop j (sampleHdr ++ sampleLines)) ("", 0).
Proof. intros Hj [= <-]. by apply text_seek_ok; [apply sample_file|]. Qed.
Lemma sample_transform line row : line ≠ "" → sampleTransform line = Ok row → row ≠ "".
Proof. by intros Hl [= <-]. Qed.

Lemma NextBatch_returns_witness :
  ∃ r, NextBatch (newTextDataFile sampleContent) sampleOpenAt true true 1000 2 true sampleTransform 4
         (default ∅ (sdir (sampleExec sampleCommands)))
         (default (mkProducer [] 0 0 false true None "" 0 0 0 0 "" []) (producer (sampleExec sampleCommands))) = Some r.
Proof.
  destruct (NextBatch_returns (newTextDataFile sampleContent) sampleOpenAt true true 1000 2 true
    sampleTransform (λ l, l) sampleHdr sampleLines ("", 0) sample_file eq_refl sample_openAt sample_transform
    (λ l, Permutation_refl l) eq_refl (sampleExec sampleCommands) (default ∅ (sdir (sampleExec sampleCommands)))
    (default (mkProducer [] 0 0 false true None "" 0 0 0 0 "" []) (producer (sampleExec sampleCommands))) 4%nat) as (r & Hr & _).
  - apply (exec_reachable _ _ _ _ _ _ _ _ _ sampleCommands). vm_compute. reflexivity.
  - vm_compute. reflexivity.
  - vm_compute. reflexivity.
  - vm_compute. reflexivity.
  - vm_compute. lia.
  - exists r. exact Hr.
Defined.

(** With stash-and-continue a bad last line that no newline ends is not stashed and
    passed over: the call fails. *)
Definition badLast : string := "ok" +:+ NLs +:+ "bad".
Lemma stash_on_last_line_fails :
  NextBatch (newTextDataFile badLast) (λ _, None) false false 1000 10 false
    (λ l, if decide (l = "bad") then Err "cannot transform" else Ok l) 10 ∅
    (mkProducer [] 0 0 false false None "" 0 0 0 0 "" [])
  = Some (Err "could not produce next batch").
Proof. vm_compute. reflexivity. Qed.
End BatchProducer.
