(* ===== verification/BatchImport.v ===== *)
(** * Importing a batch (cmd/importDataFileTaskImporter.go, src/tgtdb/yugabytedb.go)

    A worker takes a batch file, has the target copy it (in one transaction with the
    record that the batch is imported, or on the fast path without one), tries again
    on errors that may pass, and files the outcome in the batch's name.  The target
    is the rows of the task's table and the table of imported batches; what goes
    wrong in an attempt (a lost connection, a failed or unacknowledged commit, rows
    written before an error) is an argument of the attempt. *)
From S2P Require Import Prelude DataFile ImportState BatchProducer.
Import DataFile ImportState BatchProducer.

Module BatchImport.

(** ** Errors *)
(** [pgconn.PgError]. *)
Record PgError : Type := mkPgError { Code : string; Where : string }.
(** An error value: its text, and the [PgError] and the [ImportBatchError] (flow,
    step, error type) that [errors.As] finds in its chain. *)
Record goError : Type := mkError {
  Error : string; asPgError : option PgError; asImportBatchError : option (string * string * string) }.

Definition STEP_COPY : string := "copy".
Definition STEP_METADATA_ENTRY : string := "metadata_entry".
Definition STEP_CHECK_BATCH_ALREADY_IMPORTED : string := "check_batch_already_imported".
Definition STEP_OPEN_BATCH : string := "open_batch".
Definition STEP_READ_LINE_BATCH : string := "read_line_batch".
Definition STEP_SET_TARGET_SCHEMA : string := "set_target_schema".
Definition STEP_BEGIN_TXN : string := "begin_txn".
Definition STEP_COMMIT_TXN : string := "commit_txn".
Definition STEP_ROLLBACK_TXN : string := "rollback_txn".
Definition FLOW_COPY_NORMAL : string := "copy_normal".
Definition FLOW_COPY_FAST : string := "copy_fast".
Definition FLOW_COPY_RECOVER : string := "copy_recover".
Definition ERROR_TYPE_PK_VIOLATION : string := "primary_key_violation".
Definition ERROR_TYPE_UNIQUE_VIOLATION : string := "unique_violation".
Definition ERROR_TYPE_FOREIGN_KEY_VIOLATION : string := "foreign_key_violation".

(** [VIOLATES_UNIQUE_CONSTRAINT_ERROR_RETRYABLE_FAST_PATH] with a constraint's name. *)
Definition violates (constraint : string) : string := "violates unique constraint " +:+ DQ +:+ constraint +:+ DQ.
Definition checkIfPrimaryKeyViolationError (err : option goError) (pkConstraintNames : list string) : bool :=
  match err with
  | None => false
  | Some e => existsb (λ name, str_contains (violates name) (Error e)) pkConstraintNames
  end.
Definition NonRetryCopyErrors : list string :=
  ["invalid input syntax"; "violates unique constraint"; "syntax error at";
   "mismatched param and argument count"; "failed to encode args"; "unable to encode";
   "cannot find encode plan"; "unsupported XML feature"].
Definition RPC_MSG_LIMIT_ERROR : string := "Sending too long RPC message".
Definition IsPgErrorCodeNonRetryable (err : option goError) : bool :=
  match err ≫= asPgError with
  | Some pgErr => HasPrefix (Code pgErr) "22" || HasPrefix (Code pgErr) "23" || HasPrefix (Code pgErr) "42"
  | None => false
  end.
Definition ContainsAnySubstringFromSlice (slice : list string) (s : string) : bool :=
  existsb (λ sub, str_contains (ToLower sub) (ToLower s)) slice.
Definition IsNonRetryableCopyError (err : option goError) : bool :=
  match err with
  | None => false
  | Some e => if IsPgErrorCodeNonRetryable err then true
              else ContainsAnySubstringFromSlice (NonRetryCopyErrors ++ [RPC_MSG_LIMIT_ERROR]) (Error e)
  end.

(** ** The target *)
(** migration_uuid, data_file_name, batch_number, schema_name, table_name *)
Definition MetaKey : Type := string * string * Z * string * string.
Record Target : Type := mkTarget { tbl : list string; meta : gmap MetaKey Z }.
(** A statement outside a transaction: done, not done, or done but reported as failed. *)
Inductive writeOutcome : Type := WriteOk | WriteFail (e : goError) | WriteUnknown (e : goError).
Inductive commitOutcome : Type := Committed | CommitFailed (e : goError) | CommitUnknown (e : goError).
(** A COPY outside a transaction: it runs to its end, or an error interrupts it; either
    way some rows may have been written ([written] marks them) when it fails. *)
Inductive bulkOutcome : Type := BulkRun (written : list bool) | BulkFail (written : list bool) (e : goError).

(** What the environment does during one attempt. *)
Record attemptEnv : Type := mkEnv {
  connErr : option goError;                   (* WithConn finds no connection *)
  beginErr : option goError; openErr : option goError; schemaErr : option goError;
  checkErr : option goError; copyErr : option goError; recordOut : writeOutcome;
  rollbackErr : option goError; commitOut : commitOutcome;
  bulkOut : bulkOutcome;
  recheckErr : option goError; reopenErr : option goError;
  rowOuts : list writeOutcome; rerecordOut : writeOutcome }.

Record ImportBatchArgs : Type := mkArgs {
  PrimaryKeyColumns : list string; PKConstraintNames : list string; PKConflictAction : string;
  args_HasHeader : bool }.
Definition PRIMARY_KEY_CONFLICT_ACTION_IGNORE : string := "IGNORE".
Definition ShouldUseFastPath (args : ImportBatchArgs) : bool :=
  (0 <? Z.of_nat (length (PrimaryKeyColumns args)))
  && bool_decide (PKConflictAction args = PRIMARY_KEY_CONFLICT_ACTION_IGNORE).

Section target.
Context (copyRows : string → list string)     (* the rows COPY reads from its input *)
        (pk : string → string)                (* the primary key of a row *)
        (pkViolation metaViolation : goError) (* what the target reports *)
        (describe : string → string).         (* [%q into %s] of a batch's file and its table *)

Definition keys (rows : list string) : list string := map pk rows.
(** The rows of [rows] whose key is not there yet. *)
Fixpoint insertFresh (rows stored : list string) : list string :=
  match rows with
  | [] => stored
  | r :: rows => insertFresh rows (if decide (pk r ∈ keys stored) then stored else stored ++ [r])
  end.
Definition masked (mask : list bool) (rows : list string) : list string :=
  (filter (λ p : bool * string, p.1 = true) (zip mask rows)).*2.
(** COPY as one statement: all rows or none. *)
Definition copyAtomic (o : writeOutcome) (t : Target) (rows : list string) : Target * Z * option goError :=
  let done := mkTarget (tbl t ++ rows) (meta t) in
  match o with
  | WriteFail e => (t, 0, Some e)
  | WriteOk => if decide (NoDup (keys (tbl t ++ rows))) then (done, Z.of_nat (length rows), None)
               else (t, 0, Some pkViolation)
  | WriteUnknown e => (if decide (NoDup (keys (tbl t ++ rows))) then done else t, 0, Some e)
  end.
Definition copyBulk (o : bulkOutcome) (t : Target) (rows : list string) : Target * Z * option goError :=
  match o with
  | BulkRun written =>
      if decide (NoDup (keys (tbl t ++ rows)))
      then (mkTarget (tbl t ++ rows) (meta t), Z.of_nat (length rows), None)
      else (mkTarget (insertFresh (masked written rows) (tbl t)) (meta t), 0, Some pkViolation)
  | BulkFail written e => (mkTarget (insertFresh (masked written rows) (tbl t)) (meta t), 0, Some e)
  end.
Definition isBatchAlreadyImported (err : option goError) (t : Target) (key : MetaKey) : goError + (bool * Z) :=
  match err with
  | Some e => inl e
  | None => inr (match meta t !! key with Some n => (true, n) | None => (false, 0) end)
  end.
Definition recordEntryInDB (o : writeOutcome) (t : Target) (key : MetaKey) (rowsAffected : Z) : Target * option goError :=
  let done := match meta t !! key with Some _ => t | None => mkTarget (tbl t) (<[key := rowsAffected]> (meta t)) end in
  match o with
  | WriteFail e => (t, Some e)
  | WriteOk => (done, match meta t !! key with Some _ => Some metaViolation | None => None end)
  | WriteUnknown e => (done, Some e)
  end.

Section batch.
Context (args : ImportBatchArgs) (key : MetaKey) (path : string).

Definition newImportBatchErrorPgYb (underlyingErr : goError) (flow step : string) (pkConstraintNames : list string) : goError :=
  let '(errorType, dbContext) :=
    match asPgError underlyingErr with
    | Some pgerr =>
        (if decide (Code pgerr = "23505") then
           (if checkIfPrimaryKeyViolationError (Some underlyingErr) pkConstraintNames
            then ERROR_TYPE_PK_VIOLATION else ERROR_TYPE_UNIQUE_VIOLATION)
         else if decide (Code pgerr = "23503") then ERROR_TYPE_FOREIGN_KEY_VIOLATION else "",
         "[where=" +:+ Where pgerr +:+ "]")
    | None => ("", "[]")
    end in
  mkError ("import batch: " +:+ describe path +:+ ": flow=" +:+ flow +:+ ": step=" +:+ step +:+ ": "
             +:+ Error underlyingErr +:+ ": dbcontext=" +:+ dbContext)
    (asPgError underlyingErr) (Some (flow, step, errorType)).

(** [file]: the contents of the batch file, [None] when it is not there. *)
Definition noSuchFile : goError := mkError "no such file or directory" None None.
Definition copyBatchCore (env : attemptEnv) (file : option string) (t : Target) : Target * Z * option goError :=
  let flow := if ShouldUseFastPath args then FLOW_COPY_FAST else FLOW_COPY_NORMAL in
  match (match openErr env, file with
         | Some e, _ => inl e | None, None => inl noSuchFile | None, Some content => inr content end) with
  | inl e => (t, 0, Some (newImportBatchErrorPgYb e flow STEP_OPEN_BATCH []))
  | inr content =>
      match schemaErr env with
      | Some e => (t, 0, Some (newImportBatchErrorPgYb e flow STEP_SET_TARGET_SCHEMA []))
      | None =>
          match isBatchAlreadyImported (checkErr env) t key with
          | inl e => (t, 0, Some (newImportBatchErrorPgYb e flow STEP_CHECK_BATCH_ALREADY_IMPORTED []))
          | inr (true, rowsAffected) => (t, rowsAffected, None)
          | inr (false, _) =>
              let '(t, rowsAffected, err) :=
                if ShouldUseFastPath args then copyBulk (bulkOut env) t (copyRows content)
                else match copyErr env with
                     | Some e => (t, 0, Some e)
                     | None => (mkTarget (tbl t ++ copyRows content) (meta t), Z.of_nat (length (copyRows content)), None)
                     end in
              match err with
              | Some e => (t, rowsAffected, Some (newImportBatchErrorPgYb e flow STEP_COPY (PKConstraintNames args)))
              | None =>
                  match recordEntryInDB (recordOut env) t key rowsAffected with
                  | (t, Some e) => (t, rowsAffected, Some (newImportBatchErrorPgYb e flow STEP_METADATA_ENTRY []))
                  | (t, None) => (t, rowsAffected, None)
                  end
              end
          end
      end
  end.

(** The normal path: the deferred function rolls back or commits. *)
Definition importBatchTxn (env : attemptEnv) (file : option string) (t0 : Target) : Target * Z * option goError :=
  match beginErr env with
  | Some e => (t0, 0, Some (newImportBatchErrorPgYb e FLOW_COPY_NORMAL STEP_BEGIN_TXN []))
  | None =>
      let '(t, rowsAffected, err) := copyBatchCore env file t0 in
      match err with
      | Some e =>
          match rollbackErr env with
          | Some e2 =>
              (t0, 0, Some (newImportBatchErrorPgYb
                 (mkError (Error e2 +:+ " (while processing " +:+ Error e +:+ ")") (asPgError e2) None)
                 FLOW_COPY_NORMAL STEP_ROLLBACK_TXN []))
          | None => (t0, rowsAffected, Some e)
          end
      | None =>
          match commitOut env with
          | Committed => (t, rowsAffected, None)
          | CommitFailed e => (t0, 0, Some (newImportBatchErrorPgYb e FLOW_COPY_NORMAL STEP_COMMIT_TXN []))
          | CommitUnknown e => (t, 0, Some (newImportBatchErrorPgYb e FLOW_COPY_NORMAL STEP_COMMIT_TXN []))
          end
      end
  end.

Section recovery.
Context {D : Type} `{HD : DataFile D}.
Context (openBatch : string → D).             (* [OpenAsDataFile]: the batch's reader, at offset 0 *)

(** The loop of [importBatchFastRecover]; [None]: out of fuel.  The sum of the two
    counters is what is used of them. *)
Fixpoint recoverRows (fuel : nat) (copyHeader : string) (outs : list writeOutcome) (df : D) (t : Target)
    (rowsAffected rowsIgnored : Z) : option (Target * Z * option goError) :=
  match fuel with
  | O => None
  | S fuel =>
      let '((line, _, readLinErr), df) := NextLine df in
      match readLinErr with
      | Some (ReadErr msg) =>
          Some (t, 0, Some (newImportBatchErrorPgYb (mkError msg None None) FLOW_COPY_RECOVER STEP_READ_LINE_BATCH []))
      | _ =>
          let eof := bool_decide (readLinErr = Some EOF) in
          if decide (line = "") then
            if eof then Some (t, rowsAffected + rowsIgnored, None)
            else recoverRows fuel copyHeader outs df t rowsAffected rowsIgnored
          else
            let singleLine := if decide (copyHeader = "") then line else copyHeader +:+ NLs +:+ line in
            let '(t, res, err) := copyAtomic (default WriteOk (head outs)) t (copyRows singleLine) in
            match err with
            | Some e =>
                if checkIfPrimaryKeyViolationError (Some e) (PKConstraintNames args)
                then recoverRows fuel copyHeader (tail outs) df t rowsAffected (rowsIgnored + 1)
                else Some (t, rowsAffected + rowsIgnored,
                       Some (newImportBatchErrorPgYb e FLOW_COPY_RECOVER STEP_COPY (PKConstraintNames args)))
            | None =>
                let rowsAffected' := if 0 <? res then rowsAffected + 1 else rowsAffected in
                let rowsIgnored' := if 0 <? res then rowsIgnored else rowsIgnored + 1 in
                if eof then Some (t, rowsAffected' + rowsIgnored', None)
                else recoverRows fuel copyHeader (tail outs) df t rowsAffected' rowsIgnored'
            end
      end
  end.
(** [df.GetHeader()]; failing to read it ends the process. *)
Definition getHeader (df : D) : result (string * D) :=
  if args_HasHeader args then
    match NextLine df with ((line, _, None), df) => Ok (line, df) | _ => Err "finding header for data file" end
  else Ok ("", df).
Definition importBatchFastRecover (fuel : nat) (env : attemptEnv) (file : option string) (t : Target)
    : option (result (Target * Z * option goError)) :=
  match isBatchAlreadyImported (recheckErr env) t key with
  | inl e => Some (Ok (t, 0, Some (newImportBatchErrorPgYb e FLOW_COPY_RECOVER STEP_CHECK_BATCH_ALREADY_IMPORTED [])))
  | inr (true, rowsAffected) => Some (Ok (t, rowsAffected, None))
  | inr (false, _) =>
      match (match reopenErr env, file with
             | Some e, _ => inl e | None, None => inl noSuchFile | None, Some content => inr content end) with
      | inl e => Some (Ok (t, 0, Some (newImportBatchErrorPgYb e FLOW_COPY_RECOVER STEP_OPEN_BATCH [])))
      | inr content =>
          match getHeader (openBatch content) with
          | Ok (copyHeader, df) =>
              '(t, total, err) ← recoverRows fuel copyHeader (rowOuts env) df t 0 0;
              match err with
              | Some e => Some (Ok (t, total, Some e))
              | None =>
                  match recordEntryInDB (rerecordOut env) t key total with
                  | (t, Some e) => Some (Ok (t, 0, Some (newImportBatchErrorPgYb e FLOW_COPY_RECOVER STEP_METADATA_ENTRY [])))
                  | (t, None) => Some (Ok (t, total, None))
                  end
              end
          | Err e => Some (Err e)
          | Panic e => Some (Panic e)
          end
      end
  end.
Definition importBatchFast (fuel : nat) (env : attemptEnv) (file : option string) (t : Target)
    : option (result (Target * Z * option goError)) :=
  let '(t, rowsAffected, err) := copyBatchCore env file t in
  if checkIfPrimaryKeyViolationError err (PKConstraintNames args)
  then importBatchFastRecover fuel env file t
  else Some (Ok (t, rowsAffected, err)).

(** [TargetYugabyteDB.ImportBatch]; the flag: some rows may have been ingested. *)
Definition ImportBatch (fuel : nat) (env : attemptEnv) (file : option string) (isRecoveryCandidate : bool) (t : Target)
    : option (result (Target * Z * option goError * bool)) :=
  match connErr env with
  | Some e => Some (Ok (t, 0, Some e, false))
  | None =>
      if ShouldUseFastPath args then
        r ← (if isRecoveryCandidate then importBatchFastRecover fuel env file t else importBatchFast fuel env file t);
        Some ('(t, rowsAffected, err) ← r; Ok (t, rowsAffected, err, bool_decide (err ≠ None)))
      else
        let '(t, rowsAffected, err) := importBatchTxn env file t in Some (Ok (t, rowsAffected, err, false))
  end.
End recovery.
End batch.
End target.

(** ** The worker: [FileTaskImporter.importBatch] *)
(** Before an attempt ([ended = false]) or with the outcome of the last one. *)
Record worker : Type := mkWorker {
  wbatch : Batch; recoveryBatch : bool; attempt : Z; sleepIntervalSec : Z;
  rowsAffected : Z; lastErr : option goError; isPartialBatchIngestionPossibleOnError : bool; ended : bool }.
Definition PARTIAL_BATCH_ERROR_NOTE : string :=
  "NOTE: It is possible that the batch was partially ingested. Therefore, some of the rows in this batch may have been imported successfully.".
(** The text [MarkError] appends. *)
Definition errorString (e : goError) (partial : bool) : string :=
  NLs +:+ "/*" +:+ NLs +:+ "ERROR MESSAGE: " +:+ Error e +:+ NLs
  +:+ (if partial then PARTIAL_BATCH_ERROR_NOTE +:+ NLs else "") +:+ "*/" +:+ NLs.

(** Until the loop. *)
Definition importBatch_begin (dir : Dir) (batch : Batch) : result (Dir * worker) :=
  if RecordCount batch =? 0 then
    '(dir, batch) ← MarkInProgress dir batch; Ok (dir, mkWorker batch false 0 0 0 None false true)
  else
    let recovery := IsInterrupted batch in
    '(dir, batch) ← (if recovery then Ok (dir, batch) else MarkInProgress dir batch);
    Ok (dir, mkWorker batch recovery 0 0 0 None false false).
Section worker.
Context (COPY_MAX_RETRY_COUNT MAX_SLEEP_SECOND : Z) (ShouldAbort truncateSplits : bool).
(** [importTo file isRecoveryCandidate t] is [tdb.ImportBatch] in one environment. *)
Definition importer : Type := option string → bool → Target → option (result (Target * Z * option goError * bool)).
(** One turn of the loop. *)
Definition importBatch_turn (importTo : importer) (dir : Dir) (t : Target) (w : worker) : option (result (Target * worker)) :=
  if ended w then Some (Ok (t, w))
  else if negb (attempt w <? COPY_MAX_RETRY_COUNT)
  then Some (Ok (t, mkWorker (wbatch w) (recoveryBatch w) (attempt w) (sleepIntervalSec w) (rowsAffected w) (lastErr w)
                      (isPartialBatchIngestionPossibleOnError w) true))
  else
    r ← importTo (dir !! FilePath (wbatch w)) (recoveryBatch w || (0 <? attempt w)) t;
    Some ('(t, rows, err, partial) ← r;
          if bool_decide (err = None) || IsNonRetryableCopyError err
          then Ok (t, mkWorker (wbatch w) (recoveryBatch w) (attempt w) (sleepIntervalSec w) rows err partial true)
          else Ok (t, mkWorker (wbatch w) (recoveryBatch w) (attempt w + 1)
                        (Z.min MAX_SLEEP_SECOND (sleepIntervalSec w + 10)) rows err partial false)).
(** After the loop; an error of the result makes the process exit. *)
Definition importBatch_end (dir : Dir) (w : worker) : result Dir :=
  match lastErr w with
  | Some e =>
      if ShouldAbort then Err ("import batch: " +:+ Error e)
      else '(dir, _) ← MarkError dir (wbatch w) (errorString e (isPartialBatchIngestionPossibleOnError w)); Ok dir
  | None => '(dir, _) ← MarkDone truncateSplits dir (wbatch w); Ok dir
  end.
Fixpoint importBatch_loop (fuel : nat) (envs : nat → importer) (k : nat) (dir : Dir) (t : Target) (w : worker)
    : option (result (Target * worker)) :=
  match fuel with
  | O => None
  | S fuel =>
      if ended w then Some (Ok (t, w))
      else
        r ← importBatch_turn (envs k) dir t w;
        match r with
        | Ok (t, w) => importBatch_loop fuel envs (S k) dir t w
        | Err e => Some (Err e)
        | Panic e => Some (Panic e)
        end
  end.
(** The whole call, attempt [k] in environment [envs k], with nothing in between.  The
    fuel is the number of attempts, one turn to leave the loop and one to see it left. *)
Definition importBatch (envs : nat → importer) (dir : Dir) (t : Target) (batch : Batch) : option (result (Dir * Target)) :=
  match importBatch_begin dir batch with
  | Ok (dir, w) =>
      r ← importBatch_loop (Z.to_nat COPY_MAX_RETRY_COUNT + 2) envs 0 dir t w;
      Some ('(t, w) ← r; dir ← importBatch_end dir w; Ok (dir, t))
  | Err e => Some (Err e)
  | Panic e => Some (Panic e)
  end.
End worker.

(** ** What an attempt does to the target *)
Section attempts.
Context (copyRows : string → list string) (pk : string → string) (pkViolation metaViolation : goError)
        (describe : string → string) (args : ImportBatchArgs) (key : MetaKey) (path : string).
Context {D : Type} `{HD : DataFile D} (openBatch : string → D).
Notation txn := (importBatchTxn copyRows pk pkViolation metaViolation describe args key path).
Notation recover := (importBatchFastRecover copyRows pk pkViolation metaViolation describe args key path openBatch).
Notation core := (copyBatchCore copyRows pk pkViolation metaViolation describe args key path).
Notation import := (ImportBatch copyRows pk pkViolation metaViolation describe args key path openBatch).

Lemma insertFresh_app rows stored : ∃ added, insertFresh pk rows stored = stored ++ added ∧ ∀ r, r ∈ added → r ∈ rows.
Proof.
  revert stored. induction rows as [|r rows IH]; intros stored; cbn [insertFresh].
  { exists []. rewrite app_nil_r. split; [done|set_solver]. }
  destruct (IH (if decide (pk r ∈ keys pk stored) then stored else stored ++ [r])) as (added & -> & Hin). case_decide.
  - exists added. split; [done|]. set_solver.
  - exists (r :: added). rewrite <- app_assoc. split; [done|]. set_solver.
Qed.
Lemma keys_app l l' : keys pk (l ++ l') = keys pk l ++ keys pk l'.
Proof. apply map_app. Qed.
Lemma insertFresh_NoDup rows stored : NoDup (keys pk stored) → NoDup (keys pk (insertFresh pk rows stored)).
Proof.
  revert stored. induction rows as [|r rows IH]; intros stored Hnd; cbn [insertFresh]; [done|]. apply IH.
  case_decide; [done|]. rewrite keys_app. apply NoDup_app. split; [done|]. split; [|apply NoDup_singleton].
  intros x Hx. cbn. rewrite list_elem_of_singleton. by intros ->.
Qed.
Lemma masked_elem mask rows r : r ∈ masked mask rows → r ∈ rows.
Proof.
  unfold masked. intros ([b x] & -> & Hin)%list_elem_of_fmap. apply list_elem_of_filter in Hin as [_ Hin].
  by apply elem_of_zip_r in Hin.
Qed.
Lemma copyAtomic_spec o t rows t' n err : copyAtomic pk pkViolation o t rows = (t', n, err) →
  meta t' = meta t ∧ (t' = t ∨ NoDup (keys pk (tbl t ++ rows)) ∧ tbl t' = tbl t ++ rows) ∧
  (err = None → tbl t' = tbl t ++ rows ∧ NoDup (keys pk (tbl t')) ∧ n = Z.of_nat (length rows)) ∧
  (∀ e, err = Some e → e = pkViolation ∧ t' = t ∧ ¬ NoDup (keys pk (tbl t ++ rows)) ∨ o = WriteFail e ∨ o = WriteUnknown e).
Proof. unfold copyAtomic. destruct o; repeat case_decide; intros [= <- <- <-]; naive_solver. Qed.
Lemma checked_spec e t b n : isBatchAlreadyImported e t key = inr (b, n) →
  if b then is_Some (meta t !! key) else meta t !! key = None.
Proof. unfold isBatchAlreadyImported. destruct e; [done|]. destruct (meta t !! key) eqn:Hm; intros [= <- <-]; eauto. Qed.
Lemma recordEntry_spec o t n t' err : recordEntryInDB metaViolation o t key n = (t', err) → meta t !! key = None →
  (t' = t ∧ err ≠ None) ∨ t' = mkTarget (tbl t) (<[key := n]> (meta t)).
Proof. unfold recordEntryInDB. intros H Hn. rewrite Hn in H. destruct o; injection H as <- <-; auto. Qed.

(** *** The normal path: all rows and the record, or nothing *)
Lemma core_normal env file t t' n err : ShouldUseFastPath args = false → core env file t = (t', n, err) → err = None →
  t' = t ∧ is_Some (meta t !! key) ∨
  meta t !! key = None ∧ ∃ content m, file = Some content ∧ t' = mkTarget (tbl t ++ copyRows content) (<[key := m]> (meta t)).
Proof.
  intros Hfast. unfold copyBatchCore. rewrite Hfast. destruct (openErr env); [by intros [= <- <- <-]|].
  destruct file as [content|]; [|by intros [= <- <- <-]]. destruct (schemaErr env); [by intros [= <- <- <-]|].
  destruct (isBatchAlreadyImported (checkErr env) t key) as [e|[[] m]] eqn:Hck; [by intros [= <- <- <-]| |];
    apply checked_spec in Hck; [intros [= <- <- <-]; by left|].
  destruct (copyErr env); [by intros [= <- <- <-]|].
  destruct (recordEntryInDB _ _ _ _ _) as [t2 err2] eqn:Hrec. destruct err2 as [e|]; intros [= <- <- <-]; [done|]. intros _.
  right. split; [done|]. apply recordEntry_spec in Hrec as [[_ ?]|Hrec]; [done| |done]. exists content. eauto.
Qed.
Lemma txn_spec env file t t' n err : ShouldUseFastPath args = false → txn env file t = (t', n, err) →
  (t' = t ∧ (err = None → is_Some (meta t !! key))) ∨
  meta t !! key = None ∧ ∃ content m, file = Some content ∧ t' = mkTarget (tbl t ++ copyRows content) (<[key := m]> (meta t)).
Proof.
  intros Hfast. unfold importBatchTxn. destruct (beginErr env); [intros [= <- <- <-]; by left|].
  destruct (core env file t) as [[t1 n1] [e|]] eqn:Hcore.
  { destruct (rollbackErr env); intros [= <- <- <-]; by left. }
  apply core_normal in Hcore as [[-> Hrec]|Hc]; [| |done|done].
  - destruct (commitOut env); intros [= <- <- <-]; left; done.
  - destruct (commitOut env); intros [= <- <- <-]; [by right|by left|by right].
Qed.

(** *** The fast path: rows in any number, the record only when every key is there *)
Record fastOK (rows : list string) (t t' : Target) (err : option goError) : Prop := mkFastOK {
  f_rows : ∃ added, tbl t' = tbl t ++ added ∧ ∀ r, r ∈ added → r ∈ rows;
  f_nodup : NoDup (keys pk (tbl t)) → NoDup (keys pk (tbl t'));
  f_meta : meta t' = meta t ∨
    meta t !! key = None ∧ (∃ n, meta t' = <[key := n]> (meta t)) ∧ ∀ r, r ∈ rows → pk r ∈ keys pk (tbl t');
  f_err : err = None → is_Some (meta t' !! key) }.
Lemma fastOK_fail rows t e : fastOK rows t t (Some e).
Proof. split; [exists []; rewrite app_nil_r; split; [done|set_solver]|done|by left|done]. Qed.
Lemma fastOK_there rows t err : is_Some (meta t !! key) → fastOK rows t t err.
Proof. intros. split; [exists []; rewrite app_nil_r; split; [done|set_solver]|done|by left|done]. Qed.
Lemma fastOK_rows rows t t1 e : meta t1 = meta t →
  (∃ added, tbl t1 = tbl t ++ added ∧ ∀ r, r ∈ added → r ∈ rows) →
  (NoDup (keys pk (tbl t)) → NoDup (keys pk (tbl t1))) → fastOK rows t t1 (Some e).
Proof. intros. split; [done|done|by left|done]. Qed.
Lemma fastOK_trans rows t t1 t2 e1 e2 : fastOK rows t t1 e1 → fastOK rows t1 t2 e2 → fastOK rows t t2 e2.
Proof.
  intros [(a1 & A1 & A2) B1 C1 D1] [(a2 & A3 & A4) B2 C2 D2]. split; [|by auto| |done].
  - exists (a1 ++ a2). rewrite A3, A1, app_assoc. split; [done|]. set_solver.
  - destruct C1 as [C1|(H1 & (n & H2) & H3)], C2 as [C2|(H4 & (m & H5) & H6)].
    + left. congruence.
    + right. rewrite <- C1. split; [done|]. split; [eauto|done].
    + right. split; [done|]. split; [exists n; congruence|]. intros r Hr. rewrite A3, keys_app, elem_of_app. left. by apply H3.
    + rewrite H2, lookup_insert_eq in H4. done.
Qed.
(** Recording after all rows. *)
Lemma fastOK_record rows t t1 o n t2 err err' :
  meta t !! key = None → meta t1 = meta t → (∃ added, tbl t1 = tbl t ++ added ∧ ∀ r, r ∈ added → r ∈ rows) →
  (NoDup (keys pk (tbl t)) → NoDup (keys pk (tbl t1))) → (∀ r, r ∈ rows → pk r ∈ keys pk (tbl t1)) →
  recordEntryInDB metaViolation o t1 key n = (t2, err) → (err' = None → err = None) → fastOK rows t t2 err'.
Proof.
  intros Hno Hm Hadd Hnd Hall Hrec Herr. apply recordEntry_spec in Hrec as [[-> He]| ->]; [| |by rewrite Hm].
  - split; [done|done|by left|]. intros ->%Herr. done.
  - split; cbn; [done|done| |rewrite lookup_insert_eq; eauto]. right. rewrite Hm. split; [done|]. split; [eauto|done].
Qed.

Lemma copyBulk_spec o t rows t' n err : copyBulk pk pkViolation o t rows = (t', n, err) →
  meta t' = meta t ∧ (∃ added, tbl t' = tbl t ++ added ∧ ∀ r, r ∈ added → r ∈ rows) ∧
  (NoDup (keys pk (tbl t)) → NoDup (keys pk (tbl t'))) ∧ (err = None → tbl t' = tbl t ++ rows).
Proof.
  assert (∀ mask, ∃ added, insertFresh pk (masked mask rows) (tbl t) = tbl t ++ added ∧ ∀ r, r ∈ added → r ∈ rows) as Hins.
  { intros mask. destruct (insertFresh_app (masked mask rows) (tbl t)) as (added & -> & Hin). exists added.
    split; [done|]. intros r Hr. by eapply masked_elem, Hin. }
  unfold copyBulk. destruct o as [mask|mask e]; [case_decide|]; intros [= <- <- <-]; cbn;
    (split; [done|]); (split; [eauto|]); (split; [eauto using insertFresh_NoDup|done]).
Qed.
Lemma core_fast env file content t t' n err :
  ShouldUseFastPath args = true → (file = None ∨ file = Some content) → core env file t = (t', n, err) →
  fastOK (copyRows content) t t' err.
Proof.
  intros Hfast Hfile. unfold copyBatchCore. rewrite Hfast. destruct (openErr env); [intros [= <- <- <-]; apply fastOK_fail|].
  destruct Hfile as [-> | ->]; [intros [= <- <- <-]; apply fastOK_fail|].
  destruct (schemaErr env); [intros [= <- <- <-]; apply fastOK_fail|].
  destruct (isBatchAlreadyImported (checkErr env) t key) as [e|[[] m]] eqn:Hck; [intros [= <- <- <-]; apply fastOK_fail| |];
    apply checked_spec in Hck; [intros [= <- <- <-]; by apply fastOK_there|].
  destruct (copyBulk pk pkViolation _ t _) as [[t1 n1] err1] eqn:Hcp. apply copyBulk_spec in Hcp as (Hm & Hadd & Hnd & Hok).
  destruct err1 as [e|]; [intros [= <- <- <-]; by apply fastOK_rows|]. specialize (Hok eq_refl).
  destruct (recordEntryInDB _ _ _ _ _) as [t2 err2] eqn:Hrec. intros Heq.
  assert (t' = t2 ∧ (err = None → err2 = None)) as [-> Herr].
  { destruct err2 as [e|]; injection Heq as <- <- <-; done. }
  eapply fastOK_record; [exact Hck|exact Hm|exact Hadd|exact Hnd| |exact Hrec|exact Herr].
  intros r Hr. rewrite Hok, keys_app, elem_of_app. right. by apply list_elem_of_fmap_2.
Qed.

(** *** Recovery: row by row *)
Definition singleLine (copyHeader line : string) : string :=
  if decide (copyHeader = "") then line else copyHeader +:+ NLs +:+ line.
(** What the environment reports for a row is not the violation of the primary key:
    that is the target's own answer. *)
Definition honestRow (o : writeOutcome) : Prop :=
  match o with WriteOk => True
  | WriteFail e | WriteUnknown e => checkIfPrimaryKeyViolationError (Some e) (PKConstraintNames args) = false end.
Definition linesOf (ls : list (string * Z)) (last : string * Z) : list string :=
  ls.*1 ++ (if decide (last.1 = "") then [] else [last.1]).
Record rowsDone (rowOf : string → string) (lines : list string) (t t' : Target) (err : option goError) : Prop := mkRowsDone {
  rd_meta : meta t' = meta t;
  rd_rows : ∃ added, tbl t' = tbl t ++ added ∧ ∀ r, r ∈ added → r ∈ map rowOf lines;
  rd_nodup : NoDup (keys pk (tbl t'));
  rd_all : err = None → ∀ line, line ∈ lines → pk (rowOf line) ∈ keys pk (tbl t') }.
Lemma rowsDone_stop rowOf lines t err : NoDup (keys pk (tbl t)) → (err = None → lines = []) → rowsDone rowOf lines t t err.
Proof.
  intros Hnd He. split; [done|exists []; rewrite app_nil_r; split; [done|set_solver]|done|]. intros ->%He. set_solver.
Qed.
Lemma rowsDone_cons rowOf line lines t t1 t' err e :
  rowsDone rowOf [line] t t1 e → (err = None → e = None) → rowsDone rowOf lines t1 t' err → rowsDone rowOf (line :: lines) t t' err.
Proof.
  intros [M1 (a1 & A1 & B1) N1 D1] He [M2 (a2 & A2 & B2) N2 D2]. split; [congruence| |done|].
  - exists (a1 ++ a2). rewrite A2, A1, app_assoc. split; [done|]. cbn in *. set_solver.
  - intros Herr l [-> |Hl]%elem_of_cons; [|by apply D2]. rewrite A2, keys_app, elem_of_app. left.
    apply D1; [by apply He|set_solver].
Qed.
(** One row: written, or there already, or an error that is not taken for that. *)
Lemma copyOne_spec rowOf line copyHeader o t t1 n e :
  NoDup (keys pk (tbl t)) → honestRow o → copyRows (singleLine copyHeader line) = [rowOf line] →
  copyAtomic pk pkViolation o t (copyRows (singleLine copyHeader line)) = (t1, n, e) →
  rowsDone rowOf [line] t t1 (if checkIfPrimaryKeyViolationError e (PKConstraintNames args) then None else e).
Proof.
  intros Hnd Ho Hrow. rewrite Hrow. intros (Hm & Hch & Hok & Herr)%copyAtomic_spec. split; [done| | |].
  - destruct Hch as [-> |[_ ->]]; [exists []; rewrite app_nil_r; split; [done|set_solver]|exists [rowOf line]; cbn; done].
  - destruct Hch as [-> |[Hnd' Ht]]; [done|by rewrite Ht].
  - intros Hnone l ->%list_elem_of_singleton. destruct e as [e|].
    + destruct (Herr e eq_refl) as [(-> & -> & Hdup)|He].
      * destruct (decide (pk (rowOf line) ∈ keys pk (tbl t))) as [|Hno]; [done|]. destruct Hdup.
        rewrite keys_app. apply NoDup_app. split; [done|]. split; [|apply NoDup_singleton].
        intros x Hx. cbn. rewrite list_elem_of_singleton. by intros ->.
      * destruct (checkIfPrimaryKeyViolationError (Some e) _) eqn:Hck; [|done].
        destruct He as [-> | ->]; cbn [honestRow] in Ho; congruence.
    + destruct (Hok eq_refl) as (Ht & _). rewrite Ht, keys_app, elem_of_app. right. cbn. by left.
Qed.
Lemma recoverRows_spec `{HL : !DataFileLaws D} rowOf copyHeader fuel outs df t a i ls last t' n err :
  Reads df ls last → NoDup (keys pk (tbl t)) → Forall honestRow outs →
  (∀ line, line ∈ linesOf ls last → copyRows (singleLine copyHeader line) = [rowOf line]) →
  recoverRows copyRows pk pkViolation describe args path fuel copyHeader outs df t a i = Some (t', n, err) →
  rowsDone rowOf (linesOf ls last) t t' err.
Proof.
  revert outs df t a i ls last. induction fuel as [|fuel IH]; intros outs df t a i ls last HR Hnd Houts Hrow; cbn [recoverRows]; [done|].
  assert (honestRow (default WriteOk (head outs)) ∧ Forall honestRow (tail outs)) as [Ho Houts'].
  { destruct outs; [done|]. by inversion Houts. }
  destruct (Reads_inv _ _ _ HR) as [(-> & df' & HN)|(line & m & ls' & df' & -> & HN & HR')]; rewrite HN.
  - destruct last as [line m]; unfold linesOf in *; cbn [fst snd app fmap list_fmap] in *. rewrite bool_decide_true by done.
    destruct (decide (line = "")) as [Hl|Hl]; [intros [= <- <- <-]; by apply rowsDone_stop|].
    fold (singleLine copyHeader line). specialize (Hrow line ltac:(set_solver)).
    destruct (copyAtomic _ _ _ _ _) as [[t1 res] e] eqn:Hcp. pose proof (copyOne_spec _ _ _ _ _ _ _ _ Hnd Ho Hrow Hcp) as H1.
    destruct e as [e|]; [|by intros [= <- <- <-]].
    destruct (checkIfPrimaryKeyViolationError (Some e) _); [|intros [= <- <- <-]].
    + intros H2. destruct (Next_end _ _ _ _ HN) as (m' & _ & HR2). eapply rowsDone_cons; [exact H1|done|].
      eapply (IH _ _ _ _ _ [] ("", m')) in H2; [exact H2|exact HR2|apply H1|done|]. unfold linesOf. cbn. set_solver.
    + by destruct H1 as [? ? ? ?]; split.
  - destruct (Next_bytes _ _ _ _ HN) as (_ & _ & Hl). cbn [negb]. rewrite decide_False by done.
    fold (singleLine copyHeader line). change (linesOf ((line, m) :: ls') last) with (line :: linesOf ls' last) in *.
    pose proof (Hrow line ltac:(set_solver)) as Hrow1.
    destruct (copyAtomic _ _ _ _ _) as [[t1 res] e] eqn:Hcp. pose proof (copyOne_spec _ _ _ _ _ _ _ _ Hnd Ho Hrow1 Hcp) as H1.
    assert (∀ a i, recoverRows copyRows pk pkViolation describe args path fuel copyHeader (tail outs) df' t1 a i = Some (t', n, err) →
              rowsDone rowOf (linesOf ls' last) t1 t' err) as Hgo.
    { intros a' i' H2. eapply IH; [exact HR'|apply H1|done| |exact H2]. set_solver. }
    destruct e as [e|].
    + destruct (checkIfPrimaryKeyViolationError (Some e) _); [|intros [= <- <- <-]].
      * intros H2%Hgo. by eapply rowsDone_cons; [exact H1|done|].
      * eapply rowsDone_cons; [exact H1|by intros [=]|]. apply rowsDone_stop; [apply H1|done].
    + rewrite bool_decide_false by done. intros H2%Hgo. by eapply rowsDone_cons; [exact H1|done|].
Qed.
(** What recovery relies on: the batch's reader yields its header, if it has one, and
    then exactly the rows COPY would read from the whole file, a row a line. *)
Definition Readable (content : string) : Prop :=
  ∃ (rowOf : string → string) (hdr ls : list (string * Z)) (last : string * Z),
    Reads (openBatch content) (hdr ++ ls) last ∧ length hdr = (if args_HasHeader args then 1%nat else 0%nat) ∧
    copyRows content = map rowOf (linesOf ls last) ∧
    ∀ line, line ∈ linesOf ls last → copyRows (singleLine (match hdr with h :: _ => h.1 | [] => "" end) line) = [rowOf line].
Lemma getHeader_ok df hdr ls last :
  Reads df (hdr ++ ls) last → length hdr = (if args_HasHeader args then 1%nat else 0%nat) →
  ∃ df', getHeader args df = Ok (match hdr with h :: _ => h.1 | [] => "" end, df') ∧ Reads df' ls last.
Proof.
  unfold getHeader. destruct (args_HasHeader args), hdr as [|[h n] [|? ?]]; try done; cbn [app length fst]; intros HR _; [|by exists df].
  apply Reads_inv in HR as [(? & _)|(line & m & ls' & df' & [= <- <- <-] & HN & HR)]; [done|]. rewrite HN. eauto.
Qed.
Lemma recover_fast `{HL : !DataFileLaws D} fuel env file content t t' n err :
  (file = None ∨ file = Some content) → Readable content → NoDup (keys pk (tbl t)) → Forall honestRow (rowOuts env) →
  recover fuel env file t = Some (Ok (t', n, err)) → fastOK (copyRows content) t t' err.
Proof.
  intros Hfile (rowOf & hdr & ls & last & HR & Hh & Hcopy & Hrow) Hnd Houts. unfold importBatchFastRecover.
  destruct (isBatchAlreadyImported (recheckErr env) t key) as [e|[[] m]] eqn:Hck; [intros [= <- <- <-]; apply fastOK_fail| |];
    apply checked_spec in Hck; [intros [= <- <- <-]; by apply fastOK_there|].
  destruct (reopenErr env); [intros [= <- <- <-]; apply fastOK_fail|].
  destruct Hfile as [-> | ->]; [intros [= <- <- <-]; apply fastOK_fail|].
  destruct (getHeader_ok _ _ _ _ HR Hh) as (df' & -> & HR'). intros H. apply bind_Some in H as ([[t1 total] err1] & Hrows & H).
  eapply recoverRows_spec in Hrows as [Hm Hadd Hnd' Hall]; [|exact HR'|done|done|exact Hrow]. rewrite <- Hcopy in Hadd.
  destruct err1 as [e|]; [injection H as <- <- <-; by apply fastOK_rows|].
  destruct (recordEntryInDB _ _ _ _ _) as [t2 err2] eqn:Hrec. assert (t' = t2 ∧ (err = None → err2 = None)) as [-> Herr].
  { destruct err2; injection H as <- <- <-; done. }
  eapply fastOK_record; [exact Hck|exact Hm|exact Hadd|done| |exact Hrec|exact Herr].
  intros r. rewrite Hcopy. intros (line & -> & Hline)%list_elem_of_fmap. by apply Hall.
Qed.

(** *** One attempt, either path *)
Lemma import_fast `{HL : !DataFileLaws D} fuel env file content cand t t' n err partial :
  ShouldUseFastPath args = true → (file = None ∨ file = Some content) → Readable content → NoDup (keys pk (tbl t)) →
  Forall honestRow (rowOuts env) →
  import fuel env file cand t = Some (Ok (t', n, err, partial)) → fastOK (copyRows content) t t' err.
Proof.
  intros Hfast Hfile Hread Hnd Hrow. unfold ImportBatch. rewrite Hfast.
  destruct (connErr env); [intros [= <- <- <- <-]; apply fastOK_fail|].
  intros H. apply bind_Some in H as (r & Hr & [= H]). apply bind_Ok in H as ([[t2 n2] e2] & -> & [= <- <- <- <-]).
  destruct cand; [by eapply recover_fast|]. unfold importBatchFast in Hr.
  destruct (core env file t) as [[t1 n1] err1] eqn:Hcore. apply (core_fast _ _ _ _ _ _ _ Hfast Hfile) in Hcore.
  destruct (checkIfPrimaryKeyViolationError _ _); [|by injection Hr as <- <- <-].
  eapply fastOK_trans; [exact Hcore|]. eapply recover_fast; [done|done| |done|exact Hr]. by apply Hcore.
Qed.
Lemma import_normal fuel env file cand t t' n err partial :
  ShouldUseFastPath args = false → import fuel env file cand t = Some (Ok (t', n, err, partial)) →
  (t' = t ∧ (err = None → is_Some (meta t !! key))) ∨
  meta t !! key = None ∧ ∃ content m, file = Some content ∧ t' = mkTarget (tbl t ++ copyRows content) (<[key := m]> (meta t)).
Proof.
  intros Hfast. unfold ImportBatch. rewrite Hfast. destruct (connErr env); [intros [= <- <- <- <-]; by left|].
  destruct (txn env file t) as [[t1 n1] err1] eqn:Htxn. intros [= <- <- <- <-]. by eapply txn_spec.
Qed.

(** *** An attempt comes to an end *)
Lemma recoverRows_total `{HL : !DataFileLaws D} copyHeader fuel outs df t a i ls last :
  Reads df ls last → (length ls + 2 ≤ fuel)%nat →
  is_Some (recoverRows copyRows pk pkViolation describe args path fuel copyHeader outs df t a i).
Proof.
  revert outs df t a i ls last. induction fuel as [|fuel IH]; intros outs df t a i ls last HR Hf; [lia|]. cbn [recoverRows].
  destruct (Reads_inv _ _ _ HR) as [(-> & df' & HN)|(line & m & ls' & df' & -> & HN & HR')]; rewrite HN.
  - rewrite bool_decide_true by done. case_decide; [eauto|]. destruct (copyAtomic _ _ _ _ _) as [[t1 res] [e|]]; [|eauto].
    destruct (checkIfPrimaryKeyViolationError _ _); [|eauto]. destruct (Next_end _ _ _ _ HN) as (m' & _ & HR2).
    destruct fuel as [|fuel]; [cbn in Hf; lia|]. cbn [recoverRows].
    destruct (Reads_inv _ _ _ HR2) as [(_ & df2 & HN2)|(? & ? & ? & ? & ? & _)]; [|done]. rewrite HN2. cbn [fst].
    rewrite decide_True, bool_decide_true by done. eauto.
  - cbn [length] in Hf. rewrite bool_decide_false by done.
    case_decide; [eapply IH; [done|lia]|]. destruct (copyAtomic _ _ _ _ _) as [[t1 res] [e|]]; [|eapply IH; [done|lia]].
    destruct (checkIfPrimaryKeyViolationError _ _); [eapply IH; [done|lia]|eauto].
Qed.
Lemma import_total `{HL : !DataFileLaws D} fuel env file content cand t :
  (file = None ∨ file = Some content) → Readable content →
  (∀ ls last, Reads (openBatch content) ls last → length ls + 2 ≤ fuel)%nat →
  ∃ r, import fuel env file cand t = Some (Ok r).
Proof.
  intros Hfile (rowOf & hdr & ls & last & HR & Hh & _) Hf. pose proof (Hf _ _ HR) as Hlen. rewrite length_app in Hlen.
  assert (∀ t, ∃ r, recover fuel env file t = Some (Ok r)) as Hrec.
  { intros t0. unfold importBatchFastRecover. destruct (isBatchAlreadyImported _ _ _) as [|[[] ?]]; [eauto..|].
    destruct (reopenErr env); [eauto|]. destruct Hfile as [-> | ->]; [eauto|].
    destruct (getHeader_ok _ _ _ _ HR Hh) as (df' & -> & HR').
    destruct (recoverRows_total (match hdr with h :: _ => h.1 | [] => "" end) fuel (rowOuts env) df' t0 0 0 ls last HR' ltac:(lia))
      as [[[t1 total] err1] ->]. cbn [mbind option_bind]. destruct err1; [eauto|].
    destruct (recordEntryInDB _ _ _ _ _) as [? [?|]]; eauto. }
  unfold ImportBatch. destruct (connErr env); [eauto|]. destruct (ShouldUseFastPath args).
  - destruct cand; [|unfold importBatchFast; destruct (core env file t) as [[t1 n1] err1]; destruct (checkIfPrimaryKeyViolationError _ _)].
    + destruct (Hrec t) as [[[t1 n1] e1] ->]. cbn. eauto.
    + destruct (Hrec t1) as [[[t2 n2] e2] ->]. cbn. eauto.
    + cbn. eauto.
  - destruct (txn env file t) as [[t1 n1] err1]. eauto.
Qed.

(** *** What an attempt reports *)
Lemma record_count o t n t' m : recordEntryInDB metaViolation o t key n = (t', None) → meta t' !! key = Some m → meta t !! key = None → m = n.
Proof.
  unfold recordEntryInDB. intros H Hm Hno. rewrite Hno in H. destruct o; [|done..]. injection H as <-. cbn in Hm.
  rewrite lookup_insert_eq in Hm. by injection Hm.
Qed.
Lemma record_done o t n t' : recordEntryInDB metaViolation o t key n = (t', None) → meta t !! key = None → meta t' !! key = Some n.
Proof.
  intros H Hno. pose proof H as H'. apply recordEntry_spec in H as [[_ ?]| ->]; [done| |done]. cbn. by rewrite lookup_insert_eq.
Qed.
Lemma core_count env file t t' n : core env file t = (t', n, None) → meta t' !! key = Some n.
Proof.
  unfold copyBatchCore. destruct (openErr env); [done|]. destruct file as [content|]; [|done]. destruct (schemaErr env); [done|].
  unfold isBatchAlreadyImported. destruct (checkErr env); [done|]. destruct (meta t !! key) as [m|] eqn:Hm; [by intros [= <- <-]|].
  destruct (if ShouldUseFastPath args then _ else _) as [[t1 n1] err1] eqn:Hcp.
  assert (meta t1 = meta t) as Hm1.
  { destruct (ShouldUseFastPath args); [by apply copyBulk_spec in Hcp as [? _]|]. destruct (copyErr env); by injection Hcp as <- _ _. }
  destruct err1; [done|]. destruct (recordEntryInDB _ _ _ _ _) as [t2 [e|]] eqn:Hrec; [done|]. intros [= <- <-].
  eapply record_done; [exact Hrec|congruence].
Qed.
Lemma recoverRows_meta h fuel outs df t a i t' n err :
  recoverRows copyRows pk pkViolation describe args path fuel h outs df t a i = Some (t', n, err) → meta t' = meta t.
Proof.
  revert outs df t a i. induction fuel as [|fuel IH]; intros outs df t a i; cbn [recoverRows]; [done|].
  destruct (NextLine df) as [[[line ?] re] df']. destruct re as [[|msg]|]; [|by intros [= <-]|];
    [rewrite bool_decide_true by done|rewrite bool_decide_false by done]; (case_decide; [first [by intros [= <-]|by apply IH]|]);
    destruct (copyAtomic _ _ _ _ _) as [[t2 res] [e|]] eqn:Hcp; apply copyAtomic_spec in Hcp as (Hm & _); rewrite <- Hm;
    try (destruct (checkIfPrimaryKeyViolationError _ _); [apply IH|]); first [by intros [= <-]|apply IH].
Qed.
Lemma import_count fuel env file cand t t' n partial :
  import fuel env file cand t = Some (Ok (t', n, None, partial)) → meta t' !! key = Some n.
Proof.
  assert (∀ t t' n, recover fuel env file t = Some (Ok (t', n, None)) → meta t' !! key = Some n) as Hrecover.
  { clear t t' n. intros t t' n. unfold importBatchFastRecover, isBatchAlreadyImported. destruct (recheckErr env); [done|].
    destruct (meta t !! key) as [m|] eqn:Hm; [by intros [= <- <-]|]. destruct (reopenErr env); [done|]. destruct file as [content|]; [|done].
    destruct (getHeader args (openBatch content)) as [[h df]| |]; [|done..]. intros ([[t1 total] [e|]] & Hrows & H)%bind_Some; [done|].
    destruct (recordEntryInDB _ _ _ _ _) as [t2 [e|]] eqn:Hrec; [done|]. injection H as <- <-. eapply record_done; [exact Hrec|].
    rewrite <- Hm. by erewrite recoverRows_meta. }
  unfold ImportBatch. destruct (connErr env); [done|]. destruct (ShouldUseFastPath args) eqn:Hfast.
  - intros (r & Hr & [= H])%bind_Some. apply bind_Ok in H as ([[t2 n2] e2] & -> & [= <- <- -> _]).
    destruct cand; [by eapply Hrecover|]. unfold importBatchFast in Hr. destruct (core env file t) as [[t1 n1] err1] eqn:Hcore.
    destruct (checkIfPrimaryKeyViolationError _ _); [by eapply Hrecover|]. injection Hr as <- <- ->. by eapply core_count.
  - unfold importBatchTxn. destruct (beginErr env); [done|]. destruct (core env file t) as [[t1 n1] [e|]] eqn:Hcore.
    + destruct (rollbackErr env); done.
    + destruct (commitOut env); intros [= <- <- _]; by eapply core_count.
Qed.
(** C36: A transactional attempt is all or nothing: the target is as it was, or has all
    rows of the batch together with the batch's record, made once.  Success means that
    the record is there, with the count reported; an error means that nothing was
    written, unless it is the error of a COMMIT whose answer was lost. *)
Theorem transactional_attempt fuel env file cand t t' n err partial :
  ShouldUseFastPath args = false → import fuel env file cand t = Some (Ok (t', n, err, partial)) →
  partial = false ∧
  (t' = t ∨ meta t !! key = None ∧ ∃ content m, file = Some content ∧ t' = mkTarget (tbl t ++ copyRows content) (<[key := m]> (meta t))) ∧
  (err = None → meta t' !! key = Some n) ∧
  (∀ e, err = Some e → t' ≠ t → n = 0 ∧ ∃ ty, asImportBatchError e = Some (FLOW_COPY_NORMAL, STEP_COMMIT_TXN, ty)).
Proof.
  intros Hfast Himp. split_and!.
  - unfold ImportBatch in Himp. rewrite Hfast in Himp. destruct (connErr env); [by injection Himp|].
    destruct (txn env file t) as [[? ?] ?]. by injection Himp.
  - apply import_normal in Himp as [[-> _]|?]; [by left|by right|done].
  - intros ->. by eapply import_count.
  - intros e -> Hne. unfold ImportBatch in Himp. rewrite Hfast in Himp. destruct (connErr env); [by injection Himp as <-|].
    destruct (txn env file t) as [[t1 n1] err1] eqn:Htxn. injection Himp as <- <- -> <-. unfold importBatchTxn in Htxn.
    destruct (beginErr env); [by injection Htxn as <-|]. destruct (core env file t) as [[t2 n2] [e2|]].
    { destruct (rollbackErr env); by injection Htxn as <-. }
    destruct (commitOut env) as [|e1|e1]; [done|by injection Htxn as <-|]. injection Htxn as <- <- <-. split; [done|].
    unfold newImportBatchErrorPgYb. destruct (asPgError e1); cbn; eauto.
Qed.
End attempts.

(** ** The retry loop comes to an end *)
Section retries.
Context (COPY_MAX_RETRY_COUNT MAX_SLEEP_SECOND : Z) (envs : nat → importer).
Context (Hreturns : ∀ k file cand t, ∃ r, envs k file cand t = Some (Ok r)).
(** Why a worker stopped trying. *)
Definition gaveUp (w : worker) : Prop :=
  lastErr w = None ∨ IsNonRetryableCopyError (lastErr w) = true ∨ COPY_MAX_RETRY_COUNT ≤ attempt w.
Lemma loop_returns fuel k dir t w :
  ended w = false → 0 ≤ attempt w ≤ Z.max 0 COPY_MAX_RETRY_COUNT → sleepIntervalSec w ≤ Z.max 0 MAX_SLEEP_SECOND →
  (Z.to_nat (COPY_MAX_RETRY_COUNT - attempt w) + 2 ≤ fuel)%nat →
  ∃ t' w', importBatch_loop COPY_MAX_RETRY_COUNT MAX_SLEEP_SECOND fuel envs k dir t w = Some (Ok (t', w')) ∧
    ended w' = true ∧ attempt w' ≤ Z.max 0 COPY_MAX_RETRY_COUNT ∧ sleepIntervalSec w' ≤ Z.max 0 MAX_SLEEP_SECOND ∧ gaveUp w'.
Proof using Hreturns.
  revert k t w. induction fuel as [|fuel IH]; intros k t w He Ha Hs Hf; [lia|]. cbn [importBatch_loop]. rewrite He.
  assert (∀ t' w', ended w' = true → attempt w' ≤ Z.max 0 COPY_MAX_RETRY_COUNT → sleepIntervalSec w' ≤ Z.max 0 MAX_SLEEP_SECOND → gaveUp w' →
    ∃ t2 w2, importBatch_loop COPY_MAX_RETRY_COUNT MAX_SLEEP_SECOND fuel envs (S k) dir t' w' = Some (Ok (t2, w2)) ∧
      ended w2 = true ∧ attempt w2 ≤ Z.max 0 COPY_MAX_RETRY_COUNT ∧ sleepIntervalSec w2 ≤ Z.max 0 MAX_SLEEP_SECOND ∧ gaveUp w2) as Hdone.
  { intros t' w' H1 H2 H3 H4. destruct fuel as [|fuel']; [lia|]. cbn [importBatch_loop]. rewrite H1. eauto 10. }
  unfold importBatch_turn. rewrite He. destruct (attempt w <? COPY_MAX_RETRY_COUNT) eqn:Hlt; cbn [negb].
  - destruct (Hreturns k (dir !! FilePath (wbatch w)) (recoveryBatch w || (0 <? attempt w)) t) as ([[[t1 n] err] partial] & ->).
    cbn [mbind option_bind result_bind]. destruct (bool_decide (err = None) || IsNonRetryableCopyError err) eqn:Hstop.
    + apply Hdone; cbn; [done|lia|done|]. apply orb_true_iff in Hstop as [->%bool_decide_eq_true| ?]; [by left|by right; left].
    + apply IH; cbn; [done|lia|lia|lia].
  - cbn [mbind option_bind]. apply Hdone; cbn; [done|lia|done|]. right. right. cbn. lia.
Qed.
(** When every attempt comes to an end, so does the work on a batch: after at most
    [COPY_MAX_RETRY_COUNT] attempts the loop is left with success, with an error that
    is not to be retried, or with the attempts used up; no pause between attempts is
    longer than [MAX_SLEEP_SECOND]. *)
Theorem importBatch_returns (dir dir' : Dir) (batch : Batch) (w : worker) (t : Target) :
  importBatch_begin dir batch = Ok (dir', w) → RecordCount batch ≠ 0 →
  ∃ t' w', importBatch_loop COPY_MAX_RETRY_COUNT MAX_SLEEP_SECOND (Z.to_nat COPY_MAX_RETRY_COUNT + 2) envs 0 dir' t w = Some (Ok (t', w')) ∧
    ended w' = true ∧ attempt w' ≤ Z.max 0 COPY_MAX_RETRY_COUNT ∧ sleepIntervalSec w' ≤ Z.max 0 MAX_SLEEP_SECOND ∧ gaveUp w'.
Proof using Hreturns.
  unfold importBatch_begin. intros Hb Hn. rewrite (proj2 (Z.eqb_neq _ _) Hn) in Hb.
  assert (ended w = false ∧ attempt w = 0 ∧ sleepIntervalSec w = 0) as (H1 & H2 & H3).
  { destruct (IsInterrupted batch); [by injection Hb as _ <-|]. destruct (MarkInProgress dir batch) as [[d b]| |]; [|done..].
    by injection Hb as _ <-. }
  apply loop_returns; [done|lia|lia|]. rewrite H2, Z.sub_0_r. lia.
Qed.
End retries.

(** ** Recovery of a batch of a SQL script *)
(** Nothing goes wrong. *)
Definition quiet : attemptEnv :=
  mkEnv None None None None None None WriteOk None Committed (BulkRun []) None None [] WriteOk.
(** Row-by-row recovery loses rows of SQL scripts: the batch's reader starts outside
    every COPY block, since a batch file holds rows only, and so passes over all lines
    but the last one, which no newline ends.  The last row is written, the batch is
    recorded as imported, and the other rows are gone. *)
Theorem sql_recovery_loses_rows (copyRows : string → list string) (pk : string → string) (pkViolation metaViolation : goError)
    (describe : string → string) (args : ImportBatchArgs) (key : MetaKey) (path : string)
    (fuel : nat) (lines : list string) (last : string) (t : Target) :
  args_HasHeader args = false →
  Forall (λ l, oneLine l ∧ reCopy (l +:+ NLs) = false) lines → oneLine last → last ≠ "" → copyRows last = [last] →
  meta t !! key = None → NoDup (keys pk (tbl t ++ [last])) → (0 < fuel)%nat →
  importBatchFastRecover copyRows pk pkViolation metaViolation describe args key path (λ c, newSqlDataFile c 0)
    fuel quiet (Some (Join NLs (lines ++ [last]))) t
  = Some (Ok (mkTarget (tbl t ++ [last]) (<[key := 1]> (meta t)), 1, None)).
Proof.
  intros Hh Hlines Hlast Hne Hcopy Hno Hnd Hfuel. unfold importBatchFastRecover, isBatchAlreadyImported. cbn [recheckErr quiet].
  rewrite Hno. cbn [reopenErr quiet]. unfold getHeader. rewrite Hh, Join_written.
  destruct fuel as [|fuel]; [lia|]. cbn [recoverRows].
  destruct (Reads_inv _ _ _ (sql_Reads_outside lines last Hlines Hlast)) as [(_ & df' & HN)|(? & ? & ? & ? & ? & _)]; [|done].
  rewrite HN. cbn [fst]. rewrite bool_decide_true, decide_False by done. rewrite decide_True by done.
  unfold copyAtomic. cbn [rowOuts quiet head default]. rewrite Hcopy, decide_True by done. cbn [length mbind option_bind].
  unfold recordEntryInDB. cbn [meta rerecordOut quiet]. by rewrite Hno.
Qed.

(** ** Concrete attempts *)
(** A COPY that reads a file line by line, after a header if there is one. *)
Fixpoint readAll `{DataFile D} (fuel : nat) (df : D) : list string :=
  match fuel with
  | O => []
  | S fuel => match NextLine df with
              | ((line, _, None), df) => line :: readAll fuel df
              | ((line, _, Some _), _) => if decide (line = "") then [] else [line]
              end
  end.
Definition sampleCopyRows (hasHeader : bool) (content : string) : list string :=
  let lines := readAll (S (String.length content)) (newTextDataFile content) in if hasHeader then tail lines else lines.
Definition samplePkViolation : goError := mkError ("duplicate key value " +:+ violates "t_pkey") (Some (mkPgError "23505" "")) None.
Definition sampleMetaViolation : goError := mkError ("duplicate key value " +:+ violates "batches_pkey") (Some (mkPgError "23505" "")) None.
Definition sampleKey : MetaKey := ("u", "t_data.sql", 1, "public", "t").
Definition sampleImport (args : ImportBatchArgs) (env : attemptEnv) (file : string) (cand : bool) (t : Target) :=
  ImportBatch (sampleCopyRows (args_HasHeader args)) (λ r, r) samplePkViolation sampleMetaViolation (λ p, p) args sampleKey "b" newTextDataFile
    10 env (Some file) cand t.
Definition normalArgs : ImportBatchArgs := mkArgs ["id"] ["t_pkey"] "ERROR" true.
Definition fastArgs : ImportBatchArgs := mkArgs ["id"] ["t_pkey"] PRIMARY_KEY_CONFLICT_ACTION_IGNORE true.
Definition lostCommit : attemptEnv :=
  mkEnv None None None None None None WriteOk None (CommitUnknown (mkError "unexpected EOF" None None)) (BulkRun []) None None [] WriteOk.
Definition sampleBatch : string := "id" +:+ NLs +:+ "1" +:+ NLs +:+ "2".

(** The table, the count and whether the attempt succeeded, after attempts in the
    environments given. *)
Fixpoint sampleAttempts (args : ImportBatchArgs) (envs : list attemptEnv) (cand : bool) (t : Target) : list (list string * Z * bool) :=
  match envs with
  | [] => []
  | env :: envs =>
      match sampleImport args env sampleBatch cand t with
      | Some (Ok (t, n, err, _)) => (tbl t, n, match err with None => true | _ => false end) :: sampleAttempts args envs true t
      | _ => []
      end
  end.
(** The rows are in, yet the attempt fails; the next attempt finds the record. *)
Example lost_commit_then_retry :
  sampleAttempts normalArgs [lostCommit; quiet] false (mkTarget ["0"] ∅) = [(["0"; "1"; "2"], 0, false); (["0"; "1"; "2"], 2, true)].
Proof. vm_compute. reflexivity. Qed.
(** Existing rows: the fast COPY fails, recovery passes over the row that is there. *)
Example fast_path_recovers :
  sampleAttempts fastArgs [quiet] false (mkTarget ["2"] ∅) = [(["2"; "1"], 2, true)].
Proof. vm_compute. reflexivity. Qed.

Definition sampleAfter : Target := mkTarget ["0"; "1"; "2"] {[sampleKey := 2]}.
Lemma transactional_attempt_witness :
  sampleImport normalArgs quiet sampleBatch false (mkTarget ["0"] ∅) = Some (Ok (sampleAfter, 2, None, false)) ∧
  meta sampleAfter !! sampleKey = Some 2.
Proof.
  split; [reflexivity|].
  apply (transactional_attempt (sampleCopyRows true) (λ r, r) samplePkViolation sampleMetaViolation (λ p, p) normalArgs sampleKey "b"
    newTextDataFile 10 quiet (Some sampleBatch) false (mkTarget ["0"] ∅) sampleAfter 2 None false); reflexivity.
Defined.
Definition sampleFailing : importer := λ _ _ t, Some (Ok (t, 0, Some (mkError "connection refused" None None), false)).
Definition sampleFiled : Batch := batchOf (mkInfo 1 2 2 7 7 "C").
Definition sampleDir : Dir := {[FilePath sampleFiled := sampleBatch]}.
Definition sampleBegun : Dir * worker :=
  match importBatch_begin sampleDir sampleFiled with Ok p => p | _ => (∅, mkWorker sampleFiled false 0 0 0 None false true) end.
Lemma importBatch_returns_witness :
  ∃ t w, importBatch_loop 10 60 (Z.to_nat 10 + 2) (λ _, sampleFailing) 0 sampleBegun.1 (mkTarget [] ∅) sampleBegun.2 = Some (Ok (t, w)) ∧
    ended w = true ∧ gaveUp 10 w.
Proof.
  destruct (importBatch_returns 10 60 (λ _, sampleFailing) (λ _ _ _ t, ex_intro _ (t, 0, Some (mkError "connection refused" None None), false) eq_refl)
    sampleDir sampleBegun.1 sampleFiled sampleBegun.2 (mkTarget [] ∅)) as (t & w & H & He & _ & _ & Hg); [vm_compute; reflexivity|discriminate|].
  exists t, w. split; [exact H|by split].
Defined.
Lemma sql_recovery_loses_rows_witness :
  importBatchFastRecover (sampleCopyRows false) (λ r, r) samplePkViolation sampleMetaViolation (λ p, p)
    (mkArgs ["id"] ["t_pkey"] PRIMARY_KEY_CONFLICT_ACTION_IGNORE false) sampleKey "b" (λ c, newSqlDataFile c 0) 10 quiet
    (Some (Join NLs ["1"; "2"; "3"])) (mkTarget [] ∅)
  = Some (Ok (mkTarget ["3"] {[sampleKey := 1]}, 1, None)).
Proof.
  apply (sql_recovery_loses_rows (sampleCopyRows false) (λ r, r) samplePkViolation sampleMetaViolation (λ p, p)
    (mkArgs ["id"] ["t_pkey"] PRIMARY_KEY_CONFLICT_ACTION_IGNORE false) sampleKey "b" 10 ["1"; "2"] "3" (mkTarget [] ∅));
    [reflexivity|by repeat constructor|reflexivity|discriminate|vm_compute; reflexivity|reflexivity|apply NoDup_singleton|lia].
Defined.
End BatchImport.
