(* ===== verification/ImportSystem.v ===== *)
(** * Importing a data file (cmd/importData.go, importDataFileTaskImporter.go)

    The batch producer, any number of workers importing its batches (their attempts
    interleaved), other import tasks writing to the same table, and crashes at any
    point, over the batch files on disk and the target.  What reaches the target,
    transactionally or on the fast path without a transaction. *)
From S2P Require Import Prelude DataFile ImportState BatchProducer BatchImport.
Import DataFile ImportState BatchProducer BatchImport.

Module ImportSystem.
Section system.
Context {D : Type} `{HD : DataFile D}.
(** The file and its batch producer. *)
Context (openFile : D) (openAt : Z → option D) (HasHeader isCSV : bool)
        (MaxBatchSizeInBytes batchSizeInNumRows : Z) (ShouldAbort : bool)
        (transformRow : string → result string) (sortPending : list Batch → list Batch).
(** The target and the batch importer. *)
Context (copyRows : string → list string) (pk : string → string) (pkViolation metaViolation : goError)
        (describe : string → string) (args : ImportBatchArgs) (openBatch : string → D)
        (COPY_MAX_RETRY_COUNT MAX_SLEEP_SECOND : Z) (truncateSplits : bool).
Context (migrationUUID dataFilePath schemaName tableName : string).

Notation fsystem := (system (D:=D)).
Definition keyOf (number : Z) : MetaKey := (migrationUUID, dataFilePath, number, schemaName, tableName).

(** [others]: the rows other tasks have put into the table; the program does not keep them. *)
Record isystem : Type := mkISystem {
  files : fsystem; target : Target; workers : list worker; others : list string }.
Definition initial (t : Target) : isystem := mkISystem BatchProducer.initial t [] (tbl t).

Inductive icommand : Type :=
  | IStart | INext (fuel : nat)                       (* the producer *)
  | IBegin (i : Info)                                 (* a worker takes a batch that is to be imported *)
  | ITurn (k fuel : nat) (env : attemptEnv)           (* an attempt of worker k *)
  | IEnd (k : nat)                                    (* worker k files the outcome *)
  | IOther (rows : list string) (key : MetaKey) (n : Z)
  | ICrash | ICrashWriting (n : Z) (partial : string).

Definition set_files (s : isystem) (f : fsystem) : isystem := mkISystem f (target s) (workers s) (others s).
Definition set_dir (f : fsystem) (d : Dir) : fsystem := mkSystem (Some d) (producer f) (produced f).
Definition importTo (fuel : nat) (env : attemptEnv) (w : worker) : importer := λ file cand t,
  ImportBatch copyRows pk pkViolation metaViolation describe args (keyOf (Number (wbatch w))) (FilePath (wbatch w))
    openBatch fuel env file cand t.
Notation produce := (exec_cmd openFile openAt HasHeader isCSV MaxBatchSizeInBytes batchSizeInNumRows ShouldAbort transformRow sortPending).
Definition exec (s : isystem) (c : icommand) : option isystem :=
  match c with
  | IStart => f ← produce (files s) CStart; Some (set_files s f)
  | INext fuel => f ← produce (files s) (CNext fuel); Some (set_files s f)
  | IBegin i =>
      d ← sdir (files s);
      if decide (validInfo i ∧ (i_state i = "C" ∨ i_state i = "P") ∧ is_Some (d !! infoName i)) then
        match importBatch_begin d (batchOf i) with
        | Ok (d, w) => Some (mkISystem (set_dir (files s) d) (target s) (workers s ++ [w]) (others s))
        | _ => None
        end
      else None
  | ITurn k fuel env =>
      d ← sdir (files s); w ← workers s !! k;
      match importBatch_turn COPY_MAX_RETRY_COUNT MAX_SLEEP_SECOND (importTo fuel env w) d (target s) w with
      | Some (Ok (t, w)) => Some (mkISystem (files s) t (<[k := w]> (workers s)) (others s))
      | _ => None
      end
  | IEnd k =>
      d ← sdir (files s); w ← workers s !! k;
      if ended w then
        match importBatch_end ShouldAbort truncateSplits d w with
        | Ok d => Some (mkISystem (set_dir (files s) d) (target s) (delete k (workers s)) (others s))
        | _ => None
        end
      else None
  | IOther rows key n =>
      Some (mkISystem (files s) (mkTarget (tbl (target s) ++ rows) (<[key := n]> (meta (target s)))) (workers s) (others s ++ rows))
  | ICrash => f ← produce (files s) CCrash; Some (mkISystem f (target s) [] (others s))
  | ICrashWriting n partial =>
      d ← sdir (files s);
      Some (mkISystem (mkSystem (Some (<[tmpFileName n := partial]> d)) None (produced (files s))) (target s) [] (others s))
  end.
(** The environment: see [honestRow]; other tasks record other batches, and on the
    fast path (a table with a primary key) their rows have keys of their own. *)
Definition allowed (s : isystem) (c : icommand) : Prop :=
  match c with
  | ITurn _ _ env => Forall (honestRow args) (rowOuts env)
  | IOther rows key _ => (∀ n, key ≠ keyOf n) ∧
      (ShouldUseFastPath args = true → NoDup (keys pk (tbl (target s) ++ rows)))
  | _ => True
  end.
Definition step (s s' : isystem) : Prop := ∃ c, allowed s c ∧ exec s c = Some s'.
Definition reachable (t0 : Target) (s : isystem) : Prop := rtc step (initial t0) s.
Fixpoint run (cs : list icommand) (s : isystem) : option isystem :=
  match cs with [] => Some s | c :: cs => s ← exec s c; run cs s end.
Fixpoint all_allowed (cs : list icommand) (s : isystem) : Prop :=
  match cs with [] => True | c :: cs => allowed s c ∧ match exec s c with Some s => all_allowed cs s | None => True end end.
Lemma run_reachable t0 cs s s' : reachable t0 s → all_allowed cs s → run cs s = Some s' → reachable t0 s'.
Proof.
  revert s. induction cs as [|c cs IH]; intros s Hs; cbn [run all_allowed]; [by intros _ [= <-]|].
  intros [Hc Hcs] Hrun. destruct (exec s c) as [s1|] eqn:He; [|done]. cbn in Hrun. eapply IH; [|exact Hcs|exact Hrun].
  eapply rtc_r; [exact Hs|]. by exists c.
Qed.

(** ** The invariant *)
Context `{HL : !DataFileLaws D}.
Context (hdr ls : list (string * Z)) (last : string * Z).
Context (Hfile : Reads openFile (hdr ++ ls) last)
        (Hhdr : length hdr = if HasHeader then 1%nat else 0%nat).
Context (HopenAt : ∀ j d, (j ≤ length (hdr ++ ls))%nat →
           openAt (bytesOf (take j (hdr ++ ls))) = Some d → Reads d (drop j (hdr ++ ls)) last).
Context (Htransform : ∀ line row, line ≠ "" → transformRow line = Ok row → row ≠ "").
Context (HsortPending : ∀ l, sortPending l ≡ₚ l).
Context (HfreshFile : GetBytesRead openFile = 0).
Notation FInv := (BatchProducer.Inv isCSV MaxBatchSizeInBytes transformRow hdr ls last).
Notation fstep := (BatchProducer.step openFile openAt HasHeader isCSV MaxBatchSizeInBytes batchSizeInNumRows ShouldAbort transformRow sortPending).
Notation batchContent := (BatchProducer.content isCSV hdr).
(** The rows of the file, as batches hold them. *)
Definition fileRows : list string := processed MaxBatchSizeInBytes transformRow (rows ls last).
(** COPY reads from a batch file the rows written into it. *)
Context (HcopyRows : ∀ recs, (∀ r, r ∈ recs → r ∈ fileRows) → copyRows (batchContent recs) = recs).
Context (Hretry : 0 < COPY_MAX_RETRY_COUNT).

Definition recorded (t : Target) (b : Batch) : Prop := is_Some (meta t !! keyOf (Number b)).
#[global] Instance recorded_dec t b : Decision (recorded t b).
Proof. unfold recorded. apply _. Defined.

(** *** What the producer gives *)
Lemma files_step f f' : FInv f → fstep f f' → FInv f'.
Proof. intros. eapply Inv_step; done. Qed.
Lemma files_numbers f : FInv f → NoDup (map (λ p, Number p.1) (produced f)).
Proof. intros (n & k & final & HC & _). by eapply Cut_numbers. Qed.
Lemma files_same f b c b' c' : FInv f → (b, c) ∈ produced f → (b', c') ∈ produced f → Number b = Number b' → b = b' ∧ c = c'.
Proof.
  intros Hnd%files_numbers (i & Hi)%list_elem_of_lookup_1 (j & Hj)%list_elem_of_lookup_1 Heq.
  assert (i = j) as ->.
  { eapply (NoDup_lookup _ i j (Number b)); [exact Hnd| |]; rewrite list_lookup_fmap.
    - by rewrite Hi. - by rewrite Hj, Heq. }
  rewrite Hi in Hj. by injection Hj.
Qed.
Lemma files_content f b c : FInv f → (b, c) ∈ produced f →
  ∃ recs, c = batchContent recs ∧ RecordCount b = Z.of_nat (length recs) ∧ ∀ r, r ∈ recs → r ∈ fileRows.
Proof.
  intros (n & k & final & HC & _) Hin. eapply Cut_rows in HC as (recss & Hmap & Hcat & Hcnt & _); try done.
  apply list_elem_of_lookup_1 in Hin as (i & Hi).
  destruct (Forall2_lookup_l _ _ _ _ _ Hcnt Hi) as (recs & Hrecs & Hn). exists recs. split; [|split; [done|]].
  - assert (map snd (produced f) !! i = Some c) as H1 by (rewrite list_lookup_fmap, Hi; done).
    rewrite Hmap, list_lookup_fmap, Hrecs in H1. by injection H1.
  - intros r Hr. unfold fileRows. rewrite <- (take_drop k (rows ls last)), processed_app, <- Hcat, elem_of_app. left.
    rewrite list_elem_of_In, in_concat. exists recs. rewrite <- !list_elem_of_In. split; [|done]. by eapply list_elem_of_lookup_2.
Qed.
Lemma files_rows f b c : FInv f → (b, c) ∈ produced f →
  (RecordCount b = 0 → copyRows c = []) ∧ ∀ r, r ∈ copyRows c → r ∈ fileRows.
Proof.
  intros HI Hin. destruct (files_content _ _ _ HI Hin) as (recs & -> & Hn & Hr). rewrite HcopyRows by done. split; [|done].
  intros H0. destruct recs; [done|]. cbn in Hn. lia.
Qed.

Definition doneFile (d : Dir) (b : Batch) : Prop := is_Some (d !! infoName (infoOf b "D")).
Lemma files_fits f b c : FInv f → (b, c) ∈ produced f → fits b.
Proof.
  intros (n & k & final & _ & HD0 & _) Hin. destruct (sdir f); [by apply (di_batches _ _ HD0 b c)|]. rewrite HD0 in Hin. set_solver.
Qed.
Lemma renamed_done d b0 st c n b : fits b → fits b0 → st ∈ validStates →
  doneFile (<[infoName (infoOf b0 st) := c]> (delete n d)) b →
  doneFile d b ∨ st = "D" ∧ Number b = Number b0 ∧ RecordCount b = RecordCount b0.
Proof.
  intros Hb Hb0 Hst. unfold doneFile. rewrite lookup_insert, lookup_delete. case_decide as Heq.
  - intros _. right. apply infoName_inj in Heq; [|by apply fits_valid|apply fits_valid; [done|]; right; right; by left].
    unfold infoOf in Heq. injection Heq. auto.
  - case_decide; [by intros []|by left].
Qed.
Lemma files_produce f c f' : FInv f → (c = CStart ∨ ∃ fuel, c = CNext fuel) → produce f c = Some f' →
  FInv f' ∧ (∃ new, produced f' = produced f ++ new) ∧
  ∀ d' b, sdir f' = Some d' → fits b → doneFile d' b → ∃ d, sdir f = Some d ∧ doneFile d b.
Proof.
  intros HI Hc Hexec. split; [eapply files_step; [done|by eapply exec_cmd_step]|].
  destruct f as [od pr l]. unfold exec_cmd in Hexec; cbn [sdir producer produced] in *.
  destruct Hc as [-> |[fuel ->]].
  - destruct pr; [done|]. destruct (NewSequentialFileBatchProducer _ od) as [[d p]| |] eqn:HN; [|done..]. injection Hexec as <-.
    split; [exists []; by rewrite app_nil_r|]. cbn. intros d' b [= <-] _ Hdone.
    apply bind_Ok in HN as (r & _ & [= <- _]). destruct od as [d|]; [by exists d|]. unfold doneFile in Hdone. cbn in Hdone.
    rewrite lookup_empty in Hdone. by destruct Hdone.
  - destruct od as [d|]; [|done]. destruct pr as [p|]; [|done].
    destruct (NextBatch _ _ _ _ _ _ _ _ fuel d p) as [[[[d' p'] b]| |]|] eqn:HN; [|done..].
    destruct (p_pending p) as [|b0 rest] eqn:Hp.
    + case_decide as Hfit; [|done]. injection Hexec as <-. split; [eauto|]. cbn. intros d2 b2 [= <-] Hb2 Hdone.
      eapply produce_dir in HN as (n & c & ->); [|done|exact Hfile|done..|exact HI|done|done|done].
      exists d. split; [done|]. apply renamed_done in Hdone as [?|[? _]]; [done|done|done|done|by left].
    + injection Hexec as <-. split; [exists []; by rewrite app_nil_r|]. cbn. intros d2 b2 [= <-] _ Hdone. exists d.
      split; [done|]. unfold NextBatch in HN. rewrite Hp in HN. destruct (completed p); [done|]. by injection HN as <- _ _.
Qed.

(** *** Taking a batch up and filing its outcome *)
Lemma begin_spec d i d' w : validInfo i → (i_state i = "C" ∨ i_state i = "P") → is_Some (d !! infoName i) →
  importBatch_begin d (batchOf i) = Ok (d', w) →
  (d' = d ∨ i_state i = "C" ∧ ∃ b', MarkInProgress d (batchOf i) = Ok (d', b')) ∧
  wbatch w = batchOf (withInfoState i "P") ∧ attempt w = 0 ∧ lastErr w = None ∧ (ended w = true → i_records i = 0).
Proof.
  intros Hi Hst [c Hc]. assert (i_state i ∈ validStates) as Hv by (by destruct Hi as (_ & _ & _ & _ & _ & ?)).
  assert (∀ d' b', MarkInProgress d (batchOf i) = Ok (d', b') → b' = batchOf (withInfoState i "P") ∧ (i_state i = "P" → d' = d)) as HM.
  { intros d1 b1. unfold MarkInProgress. cbn [FilePath batchOf]. rewrite withState_info by done. unfold Rename. rewrite Hc. cbn [mbind result_bind].
    assert (i_state i = "P" → withInfoState i "P" = i) as Hid by (intros HP; unfold withInfoState; rewrite <- HP; by destruct i).
    intros [= <- <-]. split; [done|]. intros ->%Hid. by rewrite insert_delete_id. }
  unfold importBatch_begin. cbn [RecordCount batchOf]. destruct (i_records i =? 0) eqn:H0.
  - destruct (MarkInProgress d (batchOf i)) as [[d1 b1]| |] eqn:HMk; [|done..]. cbn. intros [= <- <-]. destruct (HM _ _ eq_refl) as [-> Hd].
    split; [destruct Hst; [right; eauto|left; auto]|]. cbn. split_and!; try done. intros _. lia.
  - unfold IsInterrupted. cbn [FilePath batchOf]. rewrite hasSuffix_info_iff by done. case_bool_decide as HP.
    + cbn. intros [= <- <-]. split; [by left|]. cbn. split_and!; try done.
      unfold withInfoState. change (String "P" "") with "P" in HP. rewrite <- HP. by destruct i.
    + destruct (MarkInProgress d (batchOf i)) as [[d1 b1]| |] eqn:HMk; [|done..]. cbn. intros [= <- <-]. destruct (HM _ _ eq_refl) as [-> Hd].
      split; [destruct Hst; [right; eauto|done]|]. cbn. by split_and!.
Qed.
Lemma end_spec d i d' w : i_state i = "P" → wbatch w = batchOf i →
  importBatch_end ShouldAbort truncateSplits d w = Ok d' →
  (lastErr w = None ∧ ∃ b', MarkDone truncateSplits d (batchOf i) = Ok (d', b')) ∨
  (lastErr w ≠ None ∧ ∃ msg b', MarkError d (batchOf i) msg = Ok (d', b')).
Proof.
  intros Hst Hw. unfold importBatch_end. rewrite Hw. destruct (lastErr w) as [e|].
  - destruct ShouldAbort; [done|]. intros ((d1 & b') & HM & [= <-])%bind_Ok. right. eauto.
  - intros ((d1 & b') & HM & [= <-])%bind_Ok. left. eauto.
Qed.
(** A change of state of a batch in progress moves one file. *)
Lemma mark_moves d b0 st d' : st ∈ validStates → st ≠ "P" → st ≠ "C" →
  (st = "D" ∧ (∃ b', MarkDone truncateSplits d (batchOf (infoOf b0 "P")) = Ok (d', b'))) ∨
  (st = "E" ∧ (∃ msg b', MarkError d (batchOf (infoOf b0 "P")) msg = Ok (d', b'))) →
  ∃ c, d' = <[infoName (infoOf b0 st) := c]> (delete (infoName (infoOf b0 "P")) d).
Proof.
  assert (∀ s, withState s (infoName (infoOf b0 "P")) = infoName (infoOf b0 s)) as Hws.
  { intros s. rewrite withState_info; [done|]. right. by left. }
  intros Hst _ _ [(-> & b' & HM)|(-> & msg & b' & HM)]; apply bind_Ok in HM as (d1 & HR & HM); cbn [FilePath batchOf] in *;
    rewrite ?Hws in *; apply Rename_ok in HR as (c & _ & ->).
  - destruct truncateSplits; injection HM as <- _; [rewrite insert_insert_eq|]; eauto.
  - injection HM as <- _. rewrite insert_insert_eq. eauto.
Qed.

(** *** The invariant *)
(** Row-by-row recovery reads from a batch what COPY reads from it. *)
Context (Hreadable : ShouldUseFastPath args = true →
           ∀ recs, (∀ r, r ∈ recs → r ∈ fileRows) → Readable copyRows args openBatch (batchContent recs)).
Notation importBatchOf b := (ImportBatch copyRows pk pkViolation metaViolation describe args (keyOf (Number b))).
(** A worker holds a batch that was cut; without an error it has not started, or the
    batch is in. *)
Record workerOK (l : list (Batch * string)) (t : Target) (w : worker) (b : Batch) : Prop := mkWorkerOK {
  w_batch : wbatch w = batchOf (infoOf b "P");
  w_cut : ∃ c, (b, c) ∈ l;
  w_start : ended w = false → lastErr w = None → attempt w = 0;
  w_end : ended w = true → lastErr w = None → RecordCount b = 0 ∨ recorded t b }.
Definition importedRows (l : list (Batch * string)) (t : Target) : list string :=
  concat (map (λ p, if decide (recorded t p.1) then copyRows p.2 else []) l).
(** On the fast path: the table holds what others wrote and rows of the file, one for
    a key, and a row for every key of a recorded batch. *)
Record fastInv (s : isystem) : Prop := mkFastInv {
  fi_nodup : NoDup (keys pk (tbl (target s)));
  fi_others : ∀ r, r ∈ others s → r ∈ tbl (target s);
  fi_rows : ∀ r, r ∈ tbl (target s) → r ∈ others s ∨ r ∈ fileRows;
  fi_recorded : ∀ b c r, (b, c) ∈ produced (files s) → recorded (target s) b → r ∈ copyRows c → pk r ∈ keys pk (tbl (target s)) }.
Record IInv (s : isystem) : Prop := mkIInv {
  v_files : FInv (files s);
  v_workers : ∀ w, w ∈ workers s → ∃ b, workerOK (produced (files s)) (target s) w b;
  v_done : ∀ d b c, sdir (files s) = Some d → (b, c) ∈ produced (files s) → doneFile d b → RecordCount b = 0 ∨ recorded (target s) b;
  v_recorded : ∀ n, is_Some (meta (target s) !! keyOf n) → ∃ b c, (b, c) ∈ produced (files s) ∧ Number b = n;
  v_normal : ShouldUseFastPath args = false → tbl (target s) ≡ₚ others s ++ importedRows (produced (files s)) (target s);
  v_fast : ShouldUseFastPath args = true → fastInv s }.

Lemma elem_of_insert_inv {A} (l : list A) k x y : y ∈ <[k := x]> l → y ∈ l ∨ y = x.
Proof.
  rewrite list_elem_of_lookup. intros (i & Hi). destruct (decide (i = k)) as [->|Hne].
  - destruct (decide (k < length l)%nat) as [Hl|Hl].
    + rewrite list_lookup_insert_eq in Hi by done. right. by injection Hi.
    + rewrite list_insert_ge in Hi by lia. left. by eapply list_elem_of_lookup_2.
  - rewrite list_lookup_insert_ne in Hi by done. left. by eapply list_elem_of_lookup_2.
Qed.
Lemma keyOf_inj n m : keyOf n = keyOf m → n = m.
Proof. by intros [= ->]. Qed.
(** *** A change of the target *)
Record growsBy (b : Batch) (t t' : Target) (err : option goError) : Prop := mkGrowsBy {
  g_meta : meta t' = meta t ∨ meta t !! keyOf (Number b) = None ∧ ∃ n, meta t' = <[keyOf (Number b) := n]> (meta t);
  g_err : err = None → recorded t' b }.
Lemma growsBy_mono b t t' err b' : growsBy b t t' err → recorded t b' → recorded t' b'.
Proof. unfold recorded. intros [[-> |(_ & n & ->)] _]; [done|]. rewrite lookup_insert. by case_decide; [eauto|]. Qed.
Lemma growsBy_new b t t' err n : growsBy b t t' err → is_Some (meta t' !! keyOf n) → is_Some (meta t !! keyOf n) ∨ n = Number b.
Proof. intros [[-> |(_ & m & ->)] _]; [by left|]. rewrite lookup_insert. case_decide as He; [|by left]. apply keyOf_inj in He. by right. Qed.
Lemma attempt_law s b c fuel env path file cand t' n err partial :
  IInv s → (b, c) ∈ produced (files s) → (file = None ∨ file = Some c) → Forall (honestRow args) (rowOuts env) →
  importBatchOf b path openBatch fuel env file cand (target s) = Some (Ok (t', n, err, partial)) →
  growsBy b (target s) t' err ∧
  (ShouldUseFastPath args = true → fastOK pk (keyOf (Number b)) (copyRows c) (target s) t' err) ∧
  (ShouldUseFastPath args = false → (t' = target s ∨
     meta (target s) !! keyOf (Number b) = None ∧ ∃ m, t' = mkTarget (tbl (target s) ++ copyRows c) (<[keyOf (Number b) := m]> (meta (target s))))).
Proof.
  intros HI Hin Hfl Hrow Himp. destruct (ShouldUseFastPath args) eqn:Hmode.
  - destruct (files_content _ _ _ (v_files _ HI) Hin) as (recs & Hc & _ & Hrecs).
    assert (Readable copyRows args openBatch c) as Hread by (rewrite Hc; by apply Hreadable).
    eapply import_fast in Himp as Hf; [|done|done|exact Hfl|exact Hread|by apply (v_fast _ HI)|done].
    split; [|split; [intros _; exact Hf|intros [=] ] ]. destruct Hf as [_ _ Hm He]. split; [|exact He]. destruct Hm as [Hm|(H0 & H1 & _)]; auto.
  - apply import_normal in Himp as [[-> He]|(H0 & content & m & Hc & ->)]; [| |done].
    + split; [split; auto|]. split; [done|]. by left.
    + assert (content = c) as -> by (destruct Hfl; congruence). split.
      * split; [right; cbn; eauto|]. intros _. unfold recorded. cbn. rewrite lookup_insert_eq. eauto.
      * split; [done|]. intros _. right. eauto.
Qed.

(** The rows of recorded batches, after a batch is recorded or a new one cut. *)
Lemma importedRows_same l t t' : (∀ b c, (b, c) ∈ l → recorded t b ↔ recorded t' b) → importedRows l t = importedRows l t'.
Proof.
  unfold importedRows. induction l as [|[b c] l IH]; intros H; [done|]. cbn.
  rewrite IH by (intros b' c' Hin; apply (H b' c'); by right). f_equal.
  specialize (H b c ltac:(by left)). repeat case_decide; tauto.
Qed.
Lemma importedRows_record l t n b c ts :
  NoDup (map (λ p : Batch * string, Number p.1) l) → (b, c) ∈ l → meta t !! keyOf (Number b) = None →
  importedRows l (mkTarget ts (<[keyOf (Number b) := n]> (meta t))) ≡ₚ importedRows l t ++ copyRows c.
Proof.
  intros Hnd Hin Hno. apply list_elem_of_split in Hin as (l1 & l2 & ->).
  rewrite map_app in Hnd. cbn in Hnd. apply NoDup_app in Hnd as (_ & Hd1 & Hnd2). apply NoDup_cons in Hnd2 as [Hd2 _].
  assert (∀ b', Number b' ≠ Number b → recorded t b' ↔ recorded (mkTarget ts (<[keyOf (Number b) := n]> (meta t))) b') as Hoth.
  { intros b' Hne. unfold recorded. cbn. rewrite lookup_insert_ne; [done|]. intros He%keyOf_inj. done. }
  assert (∀ l b' c', Number b ∉ map (λ p : Batch * string, Number p.1) l → (b', c') ∈ l → Number b' ≠ Number b) as Hne.
  { intros l b' c' Hnot Hin He. apply Hnot. rewrite <- He. apply list_elem_of_fmap. by exists (b', c'). }
  assert (∀ l1 l2 t, importedRows (l1 ++ l2) t = importedRows l1 t ++ importedRows l2 t) as Happ.
  { intros. unfold importedRows. by rewrite map_app, concat_app. }
  rewrite !Happ. rewrite <- (importedRows_same l1 t).
  2:{ intros b' c' Hin. apply Hoth. intros He. apply (Hd1 (Number b)); [|by left]. rewrite <- He. apply list_elem_of_fmap. by exists (b', c'). }
  unfold importedRows at 2 4. cbn [map concat fst snd].
  rewrite decide_True by (unfold recorded; cbn; rewrite lookup_insert_eq; eauto).
  rewrite decide_False by (unfold recorded; rewrite Hno; by intros []).
  fold (importedRows l2 (mkTarget ts (<[keyOf (Number b) := n]> (meta t)))). fold (importedRows l2 t).
  rewrite <- (importedRows_same l2 t); [solve_Permutation|]. intros b' c' Hin. apply Hoth. by eapply Hne.
Qed.

(** *** Every step keeps it *)
Lemma done_is_produced f d b : FInv f → sdir f = Some d → fits b → doneFile d b →
  ∃ b0 c0, (b0, c0) ∈ produced f ∧ doneFile d b0 ∧ Number b0 = Number b ∧ RecordCount b0 = RecordCount b.
Proof.
  intros (n & k & final & _ & HDI & _) Hd Hb Hdone. rewrite Hd in HDI.
  destruct (di_files _ _ HDI _ Hdone (infoName_prefix _)) as (b0 & c0 & st & Hin & Hst & Hname & _).
  destruct (di_batches _ _ HDI b0 c0 Hin) as [Hf0 _].
  apply infoName_inj in Hname as He; [|apply fits_valid; [done|right; right; by left]|by apply fits_valid].
  injection He as H1 H2 H3 H4 H5 H6. subst st. exists b0, c0. split_and!; try done. unfold doneFile. by rewrite <- Hname.
Qed.
Lemma new_unrecorded f l new t b c : FInv f → produced f = l ++ new → (b, c) ∈ new →
  (∀ n, is_Some (meta t !! keyOf n) → ∃ b c, (b, c) ∈ l ∧ Number b = n) → ¬ recorded t b.
Proof.
  intros Hnd%files_numbers Hf Hin Hrec (b0 & c0 & Hin0 & He)%Hrec. rewrite Hf, map_app in Hnd.
  apply NoDup_app in Hnd as (_ & Hd & _). apply (Hd (Number b0)); apply list_elem_of_fmap; [by exists (b0, c0)|exists (b, c)]. done.
Qed.
(** The files move on, the target does not. *)
Lemma IInv_files s s' new : IInv s → target s' = target s → others s' = others s → FInv (files s') →
  produced (files s') = produced (files s) ++ new →
  (∀ w, w ∈ workers s' → ∃ b, workerOK (produced (files s')) (target s) w b) →
  (∀ d' b, sdir (files s') = Some d' → fits b → doneFile d' b →
     (RecordCount b = 0 ∨ recorded (target s) b) ∨ ∃ d, sdir (files s) = Some d ∧ doneFile d b) →
  IInv s'.
Proof.
  intros [F W Dn R N Q] Ht Ho HF' Hprod HW Hdone.
  assert (∀ b c, (b, c) ∈ new → ¬ recorded (target s) b) as Hnew by (intros b c Hin; exact (new_unrecorded _ _ _ _ _ _ HF' Hprod Hin R)).
  split; rewrite ?Ht, ?Ho; [done|done| | | |].
  - intros d b c Hd Hin Hdo. assert (fits b) as Hb by (by eapply files_fits).
    destruct (Hdone d b Hd Hb Hdo) as [?|(d0 & Hd0 & Hdo0)]; [done|].
    destruct (done_is_produced _ _ _ F Hd0 Hb Hdo0) as (b0 & c0 & Hin0 & Hdo1 & Hn & Hrc).
    unfold recorded. rewrite <- Hn, <- Hrc. by eapply Dn.
  - intros n Hn. destruct (R n Hn) as (b & c & Hin & He). exists b, c. rewrite Hprod, elem_of_app. auto.
  - intros Hm. rewrite (N Hm), Hprod. unfold importedRows. rewrite map_app, concat_app.
    assert (concat (map (λ p, if decide (recorded (target s) p.1) then copyRows p.2 else []) new) = []) as ->; [|by rewrite app_nil_r].
    apply concat_nil_Forall, Forall_forall. intros x ([b c] & -> & Hin)%list_elem_of_fmap. cbn. rewrite decide_False; [done|by eapply Hnew].
  - intros Hm. destruct (Q Hm) as [Q1 Q2 Q3 Q4]. split; rewrite ?Ht, ?Ho; [done..|]. intros b c r.
    rewrite Hprod, elem_of_app. intros [Hin|Hin]; [by apply Q4|]. intros Hrec. by destruct (Hnew _ _ Hin).
Qed.
(** An attempt of worker k. *)
Lemma IInv_attempt s k w w' b c t' err : IInv s → workers s !! k = Some w → (b, c) ∈ produced (files s) →
  workerOK (produced (files s)) t' w' b → growsBy b (target s) t' err →
  (ShouldUseFastPath args = true → fastOK pk (keyOf (Number b)) (copyRows c) (target s) t' err) →
  (ShouldUseFastPath args = false → (t' = target s ∨
     meta (target s) !! keyOf (Number b) = None ∧ ∃ m, t' = mkTarget (tbl (target s) ++ copyRows c) (<[keyOf (Number b) := m]> (meta (target s))))) →
  IInv (mkISystem (files s) t' (<[k := w']> (workers s)) (others s)).
Proof.
  intros [F W Dn R N Q] Hk Hin Hw' Hg HQ HN. split; cbn; [done| | | | |].
  - intros w0 [Hw0| ->]%elem_of_insert_inv; [|by exists b]. destruct (W _ Hw0) as (b0 & [H1 H2 H3 H4]). exists b0.
    split; [done..|]. intros He Hl. destruct (H4 He Hl); [by left|right]. by eapply growsBy_mono.
  - intros d b0 c0 Hd Hin0 Hdo. destruct (Dn d b0 c0 Hd Hin0 Hdo); [by left|right]. by eapply growsBy_mono.
  - intros n Hn. destruct (growsBy_new _ _ _ _ _ Hg Hn) as [Hn'| ->]; [by apply R|]. eauto.
  - intros Hm. destruct (HN Hm) as [-> |(Hno & m & ->)]; [by apply N|]. cbn.
    etransitivity; [apply Permutation_app_tail, (N Hm)|]. rewrite <- app_assoc. apply Permutation_app_head. symmetry.
    apply importedRows_record; [by apply files_numbers|done|done].
  - intros Hm. destruct (Q Hm) as [Q1 Q2 Q3 Q4]. destruct (HQ Hm) as [(added & Hadd & Hrows) Hnd Hmeta _]. split; cbn.
    + by apply Hnd.
    + intros r Hr. rewrite Hadd, elem_of_app. left. by apply Q2.
    + intros r. rewrite Hadd, elem_of_app. intros [Hr|Hr]; [by apply Q3|right]. eapply (files_rows _ b c); [done|done|]. by apply Hrows.
    + intros b0 c0 r Hin0 Hrec Hr.
      assert (∀ x, x ∈ keys pk (tbl (target s)) → x ∈ keys pk (tbl t')) as Hmono.
      { intros x Hx. rewrite Hadd, keys_app, elem_of_app. by left. }
      destruct Hmeta as [Hmeta|(Hno & (m & Hmeta) & Hall)]; unfold recorded in Hrec; rewrite Hmeta in Hrec; [apply Hmono; by eapply Q4|].
      rewrite lookup_insert in Hrec. case_decide as He; [|apply Hmono; by eapply Q4].
      apply keyOf_inj in He. destruct (files_same _ _ _ _ _ F Hin Hin0 He) as [<- <-]. by apply Hall.
Qed.

Lemma IInv_other s rows key n : IInv s → allowed s (IOther rows key n) →
  IInv (mkISystem (files s) (mkTarget (tbl (target s) ++ rows) (<[key := n]> (meta (target s)))) (workers s) (others s ++ rows)).
Proof.
  intros [F W Dn R N Q] [Hkey Hnd]. cbn in Hnd.
  assert (∀ b, recorded (target s) b ↔ recorded (mkTarget (tbl (target s) ++ rows) (<[key := n]> (meta (target s)))) b) as Hrec.
  { intros b. unfold recorded. cbn. by rewrite lookup_insert_ne by apply Hkey. }
  split; cbn; [done| | | | |].
  - intros w Hw. destruct (W w Hw) as (b & [H1 H2 H3 H4]). exists b. split; [done..|]. by rewrite <- Hrec.
  - intros d b c. rewrite <- Hrec. apply Dn.
  - intros m. rewrite lookup_insert_ne by apply Hkey. apply R.
  - intros Hm. rewrite <- (importedRows_same _ (target s)) by done. rewrite (N Hm). solve_Permutation.
  - intros Hm. destruct (Q Hm) as [Q1 Q2 Q3 Q4]. split; cbn; [by apply Hnd| | |].
    { intros r [Hr|Hr]%elem_of_app; apply elem_of_app; [left; by apply Q2|by right]. }
    { intros r [Hr|Hr]%elem_of_app; rewrite elem_of_app; [destruct (Q3 r Hr); auto|auto]. }
    intros b c r Hin Hr%Hrec Hc. rewrite keys_app, elem_of_app. left. by eapply Q4.
Qed.
Lemma IInv_begin s i d d' w : IInv s → sdir (files s) = Some d → validInfo i → (i_state i = "C" ∨ i_state i = "P") →
  is_Some (d !! infoName i) → importBatch_begin d (batchOf i) = Ok (d', w) →
  IInv (mkISystem (set_dir (files s) d') (target s) (workers s ++ [w]) (others s)).
Proof.
  intros HI Hd Hi Hst Hl Hb. destruct (begin_spec _ _ _ _ Hi Hst Hl Hb) as (Hd' & Hw & Hat & Herr & Hend).
  destruct Hl as [c Hc]. pose proof (v_files _ HI) as HF. destruct (Inv_batch _ _ _ _ _ _ _ _ _ _ HF Hd Hi Hst Hc) as (b & Hin & Hib).
  assert (withInfoState i "P" = infoOf b "P") as HiP by (by rewrite Hib).
  assert (FInv (set_dir (files s) d') ∧ ∀ b0, fits b0 → doneFile d' b0 → doneFile d b0) as [HF' Hdone].
  { destruct Hd' as [-> |[HC (b' & HM)]].
    - split; [|done]. unfold set_dir. rewrite <- Hd. by destruct (files s).
    - split; [eapply files_step; [exact HF|by eapply B_in_progress]|]. intros b0 Hb0.
      apply bind_Ok in HM as (d1 & HR & [= <- <-]). cbn [FilePath batchOf] in HR.
      rewrite withState_info, HiP in HR by (rewrite HC; by left). apply Rename_ok in HR as (c1 & _ & ->).
      intros [?|[? _]]%renamed_done; [done|done|done|by eapply files_fits|right; by left]. }
  apply (IInv_files s _ []); cbn; [done..|by rewrite app_nil_r| |].
  - intros w0 [Hw0|Hw0]%elem_of_app; [by apply (v_workers _ HI)|]. apply list_elem_of_singleton in Hw0 as ->. exists b.
    split; [by rewrite Hw, HiP|by exists c|done|]. intros He _. left. assert (i_records i = RecordCount b) as <- by (by rewrite Hib). by apply Hend.
  - intros d1 b0 [= <-] Hb0 Hdo. right. exists d. split; [done|]. by apply Hdone.
Qed.
Lemma IInv_turn s k w fuel env d t' w' : IInv s → sdir (files s) = Some d → workers s !! k = Some w →
  Forall (honestRow args) (rowOuts env) →
  importBatch_turn COPY_MAX_RETRY_COUNT MAX_SLEEP_SECOND (importTo fuel env w) d (target s) w = Some (Ok (t', w')) →
  IInv (mkISystem (files s) t' (<[k := w']> (workers s)) (others s)).
Proof.
  intros HI Hd Hk Hhon. destruct (v_workers _ HI w) as (b & [Hb (c & Hin) Hstart Hend]); [by eapply list_elem_of_lookup_2|].
  assert (∀ w', workerOK (produced (files s)) (target s) w' b → IInv (mkISystem (files s) (target s) (<[k := w']> (workers s)) (others s))) as Hsame.
  { intros w0 Hw0. destruct HI as [F W Dn R N Q]. split; cbn; [done| |done..|].
    - intros w1 [Hw1| ->]%elem_of_insert_inv; [by apply W|by exists b].
    - intros Hm. by destruct (Q Hm). }
  unfold importBatch_turn. destruct (ended w) eqn:He.
  { intros [= <- <-]. apply Hsame. split; [done|by exists c|by rewrite He|by rewrite He]. }
  destruct (negb (attempt w <? COPY_MAX_RETRY_COUNT)) eqn:Hmax.
  { intros [= <- <-]. apply Hsame. split; cbn; [done|by exists c|done|]. intros _ Hl. specialize (Hstart eq_refl Hl). lia. }
  intros (r & Hr & [= Hres])%bind_Some. apply bind_Ok in Hres as ([[[t n] err] partial] & -> & Hres).
  unfold importTo in Hr. assert (Number (wbatch w) = Number b) as Hn by (by rewrite Hb). rewrite Hn in Hr.
  assert (d !! FilePath (wbatch w) = None ∨ d !! FilePath (wbatch w) = Some c) as Hfl.
  { rewrite Hb. cbn [FilePath batchOf]. destruct (d !! infoName (infoOf b "P")) as [c1|] eqn:Hc1; [right|by left].
    pose proof (v_files _ HI) as HF. assert (validInfo (infoOf b "P")) as Hv by (apply fits_valid; [by eapply files_fits|right; by left]).
    destruct (Inv_batch _ _ _ _ _ _ _ _ _ _ HF Hd Hv (or_intror eq_refl) Hc1) as (b1 & Hin1 & Heq).
    destruct (files_same _ _ _ _ _ HF Hin1 Hin) as [_ ->]; [|done]. unfold infoOf in Heq. by injection Heq. }
  destruct (attempt_law _ _ _ _ _ _ _ _ _ _ _ _ HI Hin Hfl Hhon Hr) as (Hg & Hfast & Hnormal).
  assert (t' = t ∧ workerOK (produced (files s)) t w' b) as [-> Hw'].
  { destruct (bool_decide (err = None) || IsNonRetryableCopyError err) eqn:Hstop; injection Hres as <- <-; (split; [done|]);
      split; cbn; try done; try by exists c.
    - intros _ Hl. right. by apply (g_err _ _ _ _ Hg).
    - intros _ ->. by cbn in Hstop. }
  by eapply IInv_attempt.
Qed.
Lemma IInv_end s k w d d' : IInv s → sdir (files s) = Some d → workers s !! k = Some w → ended w = true →
  importBatch_end ShouldAbort truncateSplits d w = Ok d' →
  IInv (mkISystem (set_dir (files s) d') (target s) (delete k (workers s)) (others s)).
Proof.
  intros HI Hd Hk He Hend. destruct (v_workers _ HI w) as (b & [Hb (c & Hin) Hstart Hdo]); [by eapply list_elem_of_lookup_2|].
  pose proof (v_files _ HI) as HF. assert (fits b) as Hfit by (by eapply files_fits).
  assert (validInfo (infoOf b "P")) as Hv by (apply fits_valid; [done|right; by left]).
  destruct (end_spec d (infoOf b "P") d' w eq_refl Hb Hend) as [[Herr HM]|[_ HM]];
    [destruct (mark_moves d b "D" d') as (c1 & Hd'); [right; right; by left|done|done|by left|]
    |destruct (mark_moves d b "E" d') as (c1 & Hd'); [right; right; right; by left|done|done|by right|] ];
    apply (IInv_files s _ []); cbn; try done; try (by rewrite app_nil_r).
  2,5: (intros w0 Hw0; apply (v_workers _ HI); rewrite (delete_Permutation _ _ _ Hk); by right).
  - destruct HM as (b' & HM). eapply files_step; [exact HF|by eapply B_done].
  - intros d1 b0 [= <-] Hb0. rewrite Hd'. intros [?|(_ & Hn & Hrc)]%renamed_done; [right; by exists d|left|done..|right; right; by left].
    unfold recorded. rewrite Hn, Hrc. by apply Hdo.
  - destruct HM as (msg & b' & HM). eapply files_step; [exact HF|by eapply B_error].
  - intros d1 b0 [= <-] Hb0. rewrite Hd'. intros [?|(? & _)]%renamed_done; [right; by exists d|done|done..|right; right; right; by left].
Qed.

Lemma IInv_step s s' : IInv s → step s s' → IInv s'.
Proof.
  intros HI (c & Hal & He). pose proof (v_files _ HI) as HF.
  assert (∀ c0 f, (c0 = CStart ∨ ∃ fuel, c0 = CNext fuel) → produce (files s) c0 = Some f → IInv (set_files s f)) as Hprod.
  { intros c0 f Hc0 Hf. destruct (files_produce _ _ _ HF Hc0 Hf) as (HF' & (new & Hnew) & Hdone).
    apply (IInv_files s _ new); cbn; [done..| |by eauto].
    intros w Hw. destruct (v_workers _ HI w Hw) as (b & [H1 (c1 & H2) H3 H4]). exists b. split; [done| |done|done].
    exists c1. rewrite Hnew, elem_of_app. by left. }
  assert (∀ f, FInv f → produced f = produced (files s) → (∀ d b, sdir f = Some d → doneFile d b → ∃ d0, sdir (files s) = Some d0 ∧ doneFile d0 b) →
            IInv (mkISystem f (target s) [] (others s))) as Hcrash.
  { intros f HF' Hp Hdone. apply (IInv_files s _ []); cbn; [done..|by rewrite Hp, app_nil_r| |eauto]. intros w. set_solver. }
  destruct c as [|fuel|i|k fuel env|k|rows key n| |n partial]; cbn [exec] in He.
  - apply bind_Some in He as (f & Hf & [= <-]). eapply Hprod; [by left|done].
  - apply bind_Some in He as (f & Hf & [= <-]). eapply Hprod; [right; eauto|done].
  - apply bind_Some in He as (d & Hd & He). case_decide as Hi; [|done]. destruct Hi as (Hi & Hst & Hl).
    destruct (importBatch_begin d (batchOf i)) as [[d' w]| |] eqn:Hb; [|done..]. injection He as <-. by eapply IInv_begin.
  - apply bind_Some in He as (d & Hd & He). apply bind_Some in He as (w & Hk & He).
    destruct (importBatch_turn _ _ _ _ _ _) as [[[t' w']| |]|] eqn:Ht; [|done..]. injection He as <-. by eapply IInv_turn.
  - apply bind_Some in He as (d & Hd & He). apply bind_Some in He as (w & Hk & He). destruct (ended w) eqn:Hend; [|done].
    destruct (importBatch_end _ _ _ _) as [d'| |] eqn:Hb; [|done..]. injection He as <-. by eapply IInv_end.
  - injection He as <-. by apply IInv_other.
  - injection He as <-. apply Hcrash; [|done|eauto]. eapply files_step; [exact HF|apply B_crash].
  - apply bind_Some in He as (d & Hd & [= <-]). apply Hcrash; [|done|].
    + eapply files_step; [exact HF|by apply B_crash_writing].
    + cbn [sdir]. intros d1 b [= <-]. unfold doneFile. rewrite lookup_insert_ne; [eauto|]. intros Heq.
      pose proof (tmp_prefix n) as Hp. by rewrite Heq, infoName_prefix in Hp.
Qed.
(** A first import: no batch of the file is recorded yet. *)
Definition fresh (t0 : Target) : Prop :=
  (∀ n, meta t0 !! keyOf n = None) ∧ (ShouldUseFastPath args = true → NoDup (keys pk (tbl t0))).
Lemma reachable_IInv t0 s : fresh t0 → reachable t0 s → IInv s.
Proof.
  intros [Hno Hnd] Hr. assert (IInv (initial t0)) as H0.
  { split; cbn; [|set_solver|done| | |].
    - exists 0, 0%nat, false. split; [constructor|done].
    - intros n. rewrite Hno. by intros [].
    - intros _. unfold importedRows. cbn. by rewrite app_nil_r.
    - intros Hm. split; cbn; [by apply Hnd|done|by left|set_solver]. }
  revert H0. unfold reachable in Hr. induction Hr as [s|s1 s2 s3 Hs _ IH]; [done|]. intros H. by apply IH, (IInv_step s1).
Qed.
(** When every batch is done, each is recorded (or empty), and together they hold the file. *)
Lemma completed_recorded s d : IInv s → sdir (files s) = Some d → GetFileImportState (Some d) = Ok FILE_IMPORT_COMPLETED →
  concat (map (λ p, copyRows p.2) (produced (files s))) = fileRows ∧
  ∀ b c, (b, c) ∈ produced (files s) → copyRows c = [] ∨ recorded (target s) b.
Proof.
  intros HI Hd Hst. pose proof (v_files _ HI) as HF.
  eapply completed_batches in Hst as (recss & Hmap & Hcat & _ & Hall); [|done|exact Hfile|done|done|done|exact HsortPending|done|exact HF|exact Hd]. split.
  - assert (∀ recs, recs ∈ recss → copyRows (batchContent recs) = recs) as Hcopy.
    { intros recs Hin. apply HcopyRows. intros r Hr. unfold fileRows. rewrite <- Hcat, list_elem_of_In, in_concat.
      exists recs. by rewrite <- !list_elem_of_In. }
    unfold fileRows. rewrite <- Hcat. rewrite <- (map_map snd copyRows), Hmap, map_map. f_equal. clear -Hcopy.
    induction recss as [|recs recss IH]; [done|]. cbn. rewrite Hcopy by (by left). f_equal. apply IH. intros r Hr. apply Hcopy. by right.
  - intros b c Hin. destruct (v_done _ HI d b c Hd Hin (Hall _ _ Hin)) as [H0|?]; [left|by right].
    by apply (files_rows _ _ _ HF Hin).
Qed.

Lemma importedRows_all l t : (∀ b c, (b, c) ∈ l → copyRows c = [] ∨ recorded t b) → importedRows l t = concat (map (λ p, copyRows p.2) l).
Proof.
  unfold importedRows. induction l as [|[b c] l IH]; intros H; [done|]. cbn. rewrite IH by (intros b' c' Hin; apply (H b' c'); by right).
  f_equal. case_decide; [done|]. by destruct (H b c ltac:(by left)).
Qed.
Lemma NoDup_keys_rows l : NoDup (keys pk l) → NoDup l.
Proof. apply NoDup_fmap_1. Qed.
Lemma keys_inj l r r' : NoDup (keys pk l) → r ∈ l → r' ∈ l → pk r = pk r' → r = r'.
Proof.
  intros Hnd (i & Hi)%list_elem_of_lookup_1 (j & Hj)%list_elem_of_lookup_1 He. assert (i = j) as ->; [|congruence].
  eapply (NoDup_lookup _ i j (pk r)); [exact Hnd| |]; unfold keys; rewrite list_lookup_fmap; [by rewrite Hi|by rewrite Hj, He].
Qed.
End system.

(** ** A file of three rows, imported in two batches *)
Definition sampleCommands (env : attemptEnv) : list icommand :=
  [IStart; INext 6; IBegin (info1 "C"); ITurn 0 10 env; ICrash;   (* an attempt fails, the process dies *)
   IStart; INext 6; INext 6; IBegin (info1 "P"); IBegin (info0 "C");
   ITurn 1 10 quiet; ITurn 0 10 quiet; IOther ["9"] ("u", "other", 0, "public", "t") 1; IEnd 1; IEnd 0].
Notation sampleISystem := (isystem (D:=TextDataFile)).
Definition sampleRun (args : ImportBatchArgs) (t0 : Target) (cs : list icommand) : option sampleISystem :=
  run (newTextDataFile sampleContent) sampleOpenAt true true 1000 2 true sampleTransform (λ l, l)
    (sampleCopyRows true) (λ r, r) samplePkViolation sampleMetaViolation (λ p, p) args newTextDataFile 10 60 false
    "u" "f" "public" "t" cs (initial t0).
Definition sampleEnd (args : ImportBatchArgs) (t0 : Target) (env : attemptEnv) : sampleISystem :=
  default (initial t0) (sampleRun args t0 (sampleCommands env)).
(** COPY fails after it has written row 2. *)
Definition halfWritten : attemptEnv :=
  mkEnv None None None None None None WriteOk None Committed (BulkFail [false; true] (mkError "conn closed" None None)) None None [] WriteOk.
Example sample_end_normal : tbl (target (sampleEnd normalArgs (mkTarget ["0"] ∅) lostCommit)) = ["0"; "1"; "2"; "3"; "9"].
Proof. vm_compute. reflexivity. Qed.
Example sample_end_fast : tbl (target (sampleEnd fastArgs (mkTarget ["0"] ∅) halfWritten)) = ["0"; "2"; "3"; "1"; "9"].
Proof. vm_compute. reflexivity. Qed.

Lemma readAll_Reads `{DataFile D} fuel (df : D) ls last : Reads df ls last → (length ls < fuel)%nat → readAll fuel df = linesOf ls last.
Proof.
  intros HR. revert fuel. induction HR as [df df' line n HN|df df' line n ls last HN _ IH]; intros [|fuel] Hf; cbn in Hf; try lia;
    cbn [readAll]; rewrite HN; [done|]. rewrite IH by lia. done.
Qed.
Lemma length_written lines last : (length lines ≤ String.length (written lines last))%nat.
Proof. induction lines as [|l lines IH]; cbn [length written]; [lia|]. rewrite length_line. lia. Qed.
Lemma linesOf_written lines last n : linesOf (map withBytes lines) (last, n) = lines ++ (if decide (last = "") then [] else [last]).
Proof. unfold linesOf. cbn. f_equal. induction lines as [|l lines IH]; [done|]. cbn. by f_equal. Qed.
Lemma readAll_written lines last : Forall goodLine lines → oneLine last →
  readAll (S (String.length (written lines last))) (newTextDataFile (written lines last)) = lines ++ (if decide (last = "") then [] else [last]).
Proof.
  intros Hl Hlast. rewrite (readAll_Reads _ _ _ _ (text_Reads_written lines last 0 Hl Hlast)); [apply linesOf_written|].
  rewrite length_map. pose proof (length_written lines last). lia.
Qed.
Definition sampleRows : list string := processed 1000 sampleTransform (rows sampleLines ("", 0)).
Lemma sample_good r : r ∈ sampleRows → goodLine r ∧ r ≠ "".
Proof.
  assert (Forall (λ r, goodLine r ∧ r ≠ "") sampleRows) as H by (by repeat constructor). rewrite Forall_forall in H. apply H.
Qed.
(** What a batch file of the sample is: the header, the rows, no newline at the end. *)
Lemma sample_batch recs : (∀ r, r ∈ recs → r ∈ sampleRows) →
  ∃ lines last, content true sampleHdr recs = written ("id" :: lines) last ∧ Forall goodLine ("id" :: lines) ∧ oneLine last ∧
    recs = lines ++ (if decide (last = "") then [] else [last]).
Proof.
  intros Hrecs. assert (goodLine "id") as Hid by done. destruct recs as [|last lines _] using rev_ind.
  - exists [], "". split; [done|]. split; [by repeat constructor|done].
  - exists lines, last. assert (goodLine last ∧ last ≠ "") as [[H1 H2] H3] by (apply sample_good, Hrecs, elem_of_app; right; by left).
    split; [|split; [|by rewrite decide_False] ].
    + unfold content. cbn [written]. rewrite <- Join_written. done.
    + constructor; [done|]. apply Forall_forall. intros r Hr. apply sample_good, Hrecs, elem_of_app. by left.
Qed.
Lemma sample_copyRows recs : (∀ r, r ∈ recs → r ∈ sampleRows) → sampleCopyRows true (content true sampleHdr recs) = recs.
Proof.
  intros Hrecs. destruct (sample_batch _ Hrecs) as (lines & last & -> & Hl & Hlast & ->).
  unfold sampleCopyRows. by rewrite readAll_written.
Qed.
Lemma sample_readable recs : (∀ r, r ∈ recs → r ∈ sampleRows) → Readable (sampleCopyRows true) fastArgs newTextDataFile (content true sampleHdr recs).
Proof.
  intros Hrecs. pose proof (sample_copyRows _ Hrecs) as Hcopy. destruct (sample_batch _ Hrecs) as (lines & last & Hc & Hl & Hlast & Heq).
  rewrite Hc in *. exists id, [withBytes "id"], (map withBytes lines), (last, Z.of_nat (String.length last)).
  split; [by apply (text_Reads_written ("id" :: lines) last 0)|]. split; [done|]. rewrite linesOf_written, <- Heq, map_id. split; [done|].
  intros line Hline. destruct (sample_good _ (Hrecs _ Hline)) as [[H1 _] H2]. cbn [withBytes fst]. unfold singleLine.
  rewrite decide_False by done. unfold sampleCopyRows. change ("id" +:+ NLs +:+ line) with (written ["id"] line).
  rewrite readAll_written by (done || by repeat constructor). cbn [app tail]. by rewrite decide_False.
Qed.


End ImportSystem.
