(* ===== verification/RandomProducer.v ===== *)
(** * The random batch producer (cmd/importDataRandomFileBatchProducer.go)

    A goroutine lets a producer file its batches one after the other and keeps them in
    a buffer; the main loop takes any of them.  The wrapped producer is reached through
    the interface [FileBatchProducer]; BatchProducer.v's sequential producer, with the
    directory it writes to, implements it. *)
From S2P Require Import Prelude ImportState BatchProducer DataFile.
Import ImportState BatchProducer DataFile.

Set Default Proof Using "Type*".

(** What the wrapper uses of the interface [FileBatchProducer]. *)
Class FileBatchProducer (P : Type) := {
  ProducerDone : P → bool;
  ProducerNextBatch : P → result (P * Batch) }.

Module RandomProducer.
Section random.
Context {P : Type} `{HP : FileBatchProducer P}.
Record RandomBatchProducer : Type := mkRandom {
  sequentialFileBatchProducer : P;
  sequentiallyProducedBatches : list Batch;
  sequentialFileBatchProducerFinished : bool;
  producing : bool }.                              (* the goroutine runs *)
Definition newRandomFileBatchProducer (p : P) : RandomBatchProducer := mkRandom p [] false true.
Definition Done (r : RandomBatchProducer) : bool :=
  sequentialFileBatchProducerFinished r && (length (sequentiallyProducedBatches r) =? 0)%nat.
Definition IsNextBatchAvailable (r : RandomBatchProducer) : bool :=
  if Done r then false else (0 <? length (sequentiallyProducedBatches r))%nat.
(** [intn]: the outcome of [rand.Intn]. *)
Definition NextBatch (intn : nat → nat) (r : RandomBatchProducer) : result (RandomBatchProducer * Batch) :=
  let buffer := sequentiallyProducedBatches r in
  if (length buffer =? 0)%nat then Err "no batches available"
  else
    let idx := intn (length buffer) in
    match buffer !! idx with
    | None => Panic "index out of range"
    | Some batch =>
        Ok (mkRandom (sequentialFileBatchProducer r) (delete idx buffer) (sequentialFileBatchProducerFinished r) (producing r), batch)
    end.
(** One iteration of the goroutine's loop; [None]: it does not run any more.  Its error
    ends the process. *)
Definition produceBatch (r : RandomBatchProducer) : option (result (RandomBatchProducer * Batch)) :=
  if negb (producing r) || sequentialFileBatchProducerFinished r then None
  else Some (
    '(p, batch) ← ProducerNextBatch (sequentialFileBatchProducer r);
    Ok (mkRandom p (sequentiallyProducedBatches r ++ [batch])
          (if ProducerDone p then true else sequentialFileBatchProducerFinished r) (producing r), batch)).
(** The context is cancelled, or the loop has ended. *)
Definition stopProducing (r : RandomBatchProducer) : RandomBatchProducer :=
  mkRandom (sequentialFileBatchProducer r) (sequentiallyProducedBatches r) (sequentialFileBatchProducerFinished r) false.

(** The batches produced and handed out so far; the program does not keep them. *)
Record system : Type := mkSystem { rbp : RandomBatchProducer; produced : list Batch; handed : list Batch }.
Definition initial (p : P) : system := mkSystem (newRandomFileBatchProducer p) [] [].
Inductive step : system → system → Prop :=
  | R_produce s r b : produceBatch (rbp s) = Some (Ok (r, b)) → step s (mkSystem r (produced s ++ [b]) (handed s))
  | R_next s intn r b : NextBatch intn (rbp s) = Ok (r, b) → step s (mkSystem r (produced s) (handed s ++ [b]))
  | R_stop s : step s (mkSystem (stopProducing (rbp s)) (produced s) (handed s)).

(** What the wrapped producer yields, called in a row. *)
Inductive yields (p : P) : list Batch → P → Prop :=
  | Y_nil : yields p [] p
  | Y_snoc l q b q' : yields p l q → ProducerDone q = false → ProducerNextBatch q = Ok (q', b) → yields p (l ++ [b]) q'.
Record Inv (p0 : P) (s : system) : Prop := mkInv {
  i_yields : yields p0 (produced s) (sequentialFileBatchProducer (rbp s));
  i_perm : handed s ++ sequentiallyProducedBatches (rbp s) ≡ₚ produced s;
  i_done : sequentialFileBatchProducerFinished (rbp s) = ProducerDone (sequentialFileBatchProducer (rbp s)) }.
Lemma random_Inv_step p0 s s' : Inv p0 s → step s s' → Inv p0 s'.
Proof.
  intros [H1 H2 H3] Hstep. destruct Hstep as [s r b Hp|s intn r b Hn|s].
  - unfold produceBatch in Hp. destruct (negb (producing (rbp s)) || sequentialFileBatchProducerFinished (rbp s)) eqn:Hrun; [done|].
    apply orb_false_iff in Hrun as [_ Hfin]. injection Hp as Hp. apply bind_Ok in Hp as ([p b'] & Hnext & [= <- <-]).
    split; cbn.
    + eapply Y_snoc; [exact H1|congruence|exact Hnext].
    + by rewrite app_assoc, H2.
    + rewrite Hfin. by destruct (ProducerDone p).
  - unfold NextBatch in Hn. destruct (_ =? 0)%nat; [done|].
    destruct (sequentiallyProducedBatches (rbp s) !! intn (length (sequentiallyProducedBatches (rbp s)))) as [b'|] eqn:Hb; [|done].
    injection Hn as <- <-. pose proof (delete_Permutation _ _ _ Hb) as Hd. split; cbn; [done| |done].
    rewrite <- H2, <- app_assoc. apply Permutation_app_head. cbn. by symmetry.
  - by split.
Qed.
Lemma random_reachable_Inv p0 s : ProducerDone p0 = false → rtc step (initial p0) s → Inv p0 s.
Proof.
  intros Hp Hr. assert (Inv p0 (initial p0)) as H0 by (split; cbn; [constructor|done|done]).
  revert H0. induction Hr as [s|s1 s2 s3 Hs _ IH]; [done|]. intros H. by apply IH, (random_Inv_step _ s1).
Qed.
(** C37: The random producer neither loses nor repeats a batch, and does not invent any:
    what it has handed out and what it still holds are together a permutation of what
    the wrapped producer yields in a row; when it says it is done everything has been
    handed out and the wrapped producer is done; it hands out a batch whenever it says
    one is available; and its goroutine never asks a producer that is done. *)
Theorem random_producer_permutes (p0 : P) (s : system) :
  ProducerDone p0 = false → rtc step (initial p0) s →
  (∃ q, yields p0 (produced s) q) ∧ handed s ++ sequentiallyProducedBatches (rbp s) ≡ₚ produced s ∧
  (Done (rbp s) = true → handed s ≡ₚ produced s ∧ ProducerDone (sequentialFileBatchProducer (rbp s)) = true) ∧
  (IsNextBatchAvailable (rbp s) = true → ∀ intn, (∀ n, (0 < n)%nat → (intn n < n)%nat) → ∃ r b, NextBatch intn (rbp s) = Ok (r, b)) ∧
  (sequentialFileBatchProducerFinished (rbp s) = false → ProducerDone (sequentialFileBatchProducer (rbp s)) = false).
Proof.
  intros Hp Hr. destruct (random_reachable_Inv _ _ Hp Hr) as [H1 H2 H3]. split; [eauto|]. split; [done|]. split; [|split; [|congruence] ].
  - unfold Done. intros [Hfin Hlen%Nat.eqb_eq%nil_length_inv]%andb_true_iff. rewrite Hlen, app_nil_r in H2. split; [done|congruence].
  - unfold IsNextBatchAvailable, NextBatch. destruct (Done (rbp s)); [done|]. intros Hlen%Nat.ltb_lt intn Hi.
    destruct (Nat.eqb_spec (length (sequentiallyProducedBatches (rbp s))) 0); [lia|].
    destruct (lookup_lt_is_Some_2 _ _ (Hi _ Hlen)) as [b ->]. eauto.
Qed.
End random.

(** ** The sequential producer behind the interface *)
Section sequential.
Context {D : Type} `{HD : DataFile D}.
Context (openFile : D) (openAt : Z → option D) (HasHeader isCSV : bool) (MaxBatchSizeInBytes batchSizeInNumRows : Z)
        (ShouldAbort : bool) (transformRow : string → result string) (sortPending : list Batch → list Batch) (fuel : nat).
Definition Sequential_FileBatchProducer : FileBatchProducer (Dir * SequentialFileBatchProducer (D:=D)) := {|
  ProducerDone p := completed p.2;
  ProducerNextBatch p :=
    match BatchProducer.NextBatch openFile openAt HasHeader isCSV MaxBatchSizeInBytes batchSizeInNumRows ShouldAbort transformRow fuel p.1 p.2 with
    | Some r => '(d, q, b) ← r; Ok (d, q, b)
    | None => Err "out of fuel"
    end |}.
(** A task is only picked while its file is not imported; its producer then has
    something left to do, as the random producer requires. *)
Context (HsortPending : ∀ l, sortPending l ≡ₚ l).
Lemma recover_pending bs r : pendingBatches (foldl recoverBatch r bs) = pendingBatches r ++ filter (λ b, IsCompleted b = false) bs.
Proof.
  revert r. induction bs as [|b bs IH]; intros r; cbn [foldl]; [by rewrite app_nil_r|]. rewrite IH, filter_cons. cbn.
  destruct (IsCompleted b); case_decide; try done. by rewrite <- app_assoc.
Qed.
Lemma recover_split bs r : fileFullySplit (foldl recoverBatch r bs) = true → fileFullySplit r = true ∨ ∃ b, b ∈ bs ∧ Number b = LAST_SPLIT_NUM.
Proof.
  revert r. induction bs as [|b bs IH]; intros r; cbn [foldl]; [by left|]. intros [H|(b' & Hb & Hn)]%IH.
  - cbn in H. destruct (Number b =? LAST_SPLIT_NUM) eqn:Hz; [|by left]. right. exists b. split; [left|]. by apply Z.eqb_eq.
  - right. exists b'. split; [by right|done].
Qed.
Lemma pending_task_not_done od d (p : SequentialFileBatchProducer (D:=D)) st :
  NewSequentialFileBatchProducer sortPending od = Ok (d, p) → GetFileImportState (Some (default ∅ od)) = Ok st →
  st ≠ FILE_IMPORT_COMPLETED → st ≠ FILE_IMPORT_COMPLETED_WITH_ERRORS → completed p = false.
Proof.
  unfold NewSequentialFileBatchProducer, Recover, GetFileImportState. intros (r & Hr & [= <- <-])%bind_Ok Hst Hnc Hne. cbn.
  destruct (GetAllBatches (Some (default ∅ od))) as [bs| |]; [|done..]. cbn in Hr, Hst. injection Hr as <-. injection Hst as <-.
  apply not_true_iff_false. intros [Hlen%Nat.eqb_eq%nil_length_inv Hfull]%andb_true_iff.
  rewrite recover_pending in Hlen. cbn in Hlen.
  apply recover_split in Hfull as [?|Hlast]; [done|].
  assert (bool_decide (fileStateOf bs = FILE_IMPORT_COMPLETED) || bool_decide (fileStateOf bs = FILE_IMPORT_COMPLETED_WITH_ERRORS) = true) as Hc.
  { apply fileStateOf_imported. split; [|done]. apply Forall_forall. intros b Hb. apply not_false_iff_true. intros Hcb.
    assert (b ∈ filter (λ b, IsCompleted b = false) bs) as Hin by (by apply list_elem_of_filter). rewrite Hlen in Hin. set_solver. }
  apply orb_true_iff in Hc as [Hc%bool_decide_eq_true|Hc%bool_decide_eq_true]; done.
Qed.
End sequential.

(** ** The sample text file of BatchProducer.v behind the interface: one batch is filed
    by the goroutine and handed out. *)
Definition sampleProducer : Type := Dir * SequentialFileBatchProducer (D:=TextDataFile).
#[local] Instance sampleFBP : FileBatchProducer sampleProducer :=
  Sequential_FileBatchProducer (newTextDataFile sampleContent) sampleOpenAt true true 1000 2 true sampleTransform 6.
Notation sampleSystem := (system (P:=sampleProducer)).
Definition samplePair : sampleProducer :=
  match NewSequentialFileBatchProducer (λ l, l) None with
  | Ok p => p | _ => (∅, mkProducer [] 0 0 false true None "" 0 0 0 0 "" []) end.
Definition runProduce (s : sampleSystem) : sampleSystem :=
  match produceBatch (rbp s) with Some (Ok (r, b)) => mkSystem r (produced s ++ [b]) (handed s) | _ => s end.
Definition runNext (intn : nat → nat) (s : sampleSystem) : sampleSystem :=
  match NextBatch intn (rbp s) with Ok (r, b) => mkSystem r (produced s) (handed s ++ [b]) | _ => s end.
Lemma runProduce_steps s : rtc step s (runProduce s).
Proof. unfold runProduce. destruct (produceBatch (rbp s)) as [[[r b]| |]|] eqn:H; try done. by apply rtc_once, R_produce. Qed.
Lemma runNext_steps intn s : rtc step s (runNext intn s).
Proof. unfold runNext. destruct (NextBatch intn (rbp s)) as [[r b]| |] eqn:H; try done. by apply rtc_once, (R_next _ intn). Qed.
Definition sampleHanded : sampleSystem := runNext (λ _, 1%nat) (runProduce (runProduce (initial samplePair))).
Lemma random_producer_permutes_witness :
  map Number (handed sampleHanded) = [0] ∧ map Number (produced sampleHanded) = [1; 0] ∧
  handed sampleHanded ++ sequentiallyProducedBatches (rbp sampleHanded) ≡ₚ produced sampleHanded.
Proof.
  split; [vm_compute; reflexivity|]. split; [vm_compute; reflexivity|].
  refine (proj1 (proj2 (random_producer_permutes samplePair sampleHanded _ _))).
  - vm_compute. reflexivity.
  - unfold sampleHanded. etransitivity; [|apply runNext_steps]. etransitivity; apply runProduce_steps.
Defined.
End RandomProducer.
