(* ===== verification/ConnPool.v ===== *)
(** * The connection pool of the target (src/yb-voyager/src/tgtdb/conn_pool.go)

    Connections wait in two buffered channels, those in use of the pool's current
    size and the idle ones; [None] stands for a nil connection, a slot whose
    connection is made on first use.  An operation that would block on a channel
    gives [None].  The goroutines that use, resize and clean the pool are the steps
    of [step]; every step performs at most one receive.  Waiting, logging and the
    closing of a connection have no effect on the pool's state. *)
From S2P Require Import Prelude.

Module ConnPool.

(** [*pgx.Conn]: the object's identity and the host it is connected to. *)
Record Conn : Type := mkConn { connId : Z; connHost : string }.
#[global] Instance Conn_eq_dec : EqDecision Conn.
Proof. solve_decision. Defined.
#[global] Instance Conn_countable : Countable Conn.
Proof.
  refine (inj_countable' (λ c, (connId c, connHost c)) (λ p, mkConn p.1 p.2) _). by intros [].
Defined.

Record ConnectionParams : Type := mkParams {
  NumConnections : Z; NumMaxConnections : Z; ConnUriList : list string }.
Record ConnectionPool : Type := mkPool {
  params : ConnectionParams;
  conns : list (option Conn);
  idleConns : list (option Conn);
  connToPreparedStmtCache : gmap Conn (gset string);
  nextUriIndex : Z;
  size : Z;
  pendingConnsToClose : Z }.

Definition lenZ {A} (l : list A) : Z := Z.of_nat (length l).
(** Channels of capacity [NumMaxConnections]. *)
Definition send (ps : ConnectionParams) {A} (ch : list A) (a : A) : option (list A) :=
  if lenZ ch <? NumMaxConnections ps then Some (ch ++ [a]) else None.
Definition recv {A} (ch : list A) : option (A * list A) :=
  match ch with [] => None | a :: ch => Some (a, ch) end.

Definition set_conns (p : ConnectionPool) (ch : list (option Conn)) : ConnectionPool :=
  mkPool (params p) ch (idleConns p) (connToPreparedStmtCache p) (nextUriIndex p) (size p) (pendingConnsToClose p).
Definition set_idle (p : ConnectionPool) (ch : list (option Conn)) : ConnectionPool :=
  mkPool (params p) (conns p) ch (connToPreparedStmtCache p) (nextUriIndex p) (size p) (pendingConnsToClose p).
Definition set_cache (p : ConnectionPool) (m : gmap Conn (gset string)) : ConnectionPool :=
  mkPool (params p) (conns p) (idleConns p) m (nextUriIndex p) (size p) (pendingConnsToClose p).
Definition set_size (p : ConnectionPool) (n pending : Z) : ConnectionPool :=
  mkPool (params p) (conns p) (idleConns p) (connToPreparedStmtCache p) (nextUriIndex p) n pending.
Definition set_uri (p : ConnectionPool) (i : Z) : ConnectionPool :=
  mkPool (params p) (conns p) (idleConns p) (connToPreparedStmtCache p) i (size p) (pendingConnsToClose p).

(** ** Construction *)
(** [for i := 0; i < n; i++] with a channel operation in its body. *)
Fixpoint repeatOp {A} (n : nat) (op : A → option A) (a : A) : option A :=
  match n with O => Some a | S n => a ← op a; repeatOp n op a end.
Definition sendIdleNil (p : ConnectionPool) : option ConnectionPool :=
  ch ← send (params p) (idleConns p) None; Some (set_idle p ch).
(** [conn := <-pool.idleConns; pool.conns <- conn] *)
Definition moveIdle (p : ConnectionPool) : option ConnectionPool :=
  '(c, idle) ← recv (idleConns p); ch ← send (params p) (conns p) c; Some (set_idle (set_conns p ch) idle).
Definition NewConnectionPool (ps : ConnectionParams) : option (result ConnectionPool) :=
  if NumMaxConnections ps <? NumConnections ps then Some (Err "invalid pool config")
  else if (NumConnections ps <? 0) || (NumMaxConnections ps <? 1) then Some (Err "invalid pool config")
  else
    let pool := mkPool ps [] [] ∅ 0 (NumConnections ps) 0 in
    pool ← repeatOp (Z.to_nat (NumMaxConnections ps)) sendIdleNil pool;
    pool ← repeatOp (Z.to_nat (NumConnections ps)) moveIdle pool;
    Some (Ok pool).

(** ** Resizing *)
Definition UpdateNumConnections (p : ConnectionPool) (delta : Z) : option (result ConnectionPool) :=
  let newSize := size p + delta in
  if (newSize <? 1) || (NumMaxConnections (params p) <? newSize) then Some (Err "invalid new pool size")
  else if delta =? 0 then Some (Ok p)
  else if 0 <? delta then
    let '(pending, delta) :=
      if 0 <=? pendingConnsToClose p then
        let pendingConnsToNotClose := Z.min (pendingConnsToClose p) delta in
        (pendingConnsToClose p - pendingConnsToNotClose, delta - pendingConnsToNotClose)
      else (pendingConnsToClose p, delta) in
    p ← repeatOp (Z.to_nat delta) moveIdle p;
    Some (Ok (set_size p newSize pending))
  else Some (Ok (set_size p newSize (pendingConnsToClose p - delta))).

(** ** Making a connection *)
Definition getNextUriIndex (p : ConnectionPool) : result (Z * ConnectionPool) :=
  let n := lenZ (ConnUriList (params p)) in
  if n =? 0 then Panic "integer divide by zero"
  else let i := Z.rem (nextUriIndex p + 1) n in Ok (i, set_uri p i).
(** The session variables are set in order; a permission error ends the loop. *)
Fixpoint initSession (results : list (option string)) : option string :=
  match results with
  | [] => None
  | None :: results => initSession results
  | Some err :: _ => if str_contains "permission denied" err then None else Some err
  end.
(** One attempt: what [pgx.Connect] gives and the results of the session script. *)
Record attempt : Type := mkAttempt { dialed : result Conn; script : list (option string) }.
Definition connect (a : attempt) : result Conn :=
  conn ← dialed a;
  match initSession (script a) with Some err => Err err | None => Ok conn end.
(** Attempt [k] of this call to connect to [uri] is [net k uri]; [shuffled] is the
    list in the order drawn. *)
Fixpoint firstConnected (net : nat → string → attempt) (k : nat) (uris : list string) (err : string) : result Conn :=
  match uris with
  | [] => Err err
  | uri :: uris =>
      match connect (net k uri) with
      | Ok conn => Ok conn
      | Err err => firstConnected net (S k) uris err
      | Panic e => Panic e
      end
  end.
Definition createNewConnection (net : nat → string → attempt) (shuffled : list string) (p : ConnectionPool)
    : result (result Conn * ConnectionPool) :=
  '(idx, p) ← getNextUriIndex p;
  match ConnUriList (params p) !! Z.to_nat idx with
  | None => Panic "index out of range"
  | Some uri =>
      Ok (match connect (net 0%nat uri) with
          | Err err => firstConnected net 1 shuffled err
          | r => r
          end, p)
  end.

(** ** Using a connection: [WithConn] up to the call of [fn], and after it *)
Inductive acquired : Type :=
  | Got (conn : Conn) (p : ConnectionPool)
  | Failed (err : string) (p : ConnectionPool)
  | Waits.
Definition acquire (net : nat → string → attempt) (shuffled : list string) (p : ConnectionPool) : result acquired :=
  match recv (conns p) with
  | None => Ok Waits
  | Some (Some conn, ch) => Ok (Got conn (set_conns p ch))
  | Some (None, ch) =>
      '(r, p) ← createNewConnection net shuffled (set_conns p ch);
      match r with
      | Ok conn => Ok (Got conn p)
      | Err err => Ok (Failed err p)
      | Panic e => Panic e
      end
  end.
Definition removePreparedStmtCacheForConn (p : ConnectionPool) (conn : Conn) : ConnectionPool :=
  set_cache p (delete conn (connToPreparedStmtCache p)).
Definition release (p : ConnectionPool) (conn : Conn) (failed : bool) : option ConnectionPool :=
  let '(p, slot) := if failed then (removePreparedStmtCacheForConn p conn, None) else (p, Some conn) in
  if 0 <? pendingConnsToClose p then
    ch ← send (params p) (idleConns p) slot;
    Some (set_size (set_idle p ch) (size p) (pendingConnsToClose p - 1))
  else ch ← send (params p) (conns p) slot; Some (set_conns p ch).

(** ** Prepared statements *)
Definition isStmtAlreadyPreparedOnConn (p : ConnectionPool) (conn : Conn) (ps : string) : bool :=
  match connToPreparedStmtCache p !! conn with
  | None => false
  | Some stmts => bool_decide (ps ∈ stmts)
  end.
Definition cachePreparedStmtForConn (p : ConnectionPool) (conn : Conn) (ps : string) : ConnectionPool :=
  let stmts := default ∅ (connToPreparedStmtCache p !! conn) in
  set_cache p (<[conn := {[ps]} ∪ stmts]> (connToPreparedStmtCache p)).
(** [server]: what [conn.Prepare] answers. *)
Definition PrepareStatement (server : option string) (p : ConnectionPool) (conn : Conn) (stmtName : string)
    : result ConnectionPool :=
  if isStmtAlreadyPreparedOnConn p conn stmtName then Ok p
  else match server with
       | Some err => Err err
       | None => Ok (cachePreparedStmtForConn p conn stmtName)
       end.

(** ** Hosts that went down: one turn of either loop of [RemoveConnectionsForHosts] *)
Definition dropHost (servers : list string) (p : ConnectionPool) (c : option Conn) : ConnectionPool * option Conn :=
  match c with
  | None => (p, None)
  | Some conn => if decide (connHost conn ∈ servers) then (removePreparedStmtCacheForConn p conn, None)
                 else (p, Some conn)
  end.
Definition removeFromConns (servers : list string) (p : ConnectionPool) : option ConnectionPool :=
  '(c, ch) ← recv (conns p);
  let '(p, c) := dropHost servers p c in ch ← send (params p) ch c; Some (set_conns p ch).
Definition removeFromIdle (servers : list string) (p : ConnectionPool) : option ConnectionPool :=
  '(c, ch) ← recv (idleConns p);
  let '(p, c) := dropHost servers p c in ch ← send (params p) ch c; Some (set_idle p ch).
(** The whole call, when nothing else runs meanwhile. *)
Definition RemoveConnectionsForHosts (servers : list string) (p : ConnectionPool) : option ConnectionPool :=
  p ← repeatOp (Z.to_nat (size p)) (removeFromConns servers) p;
  repeatOp (length (idleConns p)) (removeFromIdle servers) p.

(** ** The goroutines around a pool *)
(** [users]: the connections [fn] runs on; [lost]: the slots that [WithConn] took and
    did not return because no connection could be made; [closed] and [made]: the
    connections closed and made so far.  The last three are not kept by the program. *)
Record system : Type := mkSystem {
  pool : ConnectionPool; users : list Conn; lost : Z; closed : gset Conn; made : gset Conn }.
Definition initial (p : ConnectionPool) : system := mkSystem p [] 0 ∅ ∅.
Inductive command : Type :=
  | CAcquire (net : nat → string → attempt) (shuffled : list string)
  | CRelease (i : nat) (failed : bool)
  | CPrepare (i : nat) (stmtName : string) (server : option string)
  | CUpdate (delta : Z)
  | CRemoveFromConns (servers : list string)
  | CRemoveFromIdle (servers : list string).
Definition droppedOf (servers : list string) (ch : list (option Conn)) : gset Conn :=
  match ch with
  | Some c :: _ => if decide (connHost c ∈ servers) then {[c]} else ∅
  | _ => ∅
  end.
Definition run (s : system) (c : command) : option system :=
  match c with
  | CAcquire net shuffled =>
      match acquire net shuffled (pool s) with
      | Ok (Got conn p) =>
          (* [pgx.Connect] gives a new object *)
          if decide (head (conns (pool s)) = Some None ∧ conn ∈ made s) then None
          else Some (mkSystem p (users s ++ [conn]) (lost s) (closed s) ({[conn]} ∪ made s))
      | Ok (Failed _ p) => Some (mkSystem p (users s) (lost s + 1) (closed s) (made s))
      | _ => None
      end
  | CRelease i failed =>
      conn ← users s !! i; p ← release (pool s) conn failed;
      Some (mkSystem p (delete i (users s)) (lost s) (if failed then {[conn]} ∪ closed s else closed s) (made s))
  | CPrepare i stmtName server =>
      conn ← users s !! i;
      match PrepareStatement server (pool s) conn stmtName with
      | Ok p => Some (mkSystem p (users s) (lost s) (closed s) (made s))
      | _ => Some s
      end
  | CUpdate delta =>
      r ← UpdateNumConnections (pool s) delta;
      match r with
      | Ok p => Some (mkSystem p (users s) (lost s) (closed s) (made s))
      | _ => Some s
      end
  | CRemoveFromConns servers =>
      p ← removeFromConns servers (pool s);
      Some (mkSystem p (users s) (lost s) (droppedOf servers (conns (pool s)) ∪ closed s) (made s))
  | CRemoveFromIdle servers =>
      p ← removeFromIdle servers (pool s);
      Some (mkSystem p (users s) (lost s) (droppedOf servers (idleConns (pool s)) ∪ closed s) (made s))
  end.
Definition step (s s' : system) : Prop := ∃ c, run s c = Some s'.
Definition reachable (ps : ConnectionParams) (s : system) : Prop :=
  ∃ p, NewConnectionPool ps = Some (Ok p) ∧ rtc step (initial p) s.

(** ** Channel operations *)
Lemma lenZ_app {A} (l l' : list A) : lenZ (l ++ l') = lenZ l + lenZ l'.
Proof. unfold lenZ. rewrite length_app. lia. Qed.
Lemma lenZ_cons {A} (a : A) l : lenZ (a :: l) = 1 + lenZ l.
Proof. unfold lenZ. cbn. lia. Qed.
Lemma lenZ_nonneg {A} (l : list A) : 0 ≤ lenZ l.
Proof. unfold lenZ. lia. Qed.
Lemma lenZ_nil {A} : lenZ (@nil A) = 0.
Proof. done. Qed.
Lemma lenZ_delete {A} (l : list A) i a : l !! i = Some a → lenZ (delete i l) = lenZ l - 1.
Proof. intros H. unfold lenZ. apply lookup_lt_Some in H as Hl. rewrite (length_delete l i) by eauto. lia. Qed.
Lemma send_Some ps {A} (ch : list A) a ch' : send ps ch a = Some ch' ↔ lenZ ch < NumMaxConnections ps ∧ ch' = ch ++ [a].
Proof. unfold send. destruct (Z.ltb_spec (lenZ ch) (NumMaxConnections ps)); naive_solver lia. Qed.
Lemma send_room ps {A} (ch : list A) a : lenZ ch < NumMaxConnections ps → send ps ch a = Some (ch ++ [a]).
Proof. intros. by apply send_Some. Qed.

(** *** What repeating a channel operation does *)
Lemma moveIdle_Some p p' : moveIdle p = Some p' ↔
  ∃ c idle, idleConns p = c :: idle ∧ lenZ (conns p) < NumMaxConnections (params p) ∧
    p' = set_idle (set_conns p (conns p ++ [c])) idle.
Proof.
  unfold moveIdle, recv. destruct (idleConns p) as [|c idle]; cbn; [naive_solver|].
  destruct (send (params p) (conns p) c) as [ch|] eqn:Hs; cbn.
  - apply send_Some in Hs as [? ->]. naive_solver.
  - split; [done|]. intros (c' & idle' & [= <- <-] & Hl & _). by rewrite send_room in Hs.
Qed.
Lemma moveIdle_n n p : Z.of_nat n ≤ lenZ (idleConns p) →
  lenZ (conns p) + Z.of_nat n ≤ NumMaxConnections (params p) →
  repeatOp n moveIdle p =
    Some (set_idle (set_conns p (conns p ++ take n (idleConns p))) (drop n (idleConns p))).
Proof.
  revert p. induction n as [|n IH]; intros p Hi Hc; cbn [repeatOp].
  - rewrite take_0, drop_0, app_nil_r. by destruct p.
  - destruct (idleConns p) as [|c idle] eqn:He; [unfold lenZ in Hi; cbn in Hi; lia|].
    assert (moveIdle p = Some (set_idle (set_conns p (conns p ++ [c])) idle)) as ->.
    { apply moveIdle_Some. exists c, idle. split; [done|]. split; [lia|done]. }
    cbn [mbind option_bind]. rewrite IH; cbn.
    + by rewrite <- app_assoc.
    + rewrite lenZ_cons in Hi. lia.
    + rewrite lenZ_app, lenZ_cons, lenZ_nil. lia.
Qed.
Lemma repeatOp_nothing {A} n (op : A → option A) a r : repeatOp n op a = Some r → n = 0%nat → r = a.
Proof. intros H ->. by injection H as ->. Qed.
Lemma sendIdle_n n p : lenZ (idleConns p) + Z.of_nat n ≤ NumMaxConnections (params p) →
  repeatOp n sendIdleNil p = Some (set_idle p (idleConns p ++ repeat None n)).
Proof.
  revert p. induction n as [|n IH]; intros p Hc; cbn [repeatOp repeat].
  - rewrite app_nil_r. by destruct p.
  - assert (sendIdleNil p = Some (set_idle p (idleConns p ++ [None]))) as ->.
    { unfold sendIdleNil. by rewrite send_room by lia. }
    cbn [mbind option_bind]. rewrite IH; cbn.
    + by rewrite <- app_assoc.
    + rewrite lenZ_app, lenZ_cons, lenZ_nil. lia.
Qed.
Lemma repeat_take {A} (a : A) n m : (n ≤ m)%nat → take n (repeat a m) = repeat a n.
Proof. revert m. induction n as [|n IH]; intros [|m] H; cbn; [done..|lia|]. rewrite IH by lia. done. Qed.
Lemma repeat_drop {A} (a : A) n m : drop n (repeat a m) = repeat a (m - n).
Proof. revert m. induction n as [|n IH]; intros [|m]; cbn; try done. Qed.

(** A pool is refused or built with all its slots; building it never blocks. *)
Definition validParams (ps : ConnectionParams) : Prop :=
  0 ≤ NumConnections ps ≤ NumMaxConnections ps ∧ 1 ≤ NumMaxConnections ps.
Lemma NewPool_ok ps : validParams ps → NewConnectionPool ps =
  Some (Ok (mkPool ps (repeat None (Z.to_nat (NumConnections ps)))
              (repeat None (Z.to_nat (NumMaxConnections ps - NumConnections ps))) ∅ 0 (NumConnections ps) 0)).
Proof.
  intros [H1 H2]. unfold NewConnectionPool.
  rewrite (proj2 (Z.ltb_ge _ _)) by lia. rewrite (proj2 (Z.ltb_ge _ _)), (proj2 (Z.ltb_ge _ _)) by lia. cbn [orb].
  rewrite sendIdle_n by (unfold lenZ; cbn; lia). cbn [mbind option_bind set_idle idleConns app].
  rewrite moveIdle_n; cbn.
  - rewrite repeat_take, repeat_drop by lia. unfold set_idle, set_conns; cbn. do 3 f_equal. f_equal. lia.
  - unfold lenZ. rewrite repeat_length. lia.
  - unfold lenZ; cbn. lia.
Qed.
Lemma New_total ps : ∃ r, NewConnectionPool ps = Some r ∧ (is_ok r = true ↔ validParams ps).
Proof.
  unfold validParams. destruct (decide (0 ≤ NumConnections ps ≤ NumMaxConnections ps ∧ 1 ≤ NumMaxConnections ps)) as [H|H].
  - eexists. split; [by apply NewPool_ok|]. done.
  - exists (Err "invalid pool config"). split; [|done]. unfold NewConnectionPool.
    destruct (Z.ltb_spec (NumMaxConnections ps) (NumConnections ps)); [done|].
    destruct (Z.ltb_spec (NumConnections ps) 0); [done|].
    destruct (Z.ltb_spec (NumMaxConnections ps) 1); [done|]. lia.
Qed.
Lemma New_valid ps p : NewConnectionPool ps = Some (Ok p) → validParams ps.
Proof. intros Hp. destruct (New_total ps) as (r & Hr & Hiff). rewrite Hp in Hr. injection Hr as <-. by apply Hiff. Qed.

(** ** The invariant *)
(** Slots are in a channel, with a user, or lost. *)
Record SlotInv (ps : ConnectionParams) (s : system) : Prop := mkSlotInv {
  si_params : params (pool s) = ps;
  si_idle : lenZ (idleConns (pool s)) + size (pool s) + pendingConnsToClose (pool s) = NumMaxConnections ps;
  si_conns : lenZ (conns (pool s)) + lenZ (users s) + lost s = size (pool s) + pendingConnsToClose (pool s);
  si_nonneg : 0 ≤ pendingConnsToClose (pool s) ∧ 0 ≤ lost s ∧ 0 ≤ size (pool s) }.
(** Every connection that is held or waits. *)
Definition held (s : system) : list Conn :=
  users s ++ omap id (conns (pool s)) ++ omap id (idleConns (pool s)).
Record ConnInv (s : system) : Prop := mkConnInv {
  ci_nodup : NoDup (held s);
  ci_made : ∀ c, c ∈ held s → c ∈ made s ∧ c ∉ closed s;
  ci_closed : closed s ⊆ made s;
  ci_cache : ∀ c, is_Some (connToPreparedStmtCache (pool s) !! c) → c ∈ held s }.

Lemma acquire_cases net shuffled p r : acquire net shuffled p = Ok r →
  (conns p = [] ∧ r = Waits) ∨
  (∃ c ch, conns p = Some c :: ch ∧ r = Got c (set_conns p ch)) ∨
  (∃ ch i, conns p = None :: ch ∧
     ((∃ c, r = Got c (set_uri (set_conns p ch) i)) ∨ ∃ e, r = Failed e (set_uri (set_conns p ch) i))).
Proof.
  unfold acquire. destruct (conns p) as [|[c|] ch] eqn:Hc; cbn [recv].
  - intros [= <-]. by left.
  - intros [= <-]. right. left. by exists c, ch.
  - unfold createNewConnection, getNextUriIndex. destruct (_ =? 0); [done|]. cbn [mbind result_bind].
    destruct (ConnUriList _ !! _); [|done]. cbn [mbind result_bind]. intros Hr. right. right. exists ch, (Z.rem (nextUriIndex (set_conns p ch) + 1) (lenZ (ConnUriList (params (set_conns p ch))))).
    split; [done|]. destruct (match connect _ with Ok _ => _ | _ => _ end) as [c|e|e]; [left|right|done];
      injection Hr as <-; eauto.
Qed.
Lemma release_room ps s c : SlotInv ps s → c ∈ users s → ∀ failed, ∃ p', release (pool s) c failed = Some p'.
Proof.
  intros [H1 H2 H3 H4] Hc failed. unfold release.
  assert (1 ≤ lenZ (users s)) by (destruct (users s); [set_solver|rewrite lenZ_cons; pose proof (lenZ_nonneg l); lia]).
  pose proof (lenZ_nonneg (conns (pool s))). pose proof (lenZ_nonneg (idleConns (pool s))).
  destruct failed; cbn; (destruct (Z.ltb_spec 0 (pendingConnsToClose (pool s)));
    rewrite send_room by (rewrite H1; lia); cbn; eauto).
Qed.
(** The receives of a grow never wait, and its sends find room. *)
Lemma Update_ok ps s delta : SlotInv ps s →
  1 ≤ size (pool s) + delta ≤ NumMaxConnections ps →
  ∃ n, UpdateNumConnections (pool s) delta =
    Some (Ok (set_size (set_idle (set_conns (pool s) (conns (pool s) ++ take n (idleConns (pool s))))
                          (drop n (idleConns (pool s))))
                (size (pool s) + delta)
                (if 0 <? delta then Z.max 0 (pendingConnsToClose (pool s) - delta)
                 else pendingConnsToClose (pool s) - delta))) ∧
    Z.of_nat n = Z.max 0 (delta - pendingConnsToClose (pool s)) ∧ Z.of_nat n ≤ lenZ (idleConns (pool s)).
Proof.
  intros [H1 H2 H3 (H4 & H5 & H6)] Hd. unfold UpdateNumConnections. rewrite H1.
  rewrite (proj2 (Z.ltb_ge _ _)), (proj2 (Z.ltb_ge _ _)) by lia. cbn [orb].
  pose proof (lenZ_nonneg (users s)). pose proof (lenZ_nonneg (conns (pool s))). pose proof (lenZ_nonneg (idleConns (pool s))).
  destruct (Z.eqb_spec delta 0) as [->|Hne].
  { exists 0%nat. rewrite take_0, drop_0, app_nil_r. split; [|lia]. rewrite Z.add_0_r, Z.sub_0_r. cbn. by destruct (pool s). }
  destruct (Z.ltb_spec 0 delta) as [Hpos|Hneg].
  - rewrite (proj2 (Z.leb_le _ _)) by lia.
    set (p := pendingConnsToClose (pool s)) in *.
    exists (Z.to_nat (delta - Z.min p delta)). rewrite moveIdle_n.
    + cbn [mbind option_bind]. split; [|lia]. do 3 f_equal. lia.
    + lia.
    + rewrite H1. lia.
  - exists 0%nat. rewrite take_0, drop_0, app_nil_r. split; [|lia]. by destruct (pool s).
Qed.
Lemma Update_refused ps s delta : params (pool s) = ps →
  ¬ 1 ≤ size (pool s) + delta ≤ NumMaxConnections ps →
  UpdateNumConnections (pool s) delta = Some (Err "invalid new pool size").
Proof.
  intros H1 Hd. unfold UpdateNumConnections. rewrite H1.
  destruct (Z.ltb_spec (size (pool s) + delta) 1); [done|].
  destruct (Z.ltb_spec (NumMaxConnections ps) (size (pool s) + delta)); [done|]. lia.
Qed.

Lemma release_cases p c failed p' : release p c failed = Some p' →
  ∃ q, q = (if failed then removePreparedStmtCacheForConn p c else p) ∧
    let slot := if failed then None else Some c in
    (0 < pendingConnsToClose p ∧ p' = set_size (set_idle q (idleConns p ++ [slot])) (size p) (pendingConnsToClose p - 1) ∨
     pendingConnsToClose p ≤ 0 ∧ p' = set_conns q (conns p ++ [slot])).
Proof.
  unfold release. intros H. eexists. split; [done|].
  destruct failed; cbn in *; destruct (Z.ltb_spec 0 (pendingConnsToClose p)) as [Hp|Hp];
    destruct (send _ _ _) eqn:Hs in H; cbn in H; try done; injection H as <-; apply send_Some in Hs as [_ ->]; auto.
Qed.
Lemma dropHost_cases servers p c : dropHost servers p c =
  match c with
  | Some conn => if decide (connHost conn ∈ servers) then (removePreparedStmtCacheForConn p conn, None) else (p, c)
  | None => (p, None)
  end.
Proof. by destruct c. Qed.
Lemma removeFromConns_cases servers p p' : removeFromConns servers p = Some p' →
  ∃ c ch, conns p = c :: ch ∧
    p' = set_conns (dropHost servers p c).1 (ch ++ [(dropHost servers p c).2]).
Proof.
  unfold removeFromConns. destruct (conns p) as [|c ch]; cbn; [done|].
  destruct (dropHost servers p c) as [q d] eqn:Hd. destruct (send _ _ _) as [ch'|] eqn:Hs; cbn; [|done].
  intros [= <-]. apply send_Some in Hs as [_ ->]. exists c, ch. by rewrite Hd.
Qed.
Lemma removeFromIdle_cases servers p p' : removeFromIdle servers p = Some p' →
  ∃ c ch, idleConns p = c :: ch ∧
    p' = set_idle (dropHost servers p c).1 (ch ++ [(dropHost servers p c).2]).
Proof.
  unfold removeFromIdle. destruct (idleConns p) as [|c ch]; cbn; [done|].
  destruct (dropHost servers p c) as [q d] eqn:Hd. destruct (send _ _ _) as [ch'|] eqn:Hs; cbn; [|done].
  intros [= <-]. apply send_Some in Hs as [_ ->]. exists c, ch. by rewrite Hd.
Qed.
Lemma dropHost_same servers p c :
  let q := (dropHost servers p c).1 in
  params q = params p ∧ conns q = conns p ∧ idleConns q = idleConns p ∧ size q = size p ∧
  pendingConnsToClose q = pendingConnsToClose p.
Proof. rewrite dropHost_cases. destruct c as [c|]; [case_decide|]; done. Qed.
Lemma Prepare_cases server p c stmt p' : PrepareStatement server p c stmt = Ok p' →
  p' = p ∨ p' = cachePreparedStmtForConn p c stmt.
Proof. unfold PrepareStatement. destruct (isStmtAlreadyPreparedOnConn _ _ _); [|destruct server]; naive_solver. Qed.

Lemma SlotInv_step ps s s' : SlotInv ps s → step s s' → SlotInv ps s'.
Proof.
  intros HI [c Hr]. pose proof HI as [H1 H2 H3 (H4 & H5 & H6)]. destruct c; cbn [run] in Hr.
  - destruct (acquire net shuffled (pool s)) as [r| |] eqn:Ha; [|done..].
    apply acquire_cases in Ha as [[_ ->]|[(c & ch & Hc & ->)|(ch & i & Hc & [[c ->]|[e ->]])]]; [done|..].
    + case_decide; [done|]. injection Hr as <-. rewrite Hc, lenZ_cons in H3. split; cbn; try done.
      rewrite lenZ_app, lenZ_cons, lenZ_nil. lia.
    + case_decide; [done|]. injection Hr as <-. rewrite Hc, lenZ_cons in H3. split; cbn; try done.
      rewrite lenZ_app, lenZ_cons, lenZ_nil. lia.
    + injection Hr as <-. rewrite Hc, lenZ_cons in H3. split; cbn; try done; lia.
  - destruct (users s !! i) as [c|] eqn:Hu; cbn in Hr; [|done].
    destruct (release (pool s) c failed) as [p'|] eqn:Hrel; cbn in Hr; [|done]. injection Hr as <-.
    apply release_cases in Hrel as (q & -> & [[Hp ->]|[Hp ->]]); split; destruct failed; cbn;
      rewrite ?lenZ_app, ?lenZ_cons, ?lenZ_nil, ?(lenZ_delete _ _ _ Hu); try done; lia.
  - destruct (users s !! i) as [c|] eqn:Hu; cbn in Hr; [|done].
    destruct (PrepareStatement server (pool s) c stmtName) as [p'| |] eqn:HP; injection Hr as <-; [|done..].
    apply Prepare_cases in HP as [-> | ->]; by split.
  - destruct (decide (1 ≤ size (pool s) + delta ≤ NumMaxConnections ps)) as [Hd|Hd].
    + destruct (Update_ok ps s delta HI Hd) as (n & HU & Hn & Hle). rewrite HU in Hr. cbn in Hr. injection Hr as <-.
      split; cbn; [done| | |].
      * unfold lenZ in *. rewrite length_drop. destruct (Z.ltb_spec 0 delta); lia.
      * rewrite lenZ_app. unfold lenZ in *. rewrite length_take. destruct (Z.ltb_spec 0 delta); lia.
      * destruct (Z.ltb_spec 0 delta); lia.
    + rewrite (Update_refused ps) in Hr by done. cbn in Hr. by injection Hr as <-.
  - destruct (removeFromConns servers (pool s)) as [p'|] eqn:HR; cbn in Hr; [|done]. injection Hr as <-.
    apply removeFromConns_cases in HR as (c & ch & Hc & ->). destruct (dropHost_same servers (pool s) c) as (E1 & E2 & E3 & E4 & E5).
    rewrite Hc, lenZ_cons in H3. split; cbn; rewrite ?lenZ_app, ?lenZ_cons, ?lenZ_nil, ?E1, ?E2, ?E3, ?E4, ?E5; try done; lia.
  - destruct (removeFromIdle servers (pool s)) as [p'|] eqn:HR; cbn in Hr; [|done]. injection Hr as <-.
    apply removeFromIdle_cases in HR as (c & ch & Hc & ->). destruct (dropHost_same servers (pool s) c) as (E1 & E2 & E3 & E4 & E5).
    rewrite Hc, lenZ_cons in H2. split; cbn; rewrite ?lenZ_app, ?lenZ_cons, ?lenZ_nil, ?E1, ?E2, ?E3, ?E4, ?E5; try done; lia.
Qed.
Lemma reachable_SlotInv ps s : reachable ps s → SlotInv ps s ∧ validParams ps.
Proof.
  intros (p & Hp & Hr). pose proof (New_valid _ _ Hp) as Hv.
  split; [|done]. rewrite NewPool_ok in Hp by done. injection Hp as <-.
  revert Hr. apply rtc_invariant; [|by intros; eapply SlotInv_step].
  destruct Hv. split; cbn; unfold lenZ; rewrite ?repeat_length; try done; cbn; lia.
Qed.

Lemma ConnInv_perm s s' :
  ConnInv s → held s' ≡ₚ held s → closed s' = closed s → made s' = made s →
  (∀ c, is_Some (connToPreparedStmtCache (pool s') !! c) →
     is_Some (connToPreparedStmtCache (pool s) !! c) ∨ c ∈ held s) → ConnInv s'.
Proof.
  intros [H1 H2 H3 H4] Hp Hc Hm Hcache. split.
  - by rewrite Hp.
  - intros c. rewrite Hp, Hc, Hm. apply H2.
  - by rewrite Hc, Hm.
  - intros c Hs. rewrite Hp. destruct (Hcache c Hs); auto.
Qed.
(** One connection of those held is closed, with its cache entry. *)
Lemma ConnInv_close s s' c :
  ConnInv s → held s ≡ₚ c :: held s' → closed s' = {[c]} ∪ closed s → made s' = made s →
  connToPreparedStmtCache (pool s') = delete c (connToPreparedStmtCache (pool s)) → ConnInv s'.
Proof.
  intros [H1 H2 H3 H4] Hp Hc Hm Hcache. rewrite Hp in H1. apply NoDup_cons in H1 as [Hni Hnd].
  assert (∀ d, d ∈ held s ↔ d = c ∨ d ∈ held s') as Hiff by (intros d; by rewrite Hp, elem_of_cons).
  split.
  - done.
  - intros d Hd. rewrite Hc, Hm. destruct (H2 d) as [? ?]; [apply Hiff; by right|].
    split; [done|]. rewrite not_elem_of_union, not_elem_of_singleton. split; [|done]. by intros ->.
  - rewrite Hc, Hm. intros d [->%elem_of_singleton|Hd]%elem_of_union; [apply H2, Hiff; by left|by apply H3].
  - intros d. rewrite Hcache, lookup_delete. case_decide as He; [by intros []|]. intros Hs%H4%Hiff. destruct Hs; congruence.
Qed.
Lemma ConnInv_fresh s s' c :
  ConnInv s → c ∉ made s → held s' ≡ₚ c :: held s → closed s' = closed s → made s' = {[c]} ∪ made s →
  connToPreparedStmtCache (pool s') = connToPreparedStmtCache (pool s) → ConnInv s'.
Proof.
  intros [H1 H2 H3 H4] Hf Hp Hc Hm Hcache. split.
  - rewrite Hp. apply NoDup_cons. split; [|done]. by intros [? _]%H2.
  - intros d. rewrite Hp, elem_of_cons, Hc, Hm. intros [->|Hd]; [set_solver|]. destruct (H2 d Hd). set_solver.
  - rewrite Hc, Hm. set_solver.
  - intros d. rewrite Hcache, Hp. intros Hs. right. by apply H4.
Qed.
Lemma omap_id_snoc {A} (l : list (option A)) (o : option A) : omap id (l ++ [o]) = omap id l ++ option_list o.
Proof. rewrite omap_app. by destruct o. Qed.

(** A slot taken from a channel and put back, emptied when its host is down. *)
Lemma ConnInv_drop s s' servers c ch X :
  ConnInv s → held s ≡ₚ option_list c ++ X → held s' ≡ₚ X ++ option_list (dropHost servers (pool s) c).2 →
  closed s' = droppedOf servers (c :: ch) ∪ closed s → made s' = made s →
  connToPreparedStmtCache (pool s') = connToPreparedStmtCache (dropHost servers (pool s) c).1 → ConnInv s'.
Proof.
  rewrite dropHost_cases. unfold droppedOf. intros HI Hh Hh' Hc Hm Hcache.
  destruct c as [c|]; [case_decide|]; cbn in *.
  - rewrite app_nil_r in Hh'. apply (ConnInv_close s _ c); try done. by rewrite Hh'.
  - apply (ConnInv_perm s); try done; [|by rewrite Hc; set_solver|by rewrite Hcache; left].
    rewrite Hh', Hh. solve_Permutation.
  - apply (ConnInv_perm s); try done; [|by rewrite Hc; set_solver|by rewrite Hcache; left].
    by rewrite Hh', Hh, app_nil_r.
Qed.
Lemma ConnInv_step s s' : ConnInv s → step s s' → ConnInv s'.
Proof.
  intros HI [c Hr]. destruct c; cbn [run] in Hr.
  - destruct (acquire net shuffled (pool s)) as [r| |] eqn:Ha; [|done..].
    apply acquire_cases in Ha as [[_ ->]|[(c & ch & Hc & ->)|(ch & i & Hc & [[c ->]|[e ->]])]]; [done|..].
    + case_decide; [done|]. injection Hr as <-.
      assert (c ∈ made s) as Hm by (apply (ci_made _ HI); unfold held; rewrite Hc; cbn; set_solver).
      apply (ConnInv_perm s); try done; cbn.
      * unfold held; cbn. rewrite Hc; cbn. solve_Permutation.
      * set_solver.
      * by left.
    + case_decide as Hd; [done|]. injection Hr as <-. rewrite Hc in Hd. cbn in Hd.
      apply (ConnInv_fresh s _ c); try done.
      * naive_solver.
      * unfold held; cbn. rewrite Hc; cbn. solve_Permutation.
    + injection Hr as <-. apply (ConnInv_perm s); try done; cbn; [|by left].
      unfold held; cbn. by rewrite Hc.
  - destruct (users s !! i) as [c|] eqn:Hu; cbn in Hr; [|done].
    destruct (release (pool s) c failed) as [p'|] eqn:Hrel; cbn in Hr; [|done]. injection Hr as <-.
    pose proof (delete_Permutation _ _ _ Hu) as Hperm. set (us := delete i (users s)) in *. clearbody us.
    apply release_cases in Hrel as (q & -> & Hcase). destruct failed; cbn in Hcase.
    + apply (ConnInv_close s _ c); try done; cbn.
      * unfold held; cbn. rewrite Hperm. destruct Hcase as [[_ ->]|[_ ->]]; cbn; rewrite omap_id_snoc; cbn; by rewrite app_nil_r.
      * by destruct Hcase as [[_ ->]|[_ ->]].
    + apply (ConnInv_perm s); try done; cbn.
      * unfold held; cbn. rewrite Hperm. destruct Hcase as [[_ ->]|[_ ->]]; cbn; rewrite omap_id_snoc; cbn; solve_Permutation.
      * intros d Hd. left. by destruct Hcase as [[_ ->]|[_ ->]].
  - destruct (users s !! i) as [c|] eqn:Hu; cbn in Hr; [|done].
    destruct (PrepareStatement server (pool s) c stmtName) as [p'| |] eqn:HP; injection Hr as <-; [|done..].
    apply Prepare_cases in HP as [-> | ->]; apply (ConnInv_perm s); try done; cbn; [by left|].
    intros d. rewrite lookup_insert. case_decide as He; [|by left]. subst d. right.
    apply elem_of_app. left. by eapply list_elem_of_lookup_2.
  - destruct (UpdateNumConnections (pool s) delta) as [[p'|e|e]|] eqn:HU; cbn in Hr; [|by injection Hr as <-..|done].
    injection Hr as <-. revert HU. unfold UpdateNumConnections. destruct (_ || _); [done|].
    destruct (delta =? 0); [intros [= <-]; by apply (ConnInv_perm s); try done; left|].
    destruct (0 <? delta); [|intros [= <-]; by apply (ConnInv_perm s); try done; left].
    destruct (if 0 <=? pendingConnsToClose (pool s) then _ else _) as [pend n].
    destruct (repeatOp (Z.to_nat n) moveIdle (pool s)) as [q|] eqn:Hrep; cbn; [|done]. intros [= <-].
    assert (∀ n p q, repeatOp n moveIdle p = Some q → omap id (conns q) ++ omap id (idleConns q) ≡ₚ omap id (conns p) ++ omap id (idleConns p) ∧
      connToPreparedStmtCache q = connToPreparedStmtCache p) as Hgen.
    { clear. induction n as [|n IH]; intros p q; cbn [repeatOp]; [by intros [= <-]|].
      destruct (moveIdle p) as [p1|] eqn:Hm; cbn; [|done]. intros [IH1 IH2]%IH.
      apply moveIdle_Some in Hm as (c & idle & Hidle & _ & ->). rewrite IH1, IH2. cbn. split; [|done].
      rewrite Hidle, omap_id_snoc. destruct c; cbn; solve_Permutation. }
    apply Hgen in Hrep as [E1 E2]. apply (ConnInv_perm s); try done; cbn; [|rewrite E2; by left].
    unfold held; cbn. by rewrite E1.
  - destruct (removeFromConns servers (pool s)) as [p'|] eqn:HR; cbn in Hr; [|done]. injection Hr as <-.
    apply removeFromConns_cases in HR as (c & ch & Hc & ->).
    destruct (dropHost_same servers (pool s) c) as (_ & E2 & E3 & _).
    apply (ConnInv_drop s _ servers c ch (users s ++ omap id ch ++ omap id (idleConns (pool s)))); try done; cbn.
    + unfold held; cbn. rewrite Hc; destruct c; cbn; solve_Permutation.
    + unfold held; cbn. rewrite omap_id_snoc, E3. solve_Permutation.
    + by rewrite Hc.
  - destruct (removeFromIdle servers (pool s)) as [p'|] eqn:HR; cbn in Hr; [|done]. injection Hr as <-.
    apply removeFromIdle_cases in HR as (c & ch & Hc & ->).
    destruct (dropHost_same servers (pool s) c) as (_ & E2 & E3 & _).
    apply (ConnInv_drop s _ servers c ch (users s ++ omap id (conns (pool s)) ++ omap id ch)); try done; cbn.
    + unfold held; cbn. rewrite Hc; destruct c; cbn; solve_Permutation.
    + unfold held; cbn. rewrite omap_id_snoc, E2. solve_Permutation.
    + by rewrite Hc.
Qed.
Lemma reachable_ConnInv ps s : reachable ps s → ConnInv s.
Proof.
  intros (p & Hp & Hr). revert Hr. apply rtc_invariant; [|by intros; eapply ConnInv_step].
  pose proof (New_valid _ _ Hp) as Hv.
  rewrite NewPool_ok in Hp by done. injection Hp as <-.
  assert (∀ n, omap id (repeat (@None Conn) n) = []) as Hnil by (induction n; done).
  split; unfold held; cbn; rewrite ?Hnil; cbn; try set_solver; [constructor|].
  intros c [x Hx]. by rewrite lookup_empty in Hx.
Qed.

(** ** What the pool guarantees *)


(** No channel operation of the pool waits except a [WithConn] that finds every slot
    taken: building a pool, giving a connection back and resizing always complete, a
    resize within the limits sets the size and any other is refused. *)
Theorem pool_operations_complete (ps : ConnectionParams) (s : system) :
  reachable ps s →
  (∀ c failed, c ∈ users s → is_Some (release (pool s) c failed)) ∧
  (∀ delta, 1 ≤ size (pool s) + delta ≤ NumMaxConnections ps →
     ∃ p, UpdateNumConnections (pool s) delta = Some (Ok p) ∧ size p = size (pool s) + delta) ∧
  (∀ delta, ¬ 1 ≤ size (pool s) + delta ≤ NumMaxConnections ps →
     UpdateNumConnections (pool s) delta = Some (Err "invalid new pool size")) ∧
  (∀ net shuffled, acquire net shuffled (pool s) = Ok Waits →
     lenZ (users s) + lost s = size (pool s) + pendingConnsToClose (pool s)).
Proof.
  intros [HI _]%reachable_SlotInv. split_and!.
  - intros c failed Hc. destruct (release_room _ _ _ HI Hc failed) as [p' ->]. eauto.
  - intros delta Hd. destruct (Update_ok _ _ _ HI Hd) as (n & -> & _). eauto.
  - intros delta Hd. by apply (Update_refused ps); [apply HI|].
  - intros net shuffled [[Hc _]|[(c & ch & _ & [=])|(ch & i & _ & [[c [=]]|[e [=]]])]]%acquire_cases.
    pose proof (si_conns _ _ HI) as H. rewrite Hc, lenZ_nil in H. lia.
Qed.

Definition exec (cs : list command) (s : system) : option system :=
  foldl (λ os c, s ← os; run s c) (Some s) cs.
Lemma exec_rtc cs s s' : exec cs s = Some s' → rtc step s s'.
Proof.
  unfold exec. revert s. induction cs as [|c cs IH]; intros s; cbn [foldl]; [by intros [= <-]; constructor|].
  cbn [mbind option_bind]. destruct (run s c) as [s1|] eqn:Hc.
  - intros H%IH. eapply rtc_l; [by exists c|done].
  - intros H. exfalso. clear -H. induction cs as [|c' cs IH]; [done|]. by apply IH.
Qed.
Lemma exec_app cs cs' s s1 : exec cs s = Some s1 → exec (cs ++ cs') s = exec cs' s1.
Proof. unfold exec. rewrite foldl_app. by intros ->. Qed.

Definition failing (net : nat → string → attempt) : Prop := ∀ k uri, ∃ err, connect (net k uri) = Err err.
Lemma acquire_fails net shuffled p ch :
  failing net → ConnUriList (params p) ≠ [] → conns p = None :: ch →
  ∃ e i, acquire net shuffled p = Ok (Failed e (set_uri (set_conns p ch) i)).
Proof.
  intros Hf Hu Hc. unfold acquire. rewrite Hc. cbn [recv]. unfold createNewConnection, getNextUriIndex. cbn [params set_conns].
  destruct (ConnUriList (params p)) as [|u us] eqn:Huris; [done|].
  rewrite (proj2 (Z.eqb_neq _ _)) by (unfold lenZ; cbn; lia). cbn [mbind result_bind].
  set (i := Z.rem _ _). cbn [params set_uri set_conns]. rewrite Huris.
  assert (is_Some ((u :: us) !! Z.to_nat i)) as [uri ->].
  { apply lookup_lt_is_Some. assert (lenZ (u :: us) ≠ 0) as Hn by (unfold lenZ; cbn; lia).
    pose proof (Z.rem_bound_abs (nextUriIndex (set_conns p ch) + 1) _ Hn) as Hb. fold i in Hb. unfold lenZ in Hb. lia. }
  assert (∀ k uris err, ∃ e, firstConnected net k uris err = Err e) as Hall.
  { intros k uris. revert k. induction uris as [|v vs IH]; intros k err; cbn; [eauto|]. destruct (Hf k v) as [e ->]. apply IH. }
  destruct (Hf 0%nat uri) as [e ->]. destruct (Hall 1%nat shuffled e) as [e' ->]. cbn. eauto.
Qed.

(** A [WithConn] that cannot connect does not return the slot it took: when the target
    cannot be reached, as many failing calls as the pool has slots leave a pool in
    which, with no connection in use, every further call waits until the pool is grown. *)
Theorem failed_connections_drain_the_pool (ps : ConnectionParams) (p : ConnectionPool)
    (net : nat → string → attempt) (shuffled : list string) :
  NewConnectionPool ps = Some (Ok p) → ConnUriList ps ≠ [] → failing net →
  ∃ s, exec (repeat (CAcquire net shuffled) (Z.to_nat (NumConnections ps))) (initial p) = Some s ∧
    users s = [] ∧ size (pool s) = NumConnections ps ∧
    ∀ net' shuffled', acquire net' shuffled' (pool s) = Ok Waits.
Proof.
  intros Hp Hu Hf. pose proof (New_valid _ _ Hp) as Hv.
  rewrite NewPool_ok in Hp by done. injection Hp as <-.
  set (n := Z.to_nat (NumConnections ps)). set (s0 := initial _).
  assert (params (pool s0) = ps ∧ conns (pool s0) = repeat None n ∧ users s0 = [] ∧ size (pool s0) = NumConnections ps) as H0 by done.
  clearbody s0. revert s0 H0. clearbody n. induction n as [|n IH]; intros s0 (H1 & H2 & H3 & H4).
  - exists s0. split; [done|]. split; [done|]. split; [done|]. intros. unfold acquire. by rewrite H2.
  - destruct (acquire_fails net shuffled (pool s0) (repeat None n)) as (e & i & Ha); [done|by rewrite H1|done|].
    cbn [repeat]. unfold exec. cbn [foldl mbind option_bind]. cbn [run]. rewrite Ha. apply IH. done.
Qed.

(** ** A pool of two slots, of at most three *)
Definition sampleParams : ConnectionParams := mkParams 2 3 ["uri1"; "uri2"].
Definition samplePool : ConnectionPool :=
  mkPool sampleParams [None; None] [None] ∅ 0 2 0.
(** The k-th connection made; the host is the URI. *)
Definition reach (id : Z) (k : nat) (uri : string) : attempt := mkAttempt (Ok (mkConn id uri)) [None; None].
Definition down (k : nat) (uri : string) : attempt := mkAttempt (Err "connection refused") [].
Definition sampleCommands : list command :=
  [CAcquire (reach 1) []; CAcquire (reach 2) []; CPrepare 0 "stmt" None; CUpdate (-1); CRelease 0 false;
   CUpdate 2; CAcquire down ["uri1"]; CRelease 0 true; CRemoveFromIdle ["uri1"]].
Definition sampleState : system := default (initial samplePool) (exec (take 6 sampleCommands) (initial samplePool)).
Lemma sample_reachable : reachable sampleParams sampleState.
Proof. exists samplePool. split; [done|]. apply (exec_rtc (take 6 sampleCommands)). vm_compute. reflexivity. Qed.
Lemma pool_operations_complete_witness :
  ∃ p, UpdateNumConnections (pool sampleState) (-1) = Some (Ok p) ∧ size p = 2.
Proof.
  destruct (pool_operations_complete sampleParams sampleState sample_reachable) as (_ & H & _).
  apply (H (-1)). vm_compute. split; discriminate.
Defined.
Lemma failed_connections_drain_the_pool_witness :
  ∃ s, exec (repeat (CAcquire down ["uri2"; "uri1"]) 2) (initial samplePool) = Some s ∧ users s = [].
Proof.
  destruct (failed_connections_drain_the_pool sampleParams samplePool down ["uri2"; "uri1"]) as (s & H & Hu & _).
  - vm_compute. reflexivity.
  - discriminate.
  - intros k uri. exists "connection refused". reflexivity.
  - exists s. split; [exact H|exact Hu].
Defined.
End ConnPool.
