(* ===== verification/AdaptiveParallelism.v ===== *)
(** * Adaptive parallelism (src/yb-voyager/src/adaptiveparallelism/adaptive_parallelism.go)

    A loop that reads the metrics of the target's nodes and takes a connection from
    the pool, or adds one.  The pool is reached through the interface [TargetPool],
    as in the source; ConnPool.v's pool implements it.  Floating-point numbers are
    an argument: only their sum, as a percentage, is compared with a threshold.
    A map of nodes is the list in the order it is ranged over. *)
From S2P Require Import Prelude ConnPool.

(** The interface [TargetYugabyteDBWithConnectionPool] and what the loop relies on. *)
Class TargetPool (P : Type) := {
  GetNumConnectionsInPool : P → Z;
  GetNumMaxConnectionsInPool : P → Z;
  UpdateNumConnectionsInPool : P → Z → option (result P) }.
Class TargetPoolLaws (P : Type) `{TargetPool P} (I : P → Prop) : Prop := {
  pool_update p delta :
    I p → 1 ≤ GetNumConnectionsInPool p + delta ≤ GetNumMaxConnectionsInPool p →
    ∃ p', UpdateNumConnectionsInPool p delta = Some (Ok p') ∧ I p' ∧
      GetNumConnectionsInPool p' = GetNumConnectionsInPool p + delta ∧
      GetNumMaxConnectionsInPool p' = GetNumMaxConnectionsInPool p }.

Module AdaptiveParallelism.

Definition MIN_PARALLELISM : Z := 1.
Definition DEFAULT_MAX_CPU_THRESHOLD_BALANCED : Z := 80.
Definition DEFAULT_MAX_CPU_THRESHOLD_AGGRESSIVE : Z := 95.
Definition DEFAULT_MIN_AVAILABLE_MEMORY_THRESHOLD : Z := 10.
Inductive AdaptiveParallelismMode : Type := Disabled | Balanced | Aggressive.
Definition IsEnabled (mode : AdaptiveParallelismMode) : bool :=
  match mode with Disabled => false | _ => true end.
(** The thresholds; an environment variable overrides a default. *)
Record Config : Type := mkConfig { MAX_CPU_THRESHOLD : Z; MIN_AVAILABLE_MEMORY_THRESHOLD : Z }.
Definition readConfig (mode : AdaptiveParallelismMode) (envCpu envMemory : option Z) : Config :=
  let defaultMaxCpuThreshold :=
    match mode with
    | Balanced => DEFAULT_MAX_CPU_THRESHOLD_BALANCED
    | Aggressive => DEFAULT_MAX_CPU_THRESHOLD_AGGRESSIVE
    | Disabled => 0
    end in
  mkConfig (default defaultMaxCpuThreshold envCpu) (default DEFAULT_MIN_AVAILABLE_MEMORY_THRESHOLD envMemory).

Record NodeMetrics : Type := mkNode { Status : string; Metrics : gmap string string }.
Definition metric (n : NodeMetrics) (k : string) : string := default "" (Metrics n !! k).
Definition CPU_USAGE_USER_METRIC : string := "cpu_usage_user".
Definition CPU_USAGE_SYSTEM_METRIC : string := "cpu_usage_system".
Definition TSERVER_ROOT_MEMORY_CONSUMPTION_METRIC : string := "tserver_root_memory_consumption".
Definition TSERVER_ROOT_MEMORY_SOFT_LIMIT_METRIC : string := "tserver_root_memory_soft_limit".
Definition MEMORY_AVAILABLE_METRIC : string := "memory_available".
Definition MEMORY_TOTAL_METRIC : string := "memory_total".
Definition parseMetric (n : NodeMetrics) (k : string) : result Z :=
  match ParseInt64 (metric n k) with Some z => Ok z | None => Err ("parsing " +:+ k) end.

Section controller.
Context {Float : Type} (ParseFloat : string → option Float)
        (percent : Float → Float → Z).        (* [int((a + b) * 100)] *)
Context (cfg : Config).

Definition parseFloatMetric (n : NodeMetrics) (k : string) : result Float :=
  match ParseFloat (metric n k) with Some x => Ok x | None => Err ("parsing " +:+ k) end.
Definition maxCpuOf (maxCpuPct : Z) (n : NodeMetrics) : result Z :=
  if decide (Status n ≠ "OK") then Ok maxCpuPct
  else
    cpuUsageUser ← parseFloatMetric n CPU_USAGE_USER_METRIC;
    cpuUsageSystem ← parseFloatMetric n CPU_USAGE_SYSTEM_METRIC;
    Ok (Z.max maxCpuPct (percent cpuUsageUser cpuUsageSystem)).
Definition getMaxCpuUsageInCluster (clusterMetrics : list NodeMetrics) : result Z :=
  foldM maxCpuOf (-1) clusterMetrics.
Definition isCpuLoadHigh (clusterMetrics : list NodeMetrics) : result bool :=
  maxCpuUsagePct ← getMaxCpuUsageInCluster clusterMetrics;
  Ok (MAX_CPU_THRESHOLD cfg <? maxCpuUsagePct).

(** The loop of [isMemoryLoadHigh], with its two [break]s. *)
Fixpoint memoryLoop (nodes : list NodeMetrics) (minMemoryAvailablePct : Z) : result (Z * bool) :=
  match nodes with
  | [] => Ok (minMemoryAvailablePct, false)
  | n :: nodes =>
      if decide (Status n ≠ "OK") then memoryLoop nodes minMemoryAvailablePct
      else
        tserverRootMemoryConsumption ← parseMetric n TSERVER_ROOT_MEMORY_CONSUMPTION_METRIC;
        tserverRootMemorySoftLimit ← parseMetric n TSERVER_ROOT_MEMORY_SOFT_LIMIT_METRIC;
        if tserverRootMemorySoftLimit <? tserverRootMemoryConsumption then Ok (minMemoryAvailablePct, true)
        else
          memoryAvailable ← parseMetric n MEMORY_AVAILABLE_METRIC;
          memoryTotal ← parseMetric n MEMORY_TOTAL_METRIC;
          if (memoryAvailable =? 0) || (memoryTotal =? 0) then memoryLoop nodes minMemoryAvailablePct
          else
            let memoryAvailablePct := Z.quot (wrap64 (memoryAvailable * 100)) memoryTotal in
            let minMemoryAvailablePct := Z.min minMemoryAvailablePct memoryAvailablePct in
            if minMemoryAvailablePct <? MIN_AVAILABLE_MEMORY_THRESHOLD cfg then Ok (minMemoryAvailablePct, false)
            else memoryLoop nodes minMemoryAvailablePct
  end.
Definition isMemoryLoadHigh (clusterMetrics : list NodeMetrics) : result bool :=
  '(minMemoryAvailablePct, isTserverRootMemorySoftLimitBreached) ← memoryLoop clusterMetrics 100;
  Ok ((minMemoryAvailablePct <? MIN_AVAILABLE_MEMORY_THRESHOLD cfg) || isTserverRootMemorySoftLimitBreached).

(** [cpuOrder] and [memOrder]: the orders in which the two loops visit the nodes. *)
Definition isLoadHigh (clusterMetrics : result (list NodeMetrics * list NodeMetrics)) : result bool :=
  '(cpuOrder, memOrder) ← clusterMetrics;
  cpuLoadHigh ← isCpuLoadHigh cpuOrder;
  memLoadHigh ← isMemoryLoadHigh memOrder;
  Ok (cpuLoadHigh || memLoadHigh).

Context {P : Type} `{TargetPool P}.

(** [None]: the call blocks; an error leaves the pool as it was. *)
Definition fetchClusterMetricsAndUpdateParallelism (yb : P) (clusterMetrics : result (list NodeMetrics * list NodeMetrics))
    (minParallelism maxParallelism : Z) : option (P * option string) :=
  match isLoadHigh clusterMetrics with
  | Err err | Panic err => Some (yb, Some err)
  | Ok loadHigh =>
      let currentNumConnections := GetNumConnectionsInPool yb in
      let deltaParallelism := if loadHigh then -1 else 1 in
      if (if loadHigh then currentNumConnections + deltaParallelism <? minParallelism
          else maxParallelism <? currentNumConnections + deltaParallelism)
      then Some (yb, None)
      else
        r ← UpdateNumConnectionsInPool yb deltaParallelism;
        Some (match r with Ok yb => (yb, None) | Err err | Panic err => (yb, Some err) end)
  end.
(** The loop of [AdaptParallelism], one turn for every set of metrics read. *)
Fixpoint adaptLoop (yb : P) (readings : list (result (list NodeMetrics * list NodeMetrics))) : option P :=
  match readings with
  | [] => Some yb
  | r :: readings =>
      '(yb, _) ← fetchClusterMetricsAndUpdateParallelism yb r MIN_PARALLELISM (GetNumMaxConnectionsInPool yb);
      adaptLoop yb readings
  end.
Definition AdaptParallelism (mode : AdaptiveParallelismMode) (isSupported : bool) (yb : P)
    (readings : list (result (list NodeMetrics * list NodeMetrics))) : option (P * option string) :=
  if negb (IsEnabled mode) then Some (yb, None)
  else if negb isSupported then Some (yb, Some "adaptive parallelism not supported in target YB database")
  else yb ← adaptLoop yb readings; Some (yb, None).

(** ** When the cluster is overloaded *)
(** A node that reports and one of whose figures is past its threshold. *)
Definition figure (n : NodeMetrics) (k : string) : Z := default 0 (ParseInt64 (metric n k)).
Definition cpuOverloaded (n : NodeMetrics) : bool :=
  match ParseFloat (metric n CPU_USAGE_USER_METRIC), ParseFloat (metric n CPU_USAGE_SYSTEM_METRIC) with
  | Some u, Some s => MAX_CPU_THRESHOLD cfg <? percent u s
  | _, _ => false
  end.
Definition memOverloaded (n : NodeMetrics) : bool :=
  (figure n TSERVER_ROOT_MEMORY_SOFT_LIMIT_METRIC <? figure n TSERVER_ROOT_MEMORY_CONSUMPTION_METRIC)
  || negb ((figure n MEMORY_AVAILABLE_METRIC =? 0) || (figure n MEMORY_TOTAL_METRIC =? 0))
     && (Z.quot (wrap64 (figure n MEMORY_AVAILABLE_METRIC * 100)) (figure n MEMORY_TOTAL_METRIC)
         <? MIN_AVAILABLE_MEMORY_THRESHOLD cfg).
Definition reporting (n : NodeMetrics) : bool := bool_decide (Status n = "OK").
Definition overloaded (n : NodeMetrics) : bool := reporting n && (cpuOverloaded n || memOverloaded n).
(** All six figures of a node that reports are numbers. *)
Definition wellReported (n : NodeMetrics) : Prop :=
  reporting n = true →
  is_Some (ParseFloat (metric n CPU_USAGE_USER_METRIC)) ∧ is_Some (ParseFloat (metric n CPU_USAGE_SYSTEM_METRIC)) ∧
  is_Some (ParseInt64 (metric n TSERVER_ROOT_MEMORY_CONSUMPTION_METRIC)) ∧
  is_Some (ParseInt64 (metric n TSERVER_ROOT_MEMORY_SOFT_LIMIT_METRIC)) ∧
  is_Some (ParseInt64 (metric n MEMORY_AVAILABLE_METRIC)) ∧ is_Some (ParseInt64 (metric n MEMORY_TOTAL_METRIC)).
Definition sane : Prop := -1 ≤ MAX_CPU_THRESHOLD cfg ∧ MIN_AVAILABLE_MEMORY_THRESHOLD cfg ≤ 100.

Lemma cpu_spec nodes m : Forall wellReported nodes → ∃ r, foldM maxCpuOf m nodes = Ok r ∧
  (MAX_CPU_THRESHOLD cfg <? r) = (MAX_CPU_THRESHOLD cfg <? m) || existsb (λ n, reporting n && cpuOverloaded n) nodes.
Proof.
  intros Hw. revert m. induction Hw as [|n nodes Hn Hw IH]; intros m; cbn [foldM existsb].
  { exists m. by rewrite orb_false_r. }
  unfold wellReported, reporting in *. destruct (decide (Status n ≠ "OK")) as [Hs|Hs].
  { assert (maxCpuOf m n = Ok m) as -> by (unfold maxCpuOf; by rewrite decide_True).
    cbn [mbind result_bind]. rewrite bool_decide_false by done. apply IH. }
  pose proof (dec_stable Hs) as HOK. rewrite bool_decide_true in Hn |- * by done.
  destruct Hn as ([u Hu] & [v Hv] & _); [done|]. unfold cpuOverloaded at 1. rewrite Hu, Hv. cbn [andb].
  assert (maxCpuOf m n = Ok (Z.max m (percent u v))) as ->.
  { unfold maxCpuOf, parseFloatMetric. rewrite decide_False by (by intros []). by rewrite Hu, Hv. }
  cbn [mbind result_bind].
  destruct (IH (Z.max m (percent u v))) as (r & -> & Hr). exists r. split; [done|].
  rewrite Hr, orb_assoc. f_equal.
  destruct (Z.ltb_spec (MAX_CPU_THRESHOLD cfg) m), (Z.ltb_spec (MAX_CPU_THRESHOLD cfg) (percent u v));
    cbn; first [apply Z.ltb_lt|apply Z.ltb_ge]; lia.
Qed.
Lemma parse_figure n k : is_Some (ParseInt64 (metric n k)) → parseMetric n k = Ok (figure n k).
Proof. unfold parseMetric, figure. by intros [z ->]. Qed.
Lemma mem_spec nodes m : Forall wellReported nodes → MIN_AVAILABLE_MEMORY_THRESHOLD cfg ≤ m →
  ∃ r b, memoryLoop nodes m = Ok (r, b) ∧
    (r <? MIN_AVAILABLE_MEMORY_THRESHOLD cfg) || b = existsb (λ n, reporting n && memOverloaded n) nodes.
Proof.
  intros Hw. revert m. induction Hw as [|n nodes Hn Hw IH]; intros m Hm; cbn [memoryLoop existsb].
  { exists m, false. split; [done|]. rewrite orb_false_r. by apply Z.ltb_ge. }
  unfold wellReported, reporting in *. destruct (decide (Status n ≠ "OK")) as [Hs|Hs].
  { rewrite bool_decide_false by done. by apply IH. }
  apply dec_stable in Hs. rewrite bool_decide_true in Hn |- * by done.
  destruct Hn as (_ & _ & Hc & Hl & Ha & Ht); [done|]. rewrite !parse_figure by done. cbn [mbind result_bind andb].
  unfold memOverloaded. destruct (figure n TSERVER_ROOT_MEMORY_SOFT_LIMIT_METRIC <? _) eqn:Hcons; cbn [orb].
  { exists m, true. split; [done|]. by rewrite orb_true_r. }
  destruct ((_ =? 0) || _) eqn:Hz; cbn [negb andb orb]; [by apply IH|].
  set (q := Z.quot _ _). destruct (Z.ltb_spec (Z.min m q) (MIN_AVAILABLE_MEMORY_THRESHOLD cfg)) as [Hlt|Hge].
  - exists (Z.min m q), false. split; [done|]. rewrite orb_false_r, (proj2 (Z.ltb_lt q _)) by lia. cbn. by apply Z.ltb_lt.
  - rewrite (proj2 (Z.ltb_ge q _)) by lia. cbn. apply IH. lia.
Qed.
Lemma existsb_perm {A} (f : A → bool) l l' : l ≡ₚ l' → existsb f l = existsb f l'.
Proof.
  induction 1 as [|x l l' _ IH|x y l|l1 l2 l3 _ IH1 _ IH2]; cbn; [done|by rewrite IH| |by rewrite IH1].
  destruct (f x), (f y); done.
Qed.
Lemma existsb_orb {A} (f g : A → bool) l : existsb (λ a, f a || g a) l = existsb f l || existsb g l.
Proof. induction l as [|a l IH]; cbn; [done|]. rewrite IH. destruct (f a), (g a), (existsb f l); done. Qed.

Context (I : P → Prop) `{!TargetPoolLaws P I}.

(** With readable metrics the loop takes one connection away when some node is past
    its CPU or memory threshold and adds one when none is, never leaving the given
    limits, whatever the order in which the two loops over the nodes visit them; and it
    never waits for the pool. *)
Theorem parallelism_follows_load (yb : P) (cpuOrder memOrder : list NodeMetrics) (minP maxP : Z) :
  I yb → sane → Forall wellReported cpuOrder → cpuOrder ≡ₚ memOrder →
  1 ≤ minP → maxP ≤ GetNumMaxConnectionsInPool yb → minP ≤ GetNumConnectionsInPool yb ≤ maxP →
  ∃ yb', fetchClusterMetricsAndUpdateParallelism yb (Ok (cpuOrder, memOrder)) minP maxP = Some (yb', None) ∧ I yb' ∧
    GetNumConnectionsInPool yb' =
      if existsb overloaded cpuOrder then Z.max minP (GetNumConnectionsInPool yb - 1)
      else Z.min maxP (GetNumConnectionsInPool yb + 1).
Proof.
  intros HI [S1 S2] Hw Hp Hmin Hmax Hn.
  destruct (cpu_spec cpuOrder (-1) Hw) as (r & Hr & Hcpu).
  destruct (mem_spec memOrder 100) as (q & b & Hq & Hmem); [by rewrite <- Hp|done|].
  unfold fetchClusterMetricsAndUpdateParallelism, isLoadHigh, isCpuLoadHigh, getMaxCpuUsageInCluster, isMemoryLoadHigh.
  cbn [mbind result_bind]. rewrite Hr, Hq. cbn [mbind result_bind].
  rewrite Hmem, Hcpu, (proj2 (Z.ltb_ge _ (-1))), <- (existsb_perm _ _ _ Hp) by lia. cbn [orb].
  assert (existsb overloaded cpuOrder = existsb (λ n, reporting n && cpuOverloaded n) cpuOrder
    || existsb (λ n, reporting n && memOverloaded n) cpuOrder) as <-.
  { rewrite <- existsb_orb. clear. induction cpuOrder as [|n l IH]; cbn; [done|]. rewrite IH. unfold overloaded.
    destruct (reporting n); done. }
  destruct (existsb overloaded cpuOrder); cbn [mbind option_bind].
  - destruct (Z.ltb_spec (GetNumConnectionsInPool yb + -1) minP); [exists yb; split_and!; [done..|lia]|].
    destruct (pool_update yb (-1)) as (yb' & -> & HI' & Hnum & _); [done|lia|]. exists yb'. split_and!; [done..|lia].
  - destruct (Z.ltb_spec maxP (GetNumConnectionsInPool yb + 1)); [exists yb; split_and!; [done..|lia]|].
    destruct (pool_update yb 1) as (yb' & -> & HI' & Hnum & _); [done|lia|]. exists yb'. split_and!; [done..|lia].
Qed.

Lemma fetch_bounds yb reading : I yb →
  1 ≤ GetNumConnectionsInPool yb ≤ GetNumMaxConnectionsInPool yb →
  ∃ yb' e, fetchClusterMetricsAndUpdateParallelism yb reading MIN_PARALLELISM (GetNumMaxConnectionsInPool yb) = Some (yb', e) ∧
    I yb' ∧ 1 ≤ GetNumConnectionsInPool yb' ≤ GetNumMaxConnectionsInPool yb' ∧
    GetNumMaxConnectionsInPool yb' = GetNumMaxConnectionsInPool yb.
Proof.
  intros HI Hn. unfold fetchClusterMetricsAndUpdateParallelism, MIN_PARALLELISM.
  destruct (isLoadHigh reading) as [[]|e|e]; [| |eauto 8..].
  - destruct (Z.ltb_spec (GetNumConnectionsInPool yb + -1) 1); [eauto 8|].
    destruct (pool_update yb (-1)) as (yb' & -> & HI' & Hnum & Hmax); [done|lia|]. exists yb', None. split_and!; try done; lia.
  - destruct (Z.ltb_spec (GetNumMaxConnectionsInPool yb) (GetNumConnectionsInPool yb + 1)); [eauto 8|].
    destruct (pool_update yb 1) as (yb' & -> & HI' & Hnum & Hmax); [done|lia|]. exists yb', None. split_and!; try done; lia.
Qed.
(** C40: Whatever the metrics say, errors and unreadable figures included, the loop
    never blocks and keeps the number of connections between one and the pool's maximum. *)
Theorem parallelism_in_bounds (mode : AdaptiveParallelismMode) (isSupported : bool) (yb : P)
    (readings : list (result (list NodeMetrics * list NodeMetrics))) :
  I yb → 1 ≤ GetNumConnectionsInPool yb ≤ GetNumMaxConnectionsInPool yb →
  ∃ yb' e, AdaptParallelism mode isSupported yb readings = Some (yb', e) ∧ I yb' ∧
    1 ≤ GetNumConnectionsInPool yb' ≤ GetNumMaxConnectionsInPool yb' ∧
    GetNumMaxConnectionsInPool yb' = GetNumMaxConnectionsInPool yb.
Proof.
  intros HI Hn. unfold AdaptParallelism. destruct (IsEnabled mode), isSupported; cbn [negb]; [|eauto 8..].
  assert (∃ yb', adaptLoop yb readings = Some yb' ∧ I yb' ∧
    1 ≤ GetNumConnectionsInPool yb' ≤ GetNumMaxConnectionsInPool yb' ∧
    GetNumMaxConnectionsInPool yb' = GetNumMaxConnectionsInPool yb) as (yb' & -> & H'); [|exists yb', None; done].
  revert yb HI Hn. induction readings as [|r readings IH]; intros yb HI Hn; cbn [adaptLoop]; [eauto 8|].
  destruct (fetch_bounds yb r HI Hn) as (yb1 & e & -> & HI1 & Hn1 & Hm). cbn [mbind option_bind].
  rewrite <- Hm. by apply IH.
Qed.
End controller.

(** ** The pool of ConnPool.v behind the interface *)
Import ConnPool.
#[export] Instance ConnectionPool_TargetPool : TargetPool system := {
  GetNumConnectionsInPool s := size (pool s);
  GetNumMaxConnectionsInPool s := NumMaxConnections (params (pool s));
  UpdateNumConnectionsInPool s delta :=
    r ← UpdateNumConnections (pool s) delta;
    Some (p ← r; Ok (mkSystem p (users s) (lost s) (closed s) (made s))) }.
#[export] Instance ConnectionPool_laws ps : TargetPoolLaws system (reachable ps).
Proof.
  split. cbn. intros s delta (p & Hp & Hr) Hd.
  assert (reachable ps s) as [HI _]%reachable_SlotInv by (by exists p).
  rewrite (si_params _ _ HI) in Hd |- *. destruct (Update_ok _ _ _ HI Hd) as (n & HU & _). rewrite HU. cbn.
  eexists. split; [done|]. cbn. split; [|by rewrite (si_params _ _ HI)].
  exists p. split; [done|]. eapply rtc_r; [done|]. exists (CUpdate delta). cbn [run]. by rewrite HU.
Qed.

(** ** A cluster of two nodes *)
Definition sampleCfg : Config := readConfig Balanced None None.
Definition sampleNode (user limit : string) : NodeMetrics :=
  mkNode "OK" (list_to_map [(CPU_USAGE_USER_METRIC, user); (CPU_USAGE_SYSTEM_METRIC, "5");
    (TSERVER_ROOT_MEMORY_CONSUMPTION_METRIC, "100"); (TSERVER_ROOT_MEMORY_SOFT_LIMIT_METRIC, limit);
    (MEMORY_AVAILABLE_METRIC, "40"); (MEMORY_TOTAL_METRIC, "100")]).
(** Percentages as whole numbers stand for the floats. *)
Definition busy : list NodeMetrics := [sampleNode "20" "200"; sampleNode "90" "200"; mkNode "DOWN" ∅].
Definition sampleStart : system := default (initial samplePool) (exec [CUpdate 1] (initial samplePool)).
Lemma sampleStart_reachable : reachable sampleParams sampleStart.
Proof. exists samplePool. split; [done|]. apply (exec_rtc [CUpdate 1]). vm_compute. reflexivity. Qed.
Lemma parallelism_follows_load_witness :
  ∃ yb', fetchClusterMetricsAndUpdateParallelism ParseInt64 Z.add sampleCfg sampleStart (Ok (busy, busy)) 1 3 = Some (yb', None) ∧
    size (pool yb') = 2.
Proof.
  destruct (parallelism_follows_load ParseInt64 Z.add sampleCfg (reachable sampleParams) sampleStart busy busy 1 3)
    as (yb' & H1 & _ & H2).
  - exact sampleStart_reachable.
  - vm_compute. split; discriminate.
  - repeat constructor; vm_compute; intros; repeat split; try discriminate; eauto.
  - reflexivity.
  - discriminate.
  - discriminate.
  - vm_compute. split; discriminate.
  - exists yb'. split; [exact H1|]. etransitivity; [exact H2|]. vm_compute. reflexivity.
Defined.
Lemma parallelism_in_bounds_witness :
  ∃ yb' e, AdaptParallelism ParseInt64 Z.add sampleCfg Balanced true sampleStart [Ok (busy, busy); Err "timeout"; Ok (busy, busy); Ok (busy, busy)]
             = Some (yb', e) ∧ 1 ≤ size (pool yb') ≤ NumMaxConnections (params (pool yb')).
Proof.
  destruct (parallelism_in_bounds ParseInt64 Z.add sampleCfg (reachable sampleParams) Balanced true sampleStart
    [Ok (busy, busy); Err "timeout"; Ok (busy, busy); Ok (busy, busy)]) as (yb' & e & H1 & _ & H2 & _).
  - exact sampleStart_reachable.
  - vm_compute. split; discriminate.
  - exists yb', e. split; [exact H1|exact H2].
Defined.
End AdaptiveParallelism.
