(* ===== verification/TaskPicker.v ===== *)
(** * Choosing the file to import next (cmd/importDataFileTaskPicker.go)

    The interface [FileTaskPicker] and what the main loop relies on, and two pickers
    that keep it: one task at a time, and the one that caps the colocated and the
    sharded tasks in progress. *)
From S2P Require Import Prelude StructMap SqlName ImportState.
Import SqlName ImportState.

Set Default Proof Using "Type*".

Module TaskPicker.
Record ImportFileTask : Type := mkTask {
  ID : Z; TaskFilePath : string; TableNameTup : NameTuple; RowCount : Z; FileSize : Z }.
#[global] Instance ImportFileTask_eq_dec : EqDecision ImportFileTask.
Proof. solve_decision. Defined.
Definition SHARDED : string := "sharded".
Definition COLOCATED : string := "colocated".
Notation TableTypes := (StructMap.t NameTuple string).

(** What a pick depends on besides the picker: [rand.Intn], any number below its
    argument, and the length of the queue of colocated batches. *)
Record chance : Type := mkChance { Intn : nat → nat; queueLen : Z }.
Definition inRange (r : chance) : Prop := ∀ n, (0 < n)%nat → (Intn r n < n)%nat.

(** ** The interface *)
Class FileTaskPicker (P : Type) := {
  Pick : chance → P → result (ImportFileTask * P);
  MarkTaskAsDone : ImportFileTask → P → result P;
  HasMoreTasks : P → bool;
  InProgressTasks : P → list ImportFileTask }.
(** What the main loop relies on: [ok] states of the picker, the tasks that are not done
    yet and those that are.  A pick succeeds while there are tasks, changes nothing but
    which tasks are in progress, and returns one of these; marking removes the task. *)
Class FileTaskPickerLaws (P : Type) `{FileTaskPicker P} (ok : P → Prop) (open filed : P → list ImportFileTask) : Prop := {
  more_law p : ok p → HasMoreTasks p = false ↔ open p = [];
  pick_law p r : ok p → HasMoreTasks p = true → inRange r →
    ∃ t p', Pick r p = Ok (t, p') ∧ ok p' ∧ t ∈ InProgressTasks p' ∧ open p' ≡ₚ open p ∧ filed p' = filed p;
  mark_law p t : ok p → t ∈ InProgressTasks p →
    ∃ p', MarkTaskAsDone t p = Ok p' ∧ ok p' ∧ open p ≡ₚ t :: open p' ∧ filed p' = filed p ++ [t] }.

(** ** Lists of tasks *)
(** [append(l[:i], l[i+1:]...)] at the first task with the ID. *)
Fixpoint removeByID (id : Z) (l : list ImportFileTask) : option (list ImportFileTask) :=
  match l with
  | [] => None
  | t :: l => if ID t =? id then Some l else cons t <$> removeByID id l
  end.
Lemma removeByID_perm t l : NoDup (map ID l) → t ∈ l → ∃ l', removeByID (ID t) l = Some l' ∧ l ≡ₚ t :: l'.
Proof.
  induction l as [|u l IH]; [set_solver|]. cbn. intros [Hu Hnd]%NoDup_cons Hin. destruct (ID u =? ID t) eqn:He.
  - exists l. split; [done|]. apply elem_of_cons in Hin as [-> |Hin]; [done|]. destruct Hu. apply Z.eqb_eq in He.
    rewrite He. by apply list_elem_of_fmap_2.
  - apply elem_of_cons in Hin as [-> |Hin]; [by rewrite Z.eqb_refl in He|]. destruct (IH Hnd Hin) as (l' & -> & Hl).
    exists (u :: l'). split; [done|]. rewrite Hl. apply perm_swap.
Qed.
Lemma removeByID_none id l : id ∉ map ID l → removeByID id l = None.
Proof.
  induction l as [|u l IH]; [done|]. cbn. intros Hn. rewrite (proj2 (Z.eqb_neq _ _)) by set_solver.
  rewrite IH by set_solver. done.
Qed.
Lemma NoDup_IDs_perm l l' : l ≡ₚ l' → NoDup (map ID l) → NoDup (map ID l').
Proof. intros H. by rewrite H. Qed.
(** [rand.Intn] and the task at that index. *)
Definition pickRandom (r : chance) (l : list ImportFileTask) : option (nat * ImportFileTask) :=
  let i := Intn r (length l) in t ← l !! i; Some (i, t).
Lemma pickRandom_ok r l : inRange r → l ≠ [] → ∃ i t, pickRandom r l = Some (i, t) ∧ l !! i = Some t ∧ t ∈ l.
Proof.
  intros Hr Hl. assert (0 < length l)%nat as Hlen by (destruct l; [done|cbn; lia]).
  destruct (lookup_lt_is_Some_2 l (Intn r (length l)) (Hr _ Hlen)) as [t Ht]. unfold pickRandom. rewrite Ht.
  exists (Intn r (length l)), t. split; [done|]. split; [done|]. by eapply list_elem_of_lookup_2.
Qed.

Definition lenT (l : list ImportFileTask) : Z := Z.of_nat (length l).
Lemma lenT_pos l : (0 <? lenT l) = true ↔ l ≠ [].
Proof. unfold lenT. destruct l as [|t l]; [by split|]. split; [done|]. intros _. apply Z.ltb_lt. cbn [length]. lia. Qed.
Lemma lenT_zero l : (0 <? lenT l) = false ↔ l = [].
Proof. rewrite <- not_true_iff_false, lenT_pos. destruct l; naive_solver. Qed.
Lemma lenT_app l t : lenT (l ++ [t]) = lenT l + 1.
Proof. unfold lenT. rewrite length_app. cbn. lia. Qed.
Lemma IDs_of_part l1 l2 l : l ≡ₚ l1 ++ l2 → NoDup (map ID l) → NoDup (map ID l1).
Proof. intros ->. rewrite map_app. by intros [? _]%NoDup_app. Qed.

Section pickers.
Context (GetFileImportStateOf : ImportFileTask → result FileImportState).   (* of the task's directory *)

(** ** One task at a time *)
Record SequentialTaskPicker : Type := mkSeq {
  inProgressTask : option ImportFileTask; seq_pending : list ImportFileTask; seq_done : list ImportFileTask }.
Definition seq_add (s : SequentialTaskPicker) (task : ImportFileTask) : result SequentialTaskPicker :=
  taskStatus ← GetFileImportStateOf task;
  match taskStatus with
  | FILE_IMPORT_COMPLETED => Ok (mkSeq (inProgressTask s) (seq_pending s) (seq_done s ++ [task]))
  | FILE_IMPORT_NOT_STARTED => Ok (mkSeq (inProgressTask s) (seq_pending s ++ [task]) (seq_done s))
  | FILE_IMPORT_IN_PROGRESS =>
      match inProgressTask s with
      | Some _ => Err "multiple tasks are in progress"
      | None => Ok (mkSeq (Some task) (seq_pending s) (seq_done s))
      end
  | FILE_IMPORT_COMPLETED_WITH_ERRORS => Err "unexpected status for task"
  end.
Definition NewSequentialTaskPicker (tasks : list ImportFileTask) : result SequentialTaskPicker :=
  foldM seq_add (mkSeq None [] []) tasks.
Definition seq_HasMoreTasks (s : SequentialTaskPicker) : bool :=
  match inProgressTask s with Some _ => true | None => (0 <? length (seq_pending s))%nat end.
Definition seq_Pick (s : SequentialTaskPicker) : result (ImportFileTask * SequentialTaskPicker) :=
  if negb (seq_HasMoreTasks s) then Err "no more tasks"
  else match inProgressTask s, seq_pending s with
       | Some t, _ => Ok (t, s)
       | None, t :: rest => Ok (t, mkSeq (Some t) rest (seq_done s))
       | None, [] => Panic "index out of range"
       end.
Definition seq_MarkTaskAsDone (task : ImportFileTask) (s : SequentialTaskPicker) : result SequentialTaskPicker :=
  match inProgressTask s with
  | None => Err "no task in progress to mark as done"
  | Some t => if negb (ID t =? ID task) then Err "task provided is not the task in progress"
              else Ok (mkSeq None (seq_pending s) (seq_done s ++ [task]))
  end.
#[global] Instance SequentialTaskPicker_Picker : FileTaskPicker SequentialTaskPicker := {
  Pick _ := seq_Pick;
  MarkTaskAsDone := seq_MarkTaskAsDone;
  HasMoreTasks := seq_HasMoreTasks;
  InProgressTasks s := match inProgressTask s with Some t => [t] | None => [] end }.
Definition seq_open (s : SequentialTaskPicker) : list ImportFileTask := option_list (inProgressTask s) ++ seq_pending s.
#[global] Instance SequentialTaskPicker_laws : FileTaskPickerLaws SequentialTaskPicker (λ _, True) seq_open seq_done.
Proof. clear GetFileImportStateOf.
  split; cbn; unfold seq_HasMoreTasks, seq_open, seq_Pick, seq_MarkTaskAsDone.
  - intros [[t|] pend d] _; cbn; [done|]. destruct pend; done.
  - intros [[t|] pend d] r _; cbn; [intros _ _; exists t; eexists; split; [done|]; cbn; set_solver|].
    unfold seq_HasMoreTasks; cbn. destruct pend as [|t pend]; [done|]. intros _ _. exists t. eexists. split; [done|]. cbn. set_solver.
  - intros [[u|] pend d] t _; cbn; [|set_solver]. intros ->%list_elem_of_singleton. rewrite Z.eqb_refl. cbn. eauto 10.
Qed.

(** ** Colocated and sharded tasks, each kind with a limit *)
Record ColocatedCappedRandomTaskPicker : Type := mkCapped {
  maxShardedTasksInProgress : Z; maxColocatedTasksInProgress : Z; queueCap : Z;
  doneTasks : list ImportFileTask;
  inProgressShardedTasks : list ImportFileTask; inProgressColocatedTasks : list ImportFileTask;
  orderedPendingShardedTasks : list ImportFileTask; pendingColocatedTasks : list ImportFileTask }.
Definition set_colocated (c : ColocatedCappedRandomTaskPicker) (inProgress pending : list ImportFileTask) : ColocatedCappedRandomTaskPicker :=
  mkCapped (maxShardedTasksInProgress c) (maxColocatedTasksInProgress c) (queueCap c) (doneTasks c)
    (inProgressShardedTasks c) inProgress (orderedPendingShardedTasks c) pending.
Definition set_sharded (c : ColocatedCappedRandomTaskPicker) (inProgress pending : list ImportFileTask) : ColocatedCappedRandomTaskPicker :=
  mkCapped (maxShardedTasksInProgress c) (maxColocatedTasksInProgress c) (queueCap c) (doneTasks c)
    inProgress (inProgressColocatedTasks c) pending (pendingColocatedTasks c).
Definition add_done (c : ColocatedCappedRandomTaskPicker) (t : ImportFileTask) : ColocatedCappedRandomTaskPicker :=
  mkCapped (maxShardedTasksInProgress c) (maxColocatedTasksInProgress c) (queueCap c) (doneTasks c ++ [t])
    (inProgressShardedTasks c) (inProgressColocatedTasks c) (orderedPendingShardedTasks c) (pendingColocatedTasks c).

(** [sort.Slice] with the order of [sortTasksBySizeDesc]; it is not stable. *)
Definition bySizeDesc (a b : ImportFileTask) : Prop := RowCount b < RowCount a ∨ RowCount a = RowCount b ∧ FileSize b ≤ FileSize a.
Context (sortTasksBySizeDesc : list ImportFileTask → list ImportFileTask).
Definition addToPending (c : ColocatedCappedRandomTaskPicker) (t : ImportFileTask) (tableType : string) : ColocatedCappedRandomTaskPicker :=
  if decide (tableType = COLOCATED) then set_colocated c (inProgressColocatedTasks c) (pendingColocatedTasks c ++ [t])
  else set_sharded c (inProgressShardedTasks c) (orderedPendingShardedTasks c ++ [t]).
Definition addToInProgress (c : ColocatedCappedRandomTaskPicker) (t : ImportFileTask) (tableType : string) : ColocatedCappedRandomTaskPicker :=
  if decide (tableType = COLOCATED) then set_colocated c (inProgressColocatedTasks c ++ [t]) (pendingColocatedTasks c)
  else set_sharded c (inProgressShardedTasks c ++ [t]) (orderedPendingShardedTasks c).
Definition capped_add (tableTypes : TableTypes) (c : ColocatedCappedRandomTaskPicker) (task : ImportFileTask) : result ColocatedCappedRandomTaskPicker :=
  match StructMap.Get tableTypes (TableNameTup task) with
  | None => Err "table type not found for table"
  | Some tableType =>
      taskStatus ← GetFileImportStateOf task;
      match taskStatus with
      | FILE_IMPORT_COMPLETED => Ok (add_done c task)
      | FILE_IMPORT_IN_PROGRESS =>
          if decide (tableType = COLOCATED) then
            if lenT (inProgressColocatedTasks c) <? maxColocatedTasksInProgress c
            then Ok (addToInProgress c task tableType) else Ok (addToPending c task tableType)
          else if decide (tableType = SHARDED) then
            if lenT (inProgressShardedTasks c) <? maxShardedTasksInProgress c
            then Ok (addToInProgress c task tableType) else Ok (addToPending c task tableType)
          else Ok c
      | FILE_IMPORT_NOT_STARTED => Ok (addToPending c task tableType)
      | FILE_IMPORT_COMPLETED_WITH_ERRORS => Err "unexpected status for task"
      end
  end.
Definition NewColocatedCappedRandomTaskPicker (maxSharded maxColocated : Z) (tasks : list ImportFileTask) (queueCapacity : Z)
    (tableTypes : TableTypes) : result ColocatedCappedRandomTaskPicker :=
  c ← foldM (capped_add tableTypes) (mkCapped maxSharded maxColocated queueCapacity [] [] [] [] []) tasks;
  Ok (set_sharded c (inProgressShardedTasks c) (sortTasksBySizeDesc (orderedPendingShardedTasks c))).

Definition capped_InProgressTasks (c : ColocatedCappedRandomTaskPicker) : list ImportFileTask :=
  inProgressColocatedTasks c ++ inProgressShardedTasks c.
Definition pendingTasks (c : ColocatedCappedRandomTaskPicker) : list ImportFileTask :=
  pendingColocatedTasks c ++ orderedPendingShardedTasks c.
Definition capped_HasMoreTasks (c : ColocatedCappedRandomTaskPicker) : bool :=
  (0 <? lenT (capped_InProgressTasks c)) || (0 <? lenT (pendingTasks c)).
Definition HasMoreColocatedTasks (c : ColocatedCappedRandomTaskPicker) : bool :=
  (0 <? lenT (inProgressColocatedTasks c)) || (0 <? lenT (pendingColocatedTasks c)).
Definition HasMoreShardedTasks (c : ColocatedCappedRandomTaskPicker) : bool :=
  (0 <? lenT (inProgressShardedTasks c)) || (0 <? lenT (orderedPendingShardedTasks c)).

(** [None]: no pending task may be taken up. *)
Definition pickPendingColocatedTaskAsPerMaxTasks (r : chance) (c : ColocatedCappedRandomTaskPicker)
    : option (ImportFileTask * ColocatedCappedRandomTaskPicker) :=
  if (lenT (inProgressColocatedTasks c) <? maxColocatedTasksInProgress c) && (0 <? lenT (pendingColocatedTasks c)) then
    '(i, t) ← pickRandom r (pendingColocatedTasks c);
    Some (t, set_colocated c (inProgressColocatedTasks c ++ [t]) (delete i (pendingColocatedTasks c)))
  else None.
Definition pickInProgressColocatedTask (r : chance) (c : ColocatedCappedRandomTaskPicker) : result (ImportFileTask * ColocatedCappedRandomTaskPicker) :=
  match pickRandom r (inProgressColocatedTasks c) with
  | Some (_, t) => Ok (t, c)
  | None => Err "no in-progress colocated tasks to pick from"
  end.
Definition pickColocatedTask (r : chance) (c : ColocatedCappedRandomTaskPicker) : result (ImportFileTask * ColocatedCappedRandomTaskPicker) :=
  if negb (HasMoreColocatedTasks c) then Err "no more colocated tasks"
  else match pickPendingColocatedTaskAsPerMaxTasks r c with
       | Some p => Ok p
       | None => pickInProgressColocatedTask r c
       end.
Definition pickPendingShardedTaskAsPerMaxTasks (c : ColocatedCappedRandomTaskPicker) : option (ImportFileTask * ColocatedCappedRandomTaskPicker) :=
  if lenT (inProgressShardedTasks c) <? maxShardedTasksInProgress c then
    match orderedPendingShardedTasks c with
    | t :: rest => Some (t, set_sharded c (inProgressShardedTasks c ++ [t]) rest)
    | [] => None
    end
  else None.
Definition pickInProgressShardedTask (r : chance) (c : ColocatedCappedRandomTaskPicker) : result (ImportFileTask * ColocatedCappedRandomTaskPicker) :=
  match pickRandom r (inProgressShardedTasks c) with
  | Some (_, t) => Ok (t, c)
  | None => Err "no in-progress sharded tasks to pick from"
  end.
Definition pickShardedTask (r : chance) (c : ColocatedCappedRandomTaskPicker) : result (ImportFileTask * ColocatedCappedRandomTaskPicker) :=
  if negb (HasMoreShardedTasks c) then Err "no more sharded tasks"
  else match pickPendingShardedTaskAsPerMaxTasks c with
       | Some p => Ok p
       | None => pickInProgressShardedTask r c
       end.
Definition capped_Pick (r : chance) (c : ColocatedCappedRandomTaskPicker) : result (ImportFileTask * ColocatedCappedRandomTaskPicker) :=
  if negb (capped_HasMoreTasks c) then Err "no more tasks"
  else if negb (HasMoreShardedTasks c) then pickColocatedTask r c
  else if negb (HasMoreColocatedTasks c) then pickShardedTask r c
  else match pickPendingColocatedTaskAsPerMaxTasks r c with
       | Some p => Ok p
       | None =>
           match pickPendingShardedTaskAsPerMaxTasks c with
           | Some p => Ok p
           | None => if queueLen r <? queueCap c then pickInProgressColocatedTask r c else pickInProgressShardedTask r c
           end
       end.
Definition capped_MarkTaskAsDone (task : ImportFileTask) (c : ColocatedCappedRandomTaskPicker) : result ColocatedCappedRandomTaskPicker :=
  match removeByID (ID task) (inProgressColocatedTasks c) with
  | Some l => Ok (add_done (set_colocated c l (pendingColocatedTasks c)) task)
  | None =>
      match removeByID (ID task) (inProgressShardedTasks c) with
      | Some l => Ok (add_done (set_sharded c l (orderedPendingShardedTasks c)) task)
      | None => Err "task not found in inProgressTasks"
      end
  end.
#[global] Instance Capped_Picker : FileTaskPicker ColocatedCappedRandomTaskPicker := {
  Pick := capped_Pick;
  MarkTaskAsDone := capped_MarkTaskAsDone;
  HasMoreTasks := capped_HasMoreTasks;
  InProgressTasks := capped_InProgressTasks }.
Definition capped_open (c : ColocatedCappedRandomTaskPicker) : list ImportFileTask := capped_InProgressTasks c ++ pendingTasks c.
Record capped_ok (c : ColocatedCappedRandomTaskPicker) : Prop := mkCappedOk {
  co_ids : NoDup (map ID (capped_open c));
  co_sharded : lenT (inProgressShardedTasks c) ≤ maxShardedTasksInProgress c;
  co_colocated : lenT (inProgressColocatedTasks c) ≤ maxColocatedTasksInProgress c;
  co_max : 1 ≤ maxShardedTasksInProgress c ∧ 1 ≤ maxColocatedTasksInProgress c;
  co_sorted : StronglySorted bySizeDesc (orderedPendingShardedTasks c) }.

(** A pick that keeps the invariant. *)
Definition picked (c : ColocatedCappedRandomTaskPicker) (t : ImportFileTask) (c' : ColocatedCappedRandomTaskPicker) : Prop :=
  capped_ok c' ∧ t ∈ capped_InProgressTasks c' ∧ capped_open c' ≡ₚ capped_open c ∧ doneTasks c' = doneTasks c ∧
  maxShardedTasksInProgress c' = maxShardedTasksInProgress c ∧ maxColocatedTasksInProgress c' = maxColocatedTasksInProgress c.
Lemma pickPendingColocated_ok r c t c' : capped_ok c → pickPendingColocatedTaskAsPerMaxTasks r c = Some (t, c') → picked c t c'.
Proof. clear GetFileImportStateOf.
  intros [H1 H2 H3 H4 H5]. unfold pickPendingColocatedTaskAsPerMaxTasks. destruct (_ && _) eqn:Hc; [|done].
  apply andb_true_iff in Hc as [Hlt%Z.ltb_lt _]. unfold pickRandom.
  destruct (pendingColocatedTasks c !! Intn r (length (pendingColocatedTasks c))) as [u|] eqn:Hu; [|done]. intros [= <- <-].
  assert (capped_open (set_colocated c (inProgressColocatedTasks c ++ [u]) (delete (Intn r (length (pendingColocatedTasks c))) (pendingColocatedTasks c)))
            ≡ₚ capped_open c) as Hperm.
  { pose proof (delete_Permutation _ _ _ Hu) as Hp. unfold capped_open, capped_InProgressTasks, pendingTasks. cbn.
    set (rest := delete _ _) in *. clearbody rest. rewrite Hp. solve_Permutation. }
  split; [|split; [|split; [done|done] ] ].
  - split; cbn; [by rewrite Hperm|done|rewrite lenT_app; lia|done|done].
  - unfold capped_InProgressTasks. cbn. set_solver.
Qed.
Lemma pickPendingSharded_ok c t c' : capped_ok c → pickPendingShardedTaskAsPerMaxTasks c = Some (t, c') →
  picked c t c' ∧ ∀ u, u ∈ orderedPendingShardedTasks c → bySizeDesc t u.
Proof. clear sortTasksBySizeDesc GetFileImportStateOf.
  intros [H1 H2 H3 H4 H5]. unfold pickPendingShardedTaskAsPerMaxTasks. destruct (_ <? _) eqn:Hlt; [|done]. apply Z.ltb_lt in Hlt.
  destruct (orderedPendingShardedTasks c) as [|u rest] eqn:Hu; [done|]. intros [= <- <-]. apply StronglySorted_inv in H5 as [Hs Hall].
  assert (capped_open (set_sharded c (inProgressShardedTasks c ++ [u]) rest) ≡ₚ capped_open c) as Hperm.
  { unfold capped_open, capped_InProgressTasks, pendingTasks. cbn. rewrite Hu. solve_Permutation. }
  split; [split; [|split; [|split; [done|done] ] ]|].
  - split; cbn; [by rewrite Hperm|rewrite lenT_app; lia|done|done|done].
  - unfold capped_InProgressTasks. cbn. set_solver.
  - intros v [-> |Hv]%elem_of_cons; [right; lia|]. rewrite Forall_forall in Hall. by apply Hall.
Qed.
Lemma pickPendingColocated_none r c : inRange r → capped_ok c → pickPendingColocatedTaskAsPerMaxTasks r c = None →
  HasMoreColocatedTasks c = true → inProgressColocatedTasks c ≠ [].
Proof.
  intros Hr [_ _ _ Hmax _] Hnone Hmore Hnil. unfold pickPendingColocatedTaskAsPerMaxTasks, HasMoreColocatedTasks in *. rewrite Hnil in *.
  change (0 <? lenT []) with false in Hmore. cbn [orb] in Hmore. rewrite Hmore in Hnone. change (lenT []) with 0 in Hnone.
  rewrite (proj2 (Z.ltb_lt _ _)) in Hnone by lia. cbn [andb] in Hnone. apply lenT_pos in Hmore. destruct (pickRandom_ok _ _ Hr Hmore) as (i & t & Hp & _). by rewrite Hp in Hnone.
Qed.
Lemma pickPendingSharded_none c : capped_ok c → pickPendingShardedTaskAsPerMaxTasks c = None →
  HasMoreShardedTasks c = true → inProgressShardedTasks c ≠ [].
Proof.
  intros [_ _ _ Hmax _] Hnone Hmore Hnil. unfold pickPendingShardedTaskAsPerMaxTasks, HasMoreShardedTasks in *. rewrite Hnil in *.
  change (0 <? lenT []) with false in Hmore. cbn [orb] in Hmore. change (lenT []) with 0 in Hnone.
  rewrite (proj2 (Z.ltb_lt _ _)) in Hnone by lia. by destruct (orderedPendingShardedTasks c).
Qed.
Lemma picked_inProgress c t : capped_ok c → t ∈ capped_InProgressTasks c → picked c t c.
Proof. intros. by split_and!. Qed.
Lemma pickInProgressColocated_ok r c : inRange r → capped_ok c → inProgressColocatedTasks c ≠ [] →
  ∃ t, pickInProgressColocatedTask r c = Ok (t, c) ∧ t ∈ inProgressColocatedTasks c.
Proof. intros Hr _ Hne. unfold pickInProgressColocatedTask. destruct (pickRandom_ok _ _ Hr Hne) as (i & t & -> & _ & Ht). by exists t. Qed.
Lemma pickInProgressSharded_ok r c : inRange r → capped_ok c → inProgressShardedTasks c ≠ [] →
  ∃ t, pickInProgressShardedTask r c = Ok (t, c) ∧ t ∈ inProgressShardedTasks c.
Proof. intros Hr _ Hne. unfold pickInProgressShardedTask. destruct (pickRandom_ok _ _ Hr Hne) as (i & t & -> & _ & Ht). by exists t. Qed.
Lemma pickColocated_total r c : inRange r → capped_ok c → HasMoreColocatedTasks c = true → ∃ t c', pickColocatedTask r c = Ok (t, c') ∧ picked c t c'.
Proof. clear GetFileImportStateOf.
  intros Hr Hok Hmore. unfold pickColocatedTask. rewrite Hmore. cbn [negb].
  destruct (pickPendingColocatedTaskAsPerMaxTasks r c) as [[t c']|] eqn:Hp; [exists t, c'; split; [done|by eapply pickPendingColocated_ok]|].
  destruct (pickInProgressColocated_ok r c Hr Hok) as (t & -> & Ht); [by eapply pickPendingColocated_none|].
  exists t, c. split; [done|]. apply picked_inProgress; [done|]. unfold capped_InProgressTasks. set_solver.
Qed.
Lemma pickSharded_total r c : inRange r → capped_ok c → HasMoreShardedTasks c = true → ∃ t c', pickShardedTask r c = Ok (t, c') ∧ picked c t c'.
Proof. clear GetFileImportStateOf.
  intros Hr Hok Hmore. unfold pickShardedTask. rewrite Hmore. cbn [negb].
  destruct (pickPendingShardedTaskAsPerMaxTasks c) as [[t c']|] eqn:Hp; [exists t, c'; split; [done|by eapply pickPendingSharded_ok]|].
  destruct (pickInProgressSharded_ok r c Hr Hok) as (t & -> & Ht); [by eapply pickPendingSharded_none|].
  exists t, c. split; [done|]. apply picked_inProgress; [done|]. unfold capped_InProgressTasks. set_solver.
Qed.
Lemma capped_more c : capped_HasMoreTasks c = HasMoreColocatedTasks c || HasMoreShardedTasks c.
Proof.
  unfold capped_HasMoreTasks, HasMoreColocatedTasks, HasMoreShardedTasks, capped_InProgressTasks, pendingTasks.
  destruct (inProgressColocatedTasks c), (inProgressShardedTasks c), (pendingColocatedTasks c), (orderedPendingShardedTasks c); reflexivity.
Qed.
Lemma capped_pick_total r c : inRange r → capped_ok c → capped_HasMoreTasks c = true → ∃ t c', capped_Pick r c = Ok (t, c') ∧ picked c t c'.
Proof. clear GetFileImportStateOf.
  intros Hr Hok Hmore. unfold capped_Pick. rewrite Hmore. cbn [negb]. rewrite capped_more in Hmore.
  destruct (HasMoreShardedTasks c) eqn:Hsh; cbn [negb]; [|rewrite orb_false_r in Hmore; by apply pickColocated_total].
  destruct (HasMoreColocatedTasks c) eqn:Hco; cbn [negb]; [|by apply pickSharded_total].
  destruct (pickPendingColocatedTaskAsPerMaxTasks r c) as [[t c']|] eqn:Hp; [exists t, c'; split; [done|by eapply pickPendingColocated_ok]|].
  destruct (pickPendingShardedTaskAsPerMaxTasks c) as [[t c']|] eqn:Hp2; [exists t, c'; split; [done|by eapply pickPendingSharded_ok]|].
  destruct (queueLen r <? queueCap c).
  - destruct (pickInProgressColocated_ok r c Hr Hok) as (t & -> & Ht); [by eapply pickPendingColocated_none|].
    exists t, c. split; [done|]. apply picked_inProgress; [done|]. unfold capped_InProgressTasks. set_solver.
  - destruct (pickInProgressSharded_ok r c Hr Hok) as (t & -> & Ht); [by eapply pickPendingSharded_none|].
    exists t, c. split; [done|]. apply picked_inProgress; [done|]. unfold capped_InProgressTasks. set_solver.
Qed.
Lemma capped_mark_ok c t : capped_ok c → t ∈ capped_InProgressTasks c →
  ∃ c', capped_MarkTaskAsDone t c = Ok c' ∧ capped_ok c' ∧ capped_open c ≡ₚ t :: capped_open c' ∧ doneTasks c' = doneTasks c ++ [t].
Proof. clear GetFileImportStateOf.
  intros [H1 H2 H3 H4 H5] Hin. unfold capped_MarkTaskAsDone.
  assert (∀ c', capped_open c ≡ₚ t :: capped_open c' → NoDup (map ID (capped_open c'))) as Hids.
  { intros c' Hperm. rewrite Hperm in H1. by apply NoDup_cons in H1 as [_ ?]. }
  assert (∀ l l', l ≡ₚ t :: l' → lenT l' ≤ lenT l) as Hlen by (intros l l' Hl; unfold lenT; rewrite Hl; cbn; lia).
  destruct (decide (t ∈ inProgressColocatedTasks c)) as [Hc|Hc].
  - destruct (removeByID_perm t (inProgressColocatedTasks c)) as (l & -> & Hl); [|done|].
    { eapply IDs_of_part; [|exact H1]. unfold capped_open, capped_InProgressTasks. by rewrite <- app_assoc. }
    assert (capped_open c ≡ₚ t :: capped_open (add_done (set_colocated c l (pendingColocatedTasks c)) t)) as Hperm.
    { unfold capped_open, capped_InProgressTasks, pendingTasks. cbn. rewrite Hl. done. }
    eexists. split; [done|]. split; [|done]. split; [by apply Hids|done|cbn; specialize (Hlen _ _ Hl); lia|done|done].
  - assert (t ∈ inProgressShardedTasks c) as Hs by (unfold capped_InProgressTasks in Hin; set_solver).
    rewrite removeByID_none.
    2:{ intros (u & He & Hu)%list_elem_of_fmap. unfold capped_open, capped_InProgressTasks in H1. rewrite !map_app, <- !app_assoc in H1.
        apply NoDup_app in H1 as (_ & Hd & _). apply (Hd (ID u)); [by apply list_elem_of_fmap_2|]. rewrite <- He. apply elem_of_app. left. by apply list_elem_of_fmap_2. }
    destruct (removeByID_perm t (inProgressShardedTasks c)) as (l & -> & Hl); [|done|].
    { eapply IDs_of_part; [|exact H1]. unfold capped_open, capped_InProgressTasks.
      rewrite (Permutation_app_comm (inProgressColocatedTasks c)). by rewrite <- app_assoc. }
    assert (capped_open c ≡ₚ t :: capped_open (add_done (set_sharded c l (orderedPendingShardedTasks c)) t)) as Hperm.
    { unfold capped_open, capped_InProgressTasks, pendingTasks. cbn. rewrite Hl. solve_Permutation. }
    eexists. split; [done|]. split; [|done]. split; [by apply Hids|cbn; specialize (Hlen _ _ Hl); lia|done|done|done].
Qed.
#[global] Instance Capped_laws : FileTaskPickerLaws ColocatedCappedRandomTaskPicker capped_ok capped_open doneTasks.
Proof.
  split; cbn.
  - intros c _. unfold capped_HasMoreTasks, capped_open. rewrite orb_false_iff, !lenT_zero. split; [by intros [-> ->]|].
    by intros [-> ->]%app_nil.
  - intros c r Hok Hmore Hr. destruct (capped_pick_total r c Hr Hok Hmore) as (t & c' & Hp & H1 & H2 & H3 & H4 & _). by exists t, c'.
  - intros c t Hok Hin. by apply capped_mark_ok.
Qed.

(** *** What the constructors make of the tasks *)
Definition imported (t : ImportFileTask) : Prop := GetFileImportStateOf t = Ok FILE_IMPORT_COMPLETED.
Lemma NewSequential_ok tasks s : NewSequentialTaskPicker tasks = Ok s →
  seq_open s ++ seq_done s ≡ₚ tasks ∧ Forall imported (seq_done s).
Proof.
  unfold NewSequentialTaskPicker. assert (∀ s0, Forall imported (seq_done s0) → foldM seq_add s0 tasks = Ok s →
    seq_open s ++ seq_done s ≡ₚ (seq_open s0 ++ seq_done s0) ++ tasks ∧ Forall imported (seq_done s)) as H.
  { induction tasks as [|t tasks IH]; intros s0 Hd; cbn [foldM]; [intros [= <-]; by rewrite app_nil_r|].
    intros (s1 & Hadd & Hrest)%bind_Ok. unfold seq_add in Hadd. apply bind_Ok in Hadd as (st & Hst & Hadd).
    assert (seq_open s1 ++ seq_done s1 ≡ₚ (seq_open s0 ++ seq_done s0) ++ [t] ∧ Forall imported (seq_done s1)) as [Hp Hd1].
    { unfold seq_open. destruct st; [|destruct (inProgressTask s0) eqn:Hin; [done|]| |done]; injection Hadd as <-; cbn; (split; [|try done]).
      - solve_Permutation.
      - solve_Permutation.
      - solve_Permutation.
      - apply Forall_app. split; [done|]. by constructor. }
    destruct (IH _ Hd1 Hrest) as [Hp' Hd']. split; [|done]. rewrite Hp', Hp, <- app_assoc. done. }
  intros Hs. by apply H in Hs; [|constructor].
Qed.
Section capped_new.
Context (tableTypes : TableTypes) (maxSharded maxColocated queueCapacity : Z).
Context (Hsort : ∀ l, sortTasksBySizeDesc l ≡ₚ l ∧ StronglySorted bySizeDesc (sortTasksBySizeDesc l)).
Context (Hmax : 1 ≤ maxSharded ∧ 1 ≤ maxColocated).
(** [getTableTypes] knows two types. *)
Context (Htypes : ∀ t ty, StructMap.Get tableTypes t = Some ty → ty = COLOCATED ∨ ty = SHARDED).
Definition within (c : ColocatedCappedRandomTaskPicker) : Prop :=
  maxShardedTasksInProgress c = maxSharded ∧ maxColocatedTasksInProgress c = maxColocated ∧
  lenT (inProgressShardedTasks c) ≤ maxSharded ∧ lenT (inProgressColocatedTasks c) ≤ maxColocated ∧ Forall imported (doneTasks c).
Lemma capped_add_ok c t c' : within c → capped_add tableTypes c t = Ok c' →
  within c' ∧ capped_open c' ++ doneTasks c' ≡ₚ (capped_open c ++ doneTasks c) ++ [t].
Proof.
  intros (W1 & W2 & W3 & W4 & W5). unfold capped_add.
  destruct (StructMap.Get tableTypes (TableNameTup t)) as [ty|] eqn:Hty; [|done].
  assert (∀ c', c' = addToPending c t ty → within c' ∧ capped_open c' ++ doneTasks c' ≡ₚ (capped_open c ++ doneTasks c) ++ [t]) as Hpend.
  { intros ? ->. unfold addToPending, within, capped_open, capped_InProgressTasks, pendingTasks. case_decide; cbn; (split; [done|solve_Permutation]). }
  intros (st & Hst & Hadd)%bind_Ok. destruct st; [by injection Hadd as <-; apply Hpend| |injection Hadd as <-|done].
  - destruct (Htypes _ _ Hty) as [-> | ->];
      [rewrite decide_True in Hadd by done|rewrite decide_False, decide_True in Hadd by done];
      (destruct (_ <? _) eqn:Hlt in Hadd; injection Hadd as <-; [apply Z.ltb_lt in Hlt|by apply Hpend]);
      unfold addToInProgress; [rewrite decide_True by done|rewrite decide_False by done]; split.
    1,3: (unfold within; cbn; rewrite lenT_app; repeat split; try done; lia).
    1,2: (unfold capped_open, capped_InProgressTasks, pendingTasks; cbn; solve_Permutation).
  - split; [|unfold add_done, capped_open, capped_InProgressTasks, pendingTasks; cbn; solve_Permutation].
    unfold within, add_done. cbn. repeat split; try done. apply Forall_app. split; [done|]. by constructor.
Qed.
Lemma NewCapped_ok tasks c : NoDup (map ID tasks) →
  NewColocatedCappedRandomTaskPicker maxSharded maxColocated tasks queueCapacity tableTypes = Ok c →
  capped_ok c ∧ capped_open c ++ doneTasks c ≡ₚ tasks ∧ Forall imported (doneTasks c).
Proof.
  intros Hids. unfold NewColocatedCappedRandomTaskPicker. intros (c0 & Hfold & [= <-])%bind_Ok.
  assert (∀ c1, within c1 → foldM (capped_add tableTypes) c1 tasks = Ok c0 →
    within c0 ∧ capped_open c0 ++ doneTasks c0 ≡ₚ (capped_open c1 ++ doneTasks c1) ++ tasks) as H.
  { clear Hfold Hids. induction tasks as [|t tasks IH]; intros c1 Hc1; cbn [foldM]; [intros [= <-]; by rewrite app_nil_r|].
    intros (c2 & Hadd & Hrest)%bind_Ok. destruct (capped_add_ok _ _ _ Hc1 Hadd) as [Hc2 Hp]. destruct (IH _ Hc2 Hrest) as [Hc0 Hp'].
    split; [done|]. rewrite Hp', Hp, <- app_assoc. done. }
  assert (within (mkCapped maxSharded maxColocated queueCapacity [] [] [] [] [])) as H0.
  { unfold within. cbn. change (lenT []) with 0. repeat split; [lia|lia|constructor]. }
  destruct (H _ H0 Hfold) as [(W1 & W2 & W3 & W4 & W5) Hp].
  cbn in Hp. destruct (Hsort (orderedPendingShardedTasks c0)) as [Hs1 Hs2].
  assert (capped_open (set_sharded c0 (inProgressShardedTasks c0) (sortTasksBySizeDesc (orderedPendingShardedTasks c0))) ≡ₚ capped_open c0) as Hopen.
  { unfold capped_open, capped_InProgressTasks, pendingTasks. cbn. by rewrite Hs1. }
  split; [|split; [rewrite Hopen; exact Hp|exact W5] ]. split; cbn [maxShardedTasksInProgress maxColocatedTasksInProgress
    inProgressShardedTasks inProgressColocatedTasks orderedPendingShardedTasks set_sharded]; [|lia|lia|lia|done].
  eapply NoDup_IDs_perm; [symmetry; exact Hopen|]. eapply (IDs_of_part _ (doneTasks c0)); [|exact Hids]. by rewrite Hp.
Qed.
End capped_new.

Lemma pickPendingColocated_iff r c : inRange r →
  match pickPendingColocatedTaskAsPerMaxTasks r c with
  | Some (t, _) => (lenT (inProgressColocatedTasks c) < maxColocatedTasksInProgress c ∧ pendingColocatedTasks c ≠ []) ∧ t ∈ pendingColocatedTasks c
  | None => ¬ (lenT (inProgressColocatedTasks c) < maxColocatedTasksInProgress c ∧ pendingColocatedTasks c ≠ [])
  end.
Proof.
  intros Hr. unfold pickPendingColocatedTaskAsPerMaxTasks. destruct (_ && _) eqn:Hc.
  - apply andb_true_iff in Hc as [Hlt%Z.ltb_lt Hne%lenT_pos]. by destruct (pickRandom_ok _ _ Hr Hne) as (i & v & -> & _ & Hv).
  - intros [Hlt%Z.ltb_lt Hne%lenT_pos]. by rewrite Hlt, Hne in Hc.
Qed.
Lemma pickPendingSharded_iff c :
  match pickPendingShardedTaskAsPerMaxTasks c with
  | Some (t, _) => (lenT (inProgressShardedTasks c) < maxShardedTasksInProgress c ∧ orderedPendingShardedTasks c ≠ []) ∧ t ∈ orderedPendingShardedTasks c
  | None => ¬ (lenT (inProgressShardedTasks c) < maxShardedTasksInProgress c ∧ orderedPendingShardedTasks c ≠ [])
  end.
Proof.
  unfold pickPendingShardedTaskAsPerMaxTasks. destruct (_ <? _) eqn:Hlt.
  - apply Z.ltb_lt in Hlt. destruct (orderedPendingShardedTasks c); [naive_solver|]. split; [done|by left].
  - apply Z.ltb_ge in Hlt. lia.
Qed.
Lemma capped_pick_cases r c t c' : capped_Pick r c = Ok (t, c') →
  pickPendingColocatedTaskAsPerMaxTasks r c = Some (t, c') ∨
  (pickPendingColocatedTaskAsPerMaxTasks r c = None ∧ pickPendingShardedTaskAsPerMaxTasks c = Some (t, c')) ∨
  (pickPendingColocatedTaskAsPerMaxTasks r c = None ∧ pickPendingShardedTaskAsPerMaxTasks c = None ∧ c' = c ∧
   (HasMoreColocatedTasks c = true → HasMoreShardedTasks c = true →
      if queueLen r <? queueCap c then t ∈ inProgressColocatedTasks c else t ∈ inProgressShardedTasks c)).
Proof.
  assert (∀ l i u, pickRandom r l = Some (i, u) → u ∈ l) as Hin.
  { intros l i u. unfold pickRandom. destruct (l !! _) eqn:Hl; [|done]. intros [= _ <-]. by eapply list_elem_of_lookup_2. }
  assert (∀ p, pickInProgressColocatedTask r c = Ok p → p.2 = c ∧ p.1 ∈ inProgressColocatedTasks c) as HC.
  { unfold pickInProgressColocatedTask. destruct (pickRandom r _) as [[i u]|] eqn:Hp; [|done]. intros p [= <-]. split; [done|by eapply Hin]. }
  assert (∀ p, pickInProgressShardedTask r c = Ok p → p.2 = c ∧ p.1 ∈ inProgressShardedTasks c) as HS.
  { unfold pickInProgressShardedTask. destruct (pickRandom r _) as [[i u]|] eqn:Hp; [|done]. intros p [= <-]. split; [done|by eapply Hin]. }
  unfold capped_Pick. destruct (negb (capped_HasMoreTasks c)); [done|].
  destruct (HasMoreShardedTasks c) eqn:Hms; cbn [negb].
  - destruct (HasMoreColocatedTasks c) eqn:Hmc; cbn [negb].
    + destruct (pickPendingColocatedTaskAsPerMaxTasks r c) as [p|]; [intros [= ->]; by left|].
      destruct (pickPendingShardedTaskAsPerMaxTasks c) as [p|]; [intros [= ->]; right; by left|].
      destruct (queueLen r <? queueCap c); [intros [Hc Ht]%HC|intros [Hc Ht]%HS]; cbn in *; subst; right; right; done.
    + assert (pickPendingColocatedTaskAsPerMaxTasks r c = None) as Hnone.
      { unfold HasMoreColocatedTasks in Hmc. apply orb_false_iff in Hmc as [_ Hmc]. unfold pickPendingColocatedTaskAsPerMaxTasks. by rewrite Hmc, andb_false_r. }
      unfold pickShardedTask. rewrite Hms. cbn [negb].
      destruct (pickPendingShardedTaskAsPerMaxTasks c) as [p|]; [intros [= ->]; right; by left|]. intros [Hc Ht]%HS. right. right. cbn in Hc. by subst.
  - assert (pickPendingShardedTaskAsPerMaxTasks c = None) as Hnone.
    { unfold HasMoreShardedTasks in Hms. apply orb_false_iff in Hms as [_ Hms%lenT_zero]. unfold pickPendingShardedTaskAsPerMaxTasks. rewrite Hms. by destruct (_ <? _). }
    unfold pickColocatedTask. destruct (negb (HasMoreColocatedTasks c)); [done|].
    destruct (pickPendingColocatedTaskAsPerMaxTasks r c) as [p|]; [intros [= ->]; by left|]. intros [Hc Ht]%HC. right. right. cbn in Hc. by subst.
Qed.
(** What the capped picker picks: it keeps both limits; a new colocated task as long
    as one may be taken up, else a new sharded task as long as one may be, and then a
    largest one (by rows, then by size); else one that is in progress, colocated
    exactly when its queue has room, if both kinds are left. *)
Theorem capped_pick_policy (r : chance) (c c' : ColocatedCappedRandomTaskPicker) (t : ImportFileTask) :
  capped_ok c → inRange r → capped_Pick r c = Ok (t, c') →
  let newColocated := lenT (inProgressColocatedTasks c) < maxColocatedTasksInProgress c ∧ pendingColocatedTasks c ≠ [] in
  let newSharded := lenT (inProgressShardedTasks c) < maxShardedTasksInProgress c ∧ orderedPendingShardedTasks c ≠ [] in
  lenT (inProgressColocatedTasks c') ≤ maxColocatedTasksInProgress c ∧ lenT (inProgressShardedTasks c') ≤ maxShardedTasksInProgress c ∧
  (newColocated → t ∈ pendingColocatedTasks c) ∧
  (¬ newColocated → newSharded → t ∈ orderedPendingShardedTasks c ∧ ∀ u, u ∈ orderedPendingShardedTasks c → bySizeDesc t u) ∧
  (¬ newColocated → ¬ newSharded → c' = c ∧
     (HasMoreColocatedTasks c = true → HasMoreShardedTasks c = true →
        if queueLen r <? queueCap c then t ∈ inProgressColocatedTasks c else t ∈ inProgressShardedTasks c)).
Proof.
  intros Hok Hr Hpick newColocated newSharded.
  destruct (capped_pick_total r c Hr Hok) as (t1 & c1 & Hp1 & Hpicked).
  { destruct (capped_HasMoreTasks c) eqn:Hm; [done|]. unfold capped_Pick in Hpick. by rewrite Hm in Hpick. }
  rewrite Hpick in Hp1. injection Hp1 as <- <-. destruct Hpicked as ([_ L1 L2 _ _] & _ & _ & _ & M1 & M2).
  split; [by rewrite <- M2|]. split; [by rewrite <- M1|]. pose proof (pickPendingColocated_iff r c Hr) as HC. fold newColocated in HC.
  pose proof (pickPendingSharded_iff c) as HS. fold newSharded in HS.
  destruct (capped_pick_cases _ _ _ _ Hpick) as [Hp|[(Hp & Hp2)|(Hp & Hp2 & -> & Hq)] ]; rewrite ?Hp, ?Hp2 in *.
  - destruct HC as [HC1 HC2]. split; [done|]. by split.
  - split; [done|]. split; [intros _ _; split; [by apply HS|by apply (pickPendingSharded_ok _ _ _ Hok Hp2)]|]. intros _ Hn. by destruct Hn, HS.
  - split; [done|]. split; [done|]. done.
Qed.
End pickers.

(** ** Two tasks, one of them colocated *)
Definition sampleName (t : string) : NameTuple :=
  let o := match NewObjectName POSTGRESQL "public" "public" t with Ok o => Some o | _ => None end in mkNameTuple o o None.
Definition sampleTask (id : Z) (t : string) (rows : Z) : ImportFileTask := mkTask id (t +:+ ".sql") (sampleName t) rows 0.
Definition shardedTask : ImportFileTask := sampleTask 1 "a" 10.
Definition colocatedTask : ImportFileTask := sampleTask 2 "b" 5.
Definition sampleTypes : TableTypes := StructMap.Put (StructMap.Put StructMap.NewStructMap (sampleName "a") SHARDED) (sampleName "b") COLOCATED.
Definition sampleStart : ColocatedCappedRandomTaskPicker := mkCapped 1 1 2 [] [] [] [shardedTask] [colocatedTask].
Example sampleStart_new :
  NewColocatedCappedRandomTaskPicker (λ _, Ok FILE_IMPORT_NOT_STARTED) (λ l, l) 1 1 [shardedTask; colocatedTask] 2 sampleTypes = Ok sampleStart.
Proof. vm_compute. reflexivity. Qed.
Lemma sampleStart_ok : capped_ok sampleStart.
Proof.
  split; [|cbn; unfold lenT; cbn; lia..|].
  - apply (bool_decide_unpack _). vm_compute. exact I.
  - cbn. repeat constructor.
Qed.
Definition sampleChance : chance := mkChance (λ _, 0%nat) 0.
Lemma sampleChance_ok : inRange sampleChance.
Proof. by intros n Hn. Qed.
Lemma capped_pick_policy_witness : colocatedTask ∈ pendingColocatedTasks sampleStart.
Proof.
  refine (proj1 (proj2 (proj2 (capped_pick_policy sampleChance sampleStart
    (mkCapped 1 1 2 [] [] [colocatedTask] [shardedTask] []) colocatedTask sampleStart_ok sampleChance_ok _))) _);
    [vm_compute; reflexivity|by split].
Defined.
End TaskPicker.
