(* ===== verification/ColocatedAwarePicker.v ===== *)
(** * The colocated-aware picker (cmd/importDataFileTaskPicker.go)

    A picker that chooses among the pending tables by weight, all colocated tables
    together weighing as much as one sharded table.  The weighted chooser is a
    library's: an argument, with what its documentation says of it. *)
From S2P Require Import Prelude StructMap SqlName ImportState TaskPicker.
Import SqlName ImportState TaskPicker.

Set Default Proof Using "Type*".

Module ColocatedAwarePicker.
(** ** All tables at random, the colocated ones together weighing as one *)
Section aware.
Context (GetFileImportStateOf : ImportFileTask → result FileImportState).
(** The target: [YbTargetDBColocatedChecker]. *)
Context (IsDBColocated : result bool) (IsTableColocated : NameTuple → result bool).
(** The weighted chooser is a library's. *)
Context {Chooser : Type} (NewChooser : list (NameTuple * Z) → result Chooser) (ChooserPick : chance → Chooser → NameTuple).
Notation PendingTasks := (StructMap.t NameTuple (list ImportFileTask)).
Record ColocatedAwareRandomTaskPicker : Type := mkAware {
  aw_done : list ImportFileTask; aw_inProgress : list ImportFileTask; maxTasksInProgress : Z;
  tableWisePendingTasks : PendingTasks; tableChooser : option Chooser; tableTypes : TableTypes }.

Definition addToPendingTasks (m : PendingTasks) (t : ImportFileTask) : PendingTasks :=
  StructMap.Put m (TableNameTup t) (default [] (StructMap.Get m (TableNameTup t)) ++ [t]).
Definition typeOf (types : TableTypes) (t : NameTuple) : result string :=
  match StructMap.Get types t with Some ty => Ok ty | None => Err "table type not found for table" end.
Definition countColocated (types : TableTypes) (n : Z) (t : NameTuple) : result Z :=
  tableType ← typeOf types t; Ok (if decide (tableType = COLOCATED) then n + 1 else n).
(** The choices handed to the chooser; the order of the keys is left open by Go. *)
Definition chooserChoices (types : TableTypes) (tableNames : list NameTuple) : result (list (NameTuple * Z)) :=
  colocatedCount ← foldM (countColocated types) 0 tableNames;
  let colocatedWeight := 1 in
  let shardedWeight := if colocatedCount =? 0 then 1 else colocatedCount * colocatedWeight in
  mapM_result (λ t, tableType ← typeOf types t; Ok (t, if decide (tableType = COLOCATED) then colocatedWeight else shardedWeight)) tableNames.
Definition initializeChooser (types : TableTypes) (m : PendingTasks) : result Chooser :=
  if (length (StructMap.Keys m) =? 0)%nat then Err "no pending tasks to initialize chooser"
  else choices ← chooserChoices types (StructMap.ActualKeys m); NewChooser choices.

Definition aware_setType (isDBColocated : bool) (types : TableTypes) (t : NameTuple) : result TableTypes :=
  match StructMap.Get types t with
  | Some _ => Ok types
  | None =>
      tableType ← (if isDBColocated then isColocated ← IsTableColocated t; Ok (if isColocated : bool then COLOCATED else SHARDED)
                   else Ok SHARDED);
      Ok (StructMap.Put types t tableType)
  end.
Definition aware_add (isDBColocated : bool) (c : ColocatedAwareRandomTaskPicker) (task : ImportFileTask) : result ColocatedAwareRandomTaskPicker :=
  types ← aware_setType isDBColocated (tableTypes c) (TableNameTup task);
  taskStatus ← GetFileImportStateOf task;
  match taskStatus with
  | FILE_IMPORT_COMPLETED =>
      Ok (mkAware (aw_done c ++ [task]) (aw_inProgress c) (maxTasksInProgress c) (tableWisePendingTasks c) (tableChooser c) types)
  | FILE_IMPORT_IN_PROGRESS =>
      if lenT (aw_inProgress c) <? maxTasksInProgress c
      then Ok (mkAware (aw_done c) (aw_inProgress c ++ [task]) (maxTasksInProgress c) (tableWisePendingTasks c) (tableChooser c) types)
      else Ok (mkAware (aw_done c) (aw_inProgress c) (maxTasksInProgress c) (addToPendingTasks (tableWisePendingTasks c) task) (tableChooser c) types)
  | FILE_IMPORT_NOT_STARTED =>
      Ok (mkAware (aw_done c) (aw_inProgress c) (maxTasksInProgress c) (addToPendingTasks (tableWisePendingTasks c) task) (tableChooser c) types)
  | FILE_IMPORT_COMPLETED_WITH_ERRORS => Err "unexpected status for task"
  end.
Definition NewColocatedAwareRandomTaskPicker (maxTasks : Z) (tasks : list ImportFileTask) : result ColocatedAwareRandomTaskPicker :=
  isDBColocated ← IsDBColocated;
  c ← foldM (aware_add isDBColocated) (mkAware [] [] maxTasks StructMap.NewStructMap None StructMap.NewStructMap) tasks;
  if (0 <? length (StructMap.Keys (tableWisePendingTasks c)))%nat then
    ch ← initializeChooser (tableTypes c) (tableWisePendingTasks c);
    Ok (mkAware (aw_done c) (aw_inProgress c) (maxTasksInProgress c) (tableWisePendingTasks c) (Some ch) (tableTypes c))
  else Ok c.

Definition aware_HasMoreTasks (c : ColocatedAwareRandomTaskPicker) : bool :=
  (0 <? lenT (aw_inProgress c)) || existsb (λ p, 0 <? lenT p.2) (map_to_list (StructMap.vmap (tableWisePendingTasks c))).
Definition PickTaskFromInProgressTasks (r : chance) (c : ColocatedAwareRandomTaskPicker) : result (ImportFileTask * ColocatedAwareRandomTaskPicker) :=
  match pickRandom r (aw_inProgress c) with Some (_, t) => Ok (t, c) | None => Err "no tasks in progress" end.
Definition PickTaskFromPendingTasks (r : chance) (c : ColocatedAwareRandomTaskPicker) : result (ImportFileTask * ColocatedAwareRandomTaskPicker) :=
  if (length (StructMap.Keys (tableWisePendingTasks c)) =? 0)%nat then Err "no pending tasks to pick from"
  else match tableChooser c with
       | None => Err "chooser not initialized"
       | Some ch =>
           let tablePick := ChooserPick r ch in
           match StructMap.Get (tableWisePendingTasks c) tablePick with
           | None => Err "no pending tasks for table picked"
           | Some [] => Panic "index out of range"
           | Some (pickedTask :: rest) =>
               '(m, chooser) ← (match rest with
                                | [] =>
                                    let m := StructMap.Delete (tableWisePendingTasks c) tablePick in
                                    if (0 <? length (StructMap.Keys m))%nat
                                    then ch ← initializeChooser (tableTypes c) m; Ok (m, Some ch)
                                    else Ok (m, Some ch)
                                | _ => Ok (StructMap.Put (tableWisePendingTasks c) tablePick rest, Some ch)
                                end);
               Ok (pickedTask, mkAware (aw_done c) (aw_inProgress c ++ [pickedTask]) (maxTasksInProgress c) m chooser (tableTypes c))
           end
       end.
Definition aware_Pick (r : chance) (c : ColocatedAwareRandomTaskPicker) : result (ImportFileTask * ColocatedAwareRandomTaskPicker) :=
  if negb (aware_HasMoreTasks c) then Err "no more tasks"
  else if lenT (aw_inProgress c) =? maxTasksInProgress c then PickTaskFromInProgressTasks r c
  else if (lenT (aw_inProgress c) <? maxTasksInProgress c) && (length (StructMap.Keys (tableWisePendingTasks c)) =? 0)%nat
  then PickTaskFromInProgressTasks r c
  else PickTaskFromPendingTasks r c.
Definition aware_MarkTaskAsDone (task : ImportFileTask) (c : ColocatedAwareRandomTaskPicker) : result ColocatedAwareRandomTaskPicker :=
  match removeByID (ID task) (aw_inProgress c) with
  | Some l => Ok (mkAware (aw_done c ++ [task]) l (maxTasksInProgress c) (tableWisePendingTasks c) (tableChooser c) (tableTypes c))
  | None => Err "task not found in inProgressTasks"
  end.
#[global] Instance Aware_Picker : FileTaskPicker ColocatedAwareRandomTaskPicker := {
  Pick := aware_Pick;
  MarkTaskAsDone := aware_MarkTaskAsDone;
  HasMoreTasks := aware_HasMoreTasks;
  InProgressTasks := aw_inProgress }.

(** *** The weights *)
Definition isColocated (types : TableTypes) (t : NameTuple) : bool := bool_decide (StructMap.Get types t = Some COLOCATED).
Fixpoint sumWeights (l : list (NameTuple * Z)) : Z := match l with [] => 0 | p :: l => p.2 + sumWeights l end.
Definition colocatedNames (types : TableTypes) (l : list NameTuple) : list NameTuple := filter (λ t, isColocated types t = true) l.
Definition known (types : TableTypes) (l : list NameTuple) : Prop := ∀ t, t ∈ l → is_Some (StructMap.Get types t).
Definition weightOf (types : TableTypes) (count : Z) (t : NameTuple) : Z := if isColocated types t then 1 else Z.max 1 count.
Lemma known_cons types t l : known types (t :: l) → (∃ ty, StructMap.Get types t = Some ty) ∧ known types l.
Proof. intros H. split; [apply H; by left|]. intros u Hu. apply H. by right. Qed.
Lemma typeOf_colocated types t ty : StructMap.Get types t = Some ty → isColocated types t = bool_decide (ty = COLOCATED).
Proof. clear IsTableColocated. unfold isColocated. intros ->. apply bool_decide_ext. naive_solver. Qed.
Lemma count_ok types l n : known types l → foldM (countColocated types) n l = Ok (n + Z.of_nat (length (colocatedNames types l))).
Proof.
  revert n. induction l as [|t l IH]; intros n Hk; cbn [foldM]; [f_equal; cbn; lia|]. apply known_cons in Hk as [(ty & Hty) Hk].
  assert (countColocated types n t = Ok (if decide (ty = COLOCATED) then n + 1 else n)) as ->.
  { unfold countColocated, typeOf. by rewrite Hty. }
  cbn [mbind result_bind]. rewrite IH by done. f_equal.
  unfold colocatedNames. rewrite filter_cons, (typeOf_colocated _ _ _ Hty). repeat case_decide; case_bool_decide; try done; cbn [length]; lia.
Qed.
Lemma choices_ok types l : known types l →
  chooserChoices types l = Ok (map (λ t, (t, weightOf types (Z.of_nat (length (colocatedNames types l))) t)) l).
Proof.
  intros Hk. unfold chooserChoices. rewrite count_ok by done. cbn [mbind result_bind]. rewrite Z.add_0_l, Z.mul_1_r.
  set (count := Z.of_nat (length (colocatedNames types l))). assert (0 <= count) as Hc by (unfold count; lia). clearbody count.
  induction l as [|t l IH]; [done|]. apply known_cons in Hk as [(ty & Hty) Hk]. cbn [mapM_result map].
  assert (typeOf types t = Ok ty) as -> by (unfold typeOf; by rewrite Hty).
  cbn [mbind result_bind]. rewrite IH by done. cbn [mbind result_bind]. do 3 f_equal. unfold weightOf. rewrite (typeOf_colocated _ _ _ Hty).
  case_decide; case_bool_decide; try done. destruct (Z.eqb_spec count 0); lia.
Qed.
Lemma colocated_sum types l w : sumWeights (map (λ t, (t, weightOf types w t)) (colocatedNames types l)) = Z.of_nat (length (colocatedNames types l)).
Proof.
  assert (Forall (λ t, isColocated types t = true) (colocatedNames types l)) as H by (apply Forall_forall; intros t [? _]%list_elem_of_filter; done).
  induction H as [|t l' Ht _ IH]; [done|]. cbn [map sumWeights]. unfold weightOf at 1. cbn [snd]. rewrite Ht, IH. cbn [length]. lia.
Qed.
(** The colocated tables together weigh as much as one sharded table: every table
    pending is a choice, the colocated ones with equal weights, and a sharded table's
    weight is the sum of the weights of the colocated ones (one if there are none). *)
Theorem colocated_weigh_as_one (types : TableTypes) (tableNames : list NameTuple) :
  known types tableNames → ∃ choices, chooserChoices types tableNames = Ok choices ∧ map fst choices = tableNames ∧
    (∀ t w, (t, w) ∈ choices → isColocated types t = true → w = 1) ∧
    (∀ t w, (t, w) ∈ choices → isColocated types t = false →
       w = Z.max 1 (sumWeights (filter (λ p, isColocated types p.1 = true) choices))).
Proof.
  intros Hk. rewrite choices_ok by done. set (n := Z.of_nat _). eexists. split; [done|]. split; [|split].
  - rewrite map_map. cbn. apply map_id.
  - intros t w Hin Ht. apply list_elem_of_fmap in Hin as (u & [= -> ->] & _). unfold weightOf. by rewrite Ht.
  - intros t w Hin Ht. apply list_elem_of_fmap in Hin as (u & [= -> ->] & _). unfold weightOf at 1. rewrite Ht. f_equal.
    transitivity (sumWeights (map (λ t, (t, weightOf types n t)) (colocatedNames types tableNames))); [symmetry; apply colocated_sum|].
    f_equal. unfold colocatedNames. clearbody n. clear. induction tableNames as [|t l IH]; [done|].
    cbn [map]. rewrite !filter_cons. cbn [fst]. case_decide; [cbn [map]; by f_equal|done].
Qed.
Lemma choices_sum types l n : 0 <= n → sumWeights (map (λ t, (t, weightOf types n t)) l) ≤ Z.of_nat (length l) * Z.max 1 n.
Proof.
  intros Hn. induction l as [|t l IH]; [done|]. cbn [map sumWeights length snd]. unfold weightOf at 1. destruct (isColocated types t); lia.
Qed.

(** *** The picker keeps the laws *)
(** The chooser picks one of its choices; it can be made when the weights are positive
    and their sum is an int. *)
Context (HChooser : ∀ choices, choices ≠ [] → (∀ p, p ∈ choices → 0 < p.2) → sumWeights choices < 2 ^ 63 →
           ∃ ch, NewChooser choices = Ok ch ∧ ∀ r, ChooserPick r ch ∈ map fst choices).
Definition openPending (vm : gmap string (list ImportFileTask)) : list ImportFileTask := concat (map_to_list vm).*2.
Definition aware_open (c : ColocatedAwareRandomTaskPicker) : list ImportFileTask :=
  aw_inProgress c ++ openPending (StructMap.vmap (tableWisePendingTasks c)).
Record pendingOk (types : TableTypes) (m : PendingTasks) : Prop := mkPendingOk {
  po_wf : StructMap.wf m;
  po_nonempty : ∀ k l, StructMap.vmap m !! k = Some l → l ≠ [];
  po_known : known types (StructMap.ActualKeys m);
  po_size : Z.of_nat (size (StructMap.kmap m)) ^ 2 < 2 ^ 63 }.
Record aware_ok (c : ColocatedAwareRandomTaskPicker) : Prop := mkAwareOk {
  ao_ids : NoDup (map ID (aware_open c));
  ao_max : 1 ≤ maxTasksInProgress c ∧ lenT (aw_inProgress c) ≤ maxTasksInProgress c;
  ao_pending : pendingOk (tableTypes c) (tableWisePendingTasks c);
  ao_chooser : StructMap.Keys (tableWisePendingTasks c) ≠ [] →
    ∃ ch, tableChooser c = Some ch ∧ ∀ r, is_Some (StructMap.Get (tableWisePendingTasks c) (ChooserPick r ch)) }.
Lemma openPending_split vm k l : vm !! k = Some l → openPending vm ≡ₚ l ++ openPending (delete k vm).
Proof. intros Hk. unfold openPending. rewrite <- (map_to_list_delete vm k l Hk). done. Qed.
Lemma openPending_insert vm k l : openPending (<[k := l]> vm) ≡ₚ l ++ openPending (delete k vm).
Proof.
  unfold openPending. rewrite <- insert_delete_eq. rewrite map_to_list_insert by apply lookup_delete_eq. done.
Qed.
Lemma Keys_nil (m : PendingTasks) : StructMap.wf m → StructMap.Keys m = [] ↔ StructMap.vmap m = ∅.
Proof.
  intros [Hdom _]. unfold StructMap.Keys. split.
  - intros Hn%fmap_nil_inv. apply map_to_list_empty_iff in Hn. apply map_eq. intros k. rewrite lookup_empty.
    destruct (StructMap.vmap m !! k) eqn:Hk; [|done]. destruct (proj2 (Hdom k)) as [x Hx]; [eauto|]. rewrite Hn in Hx. done.
  - intros Hn. assert (StructMap.kmap m = ∅) as ->; [|by rewrite map_to_list_empty]. apply map_eq. intros k. rewrite lookup_empty.
    destruct (StructMap.kmap m !! k) eqn:Hk; [|done]. destruct (proj1 (Hdom k)) as [x Hx]; [eauto|]. rewrite Hn in Hx. done.
Qed.
Lemma openPending_nil types m : pendingOk types m → openPending (StructMap.vmap m) = [] ↔ StructMap.Keys m = [].
Proof.
  intros [Hwf Hne _ _]. rewrite Keys_nil by done. split; [|by intros ->]. intros Hn. apply map_eq. intros k. rewrite lookup_empty.
  destruct (StructMap.vmap m !! k) as [l|] eqn:Hk; [|done]. exfalso. pose proof (openPending_split _ _ _ Hk) as Hp. rewrite Hn in Hp.
  apply Permutation_nil_l in Hp. symmetry in Hp. apply app_nil in Hp as [-> _]. by eapply Hne.
Qed.
Lemma choice_pending m (t : NameTuple) : StructMap.wf m → t ∈ StructMap.ActualKeys m → is_Some (StructMap.Get (V:=list ImportFileTask) m t).
Proof.
  intros [Hdom Hkey] ([k t'] & -> & Hin)%list_elem_of_fmap. apply elem_of_map_to_list in Hin. unfold StructMap.Get. cbn.
  rewrite (Hkey _ _ Hin). apply Hdom. eauto.
Qed.
(** As long as something is pending a chooser can be made, and it picks a pending table. *)
Lemma initializeChooser_ok types m : pendingOk types m → StructMap.Keys m ≠ [] →
  ∃ ch, initializeChooser types m = Ok ch ∧ ∀ r, is_Some (StructMap.Get m (ChooserPick r ch)).
Proof.
  intros [Hwf Hne Hk Hsize] Hkeys. unfold initializeChooser.
  assert (length (StructMap.ActualKeys m) = size (StructMap.kmap m)) as Hlen by (unfold StructMap.ActualKeys; rewrite length_fmap; apply length_map_to_list).
  assert (length (StructMap.Keys m) = size (StructMap.kmap m)) as Hlen' by (unfold StructMap.Keys; rewrite length_fmap; apply length_map_to_list).
  destruct (length (StructMap.Keys m)) as [|n] eqn:Hn; [by apply nil_length_inv in Hn|]. cbn [Nat.eqb]. rewrite choices_ok by done.
  cbn [mbind result_bind]. set (count := Z.of_nat (length (colocatedNames types (StructMap.ActualKeys m)))).
  assert (0 <= count ∧ count <= Z.of_nat (size (StructMap.kmap m))) as [Hc0 Hc].
  { unfold count. rewrite <- Hlen. split; [lia|]. apply inj_le. unfold colocatedNames. apply length_filter. }
  destruct (HChooser (map (λ t, (t, weightOf types count t)) (StructMap.ActualKeys m))) as (ch & -> & Hch).
  - intros Hnil%(f_equal length). rewrite length_map, Hlen in Hnil. cbn in Hnil. lia.
  - intros p (t & -> & _)%list_elem_of_fmap. cbn. unfold weightOf. destruct (isColocated types t); lia.
  - pose proof (choices_sum types (StructMap.ActualKeys m) count Hc0). rewrite Hlen in *. nia.
  - exists ch. split; [done|]. intros r. specialize (Hch r). rewrite map_map in Hch. cbn in Hch. rewrite map_id in Hch. by apply choice_pending.
Qed.

Lemma ActualKeys_iff (m : PendingTasks) t : t ∈ StructMap.ActualKeys m ↔ ∃ k, StructMap.kmap m !! k = Some t.
Proof.
  unfold StructMap.ActualKeys. rewrite list_elem_of_fmap. split.
  - intros ([k t'] & -> & Hin%elem_of_map_to_list). by exists k.
  - intros (k & Hk). exists (k, t). by rewrite elem_of_map_to_list.
Qed.
Lemma pendingOk_Delete types m t : pendingOk types m → pendingOk types (StructMap.Delete m t).
Proof.
  intros [Hwf Hne Hk Hsize]. split.
  - by apply StructMap.wf_Delete.
  - intros k l. cbn. intros [_ ?]%lookup_delete_Some. by eapply Hne.
  - intros u (k & Hu)%ActualKeys_iff. cbn in Hu. apply lookup_delete_Some in Hu as [_ Hu]. apply Hk, ActualKeys_iff. eauto.
  - cbn. assert (size (delete (Key t) (StructMap.kmap m)) ≤ size (StructMap.kmap m))%nat; [|nia].
    destruct (StructMap.kmap m !! Key t) eqn:Hd; [|by rewrite delete_id]. rewrite (map_size_delete_Some _ _) by eauto. lia.
Qed.
Lemma pendingOk_Put types m t l l0 : pendingOk types m → StructMap.Get m t = Some l0 → l ≠ [] → pendingOk types (StructMap.Put m t l).
Proof.
  intros [Hwf Hne Hk Hsize] Hget Hl. pose proof Hwf as [Hdom Hkey].
  destruct (proj2 (Hdom (Key t))) as [t0 Ht0]; [unfold StructMap.Get in Hget; rewrite Hget; eauto|]. split.
  - by apply StructMap.wf_Put.
  - intros k l'. cbn. intros [[_ <-]|[_ ?]]%lookup_insert_Some; [done|by eapply Hne].
  - intros u (k & Hu)%ActualKeys_iff. cbn in Hu. apply lookup_insert_Some in Hu as [[_ <-]|[_ Hu]]; [|apply Hk, ActualKeys_iff; eauto].
    unfold StructMap.Get. rewrite <- (Hkey _ _ Ht0). apply Hk, ActualKeys_iff. eauto.
  - cbn. rewrite map_size_insert_Some by eauto. done.
Qed.
Lemma aware_pickPending_total r c : aware_ok c → lenT (aw_inProgress c) < maxTasksInProgress c →
  StructMap.Keys (tableWisePendingTasks c) ≠ [] →
  ∃ t c', PickTaskFromPendingTasks r c = Ok (t, c') ∧ aware_ok c' ∧ t ∈ aw_inProgress c' ∧ aware_open c' ≡ₚ aware_open c ∧ aw_done c' = aw_done c.
Proof. clear GetFileImportStateOf.
  intros [Hids Hmax Hpend Hch] Hlt Hkeys. destruct (Hch Hkeys) as (ch & Hc & Hpick). destruct (Hpick r) as [l Hl].
  unfold PickTaskFromPendingTasks. destruct (length (StructMap.Keys _)) as [|n] eqn:Hn; [by apply nil_length_inv in Hn|]. cbn [Nat.eqb].
  rewrite Hc, Hl. destruct l as [|t rest]; [by apply (po_nonempty _ _ Hpend) in Hl|].
  set (m := tableWisePendingTasks c) in *. pose proof (openPending_split _ _ _ Hl) as Hsplit.
  assert (∀ m' chooser, pendingOk (tableTypes c) m' → openPending (StructMap.vmap m) ≡ₚ t :: openPending (StructMap.vmap m') →
    (StructMap.Keys m' ≠ [] → ∃ ch, chooser = Some ch ∧ ∀ r, is_Some (StructMap.Get m' (ChooserPick r ch))) →
    let c' := mkAware (aw_done c) (aw_inProgress c ++ [t]) (maxTasksInProgress c) m' chooser (tableTypes c) in
    aware_ok c' ∧ t ∈ aw_inProgress c' ∧ aware_open c' ≡ₚ aware_open c ∧ aw_done c' = aw_done c) as Hnext.
  { intros m' chooser Hp' Hopen' Hch' c'. assert (aware_open c' ≡ₚ aware_open c) as Hperm.
    { unfold aware_open. cbn. fold m. rewrite Hopen'. solve_Permutation. }
    split; [|split; [cbn; set_solver|done] ]. split; [by eapply NoDup_IDs_perm; [symmetry; exact Hperm|]|cbn; rewrite lenT_app; lia|done|done]. }
  destruct rest as [|t2 rest].
  - pose proof (pendingOk_Delete _ _ (ChooserPick r ch) Hpend) as Hd. set (m' := StructMap.Delete m (ChooserPick r ch)) in *.
    assert (openPending (StructMap.vmap m) ≡ₚ t :: openPending (StructMap.vmap m')) as Hopen' by (by rewrite Hsplit).
    destruct (length (StructMap.Keys m')) as [|n'] eqn:Hn'.
    + cbn [Nat.ltb Nat.leb mbind result_bind]. eexists _, _. split; [done|]. apply Hnext; [done|done|]. intros Hk'. by apply nil_length_inv in Hn'.
    + cbn [Nat.ltb Nat.leb]. destruct (initializeChooser_ok _ _ Hd) as (ch' & -> & Hch'); [by intros Hk'; rewrite Hk' in Hn'|].
      cbn [mbind result_bind]. eexists _, _. split; [done|]. apply Hnext; [done|done|]. eauto.
  - cbn [mbind result_bind]. eexists _, _. split; [done|]. apply Hnext.
    + by eapply pendingOk_Put.
    + cbn [StructMap.vmap StructMap.Put]. by rewrite openPending_insert, Hsplit.
    + intros _. exists ch. split; [done|]. intros r'. rewrite StructMap.Get_Put. case_decide; [eauto|apply Hpick].
Qed.
Lemma aware_more c : aware_ok c → aware_HasMoreTasks c = false ↔ aware_open c = [].
Proof.
  intros [_ _ Hpend _]. unfold aware_HasMoreTasks, aware_open. rewrite orb_false_iff, lenT_zero. split.
  - intros [-> Hall]. cbn. unfold openPending. apply concat_nil_Forall, Forall_forall. intros l (p & -> & Hp)%list_elem_of_fmap.
    rewrite <- lenT_zero. apply not_true_iff_false. intros Hp2. apply not_true_iff_false in Hall. apply Hall, existsb_exists.
    exists p. by rewrite <- list_elem_of_In.
  - intros [-> Hn]%app_nil. split; [done|]. apply not_true_iff_false. rewrite existsb_exists. intros (p & Hp & Hlen).
    rewrite <- list_elem_of_In in Hp. apply lenT_pos in Hlen. destruct p as [k l]. apply elem_of_map_to_list in Hp. cbn in Hlen.
    pose proof (openPending_split _ _ _ Hp) as Hs. rewrite Hn in Hs. apply Permutation_nil_l in Hs. symmetry in Hs. by apply app_nil in Hs as [-> _].
Qed.
#[global] Instance Aware_laws : FileTaskPickerLaws ColocatedAwareRandomTaskPicker aware_ok aware_open aw_done.
Proof.
  split; cbn.
  - intros c Hok. by apply aware_more.
  - intros c r Hok Hmore Hr. unfold aware_Pick. rewrite Hmore. cbn [negb]. pose proof (ao_max _ Hok) as [H1 H2].
    assert (aw_inProgress c ≠ [] → ∃ t c', PickTaskFromInProgressTasks r c = Ok (t, c') ∧ aware_ok c' ∧ t ∈ aw_inProgress c' ∧
              aware_open c' ≡ₚ aware_open c ∧ aw_done c' = aw_done c) as Hin.
    { intros Hne. unfold PickTaskFromInProgressTasks. destruct (pickRandom_ok _ _ Hr Hne) as (i & t & -> & _ & Ht). by exists t, c. }
    destruct (Z.eqb_spec (lenT (aw_inProgress c)) (maxTasksInProgress c)) as [He|He].
    { apply Hin. intros Hn. rewrite Hn in He. change (lenT []) with 0 in He. lia. }
    rewrite (proj2 (Z.ltb_lt _ _)) by lia. cbn [andb]. destruct (length (StructMap.Keys (tableWisePendingTasks c))) as [|n] eqn:Hn; cbn [Nat.eqb].
    + apply Hin. intros Hnil. apply nil_length_inv in Hn. apply (openPending_nil _ _ (ao_pending _ Hok)) in Hn.
      assert (aware_HasMoreTasks c = false) as Hf; [|congruence]. apply aware_more; [done|]. unfold aware_open. by rewrite Hnil, Hn.
    + apply aware_pickPending_total; [done|lia|]. by intros Hk; rewrite Hk in Hn.
  - intros c t [H1 H2 H3 H4] Hin. unfold aware_MarkTaskAsDone. destruct (removeByID_perm t (aw_inProgress c)) as (l & -> & Hl); [|done|].
    { eapply IDs_of_part; [|exact H1]. unfold aware_open. reflexivity. }
    assert (aware_open c ≡ₚ t :: l ++ openPending (StructMap.vmap (tableWisePendingTasks c))) as Hperm by (unfold aware_open; rewrite Hl; done).
    eexists. split; [done|]. split; [|done]. split; [|cbn|done|done].
    + unfold aware_open at 1. cbn. rewrite Hperm in H1. by apply NoDup_cons in H1 as [_ ?].
    + unfold lenT in *. rewrite Hl in H2. cbn in H2. lia.
Qed.

Lemma addToPendingTasks_open m t : openPending (StructMap.vmap (addToPendingTasks m t)) ≡ₚ openPending (StructMap.vmap m) ++ [t].
Proof.
  unfold addToPendingTasks, StructMap.Get. cbn [StructMap.vmap StructMap.Put]. rewrite openPending_insert.
  destruct (StructMap.vmap m !! Key (TableNameTup t)) as [l|] eqn:Hl; cbn [default].
  - rewrite (openPending_split _ _ _ Hl). solve_Permutation.
  - rewrite delete_id by done. cbn. solve_Permutation.
Qed.
(** The pending tasks while the constructor runs, over the first [n] tasks. *)
Definition building (types : TableTypes) (m : PendingTasks) (n : nat) : Prop :=
  StructMap.wf m ∧ (∀ k l, StructMap.vmap m !! k = Some l → l ≠ []) ∧ known types (StructMap.ActualKeys m) ∧ (size (StructMap.kmap m) ≤ n)%nat.
Lemma building_add types m n t : building types m n → is_Some (StructMap.Get types (TableNameTup t)) → building types (addToPendingTasks m t) (S n).
Proof.
  intros (Hwf & Hne & Hk & Hsize) Ht. unfold addToPendingTasks. split; [by apply StructMap.wf_Put|]. split; [|split].
  - intros k l. cbn. intros [[_ <-]|[_ ?]]%lookup_insert_Some; [by destruct (default _ _)|by eapply Hne].
  - intros u (k & Hu)%ActualKeys_iff. cbn in Hu. apply lookup_insert_Some in Hu as [[_ <-]|[_ Hu]]; [done|]. apply Hk, ActualKeys_iff. eauto.
  - cbn. destruct (StructMap.kmap m !! Key (TableNameTup t)) eqn:Hd; [rewrite map_size_insert_Some by eauto; lia|].
    rewrite map_size_insert_None by done. lia.
Qed.
Lemma aware_setType_ok b types t types' : aware_setType b types t = Ok types' →
  is_Some (StructMap.Get types' t) ∧ ∀ u, is_Some (StructMap.Get types u) → is_Some (StructMap.Get types' u).
Proof.
  unfold aware_setType. destruct (StructMap.Get types t) eqn:Ht; [intros [= <-]; rewrite Ht; eauto|].
  intros (ty & _ & [= <-])%bind_Ok. split; [rewrite StructMap.Get_Put, decide_True by done; eauto|].
  intros u Hu. rewrite StructMap.Get_Put. case_decide; [eauto|done].
Qed.
Lemma building_types types types' m n : building types m n → (∀ u, is_Some (StructMap.Get types u) → is_Some (StructMap.Get types' u)) → building types' m (S n).
Proof. intros (Hwf & Hne & Hk & Hsize) Hmono. split; [done|]. split; [done|]. split; [|lia]. intros u Hu. by apply Hmono, Hk. Qed.
Lemma aware_add_ok b c t c' n : building (tableTypes c) (tableWisePendingTasks c) n → lenT (aw_inProgress c) ≤ maxTasksInProgress c →
  aware_add b c t = Ok c' →
  building (tableTypes c') (tableWisePendingTasks c') (S n) ∧ lenT (aw_inProgress c') ≤ maxTasksInProgress c' ∧
  maxTasksInProgress c' = maxTasksInProgress c ∧ aware_open c' ++ aw_done c' ≡ₚ (aware_open c ++ aw_done c) ++ [t].
Proof.
  intros HB Hlen. unfold aware_add. intros (types & Hty & H)%bind_Ok. apply aware_setType_ok in Hty as [Ht Hmono].
  apply bind_Ok in H as (st & _ & H). pose proof (building_types _ types _ _ HB Hmono) as HB'.
  assert (building types (addToPendingTasks (tableWisePendingTasks c) t) (S n)) as HB2.
  { apply building_add; [|done]. destruct HB as (B1 & B2 & B3 & B4). split; [done|]. split; [done|]. split; [|done].
    intros u Hu. by apply Hmono, B3. }
  destruct st; [injection H as <-| |injection H as <-|done].
  - split; [done|]. split; [done|]. split; [done|]. unfold aware_open. cbn [aw_inProgress tableWisePendingTasks aw_done]. rewrite addToPendingTasks_open. solve_Permutation.
  - destruct (_ <? _) eqn:Hlt in H; injection H as <-.
    + apply Z.ltb_lt in Hlt. split; [done|]. split; [cbn; rewrite lenT_app; lia|]. split; [done|]. unfold aware_open. cbn. solve_Permutation.
    + split; [done|]. split; [done|]. split; [done|]. unfold aware_open. cbn [aw_inProgress tableWisePendingTasks aw_done]. rewrite addToPendingTasks_open. solve_Permutation.
  - split; [done|]. split; [done|]. split; [done|]. unfold aware_open. cbn. solve_Permutation.
Qed.
Lemma NewAware_ok maxTasks tasks c : NoDup (map ID tasks) → 1 ≤ maxTasks → Z.of_nat (length tasks) ^ 2 < 2 ^ 63 →
  NewColocatedAwareRandomTaskPicker maxTasks tasks = Ok c → aware_ok c ∧ aware_open c ++ aw_done c ≡ₚ tasks.
Proof.
  intros Hids Hmax Hsize. unfold NewColocatedAwareRandomTaskPicker. intros (b & _ & H)%bind_Ok. apply bind_Ok in H as (c0 & Hfold & H).
  assert (∀ c1 n, building (tableTypes c1) (tableWisePendingTasks c1) n → lenT (aw_inProgress c1) ≤ maxTasksInProgress c1 →
    foldM (aware_add b) c1 tasks = Ok c0 →
    building (tableTypes c0) (tableWisePendingTasks c0) (n + length tasks) ∧ lenT (aw_inProgress c0) ≤ maxTasksInProgress c0 ∧
    maxTasksInProgress c0 = maxTasksInProgress c1 ∧ aware_open c0 ++ aw_done c0 ≡ₚ (aware_open c1 ++ aw_done c1) ++ tasks) as Hgo.
  { clear Hfold H Hids Hsize. induction tasks as [|t tasks IH]; intros c1 n HB Hlen; cbn [foldM].
    { intros [= <-]. rewrite app_nil_r, Nat.add_0_r. done. }
    intros (c2 & Hadd & Hrest)%bind_Ok. destruct (aware_add_ok _ _ _ _ _ HB Hlen Hadd) as (HB2 & Hlen2 & Hm2 & Hp2).
    destruct (IH _ _ HB2 Hlen2 Hrest) as (HB3 & Hlen3 & Hm3 & Hp3). cbn [length]. rewrite <- Nat.add_succ_comm.
    split; [done|]. split; [done|]. split; [congruence|]. by rewrite Hp3, Hp2, <- app_assoc. }
  assert (building StructMap.NewStructMap StructMap.NewStructMap 0) as HB0.
  { split; [apply StructMap.wf_New|]. split; [intros k l; cbn; by rewrite lookup_empty|]. split; [|done].
    intros u (k & Hu)%ActualKeys_iff. cbn in Hu. by rewrite lookup_empty in Hu. }
  assert (lenT [] ≤ maxTasks) as Hl0 by (change (lenT []) with 0; lia).
  destruct (Hgo (mkAware [] [] maxTasks StructMap.NewStructMap None StructMap.NewStructMap) 0%nat HB0 Hl0 Hfold) as ((B1 & B2 & B3 & B4) & Hlen & Hm & Hp).
  cbn in Hm, Hp, B4. assert (aware_open c0 ++ aw_done c0 ≡ₚ tasks) as Hall by exact Hp.
  assert (pendingOk (tableTypes c0) (tableWisePendingTasks c0)) as HP by (split; [done..|nia]).
  assert (NoDup (map ID (aware_open c0))) as Hnd by (eapply IDs_of_part; [symmetry; exact Hall|done]).
  destruct (length (StructMap.Keys (tableWisePendingTasks c0))) as [|k] eqn:Hk; cbn [Nat.ltb Nat.leb] in H.
  - injection H as <-. split; [|done]. split; [done|lia|done|]. intros Hne. by apply nil_length_inv in Hk.
  - assert (StructMap.Keys (tableWisePendingTasks c0) ≠ []) as Hne by (intros Hn; by rewrite Hn in Hk).
    destruct (initializeChooser_ok _ _ HP Hne) as (ch & Hch & Hpick). rewrite Hch in H. injection H as <-. split; [|done].
    split; [done|cbn; lia|done|]. intros _. by exists ch.
Qed.
End aware.

Lemma colocated_weigh_as_one_witness :
  ∃ choices, chooserChoices sampleTypes [sampleName "a"; sampleName "b"] = Ok choices ∧ map fst choices = [sampleName "a"; sampleName "b"].
Proof.
  destruct (colocated_weigh_as_one sampleTypes [sampleName "a"; sampleName "b"]) as (choices & H1 & H2 & _).
  - intros t [-> |[-> |[]%not_elem_of_nil]%elem_of_cons]%elem_of_cons; vm_compute; eauto.
  - exists choices. split; [exact H1|exact H2].
Defined.
End ColocatedAwarePicker.
