(* ===== verification/ImportLoop.v ===== *)
(** * The main loop of the import (cmd/importData.go)

    The tasks are classified by the import state of their files; the loop asks a picker
    for a task, lets its importer submit one more batch, and tells the picker when the
    task is done.  Its theorems hold for every picker that keeps the laws of the
    interface. *)
From S2P Require Import Prelude StructMap SqlName ImportState TaskPicker ColocatedAwarePicker.
Import SqlName ImportState TaskPicker ColocatedAwarePicker.

Set Default Proof Using "Type*".

Module ImportLoop.
(** ** What the main loop starts from *)
Section start.
Context (GetFileImportStateOf : ImportFileTask → result FileImportState).
Context (IsDBColocated : result bool) (IsTableColocated : NameTuple → result bool).
(** In progress, not started, completed. *)
Definition classifyTask (acc : list ImportFileTask * list ImportFileTask * list ImportFileTask) (task : ImportFileTask)
    : result (list ImportFileTask * list ImportFileTask * list ImportFileTask) :=
  let '(inProgressTasks, notStartedTasks, completedTasks) := acc in
  fileImportState ← GetFileImportStateOf task;
  match fileImportState with
  | FILE_IMPORT_COMPLETED | FILE_IMPORT_COMPLETED_WITH_ERRORS => Ok (inProgressTasks, notStartedTasks, completedTasks ++ [task])
  | FILE_IMPORT_IN_PROGRESS => Ok (inProgressTasks ++ [task], notStartedTasks, completedTasks)
  | FILE_IMPORT_NOT_STARTED => Ok (inProgressTasks, notStartedTasks ++ [task], completedTasks)
  end.
(** The pending tasks and the completed ones. *)
Definition classifyTasksForImport (tasks : list ImportFileTask) : result (list ImportFileTask * list ImportFileTask) :=
  '(inProgressTasks, notStartedTasks, completedTasks) ← foldM classifyTask ([], [], []) tasks;
  Ok (inProgressTasks ++ notStartedTasks, completedTasks).
(** For the importer of a YugabyteDB target. *)
Definition getTableTypes (tasks : list ImportFileTask) : result TableTypes :=
  isDBColocated ← IsDBColocated;
  foldM (λ types t, aware_setType IsTableColocated isDBColocated types (TableNameTup t)) StructMap.NewStructMap tasks.

Definition isCompleted (t : ImportFileTask) : Prop :=
  GetFileImportStateOf t = Ok FILE_IMPORT_COMPLETED ∨ GetFileImportStateOf t = Ok FILE_IMPORT_COMPLETED_WITH_ERRORS.
(** Every task is pending or completed, and no pending one has a state the pickers refuse. *)
Lemma classify_ok tasks pending completed : classifyTasksForImport tasks = Ok (pending, completed) →
  pending ++ completed ≡ₚ tasks ∧ Forall isCompleted completed ∧ Forall (λ t, ¬ isCompleted t) pending.
Proof.
  unfold classifyTasksForImport. intros ([[a b] d] & Hfold & [= <- <-])%bind_Ok.
  assert (∀ a0 b0 d0, Forall isCompleted d0 → Forall (λ t, ¬ isCompleted t) (a0 ++ b0) → foldM classifyTask (a0, b0, d0) tasks = Ok (a, b, d) →
    (a ++ b) ++ d ≡ₚ ((a0 ++ b0) ++ d0) ++ tasks ∧ Forall isCompleted d ∧ Forall (λ t, ¬ isCompleted t) (a ++ b)) as H.
  { clear Hfold. induction tasks as [|t tasks IH]; intros a0 b0 d0 Hd Hab; cbn [foldM]; [intros [= <- <- <-]; by rewrite app_nil_r|].
    intros ([[a1 b1] d1] & Hc & Hrest)%bind_Ok. unfold classifyTask in Hc. apply bind_Ok in Hc as (st & Hst & Hc).
    assert (∀ l, Permutation (((a1 ++ b1) ++ d1) ++ l) (((a0 ++ b0) ++ d0) ++ t :: l)) as Hp.
    { intros l. destruct st; injection Hc as <- <- <-; solve_Permutation. }
    assert (Forall isCompleted d1 ∧ Forall (λ t, ¬ isCompleted t) (a1 ++ b1)) as [Hd1 Hab1].
    { unfold isCompleted in *. destruct st; injection Hc as <- <- <-; rewrite ?Forall_app in *; (split; [try done|try done]);
        repeat split; try tauto; constructor; try constructor; rewrite Hst; naive_solver. }
    destruct (IH _ _ _ Hd1 Hab1 Hrest) as (H1 & H2 & H3). split; [by rewrite H1, Hp|done]. }
  apply H in Hfold; [done|constructor|constructor].
Qed.
End start.

(** ** The main loop *)
Section loop.
Context {P : Type} `{HP : FileTaskPicker P}.
(** What the importers and the target do at one turn. *)
Record turnEnv : Type := mkTurn {
  chanceOf : chance;
  createFileTaskImporter : ImportFileTask → option string;   (* the error *)
  AllBatchesSubmitted : ImportFileTask → bool;
  AllBatchesImported : ImportFileTask → result bool;
  IsNextBatchAvailable : ImportFileTask → bool;
  ProduceAndSubmitNextBatch : ImportFileTask → option string }.
(** One turn; the importers are known by the IDs of their tasks.  Waiting has no effect. *)
Definition turn (env : turnEnv) (taskPicker : P) (taskImporters : gset Z) : result (P * gset Z) :=
  '(task, taskPicker) ← Pick (chanceOf env) taskPicker;
  taskImporters ← (if decide (ID task ∈ taskImporters) then Ok taskImporters
                   else match createFileTaskImporter env task with
                        | Some e => Err ("create file task importer: " +:+ e)
                        | None => Ok ({[ID task]} ∪ taskImporters)
                        end);
  if AllBatchesSubmitted env task then
    taskDone ← AllBatchesImported env task;
    if taskDone : bool then taskPicker ← MarkTaskAsDone task taskPicker; Ok (taskPicker, taskImporters)
    else Ok (taskPicker, taskImporters)
  else if negb (IsNextBatchAvailable env task) then Ok (taskPicker, taskImporters)
  else match ProduceAndSubmitNextBatch env task with
       | Some e => Err ("submit next batch: " +:+ e)
       | None => Ok (taskPicker, taskImporters)
       end.
(** The turns of the environments given; the flag: the loop has ended. *)
Fixpoint importTasksViaTaskPicker (envs : list turnEnv) (taskPicker : P) (taskImporters : gset Z) : result (bool * P * gset Z) :=
  if negb (HasMoreTasks taskPicker) then Ok (true, taskPicker, taskImporters)
  else match envs with
       | [] => Ok (false, taskPicker, taskImporters)
       | env :: envs =>
           '(taskPicker, taskImporters) ← turn env taskPicker taskImporters;
           importTasksViaTaskPicker envs taskPicker taskImporters
       end.

Context (ok : P → Prop) (open filed : P → list ImportFileTask) `{HL : !FileTaskPickerLaws P ok open filed}.
Definition quietEnv (env : turnEnv) : Prop :=
  ∀ t, createFileTaskImporter env t = None ∧ ProduceAndSubmitNextBatch env t = None ∧ ∃ b, AllBatchesImported env t = Ok b.
Definition finishedEnv (env : turnEnv) : Prop :=
  ∀ t, AllBatchesSubmitted env t = true ∧ AllBatchesImported env t = Ok true.
(** What a turn does to the tasks. *)
Lemma turn_spec env p imps p' imps' : ok p → HasMoreTasks p = true → inRange (chanceOf env) → turn env p imps = Ok (p', imps') →
  ok p' ∧ ((open p' ≡ₚ open p ∧ filed p' = filed p ∧ ¬ finishedEnv env) ∨
           ∃ t, open p ≡ₚ t :: open p' ∧ filed p' = filed p ++ [t] ∧ AllBatchesSubmitted env t = true ∧ AllBatchesImported env t = Ok true).
Proof using HL.
  intros Hok Hmore Hr. destruct (pick_law _ _ Hok Hmore Hr) as (t & p1 & Hpick & Hok1 & Hin & Hopen & Hdone).
  unfold turn. rewrite Hpick. cbn [mbind result_bind].
  assert (∀ imps1 : gset Z, (AllBatchesSubmitted env t = true → ∃ b, AllBatchesImported env t = Ok b ∧ b = false) → ∀ p2 (imps2 : gset Z), Ok (p1, imps1) = Ok (p2, imps2) →
            ok p2 ∧ ((open p2 ≡ₚ open p ∧ filed p2 = filed p ∧ ¬ finishedEnv env) ∨
              ∃ t, open p ≡ₚ t :: open p2 ∧ filed p2 = filed p ++ [t] ∧ AllBatchesSubmitted env t = true ∧ AllBatchesImported env t = Ok true)) as Hsame.
  { intros imps1 Hb p2 imps2 [= <- <-]. split; [done|]. left. split_and!; try done. intros Hfin. destruct (Hfin t) as [H1 H2].
    destruct (Hb H1) as (b & H3 & ->). congruence. }
  intros (imps1 & _ & H)%bind_Ok. destruct (AllBatchesSubmitted env t) eqn:Hsub.
  - apply bind_Ok in H as (b & Hb & H). destruct b; [|eapply Hsame; [|exact H]; eauto].
    destruct (mark_law _ _ Hok1 Hin) as (p2 & Hmark & Hok2 & Hp2 & Hd2). rewrite Hmark in H. injection H as <- <-.
    split; [done|]. right. exists t. rewrite <- Hopen, Hp2, Hd2, Hdone. done.
  - destruct (negb (IsNextBatchAvailable env t)); [eapply Hsame; [|exact H]; done|].
    destruct (ProduceAndSubmitNextBatch env t); [done|]. eapply Hsame; [|exact H]; done.
Qed.
(** C33: Every file is imported: when the main loop ends, the picker has filed every task
    as done, each exactly once and each at a turn where all its batches had been
    submitted and the import state said that all of them were imported. *)
Theorem loop_imports_every_task (envs : list turnEnv) (p p' : P) (imps imps' : gset Z) :
  ok p → Forall (λ env, inRange (chanceOf env)) envs → importTasksViaTaskPicker envs p imps = Ok (true, p', imps') →
  filed p' ≡ₚ filed p ++ open p ∧
  ∀ t, t ∈ open p → ∃ env, env ∈ envs ∧ AllBatchesSubmitted env t = true ∧ AllBatchesImported env t = Ok true.
Proof using HL.
  revert p imps. induction envs as [|env envs IH]; intros p imps Hok Hr; cbn [importTasksViaTaskPicker].
  - destruct (HasMoreTasks p) eqn:Hm; cbn [negb]; [done|]. intros [= <- <-]. apply more_law in Hm as ->; [|done].
    rewrite app_nil_r. split; [done|set_solver].
  - destruct (HasMoreTasks p) eqn:Hm; cbn [negb].
    + intros ([p1 imps1] & Hturn & H)%bind_Ok. inversion Hr as [|? ? Hr1 Hr2]; subst.
      destruct (turn_spec _ _ _ _ _ Hok Hm Hr1 Hturn) as [Hok1 Hcase]. destruct (IH _ _ Hok1 Hr2 H) as [Hd Hall].
      destruct Hcase as [(Ho & Hd1 & _)|(t & Ho & Hd1 & Hs & Hi)].
      * split; [by rewrite Hd, Hd1, Ho|]. intros t. rewrite <- Ho. intros Ht. destruct (Hall t Ht) as (e & ? & ?). exists e. split; [by right|done].
      * split; [rewrite Hd, Hd1, Ho; solve_Permutation|]. intros u. rewrite Ho. intros [-> |Hu]%elem_of_cons.
        { exists env. split; [by left|done]. }
        destruct (Hall u Hu) as (e & ? & ?). exists e. split; [by right|done].
    + intros [= <- <-]. apply more_law in Hm as ->; [|done]. rewrite app_nil_r. split; [done|set_solver].
Qed.
Lemma turn_total env p imps : ok p → HasMoreTasks p = true → inRange (chanceOf env) → quietEnv env → ∃ r, turn env p imps = Ok r.
Proof using HL.
  intros Hok Hmore Hr Hq. destruct (pick_law _ _ Hok Hmore Hr) as (t & p1 & Hpick & Hok1 & Hin & _ & _).
  unfold turn. rewrite Hpick. cbn [mbind result_bind]. destruct (Hq t) as (-> & -> & b & ->).
  destruct (mark_law _ _ Hok1 Hin) as (p2 & Hmark & _).
  case_decide; cbn [mbind result_bind]; (destruct (AllBatchesSubmitted env t); [|destruct (negb _); eauto]);
    (destruct b; [rewrite Hmark; cbn|]; eauto).
Qed.
(** C39: The main loop does not fail and ends: no pick and no marking ever fails, and
    from the time when all batches of all tasks are submitted and imported the loop
    ends in as many turns as there are open tasks, whatever the picker picks. *)
Theorem loop_ends (envs envs' : list turnEnv) (p : P) (imps : gset Z) :
  ok p → Forall (λ env, inRange (chanceOf env) ∧ quietEnv env) envs →
  Forall (λ env, inRange (chanceOf env) ∧ quietEnv env ∧ finishedEnv env) envs' → (length (open p) ≤ length envs')%nat →
  (∃ b p1 imps1, importTasksViaTaskPicker envs p imps = Ok (b, p1, imps1)) ∧
  ∃ p' imps', importTasksViaTaskPicker (envs ++ envs') p imps = Ok (true, p', imps').
Proof using HL.
  intros Hok Henvs Henvs' Hlen. revert p imps Hok Hlen. induction envs as [|env envs IH]; intros p imps Hok Hlen.
  - split; [cbn; destruct (negb (HasMoreTasks p)); eauto|]. cbn [app].
    revert p imps Hok Hlen. induction Henvs' as [|env envs' (Hr & Hq & Hf) _ IH]; intros p imps Hok Hlen; cbn [importTasksViaTaskPicker];
      destruct (HasMoreTasks p) eqn:Hm; cbn [negb]; eauto.
    + exfalso. assert (HasMoreTasks p = false) as Hf; [|congruence]. apply more_law; [done|]. destruct (open p); [done|cbn in Hlen; lia].
    + destruct (turn_total env p imps Hok Hm Hr Hq) as [[p1 imps1] Ht]. rewrite Ht. cbn [mbind result_bind].
      destruct (turn_spec _ _ _ _ _ Hok Hm Hr Ht) as [Hok1 [(_ & _ & Hnf)|(t & Ho & _)]]; [done|]. apply IH; [done|].
      rewrite Ho in Hlen. cbn in Hlen. lia.
  - inversion Henvs as [|? ? [Hr Hq] Hrest]; subst. cbn [app importTasksViaTaskPicker]. destruct (HasMoreTasks p) eqn:Hm; cbn [negb]; [|eauto 10].
    destruct (turn_total env p imps Hok Hm Hr Hq) as [[p1 imps1] Ht]. rewrite Ht. cbn [mbind result_bind].
    destruct (turn_spec _ _ _ _ _ Hok Hm Hr Ht) as [Hok1 Hcase]. apply IH; [done|done|].
    destruct Hcase as [(Ho & _ & _)|(t & Ho & _)]; [by rewrite Ho|rewrite Ho in Hlen; cbn in Hlen; lia].
Qed.
End loop.

(** ** A sharded and a colocated task *)
Definition allImported : turnEnv := mkTurn sampleChance (λ _, None) (λ _, true) (λ _, Ok true) (λ _, false) (λ _, None).
Definition stillProducing : turnEnv := mkTurn sampleChance (λ _, None) (λ _, false) (λ _, Ok false) (λ _, true) (λ _, None).
Definition sampleFinal : ColocatedCappedRandomTaskPicker := mkCapped 1 1 2 [shardedTask; colocatedTask] [] [] [] [].
Lemma loop_imports_every_task_witness :
  importTasksViaTaskPicker [stillProducing; allImported; allImported] sampleStart ∅ = Ok (true, sampleFinal, {[1; 2]}) ∧
  doneTasks sampleFinal ≡ₚ [] ++ capped_open sampleStart.
Proof.
  assert (importTasksViaTaskPicker [stillProducing; allImported; allImported] sampleStart ∅ = Ok (true, sampleFinal, {[1; 2]})) as H
    by (vm_compute; reflexivity).
  split; [exact H|].
  apply (loop_imports_every_task capped_ok capped_open doneTasks [stillProducing; allImported; allImported] sampleStart sampleFinal ∅ {[1; 2]});
    [exact sampleStart_ok|repeat constructor; exact sampleChance_ok|exact H].
Defined.
Lemma loop_ends_witness :
  ∃ p imps, importTasksViaTaskPicker ([stillProducing] ++ [allImported; allImported]) sampleStart ∅ = Ok (true, p, imps).
Proof.
  refine (proj2 (loop_ends capped_ok capped_open doneTasks [stillProducing] [allImported; allImported] sampleStart ∅ sampleStart_ok _ _ _)).
  - repeat constructor; [exact sampleChance_ok|]. by exists false.
  - repeat constructor; try exact sampleChance_ok; by exists true.
  - vm_compute. lia.
Defined.
End ImportLoop.
