(* ===== verification/MetaDB.v ===== *)
(** * The metadata database (src/yb-voyager/src/metadb: metadataDB.go, migrationStatus.go)

    The SQLite tables that the commands of a migration share: the queue segments with
    their progress, the counters of exported events, and the migration status record,
    which is stored as a JSON object.  A query is a function of the table's rows; rows
    stand in the order of the primary key. *)
From stdpp Require Import functions.
From S2P Require Import Prelude Event.
Import Event.

Module MetaDB.
(** ** The migration status record *)
(** Its booleans. *)
Inductive MSRFlag : Type :=
  | ArchivingEnabled | SegmentCleanupRunning | FallForwardEnabled | FallbackEnabled | UseYBgRPCConnector
  | CutoverToTargetRequested | CutoverToSourceRequested | CutoverToSourceReplicaRequested
  | CutoverDetectedByTargetImporter | CutoverDetectedBySourceImporter | CutoverDetectedBySourceReplicaImporter
  | CutoverDetectedBySourceExporter | CutoverDetectedByTargetFFExporter | CutoverDetectedByTargetFBExporter
  | CutoverProcessedBySourceExporter | CutoverToSourceProcessedByTargetExporter
  | CutoverToSourceReplicaProcessedByTargetExporter | CutoverProcessedByTargetImporter
  | CutoverToSourceReplicaProcessedBySRImporter | CutoverToSourceProcessedBySourceImporter
  | ExportFromTargetFallForwardStarted | ExportFromTargetFallBackStarted | ImportDataToSourceStarted
  | ExportDataSourceDebeziumStarted | RestartDataMigrationSourceTargetNextIteration
  | NextIterationInitialized | ExportDataFromSourceStarted | ImportDataToTargetStarted.
#[global] Instance MSRFlag_eq_dec : EqDecision MSRFlag.
Proof. solve_decision. Defined.
(** Its timestamps; [None] is Go's zero time. *)
Inductive MSRTime : Type :=
  | ToTargetRequestedAt | ToSourceRequestedAt | ToSourceReplicaRequestedAt
  | DetectedByTargetImporterAt | DetectedBySourceImporterAt | DetectedBySourceReplicaImporterAt
  | ProcessedBySourceExporterAt | ProcessedByTargetImporterAt | ToSourceReplicaProcessedByTargetExporterAt
  | ToSourceProcessedByTargetExporterAt | ToSourceReplicaProcessedBySRImporterAt | ToSourceProcessedBySourceImporterAt
  | ExportFromTargetFallForwardStartedAt | ExportFromTargetFallBackStartedAt.
#[global] Instance MSRTime_eq_dec : EqDecision MSRTime.
Proof. solve_decision. Defined.
(** Of the other fields, those that the modelled code reads or copies; the databases' types are in their configurations. *)
Record MigrationStatusRecord : Type := mkMSR {
  flag : MSRFlag → bool; CutoverTimings : MSRTime → option Z;
  ExportTypeFromSource : string; SourceDBType : string; TargetDBType : string;
  TableListExportedFromSource : list string; ParentExportDir : string;
  IterationNo : Z; LatestIterationNumber : Z }.
Definition newMSR : MigrationStatusRecord := mkMSR (λ _, false) (λ _, None) "" "" "" [] "" 0 0.
Definition set_flag (f : MSRFlag) (b : bool) (m : MigrationStatusRecord) : MigrationStatusRecord :=
  mkMSR (<[f:=b]> (flag m)) (CutoverTimings m) (ExportTypeFromSource m) (SourceDBType m) (TargetDBType m)
    (TableListExportedFromSource m) (ParentExportDir m) (IterationNo m) (LatestIterationNumber m).
Definition set_time (t : MSRTime) (now : Z) (m : MigrationStatusRecord) : MigrationStatusRecord :=
  mkMSR (flag m) (<[t:=Some now]> (CutoverTimings m)) (ExportTypeFromSource m) (SourceDBType m) (TargetDBType m)
    (TableListExportedFromSource m) (ParentExportDir m) (IterationNo m) (LatestIterationNumber m).
Definition set_LatestIterationNumber (n : Z) (m : MigrationStatusRecord) : MigrationStatusRecord :=
  mkMSR (flag m) (CutoverTimings m) (ExportTypeFromSource m) (SourceDBType m) (TargetDBType m)
    (TableListExportedFromSource m) (ParentExportDir m) (IterationNo m) n.
Definition IsParentMigration (m : MigrationStatusRecord) : bool := bool_decide (ParentExportDir m = "").
Definition IsIteration (m : MigrationStatusRecord) : bool := negb (bool_decide (ParentExportDir m = "")).
Lemma flag_set_flag f b m g : flag (set_flag f b m) g = if decide (g = f) then b else flag m g.
Proof. cbn. destruct (decide (g = f)) as [->|H]; [by rewrite fn_lookup_insert|by rewrite fn_lookup_insert_ne]. Qed.
Lemma flag_set_time t now m g : flag (set_time t now m) g = flag m g.
Proof. done. Qed.

(** [updateJsonObject] in the transaction of [runInTransaction]: the record is made if
    there is none; an error rolls back, so that nothing is changed. *)
Definition updateJsonObject {T} (new : T) (updateFn : T → result T) (stored : option T) : result (option T) :=
  obj ← updateFn (default new stored); Ok (Some obj).
Definition UpdateMigrationStatusRecord (updateFn : MigrationStatusRecord → MigrationStatusRecord)
    (stored : option MigrationStatusRecord) : option MigrationStatusRecord :=
  match updateJsonObject newMSR (λ r, Ok (updateFn r)) stored with Ok o => o | _ => stored end.
Lemma UpdateMSR_spec f stored : UpdateMigrationStatusRecord f stored = Some (f (default newMSR stored)).
Proof. done. Qed.

(** ** The queue segments *)
(** A row of queue_segment_meta; its 0/1 columns are booleans. *)
Record Row : Type := mkRow {
  segment_no : Z; file_path : string; size_committed : Z; total_events : Z; exporter_role : string;
  imported_by_target_db_importer : bool; imported_by_source_replica_db_importer : bool;
  imported_by_source_db_importer : bool; archived : bool; deleted : bool; archive_location : option string }.
(** Segment, as the queries return it. *)
Record Segment : Type := mkSegment { Num : Z; FilePath : string }.
Definition newRow (n : Z) (path role : string) : Row := mkRow n path 0 0 role false false false false false None.
(** The column imported_by_<role>; [None]: there is no such column. *)
Definition imported_by (role : string) (r : Row) : option bool :=
  if decide (role = TARGET_DB_IMPORTER_ROLE) then Some (imported_by_target_db_importer r)
  else if decide (role = SOURCE_REPLICA_DB_IMPORTER_ROLE) then Some (imported_by_source_replica_db_importer r)
  else if decide (role = SOURCE_DB_IMPORTER_ROLE) then Some (imported_by_source_db_importer r)
  else None.
Definition set_imported (role : string) (b : bool) (r : Row) : Row :=
  mkRow (segment_no r) (file_path r) (size_committed r) (total_events r) (exporter_role r)
    (if decide (role = TARGET_DB_IMPORTER_ROLE) then b else imported_by_target_db_importer r)
    (if decide (role = SOURCE_REPLICA_DB_IMPORTER_ROLE) then b else imported_by_source_replica_db_importer r)
    (if decide (role = SOURCE_DB_IMPORTER_ROLE) then b else imported_by_source_db_importer r)
    (archived r) (deleted r) (archive_location r).
Definition set_archived (a d : bool) (loc : option string) (r : Row) : Row :=
  mkRow (segment_no r) (file_path r) (size_committed r) (total_events r) (exporter_role r)
    (imported_by_target_db_importer r) (imported_by_source_replica_db_importer r) (imported_by_source_db_importer r) a d loc.
Definition isImporterRole (role : string) : bool :=
  bool_decide (role ∈ [TARGET_DB_IMPORTER_ROLE; SOURCE_REPLICA_DB_IMPORTER_ROLE; SOURCE_DB_IMPORTER_ROLE]).

(** Two roles are not the same. *)
Ltac roles := unfold SOURCE_DB_EXPORTER_ROLE, TARGET_DB_EXPORTER_FF_ROLE, TARGET_DB_EXPORTER_FB_ROLE, TARGET_DB_IMPORTER_ROLE,
  SOURCE_REPLICA_DB_IMPORTER_ROLE, SOURCE_DB_IMPORTER_ROLE in *; congruence.
Lemma importer_role_cases role : isImporterRole role = true →
  role = TARGET_DB_IMPORTER_ROLE ∨ role = SOURCE_REPLICA_DB_IMPORTER_ROLE ∨ role = SOURCE_DB_IMPORTER_ROLE.
Proof. unfold isImporterRole. rewrite bool_decide_eq_true, !elem_of_cons. intros [?|[?|[?|[]%not_elem_of_nil] ] ]; auto. Qed.

(** UPDATE ... WHERE segment_no = n, with the number of rows affected. *)
Definition updateWhere (n : Z) (f : Row → Row) (t : list Row) : list Row :=
  map (λ r, if segment_no r =? n then f r else r) t.
Definition rowsAffected (n : Z) (t : list Row) : Z := Z.of_nat (length (filter (λ r, segment_no r = n) t)).
Definition markEventQueueSegmentAsProcessed (segmentNum : Z) (importerRole : string) (t : list Row) : result (list Row) :=
  if negb (isImporterRole importerRole) then Err "no such column"
  else if negb (rowsAffected segmentNum t =? 1) then Err "expected 1 row to be updated"
  else Ok (updateWhere segmentNum (set_imported importerRole true) t).
(** Both in one transaction. *)
Definition MarkEventQueueSegmentAsProcessedAndUpdateMSRInTxn (segmentNum : Z) (importerRole : string)
    (updateFn : MigrationStatusRecord → result MigrationStatusRecord) (stored : option MigrationStatusRecord) (t : list Row)
    : result (option MigrationStatusRecord * list Row) :=
  stored' ← updateJsonObject newMSR updateFn stored;
  t' ← markEventQueueSegmentAsProcessed segmentNum importerRole t;
  Ok (stored', t').
Definition GetLastValidOffsetInSegmentFile (segmentNum : Z) (t : list Row) : result Z :=
  match filter (λ r, segment_no r = segmentNum) t with
  | r :: _ => Ok (size_committed r)
  | [] => Err "sql: no rows in result set"
  end.
Definition ErrNoQueueSegmentsFound : string := "no queue segments found".
Definition GetMinSegmentExportedByAndNotImportedBy (importerRole exporterRole : string) (t : list Row) : result Z :=
  if negb (isImporterRole importerRole) then Err "no such column"
  else match filter (λ r, imported_by importerRole r = Some false ∧ (exporterRole = "" ∨ exporter_role r = exporterRole)) t with
       | r :: _ => Ok (segment_no r)
       | [] => Err ErrNoQueueSegmentsFound
       end.
Definition AnySegmentsDeletedOrArchived (t : list Row) : bool := existsb (λ r, archived r || deleted r) t.

(** SQL's LIKE: % any string, _ any character, ASCII letters without case. *)
Fixpoint sql_like (p s : string) : bool :=
  match p with
  | EmptyString => match s with EmptyString => true | _ => false end
  | String c p =>
      if decide (c = "%"%char) then
        (fix any (s : string) : bool := sql_like p s || match s with EmptyString => false | String _ s => any s end) s
      else match s with
           | EmptyString => false
           | String d s => (bool_decide (c = "_"%char) || bool_decide (ascii_lower c = ascii_lower d)) && sql_like p s
           end
  end.
Definition importedSum (r : Row) : Z :=
  Z.b2z (imported_by_target_db_importer r) + Z.b2z (imported_by_source_replica_db_importer r) + Z.b2z (imported_by_source_db_importer r).
Definition importedBackSum (r : Row) : Z :=
  Z.b2z (imported_by_source_replica_db_importer r) + Z.b2z (imported_by_source_db_importer r).
Definition bySource (r : Row) : bool := bool_decide (exporter_role r = SOURCE_DB_EXPORTER_ROLE).
Definition byTarget (r : Row) : bool := sql_like "target_db_exporter%" (exporter_role r).
Definition querySegmentsInAscOrder (p : Row → bool) (t : list Row) : list Segment :=
  map (λ r, mkSegment (segment_no r) (file_path r)) (filter (λ r, p r = true) t).
Definition processedPredicate (importCount : Z) (r : Row) : bool :=
  ((bySource r && (importedSum r =? importCount)) || (byTarget r && (importedBackSum r =? 1)))
  && negb (archived r) && negb (deleted r).
Definition pendingPredicate (importCount : Z) (r : Row) : bool :=
  (bySource r && (importedSum r <? importCount)) || (byTarget r && (importedBackSum r <? 1)).
Definition importCountOf (msr : MigrationStatusRecord) : Z := if flag msr FallForwardEnabled then 2 else 1.
Definition GetProcessedAndPendingSegments (stored : option MigrationStatusRecord) (t : list Row) : result (list Segment * list Segment) :=
  match stored with
  | None => Err "migration status record not found"
  | Some msr =>
      let importCount := importCountOf msr in
      Ok (querySegmentsInAscOrder (processedPredicate importCount) t, querySegmentsInAscOrder (pendingPredicate importCount) t)
  end.
Definition GetPendingSegments (stored : option MigrationStatusRecord) (t : list Row) : result (list Segment) :=
  match stored with
  | None => Err "migration status record not found"
  | Some msr => Ok (querySegmentsInAscOrder (pendingPredicate (importCountOf msr)) t)
  end.
Definition GetSegmentsToBeArchived (importCount : Z) (t : list Row) : list Segment :=
  querySegmentsInAscOrder (λ r, ((bySource r && (importedSum r =? importCount)) || (byTarget r && (importedSum r =? 1))) && negb (archived r)) t.
Definition GetSegmentsToBeDeleted (t : list Row) : list Segment :=
  querySegmentsInAscOrder (λ r, archived r && negb (deleted r)) t.
Definition updateSegment (segmentNum : Z) (setter : Row → Row) (t : list Row) : result (list Row) :=
  if rowsAffected segmentNum t =? 1 then Ok (updateWhere segmentNum setter t) else Err "expected 1 rows to be updated".
Definition MarkSegmentDeleted (segmentNum : Z) : list Row → result (list Row) :=
  updateSegment segmentNum (λ r, set_archived (archived r) true (archive_location r) r).
Definition MarkSegmentDeletedAndArchived (segmentNum : Z) : list Row → result (list Row) :=
  updateSegment segmentNum (λ r, set_archived true true (archive_location r) r).
Definition UpdateSegmentArchiveLocation (segmentNum : Z) (archiveLocation : string) : list Row → result (list Row) :=
  updateSegment segmentNum (λ r, set_archived true (deleted r) (Some archiveLocation) r).
Definition ArchiveAndDeleteSegment (segmentNum : Z) (archiveLocation : string) : list Row → result (list Row) :=
  updateSegment segmentNum (λ r, set_archived true true (Some archiveLocation) r).
Record ArchiveChangesStats : Type := mkStats { TotalSegments : Z; ArchivedAndDeletedSegments : Z; PendingSegments : Z }.
Definition countRows (p : Row → bool) (t : list Row) : Z := Z.of_nat (length (filter (λ r, p r = true) t)).
Definition GetArchiveChangesStats (t : list Row) : ArchiveChangesStats :=
  mkStats (Z.of_nat (length t)) (countRows (λ r, archived r || deleted r) t) (countRows (λ r, negb (archived r) && negb (deleted r)) t).
Definition ResetQueueSegmentMeta (importerRole : string) (t : list Row) : result (list Row) :=
  if negb (isImporterRole importerRole) then Err "no such column" else Ok (map (set_imported importerRole false) t).

(** *** The table under updates *)
Definition wellNumbered (t : list Row) : Prop := StronglySorted Z.lt (map segment_no t).
Lemma set_imported_no role b r : segment_no (set_imported role b r) = segment_no r.
Proof. done. Qed.
Lemma set_archived_no a d loc r : segment_no (set_archived a d loc r) = segment_no r.
Proof. done. Qed.
Lemma set_imported_path role b r : file_path (set_imported role b r) = file_path r.
Proof. done. Qed.
Lemma updateWhere_nos n f t : (∀ r, segment_no (f r) = segment_no r) → map segment_no (updateWhere n f t) = map segment_no t.
Proof. intros Hf. unfold updateWhere. rewrite map_map. apply map_ext. intros r. by destruct (segment_no r =? n). Qed.
Lemma updateWhere_wellNumbered n f t : (∀ r, segment_no (f r) = segment_no r) → wellNumbered t → wellNumbered (updateWhere n f t).
Proof. intros Hf. unfold wellNumbered. by rewrite updateWhere_nos. Qed.
Lemma elem_of_updateWhere n f t r : r ∈ updateWhere n f t ↔ ∃ r0, r0 ∈ t ∧ r = if segment_no r0 =? n then f r0 else r0.
Proof. unfold updateWhere. rewrite list_elem_of_fmap. naive_solver. Qed.
Lemma wellNumbered_inj t r r' : wellNumbered t → r ∈ t → r' ∈ t → segment_no r = segment_no r' → r = r'.
Proof.
  intros Ht%sorted_NoDup Hr Hr' He. apply list_elem_of_lookup in Hr as [i Hi], Hr' as [j Hj].
  assert (i = j) as ->; [|congruence]. apply (NoDup_lookup (map segment_no t) i j (segment_no r)); [done|..]; rewrite list_lookup_fmap.
  - by rewrite Hi.
  - rewrite Hj. cbn. by rewrite He.
Qed.
Lemma filter_no t r : wellNumbered t → r ∈ t → filter (λ r', segment_no r' = segment_no r) t = [r].
Proof.
  induction t as [|r0 t IH]; [set_solver|]. intros Ht Hr. rewrite filter_cons. pose proof Ht as Ht0. unfold wellNumbered in Ht. cbn in Ht.
  inversion Ht as [|? ? Ht1 Ht2]; subst. rewrite Forall_forall in Ht2.
  assert (∀ r', r' ∈ t → segment_no r0 < segment_no r') as Hlt by (intros r' ?; apply Ht2; by apply list_elem_of_fmap_2).
  apply elem_of_cons in Hr as [-> |Hr].
  - rewrite decide_True by done. f_equal. clear IH Ht Ht0 Ht1 Ht2. induction t as [|r1 t IH]; [done|]. rewrite filter_cons.
    pose proof (Hlt r1 ltac:(left)). rewrite decide_False by lia. apply IH. intros r' ?. apply Hlt. by right.
  - rewrite decide_False by (specialize (Hlt r Hr); lia). by apply IH.
Qed.
Lemma rowsAffected_elem t r : wellNumbered t → r ∈ t → rowsAffected (segment_no r) t = 1.
Proof. intros Ht Hr. unfold rowsAffected. by rewrite (filter_no t r). Qed.
Lemma rowsAffected_inv n t : rowsAffected n t = 1 → ∃ r, r ∈ t ∧ segment_no r = n.
Proof.
  unfold rowsAffected. intros H. destruct (filter (λ r, segment_no r = n) t) as [|r l] eqn:Hf; [done|].
  exists r. assert (r ∈ filter (λ r, segment_no r = n) t) as Hin by (rewrite Hf; left). apply list_elem_of_filter in Hin as [? ?]. by split.
Qed.
Lemma updateSegment_Ok n f t t' : updateSegment n f t = Ok t' → t' = updateWhere n f t ∧ ∃ r, r ∈ t ∧ segment_no r = n.
Proof.
  unfold updateSegment. destruct (rowsAffected n t =? 1) eqn:H; [|done]. intros [= <-]. apply Z.eqb_eq, rowsAffected_inv in H. done.
Qed.
Lemma mark_Ok n role t t' : markEventQueueSegmentAsProcessed n role t = Ok t' →
  isImporterRole role = true ∧ t' = updateWhere n (set_imported role true) t ∧ ∃ r, r ∈ t ∧ segment_no r = n.
Proof.
  unfold markEventQueueSegmentAsProcessed. destruct (isImporterRole role); [|done]. cbn [negb].
  destruct (rowsAffected n t =? 1) eqn:H; [|done]. intros [= <-]. apply Z.eqb_eq, rowsAffected_inv in H. done.
Qed.
Lemma imported_by_set role role' b r : isImporterRole role = true →
  imported_by role' (set_imported role b r) = if decide (role' = role) then Some b else imported_by role' r.
Proof.
  unfold isImporterRole. intros [-> |[-> |[-> |[]%not_elem_of_nil]%elem_of_cons]%elem_of_cons]%bool_decide_eq_true%elem_of_cons;
    unfold imported_by, set_imported; cbn; repeat case_decide; subst; done.
Qed.
Lemma imported_by_is_Some role r : isImporterRole role = true → is_Some (imported_by role r).
Proof.
  unfold isImporterRole. intros [-> |[-> |[-> |[]%not_elem_of_nil]%elem_of_cons]%elem_of_cons]%bool_decide_eq_true%elem_of_cons;
    vm_compute; eauto.
Qed.
Lemma elem_of_query p t seg : seg ∈ querySegmentsInAscOrder p t ↔ ∃ r, r ∈ t ∧ p r = true ∧ seg = mkSegment (segment_no r) (file_path r).
Proof. unfold querySegmentsInAscOrder. rewrite list_elem_of_fmap. setoid_rewrite list_elem_of_filter. naive_solver. Qed.
(** The resume point is the least segment that the importer has not imported, among those of the exporter asked for. *)
Lemma GetMin_spec role exporter t n : wellNumbered t → GetMinSegmentExportedByAndNotImportedBy role exporter t = Ok n →
  (∃ r, r ∈ t ∧ segment_no r = n ∧ imported_by role r = Some false ∧ (exporter = "" ∨ exporter_role r = exporter)) ∧
  ∀ r, r ∈ t → imported_by role r = Some false → (exporter = "" ∨ exporter_role r = exporter) → n ≤ segment_no r.
Proof.
  unfold GetMinSegmentExportedByAndNotImportedBy. destruct (negb (isImporterRole role)); [done|].
  induction t as [|r0 t IH]; [done|]. intros Ht. rewrite filter_cons. unfold wellNumbered in Ht. cbn in Ht.
  inversion Ht as [|? ? Ht1 Ht2]; subst.
  destruct (decide (imported_by role r0 = Some false ∧ _)) as [Hd|Hd].
  - intros [= <-]. split; [exists r0; split; [left|tauto]|]. intros r [-> |Hr]%elem_of_cons _ _; [lia|].
    rewrite Forall_forall in Ht2. assert (segment_no r0 < segment_no r); [|lia]. apply Ht2. by apply list_elem_of_fmap_2.
  - intros H. destruct (IH Ht1 H) as [(r & Hr & Hrest) Hmin]. split; [exists r; split; [by right|done]|].
    intros r' [-> |Hr']%elem_of_cons Hi He; [by destruct Hd|]. by apply Hmin.
Qed.
Lemma GetMin_none role exporter t : isImporterRole role = true → GetMinSegmentExportedByAndNotImportedBy role exporter t = Err ErrNoQueueSegmentsFound →
  ∀ r, r ∈ t → (exporter = "" ∨ exporter_role r = exporter) → imported_by role r = Some true.
Proof.
  intros Hrole. unfold GetMinSegmentExportedByAndNotImportedBy. rewrite Hrole. cbn [negb]. intros H r Hr He.
  destruct (filter _ t) as [|r1 l] eqn:Hf; [|done]. destruct (imported_by_is_Some role r Hrole) as [[] Hi]; [done|].
  assert (r ∈ filter (λ r, imported_by role r = Some false ∧ (exporter = "" ∨ exporter_role r = exporter)) t) as Hin by (by apply list_elem_of_filter).
  rewrite Hf in Hin. by apply not_elem_of_nil in Hin.
Qed.

(** ** The counters of exported events *)
Record ExportedEventsStatsRow : Type := mkEventStats {
  run_id : string; es_exporter_role : string; timestamp : Z; num_total : Z; num_inserts : Z; num_updates : Z; num_deletes : Z }.
Record TableStatsRow : Type := mkTableStats {
  ts_exporter_role : string; schema_name : string; table_name : string; ts_counter : EventCounter }.
Definition sumZ {A} (f : A → Z) (l : list A) : Z := foldr (λ a n, f a + n) 0 l.
(** A sum over no rows is NULL, which is read as 0. *)
Definition sumWhere (p : ExportedEventsStatsRow → bool) (t : list ExportedEventsStatsRow) : Z := sumZ num_total (filter (λ r, p r = true) t).
Definition GetTotalExportedEvents (runId : string) (t : list ExportedEventsStatsRow) : Z * Z :=
  (sumWhere (λ _, true) t, sumWhere (λ r, bool_decide (run_id r = runId)) t).
Definition GetTotalExportedEventsByExporterRole (role runId : string) (t : list ExportedEventsStatsRow) : Z * Z :=
  (sumWhere (λ r, bool_decide (es_exporter_role r = role)) t,
   sumWhere (λ r, bool_decide (es_exporter_role r = role) && bool_decide (run_id r = runId)) t).
(** [now] in seconds; [None]: division by zero. *)
Definition GetExportedEventsRateInLastNMinutes (now : Z) (runId : string) (n : Z) (t : list ExportedEventsStatsRow) : result Z :=
  let totalCount := sumWhere (λ r, bool_decide (run_id r = runId) && (now - 60 * n <=? timestamp r)) t in
  if n * 60 =? 0 then Panic "integer divide by zero" else Ok (Z.quot totalCount (n * 60)).
Definition statsOfTable (p : TableStatsRow → bool) (t : list TableStatsRow) : EventCounter :=
  foldr (λ r c, Merge (ts_counter r) c) zeroCounter (filter (λ r, p r = true) t).
Definition GetExportedEventsStatsForTable (schemaName tableName : string) : list TableStatsRow → EventCounter :=
  statsOfTable (λ r, EqualFold (schema_name r) schemaName && EqualFold (table_name r) tableName).
Definition GetExportedEventsStatsForTableAndExporterRole (role schemaName tableName : string) : list TableStatsRow → EventCounter :=
  statsOfTable (λ r, EqualFold (schema_name r) schemaName && EqualFold (table_name r) tableName && bool_decide (ts_exporter_role r = role)).
End MetaDB.
