(* ===== verification/EventQueue.v ===== *)
(** * The event queue (src/yb-voyager/cmd/eventQueue.go, src/utils/tail_reader.go)

    Segments are files of one event per line that end with a marker line; the exporter
    appends to the last one and commits its size in the metadata database.  The queue
    gives an importer one segment after the other, a segment its events, up to the
    committed size only.  JSON decoding is an argument. *)
From S2P Require Import Prelude Event MetaDB.
Import Event MetaDB.

Module EventQueue.
Record EventQueue : Type := mkQueue { QueueDirPath : string; SegmentNumToStream : Z; EndOfQueue : bool }.
Definition NewEventQueue (exportDir : string) : EventQueue := mkQueue (exportDir +:+ "/data/queue") (-1) false.
Definition segmentFileName (n : Z) : string := "segment." +:+ itoa n +:+ ".ndjson".
Definition segmentFilePath (queueDir : string) (n : Z) : string := queueDir +:+ "/" +:+ segmentFileName n.
(** [None]: it waits for segments. *)
Definition resolveSegmentToResumeFrom (importerRole : string) (t : list Row) : option (result Z) :=
  let segmentsExporterRole := if decide (importerRole = SOURCE_DB_IMPORTER_ROLE) then TARGET_DB_EXPORTER_FB_ROLE else "" in
  match GetMinSegmentExportedByAndNotImportedBy importerRole segmentsExporterRole t with
  | Ok n => Some (Ok n)
  | Err e => if decide (e = ErrNoQueueSegmentsFound) then None else Some (Err e)
  | Panic e => Some (Panic e)
  end.
(** A segment being read: [unread] is what has been committed and not read. *)
Record EventQueueSegment : Type := mkQueueSegment { seg_FilePath : string; SegmentNum : Z; processed : bool; unread : string }.
Definition NewEventQueueSegment (filePath : string) (segmentNum : Z) : EventQueueSegment := mkQueueSegment filePath segmentNum false "".
(** The queue is changed even when there is no segment yet. *)
Definition GetNextSegment (importerRole : string) (t : list Row) (files : gmap string string) (eq : EventQueue)
    : option (EventQueue * result EventQueueSegment) :=
  resolved ← (if SegmentNumToStream eq =? -1 then resolveSegmentToResumeFrom importerRole t else Some (Ok (SegmentNumToStream eq)));
  match resolved with
  | Ok n =>
      let path := segmentFilePath (QueueDirPath eq) n in
      Some (match files !! path with
            | None => (mkQueue (QueueDirPath eq) n (EndOfQueue eq), Err "failed to get next segment file path: file does not exist")
            | Some _ => (mkQueue (QueueDirPath eq) (n + 1) (EndOfQueue eq), Ok (NewEventQueueSegment path n))
            end)
  | Err e => Some (mkQueue (QueueDirPath eq) (-1) (EndOfQueue eq), Err e)
  | Panic e => Some (mkQueue (QueueDirPath eq) (-1) (EndOfQueue eq), Panic e)
  end.

(** ** Reading a segment *)
Definition EOFMarker : string := "\.".
Definition NLc : ascii := ascii_of_nat 10.
Definition CRc : ascii := ascii_of_nat 13.
(** [bufio.Reader.ReadLine] over the tail reader; [None]: it waits for the rest of the line. *)
Fixpoint cutLine (s : string) : option (string * string) :=
  match s with
  | EmptyString => None
  | String c s => if decide (c = NLc) then Some ("", s)
                  else '(l, rest) ← cutLine s; Some (String c l, rest)
  end.
Fixpoint dropCR (l : string) : string :=
  match l with
  | EmptyString => ""
  | String c EmptyString => if decide (c = CRc) then "" else l
  | String c l => String c (dropCR l)
  end.
Section read.
Context {Event : Type} (Unmarshal : string → result Event).
(** [Ok None]: the marker. *)
Definition NextEvent (eqs : EventQueueSegment) : option (result (option Event) * EventQueueSegment) :=
  '(l, rest) ← cutLine (unread eqs);
  let line := dropCR l in
  let eqs' := mkQueueSegment (seg_FilePath eqs) (SegmentNum eqs) (processed eqs) rest in
  Some (if decide (line = EOFMarker)
        then (Ok None, mkQueueSegment (seg_FilePath eqs) (SegmentNum eqs) true rest)
        else (event ← Unmarshal line; Ok (Some event), eqs')).
(** The exporter commits another chunk of the file. *)
Definition commit (chunk : string) (eqs : EventQueueSegment) : EventQueueSegment :=
  mkQueueSegment (seg_FilePath eqs) (SegmentNum eqs) (processed eqs) (unread eqs +:+ chunk).
(** The loop of the importer over a segment, as far as it gets with what is committed. *)
Fixpoint readEvents (fuel : nat) (acc : list Event) (eqs : EventQueueSegment) : result (list Event * EventQueueSegment) :=
  match fuel with
  | O => Err "out of fuel"
  | S fuel =>
      if processed eqs then Ok (acc, eqs)
      else match NextEvent eqs with
           | None => Ok (acc, eqs)
           | Some (Ok None, eqs') => Ok (acc, eqs')
           | Some (Ok (Some event), eqs') => readEvents fuel (acc ++ [event]) eqs'
           | Some (Err e, _) => Err e
           | Some (Panic e, _) => Panic e
           end
  end.
(** Chunks committed one after the other, the reader running as far as it gets after each. *)
Definition readChunk (s : list Event * EventQueueSegment) (chunk : string) : result (list Event * EventQueueSegment) :=
  let eqs := commit chunk s.2 in readEvents (S (String.length (unread eqs))) s.1 eqs.
Definition readSegment (path : string) (n : Z) (chunks : list string) : result (list Event * EventQueueSegment) :=
  foldM readChunk ([], NewEventQueueSegment path n) chunks.

(** ** Every event is read, once and in order *)
Context (Marshal : Event → string).
(** What the exporter writes of an event: JSON on one line. *)
Definition goodJSON : Prop := ∀ e, Unmarshal (Marshal e) = Ok e ∧ str_has NLc (Marshal e) = false ∧ dropCR (Marshal e) = Marshal e ∧ Marshal e ≠ EOFMarker.
Definition NLs : string := String NLc "".
Definition writeEvents (events : list Event) : string := Join "" (map (λ e, Marshal e +:+ NLs) events).
Definition segmentContent (events : list Event) : string := writeEvents events +:+ EOFMarker +:+ NLs.
Lemma cutLine_app l rest : str_has NLc l = false → cutLine (l +:+ String NLc rest) = Some (l, rest).
Proof.
  induction l as [|c l IH]; cbn; [done|]. rewrite str_has_cons, orb_false_iff. intros [Hc%bool_decide_eq_false Hl].
  rewrite decide_False by done. by rewrite IH.
Qed.
Lemma cutLine_none l : str_has NLc l = false → cutLine l = None.
Proof.
  induction l as [|c l IH]; cbn; [done|]. rewrite str_has_cons, orb_false_iff. intros [Hc%bool_decide_eq_false Hl].
  rewrite decide_False by done. by rewrite IH.
Qed.
Lemma cutLine_len s l rest : cutLine s = Some (l, rest) → (String.length rest < String.length s)%nat.
Proof.
  revert l. induction s as [|c s IH]; cbn; [done|]. intros l. case_decide; [intros [= <- <-]; lia|].
  destruct (cutLine s) as [[l' r']|]; cbn; [|done]. intros [= <- <-]. specialize (IH l' eq_refl). lia.
Qed.
Lemma cutLine_Some s l rest : cutLine s = Some (l, rest) → s = l +:+ String NLc rest ∧ str_has NLc l = false.
Proof.
  revert l. induction s as [|c s IH]; cbn; [done|]. intros l. case_decide as Hc; [intros [= <- <-]; by subst|].
  destruct (cutLine s) as [[l' r']|]; cbn; [|done]. intros [= <- <-]. destruct (IH l' eq_refl) as [-> Hl].
  split; [done|]. rewrite str_has_cons, Hl, orb_false_r. by apply bool_decide_eq_false.
Qed.
Lemma segmentContent_nil : segmentContent [] = EOFMarker +:+ NLs.
Proof. done. Qed.
Lemma segmentContent_cons e evs : segmentContent (e :: evs) = Marshal e +:+ String NLc (segmentContent evs).
Proof. unfold segmentContent, writeEvents. cbn [map]. rewrite Join_cons, !str_app_assoc. done. Qed.
Lemma segmentContent_line : goodJSON → ∀ evs, cutLine (segmentContent evs) ≠ None.
Proof.
  intros HJ [|e evs]; [done|]. rewrite segmentContent_cons. destruct (HJ e) as (_ & Hn & _). by rewrite cutLine_app.
Qed.
(** The reader stands before the events left, [r] of whose text is not committed yet, or
    has seen the marker. *)
Definition standsAt (r : string) (left : list Event) (eqs : EventQueueSegment) : Prop :=
  if processed eqs then left = [] ∧ unread eqs = "" ∧ r = "" else unread eqs +:+ r = segmentContent left.
Lemma readEvents_spec r : goodJSON → ∀ fuel acc left eqs, standsAt r left eqs → (String.length (unread eqs) < fuel)%nat →
  ∃ evs left' eqs', readEvents fuel acc eqs = Ok (acc ++ evs, eqs') ∧ left = evs ++ left' ∧ standsAt r left' eqs' ∧
    seg_FilePath eqs' = seg_FilePath eqs ∧ SegmentNum eqs' = SegmentNum eqs ∧ (processed eqs' = false → cutLine (unread eqs') = None).
Proof.
  intros HJ fuel. induction fuel as [|fuel IH]; intros acc left eqs Hat Hlen; [lia|]. cbn [readEvents].
  destruct (processed eqs) eqn:Hp.
  { exists [], left, eqs. rewrite app_nil_r. by split_and!; try congruence. }
  unfold standsAt in Hat. rewrite Hp in Hat. unfold NextEvent. destruct (cutLine (unread eqs)) as [[l rest]|] eqn:Hcut; cbn [mbind option_bind].
  2: { exists [], left, eqs. rewrite app_nil_r. split_and!; try done. unfold standsAt. by rewrite Hp. }
  pose proof (cutLine_len _ _ _ Hcut) as Hless. apply cutLine_Some in Hcut as [Hun Hl]. rewrite Hun, str_app_assoc in Hat. cbn [String.append] in Hat.
  destruct left as [|e left].
  - rewrite segmentContent_nil in Hat. apply str_cut in Hat as [-> Hr]; [|done|done]. rewrite decide_True by done.
    assert (rest = "" ∧ r = "") as [-> ->] by (destruct rest, r; try done).
    eexists [], [], _. rewrite app_nil_r. by split_and!.
  - rewrite segmentContent_cons in Hat. destruct (HJ e) as (He1 & He2 & He3 & He4). apply str_cut in Hat as [-> Hr]; [|done|done].
    rewrite He3, decide_False by done. rewrite He1. cbn [mbind result_bind].
    destruct (IH (acc ++ [e]) left (mkQueueSegment (seg_FilePath eqs) (SegmentNum eqs) (processed eqs) rest)) as (evs & left' & eqs' & -> & -> & H1 & H2 & H3 & H4).
    + unfold standsAt. cbn. by rewrite Hp.
    + cbn. lia.
    + exists (e :: evs), left', eqs'. rewrite <- app_assoc. by split_and!.
Qed.
Definition waits (eqs : EventQueueSegment) : Prop := processed eqs = false → cutLine (unread eqs) = None.
Lemma readChunks_spec chunks : goodJSON → ∀ r acc left eqs, standsAt (Join "" chunks +:+ r) left eqs → waits eqs →
  ∃ evs left' eqs', foldM readChunk (acc, eqs) chunks = Ok (acc ++ evs, eqs') ∧ left = evs ++ left' ∧ standsAt r left' eqs' ∧
    seg_FilePath eqs' = seg_FilePath eqs ∧ SegmentNum eqs' = SegmentNum eqs ∧ waits eqs'.
Proof.
  intros HJ. induction chunks as [|c chunks IH]; intros r acc left eqs Hat Hw; cbn [foldM].
  { exists [], left, eqs. rewrite app_nil_r. by split_and!. }
  assert (standsAt (Join "" chunks +:+ r) left (commit c eqs)) as Hc.
  { unfold standsAt in *. cbn. rewrite Join_cons, str_app_assoc in Hat. destruct (processed eqs); [|by rewrite str_app_assoc].
    destruct Hat as (-> & -> & Hr). by destruct c. }
  destruct (readEvents_spec _ HJ (S (String.length (unread (commit c eqs)))) acc left _ Hc ltac:(lia)) as (evs & left' & eqs' & Hr & -> & H1 & H2 & H3 & H4).
  assert (readChunk (acc, eqs) c = Ok (acc ++ evs, eqs')) as -> by exact Hr. cbn [mbind result_bind].
  destruct (IH r (acc ++ evs) left' eqs' H1 H4) as (evs2 & left2 & eqs2 & -> & -> & G1 & G2 & G3 & G4).
  exists (evs ++ evs2), left2, eqs2. rewrite !app_assoc. cbn in H2, H3. split_and!; try congruence; done.
Qed.
(** C22: What the exporter writes into a segment is what the importer reads: however the
    file is committed, in chunks of any size that may end within a line, the events are
    read once each and in order, what has been read at any time is a prefix of them, and
    the segment counts as processed exactly when the marker has been read. *)
Theorem segment_read_back (path : string) (n : Z) (events : list Event) (chunks : list string) :
  goodJSON → Join "" chunks = segmentContent events →
  readSegment path n chunks = Ok (events, mkQueueSegment path n true "") ∧
  ∀ k, ∃ evs seg, readSegment path n (take k chunks) = Ok (evs, seg) ∧ evs `prefix_of` events ∧ (processed seg = true → evs = events).
Proof.
  intros HJ Hj. assert (∀ k, standsAt (Join "" (take k chunks) +:+ Join "" (drop k chunks)) events (NewEventQueueSegment path n)) as Hat.
  { intros k. unfold standsAt. cbn. by rewrite <- Join_app, take_drop. }
  split.
  - specialize (Hat (length chunks)). rewrite take_ge, drop_ge in Hat by done.
    destruct (readChunks_spec chunks HJ "" [] events _ Hat) as (evs & left' & eqs' & Hr & -> & H1 & H2 & H3 & H4); [done|].
    unfold readSegment. rewrite Hr. unfold standsAt in H1. destruct eqs' as [? ? [] u]; cbn in *.
    + destruct H1 as (-> & -> & _). rewrite app_nil_r. by subst.
    + rewrite str_app_nil_r in H1. specialize (H4 eq_refl). cbn in H4. subst u. by destruct (segmentContent_line HJ left').
  - intros k. destruct (readChunks_spec _ HJ _ [] events _ (Hat k)) as (evs & left' & eqs' & Hr & -> & H1 & _); [done|].
    exists evs, eqs'. split; [exact Hr|]. split; [by apply prefix_app_r|]. intros Hp. unfold standsAt in H1. rewrite Hp in H1.
    destruct H1 as [-> _]. by rewrite app_nil_r.
Qed.
End read.

(** ** Three numbered events, committed in two chunks *)
Definition sampleUnmarshal (s : string) : result Z :=
  match DecimalString.NilZero.int_of_string s with Some z => Ok (Z.of_int z) | None => Err "invalid character" end.
Lemma sampleJSON : goodJSON sampleUnmarshal itoa.
Proof.
  intros e. unfold sampleUnmarshal. rewrite int_of_itoa, DecimalZ.of_to. split; [done|]. split; [by apply itoa_has|].
  assert (str_has CRc (itoa e) = false) as Hcr by (by apply itoa_has). split.
  - induction (itoa e) as [|c s IH]; [done|]. rewrite str_has_cons, orb_false_iff in Hcr. destruct Hcr as [Hc%bool_decide_eq_false Hs].
    destruct s as [|c' s]; cbn [dropCR]; [by rewrite decide_False|]. f_equal. by apply IH.
  - intros H. assert (str_has "."%char (itoa e) = false) as Hd by (by apply itoa_has). by rewrite H in Hd.
Qed.
Lemma segment_read_back_witness :
  readSegment sampleUnmarshal "q" 0 ["7" +:+ NLs +:+ "1"; "2" +:+ NLs +:+ "9" +:+ NLs +:+ "\"; "." +:+ NLs] = Ok ([7; 12; 9], mkQueueSegment "q" 0 true "").
Proof. apply (segment_read_back sampleUnmarshal itoa "q" 0 [7; 12; 9] _ sampleJSON). vm_compute. reflexivity. Defined.
End EventQueue.
