(* ===== verification/ArchiveChanges.v ===== *)
(** * Archiving of processed segments (src/yb-voyager/src/archivechanges/cleanup.go)

    A cleaner deletes, or copies to an archive and deletes, the queue segments that
    every importer has imported.  It runs beside the exporters, which append to the
    queue, and the importers, which read it; files, rows and the migration status
    record are what they share.  Every effect of the cleaner may fail or be the last
    one of the process, done in full, in part or not at all. *)
From stdpp Require Import functions.
From S2P Require Import Prelude Event MetaDB EventQueue.
Import Event MetaDB EventQueue.

Module ArchiveChanges.
(** ** Effects *)
Record world : Type := mkWorld { files : gmap string string; segs : list Row; msr : option MigrationStatusRecord }.
(** Done; or it fails, or the process dies in it, after [n] units of its work: a step
    that is atomic has one unit, copying one for making the file and one per byte. *)
Inductive fate : Type := Done | Fails (n : nat) | Dies (n : nat).
Inductive outcome (A : Type) : Type := Ret (a : A) | Failed (msg : string) | Dead.
Arguments Ret {A} a.
Arguments Failed {A} msg.
Arguments Dead {A}.
Definition M (A : Type) : Type := world → list fate → outcome A * world * list fate.
#[global] Instance M_ret : MRet M := λ A a w fs, (Ret a, w, fs).
#[global] Instance M_bind : MBind M := λ A B f m w fs,
  match m w fs with
  | (Ret a, w', fs') => f a w' fs'
  | (Failed e, w', fs') => (Failed e, w', fs')
  | (Dead, w', fs') => (Dead, w', fs')
  end.
Definition fail {A} (msg : string) : M A := λ w fs, (Failed msg, w, fs).
(** [f None]: the whole effect; [f (Some n)]: stopped after [n] units. *)
Definition effect (f : option nat → world → result world) : M unit := λ w fs,
  let '(fate, fs') := match fs with [] => (Done, []) | a :: fs => (a, fs) end in
  match f (match fate with Done => None | Fails n | Dies n => Some n end) w with
  | Err e | Panic e => (Failed e, w, fs')
  | Ok w' => (match fate with Done => Ret tt | Fails _ => Failed "i/o error" | Dies _ => Dead end, w', fs')
  end.
Definition set_files (fs : gmap string string) (w : world) : world := mkWorld fs (segs w) (msr w).
Definition set_segs (t : list Row) (w : world) : world := mkWorld (files w) t (msr w).
Definition FileOrFolderExists (path : string) : M bool := λ w fs, (Ret (bool_decide (is_Some (files w !! path))), w, fs).
Definition os_Remove (path : string) : M unit := effect (λ o w,
  match files w !! path with
  | None => Err "no such file or directory"
  | Some _ => Ok (match o with Some O => w | _ => set_files (delete path (files w)) w end)
  end).
(** The destination is truncated first. *)
Definition CopyFile (src dst : string) : M unit := effect (λ o w,
  match files w !! src with
  | None => Err "failed to open source file"
  | Some c =>
      let c := if decide (src = dst) then "" else c in
      Ok (match o with
          | None => set_files (<[dst:=c]> (files w)) w
          | Some O => w
          | Some (S n) => set_files (<[dst:=String.substring 0 n c]> (files w)) w
          end)
  end).
Definition updateDB (f : list Row → result (list Row)) : M unit := effect (λ o w,
  match o with Some O => Ok w | _ => t ← f (segs w); Ok (set_segs t w) end).

(** ** The cleaner *)
Definition PolicyDelete : string := "delete".
Definition PolicyRetain : string := "retain".
Definition PolicyArchive : string := "archive".
Definition archiveChangesBuffer : nat := 3.
Definition ValidPolicyNames : list string := [PolicyDelete; PolicyArchive].
Definition IsValidPolicy (policy : string) : bool := bool_decide (policy ∈ ValidPolicyNames).
(** [ArchiveDir] is a clean path, as [filepath.Join] would make it. *)
Record Config : Type := mkConfig { Policy : string; ArchiveDir : string; FSUtilizationThreshold : Z }.
(** [filepath.Base]: the last element of the path. *)
Definition Base (path : string) : string :=
  match last (filter (λ s, s ≠ "") (Split "/" path)) with
  | Some s => s
  | None => if decide (path = "") then "." else "/"
  end.
Definition segmentsEligibleForCleanup (stop : bool) (segments : list Segment) : list Segment :=
  if stop then segments
  else if (length segments <=? archiveChangesBuffer)%nat then []
  else take (length segments - archiveChangesBuffer) segments.
Definition deleteSegment (seg : Segment) : M unit :=
  exists_ ← FileOrFolderExists (FilePath seg);
  (if exists_ : bool then os_Remove (FilePath seg) else mret tt) ;;
  updateDB (MarkSegmentDeletedAndArchived (Num seg)).
Definition archiveAndDeleteSegment (cfg : Config) (seg : Segment) : M unit :=
  let archivePath := ArchiveDir cfg +:+ "/" +:+ Base (FilePath seg) in
  inQueue ← FileOrFolderExists (FilePath seg);
  inArchive ← FileOrFolderExists archivePath;
  (if inQueue : bool then
     (if inArchive : bool then os_Remove archivePath else mret tt) ;;
     CopyFile (FilePath seg) archivePath ;;
     os_Remove (FilePath seg)
   else if negb inArchive then fail "segment file missing"
   else mret tt) ;;
  updateDB (ArchiveAndDeleteSegment (Num seg) archivePath).
Definition GetProcessedAndPending : M (list Segment * list Segment) := λ w fs,
  match GetProcessedAndPendingSegments (msr w) (segs w) with
  | Ok p => (Ret p, w, fs)
  | Err e | Panic e => (Failed e, w, fs)
  end.
Fixpoint forEach (f : Segment → M unit) (l : list Segment) : M unit :=
  match l with [] => mret tt | seg :: l => f seg ;; forEach f l end.
(** Processed, pending, and deleted. *)
Definition DeleteProcessedSegments (stop : bool) : M (list Segment * list Segment * list Segment) :=
  '(segments, pendingSegments) ← GetProcessedAndPending;
  let eligible := segmentsEligibleForCleanup stop segments in
  forEach deleteSegment eligible ;;
  mret (segments, pendingSegments, eligible).
Definition ArchiveProcessedSegments (cfg : Config) (stop : bool) : M (list Segment * list Segment * list Segment) :=
  '(segments, pendingSegments) ← GetProcessedAndPending;
  let eligible := segmentsEligibleForCleanup stop segments in
  if stop && (length segments =? 0)%nat && (length pendingSegments =? 0)%nat then mret ([], [], [])
  else forEach (archiveAndDeleteSegment cfg) eligible ;; mret (segments, pendingSegments, eligible).

(** ** The loops *)
(** What a tick of the timer finds: the stop signal, the disk, the fates of the
    effects, and what the other processes have done since the last one. *)
Record tick : Type := mkTick { stop : bool; fsUtil : Z; fates : list fate; others : world → world }.
Inductive status : Type := Running | Returned (r : result unit) | Killed.
Definition isFSUtilizationExceeded (cfg : Config) (t : tick) : bool := if stop t then true else FSUtilizationThreshold cfg <? fsUtil t.
Fixpoint runDeletePolicy (cfg : Config) (ticks : list tick) (w : world) : status * world :=
  match ticks with
  | [] => (Running, w)
  | t :: ticks =>
      let w := others t w in
      if negb (isFSUtilizationExceeded cfg t) then runDeletePolicy cfg ticks w
      else match DeleteProcessedSegments (stop t) w (fates t) with
           | (Failed e, w, _) => (Returned (Err e), w)
           | (Dead, w, _) => (Killed, w)
           | (Ret (segments, pendingSegments, _), w, _) =>
               if stop t && ((length segments =? 0)%nat && (length pendingSegments =? 0)%nat) then (Returned (Ok tt), w)
               else runDeletePolicy cfg ticks w
           end
  end.
(** The result of an iteration that failed is empty, and the loop looks at it first. *)
Fixpoint archiveLoop (cfg : Config) (ticks : list tick) (w : world) : status * world :=
  match ticks with
  | [] => (Running, w)
  | t :: ticks =>
      match ArchiveProcessedSegments cfg (stop t) (others t w) (fates t) with
      | (Dead, w, _) => (Killed, w)
      | (o, w, _) =>
          let '(segments, pendingSegments, _) := match o with Ret r => r | _ => ([], [], []) end in
          if stop t && ((length segments =? 0)%nat && (length pendingSegments =? 0)%nat) then (Returned (Ok tt), w)
          else match o with Failed e => (Returned (Err e), w) | _ => archiveLoop cfg ticks w end
      end
  end.
Definition runArchivePolicy (cfg : Config) (ticks : list tick) (w : world) : status * world :=
  if decide (ArchiveDir cfg = "") then (Returned (Err "archive policy requires --archive-dir to be specified"), w)
  else archiveLoop cfg ticks w.
Fixpoint runRetainPolicy (ticks : list tick) (w : world) : status * world :=
  match ticks with
  | [] => (Running, w)
  | t :: ticks => if stop t then (Returned (Ok tt), others t w) else runRetainPolicy ticks (others t w)
  end.
Definition Run (cfg : Config) (ticks : list tick) (w : world) : status * world :=
  if decide (Policy cfg = PolicyDelete) then runDeletePolicy cfg ticks w
  else if decide (Policy cfg = PolicyRetain) then runRetainPolicy ticks w
  else if decide (Policy cfg = PolicyArchive) then runArchivePolicy cfg ticks w
  else (Returned (Err "unsupported cleanup policy"), w).

(** ** What an effect leaves *)
Definition returned {A} (o : outcome A) : Prop := ∃ a, o = Ret a.
Lemma M_bind_inv {A B} (m : M A) (f : A → M B) w fs o w' fs' : (m ≫= f) w fs = (o, w', fs') →
  (∃ a w1 fs1, m w fs = (Ret a, w1, fs1) ∧ f a w1 fs1 = (o, w', fs')) ∨ (∃ o1, m w fs = (o1, w', fs') ∧ ¬ returned o1 ∧ ¬ returned o).
Proof.
  unfold mbind, M_bind. destruct (m w fs) as [ [ [a|e| ] w1] fs1]; intros H; [left; eauto|right..]; injection H as <- <- <-;
    eexists; (split; [done|]); split; by intros [].
Qed.
Lemma exists_bind {B} path (f : bool → M B) w fs :
  (FileOrFolderExists path ≫= f) w fs = f (bool_decide (is_Some (files w !! path))) w fs.
Proof. done. Qed.
Lemma effect_inv f w fs o w' fs' : effect f w fs = (o, w', fs') →
  (o = Ret tt ∧ f None w = Ok w') ∨ (¬ returned o ∧ (w' = w ∨ f None w = Ok w' ∨ ∃ n, f (Some n) w = Ok w')).
Proof.
  unfold effect. destruct (match fs with [] => (Done, []) | a :: fs => (a, fs) end) as [fate fs1].
  destruct fate as [ |n|n]; cbn; destruct (f _ w) eqn:Hf; intros [= <- <- <-]; first [by left | right; split; [by intros []|eauto] ].
Qed.
Lemma os_Remove_inv p w fs o w' fs' : os_Remove p w fs = (o, w', fs') →
  (o = Ret tt ∧ w' = set_files (delete p (files w)) w) ∨ (¬ returned o ∧ (w' = w ∨ w' = set_files (delete p (files w)) w)).
Proof.
  intros [ [-> H]|[Hr H] ]%effect_inv; [left|right]; (split; [done|]); destruct (files w !! p).
  - by injection H as <-.
  - done.
  - destruct H as [?|[ [= <-]|([|n] & [= <-])] ]; eauto.
  - destruct H as [?|[?|(n & ?)] ]; eauto; done.
Qed.
Lemma CopyFile_inv src dst w fs o w' fs' : src ≠ dst → CopyFile src dst w fs = (o, w', fs') →
  (o = Ret tt ∧ ∃ c, files w !! src = Some c ∧ w' = set_files (<[dst:=c]> (files w)) w) ∨
  (¬ returned o ∧ (w' = w ∨ ∃ c, w' = set_files (<[dst:=c]> (files w)) w)).
Proof.
  intros Hne [ [-> H]|[Hr H] ]%effect_inv; [left|right]; (split; [done|]); destruct (files w !! src) as [c|]; rewrite ?decide_False in H by done.
  - injection H as <-. eauto.
  - done.
  - destruct H as [?|[ [= <-]|([|n] & [= <-])] ]; eauto.
  - destruct H as [?|[?|(n & ?)] ]; eauto; done.
Qed.
Lemma updateDB_inv f w fs o w' fs' : updateDB f w fs = (o, w', fs') →
  (o = Ret tt ∧ ∃ t, f (segs w) = Ok t ∧ w' = set_segs t w) ∨ (¬ returned o ∧ (w' = w ∨ ∃ t, f (segs w) = Ok t ∧ w' = set_segs t w)).
Proof.
  intros [ [-> H]|[Hr H] ]%effect_inv; [left|right]; (split; [done|]).
  - apply bind_Ok in H as (t & Ht & [= <-]). eauto.
  - destruct H as [?|[H|([|n] & H)] ]; [by left|..]; [right|by injection H as <-; left|right]; apply bind_Ok in H as (t & Ht & [= <-]); eauto.
Qed.

(** ** What the rest of the program relies on in a way of cleaning *)
(** [archiveOf]: where a copy is kept.  Whatever happens in cleaning a segment, its
    content is in the queue with its row as it was, or else at the archive, complete;
    nothing but these two files and this row is touched. *)
Definition keptAt (archive : option string) (c : string) (fs : gmap string string) : Prop :=
  match archive with None => True | Some a => fs !! a = Some c end.
Definition onlyArchivedChanges (n : Z) (archive : option string) (t t' : list Row) : Prop :=
  ∃ loc, t' = updateWhere n (λ r, set_archived true true (loc r) r) t ∧ ∀ a, archive = Some a → ∀ r, loc r = Some a.
Class CleanupPolicy (clean : Segment → M unit) (archiveOf : Segment → option string) : Prop := {
  clean_law seg w fs o w' fs' : archiveOf seg ≠ Some (FilePath seg) → clean seg w fs = (o, w', fs') →
    msr w' = msr w ∧
    (∀ q, q ≠ FilePath seg → archiveOf seg ≠ Some q → files w' !! q = files w !! q) ∧
    (∀ c, files w !! FilePath seg = Some c →
       (files w' !! FilePath seg = Some c ∧ segs w' = segs w ∧ ¬ returned o) ∨
       (files w' !! FilePath seg = None ∧ keptAt (archiveOf seg) c (files w'))) ∧
    (files w !! FilePath seg = None → files w' = files w) ∧
    (segs w' = segs w ∧ ¬ returned o ∨ onlyArchivedChanges (Num seg) (archiveOf seg) (segs w) (segs w')) }.
Lemma updateSegment_archived n g t t' archive :
  updateSegment n (λ r, set_archived true true (g r) r) t = Ok t' → (∀ a, archive = Some a → ∀ r, g r = Some a) → onlyArchivedChanges n archive t t'.
Proof. intros [-> _]%updateSegment_Ok Hg. exists g. done. Qed.
#[global] Instance deletePolicy : CleanupPolicy deleteSegment (λ _, None).
Proof.
  split. intros seg w fs o w' fs' _. unfold deleteSegment. rewrite exists_bind.
  intros [(u & w2 & fs2 & H2 & H)|(o1 & H & Hr1 & Hr)]%M_bind_inv.
  - assert (w2 = set_files (delete (FilePath seg) (files w)) w) as ->.
    { case_bool_decide as Hb; [by apply os_Remove_inv in H2 as [ [_ ->]|[Hn _] ]; [|destruct Hn; eexists]|].
      injection H2 as _ <- _. rewrite delete_id; [by destruct w|]. by apply eq_None_not_Some. }
    assert (∀ t, MarkSegmentDeletedAndArchived (Num seg) (segs w) = Ok t → onlyArchivedChanges (Num seg) None (segs w) t) as Hmark
      by (intros t Ht; by eapply updateSegment_archived).
    apply updateDB_inv in H as [ [-> (t & Ht & ->)]|[Hn [-> |(t & Ht & ->)] ] ]; cbn in *; split_and!; try done;
      intros; rewrite ?lookup_delete_eq, ?lookup_delete_ne by done; try done; try (right; split; done); try (by apply delete_id); eauto.
  - case_bool_decide as Hb; [|by destruct Hr1; eexists; injection H as <- _ _].
    apply os_Remove_inv in H as [ [-> _]|[_ [-> | ->] ] ]; [by destruct Hr1; eexists|..]; cbn; split_and!; try done; eauto;
      intros; rewrite ?lookup_delete_eq, ?lookup_delete_ne by done; try done; try (right; split; done); try (by apply delete_id).
Qed.
Definition archivePathOf (cfg : Config) (seg : Segment) : string := ArchiveDir cfg +:+ "/" +:+ Base (FilePath seg).
Definition moveToArchive (cfg : Config) (seg : Segment) (inArchive : bool) : M unit :=
  (if inArchive then os_Remove (archivePathOf cfg seg) else mret tt) ;;
  CopyFile (FilePath seg) (archivePathOf cfg seg) ;;
  os_Remove (FilePath seg).
Lemma moveToArchive_inv cfg seg b w fs o w' fs' c : archivePathOf cfg seg ≠ FilePath seg → files w !! FilePath seg = Some c →
  moveToArchive cfg seg b w fs = (o, w', fs') →
  msr w' = msr w ∧ segs w' = segs w ∧ (∀ q, q ≠ FilePath seg → archivePathOf cfg seg ≠ q → files w' !! q = files w !! q) ∧
  ((files w' !! FilePath seg = Some c ∧ ¬ returned o) ∨ (files w' !! FilePath seg = None ∧ files w' !! archivePathOf cfg seg = Some c)).
Proof.
  intros Hne Hc. unfold moveToArchive. set (a := archivePathOf cfg seg) in *. set (p := FilePath seg) in *.
  intros [(u & w1 & fs1 & H1 & H)|(o1 & H & Hr1 & Hr)]%M_bind_inv.
  - assert (msr w1 = msr w ∧ segs w1 = segs w ∧ (∀ q, a ≠ q → files w1 !! q = files w !! q)) as (M1 & S1 & F1).
    { destruct b; [|by injection H1 as _ <- _]. apply os_Remove_inv in H1 as [ [_ ->]|[Hn _] ]; [|destruct Hn; eexists; done].
      cbn. split_and!; try done. intros q ?. by apply lookup_delete_ne. }
    assert (files w1 !! p = Some c) as Hc1 by (by rewrite F1).
    cut (msr w' = msr w1 ∧ segs w' = segs w1 ∧ (∀ q, q ≠ p → a ≠ q → files w' !! q = files w1 !! q) ∧
         (files w' !! p = Some c ∧ ¬ returned o ∨ files w' !! p = None ∧ files w' !! a = Some c)).
    { intros (M2 & S2 & F2 & D). rewrite M2, S2. split_and!; try done. intros q ? ?. by rewrite F2, F1. }
    clear M1 S1 F1 H1 Hc.
    apply M_bind_inv in H as [(u2 & w2 & fs2 & H2 & H)|(o2 & H & Hr2 & Hr)].
    + apply CopyFile_inv in H2 as [(_ & c' & Hc' & ->)|[Hn _] ]; [|destruct Hn; eexists; done|congruence]. rewrite Hc1 in Hc'. injection Hc' as <-.
      apply os_Remove_inv in H as [ [-> ->]|[Hn [-> | ->] ] ]; cbn; (split; [done|]; split; [done|]; split; [intros; by rewrite ?lookup_delete_ne, lookup_insert_ne by done|]).
      * right. by rewrite lookup_delete_eq, lookup_delete_ne, lookup_insert_eq.
      * left. by rewrite lookup_insert_ne.
      * right. by rewrite lookup_delete_eq, lookup_delete_ne, lookup_insert_eq.
    + apply CopyFile_inv in H as [(-> & _)|[_ [-> |(c' & ->)] ] ]; [destruct Hr2; eexists; done|..|congruence].
      * split_and!; try done. by left.
      * cbn. split_and!; try done; [intros; by rewrite lookup_insert_ne|]. left. by rewrite lookup_insert_ne.
  - destruct b; [|destruct Hr1; injection H as <- _ _; eexists; done].
    apply os_Remove_inv in H as [ [-> _]|[_ [-> | ->] ] ]; [destruct Hr1; eexists; done|split_and!; try done; by left|].
    cbn. split_and!; try done; [intros; by apply lookup_delete_ne|]. left. by rewrite lookup_delete_ne.
Qed.
Lemma archiveAndDelete_eq cfg seg w fs : archiveAndDeleteSegment cfg seg w fs =
  ((if bool_decide (is_Some (files w !! FilePath seg)) then moveToArchive cfg seg (bool_decide (is_Some (files w !! archivePathOf cfg seg)))
    else if negb (bool_decide (is_Some (files w !! archivePathOf cfg seg))) then fail "segment file missing" else mret tt) ;;
   updateDB (ArchiveAndDeleteSegment (Num seg) (archivePathOf cfg seg))) w fs.
Proof. done. Qed.
#[global] Instance archivePolicy cfg : CleanupPolicy (archiveAndDeleteSegment cfg) (λ seg, Some (archivePathOf cfg seg)).
Proof.
  split. intros seg w fs o w' fs' Hne. rewrite archiveAndDelete_eq. set (a := archivePathOf cfg seg) in *.
  assert (∀ t t', ArchiveAndDeleteSegment (Num seg) a t = Ok t' → onlyArchivedChanges (Num seg) (Some a) t t') as Hmark.
  { intros t t' Ht. eapply updateSegment_archived; [exact Ht|]. by intros ? [= <-]. }
  assert (∀ w1 fs1, updateDB (ArchiveAndDeleteSegment (Num seg) a) w1 fs1 = (o, w', fs') →
     msr w' = msr w1 ∧ files w' = files w1 ∧ (segs w' = segs w1 ∧ ¬ returned o ∨ onlyArchivedChanges (Num seg) (Some a) (segs w1) (segs w'))) as Hdb.
  { intros w1 fs1 [ (-> & t & Ht & ->)|[Hn [-> |(t & Ht & ->)] ] ]%updateDB_inv; cbn; eauto 10. }
  intros [(u & w1 & fs1 & H1 & H)|(o1 & H & Hr1 & Hr)]%M_bind_inv.
  - destruct (Hdb _ _ H) as (M2 & F2 & S2). destruct (files w !! FilePath seg) as [c|] eqn:Hc.
    + rewrite bool_decide_true in H1 by eauto. destruct (moveToArchive_inv _ _ _ _ _ _ _ _ _ (λ He, Hne (f_equal Some He)) Hc H1) as (M1 & S1 & F1 & D1).
      rewrite M2, M1, F2. rewrite S1 in S2. split_and!; try done.
      * intros q ? Hq. apply F1; [done|]. intros <-. by apply Hq.
      * intros c' [= <-]. destruct D1 as [ [_ Hn]|D1]; [destruct Hn; eexists; done|]. right. done.
    + rewrite bool_decide_false in H1 by (by intros []). assert (w1 = w) as ->.
      { case_bool_decide; cbn in H1; [by injection H1 as _ <- _|done]. }
      rewrite M2, F2. split_and!; done.
  - destruct (files w !! FilePath seg) as [c|] eqn:Hc.
    + rewrite bool_decide_true in H by eauto. destruct (moveToArchive_inv _ _ _ _ _ _ _ _ _ (λ He, Hne (f_equal Some He)) Hc H) as (M1 & S1 & F1 & D1).
      split_and!; try done; [intros q ? Hq; apply F1; [done|]; intros <-; by apply Hq| |by left].
      intros c' [= <-]. destruct D1 as [ [? _]|D1]; [by left|by right].
    + rewrite bool_decide_false in H by (by intros []). assert (w' = w) as ->.
      { case_bool_decide; cbn in H; by injection H as _ <- _. }
      split_and!; try done. by left.
Qed.
(** *** Paths *)
Lemma Split_last c a s : ∃ l, l ≠ [] ∧ Split c (a +:+ String c s) = l ++ Split c s.
Proof.
  induction a as [|d a (l & Hl & IH)]; cbn [String.append Split].
  - exists [""]. rewrite bool_decide_true by done. done.
  - rewrite IH. case_bool_decide; [by exists ("" :: l)|]. destruct l as [|w l]; [done|]. by exists (String d w :: l).
Qed.
Lemma Base_path dir name : name ≠ "" → str_has "/" name = false → Base (dir +:+ "/" +:+ name) = name.
Proof.
  intros Hne Hs. unfold Base. cbn [String.append]. destruct (Split_last "/" dir name) as (l & _ & ->).
  rewrite (Split_none _ _ Hs), filter_app. cbn. rewrite decide_True by done. by rewrite last_snoc.
Qed.
Lemma path_inj a x b y : str_has "/" x = false → str_has "/" y = false → a +:+ "/" +:+ x = b +:+ "/" +:+ y → a = b ∧ x = y.
Proof.
  intros Hx Hy. cbn. revert b. induction a as [|c a IH]; intros [|d b]; cbn; intros H.
  - by injection H as ->.
  - injection H as <- ->. rewrite str_has_app, str_has_cons, bool_decide_true, orb_true_r in Hx by done. done.
  - injection H as -> <-. rewrite str_has_app, str_has_cons, bool_decide_true, orb_true_r in Hy by done. done.
  - injection H as -> H2. destruct (IH b H2) as [-> ->]. done.
Qed.
Lemma segmentFileName_ok n : segmentFileName n ≠ "" ∧ str_has "/" (segmentFileName n) = false.
Proof. split; [done|]. unfold segmentFileName. rewrite !str_has_app, itoa_has by done. done. Qed.
Lemma archivePathOf_segment cfg queueDir n :
  archivePathOf cfg (mkSegment n (segmentFilePath queueDir n)) = ArchiveDir cfg +:+ "/" +:+ segmentFileName n.
Proof. unfold archivePathOf. cbn [FilePath]. destruct (segmentFileName_ok n). unfold segmentFilePath. by rewrite Base_path. Qed.
Lemma archive_elsewhere cfg queueDir n m : ArchiveDir cfg ≠ queueDir →
  Some (archivePathOf cfg (mkSegment n (segmentFilePath queueDir n))) ≠ Some (segmentFilePath queueDir m).
Proof.
  intros Hne [= H]. rewrite archivePathOf_segment in H. apply path_inj in H as [? _]; [done|apply segmentFileName_ok..].
Qed.
Lemma archive_injective cfg queueDir n m a :
  Some (archivePathOf cfg (mkSegment n (segmentFilePath queueDir n))) = Some a →
  Some (archivePathOf cfg (mkSegment m (segmentFilePath queueDir m))) = Some a → n = m.
Proof.
  intros [= <-] [= H]. rewrite !archivePathOf_segment in H. apply path_inj in H as [_ H]; [|apply segmentFileName_ok..].
  unfold segmentFileName in H. cbn in H. injection H as H. apply str_cut in H as [H _]; [by apply (inj itoa) in H|by apply itoa_has..].
Qed.

Lemma segmentFilePath_inj queueDir n m : segmentFilePath queueDir n = segmentFilePath queueDir m → n = m.
Proof.
  intros H. apply path_inj in H as [_ H]; [|apply segmentFileName_ok..]. unfold segmentFileName in H. cbn in H. injection H as H.
  apply str_cut in H as [H _]; [by apply (inj itoa) in H|by apply itoa_has..].
Qed.

(** ** An iteration without faults *)
Definition inTable (t : list Row) (seg : Segment) : Prop := ∃ r, r ∈ t ∧ segment_no r = Num seg.
Definition available (archiveOf : Segment → option string) (fs : gmap string string) (seg : Segment) : Prop :=
  match archiveOf seg with None => True | Some a => is_Some (fs !! FilePath seg) ∨ is_Some (fs !! a) end.
Lemma update_quiet n g w : wellNumbered (segs w) → (∃ r, r ∈ segs w ∧ segment_no r = n) →
  updateDB (updateSegment n g) w [] = (Ret tt, set_segs (updateWhere n g (segs w)) w, []).
Proof. intros Hw (r & Hr & <-). unfold updateDB, effect, updateSegment. by rewrite (rowsAffected_elem _ _ Hw Hr). Qed.
Lemma M_bind_quiet {A B} (m : M A) (f : A → M B) w a w1 : m w [] = (Ret a, w1, []) → (m ≫= f) w [] = f a w1 [].
Proof. intros H. unfold mbind, M_bind. by rewrite H. Qed.
Lemma os_Remove_quiet p w c : files w !! p = Some c → os_Remove p w [] = (Ret tt, set_files (delete p (files w)) w, []).
Proof. intros Hc. unfold os_Remove, effect. by rewrite Hc. Qed.
Lemma CopyFile_quiet src dst w c : files w !! src = Some c → src ≠ dst → CopyFile src dst w [] = (Ret tt, set_files (<[dst:=c]> (files w)) w, []).
Proof. intros Hc Hne. unfold CopyFile, effect. by rewrite Hc, decide_False. Qed.
(** The policies clean a segment that is there. *)
Class QuietPolicy (clean : Segment → M unit) (archiveOf : Segment → option string) : Prop := {
  quiet_law seg w : archiveOf seg ≠ Some (FilePath seg) → wellNumbered (segs w) → inTable (segs w) seg → available archiveOf (files w) seg →
    ∃ w', clean seg w [] = (Ret tt, w', []) }.
#[global] Instance deleteQuiet : QuietPolicy deleteSegment (λ _, None).
Proof.
  split. intros seg w _ Hw Hrow _. unfold deleteSegment. rewrite exists_bind. case_bool_decide as Hb.
  - destruct Hb as [c Hc]. rewrite (M_bind_quiet _ _ _ _ _ (os_Remove_quiet _ _ _ Hc)). eexists. by apply update_quiet.
  - rewrite (M_bind_quiet _ _ _ tt w) by done. eexists. by apply update_quiet.
Qed.
#[global] Instance archiveQuiet cfg : QuietPolicy (archiveAndDeleteSegment cfg) (λ seg, Some (archivePathOf cfg seg)).
Proof.
  split. intros seg w Hne Hw Hrow Hav. rewrite archiveAndDelete_eq. set (a := archivePathOf cfg seg) in *.
  assert (FilePath seg ≠ a) as Hap by (intros He; apply Hne; by rewrite He).
  assert (∀ w c, files w !! FilePath seg = Some c → ∃ w', (CopyFile (FilePath seg) a ;; os_Remove (FilePath seg)) w [] = (Ret tt, w', []) ∧ segs w' = segs w) as Hcopy.
  { intros w0 c Hc. rewrite (M_bind_quiet _ _ _ _ _ (CopyFile_quiet _ _ _ _ Hc Hap)).
    erewrite os_Remove_quiet by (cbn; by rewrite lookup_insert_ne). by eexists. }
  case_bool_decide as Hb.
  - destruct Hb as [c Hc]. assert (∃ w', moveToArchive cfg seg (bool_decide (is_Some (files w !! a))) w [] = (Ret tt, w', []) ∧ segs w' = segs w) as (w' & Hm & Hs).
    { unfold moveToArchive. fold a. case_bool_decide as Ha.
      - destruct Ha as [c' Hc']. rewrite (M_bind_quiet _ _ _ _ _ (os_Remove_quiet _ _ _ Hc')).
        destruct (Hcopy (set_files (delete a (files w)) w) c) as (w' & ? & ?); [cbn; by rewrite lookup_delete_ne|eauto].
      - rewrite (M_bind_quiet _ _ _ tt w) by done. by apply (Hcopy w c). }
    rewrite (M_bind_quiet _ _ _ _ _ Hm). eexists. apply update_quiet; by rewrite Hs.
  - destruct Hav as [?|Hav]; [done|]. fold a in Hav. rewrite bool_decide_true by done. cbn [negb]. rewrite (M_bind_quiet _ _ _ tt w) by done.
    eexists. by apply update_quiet.
Qed.
Section quiet.
Context {clean : Segment → M unit} {archiveOf : Segment → option string} `{HP : !CleanupPolicy clean archiveOf} `{HQ : !QuietPolicy clean archiveOf}.
Definition apart (seg seg' : Segment) : Prop := FilePath seg ≠ FilePath seg' ∧ archiveOf seg ≠ Some (FilePath seg') ∧
  (∀ a, archiveOf seg = Some a → archiveOf seg' ≠ Some a).
Definition cleanable (l : list Segment) (w : world) : Prop :=
  wellNumbered (segs w) ∧ NoDup (map Num l) ∧ (∀ seg, seg ∈ l → inTable (segs w) seg ∧ available archiveOf (files w) seg ∧ archiveOf seg ≠ Some (FilePath seg)) ∧
  ∀ seg seg', seg ∈ l → seg' ∈ l → Num seg ≠ Num seg' → apart seg seg'.
(** All are removed from the queue, and their rows, and no others, are marked. *)
Lemma forEach_quiet l w : cleanable l w → ∃ w', forEach clean l w [] = (Ret tt, w', []) ∧ msr w' = msr w ∧
  (∀ seg, seg ∈ l → files w' !! FilePath seg = None) ∧
  (∀ q, (∀ seg, seg ∈ l → q ≠ FilePath seg ∧ archiveOf seg ≠ Some q) → files w' !! q = files w !! q) ∧
  (∀ r', r' ∈ segs w' → ∃ r loc, r ∈ segs w ∧ segment_no r = segment_no r' ∧
     r' = if decide (segment_no r ∈ map Num l) then set_archived true true loc r else r).
Proof using HP HQ.
  revert w. induction l as [|seg l IH]; intros w (Hw & Hnd & Hall & Hap); cbn [forEach].
  - exists w. split_and!; try done; [intros ? []%not_elem_of_nil|]. intros r Hr. exists r, None. split_and!; [done..|].
    by rewrite decide_False by (cbn; apply not_elem_of_nil).
  - cbn in Hnd. apply NoDup_cons in Hnd as [Hnum Hnd]. destruct (Hall seg ltac:(left)) as (Hrow & Hav & Hself).
    destruct (quiet_law (clean:=clean) (archiveOf:=archiveOf) seg w Hself Hw Hrow Hav) as [w1 Hw1].
    destruct (clean_law (clean:=clean) (archiveOf:=archiveOf) seg _ _ _ _ _ Hself Hw1) as (Hm & Hfiles & Hsome & Hnone & Hsegs).
    destruct Hsegs as [ [_ Hn]|(loc & Hs & _)]; [destruct Hn; by eexists|].
    assert (∀ s', s' ∈ l → Num seg ≠ Num s') as Hne by (intros s' Hs' He; apply Hnum; rewrite He; by apply list_elem_of_fmap_2).
    assert (files w1 !! FilePath seg = None) as Hgone.
    { destruct (files w !! FilePath seg) as [c|] eqn:Hc; [|by rewrite (Hnone eq_refl)]. destruct (Hsome c eq_refl) as [(_ & _ & Hn)|[? _] ]; [destruct Hn; by eexists|done]. }
    assert (∀ s', s' ∈ l → files w1 !! FilePath s' = files w !! FilePath s') as Hsame.
    { intros s' Hs'. destruct (Hap seg s') as (? & ? & _); [left|by right|by apply Hne|]. apply Hfiles; [done|done]. }
    destruct (IH w1) as (w' & Hl & Hm' & Hf' & Hq' & Hr').
    { split_and!; [rewrite Hs; by apply updateWhere_wellNumbered|done| |intros; apply Hap; [by right..|done] ].
      intros s' Hs'. destruct (Hall s' ltac:(by right)) as ((r & Hr & Hno) & Hav' & ?). split_and!; [|clear Hrow|done].
      - exists (if segment_no r =? Num seg then set_archived true true (loc r) r else r). rewrite Hs. split; [apply elem_of_updateWhere; eauto|].
        by destruct (segment_no r =? Num seg).
      - unfold available in *. destruct (archiveOf s') as [a|] eqn:Ha; [|done]. rewrite Hsame by done. destruct Hav' as [?|?]; [by left|right].
        rewrite Hfiles; [done|..].
        + intros ->. destruct (Hap s' seg) as (_ & Hx & _); [by right|left|by apply not_eq_sym, Hne|by rewrite Ha in Hx].
        + intros Hx. destruct (Hap seg s') as (_ & _ & Hy); [left|by right|by apply Hne|by apply (Hy a)]. }
    exists w'. rewrite (M_bind_quiet _ _ _ _ _ Hw1). split; [done|]. split; [by rewrite Hm'|]. split_and!.
    + intros s' [-> |Hs']%elem_of_cons; [|by apply Hf']. rewrite Hq'; [done|]. intros s' Hs'.
      destruct (Hap s' seg) as (? & ? & _); [by right|left|by apply not_eq_sym, Hne|]. by split; [apply not_eq_sym|].
    + intros q Hq. rewrite Hq' by (intros s' ?; apply Hq; by right). apply Hfiles; apply Hq; left.
    + intros r' Hin. destruct (Hr' r' Hin) as (r1 & loc1 & Hr1 & Hno1 & ->). rewrite Hs in Hr1. apply elem_of_updateWhere in Hr1 as (r & Hr & ->).
      exists r, (if decide (segment_no r ∈ map Num l) then loc1 else loc r). split; [done|]. cbn [map].
      destruct (Z.eqb_spec (segment_no r) (Num seg)) as [He|He]; cbn [segment_no set_archived] in *.
      * assert (segment_no r ∉ map Num l) as Hnl by (by rewrite He).
        rewrite !(decide_False _ _ Hnl), (decide_True (P:=segment_no r ∈ Num seg :: map Num l)) by (rewrite He; left). done.
      * destruct (decide (segment_no r ∈ map Num l)).
        -- split; [done|]. by rewrite decide_True by (by right).
        -- split; [done|]. rewrite decide_False; [done|]. by intros [?|?]%elem_of_cons.
Qed.
End quiet.

(** ** Stopping *)
(** The queue of a directory, each processed segment where the policy can find it. *)
Definition queueOf (queueDir : string) (w : world) : Prop :=
  wellNumbered (segs w) ∧ ∀ r, r ∈ segs w → file_path r = segmentFilePath queueDir (segment_no r).
Definition separate (queueDir : string) (archiveOf : Segment → option string) : Prop :=
  (∀ n m, archiveOf (mkSegment n (segmentFilePath queueDir n)) ≠ Some (segmentFilePath queueDir m)) ∧
  (∀ n m a, archiveOf (mkSegment n (segmentFilePath queueDir n)) = Some a → archiveOf (mkSegment m (segmentFilePath queueDir m)) = Some a → n = m).
Lemma separate_archive cfg queueDir : ArchiveDir cfg ≠ queueDir → separate queueDir (λ seg, Some (archivePathOf cfg seg)).
Proof. intros H. split; [intros; by apply archive_elsewhere|intros ? ? ?; apply archive_injective]. Qed.
Section drain.
Context {clean : Segment → M unit} {archiveOf : Segment → option string} `{HP : !CleanupPolicy clean archiveOf} `{HQ : !QuietPolicy clean archiveOf}.
Lemma query_cleanable queueDir p w : queueOf queueDir w → separate queueDir archiveOf →
  (∀ r, r ∈ segs w → p r = true → available archiveOf (files w) (mkSegment (segment_no r) (file_path r))) →
  cleanable (archiveOf:=archiveOf) (querySegmentsInAscOrder p (segs w)) w.
Proof.
  intros [Hw Hpath] [Hs Hi] Hav.
  assert (∀ seg, seg ∈ querySegmentsInAscOrder p (segs w) → ∃ r, r ∈ segs w ∧ p r = true ∧ seg = mkSegment (segment_no r) (segmentFilePath queueDir (segment_no r))) as Hseg.
  { intros seg (r & Hr & Hp & ->)%elem_of_query. exists r. by rewrite Hpath. }
  split_and!; [done| | |].
  - unfold querySegmentsInAscOrder. rewrite map_map. cbn. apply sorted_NoDup. unfold wellNumbered in Hw. clear -Hw.
    induction (segs w) as [|r t IH]; [constructor|]. cbn in Hw. inversion Hw as [|? ? H1 H2]; subst. rewrite filter_cons.
    destruct (decide (p r = true)); [|by apply IH]. cbn. constructor; [by apply IH|]. rewrite Forall_forall in H2 |- *.
    intros n (r' & -> & [_ Hr']%list_elem_of_filter)%list_elem_of_fmap. apply H2. by apply list_elem_of_fmap_2.
  - intros seg (r & Hr & Hp & ->)%Hseg. split_and!; [by exists r| |apply Hs]. rewrite <- Hpath by done. by apply Hav.
  - intros ? ? (r & Hr & _ & ->)%Hseg (r' & Hr' & _ & ->)%Hseg Hne. cbn in Hne. split_and!; cbn [FilePath].
    + by intros ?%segmentFilePath_inj.
    + apply Hs.
    + intros a Ha Ha'. destruct Hne. by eapply Hi.
Qed.
Lemma archived_not_processed k loc r : processedPredicate k (set_archived true true loc r) = false.
Proof. apply andb_false_r. Qed.
(** Everything processed is cleaned, and nothing processed is left. *)
Lemma drain_quiet queueDir k w : queueOf queueDir w → separate queueDir archiveOf →
  (∀ r, r ∈ segs w → processedPredicate k r = true → available archiveOf (files w) (mkSegment (segment_no r) (file_path r))) →
  ∃ w', forEach clean (querySegmentsInAscOrder (processedPredicate k) (segs w)) w [] = (Ret tt, w', []) ∧ msr w' = msr w ∧
    (∀ r, r ∈ segs w → processedPredicate k r = true → files w' !! file_path r = None) ∧
    querySegmentsInAscOrder (processedPredicate k) (segs w') = [] ∧
    ((∀ r, r ∈ segs w → pendingPredicate k r = false) → querySegmentsInAscOrder (pendingPredicate k) (segs w') = []).
Proof using HP HQ.
  intros Hq Hs Hav. destruct (forEach_quiet _ _ (query_cleanable _ _ _ Hq Hs Hav)) as (w' & Hl & Hm & Hf & _ & Hr').
  exists w'. split_and!; try done.
  - intros r Hr Hp. apply (Hf (mkSegment (segment_no r) (file_path r))). apply elem_of_query. eauto.
  - apply elem_of_nil_inv. intros seg (r' & (r & loc & Hr & Hno & He)%Hr' & Hp & _)%elem_of_query. rewrite He in Hp.
    destruct (decide (segment_no r ∈ _)) as [Hd|Hd]; [by rewrite archived_not_processed in Hp|].
    destruct Hd. apply list_elem_of_fmap. exists (mkSegment (segment_no r) (file_path r)). split; [done|]. apply elem_of_query. eauto.
  - intros Hpend. apply elem_of_nil_inv. intros seg (r' & (r & loc & Hr & Hno & He)%Hr' & Hp & _)%elem_of_query. rewrite He in Hp.
    assert (pendingPredicate k r = true) as Hp' by (clear -Hp; destruct (decide _); exact Hp). rewrite (Hpend r Hr) in Hp'. discriminate Hp'.
Qed.
End drain.
Lemma query_none p t : (∀ r, r ∈ t → p r = false) → querySegmentsInAscOrder p t = [].
Proof. intros H. apply elem_of_nil_inv. intros seg (r & Hr & Hp & _)%elem_of_query. by rewrite (H r Hr) in Hp. Qed.
Definition quietStop : tick := mkTick true 0 [] id.
Lemma Delete_quiet l p w w' : GetProcessedAndPendingSegments (msr w) (segs w) = Ok (l, p) → forEach deleteSegment l w [] = (Ret tt, w', []) →
  DeleteProcessedSegments true w [] = (Ret (l, p, l), w', []).
Proof. intros Hg Hl. unfold DeleteProcessedSegments, GetProcessedAndPending, mbind, M_bind. rewrite Hg. cbn. by rewrite Hl. Qed.
Lemma Archive_quiet cfg l p w w' : GetProcessedAndPendingSegments (msr w) (segs w) = Ok (l, p) →
  forEach (archiveAndDeleteSegment cfg) l w [] = (Ret tt, w', []) →
  ArchiveProcessedSegments cfg true w [] = (Ret (l, p, if decide (l = [] ∧ p = []) then [] else l), w', []).
Proof.
  intros Hg Hl. unfold ArchiveProcessedSegments, GetProcessedAndPending, mbind, M_bind. rewrite Hg. cbn.
  destruct l, p; cbn in *; try (injection Hl as <-); try done; by rewrite Hl.
Qed.
(** The cleaner finishes: once it is told to stop, everything has been imported and
    nothing fails, it returns within two ticks without an error, with every segment that
    was to be removed gone from the queue and nothing left to clean. *)
Theorem cleanup_completes (cfg : Config) (queueDir : string) (m : MigrationStatusRecord) (ticks : list tick) (w : world) :
  let toClean := processedPredicate (importCountOf m) in
  msr w = Some m → queueOf queueDir w → (∀ r, r ∈ segs w → pendingPredicate (importCountOf m) r = false) →
  Policy cfg = PolicyDelete ∨
  Policy cfg = PolicyArchive ∧ ArchiveDir cfg ≠ "" ∧ ArchiveDir cfg ≠ queueDir ∧
    (∀ r, r ∈ segs w → toClean r = true →
       is_Some (files w !! file_path r) ∨ is_Some (files w !! archivePathOf cfg (mkSegment (segment_no r) (file_path r)))) →
  ∃ w', Run cfg (quietStop :: quietStop :: ticks) w = (Returned (Ok tt), w') ∧
    (∀ r, r ∈ segs w → toClean r = true → files w' !! file_path r = None) ∧ querySegmentsInAscOrder toClean (segs w') = [].
Proof.
  intros toClean Hm Hq Hpend Hpol. set (l := querySegmentsInAscOrder toClean (segs w)).
  assert (GetProcessedAndPendingSegments (msr w) (segs w) = Ok (l, [])) as Hget by (rewrite Hm; unfold GetProcessedAndPendingSegments; fold toClean; by rewrite (query_none _ _ Hpend)).
  assert (∀ w', msr w' = msr w → querySegmentsInAscOrder toClean (segs w') = [] → querySegmentsInAscOrder (pendingPredicate (importCountOf m)) (segs w') = [] →
    GetProcessedAndPendingSegments (msr w') (segs w') = Ok ([], [])) as Hnext by (intros w' -> H1 H2; rewrite Hm; unfold GetProcessedAndPendingSegments; fold toClean; by rewrite H1, H2).
  destruct Hpol as [Hpol|(Hpol & Hdir & Hne & Hav)].
  - destruct (drain_quiet (clean:=deleteSegment) (archiveOf:=λ _, None) queueDir (importCountOf m) w Hq) as (w' & Hl & Hm' & Hf & Hn & Hp); [done|done|].
    exists w'. split; [|done]. unfold Run. rewrite decide_True by done. cbn [runDeletePolicy quietStop stop others id fates isFSUtilizationExceeded negb].
    rewrite (Delete_quiet _ _ _ _ Hget Hl). cbn [andb]. destruct l; [done|]. cbn [length Nat.eqb andb].
    by rewrite (Delete_quiet _ _ _ _ (Hnext w' Hm' Hn (Hp Hpend)) eq_refl).
  - destruct (drain_quiet (clean:=archiveAndDeleteSegment cfg) (archiveOf:=λ seg, Some (archivePathOf cfg seg)) queueDir (importCountOf m) w Hq)
      as (w' & Hl & Hm' & Hf & Hn & Hp); [by apply separate_archive|exact Hav|].
    exists w'. split; [|done]. unfold Run, runArchivePolicy. rewrite !decide_False, decide_True, decide_False by (rewrite ?Hpol; done).
    cbn [archiveLoop quietStop stop others id fates]. fold toClean in Hl. fold l in Hl.
    rewrite (Archive_quiet _ _ _ _ _ Hget Hl). destruct l; [injection Hl as ->; done|]. cbn [length Nat.eqb andb].
    by rewrite (Archive_quiet _ _ _ _ _ (Hnext w' Hm' Hn (Hp Hpend)) eq_refl).
Qed.
(** Errors of an iteration: the delete policy returns them; the archive policy returns
    them only until the stop signal, after which an iteration that failed, whose result is
    empty, is taken for one that found nothing left to archive. *)
Theorem archive_errors_after_stop (cfg : Config) (t : tick) (ticks : list tick) (w w' : world) (e : string) (fs : list fate) :
  (Policy cfg = PolicyDelete → isFSUtilizationExceeded cfg t = true →
     DeleteProcessedSegments (stop t) (others t w) (fates t) = (Failed e, w', fs) → Run cfg (t :: ticks) w = (Returned (Err e), w')) ∧
  (Policy cfg = PolicyArchive → ArchiveDir cfg ≠ "" →
     ArchiveProcessedSegments cfg (stop t) (others t w) (fates t) = (Failed e, w', fs) →
     Run cfg (t :: ticks) w = (Returned (if stop t then Ok tt else Err e), w')).
Proof.
  split.
  - intros Hp Hu Hf. unfold Run. rewrite decide_True by done. cbn [runDeletePolicy]. rewrite Hu. cbn [negb]. by rewrite Hf.
  - intros Hp Hd Hf. unfold Run, runArchivePolicy. rewrite !decide_False, decide_True, decide_False by (rewrite ?Hp; done).
    cbn [archiveLoop]. rewrite Hf. by destruct (stop t).
Qed.
(** An archive directory that is the queue's: the existing archive file that is removed
    first is the segment itself, so its content is lost and the copy fails. *)
Theorem archive_into_the_queue (cfg : Config) (seg : Segment) (w : world) (c : string) :
  archivePathOf cfg seg = FilePath seg → files w !! FilePath seg = Some c →
  archiveAndDeleteSegment cfg seg w [] = (Failed "failed to open source file", set_files (delete (FilePath seg) (files w)) w, []).
Proof.
  intros Ha Hc. rewrite archiveAndDelete_eq, Ha, Hc, bool_decide_true by eauto. unfold moveToArchive. rewrite Ha.
  unfold mbind, M_bind. rewrite (os_Remove_quiet _ _ _ Hc). unfold CopyFile, effect. cbn [files set_files]. by rewrite lookup_delete_eq.
Qed.

(** ** Two segments, the first imported *)
Definition demoQueue : string := "/e/data/queue".
Definition demoRow (n : Z) (done : bool) : Row :=
  mkRow n (segmentFilePath demoQueue n) 0 0 SOURCE_DB_EXPORTER_ROLE done false false false false None.
Definition demoWorld (fs : gmap string string) : world := mkWorld fs [demoRow 0 true; demoRow 1 true] (Some newMSR).
Definition demoFiles : gmap string string := {[ segmentFilePath demoQueue 0 := "a"; segmentFilePath demoQueue 1 := "b" ]}.
Definition demoConfig (policy : string) (dir : string) : Config := mkConfig policy dir 70.
Lemma demo_queue fs : queueOf demoQueue (demoWorld fs).
Proof.
  split; [repeat constructor|]. intros r [-> |[-> |[]%not_elem_of_nil]%elem_of_cons]%elem_of_cons; done.
Qed.
Lemma cleanup_completes_witness : ∃ w',
  Run (demoConfig PolicyArchive "/arch") [quietStop; quietStop] (demoWorld demoFiles) = (Returned (Ok tt), w') ∧
  files w' !! segmentFilePath demoQueue 1 = None ∧ files w' !! "/arch/segment.1.ndjson" = Some "b".
Proof.
  destruct (cleanup_completes (demoConfig PolicyArchive "/arch") demoQueue newMSR [] (demoWorld demoFiles)) as (w' & H & Hf & _).
  - reflexivity.
  - apply demo_queue.
  - intros r [-> |[-> |[]%not_elem_of_nil]%elem_of_cons]%elem_of_cons; reflexivity.
  - right. split_and!; [done..|]. intros r [-> |[-> |[]%not_elem_of_nil]%elem_of_cons]%elem_of_cons _; left; vm_compute; eauto.
  - exists w'. split; [exact H|]. split; [by apply (Hf (demoRow 1 true)); [right; left|reflexivity]|].
    vm_compute in H. injection H as <-. vm_compute. reflexivity.
Defined.
Lemma archive_errors_after_stop_witness :
  Run (demoConfig PolicyArchive "/arch") [mkTick true 0 [] id] (demoWorld ∅) = (Returned (Ok tt), demoWorld ∅) ∧
  Run (demoConfig PolicyDelete "") [mkTick true 0 [Fails 0] id] (demoWorld demoFiles) = (Returned (Err "i/o error"), demoWorld demoFiles).
Proof.
  split.
  - apply (archive_errors_after_stop (demoConfig PolicyArchive "/arch") (mkTick true 0 [] id) [] (demoWorld ∅) (demoWorld ∅) "segment file missing" []);
      vm_compute; congruence.
  - apply (archive_errors_after_stop (demoConfig PolicyDelete "") (mkTick true 0 [Fails 0] id) [] (demoWorld demoFiles) (demoWorld demoFiles) "i/o error" []);
      vm_compute; reflexivity.
Defined.
Lemma archive_into_the_queue_witness :
  files (archiveAndDeleteSegment (demoConfig PolicyArchive demoQueue) (mkSegment 0 (segmentFilePath demoQueue 0)) (demoWorld demoFiles) []).1.2
    !! segmentFilePath demoQueue 0 = None.
Proof.
  rewrite (archive_into_the_queue (demoConfig PolicyArchive demoQueue) (mkSegment 0 (segmentFilePath demoQueue 0)) (demoWorld demoFiles) "a"); vm_compute; reflexivity.
Defined.
End ArchiveChanges.
