(* ===== verification/QueueSystem.v ===== *)
(** * The queue of a live migration: exporters, importers and the cleaner

    The exporters append segments (Debezium, by its documented behaviour), the importers
    of the three roles read them through the event queue and mark them
    (streamChangesFromSegment in cmd/live_migration.go), the cleaner removes them, the
    commands set the flags of the migration status record, and every process may be
    killed at any time.  An event queue's segment is streamed in Streaming.v; here it is
    one step.  Committed sizes and the reset of a clean start are left out. *)
From stdpp Require Import functions.
From S2P Require Import Prelude Event MetaDB EventQueue ArchiveChanges.
Import Event MetaDB EventQueue ArchiveChanges.

Set Default Proof Using "Type*".

Module QueueSystem.
(** ** The cutover flags of an importer *)
Definition detectedFlag (importerRole : string) : option MSRFlag :=
  if decide (importerRole = TARGET_DB_IMPORTER_ROLE) then Some CutoverDetectedByTargetImporter
  else if decide (importerRole = SOURCE_REPLICA_DB_IMPORTER_ROLE) then Some CutoverDetectedBySourceReplicaImporter
  else if decide (importerRole = SOURCE_DB_IMPORTER_ROLE) then Some CutoverDetectedBySourceImporter
  else None.
Definition requestedFlag (importerRole : string) : option MSRFlag :=
  if decide (importerRole = TARGET_DB_IMPORTER_ROLE) then Some CutoverToTargetRequested
  else if decide (importerRole = SOURCE_REPLICA_DB_IMPORTER_ROLE) then Some CutoverToSourceReplicaRequested
  else if decide (importerRole = SOURCE_DB_IMPORTER_ROLE) then Some CutoverToSourceRequested
  else None.
Definition flagIf (m : MigrationStatusRecord) (f : option MSRFlag) : bool := match f with Some f => flag m f | None => false end.
Definition cutoverInitiatedAndCutoverEventProcessed (importerRole : string) (m : MigrationStatusRecord) : bool :=
  flagIf m (requestedFlag importerRole) && flagIf m (detectedFlag importerRole).
(** What the end of the stream does to the record; the timestamp is left out. *)
Definition markDetected (importerRole : string) (m : MigrationStatusRecord) : result MigrationStatusRecord :=
  match detectedFlag importerRole with Some f => Ok (set_flag f true m) | None => Err "unknown importer role" end.

(** ** The processes *)
Inductive importer : Type := Stopped | Idle (q : EventQueue) | Reading (q : EventQueue) (n : Z).
Record system : Type := mkSystem {
  shared : world;
  written : Z → string;                  (* by the exporters, per segment *)
  closed : Z → bool;                     (* the end marker or the cutover event is written *)
  importers : string → importer;
  todo : option (list Segment);          (* what the cleaner has still to clean *)
  cleaned : bool }.                      (* it has begun to *)
Definition set_importer (role : string) (i : importer) (s : system) : system :=
  mkSystem (shared s) (written s) (closed s) (<[role:=i]> (importers s)) (todo s) (cleaned s).
Definition set_shared (w : world) (s : system) : system := mkSystem w (written s) (closed s) (importers s) (todo s) (cleaned s).
Definition set_todo (l : option (list Segment)) (s : system) : system :=
  mkSystem (shared s) (written s) (closed s) (importers s) l (cleaned s).
Definition set_msr (m : MigrationStatusRecord) (w : world) : world := mkWorld (files w) (segs w) (Some m).
Definition nextNo (s : system) : Z := Z.of_nat (length (segs (shared s))).

Section system.
Context {clean : Segment → M unit} {archiveOf : Segment → option string} `{HP : !CleanupPolicy clean archiveOf}.
Context (queueDir : string).
Definition pathOf (n : Z) : string := segmentFilePath queueDir n.
Definition segOf (n : Z) : Segment := mkSegment n (pathOf n).
(** The archive is another directory, with a file for each segment. *)
Context (Harchive : ∀ n m, archiveOf (segOf n) ≠ Some (pathOf m))
        (Hinjective : ∀ n m a, archiveOf (segOf n) = Some a → archiveOf (segOf m) = Some a → n = m).

(** Which exporter may be running: the source's until the cutover is detected, then one
    of the target's. *)
Definition mayExport (m : MigrationStatusRecord) (role : string) : Prop :=
  (role = SOURCE_DB_EXPORTER_ROLE ∧ flag m CutoverDetectedByTargetImporter = false) ∨
  (role = TARGET_DB_EXPORTER_FF_ROLE ∧ flag m FallForwardEnabled = true ∧ flag m CutoverDetectedByTargetImporter = true) ∨
  (role = TARGET_DB_EXPORTER_FB_ROLE ∧ flag m FallbackEnabled = true ∧ flag m CutoverDetectedByTargetImporter = true).
Definition createSegment (role : string) (s : system) : system :=
  let n := nextNo s in
  mkSystem (mkWorld (<[pathOf n:=""]> (files (shared s))) (segs (shared s) ++ [newRow n (pathOf n) role]) (msr (shared s)))
    (<[n:=""]> (written s)) (<[n:=false]> (closed s)) (importers s) (todo s) (cleaned s).
Definition writeSegment (n : Z) (chunk : string) (s : system) : system :=
  let c := written s n +:+ chunk in
  mkSystem (set_files (<[pathOf n:=c]> (files (shared s))) (shared s)) (<[n:=c]> (written s)) (closed s) (importers s) (todo s) (cleaned s).
Definition closeSegment (n : Z) (s : system) : system :=
  mkSystem (shared s) (written s) (<[n:=true]> (closed s)) (importers s) (todo s) (cleaned s).
(** The flags that decide who reads what. *)
Definition routeFlags : list MSRFlag :=
  [FallForwardEnabled; FallbackEnabled; CutoverDetectedByTargetImporter; CutoverDetectedBySourceReplicaImporter;
   CutoverDetectedBySourceImporter; CutoverToTargetRequested; CutoverToSourceReplicaRequested; CutoverToSourceRequested].
Definition sameRoute (m m' : MigrationStatusRecord) : Prop := ∀ f, f ∈ routeFlags → flag m' f = flag m f.
(** Starting an importer; the source replica's enables the fall-forward workflow, which
    it refuses if fall-back is enabled.  It is started before anything is cleaned. *)
Definition mayStart (m : MigrationStatusRecord) (role : string) (s : system) : Prop :=
  isImporterRole role = true ∧ importers s role = Stopped ∧ cutoverInitiatedAndCutoverEventProcessed role m = false ∧
  (role = SOURCE_REPLICA_DB_IMPORTER_ROLE →
     flag m FallbackEnabled = false ∧ (flag m FallForwardEnabled = true ∨ cleaned s = false ∧ todo s = None)) ∧
  (role = SOURCE_DB_IMPORTER_ROLE → flag m FallbackEnabled = true).
Definition startRecord (role : string) (m : MigrationStatusRecord) : MigrationStatusRecord :=
  if decide (role = SOURCE_REPLICA_DB_IMPORTER_ROLE) then set_flag FallForwardEnabled true m else m.

Inductive step : system → system → Prop :=
  | Q_create s m role : msr (shared s) = Some m → mayExport m role → (∀ r, r ∈ segs (shared s) → closed s (segment_no r) = true) →
      step s (createSegment role s)
  | Q_write s r chunk : r ∈ segs (shared s) → closed s (segment_no r) = false → step s (writeSegment (segment_no r) chunk s)
  | Q_close s r : r ∈ segs (shared s) → step s (closeSegment (segment_no r) s)
  | Q_request s m role f (fallback : bool) : msr (shared s) = Some m → requestedFlag role = Some f → flag m f = false →
      (fallback = true → role = TARGET_DB_IMPORTER_ROLE ∧ flag m FallForwardEnabled = false) →
      step s (set_shared (set_msr (set_flag f true (if fallback then set_flag FallbackEnabled true m else m)) (shared s)) s)
  | Q_record s m m' : msr (shared s) = Some m → sameRoute m m' → step s (set_shared (set_msr m' (shared s)) s)
  | I_start s m role : msr (shared s) = Some m → mayStart m role s →
      step s (set_importer role (Idle (mkQueue queueDir (-1) false)) (set_shared (set_msr (startRecord role m) (shared s)) s))
  | I_next s role q q' seg : importers s role = Idle q →
      GetNextSegment role (segs (shared s)) (files (shared s)) q = Some (q', Ok seg) → step s (set_importer role (Reading q' (SegmentNum seg)) s)
  | I_wait s role q q' e : importers s role = Idle q →
      GetNextSegment role (segs (shared s)) (files (shared s)) q = Some (q', Err e) → step s (set_importer role (Idle q') s)
  | I_done s role q n t : importers s role = Reading q n → closed s n = true →
      markEventQueueSegmentAsProcessed n role (segs (shared s)) = Ok t → step s (set_importer role (Idle q) (set_shared (set_segs t (shared s)) s))
  | I_cutover s m role q n m' t : importers s role = Reading q n → closed s n = true → msr (shared s) = Some m →
      flagIf m (requestedFlag role) = true →
      MarkEventQueueSegmentAsProcessedAndUpdateMSRInTxn n role (markDetected role) (Some m) (segs (shared s)) = Ok (Some m', t) →
      step s (set_importer role Stopped (set_shared (set_msr m' (set_segs t (shared s))) s))
  | I_crash s role : step s (set_importer role Stopped s)
  | C_fetch s stop processed pending : todo s = None →
      GetProcessedAndPendingSegments (msr (shared s)) (segs (shared s)) = Ok (processed, pending) →
      step s (set_todo (Some (segmentsEligibleForCleanup stop processed)) s)
  | C_clean s seg l fates o w' fates' : todo s = Some (seg :: l) → clean seg (shared s) fates = (o, w', fates') →
      step s (mkSystem w' (written s) (closed s) (importers s) (match o with Ret _ => Some l | _ => None end) true)
  | C_end s : step s (set_todo None s).
Definition initial : system :=
  mkSystem (mkWorld ∅ [] (Some newMSR)) (λ _, "") (λ _, false) (λ _, Stopped) None false.
Definition reachable (s : system) : Prop := rtc step initial s.

(** ** Who needs a segment *)
Definition needs (m : MigrationStatusRecord) (role : string) (r : Row) : Prop :=
  (exporter_role r = SOURCE_DB_EXPORTER_ROLE ∧
     (role = TARGET_DB_IMPORTER_ROLE ∨ role = SOURCE_REPLICA_DB_IMPORTER_ROLE ∧ flag m FallForwardEnabled = true)) ∨
  (exporter_role r = TARGET_DB_EXPORTER_FF_ROLE ∧ role = SOURCE_REPLICA_DB_IMPORTER_ROLE ∧ flag m FallForwardEnabled = true) ∨
  (exporter_role r = TARGET_DB_EXPORTER_FB_ROLE ∧ role = SOURCE_DB_IMPORTER_ROLE).
Definition allImported (m : MigrationStatusRecord) (r : Row) : Prop := ∀ role, needs m role r → imported_by role r = Some true.

(** *** The table and the record *)
Definition rowRole (m : MigrationStatusRecord) (r : Row) : Prop :=
  exporter_role r = SOURCE_DB_EXPORTER_ROLE ∨
  (exporter_role r = TARGET_DB_EXPORTER_FF_ROLE ∧ flag m FallForwardEnabled = true ∧ flag m CutoverDetectedByTargetImporter = true) ∨
  (exporter_role r = TARGET_DB_EXPORTER_FB_ROLE ∧ flag m FallbackEnabled = true ∧ flag m CutoverDetectedByTargetImporter = true).
Record TInv (m : MigrationStatusRecord) (t : list Row) (cl : Z → bool) : Prop := mkTInv {
  t_nos : ∀ i r, t !! i = Some r → segment_no r = Z.of_nat i ∧ file_path r = pathOf (segment_no r);
  t_role : ∀ r, r ∈ t → rowRole m r;
  t_excl : flag m FallForwardEnabled = true → flag m FallbackEnabled = true → False;
  t_back : ∀ r r', r ∈ t → r' ∈ t → segment_no r ≤ segment_no r' → exporter_role r = TARGET_DB_EXPORTER_FB_ROLE → exporter_role r' = TARGET_DB_EXPORTER_FB_ROLE;
  t_imp : ∀ role r, r ∈ t → imported_by role r = Some true → needs m role r ∧ cl (segment_no r) = true;
  t_down : ∀ role r r', r ∈ t → r' ∈ t → segment_no r ≤ segment_no r' → imported_by role r' = Some true → needs m role r → imported_by role r = Some true;
  t_det : ∀ role, flagIf m (detectedFlag role) = true → flagIf m (requestedFlag role) = true }.
Lemma TInv_no m t cl r : TInv m t cl → r ∈ t → 0 ≤ segment_no r < Z.of_nat (length t) ∧ file_path r = pathOf (segment_no r).
Proof. intros H [i Hi]%list_elem_of_lookup. destruct (t_nos _ _ _ H _ _ Hi) as [-> ->]. apply lookup_lt_Some in Hi. split; [lia|done]. Qed.
Lemma TInv_wellNumbered m t cl : TInv m t cl → wellNumbered t.
Proof.
  intros H. assert (∀ i r, t !! i = Some r → segment_no r = 0 + Z.of_nat i) as Hn by (intros i r Hi; by apply (t_nos _ _ _ H)). clear H.
  unfold wellNumbered. revert Hn. generalize 0. induction t as [|r t IH]; intros k Hn; cbn; constructor.
  - apply (IH (k + 1)). intros i r' Hi. rewrite (Hn (S i) r' Hi). lia.
  - rewrite Forall_forall. intros z (r' & -> & [i Hi]%list_elem_of_lookup)%list_elem_of_fmap.
    rewrite (Hn 0%nat r eq_refl), (Hn (S i) r' Hi). lia.
Qed.
Lemma TInv_at m t cl n : TInv m t cl → 0 ≤ n < Z.of_nat (length t) → ∃ r, r ∈ t ∧ segment_no r = n.
Proof.
  intros H Hn. destruct (lookup_lt_is_Some_2 t (Z.to_nat n)) as [r Hr]; [lia|]. exists r. split; [by eapply list_elem_of_lookup_2|].
  destruct (t_nos _ _ _ H _ _ Hr) as [-> _]. lia.
Qed.
Lemma pathOf_inj n n' : pathOf n = pathOf n' → n = n'.
Proof.
  unfold pathOf, segmentFilePath, segmentFileName. intros H%(inj (String.append queueDir)). cbn in H. injection H as H.
  apply str_cut in H as [H _]; [by apply (inj itoa)|by apply itoa_has..].
Qed.
(** What rows are apart from their archive columns. *)
Definition core (r : Row) : Row := set_archived false false None r.
Lemma core_transfer t t' r' : map core t' = map core t → r' ∈ t' → ∃ r, r ∈ t ∧ core r = core r'.
Proof.
  intros Hm Hr. assert (core r' ∈ map core t) as Hc by (rewrite <- Hm; by apply list_elem_of_fmap_2).
  apply list_elem_of_fmap in Hc as (r & -> & Hin). eauto.
Qed.
Lemma core_proj r r' : core r = core r' → segment_no r = segment_no r' ∧ file_path r = file_path r' ∧ exporter_role r = exporter_role r' ∧
  (∀ role, imported_by role r = imported_by role r') ∧ (∀ m role, needs m role r ↔ needs m role r').
Proof.
  destruct r, r'; unfold core, set_archived; cbn. intros [= -> -> -> -> -> -> -> ->]. by split_and!.
Qed.
Lemma TInv_core m t t' cl : map core t' = map core t → TInv m t cl → TInv m t' cl.
Proof.
  intros Hm [H1 H2 H3 H4 H5 H6 H7].
  assert (∀ r', r' ∈ t' → ∃ r, r ∈ t ∧ segment_no r = segment_no r' ∧ file_path r = file_path r' ∧ exporter_role r = exporter_role r' ∧
    (∀ role, imported_by role r = imported_by role r') ∧ (∀ m role, needs m role r ↔ needs m role r')) as Ht.
  { intros r' (r & Hr & Hc%core_proj)%(core_transfer t); eauto. }
  split; try done.
  - intros i r' Hi. assert (map core t !! i = Some (core r')) as Hc by (rewrite <- Hm, list_lookup_fmap; by rewrite Hi).
    rewrite list_lookup_fmap in Hc. apply fmap_Some in Hc as (r & Hr & Hc).
    destruct (H1 _ _ Hr). destruct (core_proj r r') as (E1 & E2 & _); [done|]. by rewrite <- E2, <- E1.
  - intros r' (r & Hr & _ & _ & He & _)%Ht. unfold rowRole. rewrite <- He. by apply H2.
  - intros r1' r2' (r1 & G1 & E1 & _ & R1 & _)%Ht (r2 & G2 & E2 & _ & R2 & _)%Ht. rewrite <- R1, <- R2, <- E1, <- E2. eauto.
  - intros role r' (r & Hr & E1 & _ & _ & I & N)%Ht. rewrite <- I, <- N, <- E1. eauto.
  - intros role r1' r2' (r1 & G1 & E1 & _ & _ & I1 & N1)%Ht (r2 & G2 & E2 & _ & _ & I2 & N2)%Ht. rewrite <- I1, <- I2, <- E1, <- E2, <- N1. eauto.
Qed.

(** *** The table under the steps *)
Lemma needs_FF m m' role r : flag m' FallForwardEnabled = flag m FallForwardEnabled → needs m' role r ↔ needs m role r.
Proof. unfold needs. by intros ->. Qed.
Lemma needs_mono m m' role r : (flag m FallForwardEnabled = true → flag m' FallForwardEnabled = true) → needs m role r → needs m' role r.
Proof. unfold needs. tauto. Qed.
Lemma needs_SR m r : needs m SOURCE_REPLICA_DB_IMPORTER_ROLE r → flag m FallForwardEnabled = true.
Proof. unfold needs. intros [(_ & [?|[_ ?] ])|[(_ & _ & ?)|(_ & ?)] ]; done. Qed.
Lemma needs_other m m' role r : role ≠ SOURCE_REPLICA_DB_IMPORTER_ROLE → needs m' role r → needs m role r.
Proof. unfold needs. tauto. Qed.
Lemma TInv_create m t cl role : TInv m t cl → mayExport m role →
  TInv m (t ++ [newRow (Z.of_nat (length t)) (pathOf (Z.of_nat (length t))) role]) (<[Z.of_nat (length t):=false]> cl).
Proof.
  intros H Hrole. set (n := Z.of_nat (length t)). set (r0 := newRow n (pathOf n) role).
  assert (∀ role, imported_by role r0 ≠ Some true) as Hno by (intros x; unfold imported_by; repeat case_decide; done).
  assert (∀ r, r ∈ t → segment_no r < n) as Hlt by (intros r Hr; by apply (TInv_no _ _ _ _ H)).
  assert (∀ r, r ∈ t ++ [r0] → r ∈ t ∨ r = r0) as Hin by (intros r; rewrite elem_of_app, list_elem_of_singleton; done).
  destruct H as [H1 H2 H3 H4 H5 H6 H7]. split; try done.
  - intros i r [Hi|[Hi Hr] ]%lookup_app_Some; [by apply H1|]. apply list_lookup_singleton_Some in Hr as [Hz <-].
    split; [cbn; unfold n; lia|done].
  - intros r [Hr| ->]%Hin; [by apply H2|]. destruct Hrole as [ [? _]|?]; [by left|by right].
  - intros r r' [Hr| ->]%Hin [Hr'| ->]%Hin Hle Hb; [by apply (H4 r r')|..|done].
    + destruct (H2 _ Hr) as [G|[(G & _)|(_ & G1 & G2)] ]; [roles..|]. destruct Hrole as [(_ & G3)|[(_ & G3 & _)|(G3 & _)] ]; [congruence| |done].
      by destruct (H3 G3 G1).
    + specialize (Hlt _ Hr'). cbn in Hle. lia.
  - intros x r [Hr| ->]%Hin Hi; [|by destruct (Hno x)]. rewrite fn_lookup_insert_ne by (specialize (Hlt _ Hr); lia). by apply H5.
  - intros x r r' [Hr| ->]%Hin [Hr'| ->]%Hin Hle Hi Hn; try (by destruct (Hno x)); [by apply (H6 x r r')|]. specialize (Hlt _ Hr'). cbn in Hle. lia.
Qed.
Lemma TInv_close m t cl n : TInv m t cl → TInv m t (<[n:=true]> cl).
Proof.
  intros [H1 H2 H3 H4 H5 H6 H7]. split; try done. intros role r Hr Hi. destruct (H5 _ _ Hr Hi) as [? ?]. split; [done|].
  destruct (decide (n = segment_no r)) as [->|?]; [by rewrite fn_lookup_insert|by rewrite fn_lookup_insert_ne].
Qed.
(** Flags that are only raised, but for fall-forward. *)
Lemma TInv_flags m m' t cl : TInv m t cl →
  (∀ f, flag m f = true → flag m' f = true) ∨ sameRoute m m' →
  (∀ role, flagIf m' (detectedFlag role) = true → flagIf m' (requestedFlag role) = true) →
  (flag m' FallForwardEnabled = true → flag m' FallbackEnabled = true → False) →
  (flag m' FallForwardEnabled = true → flag m FallForwardEnabled = false → ∀ r, r ∈ t → imported_by SOURCE_REPLICA_DB_IMPORTER_ROLE r = Some true → False) →
  TInv m' t cl.
Proof.
  intros [H1 H2 H3 H4 H5 H6 H7] Hm Hdet Hexcl Hff.
  assert (∀ f, f ∈ routeFlags → flag m f = true → flag m' f = true) as Hmono by (intros f Hf; destruct Hm as [Hm|Hm]; [by apply Hm|by rewrite Hm]). clear Hm.
  split; try done.
  - intros r Hr. destruct (H2 _ Hr) as [?|[(? & ? & ?)|(? & ? & ?)] ]; [by left|right; left|right; right]; split_and!; try done; apply Hmono; try done; set_solver.
  - intros role r Hr Hi. destruct (H5 _ _ Hr Hi) as [? ?]. split; [|done]. eapply needs_mono; [|done]. apply Hmono. set_solver.
  - intros role r r' Hr Hr' Hle Hi Hn. destruct (H5 _ _ Hr' Hi) as [Hn' _]. eapply H6; [exact Hr|exact Hr'|done|done|].
    destruct (decide (role = SOURCE_REPLICA_DB_IMPORTER_ROLE)) as [->|?]; [|by eapply needs_other].
    apply needs_SR in Hn' as Hf. rewrite <- needs_FF; [exact Hn|]. rewrite Hf. apply Hmono; [set_solver|done].
Qed.
(** Where an importer stands: what it needs of the segments before [n] it has imported,
    and all from [n] on it needs and has not. *)
Definition readsNext (m : MigrationStatusRecord) (t : list Row) (role : string) (n : Z) : Prop :=
  0 ≤ n ≤ Z.of_nat (length t) ∧
  (role = SOURCE_DB_IMPORTER_ROLE → ∃ r, r ∈ t ∧ segment_no r ≤ n ∧ exporter_role r = TARGET_DB_EXPORTER_FB_ROLE) ∧
  ∀ r, r ∈ t → (n ≤ segment_no r → needs m role r ∧ imported_by role r = Some false) ∧ (segment_no r < n → needs m role r → imported_by role r = Some true).
Lemma updateWhere_imported n role t r' : r' ∈ updateWhere n (set_imported role true) t → isImporterRole role = true → ∃ r, r ∈ t ∧
  segment_no r' = segment_no r ∧ file_path r' = file_path r ∧ exporter_role r' = exporter_role r ∧ archived r' = archived r ∧ (∀ m x, needs m x r' ↔ needs m x r) ∧
  ∀ x, imported_by x r' = if decide (x = role ∧ segment_no r = n) then Some true else imported_by x r.
Proof.
  intros (r & Hr & ->)%elem_of_updateWhere Hrole. exists r. split; [done|]. destruct (Z.eqb_spec (segment_no r) n) as [He|He]; cbn.
  - split_and!; try done. intros x. rewrite imported_by_set by done. destruct (decide (x = role)) as [->|?]; [by rewrite decide_True|]. by rewrite decide_False by (intros [? _]; done).
  - split_and!; try done. intros x. by rewrite decide_False by (intros [_ ?]; done).
Qed.
Lemma TInv_mark m t cl role n : TInv m t cl → isImporterRole role = true → readsNext m t role n → n < Z.of_nat (length t) → cl n = true →
  TInv m (updateWhere n (set_imported role true) t) cl.
Proof.
  intros H Hrole (_ & _ & Hnext) Hn Hcl. destruct H as [H1 H2 H3 H4 H5 H6 H7]. pose proof (λ r' H, updateWhere_imported n role t r' H Hrole) as Ht.
  split; try done.
  - intros i r' Hi. unfold updateWhere in Hi. rewrite list_lookup_fmap in Hi. apply fmap_Some in Hi as (r & Hr & ->). destruct (H1 _ _ Hr).
    by destruct (segment_no r =? n).
  - intros r' (r & Hr & _ & _ & He & _)%Ht. unfold rowRole. rewrite He. by apply H2.
  - intros r1' r2' (r1 & G1 & E1 & _ & R1 & _)%Ht (r2 & G2 & E2 & _ & R2 & _)%Ht. rewrite R1, R2, E1, E2. eauto.
  - intros x r' (r & Hr & E1 & _ & _ & _ & N & I)%Ht. rewrite I, N, E1. destruct (decide (x = role ∧ _)) as [Hd|Hd]; [|eauto]. intros _. destruct Hd as [-> <-].
    split; [|done]. by apply (Hnext r Hr).
  - intros x r1' r2' (r1 & G1 & E1 & _ & _ & _ & N1 & I1)%Ht (r2 & G2 & E2 & _ & _ & _ & N2 & I2)%Ht. rewrite I1, I2, E1, E2, N1.
    intros Hle Hi Hneed. destruct (decide (x = role ∧ segment_no r1 = _)) as [Hd1|Hd1]; [done|]. destruct (decide (x = role ∧ _)) as [Hd2|Hd2]; [|by apply (H6 x r1 r2)]. destruct Hd2 as [-> Hno].
    assert (segment_no r1 ≠ n) by (intros ?; by apply Hd1). apply Hnext; [done|lia|done].
Qed.

(** *** The importers *)
Definition running (m : MigrationStatusRecord) (role : string) : Prop :=
  isImporterRole role = true ∧ flagIf m (detectedFlag role) = false ∧
  (role = SOURCE_REPLICA_DB_IMPORTER_ROLE → flag m FallForwardEnabled = true) ∧
  (role = SOURCE_DB_IMPORTER_ROLE → flag m FallbackEnabled = true).
Definition importerOk (m : MigrationStatusRecord) (t : list Row) (role : string) (i : importer) : Prop :=
  match i with
  | Stopped => True
  | Idle q => running m role ∧ QueueDirPath q = queueDir ∧ (SegmentNumToStream q = -1 ∨ readsNext m t role (SegmentNumToStream q))
  | Reading q n => running m role ∧ QueueDirPath q = queueDir ∧ SegmentNumToStream q = n + 1 ∧ readsNext m t role n ∧ n < Z.of_nat (length t)
  end.
(** While an importer runs, what the exporters add is for it. *)
Lemma created_is_needed m t cl role n x : TInv m t cl → running m role → readsNext m t role n → mayExport m x →
  needs m role (newRow (Z.of_nat (length t)) (pathOf (Z.of_nat (length t))) x).
Proof.
  intros H (Hrole & Hdet & Hsr & Hs) (_ & Hfb & _) Hx. unfold needs. cbn.
  destruct (importer_role_cases _ Hrole) as [-> |[-> | ->] ].
  - change (flag m CutoverDetectedByTargetImporter = false) in Hdet.
    destruct Hx as [ [-> _]|[(_ & _ & Hd)|(_ & _ & Hd)] ]; [by left; split; [|left]|congruence..].
  - destruct Hx as [ [-> _]|[(-> & Hf & _)|(_ & Hb & _)] ]; [left; split; [done|right; auto]|right; left; auto|]. by destruct (t_excl _ _ _ H (Hsr eq_refl)).
  - right. right. split; [|done]. destruct (Hfb eq_refl) as (r & Hr & _ & Hb). destruct (t_role _ _ _ H r Hr) as [G|[(G & _)|(_ & G1 & G2)] ]; [roles..|].
    destruct Hx as [ [_ ?]|[(_ & Hf & _)|(-> & _)] ]; [congruence| |done]. by destruct (t_excl _ _ _ H Hf G1).
Qed.
Lemma readsNext_create m t cl role n x : TInv m t cl → running m role → readsNext m t role n → mayExport m x →
  readsNext m (t ++ [newRow (Z.of_nat (length t)) (pathOf (Z.of_nat (length t))) x]) role n.
Proof.
  intros H Hrun Hnext Hx. pose proof (created_is_needed _ _ _ _ _ _ H Hrun Hnext Hx) as Hneed. destruct Hnext as ((Hn0 & Hn1) & Hfb & Hall).
  split; [rewrite length_app; cbn; lia|]. split.
  - intros Hr. destruct (Hfb Hr) as (r & Hin & ?). exists r. split; [apply elem_of_app; by left|done].
  - intros r [Hr| ->%list_elem_of_singleton]%elem_of_app; [by apply Hall|]. cbn. split; [|lia]. intros _. split; [done|].
    destruct Hrun as [Hrole _]. by destruct (importer_role_cases _ Hrole) as [-> |[-> | ->] ].
Qed.
Lemma importerOk_create m t cl role i x : TInv m t cl → mayExport m x → importerOk m t role i →
  importerOk m (t ++ [newRow (Z.of_nat (length t)) (pathOf (Z.of_nat (length t))) x]) role i.
Proof.
  intros H Hx. destruct i as [|q|q n]; cbn; [done|..].
  - intros (Hr & Hd & Hq). split_and!; try done. destruct Hq as [?|Hq]; [by left|right]. by eapply readsNext_create.
  - intros (Hr & Hd & Hq & Hn & Hlt). split_and!; try done; [by eapply readsNext_create|]. rewrite length_app. cbn. lia.
Qed.
Lemma readsNext_flags m m' t role n : running m role → (flag m FallForwardEnabled = true → flag m' FallForwardEnabled = true) →
  readsNext m t role n → readsNext m' t role n.
Proof.
  intros (_ & _ & Hsr & _) Hm (Hn & Hfb & Hall). split; [done|]. split; [done|]. intros r Hr. destruct (Hall r Hr) as [H1 H2]. split.
  - intros Hle. destruct (H1 Hle). split; [by eapply needs_mono|done].
  - intros Hlt Hneed. apply H2; [done|]. destruct (decide (role = SOURCE_REPLICA_DB_IMPORTER_ROLE)) as [->|?]; [|by eapply needs_other].
    rewrite <- (needs_FF m m'); [done|]. rewrite (Hsr eq_refl). auto.
Qed.
Lemma importerOk_flags m m' t role i : (flag m FallForwardEnabled = true → flag m' FallForwardEnabled = true) →
  (flag m FallbackEnabled = true → flag m' FallbackEnabled = true) →
  (i ≠ Stopped → flagIf m (detectedFlag role) = false → flagIf m' (detectedFlag role) = false) → importerOk m t role i → importerOk m' t role i.
Proof.
  intros Hf Hb Hd. assert (i ≠ Stopped → running m role → running m' role) as Hrun.
  { intros Hi (H1 & H2 & H3 & H4). split; [done|]. split; [by apply Hd|]. split; intros ?; [by apply Hf, H3|by apply Hb, H4]. }
  destruct i as [|q|q n]; cbn; [done|..].
  - intros (Hr & Hq & Hn). split_and!; [by apply Hrun|done|]. destruct Hn as [?|Hn]; [by left|right]. by eapply readsNext_flags.
  - intros (Hr & Hq & Hs & Hn & Hlt). split_and!; try done; [by apply Hrun|]. by eapply readsNext_flags.
Qed.
Lemma readsNext_rows m t t' role n : length t' = length t →
  (∀ r', r' ∈ t' → ∃ r, r ∈ t ∧ segment_no r = segment_no r' ∧ imported_by role r' = imported_by role r ∧ (needs m role r ↔ needs m role r')) →
  (∀ r, r ∈ t → ∃ r', r' ∈ t' ∧ segment_no r' = segment_no r ∧ exporter_role r' = exporter_role r) → readsNext m t role n → readsNext m t' role n.
Proof.
  intros Hlen Hback Hfwd (Hn & Hfb & Hall). split; [by rewrite Hlen|]. split.
  - intros Hr. destruct (Hfb Hr) as (r & Hin & Hle & He). destruct (Hfwd r Hin) as (r' & ? & ? & ?). exists r'. split_and!; [done|lia|congruence].
  - intros r' Hr'. destruct (Hback r' Hr') as (r & Hr & Hno & Hi & Hneed). destruct (Hall r Hr). rewrite <- Hno, <- Hneed, Hi. done.
Qed.
Lemma importerOk_core m t t' role i : map core t' = map core t → importerOk m t role i → importerOk m t' role i.
Proof.
  intros Hm. assert (length t' = length t) as Hlen by (rewrite <- (length_map core t'), Hm; apply length_map).
  assert (∀ n, readsNext m t role n → readsNext m t' role n) as Hn.
  { intros n. apply readsNext_rows; [done|..].
    - intros r' (r & Hr & Hc%core_proj)%(core_transfer t); [|done]. destruct Hc as (? & ? & ? & Hi & Hneed). exists r. split_and!; [done..|by rewrite Hi|apply Hneed].
    - intros r (r' & Hr & Hc%core_proj)%(core_transfer t'); [|done]. destruct Hc as (? & ? & ? & _). by exists r'. }
  destruct i as [|q|q n]; cbn; [done|..]; intuition auto. by rewrite Hlen.
Qed.
Lemma length_updateWhere n f t : length (updateWhere n f t) = length t.
Proof. apply length_map. Qed.
Lemma updateWhere_fwd n role t r : r ∈ t → ∃ r', r' ∈ updateWhere n (set_imported role true) t ∧ segment_no r' = segment_no r ∧ exporter_role r' = exporter_role r.
Proof.
  intros Hr. exists (if segment_no r =? n then set_imported role true r else r). split; [apply elem_of_updateWhere; eauto|].
  by destruct (segment_no r =? n).
Qed.
Lemma importerOk_mark_other m t role role' i n : isImporterRole role = true → role' ≠ role → importerOk m t role' i →
  importerOk m (updateWhere n (set_imported role true) t) role' i.
Proof.
  intros Hrole Hne. assert (∀ k, readsNext m t role' k → readsNext m (updateWhere n (set_imported role true) t) role' k) as Hk.
  { intros k. apply readsNext_rows; [apply length_updateWhere| |by apply updateWhere_fwd].
    intros r' (r & Hr & E & _ & _ & _ & N & I)%updateWhere_imported; [|done]. exists r. split_and!; try done.
    rewrite I. by rewrite decide_False by (intros [? _]; done). }
  destruct i as [|q|q k]; cbn; [done|..]; intuition auto. by rewrite length_updateWhere.
Qed.
Lemma readsNext_mark m t role n : isImporterRole role = true → readsNext m t role n → n < Z.of_nat (length t) →
  readsNext m (updateWhere n (set_imported role true) t) role (n + 1).
Proof.
  intros Hrole (Hn & Hfb & Hall) Hlt. split; [rewrite length_updateWhere; lia|]. split.
  - intros Hr. destruct (Hfb Hr) as (r & Hin & ? & ?). destruct (updateWhere_fwd n role t r Hin) as (r' & ? & ? & ?). exists r'. split_and!; [done|lia|congruence].
  - intros r' (r & Hr & E & _ & _ & _ & N & I)%updateWhere_imported; [|done]. destruct (Hall r Hr) as [H1 H2]. rewrite E, I, !N.
    destruct (decide (role = role ∧ segment_no r = n)) as [ [_ ?]|Hd]; [split; [lia|done]|].
    assert (segment_no r ≠ n) by (intros ?; by apply Hd). split; intros; [apply H1; lia|apply H2; [lia|done] ].
Qed.

(** *** The files *)
Definition placeOk (m : MigrationStatusRecord) (s : system) (r : Row) : Prop :=
  let n := segment_no r in
  (files (shared s) !! pathOf n = Some (written s n) ∧ archived r = false) ∨
  (cleaned s = true ∧ allImported m r ∧ files (shared s) !! pathOf n = None ∧ keptAt (archiveOf (segOf n)) (written s n) (files (shared s))).
Definition todoOk (m : MigrationStatusRecord) (s : system) : Prop :=
  ∀ l seg, todo s = Some l → seg ∈ l → ∃ r, r ∈ segs (shared s) ∧ seg = segOf (segment_no r) ∧ allImported m r.
Record Inv (m : MigrationStatusRecord) (s : system) : Prop := mkInv {
  v_msr : msr (shared s) = Some m;
  v_table : TInv m (segs (shared s)) (closed s);
  v_importers : ∀ role, importerOk m (segs (shared s)) role (importers s role);
  v_nofile : ∀ n, Z.of_nat (length (segs (shared s))) ≤ n → files (shared s) !! pathOf n = None;
  v_place : ∀ r, r ∈ segs (shared s) → placeOk m s r;
  v_todo : todoOk m s }.
Lemma keptAt_insert a p c c' (fs : gmap string string) : a ≠ Some p → keptAt a c fs → keptAt a c (<[p:=c']> fs).
Proof. destruct a as [a|]; [|done]. cbn. intros Hne H. by rewrite lookup_insert_ne by congruence. Qed.
(** Somebody needs every segment. *)
Lemma someone_needs m r : rowRole m r → ∃ role, needs m role r.
Proof.
  intros [H|[(H & Hf & _)|(H & _)] ]; unfold needs; [exists TARGET_DB_IMPORTER_ROLE|exists SOURCE_REPLICA_DB_IMPORTER_ROLE|exists SOURCE_DB_IMPORTER_ROLE];
    rewrite H; tauto.
Qed.
Lemma columns_T r : imported_by TARGET_DB_IMPORTER_ROLE r = Some (imported_by_target_db_importer r).
Proof. done. Qed.
Lemma columns_R r : imported_by SOURCE_REPLICA_DB_IMPORTER_ROLE r = Some (imported_by_source_replica_db_importer r).
Proof. done. Qed.
Lemma columns_S r : imported_by SOURCE_DB_IMPORTER_ROLE r = Some (imported_by_source_db_importer r).
Proof. done. Qed.
Lemma processed_allImported m t cl r : TInv m t cl → r ∈ t → processedPredicate (importCountOf m) r = true → allImported m r.
Proof.
  intros H Hr [ [Hp _]%andb_true_iff _]%andb_true_iff.
  assert (∀ role, imported_by role r = Some true → needs m role r) as Hneed by (intros role Hi; by apply (t_imp _ _ _ H role)).
  pose proof (Hneed TARGET_DB_IMPORTER_ROLE) as NT. pose proof (Hneed SOURCE_REPLICA_DB_IMPORTER_ROLE) as NR. pose proof (Hneed SOURCE_DB_IMPORTER_ROLE) as NS.
  clear Hneed. unfold allImported, needs in *. rewrite columns_T in NT. rewrite columns_R in NR. rewrite columns_S in NS.
  destruct (t_role _ _ _ H r Hr) as [Ho|[(Ho & Hf & _)|(Ho & Hb & _)] ]; unfold bySource, byTarget, importedSum, importedBackSum, importCountOf in Hp; rewrite Ho in *.
  - change (bool_decide (SOURCE_DB_EXPORTER_ROLE = SOURCE_DB_EXPORTER_ROLE)) with true in Hp.
    change (sql_like "target_db_exporter%" SOURCE_DB_EXPORTER_ROLE) with false in Hp. rewrite orb_false_r in Hp.
    assert (imported_by_source_db_importer r = false) as HS.
    { apply not_true_iff_false. intros G. destruct NS as [(_ & [?|[? _] ])|[(? & _)|(? & _)] ]; [by f_equal|roles..]. }
    rewrite HS in Hp. destruct (flag m FallForwardEnabled) eqn:HF.
    + intros role [(_ & [-> |[-> _] ])|[(? & _)|(? & _)] ]; [..|roles|roles]; rewrite ?columns_T, ?columns_R; f_equal;
        destruct (imported_by_target_db_importer r), (imported_by_source_replica_db_importer r); first [reflexivity|vm_compute in Hp; discriminate Hp].
    + intros role [(_ & [-> |[-> ?] ])|[(? & _)|(? & _)] ]; [..|roles|roles]; [|done]. rewrite columns_T. f_equal.
      destruct (imported_by_source_replica_db_importer r) eqn:HR.
      { destruct NR as [(_ & [?|[_ ?] ])|[(? & _)|(? & _)] ]; [by f_equal|roles|done|roles|roles]. }
      by destruct (imported_by_target_db_importer r).
  - change (bool_decide (TARGET_DB_EXPORTER_FF_ROLE = SOURCE_DB_EXPORTER_ROLE)) with false in Hp.
    change (sql_like "target_db_exporter%" TARGET_DB_EXPORTER_FF_ROLE) with true in Hp. cbn [andb orb] in Hp.
    assert (imported_by_source_db_importer r = false) as HS.
    { apply not_true_iff_false. intros G. destruct NS as [(? & _)|[(_ & ? & _)|(? & _)] ]; [by f_equal|roles..]. }
    rewrite HS in Hp. intros role [(? & _)|[(_ & -> & _)|(? & _)] ]; [roles| |roles]. rewrite columns_R. by destruct (imported_by_source_replica_db_importer r).
  - change (bool_decide (TARGET_DB_EXPORTER_FB_ROLE = SOURCE_DB_EXPORTER_ROLE)) with false in Hp.
    change (sql_like "target_db_exporter%" TARGET_DB_EXPORTER_FB_ROLE) with true in Hp. cbn [andb orb] in Hp.
    assert (imported_by_source_replica_db_importer r = false) as HR.
    { apply not_true_iff_false. intros G. destruct NR as [(? & _)|[(? & _)|(_ & ?)] ]; [by f_equal|roles..]. }
    rewrite HR in Hp. intros role [(? & _)|[(? & _)|(_ & ->)] ]; [roles|roles|]. rewrite columns_S. by destruct (imported_by_source_db_importer r).
Qed.

(** *** What the queue gives *)
Definition exporterAsked (role : string) : string := if decide (role = SOURCE_DB_IMPORTER_ROLE) then TARGET_DB_EXPORTER_FB_ROLE else "".
Lemma needed_from m t cl role r r' : TInv m t cl → running m role → r ∈ t → r' ∈ t → segment_no r ≤ segment_no r' →
  exporterAsked role = "" ∨ exporter_role r = exporterAsked role → needs m role r'.
Proof.
  intros H (Hrole & Hdet & Hsr & _) Hr Hr' Hle Hx. unfold needs. destruct (importer_role_cases _ Hrole) as [-> |[-> | ->] ].
  - change (flag m CutoverDetectedByTargetImporter = false) in Hdet. destruct (t_role _ _ _ H r' Hr') as [?|[(_ & _ & ?)|(_ & _ & ?)] ]; [tauto|congruence..].
  - specialize (Hsr eq_refl). destruct (t_role _ _ _ H r' Hr') as [?|[(? & _)|(_ & Hb & _)] ]; [tauto..|]. by destruct (t_excl _ _ _ H Hsr Hb).
  - right. right. split; [|done]. destruct Hx as [Hx|Hx]; [by vm_compute in Hx|]. by apply (t_back _ _ _ H r r').
Qed.
Lemma asked_of_needed m role r : needs m role r → exporterAsked role = "" ∨ exporter_role r = exporterAsked role.
Proof.
  intros H. unfold exporterAsked. destruct (decide (role = SOURCE_DB_IMPORTER_ROLE)) as [->|?]; [|by left]. right.
  destruct H as [(_ & [?|[? _] ])|[(_ & ? & _)|(? & _)] ]; [roles..|done].
Qed.
Lemma resume_readsNext m t cl role n : TInv m t cl → running m role →
  GetMinSegmentExportedByAndNotImportedBy role (exporterAsked role) t = Ok n → readsNext m t role n ∧ n < Z.of_nat (length t).
Proof.
  intros H Hrun Hmin. apply GetMin_spec in Hmin as [(r & Hr & <- & Hi & Hx) Hleast]; [|by eapply TInv_wellNumbered].
  destruct (TInv_no _ _ _ _ H Hr) as [Hn _]. split; [|lia]. split; [lia|]. split.
  - intros ->. exists r. split_and!; [done|lia|]. destruct Hx as [Hx|Hx]; [by vm_compute in Hx|exact Hx].
  - intros r' Hr'. split.
    + intros Hle. assert (needs m role r') as Hneed by (by apply (needed_from m t cl role r r')). split; [done|].
      destruct (imported_by_is_Some role r' (proj1 Hrun)) as [[] Hi']; [|done]. assert (imported_by role r = Some true); [|congruence].
      apply (t_down _ _ _ H role r r'); try done. apply (needed_from m t cl role r r); done || lia.
    + intros Hlt Hneed. destruct (imported_by_is_Some role r' (proj1 Hrun)) as [[] Hi']; [done|].
      specialize (Hleast r' Hr' Hi' (asked_of_needed _ _ _ Hneed)). lia.
Qed.
Lemma GetMin_result role x t : isImporterRole role = true →
  (∃ n, GetMinSegmentExportedByAndNotImportedBy role x t = Ok n) ∨ GetMinSegmentExportedByAndNotImportedBy role x t = Err ErrNoQueueSegmentsFound.
Proof. intros Hrole. unfold GetMinSegmentExportedByAndNotImportedBy. rewrite Hrole. cbn [negb]. destruct (filter _ t); eauto. Qed.
Lemma needed_in_queue m s role r : Inv m s → r ∈ segs (shared s) → needs m role r → imported_by role r = Some false →
  files (shared s) !! pathOf (segment_no r) = Some (written s (segment_no r)) ∧ archived r = false.
Proof. intros H Hr Hneed Hi. destruct (v_place _ _ H r Hr) as [?|(_ & Hall & _)]; [done|]. rewrite Hall in Hi; done. Qed.
(** Where the queue stands when it looks for the next segment. *)
Definition standing (m : MigrationStatusRecord) (t : list Row) (role : string) (q : EventQueue) (n : Z) : Prop :=
  readsNext m t role n ∧ (SegmentNumToStream q = n ∨ SegmentNumToStream q = -1 ∧ n < Z.of_nat (length t)).
Lemma GetNextSegment_spec m s role q q' res : Inv m s → importers s role = Idle q →
  GetNextSegment role (segs (shared s)) (files (shared s)) q = Some (q', res) →
  ∃ n, standing m (segs (shared s)) role q n ∧ running m role ∧ QueueDirPath q' = queueDir ∧
    ((n < nextNo s ∧ res = Ok (NewEventQueueSegment (pathOf n) n) ∧ SegmentNumToStream q' = n + 1 ∧
        files (shared s) !! pathOf n = Some (written s n)) ∨
     (n = nextNo s ∧ (∃ e, res = Err e) ∧ SegmentNumToStream q' = n)).
Proof.
  intros H Hq. pose proof (v_importers _ _ H role) as Hok. rewrite Hq in Hok. destruct Hok as (Hrun & Hdir & Hnext). pose proof (v_table _ _ H) as HT.
  assert (∀ n, standing m (segs (shared s)) role q n →
     Some (match files (shared s) !! segmentFilePath (QueueDirPath q) n with
           | None => (mkQueue (QueueDirPath q) n (EndOfQueue q), Err "failed to get next segment file path: file does not exist")
           | Some _ => (mkQueue (QueueDirPath q) (n + 1) (EndOfQueue q), Ok (NewEventQueueSegment (segmentFilePath (QueueDirPath q) n) n))
           end) = Some (q', res) → ∃ n, standing m (segs (shared s)) role q n ∧ running m role ∧ QueueDirPath q' = queueDir ∧
    ((n < nextNo s ∧ res = Ok (NewEventQueueSegment (pathOf n) n) ∧ SegmentNumToStream q' = n + 1 ∧
        files (shared s) !! pathOf n = Some (written s n)) ∨
     (n = nextNo s ∧ (∃ e, res = Err e) ∧ SegmentNumToStream q' = n))) as Hfile.
  { intros n Hst Hres. exists n. split; [done|]. split; [done|]. rewrite Hdir in Hres. change (segmentFilePath queueDir n) with (pathOf n) in Hres.
    destruct Hst as [ [(Hn0 & Hn1) [_ Hall] ] _]. fold (nextNo s) in Hn1. destruct (decide (n = nextNo s)) as [->|Hne].
    - unfold nextNo in Hres. rewrite (v_nofile _ _ H) in Hres by lia. injection Hres as <- <-. split; [done|]. right. split_and!; eauto.
    - unfold nextNo in *. destruct (TInv_at _ _ _ n HT) as (r & Hr & Hno); [lia|]. destruct (Hall r Hr) as [Hge _].
      destruct (Hge ltac:(lia)) as [Hneed Hi]. destruct (needed_in_queue _ _ _ _ H Hr Hneed Hi) as [Hf _]. rewrite Hno in Hf. rewrite Hf in Hres.
      injection Hres as <- <-. split; [done|]. left. split_and!; [lia|done..]. }
  unfold GetNextSegment. destruct (SegmentNumToStream q =? -1) eqn:Hneg.
  - apply Z.eqb_eq in Hneg. unfold resolveSegmentToResumeFrom. fold (exporterAsked role).
    destruct (GetMin_result role (exporterAsked role) (segs (shared s)) (proj1 Hrun)) as [ [n Hn]|Hn]; rewrite Hn; cbn [mbind option_bind].
    + apply Hfile. destruct (resume_readsNext _ _ _ _ _ HT Hrun Hn). split; [done|]. by right.
    + by rewrite decide_True by done.
  - apply Z.eqb_neq in Hneg. cbn [mbind option_bind]. apply Hfile. destruct Hnext as [?|Hnext]; [done|]. split; [done|]. by left.
Qed.

(** *** The invariant under the steps *)
Lemma pathOf_ne n n' : n ≠ n' → pathOf n ≠ pathOf n'.
Proof. intros Hne He. by apply Hne, pathOf_inj. Qed.
Lemma Inv_create m s role : Inv m s → mayExport m role → Inv m (createSegment role s).
Proof.
  intros H Hx. pose proof (v_table _ _ H) as HT. set (n := nextNo s). assert (∀ r, r ∈ segs (shared s) → segment_no r ≠ n) as Hne.
  { intros r Hr. destruct (TInv_no _ _ _ _ HT Hr). unfold n, nextNo. lia. }
  split; cbn.
  - apply (v_msr _ _ H).
  - by apply TInv_create.
  - intros x. by eapply importerOk_create, (v_importers _ _ H).
  - intros k Hk. rewrite length_app in Hk. cbn in Hk. rewrite lookup_insert_ne by (apply pathOf_ne; unfold nextNo; lia). apply (v_nofile _ _ H). lia.
  - intros r [Hr| ->%list_elem_of_singleton]%elem_of_app; unfold placeOk; cbn.
    + specialize (Hne r Hr). rewrite fn_lookup_insert_ne by done. rewrite lookup_insert_ne by (by apply pathOf_ne).
      destruct (v_place _ _ H r Hr) as [?|(? & ? & ? & Hk)]; [by left|right]. split_and!; try done. by apply keptAt_insert.
    + left. by rewrite lookup_insert_eq, fn_lookup_insert.
  - intros l seg Hl Hseg. destruct (v_todo _ _ H l seg Hl Hseg) as (r & Hr & ? & ?). exists r. split; [apply elem_of_app; by left|done].
Qed.
Lemma Inv_write m s r chunk : Inv m s → r ∈ segs (shared s) → closed s (segment_no r) = false → Inv m (writeSegment (segment_no r) chunk s).
Proof.
  intros H Hr Hcl. pose proof (v_table _ _ H) as HT. set (n := segment_no r). split; cbn; try apply H.
  - intros k Hk. destruct (TInv_no _ _ _ _ HT Hr). rewrite lookup_insert_ne by (apply pathOf_ne; unfold n; lia). by apply (v_nofile _ _ H).
  - intros r' Hr'. unfold placeOk. cbn. destruct (decide (segment_no r' = n)) as [He|Hne].
    + assert (r' = r) as -> by (by apply (wellNumbered_inj (segs (shared s)) r' r (TInv_wellNumbered _ _ _ HT))).
      fold n. rewrite lookup_insert_eq, fn_lookup_insert. destruct (v_place _ _ H r Hr) as [ [_ ?]|(_ & Hall & _)]; [by left|].
      destruct (someone_needs m r (t_role _ _ _ HT r Hr)) as [role Hneed]. destruct (t_imp _ _ _ HT role r Hr (Hall role Hneed)). congruence.
    + rewrite fn_lookup_insert_ne by congruence. rewrite lookup_insert_ne by (apply pathOf_ne; congruence).
      destruct (v_place _ _ H r' Hr') as [?|(? & ? & ? & Hk)]; [by left|right]. split_and!; try done. by apply keptAt_insert.
Qed.
Lemma Inv_close m s n : Inv m s → Inv m (closeSegment n s).
Proof. intros H. split; cbn; try apply H. by apply TInv_close, H. Qed.
Lemma allImported_FF m m' r : flag m' FallForwardEnabled = flag m FallForwardEnabled → allImported m r → allImported m' r.
Proof. intros He Hall role. rewrite (needs_FF m m') by done. apply Hall. Qed.
Lemma Inv_record m m' s : Inv m s → TInv m' (segs (shared s)) (closed s) →
  flag m' FallForwardEnabled = flag m FallForwardEnabled ∨ (flag m' FallForwardEnabled = true ∧ cleaned s = false ∧ todo s = None) →
  (∀ role, importerOk m' (segs (shared s)) role (importers s role)) → Inv m' (set_shared (set_msr m' (shared s)) s).
Proof.
  intros H HT Hff Hi. split; cbn; try done; try apply H.
  - intros r Hr. unfold placeOk. cbn. destruct (v_place _ _ H r Hr) as [?|(Hc & Hall & ?)]; [by left|]. right. split_and!; try tauto.
    destruct Hff as [Hff|(_ & ? & _)]; [by apply (allImported_FF m)|congruence].
  - intros l seg Hl Hseg. cbn in *. destruct (v_todo _ _ H l seg Hl Hseg) as (r & ? & ? & Hall). exists r. split_and!; try done.
    destruct Hff as [Hff|(_ & _ & ?)]; [by apply (allImported_FF m)|congruence].
Qed.
Lemma Inv_importer m s role i : Inv m s → importerOk m (segs (shared s)) role i → Inv m (set_importer role i s).
Proof.
  intros H Hi. split; cbn; try apply H. intros x. destruct (decide (x = role)) as [->|?]; [by rewrite fn_lookup_insert|].
  rewrite fn_lookup_insert_ne by done. apply H.
Qed.
Lemma allImported_mark m role n r r' : (∀ m x, needs m x r' ↔ needs m x r) →
  (∀ x, imported_by x r' = if decide (x = role ∧ segment_no r = n) then Some true else imported_by x r) → allImported m r → allImported m r'.
Proof. intros N I Hall x Hx. rewrite I. destruct (decide (x = role ∧ _)); [done|]. apply Hall. by rewrite <- N. Qed.
Lemma Inv_mark m s role q n t i : i = Idle q ∨ i = Stopped → Inv m s → importers s role = Reading q n → closed s n = true →
  markEventQueueSegmentAsProcessed n role (segs (shared s)) = Ok t → Inv m (set_importer role i (set_shared (set_segs t (shared s)) s)).
Proof.
  intros Hidle H Hq Hcl Hmark. pose proof (v_importers _ _ H role) as Hok. rewrite Hq in Hok. destruct Hok as (Hrun & Hdir & Hs & Hnext & Hlt).
  apply mark_Ok in Hmark as (Hrole & -> & _). pose proof (λ r' H, updateWhere_imported n role (segs (shared s)) r' H Hrole) as Ht.
  split; cbn; try apply H.
  - apply TInv_mark; try done. apply H.
  - intros x. destruct (decide (x = role)) as [->|Hx]; [rewrite fn_lookup_insert|rewrite fn_lookup_insert_ne by done].
    + destruct Hidle as [-> | ->]; [|done]. cbn. split_and!; try done. right. rewrite Hs. by apply readsNext_mark.
    + apply importerOk_mark_other; [done..|apply H].
  - rewrite length_updateWhere. apply H.
  - intros r' (r & Hr & E1 & _ & _ & Ha & N & I)%Ht. unfold placeOk. cbn. rewrite E1, Ha.
    destruct (v_place _ _ H r Hr) as [?|(? & Hall & ?)]; [by left|right]. split_and!; try tauto. by eapply allImported_mark.
  - intros l seg Hl Hseg. destruct (v_todo _ _ H l seg Hl Hseg) as (r & Hr & Hsg & Hall).
    exists (if segment_no r =? n then set_imported role true r else r). split; [apply elem_of_updateWhere; eauto|].
    assert (segment_no (if segment_no r =? n then set_imported role true r else r) = segment_no r) as -> by (by destruct (segment_no r =? n)).
    split; [done|]. destruct (segment_no r =? n); [|done]. intros x Hx. rewrite imported_by_set by done. case_decide; [done|]. by apply Hall.
Qed.
Lemma Inv_fetch m s stop processed pending : Inv m s →
  GetProcessedAndPendingSegments (msr (shared s)) (segs (shared s)) = Ok (processed, pending) →
  Inv m (set_todo (Some (segmentsEligibleForCleanup stop processed)) s).
Proof.
  intros H. rewrite (v_msr _ _ H). cbn. intros [= <- <-]. split; cbn; try apply H.
  intros l seg [= <-] Hseg.
  assert (seg ∈ querySegmentsInAscOrder (processedPredicate (importCountOf m)) (segs (shared s))) as Hin.
  { unfold segmentsEligibleForCleanup in Hseg. destruct stop; [done|]. destruct (_ <=? _)%nat; [by apply not_elem_of_nil in Hseg|].
    apply list_elem_of_lookup in Hseg as [i Hi]. apply list_elem_of_lookup. exists i. by apply lookup_take_Some in Hi as [? _]. }
  apply elem_of_query in Hin as (r & Hr & Hp & ->). exists r. destruct (TInv_no _ _ _ _ (v_table _ _ H) Hr) as [_ ->].
  split_and!; [done|done|]. eapply processed_allImported; [apply H|done|done].
Qed.
Lemma onlyArchived_core n a t t' : onlyArchivedChanges n a t t' → map core t' = map core t.
Proof. intros (loc & -> & _). unfold updateWhere. rewrite map_map. apply map_ext. intros r. by destruct (segment_no r =? n). Qed.
Lemma Inv_clean m s seg l fates o w' fates' : Inv m s → todo s = Some (seg :: l) → clean seg (shared s) fates = (o, w', fates') →
  Inv m (mkSystem w' (written s) (closed s) (importers s) (match o with Ret _ => Some l | _ => None end) true).
Proof.
  intros H Htodo Hclean. pose proof (v_table _ _ H) as HT. destruct (v_todo _ _ H _ seg Htodo) as (r0 & Hr0 & -> & Hall0); [by left|].
  set (n := segment_no r0) in *. destruct (clean_law (clean:=clean) (archiveOf:=archiveOf) (segOf n) _ _ _ _ _ (Harchive n n) Hclean) as (Hm & Hfiles & Hsome & Hnone & Hsegs).
  change (FilePath (segOf n)) with (pathOf n) in *. change (Num (segOf n)) with n in *.
  assert (map core (segs w') = map core (segs (shared s))) as Hcore by (destruct Hsegs as [ [-> _]|?]; [done|by eapply onlyArchived_core]).
  assert (∀ k, k ≠ n → files w' !! pathOf k = files (shared s) !! pathOf k) as Hother by (intros k Hk; apply Hfiles; [by apply pathOf_ne|apply Harchive]).
  assert (∀ k c, k ≠ n → keptAt (archiveOf (segOf k)) c (files (shared s)) → keptAt (archiveOf (segOf k)) c (files w')) as Hkept.
  { intros k c Hk. destruct (archiveOf (segOf k)) as [a|] eqn:Ha; [|done]. cbn. intros <-. apply Hfiles.
    - intros ->. by apply (Harchive k n).
    - intros Ha'. by apply Hk, (Hinjective k n a). }
  split; cbn; try done.
  - by rewrite Hm, (v_msr _ _ H).
  - by apply (TInv_core m (segs (shared s))).
  - intros role. by apply (importerOk_core m (segs (shared s))), H.
  - intros k Hk. assert (length (segs w') = length (segs (shared s))) as Hlen by (rewrite <- (length_map core), Hcore; apply length_map).
    rewrite Hlen in Hk. destruct (TInv_no _ _ _ _ HT Hr0). rewrite Hother by (unfold n; lia). by apply (v_nofile _ _ H).
  - intros r' Hr'. destruct (core_transfer _ _ _ Hcore Hr') as (r & Hr & Hc). destruct (core_proj _ _ Hc) as (E1 & E2 & E3 & EI & EN).
    unfold placeOk. cbn. rewrite <- E1. assert (allImported m r → allImported m r') as Hallr by (intros Ha x; rewrite <- EN, <- EI; apply Ha).
    destruct (decide (segment_no r = n)) as [He|Hne].
    + assert (r = r0) as -> by (by apply (wellNumbered_inj _ _ _ (TInv_wellNumbered _ _ _ HT))). fold n.
      destruct (v_place _ _ H r0 Hr0) as [ [Hf Har]|(_ & _ & Hf & Hk)]; fold n in Hf.
      * destruct (Hsome _ Hf) as [(Hf' & Hsame & _)|[Hf' Hk'] ]; [left|right; by auto]. split; [done|].
        rewrite Hsame in Hr'. by rewrite <- (wellNumbered_inj _ _ _ (TInv_wellNumbered _ _ _ HT) Hr0 Hr' E1).
      * right. rewrite (Hnone Hf). by auto.
    + rewrite Hother by done. destruct (v_place _ _ H r Hr) as [ [Hf Har]|(_ & Ha & Hf & Hk)]; [left|right; by auto]. split; [done|].
      destruct Hsegs as [ [Hs _]|(loc & Hs & _)]; rewrite Hs in Hr'; [by rewrite <- (wellNumbered_inj _ _ _ (TInv_wellNumbered _ _ _ HT) Hr Hr' E1)|].
      apply elem_of_updateWhere in Hr' as (r1 & Hr1 & ->). destruct (Z.eqb_spec (segment_no r1) n) as [He1|He1]; [cbn in E1; congruence|].
      by rewrite <- (wellNumbered_inj _ _ _ (TInv_wellNumbered _ _ _ HT) Hr Hr1 E1).
  - intros l' seg Hl Hseg. cbn in *. destruct o; [|done..]. injection Hl as <-. destruct (v_todo _ _ H _ seg Htodo) as (r & Hr & -> & Ha); [by right|].
    destruct (core_transfer (segs w') (segs (shared s)) r) as (r' & Hr' & Hc); [done|done|]. destruct (core_proj _ _ Hc) as (E1 & _ & _ & EI & EN).
    exists r'. rewrite E1. split_and!; try done. intros x. rewrite EN, EI. apply Ha.
Qed.
Lemma flag_route f : f ∈ routeFlags ↔ f = FallForwardEnabled ∨ f = FallbackEnabled ∨ (∃ role, detectedFlag role = Some f ∨ requestedFlag role = Some f).
Proof.
  clear. split.
  - unfold routeFlags. rewrite !elem_of_cons. intros [?|[?|[?|[?|[?|[?|[?|[?|[]%not_elem_of_nil] ] ] ] ] ] ] ]; subst; auto; right; right;
      [exists TARGET_DB_IMPORTER_ROLE|exists SOURCE_REPLICA_DB_IMPORTER_ROLE|exists SOURCE_DB_IMPORTER_ROLE|
       exists TARGET_DB_IMPORTER_ROLE|exists SOURCE_REPLICA_DB_IMPORTER_ROLE|exists SOURCE_DB_IMPORTER_ROLE]; auto.
  - unfold detectedFlag, requestedFlag. intros [->|[->|(role & [H|H])] ]; [set_solver..| |]; repeat case_decide; simplify_eq; set_solver.
Qed.
Lemma sameRoute_flagIf m m' role : sameRoute m m' →
  flagIf m' (detectedFlag role) = flagIf m (detectedFlag role) ∧ flagIf m' (requestedFlag role) = flagIf m (requestedFlag role).
Proof.
  intros Hs. unfold flagIf. destruct (detectedFlag role) eqn:Hd, (requestedFlag role) eqn:Hr; rewrite ?Hs; try done; apply flag_route; eauto 10.
Qed.
Lemma requested_ne role f : requestedFlag role = Some f → f ≠ FallForwardEnabled ∧ f ≠ FallbackEnabled ∧ ∀ x, detectedFlag x ≠ Some f.
Proof. unfold requestedFlag, detectedFlag. intros H. repeat case_decide; simplify_eq; split_and!; try done; intros x; repeat case_decide; done. Qed.
Lemma detected_ne role f : detectedFlag role = Some f → f ≠ FallForwardEnabled ∧ f ≠ FallbackEnabled ∧
  (∀ x, requestedFlag x ≠ Some f) ∧ ∀ x, detectedFlag x = Some f → x = role.
Proof. unfold requestedFlag, detectedFlag. intros H. repeat case_decide; simplify_eq; split_and!; try done; intros x; repeat case_decide; done. Qed.
Lemma Inv_request m s role f fallback : Inv m s → requestedFlag role = Some f → (fallback = true → flag m FallForwardEnabled = false) →
  let m' := set_flag f true (if fallback then set_flag FallbackEnabled true m else m) in Inv m' (set_shared (set_msr m' (shared s)) s).
Proof.
  intros H Hf Hfb m'. destruct (requested_ne _ _ Hf) as (Hff & Hb & Hd).
  assert (∀ g, flag m' g = if decide (g = f) then true else if decide (g = FallbackEnabled) then orb fallback (flag m g) else flag m g) as Hm'.
  { intros g. unfold m'. rewrite flag_set_flag. case_decide; [done|]. destruct fallback; [rewrite flag_set_flag; by case_decide|by case_decide]. }
  assert (∀ g, flag m g = true → flag m' g = true) as Hmono by (intros g Hg; rewrite Hm', Hg; repeat case_decide; by rewrite ?orb_true_r).
  assert (flag m' FallForwardEnabled = flag m FallForwardEnabled) as HFF by (rewrite Hm', decide_False, decide_False by done; done).
  assert (∀ x, flagIf m' (detectedFlag x) = flagIf m (detectedFlag x)) as Hdet.
  { intros x. unfold flagIf. destruct (detectedFlag x) as [g|] eqn:Hx; [|done]. rewrite Hm'. destruct (detected_ne _ _ Hx) as (_ & ? & ? & _).
    rewrite decide_False by (intros ->; by apply (Hd x)). by rewrite decide_False. }
  apply Inv_record with m; [done| |by left|].
  - apply TInv_flags with m; [apply H|by left|..].
    + intros x. rewrite Hdet. intros Hx%(t_det _ _ _ (v_table _ _ H)). unfold flagIf in *. destruct (requestedFlag x); [by apply Hmono|done].
    + rewrite HFF. intros H1 H2. rewrite Hm' in H2. rewrite decide_False, decide_True in H2 by done.
      destruct fallback; [by rewrite Hfb in H1|]. by apply (t_excl _ _ _ (v_table _ _ H)).
    + rewrite HFF. congruence.
  - intros x. apply importerOk_flags with m; [by rewrite HFF|apply Hmono|intros _; by rewrite Hdet|apply H].
Qed.
Lemma Inv_start m s role : Inv m s → mayStart m role s →
  Inv (startRecord role m) (set_importer role (Idle (mkQueue queueDir (-1) false)) (set_shared (set_msr (startRecord role m) (shared s)) s)).
Proof.
  intros H (Hrole & Hstop & Hcut & Hsr & Hs). set (m' := startRecord role m).
  assert (∀ g, flag m' g = if decide (role = SOURCE_REPLICA_DB_IMPORTER_ROLE ∧ g = FallForwardEnabled) then true else flag m g) as Hm'.
  { intros g. unfold m', startRecord. destruct (decide (role = SOURCE_REPLICA_DB_IMPORTER_ROLE)) as [Hr|Hr].
    - rewrite flag_set_flag. destruct (decide (g = FallForwardEnabled)); [by rewrite decide_True|by rewrite decide_False by (by intros [_ ?])].
    - by rewrite decide_False by (by intros [? _]). }
  assert (∀ g, flag m g = true → flag m' g = true) as Hmono by (intros g Hg; rewrite Hm', Hg; by destruct (decide _)).
  assert (∀ g, g ≠ FallForwardEnabled → flag m' g = flag m g) as Hsame by (intros g Hg; rewrite Hm'; by rewrite decide_False by (by intros [_ ?])).
  assert (∀ x, flagIf m' (detectedFlag x) = flagIf m (detectedFlag x) ∧ flagIf m' (requestedFlag x) = flagIf m (requestedFlag x)) as Hif.
  { intros x. unfold flagIf. destruct (detectedFlag x) as [g|] eqn:Hd, (requestedFlag x) as [g'|] eqn:Hr; split; try done; apply Hsame;
      first [by apply (detected_ne x)|by apply (requested_ne x)]. }
  assert (flag m' FallForwardEnabled = flag m FallForwardEnabled ∨ (flag m' FallForwardEnabled = true ∧ cleaned s = false ∧ todo s = None)) as HFF.
  { destruct (decide (role = SOURCE_REPLICA_DB_IMPORTER_ROLE)) as [Hr|Hr].
    - rewrite Hm', decide_True by done. destruct (Hsr Hr) as [_ [->|?] ]; [by left|by right].
    - left. by rewrite Hm', decide_False by (by intros [? _]). }
  assert (∀ x, importerOk m' (segs (shared s)) x (importers s x)) as Hi.
  { intros x. apply importerOk_flags with m; [apply Hmono..|intros _; by destruct (Hif x) as [-> _]|apply H]. }
  apply Inv_importer.
  - apply Inv_record with m; [done| |done|done]. apply TInv_flags with m; [apply H|by left|..].
    + intros x. destruct (Hif x) as [-> ->]. apply (v_table _ _ H).
    + intros H1 H2. rewrite Hsame in H2 by done. destruct (decide (role = SOURCE_REPLICA_DB_IMPORTER_ROLE)) as [Hr|Hr].
      * destruct (Hsr Hr) as [H3 _]. congruence.
      * rewrite Hm', decide_False in H1 by (by intros [? _]). by apply (t_excl _ _ _ (v_table _ _ H)).
    + intros _ H1 r Hr Hi2. destruct (t_imp _ _ _ (v_table _ _ H) _ _ Hr Hi2) as [Hn%needs_SR _]. congruence.
  - cbn. split_and!; [|done|by left]. split_and!; [done|..].
    + destruct (Hif role) as [-> _]. unfold cutoverInitiatedAndCutoverEventProcessed in Hcut. apply not_true_iff_false. intros Hd.
      rewrite (t_det _ _ _ (v_table _ _ H) _ Hd), Hd in Hcut. done.
    + intros Hr. by rewrite Hm', decide_True.
    + intros Hr. by apply Hmono, Hs.
Qed.
Lemma Inv_cutover m s role q n m' t : Inv m s → importers s role = Reading q n → closed s n = true → flagIf m (requestedFlag role) = true →
  MarkEventQueueSegmentAsProcessedAndUpdateMSRInTxn n role (markDetected role) (Some m) (segs (shared s)) = Ok (Some m', t) →
  Inv m' (set_importer role Stopped (set_shared (set_msr m' (set_segs t (shared s))) s)).
Proof.
  intros H Hq Hcl Hreq (stored & (m1 & Hd & [= <-])%bind_Ok & (t1 & Ht & [= <- <-])%bind_Ok)%bind_Ok. cbn in Hd.
  unfold markDetected in Hd. destruct (detectedFlag role) as [f|] eqn:Hf; [|done]. injection Hd as <-. destruct (detected_ne _ _ Hf) as (H1 & H2 & H3 & H4).
  pose proof (Inv_mark _ _ _ _ _ _ Stopped (or_intror eq_refl) H Hq Hcl Ht) as HI. set (s1 := set_importer role Stopped _) in HI.
  assert (∀ g, flag (set_flag f true m) g = if decide (g = f) then true else flag m g) as Hm' by (intros g; apply flag_set_flag).
  assert (∀ g, flag m g = true → flag (set_flag f true m) g = true) as Hmono by (intros g Hg; rewrite Hm'; by case_decide).
  assert (∀ x, flagIf (set_flag f true m) (requestedFlag x) = flagIf m (requestedFlag x)) as Hr.
  { intros x. unfold flagIf. destruct (requestedFlag x) as [g|] eqn:Hx; [|done]. rewrite Hm', decide_False; [done|]. intros ->. by apply (H3 x). }
  assert (∀ x, x ≠ role → flagIf (set_flag f true m) (detectedFlag x) = flagIf m (detectedFlag x)) as Hx.
  { intros x Hne. unfold flagIf. destruct (detectedFlag x) as [g|] eqn:Hx; [|done]. rewrite Hm', decide_False; [done|]. intros ->. by apply Hne, H4. }
  assert (flag (set_flag f true m) FallForwardEnabled = flag m FallForwardEnabled) as HFF by (by rewrite Hm', decide_False).
  apply (Inv_record m (set_flag f true m) s1 HI); [|by left|].
  - apply TInv_flags with m; [apply HI|by left|..].
    + intros x. rewrite Hr. destruct (decide (x = role)) as [->|Hne]; [done|]. rewrite Hx by done. apply (t_det _ _ _ (v_table _ _ HI)).
    + rewrite HFF, Hm', decide_False by done. apply (v_table _ _ HI).
    + rewrite HFF. congruence.
  - intros x. apply importerOk_flags with m; [by rewrite HFF|apply Hmono| |apply HI].
    intros Hi. destruct (decide (x = role)) as [->|Hne]; [|by rewrite Hx]. cbn in Hi. by rewrite fn_lookup_insert in Hi.
Qed.
Lemma Inv_initial : Inv newMSR initial.
Proof.
  clear. split; cbn; try done.
  - split; cbn; try done; try (by intros r []%not_elem_of_nil).
    + intros r r' []%not_elem_of_nil.
    + intros role r []%not_elem_of_nil.
    + intros role r r' []%not_elem_of_nil.
    + intros role. unfold flagIf. by destruct (detectedFlag role).
  - intros r []%not_elem_of_nil.
Qed.
Lemma queue_Inv_step m s s' : Inv m s → step s s' → ∃ m', Inv m' s'.
Proof.
  intros H Hstep. pose proof (v_msr _ _ H) as Hm. destruct Hstep as
    [s m1 role Hm1 Hx _|s r chunk Hr Hc|s r _|s m1 role f fallback Hm1 Hf _ Hfb|s m1 m2 Hm1 Hroute|s m1 role Hm1 Hstart
    |s role q q' seg Hq Hn|s role q q' e Hq Hn|s role q n t Hq Hc Hmk|s m1 role q n m2 t Hq Hc Hm1 Hreq Hmk|s role|s stop pr pe Ht Hp|s seg l fs o w' fs' Ht Hcl|s];
    try (rewrite Hm in Hm1; injection Hm1 as <-).
  - exists m. by apply Inv_create.
  - exists m. by apply Inv_write.
  - exists m. by apply Inv_close.
  - eexists. eapply Inv_request; [done|exact Hf|]. intros Hb. by apply Hfb.
  - exists m2. apply Inv_record with m; [done| |left; apply Hroute, flag_route; by left|].
    + apply TInv_flags with m; [apply H|by right|..].
      * intros x. destruct (sameRoute_flagIf _ _ x Hroute) as [-> ->]. apply (v_table _ _ H).
      * rewrite !Hroute by (apply flag_route; auto). apply (v_table _ _ H).
      * rewrite Hroute by (apply flag_route; auto). congruence.
    + intros x. apply importerOk_flags with m; [rewrite Hroute by (apply flag_route; auto); done..| |apply H].
      intros _. by destruct (sameRoute_flagIf _ _ x Hroute) as [-> _].
  - eexists. by apply Inv_start.
  - destruct (GetNextSegment_spec _ _ _ _ _ _ H Hq Hn) as (n & Hst & Hrun & Hdir & [(Hlt & [= ->] & Hs & _)|(_ & [e ?] & _)]); [|done].
    exists m. apply Inv_importer; [done|]. cbn. split_and!; try done. apply Hst.
  - destruct (GetNextSegment_spec _ _ _ _ _ _ H Hq Hn) as (n & Hst & Hrun & Hdir & [(_ & ? & _)|(_ & _ & Hs)]); [done|].
    exists m. apply Inv_importer; [done|]. cbn. split_and!; try done. right. rewrite Hs. apply Hst.
  - exists m. eapply Inv_mark; [by left|done|done|done|done].
  - exists m2. by eapply Inv_cutover.
  - exists m. by apply Inv_importer.
  - exists m. by eapply Inv_fetch.
  - exists m. by eapply Inv_clean.
  - exists m. split; cbn; try apply H. done.
Qed.
Lemma queue_Inv s : reachable s → ∃ m, Inv m s.
Proof.
  intros Hr. assert (∃ m, Inv m initial) as H0 by (exists newMSR; apply Inv_initial). unfold reachable in Hr.
  revert H0. induction Hr as [s|s1 s2 s3 Hs _ IH]; [done|]. intros [m H]. apply IH. by eapply queue_Inv_step.
Qed.
(** An importer reads the segments in order and without a gap, across restarts: the
    segment it is given next is the first one it needs that it has not imported, it and
    all later ones are for this importer, and the file is there with its content; it
    waits only when everything has been imported. *)
Theorem importers_read_in_order (s : system) (m : MigrationStatusRecord) (role : string) (q q' : EventQueue) (res : result EventQueueSegment) :
  reachable s → msr (shared s) = Some m → importers s role = Idle q →
  GetNextSegment role (segs (shared s)) (files (shared s)) q = Some (q', res) →
  ∃ n, 0 ≤ n ≤ nextNo s ∧
    (∀ r, r ∈ segs (shared s) → segment_no r < n → needs m role r → imported_by role r = Some true) ∧
    (∀ r, r ∈ segs (shared s) → n ≤ segment_no r → needs m role r ∧ imported_by role r = Some false) ∧
    (n < nextNo s → res = Ok (NewEventQueueSegment (pathOf n) n) ∧ files (shared s) !! pathOf n = Some (written s n)) ∧
    (n = nextNo s → ∃ e, res = Err e).
Proof.
  intros [m' H]%queue_Inv Hm Hq Hn. assert (m' = m) as -> by (pose proof (v_msr _ _ H); congruence).
  destruct (GetNextSegment_spec _ _ _ _ _ _ H Hq Hn) as (n & [(Hn01 & _ & Hall) _] & _ & _ & Hcase). exists n. split; [exact Hn01|].
  split_and!; [intros r Hr; by apply Hall|intros r Hr; by apply Hall|..].
  - intros Hlt. destruct Hcase as [(_ & ? & _ & ?)|(? & _)]; [done|lia].
  - intros Heq. destruct Hcase as [(? & _)|(_ & ? & _)]; [lia|done].
Qed.
End system.

(** ** A segment is written, imported, archived *)
Definition sampleQueue : string := "/e/data/queue".
Definition sampleConfig : Config := mkConfig PolicyArchive "/arch" 70.
Definition sampleArchiveOf (seg : Segment) : option string := Some (archivePathOf sampleConfig seg).
Notation T := TARGET_DB_IMPORTER_ROLE.
Definition sampleStep : system → system → Prop := step (clean:=archiveAndDeleteSegment sampleConfig) sampleQueue.
Definition s1 : system := set_importer T (Idle (mkQueue sampleQueue (-1) false)) (set_shared (set_msr (startRecord T newMSR) (shared initial)) initial).
Definition s2 : system := createSegment sampleQueue SOURCE_DB_EXPORTER_ROLE s1.
Definition s3 : system := closeSegment 0 (writeSegment sampleQueue 0 "{}" s2).
Definition sampleReading : EventQueue := mkQueue sampleQueue 1 false.
Definition s4 : system := set_importer T (Reading sampleReading 0) s3.
Definition s5 : system :=
  set_importer T (Idle sampleReading) (set_shared (set_segs (updateWhere 0 (set_imported T true) (segs (shared s4))) (shared s4)) s4).
Definition s6 : system := set_todo (Some [mkSegment 0 (segmentFilePath sampleQueue 0)]) s5.
Definition s7 : system :=
  let '(_, w, _) := archiveAndDeleteSegment sampleConfig (mkSegment 0 (segmentFilePath sampleQueue 0)) (shared s6) [] in
  mkSystem w (written s6) (closed s6) (importers s6) (Some []) true.
Lemma sample_s4 : rtc sampleStep initial s4.
Proof.
  eapply rtc_l; [eapply (I_start _ initial newMSR T eq_refl)|].
  { split_and!; done. }
  eapply rtc_l; [eapply (Q_create _ s1 newMSR SOURCE_DB_EXPORTER_ROLE eq_refl)|].
  { by left. }
  { intros r []%not_elem_of_nil. }
  eapply rtc_l; [eapply (Q_write _ s2 (newRow 0 (segmentFilePath sampleQueue 0) SOURCE_DB_EXPORTER_ROLE) "{}"); [by left|done]|].
  eapply rtc_l; [eapply (Q_close _ _ (newRow 0 (segmentFilePath sampleQueue 0) SOURCE_DB_EXPORTER_ROLE)); by left|].
  eapply rtc_l; [|apply rtc_refl].
  eapply (I_next _ s3 T (mkQueue sampleQueue (-1) false) sampleReading (NewEventQueueSegment (segmentFilePath sampleQueue 0) 0)); vm_compute; reflexivity.
Qed.
Lemma sample_s7 : rtc sampleStep initial s7.
Proof.
  transitivity s4; [apply sample_s4|].
  eapply rtc_l; [eapply (I_done _ s4 T sampleReading 0 (updateWhere 0 (set_imported T true) (segs (shared s4)))); vm_compute; reflexivity|].
  eapply rtc_l; [eapply (C_fetch _ s5 true [mkSegment 0 (segmentFilePath sampleQueue 0)] []); vm_compute; reflexivity|].
  eapply rtc_l; [|apply rtc_refl].
  refine (C_clean _ s6 (mkSegment 0 (segmentFilePath sampleQueue 0)) [] [] (Ret tt) (shared s7) [] eq_refl _). vm_compute. reflexivity.
Qed.
Lemma importers_read_in_order_witness :
  ∃ n, GetNextSegment T (segs (shared s5)) (files (shared s5)) sampleReading = Some (sampleReading, Err "failed to get next segment file path: file does not exist") ∧
    (n = 1 → ∀ r, r ∈ segs (shared s5) → segment_no r < n → needs newMSR T r → imported_by T r = Some true).
Proof.
  destruct (importers_read_in_order (clean:=archiveAndDeleteSegment sampleConfig) (archiveOf:=sampleArchiveOf) sampleQueue
    (λ n m, archive_elsewhere sampleConfig sampleQueue n m ltac:(done)) (archive_injective sampleConfig sampleQueue)
    s5 newMSR T sampleReading sampleReading (Err "failed to get next segment file path: file does not exist")) as (n & _ & H & _).
  - eapply rtc_r; [apply sample_s4|]. eapply (I_done _ s4 T sampleReading 0 (updateWhere 0 (set_imported T true) (segs (shared s4)))); vm_compute; reflexivity.
  - reflexivity.
  - reflexivity.
  - vm_compute. reflexivity.
  - exists n. split; [vm_compute; reflexivity|]. intros _. exact H.
Defined.
End QueueSystem.
