(* ===== verification/Cutover.v ===== *)
(** * Cutover (src/yb-voyager/cmd: cutover.go, cutoverStatus.go, common.go 751-844)

    Requests, marks and statuses of a cutover over the migration status record, the
    start of the next iteration over the records of all iterations, and what a command
    does that finds its cutover processed.  The processes that take these steps are in
    CutoverSystem.v. *)
From Stdlib Require Import FunctionalExtensionality.
From stdpp Require Import functions.
From S2P Require Import Prelude SqlName Event MetaDB.
Import SqlName Event MetaDB.

Module Cutover.
(** ** Statuses *)
Definition NOT_INITIATED : string := "NOT_INITIATED".
Definition INITIATED : string := "INITIATED".
Definition COMPLETED : string := "COMPLETED".
Definition GetCutoverStatus (msr : MigrationStatusRecord) : string :=
  let a := flag msr CutoverToTargetRequested in
  let b := flag msr CutoverProcessedBySourceExporter in
  let c := flag msr CutoverProcessedByTargetImporter in
  if negb a then NOT_INITIATED
  else if flag msr FallForwardEnabled && a && b && c && flag msr ExportFromTargetFallForwardStarted then COMPLETED
  else if flag msr FallbackEnabled && a && b && c && flag msr ExportFromTargetFallBackStarted && flag msr ImportDataToSourceStarted then COMPLETED
  else if negb (flag msr FallForwardEnabled) && negb (flag msr FallbackEnabled) && a && b && c then COMPLETED
  else INITIATED.
Definition getCutoverToSourceReplicaStatus (msr : MigrationStatusRecord) : string :=
  let a := flag msr CutoverToSourceReplicaRequested in
  let b := flag msr CutoverToSourceReplicaProcessedByTargetExporter in
  let c := flag msr CutoverToSourceReplicaProcessedBySRImporter in
  if negb a then NOT_INITIATED else if a && b && c then COMPLETED else INITIATED.

(** ** Iterations *)
(** What of the import data status record is carried over to the next iteration. *)
Record CdcConfig : Type := mkCdcConfig {
  TableToCDCPartitionKey : gmap string string; CdcExpressionUniqueIndexTables : list string;
  CdcPartitionKeyOverridesConfig : string; CdcPartitioningStrategyConfig : string }.
Definition noCdcConfig : CdcConfig := mkCdcConfig ∅ [] "" "".
(** The export directories: their migration status records, import data status records
    and name registries. *)
Record world : Type := mkWorld {
  records : gmap string MigrationStatusRecord; statusRecords : gmap string CdcConfig; nameRegistries : gmap string string }.
Definition GetMigrationStatusRecord (dir : string) (w : world) : result MigrationStatusRecord :=
  match records w !! dir with Some m => Ok m | None => Err "failed to get migration status record" end.
Definition UpdateMSR (dir : string) (f : MigrationStatusRecord → MigrationStatusRecord) (w : world) : world :=
  mkWorld (<[dir:=f (default newMSR (records w !! dir))]> (records w)) (statusRecords w) (nameRegistries w).
Definition GetIterationsDir (msr : MigrationStatusRecord) (exportDir : string) : string :=
  (if IsParentMigration msr then exportDir else ParentExportDir msr) +:+ "/live-data-migration-iterations".
Definition GetParentExportDir (msr : MigrationStatusRecord) (exportDir : string) : string :=
  if IsParentMigration msr then exportDir else ParentExportDir msr.
Definition GetIterationExportDir (iterationsDir : string) (iterationNo : Z) : string :=
  iterationsDir +:+ "/live-data-migration-iteration-" +:+ itoa iterationNo +:+ "/export-dir".
Definition isNextIterationStartedIfRequied (exportDir : string) (w : world) : result bool :=
  msr ← GetMigrationStatusRecord exportDir w;
  if negb (flag msr RestartDataMigrationSourceTargetNextIteration) then Ok true
  else if negb (flag msr NextIterationInitialized) then Ok false
  else nextIterationMsr ← GetMigrationStatusRecord (GetIterationExportDir (GetIterationsDir msr exportDir) (IterationNo msr + 1)) w;
       Ok (flag nextIterationMsr ExportDataFromSourceStarted && flag nextIterationMsr ImportDataToTargetStarted).
Definition GetCutoverToSourceStatus (exportDir : string) (w : world) : result string :=
  msr ← GetMigrationStatusRecord exportDir w;
  let a := flag msr CutoverToSourceRequested in
  let b := flag msr CutoverToSourceProcessedByTargetExporter in
  let c := flag msr CutoverToSourceProcessedBySourceImporter in
  if negb a then Ok NOT_INITIATED
  else if a && b && c then started ← isNextIterationStartedIfRequied exportDir w; Ok (if started : bool then COMPLETED else INITIATED)
  else Ok INITIATED.
(** The rows of [cutover status]. *)
Record CutoverStatusRow : Type := mkStatusRow { Direction : string; Status : string; RequestedAt : option Z }.
Definition DIRECTION_SOURCE_TO_TARGET : string := "source → target".
Definition DIRECTION_TARGET_TO_SOURCE : string := "target → source".
Definition DIRECTION_TARGET_TO_SOURCE_REPLICA : string := "target → source-replica".
Definition collectCutoverStatusRows (exportDir : string) (w : world) : result (list CutoverStatusRow) :=
  msr ← GetMigrationStatusRecord exportDir w;
  toSource ← (if flag msr FallbackEnabled then
                toSourceStatus ← GetCutoverToSourceStatus exportDir w;
                Ok [mkStatusRow DIRECTION_TARGET_TO_SOURCE toSourceStatus (CutoverTimings msr ToSourceRequestedAt)]
              else Ok []);
  Ok (mkStatusRow DIRECTION_SOURCE_TO_TARGET (GetCutoverStatus msr) (CutoverTimings msr ToTargetRequestedAt) :: toSource ++
      (if flag msr FallForwardEnabled then
         [mkStatusRow DIRECTION_TARGET_TO_SOURCE_REPLICA (getCutoverToSourceReplicaStatus msr) (CutoverTimings msr ToSourceReplicaRequestedAt)]
       else [])).
Fixpoint collectRowsFrom (exportDir iterationsDir : string) (i : Z) (n : nat) (w : world) : result (list (Z * list CutoverStatusRow)) :=
  match n with
  | O => Ok []
  | S n => rows ← collectCutoverStatusRows (GetIterationExportDir iterationsDir i) w;
           rest ← collectRowsFrom exportDir iterationsDir (i + 1) n w; Ok ((i, rows) :: rest)
  end.
Definition CollectCutoverStatusRowsForAllIterations (exportDir : string) (w : world) : result (list (Z * list CutoverStatusRow)) :=
  msr ← GetMigrationStatusRecord exportDir w;
  if LatestIterationNumber msr =? 0 then Ok []
  else rows ← collectCutoverStatusRows exportDir w;
       rest ← collectRowsFrom exportDir (GetIterationsDir msr exportDir) 1 (Z.to_nat (LatestIterationNumber msr)) w;
       Ok ((0, rows) :: rest).

(** ** Requests *)
Definition iterativeCutoverSupported (msr : MigrationStatusRecord) : bool :=
  flag msr FallbackEnabled && bool_decide (SourceDBType msr = POSTGRESQL).
Definition requestCutover (dbRole : string) (prepareforFallback useYBgRPCConnector restart : bool) (now : Z)
    (record : MigrationStatusRecord) : MigrationStatusRecord :=
  if decide (dbRole = "target") then
    if flag record CutoverToTargetRequested then record
    else let record := set_time ToTargetRequestedAt now (set_flag CutoverToTargetRequested true record) in
         let record := if prepareforFallback then set_flag FallbackEnabled true record else record in
         if useYBgRPCConnector then set_flag UseYBgRPCConnector true record else record
  else if decide (dbRole = "source-replica") then
    if flag record CutoverToSourceReplicaRequested then record
    else set_time ToSourceReplicaRequestedAt now (set_flag CutoverToSourceReplicaRequested true record)
  else if decide (dbRole = "source") then
    if flag record CutoverToSourceRequested then record
    else set_flag RestartDataMigrationSourceTargetNextIteration restart
           (set_time ToSourceRequestedAt now (set_flag CutoverToSourceRequested true record))
  else record.
(** [confirmed]: the answer at the prompt; [restart]: --restart-data-migration-source-target. *)
Definition InitiateCutover (dbRole : string) (prepareforFallback useYBgRPCConnector restart confirmed : bool) (now : Z)
    (msr : MigrationStatusRecord) : result MigrationStatusRecord :=
  if decide ((dbRole = "source" ∨ dbRole = "source-replica") ∧ GetCutoverStatus msr ≠ COMPLETED)
  then Err "cutover to target must be completed before initiating cutover"
  else if negb confirmed then Ok msr
  else if restart && negb (iterativeCutoverSupported msr) then Err "iterative live migration is not supported for this migration"
  else Ok (requestCutover dbRole prepareforFallback useYBgRPCConnector restart now msr).
(** The command [initiate cutover to target]; [validateYBVersion] and [checkSchemaDrift]
    look at the databases. *)
Definition cutoverToTarget (validateYBVersion checkSchemaDrift : result unit) (prepareForFallBack : option bool)
    (useYBgRPCConnector confirmed : bool) (now : Z) (msr : MigrationStatusRecord) : result MigrationStatusRecord :=
  let fallBack := default false prepareForFallBack in
  let fallForward := flag msr FallForwardEnabled in
  if bool_decide (TargetDBType msr = YUGABYTEDB_AMP) && (fallBack || fallForward) then Err "fall-back / fall-forward are not supported for this target"
  else if negb fallForward && bool_decide (prepareForFallBack = None) then Err "missing required flag --prepare-for-fall-back [yes|no]"
  else if fallBack && fallForward then Err "--prepare-for-fall-back is not applicable"
  else (if (fallBack || fallForward) && negb useYBgRPCConnector then validateYBVersion else Ok tt) ;;
       (if negb (flag msr CutoverToTargetRequested) then checkSchemaDrift else Ok tt) ;;
       InitiateCutover "target" fallBack useYBgRPCConnector false confirmed now msr.
Definition cutoverToSource (restart confirmed : bool) (now : Z) : MigrationStatusRecord → result MigrationStatusRecord :=
  InitiateCutover "source" false true restart confirmed now.
Definition cutoverToSourceReplica (confirmed : bool) (now : Z) : MigrationStatusRecord → result MigrationStatusRecord :=
  InitiateCutover "source-replica" false true false confirmed now.

(** ** Marks *)
Definition markProcessed (role : string) (now : Z) (record : MigrationStatusRecord) : result MigrationStatusRecord :=
  if decide (role = SOURCE_DB_EXPORTER_ROLE) then
    Ok (set_time ProcessedBySourceExporterAt now (set_flag CutoverProcessedBySourceExporter true record))
  else if decide (role = TARGET_DB_IMPORTER_ROLE) then
    Ok (set_time ProcessedByTargetImporterAt now (set_flag CutoverProcessedByTargetImporter true record))
  else if decide (role = TARGET_DB_EXPORTER_FF_ROLE) then
    Ok (set_time ToSourceReplicaProcessedByTargetExporterAt now (set_flag CutoverToSourceReplicaProcessedByTargetExporter true record))
  else if decide (role = TARGET_DB_EXPORTER_FB_ROLE) then
    Ok (set_time ToSourceProcessedByTargetExporterAt now (set_flag CutoverToSourceProcessedByTargetExporter true record))
  else if decide (role = SOURCE_REPLICA_DB_IMPORTER_ROLE) then
    Ok (set_time ToSourceReplicaProcessedBySRImporterAt now (set_flag CutoverToSourceReplicaProcessedBySRImporter true record))
  else if decide (role = SOURCE_DB_IMPORTER_ROLE) then
    Ok (set_time ToSourceProcessedBySourceImporterAt now (set_flag CutoverToSourceProcessedBySourceImporter true record))
  else Panic "invalid role".
Definition markCutoverProcessed (role dir : string) (now : Z) (w : world) : result world :=
  m ← markProcessed role now (default newMSR (records w !! dir)); Ok (UpdateMSR dir (λ _, m) w).
Definition processedFlag (role : string) : result MSRFlag :=
  if decide (role = SOURCE_DB_EXPORTER_ROLE) then Ok CutoverProcessedBySourceExporter
  else if decide (role = TARGET_DB_IMPORTER_ROLE) then Ok CutoverProcessedByTargetImporter
  else if decide (role = TARGET_DB_EXPORTER_FF_ROLE) then Ok CutoverToSourceReplicaProcessedByTargetExporter
  else if decide (role = TARGET_DB_EXPORTER_FB_ROLE) then Ok CutoverToSourceProcessedByTargetExporter
  else if decide (role = SOURCE_REPLICA_DB_IMPORTER_ROLE) then Ok CutoverToSourceReplicaProcessedBySRImporter
  else if decide (role = SOURCE_DB_IMPORTER_ROLE) then Ok CutoverToSourceProcessedBySourceImporter
  else Panic "invalid role".
(** [streaming]: the export status file says so. *)
Definition isCutoverAlreadyProcessed (streaming : bool) (role : string) (record : MigrationStatusRecord) : result bool :=
  if negb streaming then Ok false else f ← processedFlag role; Ok (flag record f).
(** The exporter whose mark an importer waits for. *)
Definition correspondingExporter (importerRole : string) : result MSRFlag :=
  if decide (importerRole = SOURCE_DB_IMPORTER_ROLE) then Ok CutoverToSourceProcessedByTargetExporter
  else if decide (importerRole = TARGET_DB_IMPORTER_ROLE) then Ok CutoverProcessedBySourceExporter
  else if decide (importerRole = SOURCE_REPLICA_DB_IMPORTER_ROLE) then Ok CutoverToSourceReplicaProcessedByTargetExporter
  else Err "invalid importer role".
(** The wait: [polls] are the elapsed seconds and the record at each turn; [None]: it is
    waiting still. *)
Definition waitTimeout : Z := 120.
Fixpoint waitUntilCutoverProcessedByCorrespondingExporterForImporter (importerRole : string) (polls : list (Z * MigrationStatusRecord))
    : option (result unit) :=
  match polls with
  | [] => None
  | (elapsed, record) :: polls =>
      if waitTimeout <? elapsed then Some (Err "timeout waiting for cutover export data to complete")
      else match correspondingExporter importerRole with
           | Ok f => if flag record f then Some (Ok tt)
                     else waitUntilCutoverProcessedByCorrespondingExporterForImporter importerRole polls
           | Err e => Some (Err e)
           | Panic e => Some (Panic e)
           end
  end.
Fixpoint waitUntilNextIterationInitialized (polls : list (Z * MigrationStatusRecord)) : option (result unit) :=
  match polls with
  | [] => None
  | (elapsed, record) :: polls =>
      if waitTimeout <? elapsed then Some (Err "timeout waiting for next iteration to be initialized")
      else if flag record NextIterationInitialized then Some (Ok tt) else waitUntilNextIterationInitialized polls
  end.

(** ** The next iteration *)
(** A command's actions on the directories: it may stop with an error, and be killed
    between any two. *)
Inductive prog : Type :=
  | Return | Raise (msg : string) | Read (k : world → prog) | Write (f : world → world) (k : prog).
Inductive outcome : Type := Finished | Failed (msg : string) | Killed.
(** [env]: what other processes do before each action; at its end the command is killed. *)
Fixpoint exec (p : prog) (env : list (world → world)) (w : world) : outcome * world :=
  match p with
  | Return => (Finished, w)
  | Raise msg => (Failed msg, w)
  | Read k => match env with [] => (Killed, w) | e :: env => exec (k (e w)) env (e w) end
  | Write f k => match env with [] => (Killed, w) | e :: env => exec k env (f (e w)) end
  end.
Definition orRaise {A} (r : result A) (k : A → prog) : prog := match r with Ok a => k a | Err e | Panic e => Raise e end.
Definition CreateMigrationProjectIfNotExists (dir : string) (w : world) : world :=
  mkWorld (<[dir:=default newMSR (records w !! dir)]> (records w)) (<[dir:=default noCdcConfig (statusRecords w !! dir)]> (statusRecords w))
    (nameRegistries w).
Definition set_status (dir : string) (c : CdcConfig) (w : world) : world := mkWorld (records w) (<[dir:=c]> (statusRecords w)) (nameRegistries w).
Definition set_registry (dir : string) (content : string) (w : world) : world :=
  mkWorld (records w) (statusRecords w) (<[dir:=content]> (nameRegistries w)).
Definition CHANGES_ONLY : string := "changes-only".
(** What the record of the next iteration gets; its other fields are kept. *)
Definition carryOver (iterationNo : Z) (currentMSR : MigrationStatusRecord) (exportDir : string) (record : MigrationStatusRecord) : MigrationStatusRecord :=
  mkMSR (flag record) (CutoverTimings record) CHANGES_ONLY (SourceDBType currentMSR) (TargetDBType currentMSR)
    (TableListExportedFromSource currentMSR) (GetParentExportDir currentMSR exportDir) iterationNo (LatestIterationNumber record).
Definition setUpNextIterationMSR (parentDir exportDir : string) (iterationNo : Z) (currentMSR : MigrationStatusRecord) (nextDir : string) (k : prog) : prog :=
  Write (UpdateMSR parentDir (set_LatestIterationNumber iterationNo)) (
  Read (λ w, match statusRecords w !! parentDir with
             | None => Raise "import data status record is not found"
             | Some parentImportDataStatusRecord =>
                 Write (UpdateMSR nextDir (carryOver iterationNo currentMSR exportDir)) (
                 Write (set_status nextDir parentImportDataStatusRecord) k)
             end)).
(** [GetParentMetaDB] is the database of the parent's directory. *)
Definition initializeNextIteration (exportDir : string) : prog :=
  Read (λ w, orRaise (GetMigrationStatusRecord exportDir w) (λ currentMSR,
  if negb (iterativeCutoverSupported currentMSR) then Raise "iterative live migration is not supported for this migration"
  else
    let parentDir := GetParentExportDir currentMSR exportDir in
    let nextIterationNo := IterationNo currentMSR + 1 in
    let nextDir := GetIterationExportDir (GetIterationsDir currentMSR exportDir) nextIterationNo in
    Read (λ w, orRaise (GetMigrationStatusRecord parentDir w) (λ _,
    Write (CreateMigrationProjectIfNotExists nextDir) (
    setUpNextIterationMSR parentDir exportDir nextIterationNo currentMSR nextDir (
    Read (λ w, match nameRegistries w !! exportDir with
               | None => Raise "failed to copy name registry file"
               | Some registry =>
                   Write (set_registry nextDir "") (
                   Write (set_registry nextDir registry) (
                   Write (UpdateMSR exportDir (set_flag NextIterationInitialized true)) Return))
               end))))))).
(** The export directory of a command that is given the parent's. *)
Definition resolveToActiveIterationIfRequired (isFallbackCmd : bool) (exportDir : string) (w : world) : result string :=
  match records w !! exportDir with
  | None => Ok exportDir
  | Some msr =>
      if IsIteration msr || (LatestIterationNumber msr =? 0) then Ok exportDir
      else
        let iterationsDir := GetIterationsDir msr exportDir in
        let iterationExportDir := GetIterationExportDir iterationsDir (LatestIterationNumber msr) in
        match records w !! iterationExportDir with
        | None => Err "iteration export directory does not exist"
        | Some iterationMSR =>
            let latestIterInForwardPhase := bool_decide (GetCutoverStatus iterationMSR = NOT_INITIATED) in
            Ok (if isFallbackCmd && latestIterInForwardPhase then
                  if 1 <? LatestIterationNumber msr then GetIterationExportDir iterationsDir (LatestIterationNumber msr - 1) else exportDir
                else iterationExportDir)
        end
  end.

(** ** Timings *)
Definition secondsOf (ns : Z) : Z := Z.quot ns 1000000000.
Record CutoverTiming : Type := mkTiming { TotalCutoverTimeSec : Z; CutoverType : string }.
Definition timing (type : string) (requestedAt completedAt : option Z) : option CutoverTiming :=
  requestedAt ← requestedAt; completedAt ← completedAt; Some (mkTiming (secondsOf (completedAt - requestedAt)) type).
Definition CalculateCutoverTimingsForTarget (record : MigrationStatusRecord) : option CutoverTiming :=
  if negb (flag record CutoverToTargetRequested) then None
  else
    let ff := flag record FallForwardEnabled in
    let fb := flag record FallbackEnabled in
    let at_ t := CutoverTimings record t in
    let isSet t := bool_decide (is_Some (CutoverTimings record t)) in
    timing "target" (at_ ToTargetRequestedAt)
      (if ff && isSet ExportFromTargetFallForwardStartedAt then at_ ExportFromTargetFallForwardStartedAt
       else if fb && isSet ExportFromTargetFallBackStartedAt then at_ ExportFromTargetFallBackStartedAt
       else if negb ff && negb fb then at_ ProcessedByTargetImporterAt
       else None).
Definition CalculateCutoverTimingsForSource (record : MigrationStatusRecord) : option CutoverTiming :=
  if negb (flag record CutoverToSourceRequested) || negb (flag record CutoverToSourceProcessedBySourceImporter) then None
  else timing "source" (CutoverTimings record ToSourceRequestedAt) (CutoverTimings record ToSourceProcessedBySourceImporterAt).
Definition CalculateCutoverTimingsForSourceReplica (record : MigrationStatusRecord) : option CutoverTiming :=
  if negb (flag record CutoverToSourceReplicaRequested) || negb (flag record CutoverToSourceReplicaProcessedBySRImporter) then None
  else timing "source-replica" (CutoverTimings record ToSourceReplicaRequestedAt) (CutoverTimings record ToSourceReplicaProcessedBySRImporterAt).

(** ** Directories of iterations *)
Definition iterDir (root : string) (n : Z) : string := GetIterationExportDir (root +:+ "/live-data-migration-iterations") n.
Lemma iterDir_inj root n m : iterDir root n = iterDir root m → n = m.
Proof.
  unfold iterDir, GetIterationExportDir. intros H%(inj (String.append _))%(inj (String.append _)). cbn in H.
  apply str_cut in H as [H _]; [by apply (inj itoa)|by apply itoa_has..].
Qed.
Lemma iterDir_ne root n : iterDir root n ≠ root.
Proof.
  intros H%(f_equal String.length). unfold iterDir, GetIterationExportDir in H. rewrite !str_length_app in H. cbn in H. lia.
Qed.
(** The record of a directory says which iteration it is. *)
Definition placed (root dir : string) (m : MigrationStatusRecord) : Prop :=
  (dir = root ∧ ParentExportDir m = "" ∧ IterationNo m = 0) ∨
  (root ≠ "" ∧ ParentExportDir m = root ∧ 0 < IterationNo m ∧ dir = iterDir root (IterationNo m)).
Lemma placed_parent root dir m : placed root dir m → GetParentExportDir m dir = root.
Proof.
  unfold GetParentExportDir, IsParentMigration. intros [(-> & -> & _)|(Hr & -> & _)]; [by rewrite bool_decide_true|by rewrite bool_decide_false].
Qed.
Lemma placed_next root dir m n : placed root dir m → GetIterationExportDir (GetIterationsDir m dir) n = iterDir root n.
Proof.
  unfold GetIterationsDir, IsParentMigration. intros [(-> & -> & _)|(Hr & -> & _)]; [by rewrite bool_decide_true|by rewrite bool_decide_false].
Qed.
Lemma placed_no root dir m : placed root dir m → 0 ≤ IterationNo m.
Proof. intros [(_ & _ & ->)|(_ & _ & ? & _)]; lia. Qed.
Lemma placed_fresh root dir m : placed root dir m → iterDir root (IterationNo m + 1) ≠ dir.
Proof.
  intros [(-> & _ & _)|(_ & _ & _ & ->)]; [apply iterDir_ne|]. intros H%iterDir_inj. lia.
Qed.
Lemma records_UpdateMSR a f w d :
  records (UpdateMSR a f w) !! d = if decide (d = a) then Some (f (default newMSR (records w !! a))) else records w !! d.
Proof. cbn. case_decide; subst; [by rewrite lookup_insert_eq|by rewrite lookup_insert_ne]. Qed.
Lemma world_eq w w' : (∀ d, records w !! d = records w' !! d) → (∀ d, statusRecords w !! d = statusRecords w' !! d) →
  (∀ d, nameRegistries w !! d = nameRegistries w' !! d) → w = w'.
Proof. destruct w, w'; cbn. intros ?%map_eq ?%map_eq ?%map_eq. by subst. Qed.

(** A property of the directories that every write of a command keeps. *)
Fixpoint keeps (I : world → Prop) (p : prog) : Prop :=
  match p with
  | Return | Raise _ => True
  | Read k => ∀ w, I w → keeps I (k w)
  | Write f k => (∀ w, I w → I (f w)) ∧ keeps I k
  end.
Lemma exec_keeps I p env w : keeps I p → (∀ e, e ∈ env → ∀ w, I w → I (e w)) → I w → I (exec p env w).2.
Proof.
  revert env w. induction p as [|e|k IH|f k IH]; intros env w Hp He Hw; cbn [exec keeps] in *; [done|done|..].
  - destruct env as [|e env]; [done|]. assert (I (e w)) by (apply He; [left|done]). apply IH; [by apply Hp|intros e' ?; apply He; by right|done].
  - destruct env as [|e env]; [done|]. destruct Hp as [Hf Hk]. apply IH; [done|intros e' ?; apply He; by right|]. apply Hf, He; [left|done].
Qed.
(** A flag that is set stays so. *)
Definition grows (m m' : MigrationStatusRecord) : Prop := ∀ f, flag m f = true → flag m' f = true.
Lemma grows_refl m : grows m m.
Proof. by intros f. Qed.
Lemma grows_trans m1 m2 m3 : grows m1 m2 → grows m2 m3 → grows m1 m3.
Proof. intros H1 H2 f Hf. by apply H2, H1. Qed.
Lemma grows_set f m m' : grows m m' → grows m (set_flag f true m').
Proof. intros H g Hg. rewrite flag_set_flag. case_decide; [done|by apply H]. Qed.
Lemma grows_time t now m m' : grows m m' → grows m (set_time t now m').
Proof. done. Qed.
Create HintDb cutover.
#[export] Hint Resolve grows_refl grows_set grows_time : cutover.
(** An initialisation, wherever it is stopped, sets no flag of its iteration but one, and
    resets no flag of any. *)
Definition initialising (root dir : string) (m : MigrationStatusRecord) (w w' : world) : Prop :=
  (∃ m', records w' !! dir = Some m' ∧ grows m m' ∧ (∀ f, f ≠ NextIterationInitialized → flag m' f = flag m f) ∧
     ParentExportDir m' = ParentExportDir m ∧ IterationNo m' = IterationNo m) ∧
  ∀ d md, d ≠ dir → records w !! d = Some md → ∃ md', records w' !! d = Some md' ∧ grows md md'.
Lemma initialising_update root dir m w w' a f : initialising root dir m w w' → a ≠ dir → (∀ x, grows x (f x)) → initialising root dir m w (UpdateMSR a f w').
Proof.
  intros [(m' & Hm' & H) Ho] Ha Hf. split.
  - exists m'. rewrite records_UpdateMSR, decide_False by done. done.
  - intros d md Hd Hmd. destruct (Ho d md Hd Hmd) as (md' & Hmd' & Hg). rewrite records_UpdateMSR. case_decide; subst; [|eauto].
    eexists. split; [done|]. rewrite Hmd'. by eapply grows_trans.
Qed.
Lemma initialising_here root dir m w w' f : initialising root dir m w w' → (∀ x, grows x (f x) ∧ (∀ g, g ≠ NextIterationInitialized → flag (f x) g = flag x g) ∧
  ParentExportDir (f x) = ParentExportDir x ∧ IterationNo (f x) = IterationNo x) → initialising root dir m w (UpdateMSR dir f w').
Proof.
  intros [(m' & Hm' & Hg & Hfl & H1 & H2) Ho] Hf. destruct (Hf m') as (G1 & G2 & G3 & G4). split.
  - exists (f m'). rewrite records_UpdateMSR, decide_True, Hm' by done. split; [done|]. split_and!; [by eapply grows_trans| |congruence..].
    intros g ?. by rewrite G2, Hfl.
  - intros d md Hd Hmd. rewrite records_UpdateMSR, decide_False by done. by apply Ho.
Qed.
Lemma initialisation_effect root dir m w k : placed root dir m → records w !! dir = Some m →
  initialising root dir m w (exec (initializeNextIteration dir) (replicate k id) w).2.
Proof.
  intros Hp Hm. apply (exec_keeps (initialising root dir m w)).
  2: { intros e ->%elem_of_replicate_inv. done. }
  2: { split; [exists m; split_and!; first [done|apply grows_refl]|]. intros d md _ Hmd. exists md. by split; [|apply grows_refl]. }
  cbn [keeps initializeNextIteration]. intros w1 Hw1. pose proof Hw1 as [(m1 & Hm1 & _ & _ & H1 & H2) _].
  assert (placed root dir m1) as Hp1 by (unfold placed in *; by rewrite H1, H2).
  unfold GetMigrationStatusRecord. rewrite Hm1. cbn [orRaise]. destruct (negb (iterativeCutoverSupported m1)); [done|].
  rewrite (placed_parent _ _ _ Hp1), (placed_next _ _ _ _ Hp1). pose proof (placed_fresh _ _ _ Hp1) as Hne. set (next := iterDir root (IterationNo m1 + 1)) in *.
  cbn [keeps]. intros w2 Hw2. destruct (records w2 !! root); [|done]. cbn [orRaise keeps setUpNextIterationMSR].
  split; [intros w3 Hw3; apply (initialising_update _ _ _ _ _ next id Hw3); [done|apply grows_refl]|].
  split; [intros w3 Hw3; destruct (decide (root = dir)) as [->|]; [apply initialising_here|apply initialising_update]; try done; intros x; split_and?; first [done|by intros g]|].
  intros w4 Hw4. destruct (statusRecords w4 !! root); [|done]. cbn [keeps].
  split; [intros w5 Hw5; apply initialising_update; try done; intros x; by intros g|]. split; [done|].
  intros w6 Hw6. destruct (nameRegistries w6 !! dir); [|done]. cbn [keeps]. split; [done|]. split; [done|]. split; [|done].
  intros w7 Hw7. apply initialising_here; [done|]. intros x. split_and!; [apply grows_set, grows_refl| |done..].
  intros g Hg. by rewrite flag_set_flag, decide_False.
Qed.

(** ** An interrupted initialisation *)
Section initialisation.
Context (root dir : string) (m : MigrationStatusRecord) (p : CdcConfig) (c : string) (Hplaced : placed root dir m).
Let n : Z := IterationNo m + 1.
Let next : string := iterDir root n.
(** The last stage is the whole effect. *)
Definition stages : list (world → world) :=
  [CreateMigrationProjectIfNotExists next; UpdateMSR root (set_LatestIterationNumber n); UpdateMSR next (carryOver n m dir);
   set_status next p; set_registry next ""; set_registry next c; UpdateMSR dir (set_flag NextIterationInitialized true)].
Definition initialized (w : world) : world := foldl (λ w f, f w) w stages.
(** What the initialisation reads. *)
Definition sameKeys (m' : MigrationStatusRecord) : Prop :=
  (∀ f, f ≠ NextIterationInitialized → flag m' f = flag m f) ∧ SourceDBType m' = SourceDBType m ∧ TargetDBType m' = TargetDBType m ∧
  TableListExportedFromSource m' = TableListExportedFromSource m ∧ ParentExportDir m' = ParentExportDir m ∧ IterationNo m' = IterationNo m.
Definition readable (w : world) : Prop :=
  (∃ m', records w !! dir = Some m' ∧ sameKeys m') ∧ is_Some (records w !! root) ∧
  statusRecords w !! root = Some p ∧ nameRegistries w !! dir = Some c.
Lemma sameKeys_carryOver m' : sameKeys m' → carryOver n m' dir = carryOver n m dir.
Proof. intros (_ & H1 & H2 & H3 & H4 & H5). unfold carryOver, GetParentExportDir, IsParentMigration. by rewrite H1, H2, H3, H4. Qed.
Lemma sameKeys_placed m' : sameKeys m' → placed root dir m'.
Proof. intros (_ & _ & _ & _ & H4 & H5). unfold placed. by rewrite H4, H5. Qed.
Lemma sameKeys_supported m' : sameKeys m' → iterativeCutoverSupported m' = iterativeCutoverSupported m.
Proof. intros (H0 & H1 & _). unfold iterativeCutoverSupported. by rewrite H0, H1. Qed.
Definition stageAfter (k : nat) : nat := match k with 0 | 1 | 2 => 0 | 3 => 1 | 4 | 5 => 2 | 6 => 3 | 7 | 8 => 4 | 9 => 5 | 10 => 6 | _ => 7 end%nat.
Lemma next_ne : next ≠ root ∧ next ≠ dir.
Proof. split; [apply iterDir_ne|by apply placed_fresh]. Qed.
Lemma exec_stages k w : readable w → iterativeCutoverSupported m = true →
  exec (initializeNextIteration dir) (replicate k id) w =
  (if (k <? 11)%nat then Killed else Finished, foldl (λ w f, f w) w (take (stageAfter k) stages)).
Proof.
  intros [(m' & Hm' & Hk) [ [mr Hroot] [Hst Hreg] ] ] Hs. destruct next_ne as [Hnr Hnd]. unfold initializeNextIteration.
  unfold id. destruct k; [done|]. cbn [exec replicate]. unfold GetMigrationStatusRecord at 1. rewrite Hm'. cbn [orRaise].
  rewrite (sameKeys_supported _ Hk), Hs. cbn [negb]. rewrite (placed_parent _ _ _ (sameKeys_placed _ Hk)), (placed_next _ _ _ _ (sameKeys_placed _ Hk)).
  assert (IterationNo m' = IterationNo m) as -> by apply Hk. fold n. fold next.
  destruct k; [done|]. cbn [exec replicate]. unfold GetMigrationStatusRecord. rewrite Hroot. cbn [orRaise].
  destruct k; [done|]. cbn [exec replicate]. unfold setUpNextIterationMSR. rewrite (sameKeys_carryOver _ Hk).
  do 2 (destruct k; [done|]; cbn [exec replicate]). cbn [statusRecords UpdateMSR CreateMigrationProjectIfNotExists].
  rewrite lookup_insert_ne, Hst by done.
  do 3 (destruct k; [done|]; cbn [exec replicate]). cbn [nameRegistries set_status UpdateMSR CreateMigrationProjectIfNotExists].
  rewrite Hreg. do 3 (destruct k; [done|]; cbn [exec replicate]). done.
Qed.
Definition stageWorld (j : nat) (w : world) : world := foldl (λ w f, f w) w (take j stages).
Lemma insert_twice (f : MSRFlag) (b : bool) (g : MSRFlag → bool) : <[f:=b]> (<[f:=b]> g) = <[f:=b]> g.
Proof. apply functional_extensionality. intros x. destruct (decide (x = f)) as [->|?]; [by rewrite !fn_lookup_insert|by rewrite !fn_lookup_insert_ne by done]. Qed.
(** Whatever stage it was interrupted at, all that it would do from the start again
    comes to the same. *)
Lemma stage_initialized j w m' : records w !! dir = Some m' → initialized (stageWorld j w) = initialized w.
Proof.
  intros Hm'. destruct next_ne as [Hnr Hnd]. unfold initialized, stageWorld, stages. clearbody n next. clear Hplaced.
  do 8 (try destruct j as [|j]); cbn [foldl take]; apply world_eq; intros d;
    cbn [records statusRecords nameRegistries UpdateMSR set_status set_registry CreateMigrationProjectIfNotExists];
    rewrite ?lookup_insert; repeat case_decide; subst; rewrite ?Hm'; try done;
    unfold set_flag, set_LatestIterationNumber; cbn; by rewrite insert_twice.
Qed.
Lemma stage_records j w d : is_Some (records w !! dir) → is_Some (records w !! root) →
  records (stageWorld j w) !! d =
  if decide (d = next) then
    match j with
    | 0%nat => records w !! next
    | _ => Some ((if (3 <=? j)%nat then carryOver n m dir else id) (default newMSR (records w !! next)))
    end
  else (λ x, (if (7 <=? j)%nat && bool_decide (d = dir) then set_flag NextIterationInitialized true else id)
               ((if (2 <=? j)%nat && bool_decide (d = root) then set_LatestIterationNumber n else id) x)) <$> records w !! d.
Proof.
  intros [m' Hm'] [mr Hr]. destruct next_ne as [Hnr Hnd]. unfold stageWorld, stages. clearbody n next. clear Hplaced.
  do 8 (try destruct j as [|j]); cbn [foldl take records UpdateMSR set_status set_registry CreateMigrationProjectIfNotExists Nat.leb andb];
    rewrite ?lookup_insert; repeat case_bool_decide; repeat case_decide; subst; rewrite ?Hm', ?Hr; cbn; try done; try congruence;
    by destruct (records w !! d).
Qed.
Lemma stage_files j w : statusRecords (stageWorld j w) !! root = statusRecords w !! root ∧ nameRegistries (stageWorld j w) !! dir = nameRegistries w !! dir.
Proof.
  destruct next_ne as [Hnr Hnd]. unfold stageWorld, stages. clearbody n next. clear Hplaced.
  do 8 (try destruct j as [|j]); cbn [foldl take statusRecords nameRegistries UpdateMSR set_status set_registry CreateMigrationProjectIfNotExists];
    by rewrite ?lookup_insert_ne by done.
Qed.
Lemma stage_readable j w : readable w → readable (stageWorld j w).
Proof.
  intros [(m' & Hm' & Hk) [Hroot [Hst Hreg] ] ]. destruct next_ne as [Hnr Hnd], (stage_files j w) as [Hs Hr]. unfold readable.
  rewrite Hs, Hr, !stage_records, !(decide_False (P:=_ = next)) by (rewrite ?Hm'; eauto). split_and!; [|by apply fmap_is_Some|done..].
  rewrite Hm'. cbn [fmap option_fmap option_map]. eexists. split; [done|].
  destruct ((7 <=? j)%nat && _), ((2 <=? j)%nat && _); try exact Hk; destruct Hk as [Hf Hk]; (split; [|exact Hk]); intros f Hne;
    unfold id; rewrite ?flag_set_flag, ?decide_False by done; by apply Hf.
Qed.
(** The command that is given the parent's directory comes back to the interrupted iteration. *)
Lemma stage_resolves j w mr m' : records w !! dir = Some m' → sameKeys m' → flag m CutoverToTargetRequested = true →
  records w !! root = Some mr → ParentExportDir mr = "" → LatestIterationNumber mr = IterationNo m →
  (∀ x, records w !! next = Some x → flag x CutoverToTargetRequested = false) →
  resolveToActiveIterationIfRequired true root (stageWorld j w) = Ok dir.
Proof.
  intros Hm' Hk Hreq Hmr Hpar Hlat Hnext. destruct next_ne as [Hnr Hnd]. pose proof (placed_no _ _ _ Hplaced) as Hno. unfold resolveToActiveIterationIfRequired.
  assert (∀ d, records (stageWorld j w) !! d = _) as Hrec by (intros d; apply stage_records; eauto).
  assert (GetCutoverStatus m' ≠ NOT_INITIATED) as Hst'.
  { unfold GetCutoverStatus. destruct Hk as [Hf _]. rewrite (Hf CutoverToTargetRequested), Hreq by done. cbn [negb]. by repeat case_match. }
  assert (∀ b x, LatestIterationNumber ((if b : bool then set_flag NextIterationInitialized true else id) x) = LatestIterationNumber x) as Hlatest by (by intros []).
  rewrite (Hrec root), (decide_False (P:=_ = next)), Hmr by done. cbn [fmap option_fmap option_map].
  assert (∀ b b' (x : MigrationStatusRecord), ParentExportDir x = "" →
    ParentExportDir ((if b : bool then set_flag NextIterationInitialized true else id) ((if b' : bool then set_LatestIterationNumber n else id) x)) = "") as Hpe by (by intros [] []).
  unfold IsIteration, GetIterationsDir, IsParentMigration. rewrite (Hpe _ _ _ Hpar), bool_decide_true, Hlatest by done. cbn [negb orb].
  destruct (Nat.leb_spec 2 j) as [Hj|Hj]; cbn [andb].
  - rewrite bool_decide_true by done. cbn [LatestIterationNumber set_LatestIterationNumber].
    destruct (Z.eqb_spec n 0) as [?|_]; [lia|]. change (GetIterationExportDir _ n) with next. rewrite (Hrec next), decide_True by done.
    destruct j as [|j]; [lia|]. assert (flag (default newMSR (records w !! next)) CutoverToTargetRequested = false) as Hf.
    { destruct (records w !! next) eqn:Hx; [by eapply Hnext|done]. }
    assert (∀ b (x : MigrationStatusRecord), flag ((if b : bool then carryOver n m dir else id) x) = flag x) as Hcarry by (by intros []).
    rewrite bool_decide_true by (unfold GetCutoverStatus; by rewrite Hcarry, Hf). cbn [andb].
    destruct Hplaced as [(-> & _ & H0)|(_ & _ & Hpos & ->)].
    + destruct (Z.ltb_spec 1 n) as [?|_]; [lia|done].
    + destruct (Z.ltb_spec 1 n) as [_|?]; [|lia]. f_equal. unfold iterDir. f_equal. lia.
  - assert ((7 <=? j)%nat = false) as H7 by (apply Nat.leb_gt; lia). unfold id. rewrite Hlat.
    destruct Hplaced as [(-> & _ & ->)|(_ & _ & Hpos & Hd)]; [done|]. destruct (Z.eqb_spec (IterationNo m) 0) as [?|_]; [lia|].
    change (GetIterationExportDir _ (IterationNo m)) with (iterDir root (IterationNo m)). rewrite <- Hd, (Hrec dir), decide_False, Hm', H7 by done.
    destruct (Nat.leb_spec 2 j) as [?|_]; [lia|]. cbn. unfold id. rewrite bool_decide_false by done. done.
Qed.
End initialisation.
(** The parent's migration in its fall-back phase. *)
Definition parentRecord : MigrationStatusRecord :=
  mkMSR (λ f, bool_decide (f ∈ [FallbackEnabled; CutoverToTargetRequested; CutoverToSourceRequested; RestartDataMigrationSourceTargetNextIteration]))
    (λ _, None) "snapshot-and-changes" POSTGRESQL "yugabytedb" ["public.foo"] "" 0 0.
Definition parentWorld : world := mkWorld {[ "/e" := parentRecord ]} {[ "/e" := noCdcConfig ]} {[ "/e" := "{}" ]}.
End Cutover.
