(* ===== verification/CutoverSystem.v ===== *)
(** * The cutover of one iteration: commands, exporters and importers

    The processes of one export directory take the steps of Cutover.v on the migration
    status record; every process may be killed at any time and be started again.  What
    the exporter writes and the importer streams is in QueueSystem.v and Streaming.v:
    here the exporter ends when its cutover is requested, and the importer sees the
    cutover event then. *)
From stdpp Require Import functions.
From S2P Require Import Prelude SqlName Event MetaDB EventQueue ArchiveChanges QueueSystem Cutover.
Import SqlName Event MetaDB Cutover.

Set Default Proof Using "Type*".

Module CutoverSystem.
Notation requestedFlag := QueueSystem.requestedFlag.
Notation markDetected := QueueSystem.markDetected.
Notation cutoverInitiatedAndCutoverEventProcessed := QueueSystem.cutoverInitiatedAndCutoverEventProcessed.
(** What a command does that is run again: it goes on, it exits, or it leaves its own work
    out and starts the commands that follow. *)
Inductive entry : Type := Proceed | AlreadyProcessed | StartFurther.
Definition ownStatus (role dir : string) (w : world) : result string :=
  if decide (role = SOURCE_DB_EXPORTER_ROLE ∨ role = TARGET_DB_IMPORTER_ROLE) then
    m ← GetMigrationStatusRecord dir w; Ok (GetCutoverStatus m)
  else if decide (role = TARGET_DB_EXPORTER_FF_ROLE ∨ role = SOURCE_REPLICA_DB_IMPORTER_ROLE) then
    m ← GetMigrationStatusRecord dir w; Ok (getCutoverToSourceReplicaStatus m)
  else GetCutoverToSourceStatus dir w.
(** handleCutoverAlreadyProcessedForImportData, handleCutoverAlreadyProcessedForExportData. *)
Definition handleCutoverAlreadyProcessed (streaming : bool) (role dir : string) (w : world) : result entry :=
  m ← GetMigrationStatusRecord dir w;
  cutoverAlreadyProcessed ← isCutoverAlreadyProcessed streaming role m;
  if negb cutoverAlreadyProcessed then Ok Proceed
  else status ← ownStatus role dir w; Ok (if decide (status = COMPLETED) then AlreadyProcessed else StartFurther).
(** The checks and updates of the record before that. *)
Definition mayRun (role : string) (m : MigrationStatusRecord) : result MigrationStatusRecord :=
  if decide (role = SOURCE_REPLICA_DB_IMPORTER_ROLE) then
    if flag m FallbackEnabled then Err "cannot import data to source-replica. Fall-back workflow is already enabled."
    else if decide (ExportTypeFromSource m = CHANGES_ONLY) then Err "cannot import data to source-replica. Export type is changes-only."
    else Ok (set_flag FallForwardEnabled true m)
  else if decide (role = SOURCE_DB_IMPORTER_ROLE) then
    if flag m FallbackEnabled then Ok m else Err "fallback is not enabled for this migration"
  else if decide (role = TARGET_DB_EXPORTER_FB_ROLE) then
    if flag m FallbackEnabled then Ok m else Err "no fall-forward/back enabled. Exiting..."
  else if decide (role = TARGET_DB_EXPORTER_FF_ROLE) then
    if negb (flag m FallbackEnabled) && flag m FallForwardEnabled then Ok m else Err "no fall-forward/back enabled. Exiting..."
  else if decide (role = SOURCE_DB_EXPORTER_ROLE ∨ role = TARGET_DB_IMPORTER_ROLE) then Ok m
  else Err "unknown role".
(** The marks of a command that has got to its work. *)
Definition markStarted (role : string) (now : Z) (m : MigrationStatusRecord) : MigrationStatusRecord :=
  if decide (role = TARGET_DB_IMPORTER_ROLE) then set_flag ImportDataToTargetStarted true m
  else if decide (role = SOURCE_DB_IMPORTER_ROLE) then set_flag ImportDataToSourceStarted true m
  else if decide (role = SOURCE_DB_EXPORTER_ROLE) then set_flag ExportDataFromSourceStarted true m
  else if decide (role = TARGET_DB_EXPORTER_FB_ROLE ∨ role = TARGET_DB_EXPORTER_FF_ROLE) then
    if flag m ExportFromTargetFallBackStarted || flag m ExportFromTargetFallForwardStarted then m
    else if decide (role = TARGET_DB_EXPORTER_FB_ROLE)
    then set_time ExportFromTargetFallBackStartedAt now (set_flag ExportFromTargetFallBackStarted true m)
    else set_time ExportFromTargetFallForwardStartedAt now (set_flag ExportFromTargetFallForwardStarted true m)
  else m.
Definition workflowEndedForDB (stopSignal : bool) (dir : string) (w : world) : result bool :=
  if stopSignal then Ok true
  else msr ← GetMigrationStatusRecord dir w;
       if negb (bool_decide (GetCutoverStatus msr = COMPLETED)) then Ok false
       else if flag msr FallbackEnabled then status ← GetCutoverToSourceStatus dir w; Ok (bool_decide (status = COMPLETED))
       else if flag msr FallForwardEnabled then Ok (bool_decide (getCutoverToSourceReplicaStatus msr = COMPLETED))
       else Ok true.

(** ** The processes *)
(** [Again]: it starts the commands that follow instead of its own work, which it does
    again if there are none. *)
Inductive pc : Type := Off | Started | Working | Waiting | Further | Again.
(** isFallbackEnabledOrFallForwardEnabled, isNextIterationRequired,
    startFallBackSetupIfRequired, startNextIterationImportDataToTarget. *)
Definition furtherRequired (role : string) (m : MigrationStatusRecord) : bool :=
  (bool_decide (role = TARGET_DB_IMPORTER_ROLE) && (flag m FallForwardEnabled || flag m FallbackEnabled)) ||
  (bool_decide (role = SOURCE_DB_IMPORTER_ROLE) && flag m RestartDataMigrationSourceTargetNextIteration) ||
  (bool_decide (role = SOURCE_DB_EXPORTER_ROLE) && flag m FallbackEnabled) ||
  (bool_decide (role = TARGET_DB_EXPORTER_FB_ROLE) && flag m RestartDataMigrationSourceTargetNextIteration).
Record system : Type := mkSystem { shared : world; pcs : string → pc }.
Section system.
Context (root dir : string).
Definition put (m : MigrationStatusRecord) (w : world) : world := UpdateMSR dir (λ _, m) w.
Definition isExporter (role : string) : Prop :=
  role = SOURCE_DB_EXPORTER_ROLE ∨ role = TARGET_DB_EXPORTER_FF_ROLE ∨ role = TARGET_DB_EXPORTER_FB_ROLE.
(** The request that an exporter's Debezium ends on. *)
Definition endsOn (role : string) : option MSRFlag :=
  if decide (role = SOURCE_DB_EXPORTER_ROLE) then Some CutoverToTargetRequested
  else if decide (role = TARGET_DB_EXPORTER_FF_ROLE) then Some CutoverToSourceReplicaRequested
  else if decide (role = TARGET_DB_EXPORTER_FB_ROLE) then Some CutoverToSourceRequested
  else None.
Inductive userStep : system → system → Prop :=
  | U_target s m m' vYB drift fb rpc yes now : records (shared s) !! dir = Some m →
      cutoverToTarget vYB drift fb rpc yes now m = Ok m' → userStep s (mkSystem (put m' (shared s)) (pcs s))
  | U_source s m m' restart yes now : records (shared s) !! dir = Some m →
      cutoverToSource restart yes now m = Ok m' → userStep s (mkSystem (put m' (shared s)) (pcs s))
  | U_replica s m m' yes now : records (shared s) !! dir = Some m →
      cutoverToSourceReplica yes now m = Ok m' → userStep s (mkSystem (put m' (shared s)) (pcs s)).
Inductive processStep : system → system → Prop :=
  | P_start s role m m' (streaming : bool) e : pcs s role = Off → records (shared s) !! dir = Some m → mayRun role m = Ok m' →
      handleCutoverAlreadyProcessed streaming role dir (put m' (shared s)) = Ok e →
      processStep s (mkSystem (put m' (shared s)) (<[role:=match e with Proceed => Started | AlreadyProcessed => Off | StartFurther => Again end]> (pcs s)))
  | P_work s role m now : pcs s role = Started → records (shared s) !! dir = Some m →
      processStep s (mkSystem (put (markStarted role now m) (shared s)) (<[role:=Working]> (pcs s)))
  | P_exported s role m f m' now : pcs s role = Working → records (shared s) !! dir = Some m → endsOn role = Some f → flag m f = true →
      markProcessed role now m = Ok m' → processStep s (mkSystem (put m' (shared s)) (<[role:=Further]> (pcs s)))
  | P_detected s role m f m' : pcs s role = Working → records (shared s) !! dir = Some m → requestedFlag role = Some f → flag m f = true →
      markDetected role m = Ok m' → processStep s (mkSystem (put m' (shared s)) (pcs s))
  | P_imported s role m m' now : pcs s role = Working → isImporterRole role = true → records (shared s) !! dir = Some m →
      cutoverInitiatedAndCutoverEventProcessed role m = true → markProcessed role now m = Ok m' →
      processStep s (mkSystem (put m' (shared s)) (<[role:=Waiting]> (pcs s)))
  | P_waited s role m elapsed r : pcs s role = Waiting → records (shared s) !! dir = Some m →
      waitUntilCutoverProcessedByCorrespondingExporterForImporter role [(elapsed, m)] = Some r →
      processStep s (mkSystem (shared s) (<[role:=match r with Ok _ => Further | _ => Off end]> (pcs s)))
  | P_again s role m : pcs s role = Again → records (shared s) !! dir = Some m → furtherRequired role m = false →
      processStep s (mkSystem (shared s) (<[role:=Started]> (pcs s)))
  | P_initialise s m k o w' : pcs s SOURCE_DB_IMPORTER_ROLE = Further ∨ pcs s SOURCE_DB_IMPORTER_ROLE = Again → records (shared s) !! dir = Some m →
      flag m RestartDataMigrationSourceTargetNextIteration = true → exec (initializeNextIteration dir) (replicate k id) (shared s) = (o, w') →
      processStep s (mkSystem w' (<[SOURCE_DB_IMPORTER_ROLE:=Off]> (pcs s)))
  | P_end s role : processStep s (mkSystem (shared s) (<[role:=Off]> (pcs s)))
  | P_latest s m n : records (shared s) !! dir = Some m → processStep s (mkSystem (put (set_LatestIterationNumber n m) (shared s)) (pcs s))
  | P_other s d m m' : d ≠ dir → records (shared s) !! d = Some m → grows m m' →
      processStep s (mkSystem (UpdateMSR d (λ _, m') (shared s)) (pcs s)).
Definition step (s s' : system) : Prop := userStep s s' ∨ processStep s s'.
Definition initial (s : system) : Prop :=
  (∃ m, records (shared s) !! dir = Some m ∧ placed root dir m ∧ ∀ f, flag m f = false) ∧ ∀ role, pcs s role = Off.
Definition reachable (s : system) : Prop := ∃ s0, initial s0 ∧ rtc step s0 s.
End system.

(** ** The order of the marks *)
Record OrderInv (m : MigrationStatusRecord) : Prop := mkOrderInv {
  o_workflow : flag m FallForwardEnabled = true → flag m FallbackEnabled = false;
  o_fallback : flag m FallbackEnabled = true → flag m CutoverToTargetRequested = true;
  o_detected : flag m CutoverDetectedByTargetImporter = true → flag m CutoverToTargetRequested = true;
  o_imported : flag m CutoverProcessedByTargetImporter = true → flag m CutoverDetectedByTargetImporter = true;
  o_exported : flag m CutoverProcessedBySourceExporter = true → flag m CutoverToTargetRequested = true;
  o_back : flag m CutoverToSourceRequested = true ∨ flag m CutoverToSourceReplicaRequested = true →
    flag m CutoverProcessedBySourceExporter = true ∧ flag m CutoverProcessedByTargetImporter = true;
  o_restart : flag m RestartDataMigrationSourceTargetNextIteration = true → flag m CutoverToSourceRequested = true ∧ flag m FallbackEnabled = true;
  o_ff : flag m ExportFromTargetFallForwardStarted = true → flag m FallForwardEnabled = true;
  o_fb : flag m ExportFromTargetFallBackStarted = true ∨ flag m ImportDataToSourceStarted = true → flag m FallbackEnabled = true;
  o_toSource : flag m CutoverToSourceProcessedByTargetExporter = true ∨ flag m CutoverToSourceProcessedBySourceImporter = true →
    flag m CutoverToSourceRequested = true ∧ flag m FallbackEnabled = true;
  o_toReplica : flag m CutoverToSourceReplicaProcessedByTargetExporter = true ∨ flag m CutoverToSourceReplicaProcessedBySRImporter = true →
    flag m CutoverToSourceReplicaRequested = true ∧ flag m FallForwardEnabled = true;
  o_replica : flag m CutoverToSourceReplicaProcessedByTargetExporter = true → flag m ExportFromTargetFallForwardStarted = true;
  o_running : flag m CutoverToSourceRequested = true → flag m FallbackEnabled = true →
    flag m ExportFromTargetFallBackStarted = true ∧ flag m ImportDataToSourceStarted = true;
  o_next : flag m NextIterationInitialized = true → flag m RestartDataMigrationSourceTargetNextIteration = true }.
(** The workflow that a role belongs to. *)
Definition inWorkflow (role : string) (m : MigrationStatusRecord) : Prop :=
  role = SOURCE_DB_EXPORTER_ROLE ∨ role = TARGET_DB_IMPORTER_ROLE ∨
  ((role = TARGET_DB_EXPORTER_FB_ROLE ∨ role = SOURCE_DB_IMPORTER_ROLE) ∧ flag m FallbackEnabled = true) ∨
  ((role = TARGET_DB_EXPORTER_FF_ROLE ∨ role = SOURCE_REPLICA_DB_IMPORTER_ROLE) ∧ flag m FallForwardEnabled = true).
(** What a step may do to the record. *)
Record evolves (m m' : MigrationStatusRecord) : Prop := mkEvolves {
  e_grows : grows m m';
  e_fallback : flag m CutoverToTargetRequested = true → flag m' FallbackEnabled = flag m FallbackEnabled;
  e_restart : flag m CutoverToSourceRequested = true →
    flag m' RestartDataMigrationSourceTargetNextIteration = flag m RestartDataMigrationSourceTargetNextIteration;
  e_place : ParentExportDir m' = ParentExportDir m ∧ IterationNo m' = IterationNo m }.
Ltac flags := repeat first [rewrite flag_set_flag | rewrite flag_set_time];
  repeat match goal with
  | |- context [decide (?a = ?b)] => first [rewrite (decide_True (P:=a = b)) by reflexivity | rewrite (decide_False (P:=a = b)) by discriminate]
  end.
(** A record that differs in concrete flags. *)
Ltac ordered := split; [constructor; flags; intuition congruence|constructor; [eauto with cutover|flags; intuition congruence..|done] ].
Lemma evolves_refl m : evolves m m.
Proof. constructor; [apply grows_refl|done..]. Qed.
Lemma requestTarget_ok m fb rpc now : OrderInv m → (fb = true → flag m FallForwardEnabled = false) →
  OrderInv (requestCutover "target" fb rpc false now m) ∧ evolves m (requestCutover "target" fb rpc false now m).
Proof.
  intros Hm Hfb. unfold requestCutover. rewrite decide_True by done. destruct (flag m CutoverToTargetRequested) eqn:Hreq; [by split; [|apply evolves_refl]|].
  destruct Hm.
  destruct fb, rpc; ordered.
Qed.
Lemma completed_marks m : GetCutoverStatus m = COMPLETED → flag m CutoverToTargetRequested = true ∧
  flag m CutoverProcessedBySourceExporter = true ∧ flag m CutoverProcessedByTargetImporter = true ∧
  (flag m FallForwardEnabled = true ∧ flag m ExportFromTargetFallForwardStarted = true ∨
   flag m FallbackEnabled = true ∧ flag m ExportFromTargetFallBackStarted = true ∧ flag m ImportDataToSourceStarted = true ∨
   flag m FallForwardEnabled = false ∧ flag m FallbackEnabled = false).
Proof.
  unfold GetCutoverStatus. destruct (flag m CutoverToTargetRequested), (flag m CutoverProcessedBySourceExporter), (flag m CutoverProcessedByTargetImporter),
    (flag m FallForwardEnabled), (flag m FallbackEnabled), (flag m ExportFromTargetFallForwardStarted), (flag m ExportFromTargetFallBackStarted),
    (flag m ImportDataToSourceStarted); try discriminate; intros _; split_and!; auto.
Qed.
Lemma InitiateCutover_Ok role fb rpc restart yes now m m' : InitiateCutover role fb rpc restart yes now m = Ok m' →
  (role = "source" ∨ role = "source-replica" → GetCutoverStatus m = COMPLETED) ∧ (restart = true → m' ≠ m → flag m FallbackEnabled = true) ∧
  (m' = m ∨ m' = requestCutover role fb rpc restart now m).
Proof.
  unfold InitiateCutover. destruct (decide ((role = "source" ∨ role = "source-replica") ∧ GetCutoverStatus m ≠ COMPLETED)) as [|Hd]; [done|].
  assert (role = "source" ∨ role = "source-replica" → GetCutoverStatus m = COMPLETED) as Hc.
  { intros Hr. destruct (decide (GetCutoverStatus m = COMPLETED)); [done|]. by destruct Hd. }
  destruct yes; cbn [negb]; [|intros [= <-]; split_and!; [done|done|by left] ].
  destruct restart; cbn [andb]; [|intros [= <-]; split_and!; [done|done|by right] ].
  destruct (iterativeCutoverSupported m) eqn:Hs; cbn [negb]; [|done]. intros [= <-]. split_and!; auto.
  intros _ _. by apply andb_true_iff in Hs as [? _].
Qed.
Lemma target_ok vYB drift fb rpc yes now m m' : OrderInv m → cutoverToTarget vYB drift fb rpc yes now m = Ok m' → OrderInv m' ∧ evolves m m'.
Proof.
  intros Hm. unfold cutoverToTarget. destruct (bool_decide _ && _); [done|]. destruct (negb _ && _); [done|].
  destruct (default false fb && flag m FallForwardEnabled) eqn:Hfb; [done|]. intros (_ & _ & (_ & _ & H)%bind_Ok)%bind_Ok.
  apply InitiateCutover_Ok in H as (_ & _ & [-> | ->]); [by split; [|apply evolves_refl]|].
  apply requestTarget_ok; [done|]. intros Ht. rewrite Ht in Hfb. done.
Qed.
Lemma source_ok restart yes now m m' : OrderInv m → cutoverToSource restart yes now m = Ok m' → OrderInv m' ∧ evolves m m'.
Proof.
  intros Hm (Hc & Hr & Hm')%InitiateCutover_Ok. destruct (completed_marks m (Hc ltac:(by left))) as (H1 & H2 & H3 & H4).
  destruct Hm' as [-> |Hm']; [by split; [|apply evolves_refl]|].
  assert (restart = true → m' ≠ m → flag m FallbackEnabled = true) as Hfb by done. clear Hr. unfold requestCutover in Hm'. rewrite !decide_False, decide_True in Hm' by done. destruct (flag m CutoverToSourceRequested) eqn:Hreq; [subst m'; by split; [|apply evolves_refl]|].
  assert (restart = true → flag m FallbackEnabled = true) as Hfb'.
  { intros Hr. apply Hfb; [done|]. intros He. rewrite <- He, Hm' in Hreq. revert Hreq. by flags. }
  clear Hfb. destruct Hm. destruct restart; subst m'; [specialize (Hfb' eq_refl)|]; (split; [constructor; flags; intuition congruence|]).
  - constructor; [eauto with cutover|flags; intuition congruence..|done].
  - constructor; [|flags; intuition congruence..|done]. intros f Hf. flags. repeat case_decide; try done. subst f. intuition congruence.
Qed.
Lemma replica_ok yes now m m' : OrderInv m → cutoverToSourceReplica yes now m = Ok m' → OrderInv m' ∧ evolves m m'.
Proof.
  intros Hm (Hc & _ & Hm')%InitiateCutover_Ok. destruct (completed_marks m (Hc ltac:(by right))) as (H1 & H2 & H3 & H4).
  destruct Hm' as [-> |Hm']; [by split; [|apply evolves_refl]|]. unfold requestCutover in Hm'. rewrite decide_False, decide_True in Hm' by done.
  destruct (flag m CutoverToSourceReplicaRequested) eqn:Hreq; [subst m'; by split; [|apply evolves_refl]|]. destruct Hm. subst m'. ordered.
Qed.
Lemma run_ok role m m' : OrderInv m → mayRun role m = Ok m' → OrderInv m' ∧ evolves m m' ∧ inWorkflow role m'.
Proof.
  intros Hm. unfold mayRun, inWorkflow. destruct (flag m FallbackEnabled) eqn:Hfb.
  - repeat case_decide; intros [= <-]; split_and!; first [done|apply evolves_refl|tauto].
  - case_decide; [case_decide; [done|]; intros [= <-]|].
    + assert (OrderInv (set_flag FallForwardEnabled true m) ∧ evolves m (set_flag FallForwardEnabled true m)) as [? ?] by (destruct Hm; ordered).
      split_and!; [done..|]. flags. tauto.
    + destruct (flag m FallForwardEnabled) eqn:Hff; repeat case_decide; intros [= <-]; split_and!; first [done|apply evolves_refl|tauto].
Qed.
Lemma work_ok role now m : OrderInv m → inWorkflow role m → OrderInv (markStarted role now m) ∧ evolves m (markStarted role now m).
Proof.
  intros Hm Hw. unfold markStarted, inWorkflow in *. destruct Hm.
  destruct (decide (role = TARGET_DB_IMPORTER_ROLE)) as [->|]; [ordered|].
  destruct (decide (role = SOURCE_DB_IMPORTER_ROLE)) as [->|].
  { destruct Hw as [?|[?|[ [_ Hw]|[ [?|?] _] ] ] ]; [roles..| |roles|roles]. ordered. }
  destruct (decide (role = SOURCE_DB_EXPORTER_ROLE)) as [->|]; [ordered|].
  assert (OrderInv m) as Hm by (constructor; done).
  destruct (decide (role = TARGET_DB_EXPORTER_FB_ROLE ∨ role = TARGET_DB_EXPORTER_FF_ROLE)) as [Hr|]; [|by split; [|apply evolves_refl] ].
  destruct (flag m ExportFromTargetFallBackStarted || flag m ExportFromTargetFallForwardStarted) eqn:Hst; [by split; [|apply evolves_refl]|]. clear Hst Hm.
  destruct (decide (role = TARGET_DB_EXPORTER_FB_ROLE)) as [->|].
  - destruct Hw as [?|[?|[ [_ Hw]|[ [?|?] _] ] ] ]; [roles..| |roles|roles]. ordered.
  - destruct Hr as [?| ->]; [done|]. destruct Hw as [?|[?|[ [ [?|?] _]|[_ Hw] ] ] ]; [roles..|]. ordered.
Qed.
Lemma endsOn_roles role f : endsOn role = Some f → (role = SOURCE_DB_EXPORTER_ROLE ∧ f = CutoverToTargetRequested) ∨
  (role = TARGET_DB_EXPORTER_FF_ROLE ∧ f = CutoverToSourceReplicaRequested) ∨ (role = TARGET_DB_EXPORTER_FB_ROLE ∧ f = CutoverToSourceRequested).
Proof. unfold endsOn. repeat case_decide; intros [= <-]; auto. Qed.
Lemma markProcessed_unfold role now m m' : markProcessed role now m = Ok m' → ∃ f t, processedFlag role = Ok f ∧ m' = set_time t now (set_flag f true m).
Proof. unfold markProcessed, processedFlag. repeat case_decide; intros [= <-]; eauto. Qed.
Lemma exported_ok role now m m' f : OrderInv m → inWorkflow role m →
  (role = TARGET_DB_EXPORTER_FF_ROLE → flag m ExportFromTargetFallForwardStarted = true) → endsOn role = Some f → flag m f = true → markProcessed role now m = Ok m' →
  OrderInv m' ∧ evolves m m'.
Proof.
  intros Hm Hw Hff He Hf (g & t & Hg & ->)%markProcessed_unfold. unfold inWorkflow in Hw. destruct Hm.
  apply endsOn_roles in He as [ [-> ->]|[ [-> ->]|[-> ->] ] ]; injection Hg as <-.
  - clear Hff. ordered.
  - specialize (Hff eq_refl). destruct Hw as [?|[?|[ [ [?|?] _]|[_ Hw] ] ] ]; [roles..|]. ordered.
  - destruct Hw as [?|[?|[ [_ Hw]|[ [?|?] _] ] ] ]; [roles..| |roles|roles]. clear Hff. ordered.
Qed.
Lemma detected_ok role f m m' : OrderInv m → requestedFlag role = Some f → flag m f = true → markDetected role m = Ok m' → OrderInv m' ∧ evolves m m'.
Proof.
  intros Hm Hr Hf. unfold QueueSystem.markDetected, QueueSystem.detectedFlag, QueueSystem.requestedFlag in *. destruct Hm.
  destruct (decide (role = TARGET_DB_IMPORTER_ROLE)); [injection Hr as <-; intros [= <-]; ordered|].
  destruct (decide (role = SOURCE_REPLICA_DB_IMPORTER_ROLE)); [injection Hr as <-; intros [= <-]; ordered|].
  destruct (decide (role = SOURCE_DB_IMPORTER_ROLE)); [injection Hr as <-; intros [= <-]; ordered|done].
Qed.
Lemma imported_ok role now m m' : OrderInv m → inWorkflow role m → isImporterRole role = true →
  cutoverInitiatedAndCutoverEventProcessed role m = true → markProcessed role now m = Ok m' → OrderInv m' ∧ evolves m m'.
Proof.
  intros Hm Hw Hi [Hr Hd]%andb_true_iff (g & t & Hg & ->)%markProcessed_unfold. unfold inWorkflow in Hw. destruct Hm.
  apply importer_role_cases in Hi as [-> |[-> | ->] ]; injection Hg as <-; unfold QueueSystem.requestedFlag, QueueSystem.detectedFlag in *.
  - rewrite decide_True in Hr, Hd by done. cbn in Hr, Hd. ordered.
  - rewrite decide_False, decide_True in Hr, Hd by done. cbn in Hr, Hd. destruct Hw as [?|[?|[ [ [?|?] _]|[_ Hw] ] ] ]; [roles..|]. ordered.
  - rewrite !decide_False, decide_True in Hr, Hd by done. cbn in Hr, Hd. destruct Hw as [?|[?|[ [_ Hw]|[ [?|?] _] ] ] ]; [roles..| |roles|roles]. ordered.
Qed.

(** ** The system's invariant *)
Section invariant.
Context (root dir : string).
Notation step := (step dir).
Record SysInv (m : MigrationStatusRecord) (s : system) : Prop := mkSysInv {
  i_record : records (shared s) !! dir = Some m;
  i_placed : placed root dir m;
  i_order : OrderInv m;
  i_roles : ∀ role, pcs s role ≠ Off → inWorkflow role m;
  i_started : pcs s TARGET_DB_EXPORTER_FF_ROLE = Working → flag m ExportFromTargetFallForwardStarted = true }.
(** What a step does to the records. *)
Record moves (m m' : MigrationStatusRecord) (w w' : world) : Prop := mkMoves {
  v_here : evolves m m';
  v_others : ∀ d md, d ≠ dir → records w !! d = Some md → ∃ md', records w' !! d = Some md' ∧ grows md md' }.
Lemma inWorkflow_evolves role m m' : evolves m m' → OrderInv m → inWorkflow role m → inWorkflow role m'.
Proof. intros [Hg _ _ _] _. unfold inWorkflow. intros [?|[?|[ [? ?%Hg]|[? ?%Hg] ] ] ]; tauto. Qed.
Lemma placed_evolves m m' : evolves m m' → placed root dir m → placed root dir m'.
Proof. intros [_ _ _ [H1 H2] ]. unfold placed. by rewrite H1, H2. Qed.
Lemma put_lookup m w d : records (put dir m w) !! d = if decide (d = dir) then Some m else records w !! d.
Proof. apply records_UpdateMSR. Qed.
Lemma put_others m' w d md : d ≠ dir → records w !! d = Some md → ∃ md', records (put dir m' w) !! d = Some md' ∧ grows md md'.
Proof. intros Hd Hmd. exists md. rewrite put_lookup, decide_False by done. by split; [|apply grows_refl]. Qed.
(** A step that puts a record in place and moves one role. *)
Lemma put_ok m m' s role p : SysInv m s → OrderInv m' → evolves m m' → (p ≠ Off → inWorkflow role m') →
  (role = TARGET_DB_EXPORTER_FF_ROLE → p = Working → flag m' ExportFromTargetFallForwardStarted = true) →
  SysInv m' (mkSystem (put dir m' (shared s)) (<[role:=p]> (pcs s))) ∧ moves m m' (shared s) (put dir m' (shared s)).
Proof.
  intros [H1 H2 H3 H4 H5] Ho He Hrole Hst. split; [|split; [done|by apply put_others] ]. constructor; cbn [shared pcs].
  - by rewrite put_lookup, decide_True.
  - by eapply placed_evolves.
  - done.
  - intros x. destruct (decide (x = role)) as [->|]; [by rewrite fn_lookup_insert|rewrite fn_lookup_insert_ne by done].
    intros ?%H4. by eapply inWorkflow_evolves.
  - destruct (decide (TARGET_DB_EXPORTER_FF_ROLE = role)) as [<-|]; [rewrite fn_lookup_insert; by apply Hst|rewrite fn_lookup_insert_ne by done].
    intros ?%H5. by apply He.
Qed.
Lemma put_ok_same m m' s : SysInv m s → OrderInv m' → evolves m m' →
  SysInv m' (mkSystem (put dir m' (shared s)) (pcs s)) ∧ moves m m' (shared s) (put dir m' (shared s)).
Proof.
  intros [H1 H2 H3 H4 H5] Ho He. split; [|split; [done|by apply put_others] ]. constructor; cbn [shared pcs]; [|by eapply placed_evolves|done| |].
  - by rewrite put_lookup, decide_True.
  - intros x ?%H4. by eapply inWorkflow_evolves.
  - intros ?%H5. by apply He.
Qed.
Lemma pc_ok m s role p : SysInv m s → p ≠ Working → (p ≠ Off → inWorkflow role m) →
  SysInv m (mkSystem (shared s) (<[role:=p]> (pcs s))) ∧ moves m m (shared s) (shared s).
Proof.
  intros [H1 H2 H3 H4 H5] Hp Hrole. split; [|split; [apply evolves_refl|intros; eauto using grows_refl] ]. constructor; cbn [shared pcs]; try done.
  - intros x. destruct (decide (x = role)) as [->|]; [by rewrite fn_lookup_insert|rewrite fn_lookup_insert_ne by done]. apply H4.
  - destruct (decide (TARGET_DB_EXPORTER_FF_ROLE = role)) as [<-|]; [by rewrite fn_lookup_insert|rewrite fn_lookup_insert_ne by done]. apply H5.
Qed.
Lemma markStarted_ff now m : OrderInv m → inWorkflow TARGET_DB_EXPORTER_FF_ROLE m →
  flag (markStarted TARGET_DB_EXPORTER_FF_ROLE now m) ExportFromTargetFallForwardStarted = true.
Proof.
  intros Hm [?|[?|[ [ [?|?] _]|[_ Hw] ] ] ]; [roles..|]. unfold markStarted. rewrite !decide_False, decide_True by (done || by right).
  destruct (flag m ExportFromTargetFallBackStarted) eqn:Hfb; cbn [orb].
  - pose proof (o_fb _ Hm (or_introl Hfb)). pose proof (o_workflow _ Hm Hw). congruence.
  - destruct (flag m ExportFromTargetFallForwardStarted) eqn:Hff; [done|]. rewrite decide_False by done. flags. done.
Qed.
Lemma userStep_ok m s s' : SysInv m s → userStep dir s s' → ∃ m', SysInv m' s' ∧ moves m m' (shared s) (shared s').
Proof.
  intros H Hs. pose proof (i_order _ _ H) as Ho. pose proof (i_record _ _ H) as Hr.
  destruct Hs as [s m0 m' vYB drift fb rpc yes now Hm0 Hc|s m0 m' restart yes now Hm0 Hc|s m0 m' yes now Hm0 Hc]; rewrite Hr in Hm0; injection Hm0 as <-;
    exists m'; apply put_ok_same; try done.
  1, 2: by eapply target_ok. 1, 2: by eapply source_ok. all: by eapply replica_ok.
Qed.
Lemma processStep_ok m s s' : SysInv m s → processStep dir s s' → ∃ m', SysInv m' s' ∧ moves m m' (shared s) (shared s').
Proof.
  intros H Hs. pose proof (i_order _ _ H) as Ho. pose proof (i_record _ _ H) as Hr. pose proof (i_roles _ _ H) as Hroles.
  destruct Hs as [s role m0 m' streaming e Hpc Hm0 Hrun Hentry|s role m0 now Hpc Hm0|s role m0 f m' now Hpc Hm0 He Hf Hmark|s role m0 f m' Hpc Hm0 Hq Hf Hmark
    |s role m0 m' now Hpc Hi Hm0 Hc Hmark|s role m0 elapsed r Hpc Hm0 Hw|s role m0 Hpc Hm0 Hfur|s m0 k o w' Hpc Hm0 Hrest Hex|s role|s m0 n Hm0|s d m0 m' Hd Hm0 Hg].
  - rewrite Hr in Hm0; injection Hm0 as <-. destruct (run_ok _ _ _ Ho Hrun) as (H1 & H2 & H3). exists m'. apply put_ok; try done. by destruct e.
  - rewrite Hr in Hm0; injection Hm0 as <-. assert (inWorkflow role m) as Hwf by (apply Hroles; by rewrite Hpc).
    destruct (work_ok role now m Ho Hwf) as [H1 H2]. eexists. apply put_ok; try done; [intros _; by eapply inWorkflow_evolves|]. intros -> _. by apply markStarted_ff.
  - rewrite Hr in Hm0; injection Hm0 as <-. assert (inWorkflow role m) as Hwf by (apply Hroles; by rewrite Hpc).
    destruct (exported_ok role now m m' f) as [H1 H2]; try done; [intros ->; by apply (i_started _ _ H)|].
    exists m'. apply put_ok; try done. intros _. by eapply inWorkflow_evolves.
  - rewrite Hr in Hm0; injection Hm0 as <-. destruct (detected_ok role f m m') as [H1 H2]; try done. exists m'. by apply put_ok_same.
  - rewrite Hr in Hm0; injection Hm0 as <-. assert (inWorkflow role m) as Hwf by (apply Hroles; by rewrite Hpc).
    destruct (imported_ok role now m m') as [H1 H2]; try done. exists m'. apply put_ok; try done. intros _. by eapply inWorkflow_evolves.
  - exists m. apply (pc_ok m s role); [done|by destruct r|]. intros _. apply Hroles. by rewrite Hpc.
  - exists m. apply (pc_ok m s role); [done..|]. intros _. apply Hroles. by rewrite Hpc.
  - rewrite Hr in Hm0; injection Hm0 as <-. pose proof (initialisation_effect root dir m (shared s) k (i_placed _ _ H) Hr) as Hini. rewrite Hex in Hini.
    destruct Hini as [(m' & Hm' & Hg & Hfl & H1 & H2) Hoth]. exists m'. cbn in Hm', Hoth.
    assert (evolves m m') as Hev by (constructor; [done|intros _; by apply Hfl|intros _; by apply Hfl|done]).
    split; [|split; [done|exact Hoth] ]. constructor; cbn [shared pcs]; [done|apply (placed_evolves m); [done|apply H]| | |].
    + destruct Ho. constructor; rewrite ?Hfl by discriminate; try done. intros _. by rewrite (Hfl RestartDataMigrationSourceTargetNextIteration).
    + intros x. destruct (decide (x = SOURCE_DB_IMPORTER_ROLE)) as [->|]; [by rewrite fn_lookup_insert|rewrite fn_lookup_insert_ne by done].
      intros ?%Hroles. by eapply inWorkflow_evolves.
    + rewrite fn_lookup_insert_ne by done. rewrite Hfl by done. apply (i_started _ _ H).
  - exists m. by apply (pc_ok m s role).
  - rewrite Hr in Hm0; injection Hm0 as <-. eexists. apply put_ok_same; [done|by destruct Ho|]. constructor; first [done|by intros f].
  - exists m. split; [|split; [apply evolves_refl|] ].
    + destruct H as [H1 H2 H3 H4 H5]. constructor; cbn [shared pcs]; try done. by rewrite records_UpdateMSR, decide_False.
    + intros d' md Hd' Hmd. cbn [shared]. rewrite records_UpdateMSR. case_decide as Hdd; [subst d'|eauto using grows_refl]. exists m'. split; [done|]. by assert (md = m0) as -> by congruence.
Qed.
Lemma step_ok m s s' : SysInv m s → step s s' → ∃ m', SysInv m' s' ∧ moves m m' (shared s) (shared s').
Proof. intros H [Hs|Hs]; [by eapply userStep_ok|by eapply processStep_ok]. Qed.
Lemma reachable_SysInv s : reachable root dir s → ∃ m, SysInv m s.
Proof.
  intros (s0 & [(m & Hm & Hp & Hf) Hpc] & Hr). assert (∃ m, SysInv m s0) as H0.
  { exists m. constructor; try done; [|intros role Hn; by destruct Hn|by rewrite Hpc]. constructor; rewrite ?Hf; intuition discriminate. }
  clear Hm Hp Hf Hpc m. induction Hr as [s|s1 s2 s3 Hs _ IH]; [done|]. apply IH. destruct H0 as [m H]. destruct (step_ok _ _ _ H Hs) as (m' & ? & _). eauto.
Qed.
End invariant.
End CutoverSystem.
