(* ===== verification/CutoverSafety.v ===== *)
(** * What holds of a cutover

    Over every run of the processes of CutoverSystem.v: how the statuses advance, what
    each mark presupposes, which cutovers cannot complete, and that a requested cutover
    to the target can always be completed. *)
From stdpp Require Import functions.
From S2P Require Import Prelude SqlName Event MetaDB QueueSystem Cutover CutoverSystem.
Import SqlName Event MetaDB Cutover CutoverSystem.

Set Default Proof Using "Type*".

Module CutoverSafety.
Definition rank (status : string) : nat :=
  if decide (status = COMPLETED) then 2 else if decide (status = INITIATED) then 1 else 0.
Lemma rank_values : rank NOT_INITIATED = 0%nat ∧ rank INITIATED = 1%nat ∧ rank COMPLETED = 2%nat.
Proof. done. Qed.
Lemma rank_bounds st : (0 ≤ rank st ≤ 2)%nat.
Proof. unfold rank. repeat case_decide; lia. Qed.
Ltac ranks := cbn [negb andb]; destruct rank_values as (R0 & R1 & R2); rewrite ?R0, ?R1, ?R2; lia.
Definition completed (m : MigrationStatusRecord) : bool :=
  flag m CutoverProcessedBySourceExporter && flag m CutoverProcessedByTargetImporter &&
  (flag m FallForwardEnabled && flag m ExportFromTargetFallForwardStarted ||
   flag m FallbackEnabled && flag m ExportFromTargetFallBackStarted && flag m ImportDataToSourceStarted ||
   negb (flag m FallForwardEnabled) && negb (flag m FallbackEnabled)).
Lemma target_status m : GetCutoverStatus m = if negb (flag m CutoverToTargetRequested) then NOT_INITIATED else if completed m then COMPLETED else INITIATED.
Proof.
  unfold GetCutoverStatus, completed. destruct (flag m CutoverToTargetRequested); [|done]. cbn [negb andb].
  by destruct (flag m CutoverProcessedBySourceExporter), (flag m CutoverProcessedByTargetImporter), (flag m FallForwardEnabled), (flag m FallbackEnabled),
    (flag m ExportFromTargetFallForwardStarted), (flag m ExportFromTargetFallBackStarted), (flag m ImportDataToSourceStarted).
Qed.
Lemma completed_grows m m' : grows m m' → flag m' FallForwardEnabled = flag m FallForwardEnabled → flag m' FallbackEnabled = flag m FallbackEnabled →
  completed m = true → completed m' = true.
Proof.
  intros Hg Hff Hfb. unfold completed. rewrite Hff, Hfb, !andb_true_iff, !orb_true_iff, !andb_true_iff.
  pose proof (Hg CutoverProcessedBySourceExporter). pose proof (Hg CutoverProcessedByTargetImporter). pose proof (Hg ExportFromTargetFallForwardStarted).
  pose proof (Hg ExportFromTargetFallBackStarted). pose proof (Hg ImportDataToSourceStarted). tauto.
Qed.
Lemma rank_target_grows m m' : grows m m' → flag m' FallForwardEnabled = flag m FallForwardEnabled →
  (flag m CutoverToTargetRequested = true → flag m' FallbackEnabled = flag m FallbackEnabled) → (rank (GetCutoverStatus m) ≤ rank (GetCutoverStatus m'))%nat.
Proof.
  intros Hg Hff Hfb. rewrite !target_status. destruct (flag m CutoverToTargetRequested) eqn:Hr; [|ranks]. rewrite (Hg _ Hr). cbn [negb].
  destruct (completed m) eqn:Hc; [by rewrite (completed_grows m m' Hg Hff (Hfb eq_refl) Hc)|]. destruct (completed m'); ranks.
Qed.
Lemma rank_replica_grows m m' : grows m m' → (rank (getCutoverToSourceReplicaStatus m) ≤ rank (getCutoverToSourceReplicaStatus m'))%nat.
Proof.
  intros Hg. unfold getCutoverToSourceReplicaStatus. pose proof (Hg CutoverToSourceReplicaRequested) as H1.
  pose proof (Hg CutoverToSourceReplicaProcessedByTargetExporter) as H2. pose proof (Hg CutoverToSourceReplicaProcessedBySRImporter) as H3.
  destruct (flag m CutoverToSourceReplicaRequested); [|ranks]. rewrite H1 by done.
  destruct (flag m CutoverToSourceReplicaProcessedByTargetExporter), (flag m CutoverToSourceReplicaProcessedBySRImporter);
    rewrite ?H2, ?H3 by done; cbn [andb negb]; repeat case_match; ranks.
Qed.
Section system.
Context (root dir : string).
Definition nextStarted (m : MigrationStatusRecord) (w : world) : Prop :=
  flag m RestartDataMigrationSourceTargetNextIteration = false ∨
  flag m NextIterationInitialized = true ∧ ∃ mn, records w !! iterDir root (IterationNo m + 1) = Some mn ∧
    flag mn ExportDataFromSourceStarted = true ∧ flag mn ImportDataToTargetStarted = true.
Lemma source_status m w st : placed root dir m → records w !! dir = Some m → GetCutoverToSourceStatus dir w = Ok st →
  (flag m CutoverToSourceRequested = false ∧ st = NOT_INITIATED) ∨ flag m CutoverToSourceRequested = true ∧ (st = INITIATED ∨
   st = COMPLETED ∧ flag m CutoverToSourceProcessedByTargetExporter = true ∧ flag m CutoverToSourceProcessedBySourceImporter = true ∧ nextStarted m w).
Proof.
  intros Hp Hm. unfold GetCutoverToSourceStatus, isNextIterationStartedIfRequied, GetMigrationStatusRecord. rewrite Hm. cbn [mbind result_bind].
  rewrite (placed_next _ _ _ _ Hp). destruct (flag m CutoverToSourceRequested); cbn [negb andb]; [|intros [= <-]; by left]. intros H. right. split; [done|].
  destruct (flag m CutoverToSourceProcessedByTargetExporter); cbn [andb] in H; [|injection H as <-; by left].
  destruct (flag m CutoverToSourceProcessedBySourceImporter); cbn [andb] in H; [|injection H as <-; by left].
  unfold nextStarted. destruct (flag m RestartDataMigrationSourceTargetNextIteration); cbn [negb] in H; [|injection H as <-; right; by auto].
  destruct (flag m NextIterationInitialized); cbn [negb] in H; [|injection H as <-; by left].
  destruct (records w !! iterDir root (IterationNo m + 1)) as [mn|]; [|done]. cbn [mbind result_bind] in H.
  destruct (flag mn ExportDataFromSourceStarted) eqn:H1, (flag mn ImportDataToTargetStarted) eqn:H2; cbn [andb] in H; injection H as <-; eauto 10.
Qed.
Lemma source_completed m w : placed root dir m → records w !! dir = Some m → flag m CutoverToSourceRequested = true →
  flag m CutoverToSourceProcessedByTargetExporter = true → flag m CutoverToSourceProcessedBySourceImporter = true → nextStarted m w →
  GetCutoverToSourceStatus dir w = Ok COMPLETED.
Proof.
  intros Hp Hm H1 H2 H3 Hn. unfold GetCutoverToSourceStatus, isNextIterationStartedIfRequied, GetMigrationStatusRecord. rewrite Hm. cbn [mbind result_bind].
  rewrite (placed_next _ _ _ _ Hp), H1, H2, H3. cbn [negb andb]. destruct Hn as [-> |(H4 & mn & Hmn & H5 & H6)]; [done|].
  destruct (flag m RestartDataMigrationSourceTargetNextIteration); cbn [negb]; [|done]. rewrite H4, Hmn. cbn. by rewrite H5, H6.
Qed.
Lemma rank_source_grows m m' w w' st st' : placed root dir m → records w !! dir = Some m → records w' !! dir = Some m' → moves dir m m' w w' →
  GetCutoverToSourceStatus dir w = Ok st → GetCutoverToSourceStatus dir w' = Ok st' → (rank st ≤ rank st')%nat.
Proof.
  intros Hp Hm Hm' [ [Hg _ Hrest Hpl] Ho] H H'.
  assert (placed root dir m') as Hp' by (destruct Hpl as [H1 H2]; unfold placed; by rewrite H1, H2).
  destruct (source_status _ _ _ Hp Hm H) as [ [_ ->]|(Hr & [-> |(-> & H1 & H2 & Hn)])]; [ranks|..].
  - destruct (source_status _ _ _ Hp' Hm' H') as [ [Hr' ->]|(_ & [-> |(-> & _)])]; [|ranks..]. by rewrite (Hg _ Hr) in Hr'.
  - assert (nextStarted m' w') as Hn'.
    { destruct Hn as [Hn|(H4 & mn & Hmn & H5 & H6)]; [left; by rewrite Hrest|right]. destruct Hpl as [_ ->].
      destruct (Ho _ _ (placed_fresh _ _ _ Hp) Hmn) as (mn' & Hmn' & Hgn). split; [by apply Hg|]. exists mn'. split_and!; [done|by apply Hgn..]. }
    rewrite (source_completed m' w') in H' by (try done; by apply Hg). by injection H' as <-.
Qed.
Lemma steps_ok m s s' : SysInv root dir m s → rtc (step dir) s s' → ∃ m', SysInv root dir m' s' ∧ grows m m' ∧
  (flag m CutoverToTargetRequested = true → flag m' FallbackEnabled = flag m FallbackEnabled).
Proof.
  intros H Hr. revert m H. induction Hr as [s|s1 s2 s3 Hs _ IH]; intros m H; [exists m; by split_and!; [|apply grows_refl|]|].
  destruct (step_ok _ _ _ _ _ H Hs) as (m1 & H1 & [ [Hg Hfb _ _] _]). destruct (IH m1 H1) as (m2 & H2 & Hg2 & Hfb2). exists m2.
  split_and!; [done|by eapply grows_trans|]. intros Ht. rewrite Hfb2; [by apply Hfb|by apply Hg].
Qed.
(** C16: The status of a cutover never goes back, whatever the commands, exporters and
    importers do and wherever they are killed, with one exception that the code allows: a
    plain cutover to the target that has completed is open again once [import data to
    source-replica] is started. *)
Theorem cutover_statuses_advance :
  (∀ s s', reachable root dir s → step dir s s' →
    ∃ m m', records (shared s) !! dir = Some m ∧ records (shared s') !! dir = Some m' ∧ grows m m' ∧
      ((rank (GetCutoverStatus m) ≤ rank (GetCutoverStatus m'))%nat ∨
       GetCutoverStatus m = COMPLETED ∧ flag m FallbackEnabled = false ∧ flag m FallForwardEnabled = false ∧ flag m' FallForwardEnabled = true) ∧
      (rank (getCutoverToSourceReplicaStatus m) ≤ rank (getCutoverToSourceReplicaStatus m'))%nat ∧
      ∀ st st', GetCutoverToSourceStatus dir (shared s) = Ok st → GetCutoverToSourceStatus dir (shared s') = Ok st' → (rank st ≤ rank st')%nat) ∧
  ∀ m, GetCutoverStatus m = COMPLETED → flag m FallForwardEnabled = false → flag m FallbackEnabled = false →
    flag m ExportFromTargetFallForwardStarted = false → ExportTypeFromSource m ≠ CHANGES_ONLY →
    ∃ m', mayRun SOURCE_REPLICA_DB_IMPORTER_ROLE m = Ok m' ∧ GetCutoverStatus m' = INITIATED.
Proof.
  split.
  - intros s s' [m H]%reachable_SysInv Hs. destruct (step_ok _ _ _ _ _ H Hs) as (m' & H' & Hmv). exists m, m'. pose proof Hmv as [ [Hg Hfb _ _] _].
    split_and!; [apply H|apply H'|done| |by apply rank_replica_grows|intros st st'; apply (rank_source_grows m m' _ _ st st' (i_placed _ _ _ _ H) (i_record _ _ _ _ H) (i_record _ _ _ _ H') Hmv)].
    destruct (flag m FallForwardEnabled) eqn:Hff; [left; apply rank_target_grows; [done| |done]; by rewrite Hff, (Hg _ Hff)|].
    destruct (flag m' FallForwardEnabled) eqn:Hff'; [|left; apply rank_target_grows; [done|congruence|done] ].
    rewrite !target_status. destruct (flag m CutoverToTargetRequested) eqn:Hr; [|left; ranks]. rewrite (Hg _ Hr). cbn [negb].
    destruct (completed m) eqn:Hc; [right|left; destruct (completed m'); ranks]. split_and!; try done.
    rewrite <- Hfb by done. apply (o_workflow _ (i_order _ _ _ _ H') Hff').
  - intros m Hc Hff Hfb Hs He. unfold mayRun. rewrite decide_True, Hfb, decide_False by done. eexists. split; [done|].
    apply completed_marks in Hc as (H1 & H2 & H3 & _). unfold GetCutoverStatus. flags. by rewrite H1, H2, H3, Hs, Hfb.
Qed.
(** Every mark presupposes the earlier ones: both sides have processed the cutover to
    the target before a cutover back is requested, an importer has been told before it
    says so, fall-back and fall-forward exclude each other, each role runs in its own
    workflow only, and a cutover to the source is requested under fall-back only when the
    exporter from the target and the importer to the source have started. *)
Theorem cutover_marks_in_order (s : system) : reachable root dir s →
  ∃ m, records (shared s) !! dir = Some m ∧ OrderInv m ∧ ∀ role, pcs s role ≠ Off → inWorkflow role m.
Proof. intros [m H]%reachable_SysInv. exists m. split_and!; apply H. Qed.
(** A cutover back that is not the workflow's is accepted and never completes: once
    the cutover to the source is requested without fall-back, or the one to the
    source-replica with it, its status is INITIATED for good. *)
Theorem cutover_back_needs_its_workflow (s s' : system) (m : MigrationStatusRecord) :
  reachable root dir s → records (shared s) !! dir = Some m → rtc (step dir) s s' →
  (flag m CutoverToSourceRequested = true → flag m FallbackEnabled = false → GetCutoverToSourceStatus dir (shared s') = Ok INITIATED) ∧
  (flag m CutoverToSourceReplicaRequested = true → flag m FallbackEnabled = true →
     ∃ m', records (shared s') !! dir = Some m' ∧ getCutoverToSourceReplicaStatus m' = INITIATED).
Proof.
  intros [m0 H]%reachable_SysInv Hm Hs. assert (m0 = m) as -> by (pose proof (i_record _ _ _ _ H); congruence). pose proof (i_order _ _ _ _ H) as Ho.
  destruct (steps_ok _ _ _ H Hs) as (m' & H' & Hg & Hfb). pose proof (i_order _ _ _ _ H') as Ho'. split; intros Hr Hb.
  - destruct (o_back _ Ho (or_introl Hr)) as [H1 H2]. rewrite <- (Hfb (o_exported _ Ho H1)) in Hb.
    unfold GetCutoverToSourceStatus, GetMigrationStatusRecord. rewrite (i_record _ _ _ _ H'). cbn [mbind result_bind]. rewrite (Hg _ Hr). cbn [negb andb].
    destruct (flag m' CutoverToSourceProcessedByTargetExporter) eqn:Hx; [|done]. destruct (o_toSource _ Ho' (or_introl Hx)). congruence.
  - exists m'. split; [apply H'|]. rewrite <- (Hfb (o_fallback _ Ho Hb)) in Hb. unfold getCutoverToSourceReplicaStatus. rewrite (Hg _ Hr). cbn [negb andb].
    destruct (flag m' CutoverToSourceReplicaProcessedByTargetExporter) eqn:Hx; [|done]. destruct (o_toReplica _ Ho' (or_introl Hx)) as [_ Hff].
    pose proof (o_workflow _ Ho' Hff). congruence.
Qed.

(** ** Completing *)
Definition sameFlow (m m' : MigrationStatusRecord) : Prop :=
  grows m m' ∧ flag m' FallForwardEnabled = flag m FallForwardEnabled ∧ flag m' FallbackEnabled = flag m FallbackEnabled.
Definition leadsTo (m : MigrationStatusRecord) (s : system) (f : MSRFlag) : Prop :=
  ∃ s' m', rtc (processStep dir) s s' ∧ SysInv root dir m' s' ∧ sameFlow m m' ∧ flag m' f = true.
Lemma process_ok m s s' : SysInv root dir m s → rtc (processStep dir) s s' → ∃ m', SysInv root dir m' s'.
Proof.
  intros H Hr. revert m H. induction Hr as [s|s1 s2 s3 Hs _ IH]; intros m H; [eauto|].
  destruct (processStep_ok _ _ _ _ _ H Hs) as (m1 & H1 & _). by apply (IH m1).
Qed.
Lemma process_inv m m' s s' : SysInv root dir m s → rtc (processStep dir) s s' → records (shared s') !! dir = Some m' → SysInv root dir m' s'.
Proof. intros H Hr Hm. destruct (process_ok _ _ _ H Hr) as [m2 H2]. by assert (m' = m2) as -> by (pose proof (i_record _ _ _ _ H2); congruence). Qed.
(** A role that may run and has not processed its cutover gets to its work from anywhere. *)
Lemma run_role m s role f : SysInv root dir m s → mayRun role m = Ok m → processedFlag role = Ok f → flag m f = false →
  ∃ s', rtc (processStep dir) s s' ∧ records (shared s') !! dir = Some (markStarted role 0 m) ∧ pcs s' role = Working.
Proof.
  intros H Hrun Hf Hno. eexists. split; [|split].
  - eapply rtc_l; [apply (P_end _ _ role)|]. eapply rtc_l; [apply (P_start _ _ role m m true Proceed)|].
    + cbn. by rewrite fn_lookup_insert.
    + apply H.
    + done.
    + unfold handleCutoverAlreadyProcessed, GetMigrationStatusRecord, isCutoverAlreadyProcessed. rewrite put_lookup, decide_True by done.
      cbn [mbind result_bind negb]. rewrite Hf. cbn [mbind result_bind]. by rewrite Hno.
    + eapply rtc_l; [apply (P_work _ _ role m 0)|apply rtc_refl]; cbn [pcs shared]; [by rewrite fn_lookup_insert|by rewrite put_lookup, decide_True].
  - cbn [shared]. by rewrite put_lookup, decide_True.
  - cbn [pcs]. by rewrite fn_lookup_insert.
Qed.
Lemma markStarted_flow role now m : sameFlow m (markStarted role now m).
Proof. unfold markStarted. repeat case_match; (split; [eauto with cutover|by flags]). Qed.
Lemma leads_by m s s' m' f : SysInv root dir m s → rtc (processStep dir) s s' → records (shared s') !! dir = Some m' → sameFlow m m' →
  flag m' f = true → leadsTo m s f.
Proof. intros H Hr Hm Hf Hx. exists s', m'. split_and!; try done; [by eapply process_inv|apply Hf..]. Qed.
Lemma leads_already m s f : SysInv root dir m s → flag m f = true → leadsTo m s f.
Proof. intros H Hf. apply (leads_by m s s m f H); [apply rtc_refl|apply H|by split; [apply grows_refl|]|done]. Qed.
Lemma sameFlow_trans m1 m2 m3 : sameFlow m1 m2 → sameFlow m2 m3 → sameFlow m1 m3.
Proof. intros (H1 & H2 & H3) (G1 & G2 & G3). split_and!; [by eapply grows_trans|congruence..]. Qed.
Lemma leads_exported m s : SysInv root dir m s → flag m CutoverToTargetRequested = true → leadsTo m s CutoverProcessedBySourceExporter.
Proof.
  intros H Hreq. destruct (flag m CutoverProcessedBySourceExporter) eqn:Hf; [by apply leads_already|].
  destruct (run_role m s SOURCE_DB_EXPORTER_ROLE CutoverProcessedBySourceExporter H) as (s1 & Hr1 & Hm1 & Hw); [done..|].
  destruct (markStarted_flow SOURCE_DB_EXPORTER_ROLE 0 m) as (G1 & G2 & G3). eapply (leads_by _ _ _ _ _ H).
  - eapply rtc_r; [exact Hr1|]. eapply (P_exported _ _ SOURCE_DB_EXPORTER_ROLE _ _ _ 0 Hw Hm1); [done|by apply G1|done].
  - cbn [shared]. by rewrite put_lookup, decide_True.
  - split; [eauto with cutover|by flags].
  - by flags.
Qed.
Lemma leads_imported m s : SysInv root dir m s → flag m CutoverToTargetRequested = true → leadsTo m s CutoverProcessedByTargetImporter.
Proof.
  intros H Hreq. destruct (flag m CutoverProcessedByTargetImporter) eqn:Hf; [by apply leads_already|].
  destruct (run_role m s TARGET_DB_IMPORTER_ROLE CutoverProcessedByTargetImporter H) as (s1 & Hr1 & Hm1 & Hw); [done..|].
  destruct (markStarted_flow TARGET_DB_IMPORTER_ROLE 0 m) as (G1 & G2 & G3). set (m1 := markStarted TARGET_DB_IMPORTER_ROLE 0 m) in *.
  eapply (leads_by _ _ _ _ _ H).
  - eapply rtc_r; [eapply rtc_r; [exact Hr1|]|].
    + eapply (P_detected _ s1 TARGET_DB_IMPORTER_ROLE m1 CutoverToTargetRequested _ Hw Hm1); [done|by apply G1|done].
    + eapply (P_imported _ _ TARGET_DB_IMPORTER_ROLE (set_flag CutoverDetectedByTargetImporter true m1) _ 0); [exact Hw|done| | |done].
      * cbn [shared]. by rewrite put_lookup, decide_True.
      * unfold QueueSystem.cutoverInitiatedAndCutoverEventProcessed, QueueSystem.requestedFlag, QueueSystem.detectedFlag. rewrite decide_True by done.
        cbn [QueueSystem.flagIf]. flags. by rewrite (G1 _ Hreq).
  - cbn [shared]. by rewrite put_lookup, decide_True.
  - split; [eauto with cutover|by flags].
  - by flags.
Qed.
Lemma leads_fallForward m s : SysInv root dir m s → flag m FallForwardEnabled = true → leadsTo m s ExportFromTargetFallForwardStarted.
Proof.
  intros H Hff. pose proof (i_order _ _ _ _ H) as Ho. destruct (flag m ExportFromTargetFallForwardStarted) eqn:Hf; [by apply leads_already|].
  pose proof (o_workflow _ Ho Hff) as Hfb.
  destruct (run_role m s TARGET_DB_EXPORTER_FF_ROLE CutoverToSourceReplicaProcessedByTargetExporter H) as (s1 & Hr1 & Hm1 & Hw).
  - unfold mayRun. rewrite !decide_False, decide_True by done. by rewrite Hfb, Hff.
  - done.
  - apply not_true_iff_false. intros Hx%(o_replica _ Ho). congruence.
  - eapply (leads_by _ _ _ _ _ H Hr1 Hm1); [apply markStarted_flow|]. apply markStarted_ff; [done|]. unfold inWorkflow. tauto.
Qed.
Lemma leads_fallBack m s : SysInv root dir m s → flag m FallbackEnabled = true → leadsTo m s ExportFromTargetFallBackStarted.
Proof.
  intros H Hfb. pose proof (i_order _ _ _ _ H) as Ho. destruct (flag m ExportFromTargetFallBackStarted) eqn:Hf; [by apply leads_already|].
  destruct (run_role m s TARGET_DB_EXPORTER_FB_ROLE CutoverToSourceProcessedByTargetExporter H) as (s1 & Hr1 & Hm1 & Hw).
  - unfold mayRun. rewrite !decide_False, decide_True by done. by rewrite Hfb.
  - done.
  - apply not_true_iff_false. intros Hx. destruct (o_toSource _ Ho (or_introl Hx)) as [Hr _]. destruct (o_running _ Ho Hr Hfb). congruence.
  - eapply (leads_by _ _ _ _ _ H Hr1 Hm1); [apply markStarted_flow|]. unfold markStarted. rewrite !decide_False, decide_True by (done || by left).
    rewrite Hf. destruct (flag m ExportFromTargetFallForwardStarted) eqn:Hff; [|rewrite decide_True by done; by flags].
    pose proof (o_workflow _ Ho (o_ff _ Ho Hff)). congruence.
Qed.
Lemma leads_importToSource m s : SysInv root dir m s → flag m FallbackEnabled = true → leadsTo m s ImportDataToSourceStarted.
Proof.
  intros H Hfb. pose proof (i_order _ _ _ _ H) as Ho. destruct (flag m ImportDataToSourceStarted) eqn:Hf; [by apply leads_already|].
  destruct (run_role m s SOURCE_DB_IMPORTER_ROLE CutoverToSourceProcessedBySourceImporter H) as (s1 & Hr1 & Hm1 & Hw).
  - unfold mayRun. rewrite !decide_False, decide_True by done. by rewrite Hfb.
  - done.
  - apply not_true_iff_false. intros Hx. destruct (o_toSource _ Ho (or_intror Hx)) as [Hr _]. destruct (o_running _ Ho Hr Hfb). congruence.
  - eapply (leads_by _ _ _ _ _ H Hr1 Hm1); [apply markStarted_flow|]. unfold markStarted. rewrite decide_False, decide_True by done. by flags.
Qed.
(** C35: A cutover to the target that was requested can always be completed by the exporters
    and importers alone: from wherever they have been stopped, they can be started again
    and run so that its status becomes COMPLETED, in each of the three workflows. *)
Theorem cutover_can_complete (s : system) (m : MigrationStatusRecord) :
  reachable root dir s → records (shared s) !! dir = Some m → flag m CutoverToTargetRequested = true →
  ∃ s' m', rtc (processStep dir) s s' ∧ records (shared s') !! dir = Some m' ∧ GetCutoverStatus m' = COMPLETED.
Proof.
  intros [m0 H]%reachable_SysInv Hm Hreq. assert (m0 = m) as -> by (pose proof (i_record _ _ _ _ H); congruence). clear Hm.
  destruct (leads_exported m s H Hreq) as (s1 & m1 & R1 & H1 & F1 & X1).
  destruct (leads_imported m1 s1 H1 (proj1 F1 _ Hreq)) as (s2 & m2 & R2 & H2 & F2 & X2).
  pose proof (sameFlow_trans _ _ _ F1 F2) as F. destruct F as (Hg & Hff & Hfb).
  assert (∀ s3 m3, rtc (processStep dir) s2 s3 → SysInv root dir m3 s3 → grows m2 m3 → completed m3 = true →
    ∃ s' m', rtc (processStep dir) s s' ∧ records (shared s') !! dir = Some m' ∧ GetCutoverStatus m' = COMPLETED) as Hdone.
  { intros s3 m3 R3 H3 G3 Hc. exists s3, m3. split; [by do 2 (etrans; [eassumption|])|]. split; [apply H3|]. by rewrite target_status, (G3 _ (Hg _ Hreq)), Hc. }
  assert (flag m2 CutoverProcessedBySourceExporter = true) as X1' by (by apply F2).
  destruct (flag m2 FallForwardEnabled) eqn:Eff.
  - destruct (leads_fallForward m2 s2 H2 Eff) as (s3 & m3 & R3 & H3 & (G3 & E3 & _) & X3). apply (Hdone s3 m3 R3 H3 G3).
    unfold completed. by rewrite (G3 _ X1'), (G3 _ X2), E3, Eff, X3.
  - destruct (flag m2 FallbackEnabled) eqn:Efb.
    + destruct (leads_fallBack m2 s2 H2 Efb) as (s3 & m3 & R3 & H3 & (G3 & E3 & B3) & X3). rewrite Efb in B3.
      destruct (leads_importToSource m3 s3 H3 B3) as (s4 & m4 & R4 & H4 & (G4 & E4 & B4) & X4).
      apply (Hdone s4 m4); [by etrans|done|by eapply grows_trans|].
      unfold completed. rewrite (G4 _ (G3 _ X1')), (G4 _ (G3 _ X2)), B4, B3, (G4 _ X3), X4. by destruct (flag m4 FallForwardEnabled && _).
    + apply (Hdone s2 m2 ltac:(apply rtc_refl) H2 (grows_refl _)). unfold completed. by rewrite X1', X2, Eff, Efb.
Qed.
End system.

(** ** A plain cutover *)
Definition plainRecord : MigrationStatusRecord := mkMSR (λ _, false) (λ _, None) "snapshot-and-changes" POSTGRESQL "yugabytedb" ["public.foo"] "" 0 0.
Definition plainStart : system := mkSystem (mkWorld {[ "/e" := plainRecord ]} {[ "/e" := noCdcConfig ]} {[ "/e" := "{}" ]}) (λ _, Off).
Definition requestedRecord : MigrationStatusRecord := requestCutover "target" false false false 7 plainRecord.
Definition plainRequested : system := mkSystem (put "/e" requestedRecord (shared plainStart)) (pcs plainStart).
Lemma plain_requested : reachable "/e" "/e" plainRequested.
Proof.
  exists plainStart. split.
  - split; [|done]. exists plainRecord. split_and!; [done|by left|done].
  - apply rtc_once. left. by apply (U_target _ plainStart plainRecord requestedRecord (Ok tt) (Ok tt) (Some false) false true 7).
Qed.
Definition markedRecord : MigrationStatusRecord :=
  set_flag CutoverProcessedByTargetImporter true (set_flag CutoverProcessedBySourceExporter true requestedRecord).
Lemma process_steps dir s s' : rtc (processStep dir) s s' → rtc (step dir) s s'.
Proof. apply rtc_subrel. intros ? ? ?. by right. Qed.
Lemma plain_completed : ∃ s m, reachable "/e" "/e" s ∧ records (shared s) !! "/e" = Some m ∧ GetCutoverStatus m = COMPLETED ∧
  flag m FallForwardEnabled = false ∧ flag m FallbackEnabled = false.
Proof.
  destruct (reachable_SysInv _ _ _ plain_requested) as [m H]. assert (m = requestedRecord) as -> by (pose proof (i_record _ _ _ _ H) as Hm; by injection Hm).
  destruct (leads_exported _ _ _ _ H eq_refl) as (s1 & m1 & R1 & H1 & F1 & X1). assert (flag m1 CutoverToTargetRequested = true) as Hreq by (by apply F1).
  destruct (leads_imported _ _ _ _ H1 Hreq) as (s2 & m2 & R2 & H2 & F2 & X2).
  pose proof (sameFlow_trans _ _ _ F1 F2) as (Hg & Hff & Hfb). exists s2, m2. split_and!; [|apply H2| |done..].
  - destruct plain_requested as (s0 & H0 & R0). exists s0. split; [done|]. etrans; [exact R0|]. apply process_steps. by etrans.
  - rewrite target_status. unfold completed. rewrite (proj1 F2 _ Hreq), (proj1 F2 _ X1), X2, Hff, Hfb. done.
Qed.
Lemma cutover_marks_in_order_witness : ∃ m, records (shared plainRequested) !! "/e" = Some m ∧ OrderInv m.
Proof. destruct (cutover_marks_in_order "/e" "/e" plainRequested plain_requested) as (m & Hm & Ho & _). exists m. split; assumption. Defined.
Lemma cutover_can_complete_witness : ∃ s' m', rtc (processStep "/e") plainRequested s' ∧ records (shared s') !! "/e" = Some m' ∧ GetCutoverStatus m' = COMPLETED.
Proof. apply (cutover_can_complete "/e" "/e" plainRequested requestedRecord plain_requested); reflexivity. Defined.
Lemma plain_back : ∃ s m, reachable "/e" "/e" s ∧ records (shared s) !! "/e" = Some m ∧ flag m CutoverToSourceRequested = true ∧ flag m FallbackEnabled = false.
Proof.
  destruct plain_completed as (s & m & Hr & Hm & Hc & Hff & Hfb). destruct (flag m CutoverToSourceRequested) eqn:Hreq; [by exists s, m|].
  pose (m1 := requestCutover "source" false true false 9 m). exists (mkSystem (put "/e" m1 (shared s)) (pcs s)), m1. split_and!.
  - destruct Hr as (s0 & H0 & R0). exists s0. split; [done|]. eapply rtc_r; [exact R0|]. left. apply (U_source _ s m m1 false true 9 Hm).
    unfold cutoverToSource, InitiateCutover. rewrite Hc, decide_False; [done|]. by intros [_ ?].
  - cbn [shared]. by rewrite put_lookup, decide_True.
  - unfold m1, requestCutover. rewrite !decide_False, decide_True, Hreq by done. by flags.
  - unfold m1, requestCutover. rewrite !decide_False, decide_True, Hreq by done. by flags.
Qed.
(** A request to go back to the source without fall-back. *)
Lemma cutover_back_needs_its_workflow_witness :
  ∃ s, reachable "/e" "/e" s ∧ GetCutoverToSourceStatus "/e" (shared s) = Ok INITIATED.
Proof.
  destruct plain_back as (s & m & Hr & Hm & Hreq & Hfb). exists s. split; [exact Hr|].
  apply (cutover_back_needs_its_workflow "/e" "/e" s s m Hr Hm (rtc_refl _ _)); [exact Hreq|exact Hfb].
Defined.
Lemma cutover_statuses_advance_witness :
  (∃ m', records (put "/e" requestedRecord (shared plainStart)) !! "/e" = Some m' ∧ (rank (GetCutoverStatus plainRecord) ≤ rank (GetCutoverStatus m'))%nat) ∧
  ∃ m m', GetCutoverStatus m = COMPLETED ∧ mayRun SOURCE_REPLICA_DB_IMPORTER_ROLE m = Ok m' ∧ GetCutoverStatus m' = INITIATED.
Proof.
  destruct (cutover_statuses_advance "/e" "/e") as [H1 H2]. split.
  - destruct (H1 plainStart plainRequested) as (m & m' & Hm & Hm' & _ & [Hr|(Hc & _)] & _).
    + exists plainStart. split; [|apply rtc_refl]. split; [|done]. exists plainRecord. split_and!; [done|by left|done].
    + left. by apply (U_target _ plainStart plainRecord requestedRecord (Ok tt) (Ok tt) (Some false) false true 7).
    + exists m'. split; [exact Hm'|]. injection Hm as <-. exact Hr.
    + injection Hm as <-. discriminate Hc.
  - pose (m := markedRecord). destruct (H2 m) as (m' & Hrun & Hst); [reflexivity..|discriminate|]. exists m, m'. split; [reflexivity|]. split; assumption.
Defined.
End CutoverSafety.
