(* ===== verification/NameReg.v ===== *)
(** * The name registry (src/yb-voyager/src/namereg/namereg.go)

    The names of the tables and sequences of source and target, taken once from the
    catalogues, kept in a JSON file, and looked up by every command: a name as a user, a
    catalogue or a file spells it is paired with its source and its target table.  A
    database is its catalogue queries; the file is what it holds.  The order in which Go
    ranges over a map is that of [map_to_list]. *)
From S2P Require Import Prelude SqlName Event.
Import SqlName Event.

Set Default Proof Using "Type*".

Module NameReg.
(** ** Errors, which callers tell apart, and panics *)
Inductive error : Type :=
  | ErrNameNotFound (ObjectType Name : string)
  | ErrMultipleMatchingNames (ObjectType : string) (Names : list string)
  | errorString (msg : string)
  | wrapError (msg : string) (err : error).
Inductive res (A : Type) : Type := Val (a : A) | Fail (e : error) | Panics (msg : string).
Arguments Val {A} a.
Arguments Fail {A} e.
Arguments Panics {A} msg.
#[global] Instance res_ret : MRet res := λ A a, Val a.
#[global] Instance res_bind : MBind res := λ A B f r,
  match r with Val a => f a | Fail e => Fail e | Panics m => Panics m end.
(** What [errors.As] finds: the innermost error. *)
Fixpoint cause (e : error) : error := match e with wrapError _ e => cause e | e => e end.
Definition isNotFound (e : error) : bool := match cause e with ErrNameNotFound _ _ => true | _ => false end.
Definition wrap {A} (msg : string) (r : res A) : res A :=
  match r with Fail e => Fail (wrapError msg e) | r => r end.
Definition lift {A} (r : result A) : res A :=
  match r with Ok a => Val a | Err m => Fail (errorString m) | Panic m => Panics m end.
Fixpoint Error (e : error) : string :=
  match e with
  | ErrNameNotFound t n => t +:+ " name not found: " +:+ n
  | ErrMultipleMatchingNames t ns => "multiple matching " +:+ t +:+ " names: " +:+ Join ", " ns
  | errorString m => m
  | wrapError m e => m +:+ ": " +:+ Error e
  end.
Definition to_result {A} (r : res A) : result A :=
  match r with Val a => Ok a | Fail e => Err (Error e) | Panics m => Panic m end.

(** ** Matching a name against a list *)
(** The loop: an exact match, or the candidates in another case. *)
Fixpoint match_loop (name : string) (names candidateNames : list string) : string + list string :=
  match names with
  | [] => inr candidateNames
  | n :: names =>
      if decide (n = name) then inl n
      else match_loop name names (if EqualFold n name then candidateNames ++ [n] else candidateNames)
  end.
(** The name without its double quotes; [name[1:0]] of a lone quote panics. *)
Definition bareName (objType name : string) : res string :=
  if decide (name = "") then Fail (errorString "name cannot be empty")
  else if first_is dq name then
    if negb (last_is dq name) then Fail (errorString ("invalid quoted " +:+ objType +:+ " name: [" +:+ name +:+ "]"))
    else if (String.length name =? 1)%nat then Panics "slice bounds out of range [1:0]"
    else Val (strip_ends name)
  else Val name.
Definition matchName (objType : string) (names : list string) (name : string) : res string :=
  name ← bareName objType name;
  match match_loop name names [] with
  | inl n => Val n
  | inr [n] => Val n
  | inr [] => Fail (ErrNameNotFound objType name)
  | inr candidateNames => Fail (ErrMultipleMatchingNames objType candidateNames)
  end.

(** ** The registry *)
Definition SOURCE_DB_EXPORTER_STATUS_ROLE : string := "source_db_exporter_status".
Record SourceDBInterface : Type := mkSourceDB {
  sdb_GetAllTableNamesRaw : string → result (list string);
  sdb_GetAllSequencesRaw : string → result (list string) }.
Record YBDBInterface : Type := mkYBDB {
  yb_GetAllTableNamesRaw : string → result (list string);
  yb_GetAllSequencesRaw : string → result (list string) }.
Record NameRegistryParams : Type := mkParams {
  Role : string; p_SourceDBType : string; p_SourceDBSchema : list string; p_SourceDBName : string;
  SDB : option SourceDBInterface; p_TargetDBSchema : list string; YBDB : option YBDBInterface }.
(** Names per schema; [None] is the nil map. *)
Definition NamesMap : Type := option (gmap string (list string)).
(** The exported fields of [NameRegistry], which the JSON file holds. *)
Record Names : Type := mkNames {
  SourceDBType : string;
  SourceDBSchemaNames : list string;
  DefaultSourceDBSchemaName : string;
  SourceDBTableNames : NamesMap;
  YBSchemaNames : list string;
  DefaultYBSchemaName : string;
  YBTableNames : NamesMap;
  DefaultSourceReplicaDBSchemaName : string;
  SourceDBSequenceNames : NamesMap;
  YBSequenceNames : NamesMap }.
Record NameRegistry : Type := mkRegistry { names : Names; params : NameRegistryParams }.
Definition noNames : Names := mkNames "" [] "" None [] "" None "" None None.
Definition NewNameRegistry (p : NameRegistryParams) : NameRegistry := mkRegistry noNames p.
Definition update (f : Names → Names) (reg : NameRegistry) : NameRegistry := mkRegistry (f (names reg)) (params reg).

Definition DefaultSourceSideSchemaName (reg : NameRegistry) : string :=
  if decide (Role (params reg) = SOURCE_REPLICA_DB_IMPORTER_ROLE)
  then DefaultSourceReplicaDBSchemaName (names reg) else DefaultSourceDBSchemaName (names reg).

(** ** Lookups *)
Definition keysOf (m : gmap string (list string)) : list string := (map_to_list m).*1.
Definition namesIn (m : gmap string (list string)) (schema : string) : list string := default [] (m !! schema).
Definition lookup (dbType : string) (m : gmap string (list string)) (defaultSchemaName schemaName tableName : string)
    : res ObjectName :=
  schemaName ← (if decide (schemaName = "") then
                  if decide (defaultSchemaName = "")
                  then Fail (errorString ("no default schema name: qualify table name [" +:+ tableName +:+ "]"))
                  else Val defaultSchemaName
                else Val schemaName);
  schemaName ← matchName "schema" (keysOf m) schemaName;
  tableName ← matchName "table" (namesIn m schemaName) tableName;
  lift (NewObjectName dbType defaultSchemaName schemaName tableName).
Definition createAllObjectNamesMap (m m1 : NamesMap) : NamesMap :=
  match m, m1 with
  | None, None => None
  | _, _ => Some (union_with (λ a b, Some (a ++ b)) (default ∅ m) (default ∅ m1))
  end.
Definition checkIfSchemaNameIsDefault (reg : NameRegistry) (schemaName : string) : res bool :=
  let identifier := λ s, lift (NewIdentifier (SourceDBType (names reg)) s) in
  i ← identifier schemaName;
  d ← identifier (DefaultSourceDBSchemaName (names reg));
  r ← identifier (DefaultSourceReplicaDBSchemaName (names reg));
  y ← identifier (DefaultYBSchemaName (names reg));
  Val (Equals i d || Equals i r || Equals i y).
(** One side's lookup: several matches are retried with the name in the database's
    case; a missing name may be ignored. *)
Definition lookupSide (look : string → res ObjectName) (tableName caseInsensitiveName msg : string) (ignoreIfNotFound : bool)
    : res (option ObjectName) :=
  let r := match look tableName with
           | Fail e => match cause e with
                       | ErrMultipleMatchingNames _ ns =>
                           if decide (caseInsensitiveName ∈ ns) then look caseInsensitiveName else Fail e
                       | _ => Fail e
                       end
           | r => r
           end in
  match r with
  | Val o => Val (Some o)
  | Fail e => if ignoreIfNotFound && isNotFound e then Val None else Fail (wrapError msg e)
  | Panics m => Panics m
  end.
Definition sourceCase (dbType tableName : string) : string :=
  if decide (dbType = POSTGRESQL ∨ dbType = YUGABYTEDB) then ToLower tableName
  else if decide (dbType = ORACLE) then ToUpper tableName else tableName.
Definition splitName (tableNameArg : string) : res (string * string) :=
  match Split "." tableNameArg with
  | [_] => Val ("", tableNameArg)
  | [s; t] => Val (s, t)
  | _ => Fail (errorString ("invalid table name: " +:+ tableNameArg))
  end.
Definition lookupSourceAndTargetTableNames (reg : NameRegistry) (tableNameArg : string)
    (ignoreIfTargetNotFound ignoreIfSourceNotFound : bool) : res (option ObjectName * option ObjectName) :=
  if ignoreIfTargetNotFound && ignoreIfSourceNotFound
  then Fail (errorString "ignoreIfTargetNotFound and ignoreIfSourceNotFound cannot be true at the same time") else
  let sourceObjectNameMap := createAllObjectNamesMap (SourceDBTableNames (names reg)) (SourceDBSequenceNames (names reg)) in
  let targetObjectNameMap := createAllObjectNamesMap (YBTableNames (names reg)) (YBSequenceNames (names reg)) in
  if bool_decide (Role (params reg) = TARGET_DB_IMPORTER_ROLE) &&
     xorb (bool_decide (DefaultSourceSideSchemaName reg = "")) (bool_decide (DefaultYBSchemaName (names reg) = ""))
  then Fail (errorString ("either both or none of the default schema names should be set: [" +:+
         DefaultSourceSideSchemaName reg +:+ "], [" +:+ DefaultYBSchemaName (names reg) +:+ "]")) else
  '(schemaName, tableName) ← splitName tableNameArg;
  isDefault ← checkIfSchemaNameIsDefault reg schemaName;
  let schemaName := if (isDefault : bool) then "" else schemaName in
  sourceName ← match sourceObjectNameMap with
    | Some m => lookupSide (lookup (SourceDBType (names reg)) m (DefaultSourceSideSchemaName reg) schemaName)
                  tableName (sourceCase (SourceDBType (names reg)) tableName)
                  ("lookup source table name [" +:+ schemaName +:+ "." +:+ tableName +:+ "]") ignoreIfSourceNotFound
    | None => Val None
    end;
  targetName ← match targetObjectNameMap with
    | Some m => lookupSide (lookup YUGABYTEDB m (DefaultYBSchemaName (names reg)) schemaName)
                  tableName (ToLower tableName)
                  ("lookup target table name [" +:+ tableNameArg +:+ "]") ignoreIfTargetNotFound
    | None => Val None
    end;
  match sourceName, targetName with
  | None, None => Fail (ErrNameNotFound "table" tableNameArg)
  | _, _ => Val (sourceName, targetName)
  end.
Definition NewNameTuple (role : string) (sourceName targetName : option ObjectName) : NameTuple :=
  let CurrentName :=
    if decide (role ∈ [TARGET_DB_IMPORTER_ROLE; TARGET_DB_EXPORTER_FF_ROLE; TARGET_DB_EXPORTER_FB_ROLE; IMPORT_FILE_ROLE])
    then targetName
    else if decide (role ∈ [SOURCE_DB_IMPORTER_ROLE; SOURCE_REPLICA_DB_IMPORTER_ROLE; SOURCE_DB_EXPORTER_ROLE; SOURCE_DB_EXPORTER_STATUS_ROLE])
    then sourceName
    else None in
  mkNameTuple CurrentName sourceName targetName.
Definition tupleOf (reg : NameRegistry) (p : option ObjectName * option ObjectName) : NameTuple :=
  NewNameTuple (Role (params reg)) p.1 p.2.
Definition LookupTableName (reg : NameRegistry) (tableNameArg : string) : res NameTuple :=
  p ← lookupSourceAndTargetTableNames reg tableNameArg false false; Val (tupleOf reg p).
Definition LookupTableNameAndIgnoreIfTargetNotFoundBasedOnRole (reg : NameRegistry) (tableNameArg : string) : res NameTuple :=
  if decide (Role (params reg) ∈ [TARGET_DB_IMPORTER_ROLE; SOURCE_DB_EXPORTER_STATUS_ROLE; SOURCE_DB_EXPORTER_ROLE]) then
    p ← wrap ("error lookup source and target names for table [" +:+ tableNameArg +:+ "]")
          (lookupSourceAndTargetTableNames reg tableNameArg true false);
    Val (tupleOf reg p)
  else LookupTableName reg tableNameArg.
Definition LookupTableNameAndIgnoreIfSourceNotFound (reg : NameRegistry) (tableNameArg : string) : res NameTuple :=
  p ← wrap ("error lookup source and target names for table [" +:+ tableNameArg +:+ "]")
        (lookupSourceAndTargetTableNames reg tableNameArg false true);
  Val (tupleOf reg p).
(** The tables a registry holds; its order is that of the map. *)
Definition GetRegisteredTableList (reg : NameRegistry) (ignoreOtherSideOfMappingIfNotFound : bool) : res (list NameTuple) :=
  let role := Role (params reg) in
  let '(m, sequencesMap, ignoreIfTargetNotFound) :=
    if decide (role ∈ [SOURCE_DB_EXPORTER_ROLE; SOURCE_DB_IMPORTER_ROLE; SOURCE_REPLICA_DB_IMPORTER_ROLE])
    then (SourceDBTableNames (names reg), SourceDBSequenceNames (names reg), true)
    else if decide (role ∈ [TARGET_DB_EXPORTER_FB_ROLE; TARGET_DB_EXPORTER_FF_ROLE; TARGET_DB_IMPORTER_ROLE])
    then (YBTableNames (names reg), YBSequenceNames (names reg), false)
    else (None, None, false) in
  let look := λ tableName,
    wrap ("error lookup for the table name [" +:+ tableName +:+ "]")
      (if ignoreOtherSideOfMappingIfNotFound then
         if ignoreIfTargetNotFound then LookupTableNameAndIgnoreIfTargetNotFoundBasedOnRole reg tableName
         else LookupTableNameAndIgnoreIfSourceNotFound reg tableName
       else LookupTableName reg tableName) in
  foldl (λ res st, l ← res;
           if decide (st.2 ∈ namesIn (default ∅ sequencesMap) st.1) then Val l
           else t ← look (st.1 +:+ "." +:+ st.2); Val (l ++ [t]))
        (Val [])
        (flat_map (λ p : string * list string, map (pair p.1) p.2) (map_to_list (default ∅ m))).

(** ** Registering the names of the catalogues *)
Definition initSourceDBSchemaNames (reg : NameRegistry) : NameRegistry :=
  let dbType := p_SourceDBType (params reg) in
  let schemas :=
    if decide (dbType = ORACLE) then p_SourceDBSchema (params reg)
    else if decide (dbType = MYSQL) then [p_SourceDBName (params reg)]
    else if decide (dbType = POSTGRESQL) then p_SourceDBSchema (params reg)
    else SourceDBSchemaNames (names reg) in
  let default :=
    match schemas with
    | [s] => s
    | _ => if decide ("public" ∈ schemas) then "public" else DefaultSourceDBSchemaName (names reg)
    end in
  update (λ n, mkNames (SourceDBType n) schemas default (SourceDBTableNames n) (YBSchemaNames n) (DefaultYBSchemaName n)
                 (YBTableNames n) (DefaultSourceReplicaDBSchemaName n) (SourceDBSequenceNames n) (YBSequenceNames n)) reg.
(** The loop over the schemas: tables and sequences of each. *)
Definition queryNames (tables sequences : string → result (list string)) (schemas : list string)
    : res (gmap string (list string) * gmap string (list string)) :=
  lift (foldM (λ '(tableMap, sequenceMap) schemaName,
                 tableNames ← tables schemaName;
                 seqNames ← sequences schemaName;
                 Ok (<[schemaName := tableNames]> tableMap,
                     <[schemaName := namesIn sequenceMap schemaName ++ seqNames]> sequenceMap))
              (∅, ∅) schemas).
Definition registerSourceNames (reg : NameRegistry) : NameRegistry * res bool :=
  match SDB (params reg) with
  | None => (reg, Fail (errorString "source db connection is not available"))
  | Some sdb =>
      let reg := update (λ n, mkNames (p_SourceDBType (params reg)) (SourceDBSchemaNames n) (DefaultSourceDBSchemaName n)
        (SourceDBTableNames n) (YBSchemaNames n) (DefaultYBSchemaName n) (YBTableNames n)
        (DefaultSourceReplicaDBSchemaName n) (SourceDBSequenceNames n) (YBSequenceNames n)) reg in
      let reg := initSourceDBSchemaNames reg in
      match queryNames (sdb_GetAllTableNamesRaw sdb) (sdb_GetAllSequencesRaw sdb) (SourceDBSchemaNames (names reg)) with
      | Val (tableMap, sequenceMap) =>
          (update (λ n, mkNames (SourceDBType n) (SourceDBSchemaNames n) (DefaultSourceDBSchemaName n) (Some tableMap)
             (YBSchemaNames n) (DefaultYBSchemaName n) (YBTableNames n) (DefaultSourceReplicaDBSchemaName n)
             (Some sequenceMap) (YBSequenceNames n)) reg, Val true)
      | Fail e => (reg, Fail e)
      | Panics m => (reg, Panics m)
      end
  end.
Definition registerYBNames (reg : NameRegistry) : NameRegistry * res bool :=
  match YBDB (params reg) with
  | None => (reg, Fail (errorString "target db is nil"))
  | Some yb =>
      let n := names reg in
      let default := match p_TargetDBSchema (params reg) with s :: _ => s | [] => DefaultYBSchemaName n end in
      let default := if bool_decide (is_Some (SourceDBTableNames n)) && bool_decide (SourceDBType n = POSTGRESQL)
                     then DefaultSourceDBSchemaName n else default in
      let schemas := if decide (SourceDBType n = POSTGRESQL) then SourceDBSchemaNames n else p_TargetDBSchema (params reg) in
      let reg := update (λ n, mkNames (SourceDBType n) (SourceDBSchemaNames n) (DefaultSourceDBSchemaName n)
        (SourceDBTableNames n) schemas default (YBTableNames n) (DefaultSourceReplicaDBSchemaName n)
        (SourceDBSequenceNames n) (YBSequenceNames n)) reg in
      match queryNames (yb_GetAllTableNamesRaw yb) (yb_GetAllSequencesRaw yb) schemas with
      | Val (tableMap, sequenceMap) =>
          (update (λ n, mkNames (if decide (Role (params reg) = IMPORT_FILE_ROLE) then YUGABYTEDB else SourceDBType n)
             (SourceDBSchemaNames n) (DefaultSourceDBSchemaName n) (SourceDBTableNames n) (YBSchemaNames n)
             (DefaultYBSchemaName n) (Some tableMap) (DefaultSourceReplicaDBSchemaName n) (SourceDBSequenceNames n)
             (Some sequenceMap)) reg, Val true)
      | Fail e => (reg, Fail e)
      | Panics m => (reg, Panics m)
      end
  end.
(** Writing to the nil map panics. *)
Definition setDefaultSourceReplicaDBSchemaName (schema : string) (reg : NameRegistry) : NameRegistry * res unit :=
  let reg := update (λ n, mkNames (SourceDBType n) (SourceDBSchemaNames n) (DefaultSourceDBSchemaName n)
    (SourceDBTableNames n) (YBSchemaNames n) (DefaultYBSchemaName n) (YBTableNames n) schema
    (SourceDBSequenceNames n) (YBSequenceNames n)) reg in
  match SourceDBTableNames (names reg) with
  | None => (reg, Panics "assignment to entry in nil map")
  | Some m =>
      (update (λ n, mkNames (SourceDBType n) (SourceDBSchemaNames n) (DefaultSourceDBSchemaName n)
         (Some (<[schema := namesIn m (DefaultSourceDBSchemaName n)]> m)) (YBSchemaNames n) (DefaultYBSchemaName n)
         (YBTableNames n) (DefaultSourceReplicaDBSchemaName n) (SourceDBSequenceNames n) (YBSequenceNames n)) reg, Val tt)
  end.
Definition registerNames (reg : NameRegistry) : NameRegistry * res bool :=
  let role := Role (params reg) in
  let n := names reg in
  if bool_decide (role = SOURCE_DB_EXPORTER_ROLE) && bool_decide (SourceDBTableNames n = None) then registerSourceNames reg
  else if bool_decide (role ∈ [TARGET_DB_IMPORTER_ROLE; IMPORT_FILE_ROLE]) && bool_decide (YBTableNames n = None) then registerYBNames reg
  else if bool_decide (role = SOURCE_REPLICA_DB_IMPORTER_ROLE) && bool_decide (DefaultSourceReplicaDBSchemaName n = "") then
    let targetSchema := match p_TargetDBSchema (params reg) with s :: _ => s | [] => "" end in
    let defaultSchema := if decide (SourceDBType n = POSTGRESQL) then DefaultSourceDBSchemaName n else targetSchema in
    let '(reg, r) := setDefaultSourceReplicaDBSchemaName defaultSchema reg in
    (reg, _ ← r; Val true)
  else (reg, Val false).

(** ** The file *)
(** A write that fails, or during which the process dies, leaves what no reader accepts. *)
Inductive file : Type := NoFile | Stored (n : Names) | Unreadable.
(** [json.Unmarshal] into a registry in use: slices are replaced, maps gain the file's entries. *)
Definition loadMap (stored m : NamesMap) : NamesMap :=
  match stored with None => None | Some s => Some (s ∪ default ∅ m) end.
Definition loadNames (s n : Names) : Names :=
  mkNames (SourceDBType s) (SourceDBSchemaNames s) (DefaultSourceDBSchemaName s)
    (loadMap (SourceDBTableNames s) (SourceDBTableNames n)) (YBSchemaNames s) (DefaultYBSchemaName s)
    (loadMap (YBTableNames s) (YBTableNames n)) (DefaultSourceReplicaDBSchemaName s)
    (loadMap (SourceDBSequenceNames s) (SourceDBSequenceNames n)) (loadMap (YBSequenceNames s) (YBSequenceNames n)).
Definition save (written : bool) (f : file) (reg : NameRegistry) : file * res unit :=
  match f with
  | Unreadable => (f, Fail (errorString "unmarshal json"))
  | _ => if written then (Stored (names reg), Val tt) else (Unreadable, Fail (errorString "write file"))
  end.
Definition load (f : file) (reg : NameRegistry) : res NameRegistry :=
  match f with
  | NoFile => Val reg
  | Stored s => Val (update (loadNames s) reg)
  | Unreadable => Fail (wrapError "load name registry" (errorString "unmarshal json"))
  end.
(** What [Init] does with the registry it has loaded; another command may come between. *)
Definition registerAndSave (written : bool) (f : file) (reg : NameRegistry) : file * NameRegistry * res unit :=
  match registerNames reg with
  | (reg, Val true) => let '(f, r) := save written f reg in (f, reg, wrap "create/update name registry" r)
  | (reg, Val false) => (f, reg, Val tt)
  | (reg, Fail e) => (f, reg, Fail (wrapError "register names" e))
  | (reg, Panics m) => (f, reg, Panics m)
  end.
Definition Init (written : bool) (f : file) (reg : NameRegistry) : file * NameRegistry * res unit :=
  match load f reg with
  | Val reg => registerAndSave written f reg
  | Fail e => (f, reg, Fail e)
  | Panics m => (f, reg, Panics m)
  end.
Definition UnRegisterYBNames (written : bool) (f : file) (reg : NameRegistry) : file * NameRegistry * res unit :=
  let reg := update (λ n, mkNames (SourceDBType n) (SourceDBSchemaNames n) (DefaultSourceDBSchemaName n)
    (SourceDBTableNames n) [] "" None (DefaultSourceReplicaDBSchemaName n) (SourceDBSequenceNames n) (YBSequenceNames n)) reg in
  let '(f, r) := save written f reg in (f, reg, r).
(** [InitNameRegistry] of cmd/common.go; with [reregisterYBNames] the target's names are taken anew. *)
Definition InitNameRegistry (written : bool * bool * bool) (f : file) (p : NameRegistryParams) (reregisterYBNames : bool)
    : file * NameRegistry * res unit :=
  let '(w1, w2, w3) := written in
  match Init w1 f (NewNameRegistry p) with
  | (f, reg, Val tt) =>
      if reregisterYBNames then
        match UnRegisterYBNames w2 f reg with
        | (f, reg, Val tt) => Init w3 f reg
        | (f, reg, r) => (f, reg, wrap "unregister yb names" r)
        end
      else (f, reg, Val tt)
  | r => r
  end.
(** A registry of given tables that is never filed. *)
Definition NewInMemorySourceNameRegistry (dbType : string) (schemas : list string) (tablesBySchema : NamesMap) : NameRegistry :=
  initSourceDBSchemaNames
    (mkRegistry (mkNames dbType [] "" tablesBySchema [] "" None "" None None)
       (mkParams SOURCE_DB_EXPORTER_ROLE dbType schemas "" None [] None)).

(** ** Schemas named in the configuration *)
Definition SchemaNameMatcher (dbType : string) (allSchemas : list Identifier) (schemaConfig : string) : res (list Identifier) :=
  if decide (dbType = MYSQL) then Val [] else
  let unquotedToIdentifierMap : gmap string Identifier := foldl (λ m i, <[Unquoted i := i]> m) ∅ allSchemas in
  '(schemaNotFound, finalSchemaList) ← foldl (λ r schema,
      '(schemaNotFound, finalSchemaList) ← r;
      match matchName "schema" (map_to_list unquotedToIdentifierMap).*1 schema with
      | Val schemaName =>
          Val (schemaNotFound, finalSchemaList ++ [default zeroIdentifier (unquotedToIdentifierMap !! schemaName)])
      | Fail (ErrNameNotFound _ _) =>
          Val (schemaNotFound ++ [schema], finalSchemaList ++ [default zeroIdentifier (unquotedToIdentifierMap !! "")])
      | Fail e => Fail e
      | Panics m => Panics m
      end) (Val ([], [])) (Split "," schemaConfig);
  if (0 <? length schemaNotFound)%nat
  then Fail (errorString ("Following schemas are not present in source database: " +:+ Join ", " schemaNotFound +:+
                          ", please provide a valid schema list."))
  else Val finalSchemaList.

(** ** Lemmas: results *)
Lemma res_bind_Val {A B} (f : A → res B) (r : res A) b : r ≫= f = Val b ↔ ∃ a, r = Val a ∧ f a = Val b.
Proof. destruct r; cbn; naive_solver. Qed.
Lemma lift_Val {A} (r : result A) a : lift r = Val a ↔ r = Ok a.
Proof. destruct r; cbn; naive_solver. Qed.
Lemma to_result_Ok {A} (r : res A) a : to_result r = Ok a ↔ r = Val a.
Proof. destruct r; cbn; naive_solver. Qed.
Lemma wrap_Val {A} msg (r : res A) a : wrap msg r = Val a ↔ r = Val a.
Proof. destruct r; cbn; naive_solver. Qed.

(** ** Lemmas: matching *)
(** Equality up to case. *)
Definition same (a b : string) : Prop := ToLower a = ToLower b.
#[global] Instance same_dec a b : Decision (same a b).
Proof. unfold same. apply _. Defined.
#[global] Instance same_equiv : Equivalence same.
Proof. split; unfold same; congruence. Qed.
Lemma ToLower_idemp s : ToLower (ToLower s) = ToLower s.
Proof.
  assert (∀ c, ascii_lower (ascii_lower c) = ascii_lower c) as H
    by (intros [[] [] [] [] [] [] [] []]; vm_compute; reflexivity).
  unfold ToLower. induction s as [|c s IH]; cbn; [done|]. by rewrite H, IH.
Qed.
Definition candidates (names : list string) (b : string) : list string := filter (λ n, same n b) names.
Lemma match_loop_spec b ns cand :
  match_loop b ns cand = if decide (b ∈ ns) then inl b else inr (cand ++ candidates ns b).
Proof.
  revert cand. induction ns as [|n ns IH]; intros cand; cbn [match_loop].
  - rewrite decide_False by set_solver. by rewrite app_nil_r.
  - destruct (decide (n = b)) as [->|Hn]; [by rewrite decide_True by set_solver|].
    rewrite IH. unfold candidates, EqualFold. rewrite filter_cons.
    destruct (decide (b ∈ ns)) as [H|H].
    + by rewrite decide_True by set_solver.
    + rewrite (decide_False (P := b ∈ n :: ns)) by set_solver. change (same n b) with (ToLower n = ToLower b).
      destruct (decide (ToLower n = ToLower b)).
      * rewrite bool_decide_true by done. by rewrite <- app_assoc.
      * by rewrite bool_decide_false by done.
Qed.
Lemma matchName_eq ot ns q b :
  bareName ot q = Val b →
  matchName ot ns q = if decide (b ∈ ns) then Val b else
    match candidates ns b with
    | [] => Fail (ErrNameNotFound ot b)
    | [n] => Val n
    | l => Fail (ErrMultipleMatchingNames ot l)
    end.
Proof.
  intros Hb. unfold matchName. rewrite Hb. cbn. rewrite match_loop_spec. case_decide; [done|].
  destruct (candidates ns b) as [|? [|? ?]]; done.
Qed.
Lemma candidates_elem ns b n : n ∈ candidates ns b ↔ n ∈ ns ∧ same n b.
Proof. unfold candidates. rewrite list_elem_of_filter. tauto. Qed.
Lemma matchName_inv ot ns q n :
  matchName ot ns q = Val n → n ∈ ns ∧ ∃ b, bareName ot q = Val b ∧ same n b.
Proof.
  intros H. assert (∃ b, bareName ot q = Val b) as [b Hb].
  { unfold matchName in H. apply res_bind_Val in H as (b & ? & _). eauto. }
  rewrite (matchName_eq _ _ _ _ Hb) in H. case_decide as Hin.
  - injection H as <-. split; [done|]. by exists b.
  - destruct (candidates ns b) as [|c [|? ?]] eqn:Hc; [done| |done]. injection H as <-.
    destruct (proj1 (candidates_elem ns b c)) as [? ?]; [rewrite Hc; by left|]. eauto.
Qed.
Lemma matchName_exact ot ns q b : bareName ot q = Val b → b ∈ ns → matchName ot ns q = Val b.
Proof. intros Hb Hin. rewrite (matchName_eq _ _ _ _ Hb). by case_decide. Qed.

(** Names no two of which are equal up to case. *)
Definition unambiguous (ns : list string) : Prop := NoDup (ToLower <$> ns).
Lemma unambiguous_candidates ns b : unambiguous ns → candidates ns b = [] ∨ ∃ n, candidates ns b = [n].
Proof.
  intros H. destruct (candidates ns b) as [|x [|y l]] eqn:Hc; [by left|by right; exists x|exfalso].
  assert (NoDup (ToLower <$> candidates ns b)) as Hnd.
  { unfold candidates. clear Hc. unfold unambiguous in H. induction ns as [|n ns IH]; [done|].
    cbn in H. apply NoDup_cons in H as [Hn H]. rewrite filter_cons. case_decide; [|by apply IH].
    cbn. apply NoDup_cons. split; [|by apply IH]. intros (m & Hm & Hin)%list_elem_of_fmap.
    apply list_elem_of_filter in Hin as [_ Hin]. apply Hn. rewrite Hm. by apply list_elem_of_fmap_2. }
  assert (same x b ∧ same y b) as [Hx Hy].
  { split; eapply candidates_elem; rewrite Hc; set_solver. }
  rewrite Hc in Hnd. cbn in Hnd. apply NoDup_cons in Hnd as [Hnd _]. apply Hnd.
  rewrite Hx, <- Hy. by left.
Qed.
Lemma matchName_unambiguous ot ns q b : unambiguous ns → bareName ot q = Val b →
  matchName ot ns q = match candidates ns b with n :: _ => Val n | [] => Fail (ErrNameNotFound ot b) end.
Proof.
  intros Hu Hb. rewrite (matchName_eq _ _ _ _ Hb). case_decide as Hin.
  - assert (b ∈ candidates ns b) as H by (by apply candidates_elem).
    destruct (unambiguous_candidates ns b Hu) as [Hc|[n Hc]]; rewrite Hc in H |- *; [set_solver|].
    apply list_elem_of_singleton in H as ->. done.
  - destruct (unambiguous_candidates ns b Hu) as [->|[n ->]]; done.
Qed.
Lemma candidates_same ns b b' : same b b' → candidates ns b = candidates ns b'.
Proof. intros H. unfold candidates. apply list_filter_iff. intros x. by rewrite H. Qed.

(** ** Lemmas: names, keys and their parts *)
(** A name the registry can file: it is not empty, has no dot and does not start with a quote. *)
Definition plainName (s : string) : bool :=
  negb (bool_decide (s = "")) && negb (str_has "." s) && negb (first_is dq s) && negb (first_is bq s).
Lemma plainName_spec s : plainName s = true →
  s ≠ "" ∧ str_has "." s = false ∧ first_is dq s = false ∧ first_is bq s = false ∧ IsQuoted s = false.
Proof.
  unfold plainName. rewrite !andb_true_iff, !negb_true_iff, bool_decide_eq_false.
  intros [[[H1 H2] H3] H4]. repeat split; try done. unfold IsQuoted. rewrite H3, H4. by case_match.
Qed.
Lemma bareName_plain ot s : plainName s = true → bareName ot s = Val s.
Proof. intros (H & _ & Hd & _)%plainName_spec. unfold bareName. by rewrite decide_False, Hd. Qed.
Lemma quoted_ends s : first_is dq (quoted s) = true ∧ last_is dq (quoted s) = true ∧ (2 ≤ String.length (quoted s))%nat.
Proof.
  pose proof (quoted_IsQuoted s) as H. unfold IsQuoted in H. destruct (_ <? 2)%nat eqn:Hl; [done|].
  apply Nat.ltb_ge in Hl. destruct (last_is dq (quoted s)); [done|]. by rewrite andb_false_r in H.
Qed.
Lemma bareName_quoted ot s : bareName ot (quoted s) = Val s.
Proof.
  destruct (quoted_ends s) as (Hf & Hl & Hn). unfold bareName. rewrite decide_False by done.
  rewrite Hf, Hl. cbn [negb]. rewrite (proj2 (Nat.eqb_neq _ _)) by lia. by rewrite strip_quoted.
Qed.
(** The name an [Identifier] is made of. *)
Definition unquotedName (s : string) : string := if IsQuoted s then strip_ends s else s.
Lemma unquoted_bare ot q b : bareName ot q = Val b → first_is bq b = false → unquotedName q = b.
Proof.
  unfold bareName, unquotedName, IsQuoted. case_decide; [done|].
  destruct (first_is dq q) eqn:Hd.
  - destruct (last_is dq q) eqn:Hl; [|done]. cbn [negb]. destruct (String.length q =? 1)%nat eqn:H1; [done|].
    intros [= <-] _. apply Nat.eqb_neq in H1. destruct (String.length q <? 2)%nat eqn:H2; [|done].
    apply Nat.ltb_lt in H2. destruct q as [|c q]; [done|]. destruct q; cbn in *; lia.
  - intros [= <-] ->. by destruct (_ <? 2)%nat.
Qed.
Lemma unquotedName_quoted s : unquotedName (quoted s) = s.
Proof. unfold unquotedName. by rewrite quoted_IsQuoted, strip_quoted. Qed.
Lemma unquotedName_plain s : plainName s = true → unquotedName s = s.
Proof. intros (_ & _ & _ & _ & H)%plainName_spec. unfold unquotedName. by rewrite H. Qed.
Lemma same_first_bq a b : same a b → first_is bq a = first_is bq b.
Proof.
  assert (∀ c, bool_decide (ascii_lower c = bq) = bool_decide (c = bq)) as Hc
    by (intros [[] [] [] [] [] [] [] []]; vm_compute; reflexivity).
  unfold same. destruct a as [|c a], b as [|d b]; cbn; [done..|]. intros [= H _]. by rewrite <- Hc, H, Hc.
Qed.
Lemma splitName_key s t : str_has "." s = false → str_has "." t = false →
  splitName (s +:+ "." +:+ t) = Val (s, t).
Proof.
  intros Hs Ht. unfold splitName. change (s +:+ "." +:+ t) with (s +:+ String "." t).
  by rewrite Split_app, Split_none.
Qed.
Lemma splitName_bare t : str_has "." t = false → splitName t = Val ("", t).
Proof. intros Ht. unfold splitName. by rewrite Split_none. Qed.

(** ** Lemmas: one side's lookup *)
Definition default_of (d p : string) : string := if decide (p = "") then d else p.
Lemma lookup_eq db m d p n : default_of d p ≠ "" →
  lookup db m d p n =
    s ← matchName "schema" (keysOf m) (default_of d p); t ← matchName "table" (namesIn m s) n;
    lift (NewObjectName db d s t).
Proof. unfold lookup, default_of. intros H. case_decide; [by rewrite decide_False by done|done]. Qed.
Lemma lookup_inv db m d p n o : lookup db m d p n = Val o →
  default_of d p ≠ "" ∧ ∃ s t, matchName "schema" (keysOf m) (default_of d p) = Val s ∧
    matchName "table" (namesIn m s) n = Val t ∧ NewObjectName db d s t = Ok o.
Proof.
  intros H. assert (default_of d p ≠ "") as Hd.
  { unfold lookup, default_of in *. case_decide; [|done]. by destruct (decide (d = "")). }
  split; [done|]. rewrite lookup_eq in H by done. apply res_bind_Val in H as (s & Hs & H).
  apply res_bind_Val in H as (t & Ht & H%lift_Val). eauto.
Qed.
Lemma keysOf_elem m s : s ∈ keysOf m ↔ is_Some (m !! s).
Proof.
  unfold keysOf. rewrite list_elem_of_fmap. split.
  - intros ([k v] & -> & H%elem_of_map_to_list). by exists v.
  - intros [v H]. exists (s, v). by rewrite elem_of_map_to_list.
Qed.

(** What every name of a map satisfies. *)
Definition allPlain (m : gmap string (list string)) : Prop :=
  ∀ s ts, m !! s = Some ts → plainName s = true ∧ ∀ t, t ∈ ts → plainName t = true.
Definition allUnambiguous (m : gmap string (list string)) : Prop :=
  unambiguous (keysOf m) ∧ ∀ s, unambiguous (namesIn m s).
Lemma allPlain_names m s t : allPlain m → s ∈ keysOf m → t ∈ namesIn m s → plainName s = true ∧ plainName t = true.
Proof. intros H [ts Hs]%keysOf_elem. unfold namesIn. rewrite Hs. cbn. destruct (H _ _ Hs). auto. Qed.

Lemma bareName_Fail ot q e : bareName ot q = Fail e → ∃ msg, e = errorString msg.
Proof. unfold bareName. repeat case_match; intros [= <-]; eauto. Qed.
Lemma matchName_multiple ot ns q e ot' l : matchName ot ns q = Fail e → cause e = ErrMultipleMatchingNames ot' l →
  ∃ b, bareName ot q = Val b ∧ l = candidates ns b.
Proof.
  intros H Hc. destruct (bareName ot q) as [b|e'|] eqn:Hb.
  - exists b. split; [done|]. rewrite (matchName_eq _ _ _ _ Hb) in H. case_decide; [done|].
    destruct (candidates ns b) as [|? [|? ?]]; [|done|]; injection H as <-; [done|]. by injection Hc as _ <-.
  - unfold matchName in H. rewrite Hb in H. injection H as <-. by destruct (bareName_Fail _ _ _ Hb) as [msg ->].
  - unfold matchName in H. by rewrite Hb in H.
Qed.
Lemma lift_Fail {A} (r : result A) e : lift r = Fail e → ∃ msg, e = errorString msg.
Proof. destruct r; intros [= <-]; eauto. Qed.

(** A name found on one side is that of a table of the map, with the schema the name
    asked for and the table it asked for up to case. *)
Lemma lookupSide_inv look n ci msg ig o : lookupSide look n ci msg ig = Val (Some o) →
  look n = Val o ∨ ∃ e ot ns, look n = Fail e ∧ cause e = ErrMultipleMatchingNames ot ns ∧ ci ∈ ns ∧ look ci = Val o.
Proof.
  unfold lookupSide. destruct (look n) as [o'|e|m] eqn:Hn; [by intros [= <-]; left| |done].
  destruct (cause e) as [| ot ns | |] eqn:Hc; try by case_match.
  destruct (decide (ci ∈ ns)) as [H|]; [|by case_match].
  destruct (look ci) as [o'|e'|m] eqn:Hci; [intros [= <-]; eauto 10|by case_match|done].
Qed.
Lemma lookupSide_found look n ci msg ig o : look n = Val o → lookupSide look n ci msg ig = Val (Some o).
Proof. unfold lookupSide. by intros ->. Qed.
Lemma lookupSide_msg look n ci msg ig x msg' :
  lookupSide look n ci msg ig = Val x → lookupSide look n ci msg' ig = Val x.
Proof. unfold lookupSide. repeat case_match; done. Qed.
Lemma side_found db m d p n ci msg ig o :
  allPlain m → lookupSide (lookup db m d p) n ci msg ig = Val (Some o) →
  ∃ s t b, default_of d p ≠ "" ∧ matchName "schema" (keysOf m) (default_of d p) = Val s ∧ s ∈ keysOf m ∧ t ∈ namesIn m s ∧
    bareName "table" n = Val b ∧ same t b ∧ NewObjectName db d s t = Ok o.
Proof.
  intros Hp [H|(e & ot & ns & Hn & Hc & Hci & H)]%lookupSide_inv; apply lookup_inv in H as (Hd & s & t & Hs & Ht & Ho);
    exists s, t; destruct (matchName_inv _ _ _ _ Hs) as [Hsin _]; destruct (matchName_inv _ _ _ _ Ht) as [Htin (b & Hb & Hsame)].
  - exists b. done.
  - rewrite lookup_eq, Hs in Hn by done. cbn in Hn.
    destruct (matchName "table" (namesIn m s) n) as [t'|e'|] eqn:Hm; cbn in Hn; [|injection Hn as ->|done].
    { apply lift_Fail in Hn as [msg' ->]. done. }
    destruct (matchName_multiple _ _ _ _ _ _ Hm Hc) as (b' & Hb' & ->).
    apply candidates_elem in Hci as [Hcin Hci]. exists b'. split_and!; try done.
    assert (plainName ci = true) as Hplain by (by apply (allPlain_names m s ci)).
    rewrite (bareName_plain _ _ Hplain) in Hb. injection Hb as <-. by rewrite Hsame.
Qed.

(** Where no two names are equal up to case, what is found depends on the names up to case only. *)
Inductive sameOutcome {A} : res A → res A → Prop :=
  | so_val a : sameOutcome (Val a) (Val a)
  | so_notFound t n t' n' : sameOutcome (Fail (ErrNameNotFound t n)) (Fail (ErrNameNotFound t' n'))
  | so_msg m m' : sameOutcome (Fail (errorString m)) (Fail (errorString m'))
  | so_panic m : sameOutcome (Panics m) (Panics m).
Lemma matchName_sameOutcome ot ns q q' b b' :
  unambiguous ns → bareName ot q = Val b → bareName ot q' = Val b' → same b b' →
  sameOutcome (matchName ot ns q) (matchName ot ns q').
Proof.
  intros Hu Hb Hb' Hs. rewrite (matchName_unambiguous _ _ _ _ Hu Hb), (matchName_unambiguous _ _ _ _ Hu Hb').
  rewrite (candidates_same ns b b' Hs). destruct (candidates ns b'); constructor.
Qed.
Lemma sameOutcome_bind {A B} (r r' : res A) (f f' : A → res B) :
  sameOutcome r r' → (∀ a, r = Val a → sameOutcome (f a) (f' a)) → sameOutcome (r ≫= f) (r' ≫= f').
Proof. destruct 1; cbn; [auto|constructor..]. Qed.
Lemma sameOutcome_lift {A} (r : result A) : sameOutcome (lift r) (lift r).
Proof. destruct r; constructor. Qed.
Lemma matchName_self ot ns q : unambiguous ns → sameOutcome (matchName ot ns q) (matchName ot ns q).
Proof.
  intros Hu. destruct (bareName ot q) as [b|e|m] eqn:Hb.
  - by eapply matchName_sameOutcome.
  - unfold matchName. rewrite Hb. destruct (bareName_Fail _ _ _ Hb) as [msg ->]. cbn. constructor.
  - unfold matchName. rewrite Hb. cbn. constructor.
Qed.
Lemma lookup_sameOutcome db m d p p' n n' b b' :
  allUnambiguous m → bareName "table" n = Val b → bareName "table" n' = Val b' → same b b' →
  p = p' ∨ (p ≠ "" ∧ p' ≠ "" ∧ ∃ a a', bareName "schema" p = Val a ∧ bareName "schema" p' = Val a' ∧ same a a') →
  sameOutcome (lookup db m d p n) (lookup db m d p' n').
Proof.
  intros [Hu Hus] Hb Hb' Hs Hp. destruct (decide (default_of d p = "")) as [Hd|Hd].
  { assert (p = "" ∧ d = "") as [-> ->].
    { unfold default_of in Hd. by case_decide. }
    assert (p' = "") as -> by (destruct Hp as [<-|(? & _)]; done). constructor. }
  assert (default_of d p' ≠ "") as Hd'.
  { destruct Hp as [<-|(? & ? & _)]; [done|]. unfold default_of. by rewrite decide_False by done. }
  rewrite !lookup_eq by done. apply sameOutcome_bind.
  - destruct Hp as [<-|(Hp & Hp' & a & a' & Ha & Ha' & Hsa)]; [by apply matchName_self|].
    unfold default_of. rewrite !decide_False by done. by eapply matchName_sameOutcome.
  - intros s _. apply sameOutcome_bind; [|intros; apply sameOutcome_lift]. by eapply matchName_sameOutcome.
Qed.
Lemma lookupSide_sameOutcome look look' n n' ci ci' msg msg' ig x :
  sameOutcome (look n) (look' n') → lookupSide look n ci msg ig = Val x → lookupSide look' n' ci' msg' ig = Val x.
Proof. unfold lookupSide. destruct 1; destruct ig; done. Qed.

(** ** Lemmas: default schemas *)
Definition defaultNames (reg : NameRegistry) : list string :=
  unquotedName <$> [DefaultSourceDBSchemaName (names reg); DefaultSourceReplicaDBSchemaName (names reg); DefaultYBSchemaName (names reg)].
Lemma NewIdentifier_eq db q : NewIdentifier db q =
  (x ← quote2 db (unquotedName q); m ← minQuote2 (unquotedName q) db; Ok (mkIdentifier x (unquotedName q) m)).
Proof. unfold NewIdentifier, unquotedName, unquote. by destruct (IsQuoted q). Qed.
Lemma NewIdentifier_total db q i : NewIdentifier db q = Ok i →
  ∀ q', ∃ m, minQuote2 (unquotedName q') db = Ok m ∧
    NewIdentifier db q' = Ok (mkIdentifier (quoted (unquotedName q')) (unquotedName q') m).
Proof.
  rewrite NewIdentifier_eq. intros H q'. rewrite NewIdentifier_eq. generalize (unquotedName q'). intros u.
  apply bind_Ok in H as (x & Hx & (m & Hm & _)%bind_Ok). unfold quote2 in *. destruct (_ || _) eqn:Hdb; [|done].
  assert (∃ m, minQuote2 u db = Ok m) as [m' Hm'].
  { unfold minQuote2 in *. repeat case_match; simplify_eq; eauto. }
  exists m'. split; [done|]. by rewrite Hm'.
Qed.
Lemma check_spec reg q b : checkIfSchemaNameIsDefault reg q = Val b →
  ∀ q', checkIfSchemaNameIsDefault reg q' = Val (bool_decide (unquotedName q' ∈ defaultNames reg)).
Proof.
  unfold checkIfSchemaNameIsDefault. intros (i & Hi%lift_Val & _)%res_bind_Val q'.
  pose proof (NewIdentifier_total _ _ _ Hi) as H. clear Hi q b.
  destruct (H q') as (m & Hm & ->). destruct (H (DefaultSourceDBSchemaName (names reg))) as (md & Hmd & ->).
  destruct (H (DefaultSourceReplicaDBSchemaName (names reg))) as (mr & Hmr & ->).
  destruct (H (DefaultYBSchemaName (names reg))) as (my & Hmy & ->). cbn [mbind res_bind lift].
  assert (∀ u x, minQuote2 u (SourceDBType (names reg)) = Ok x →
    Equals (mkIdentifier (quoted (unquotedName q')) (unquotedName q') m) (mkIdentifier (quoted u) u x) = bool_decide (unquotedName q' = u)) as HE.
  { intros u x Hx. unfold Equals. cbn [Quoted Unquoted MinQuoted]. destruct (decide (unquotedName q' = u)) as [<-|Hne].
    - assert (x = m) as -> by congruence. by rewrite !bool_decide_true.
    - rewrite (bool_decide_false (unquotedName q' = u)) by done. by rewrite andb_false_r. }
  rewrite !HE by done. f_equal. unfold defaultNames. rewrite <- !bool_decide_or. apply bool_decide_ext. cbn. set_solver.
Qed.

(** ** Looking a table up by its key *)
Definition sourceNames (reg : NameRegistry) : NamesMap :=
  createAllObjectNamesMap (SourceDBTableNames (names reg)) (SourceDBSequenceNames (names reg)).
Definition targetNames (reg : NameRegistry) : NamesMap :=
  createAllObjectNamesMap (YBTableNames (names reg)) (YBSequenceNames (names reg)).
(** Source names are plain, the default schema of the source side is registered, and no
    two names of the target are equal up to case. *)
Record wellFormed (reg : NameRegistry) : Prop := {
  wf_plain m : sourceNames reg = Some m → allPlain m;
  wf_default m : sourceNames reg = Some m →
    DefaultSourceSideSchemaName reg = "" ∨ DefaultSourceSideSchemaName reg ∈ keysOf m;
  wf_target m : targetNames reg = Some m → allUnambiguous m }.
(** A default schema, where the name has one, is spelled as it is registered. *)
Definition schemaSpelled (reg : NameRegistry) (arg : string) : Prop :=
  ∀ p n, splitName arg = Val (p, n) →
    unquotedName p ∈ defaultNames reg ∨ ∀ d, d ∈ defaultNames reg → ¬ same (unquotedName p) d.
Lemma default_is_default reg : plainName (DefaultSourceSideSchemaName reg) = true →
  DefaultSourceSideSchemaName reg ∈ defaultNames reg.
Proof.
  intros H. rewrite <- (unquotedName_plain _ H). unfold defaultNames. apply list_elem_of_fmap_2.
  unfold DefaultSourceSideSchemaName. case_decide; set_solver.
Qed.
(** The schema part of a name and that of the key of what it finds lead to the same schemas. *)
Lemma schema_of_key reg m p s :
  wellFormed reg → sourceNames reg = Some m →
  (unquotedName p ∈ defaultNames reg ∨ ∀ d, d ∈ defaultNames reg → ¬ same (unquotedName p) d) →
  let p1 := if bool_decide (unquotedName p ∈ defaultNames reg) then "" else p in
  let k1 := if bool_decide (s ∈ defaultNames reg) then "" else quoted s in
  default_of (DefaultSourceSideSchemaName reg) p1 ≠ "" →
  matchName "schema" (keysOf m) (default_of (DefaultSourceSideSchemaName reg) p1) = Val s →
  default_of (DefaultSourceSideSchemaName reg) k1 ≠ "" ∧
  matchName "schema" (keysOf m) (default_of (DefaultSourceSideSchemaName reg) k1) = Val s ∧
  (p1 = k1 ∨ (p1 ≠ "" ∧ k1 ≠ "" ∧ ∃ a a', bareName "schema" p1 = Val a ∧ bareName "schema" k1 = Val a' ∧ same a a')).
Proof.
  intros Hwf Hm Hsp p1 k1 Hne Hs. destruct (matchName_inv _ _ _ _ Hs) as [Hin (a & Ha & Hsa)].
  destruct (decide (p1 = "")) as [Hp1|Hp1].
  - pose proof Hs as Hs0. rewrite Hp1 in *. clear p1 Hp1. unfold default_of in Hs, Hne, Ha. rewrite decide_True in Hs, Hne, Ha by done.
    destruct (wf_default _ Hwf m Hm) as [?|Hd]; [done|].
    assert (plainName (DefaultSourceSideSchemaName reg) = true) as Hpl.
    { apply keysOf_elem in Hd as [ts Hts]. by destruct (wf_plain _ Hwf m Hm _ _ Hts). }
    rewrite (matchName_exact _ _ _ _ (bareName_plain _ _ Hpl) Hd) in Hs. injection Hs as <-.
    assert (k1 = "") as -> by (unfold k1; by rewrite bool_decide_true by (by apply default_is_default)).
    auto.
  - unfold default_of in Hs, Ha. rewrite decide_False in Hs, Ha by done.
    unfold p1 in *. destruct (decide (unquotedName p ∈ defaultNames reg)) as [Hd|Hd].
    { by rewrite bool_decide_true in Hp1. }
    rewrite bool_decide_false in * by done.
    assert (plainName s = true) as Hpl.
    { apply keysOf_elem in Hin as [ts Hts]. by destruct (wf_plain _ Hwf m Hm _ _ Hts). }
    assert (unquotedName p = a) as Hua.
    { apply (unquoted_bare "schema"); [done|]. rewrite <- (same_first_bq _ _ Hsa). by apply plainName_spec in Hpl as (_ & _ & _ & ? & _). }
    assert (k1 = quoted s) as ->.
    { unfold k1. rewrite bool_decide_false; [done|]. intros Hk. destruct Hsp as [?|Hsp]; [done|].
      apply (Hsp _ Hk). by rewrite Hua, Hsa. }
    unfold default_of. rewrite decide_False by done. pose proof (bareName_quoted "schema" s) as Hq.
    split_and!; [done|by apply matchName_exact|]. right. split_and!; [done|done|]. by exists a, s.
Qed.
Lemma key_lookup reg arg ig s tgt :
  wellFormed reg → schemaSpelled reg arg →
  lookupSourceAndTargetTableNames reg arg ig false = Val (Some s, tgt) →
  lookupSourceAndTargetTableNames reg (Quoted (Qualified s)) ig false = Val (Some s, tgt).
Proof.
  intros Hwf Hsp. unfold lookupSourceAndTargetTableNames. rewrite andb_false_r.
  destruct (_ && xorb _ _); [done|]. fold (sourceNames reg) (targetNames reg).
  intros ([p n] & Hsplit & H)%res_bind_Val. specialize (Hsp p n Hsplit). apply res_bind_Val in H as (isD & Hck & H).
  pose proof (check_spec _ _ _ Hck) as Hcheck. rewrite (Hcheck p) in Hck. injection Hck as <-.
  set (p1 := if bool_decide (unquotedName p ∈ defaultNames reg) then "" else p) in *.
  apply res_bind_Val in H as (src & Hsrc & (tg & Htg & H)%res_bind_Val).
  assert (src = Some s ∧ tg = tgt) as [-> ->] by (destruct src, tg; by simplify_eq). clear H.
  destruct (sourceNames reg) as [m|] eqn:Hm; [|done].
  pose proof (wf_plain _ Hwf m Hm) as Hplain.
  destruct (side_found _ _ _ _ _ _ _ _ _ Hplain Hsrc) as (S & T & b & Hne & HS & HSin & HTin & Hb & HT & Ho).
  destruct (allPlain_names m S T Hplain HSin HTin) as [HpS HpT].
  destruct (plainName_spec _ HpS) as (_ & HdS & _ & _ & HqS). destruct (plainName_spec _ HpT) as (_ & HdT & _ & _ & HqT).
  destruct (NewObjectName_bare _ _ _ _ _ HqS HqT Ho) as [-> _].
  rewrite splitName_key by (by apply dot_quoted). cbn [mbind res_bind].
  rewrite Hcheck, unquotedName_quoted. cbn [mbind res_bind].
  set (k1 := if bool_decide (S ∈ defaultNames reg) then "" else quoted S).
  destruct (schema_of_key reg m p S Hwf Hm Hsp Hne HS) as (Hne' & HS' & Hpk). fold p1 k1 in Hne', HS', Hpk.
  assert (lookup (SourceDBType (names reg)) m (DefaultSourceSideSchemaName reg) k1 (quoted T) = Val s) as Hks.
  { rewrite lookup_eq, HS' by done. cbn [mbind res_bind].
    rewrite (matchName_exact _ _ _ _ (bareName_quoted _ T) HTin). cbn [mbind res_bind]. by rewrite Ho. }
  rewrite (lookupSide_found _ _ _ _ _ _ Hks). cbn [mbind res_bind].
  destruct (targetNames reg) as [m'|] eqn:Hm'; [|by injection Htg as <-].
  assert (∀ msg, lookupSide (lookup YUGABYTEDB m' (DefaultYBSchemaName (names reg)) k1) (quoted T) (ToLower (quoted T)) msg ig = Val tgt) as ->; [|done].
  intros msg. eapply lookupSide_sameOutcome; [|exact Htg].
  eapply lookup_sameOutcome; [by apply (wf_target _ Hwf)|done|apply bareName_quoted|by symmetry|done].
Qed.
Lemma LookupTableName_Val reg arg t : LookupTableName reg arg = Val t ↔
  ∃ p, lookupSourceAndTargetTableNames reg arg false false = Val p ∧ t = tupleOf reg p.
Proof. unfold LookupTableName. rewrite res_bind_Val. naive_solver. Qed.
Lemma LookupIgnore_Val reg arg t : LookupTableNameAndIgnoreIfTargetNotFoundBasedOnRole reg arg = Val t ↔
  ∃ p, lookupSourceAndTargetTableNames reg arg
         (bool_decide (Role (params reg) ∈ [TARGET_DB_IMPORTER_ROLE; SOURCE_DB_EXPORTER_STATUS_ROLE; SOURCE_DB_EXPORTER_ROLE])) false = Val p ∧
       t = tupleOf reg p.
Proof.
  unfold LookupTableNameAndIgnoreIfTargetNotFoundBasedOnRole. case_decide as H.
  - rewrite bool_decide_true by done. setoid_rewrite res_bind_Val. setoid_rewrite wrap_Val. naive_solver.
  - rewrite bool_decide_false by done. apply LookupTableName_Val.
Qed.

(** The registry of a migration from Oracle: two tables on either side, no two of which
    are equal up to case. *)
Definition sampleNames : Names :=
  mkNames ORACLE ["SAKILA"] "SAKILA" (Some {["SAKILA" := ["TABLE1"; "MixedCaps"]]}) ["public"] "public"
    (Some {["public" := ["table1"; "mixedcaps"]]}) "" (Some {["SAKILA" := ["SEQ1"]]}) (Some {["public" := ["seq1"]]}).
Definition sampleParams (role : string) : NameRegistryParams := mkParams role "" [] "" None [] None.
Definition sampleRegistry : NameRegistry := mkRegistry sampleNames (sampleParams TARGET_DB_IMPORTER_ROLE).
Definition plainMap (m : gmap string (list string)) : bool :=
  forallb (λ p, plainName p.1 && forallb plainName p.2) (map_to_list m).
Lemma plainMap_spec m : plainMap m = true → allPlain m.
Proof.
  unfold plainMap. rewrite forallb_forall. intros H s ts Hs%elem_of_map_to_list.
  specialize (H _ (proj1 (list_elem_of_In _ _) Hs)). cbn in H. apply andb_true_iff in H as [? H]. split; [done|].
  intros t Ht. rewrite forallb_forall in H. by apply H, list_elem_of_In.
Qed.
#[global] Instance unambiguous_dec ns : Decision (unambiguous ns).
Proof. unfold unambiguous. apply _. Defined.
Definition unambiguousMap (m : gmap string (list string)) : bool :=
  bool_decide (unambiguous (keysOf m)) && forallb (λ p, bool_decide (unambiguous p.2)) (map_to_list m).
Lemma unambiguousMap_spec m : unambiguousMap m = true → allUnambiguous m.
Proof.
  unfold unambiguousMap. rewrite andb_true_iff, bool_decide_eq_true, forallb_forall. intros [Hk H]. split; [done|].
  intros s. unfold namesIn. destruct (m !! s) as [ts|] eqn:Hs; cbn; [|constructor].
  apply elem_of_map_to_list in Hs. specialize (H _ (proj1 (list_elem_of_In _ _) Hs)). by apply bool_decide_eq_true in H.
Qed.
Lemma wellFormed_check reg m m' :
  sourceNames reg = Some m → targetNames reg = Some m' → plainMap m = true →
  DefaultSourceSideSchemaName reg ∈ keysOf m → unambiguousMap m' = true → wellFormed reg.
Proof.
  intros Hm Hm' Hp Hd Hu. split; intros m0; rewrite ?Hm, ?Hm'; intros [= <-].
  - by apply plainMap_spec. - by right. - by apply unambiguousMap_spec.
Qed.

(** A name qualified by a default schema of the source, of the source replica or of
    the target finds what the unqualified name finds. *)
Theorem default_schema_optional (reg : NameRegistry) (d n : string) (t : NameTuple) :
  unquotedName d ∈ defaultNames reg → str_has "." d = false → str_has "." n = false →
  LookupTableName reg (d +:+ "." +:+ n) = Val t ↔ LookupTableName reg n = Val t.
Proof.
  intros Hd Hdd Hdn. rewrite !LookupTableName_Val. apply exist_proper. intros p.
  unfold lookupSourceAndTargetTableNames. cbn [andb]. destruct (_ && xorb _ _); [naive_solver|].
  fold (sourceNames reg) (targetNames reg). rewrite splitName_key, splitName_bare by done. cbn [mbind res_bind].
  assert (∀ q b, checkIfSchemaNameIsDefault reg q = Val b →
    checkIfSchemaNameIsDefault reg d = Val true ∧ ∃ b', checkIfSchemaNameIsDefault reg "" = Val b') as Hcheck.
  { intros q b Hq. pose proof (check_spec _ _ _ Hq) as H. rewrite !H, bool_decide_true by done. eauto. }
  split; intros [(b & Hb & H)%res_bind_Val ->]; destruct (Hcheck _ _ Hb) as [Hd' [b' Hb']]; (split; [|done]).
  1: rewrite Hb', Hd' in *. 2: rewrite Hd', Hb' in *.
  all: injection Hb as <-; cbn [mbind res_bind] in *; replace (if b' then "" else "") with "" in * by (by destruct b').
  all: apply res_bind_Val in H as (src & Hsrc & (tgt & Htgt & H)%res_bind_Val); rewrite Hsrc; cbn [mbind res_bind].
  all: destruct (targetNames reg) as [m|]; [rewrite (lookupSide_msg _ _ _ _ _ _ _ Htgt)|injection Htgt as <-]; cbn [mbind res_bind].
  all: destruct src; try destruct tgt; done.
Qed.
Definition sampleTuple : NameTuple :=
  match LookupTableName sampleRegistry "table1" with Val t => t | _ => NIL_NAME_TUPLE end.
Lemma default_schema_optional_witness :
  ForKey sampleTuple = quoted "SAKILA" +:+ "." +:+ quoted "TABLE1" ∧
  LookupTableName sampleRegistry ("SAKILA" +:+ "." +:+ "table1") = Val sampleTuple.
Proof.
  split; [vm_compute; reflexivity|].
  apply (proj2 (default_schema_optional sampleRegistry "SAKILA" "table1" sampleTuple ltac:(vm_compute; set_solver) eq_refl eq_refl)).
  vm_compute. reflexivity.
Defined.

(** ** A name whose key is not found *)
Lemma matchName_several ot ns q b x y : bareName ot q = Val b → b ∉ ns → x ≠ y → x ∈ candidates ns b → y ∈ candidates ns b →
  matchName ot ns q = Fail (ErrMultipleMatchingNames ot (candidates ns b)).
Proof.
  intros Hb Hn Hxy Hx Hy. rewrite (matchName_eq _ _ _ _ Hb), decide_False by done.
  destruct (candidates ns b) as [|c [|c' l]]; [set_solver| |done].
  apply list_elem_of_singleton in Hx as ->. by apply list_elem_of_singleton in Hy as ->.
Qed.
Lemma lookup_schema db m d n : plainName d = true → d ∈ keysOf m →
  lookup db m d "" n = t ← matchName "table" (namesIn m d) n; lift (NewObjectName db d d t).
Proof.
  intros Hd Hin. pose proof Hd as (Hne & _)%plainName_spec. rewrite lookup_eq; unfold default_of; rewrite decide_True by done; [|done].
  by rewrite (matchName_exact _ _ _ _ (bareName_plain _ _ Hd) Hin).
Qed.
Lemma NewObjectName_total db d s t : db ∈ knownTypes → plainName s = true → plainName t = true →
  ∃ o, NewObjectName db d s t = Ok o ∧ Quoted (Qualified o) = quoted s +:+ "." +:+ quoted t.
Proof.
  intros Hdb (_ & _ & _ & _ & Hs)%plainName_spec (_ & _ & _ & _ & Ht)%plainName_spec.
  unfold NewObjectName. rewrite Hs, Ht.
  destruct (quotes_total db s Hdb) as (-> & sv & ->), (quotes_total db t Hdb) as (-> & tv & ->). cbn [mbind result_bind].
  eexists. split; [reflexivity|]. done.
Qed.
Lemma check_known reg q : SourceDBType (names reg) ∈ knownTypes →
  checkIfSchemaNameIsDefault reg q = Val (bool_decide (unquotedName q ∈ defaultNames reg)).
Proof.
  intros H. assert (∃ b, checkIfSchemaNameIsDefault reg "" = Val b) as [b Hb]; [|by eapply check_spec].
  assert (∀ u, ∃ i, NewIdentifier (SourceDBType (names reg)) u = Ok i) as Hi.
  { intros u. rewrite NewIdentifier_eq. destruct (quotes_total _ (unquotedName u) H) as (-> & v & ->). cbn. eauto. }
  unfold checkIfSchemaNameIsDefault. destruct (Hi "") as [? ->], (Hi (DefaultSourceDBSchemaName (names reg))) as [? ->],
    (Hi (DefaultSourceReplicaDBSchemaName (names reg))) as [? ->], (Hi (DefaultYBSchemaName (names reg))) as [? ->]. cbn. eauto.
Qed.

(** Where the target has a table's name in lower case and in another case besides, as
    after a migration of two tables whose names differ by case only, the upper-case table
    is found by its name, but not by the key the migration files it under: the retry in
    lower case keeps the key's quotes and matches nothing. *)
Theorem key_of_case_variant_fails (reg : NameRegistry) (m m' : gmap string (list string)) (T x : string) :
  let D := DefaultSourceSideSchemaName reg in let D' := DefaultYBSchemaName (names reg) in
  sourceNames reg = Some m → targetNames reg = Some m' → SourceDBType (names reg) ∈ knownTypes →
  plainName D = true → plainName D' = true → D ∈ keysOf m → D' ∈ keysOf m' → allPlain m' →
  plainName T = true → T ∈ namesIn m D → T ∉ namesIn m' D' →
  ToLower T ∈ namesIn m' D' → x ∈ namesIn m' D' → x ≠ ToLower T → same x T →
  ∃ t, LookupTableName reg T = Val t ∧
       ∃ e ns, LookupTableName reg (ForKey t) = Fail e ∧ cause e = ErrMultipleMatchingNames "table" ns.
Proof.
  intros D D' Hm Hm' Hdb HD HD' HDm HDm' Hpl HT HTm Hn Hlow Hx Hne Hsame.
  pose proof (plainName_spec _ HT) as (HTe & HTd & _). pose proof (plainName_spec _ HD) as (HDe & HDd & _).
  pose proof (plainName_spec _ HD') as (HDe' & _).
  assert (∀ ot, bareName ot T = Val T) as HbT by (intros; by apply bareName_plain).
  assert (x ∈ candidates (namesIn m' D') T ∧ ToLower T ∈ candidates (namesIn m' D') T) as [Hcx HcT].
  { split; apply candidates_elem; (split; [done|]); [done|]. unfold same. apply ToLower_idemp. }
  assert (plainName (ToLower T) = true) as HlT by (by apply (allPlain_names m' D' _ Hpl HDm')).
  destruct (NewObjectName_total _ D D T Hdb HD HT) as (s & Hs & Hkey).
  destruct (NewObjectName_total YUGABYTEDB D' D' (ToLower T)) as (tg & Htg & _); [vm_compute; set_solver|done|done|].
  assert (∀ arg p n, splitName arg = Val (p, n) → p = "" ∨ unquotedName p = D → bareName "table" n = Val T →
    LookupTableName reg arg = t ← lookupSide (lookup YUGABYTEDB m' D' "") n (ToLower n) ("lookup target table name [" +:+ arg +:+ "]") false;
                              Val (tupleOf reg (Some s, t))) as Hlook.
  { intros arg p n Harg Hp Hb. unfold LookupTableName, lookupSourceAndTargetTableNames. fold D D'. cbn [andb].
    rewrite (bool_decide_false (D = "")), (bool_decide_false (D' = "")) by done. rewrite andb_false_r.
    fold (sourceNames reg) (targetNames reg). rewrite Harg. cbn [mbind res_bind]. rewrite check_known by done. cbn [mbind res_bind].
    assert ((if bool_decide (unquotedName p ∈ defaultNames reg) then "" else p) = "") as ->.
    { destruct Hp as [->|Hp]; [by case_match|]. rewrite bool_decide_true; [done|]. rewrite Hp. by apply default_is_default. }
    rewrite Hm, Hm'. rewrite (lookupSide_found (lookup (SourceDBType (names reg)) m D "") n _ _ _ s).
    2:{ rewrite (lookup_schema _ m D) by done. rewrite (matchName_exact _ _ _ _ Hb HTm). cbn. by rewrite Hs. }
    cbn [mbind res_bind]. by destruct (lookupSide _ _ _ _ _) as [[]| |]. }
  assert (∀ n, bareName "table" n = Val T → lookup YUGABYTEDB m' D' "" n = Fail (ErrMultipleMatchingNames "table" (candidates (namesIn m' D') T))) as Hmult.
  { intros n Hb. rewrite lookup_schema by done. by rewrite (matchName_several _ _ _ _ _ _ Hb Hn Hne Hcx HcT). }
  exists (tupleOf reg (Some s, Some tg)). split.
  - rewrite (Hlook T "" T); [|by apply splitName_bare|by left|done].
    unfold lookupSide. rewrite Hmult by done. cbn [cause]. rewrite decide_True by done.
    rewrite lookup_schema by done. rewrite (matchName_exact _ _ _ _ (bareName_plain _ _ HlT) Hlow). cbn. by rewrite Htg.
  - assert (ForKey (tupleOf reg (Some s, Some tg)) = quoted D +:+ "." +:+ quoted T) as -> by done.
    rewrite (Hlook _ (quoted D) (quoted T)); [|apply splitName_key; by apply dot_quoted|right; apply unquotedName_quoted|apply bareName_quoted].
    unfold lookupSide. rewrite Hmult by (apply bareName_quoted). cbn [cause].
    rewrite decide_False; [cbn; eauto|]. intros Hin. apply candidates_elem in Hin as [Hin _].
    assert (plainName (ToLower (quoted T)) = true) as Hq by (by apply (allPlain_names m' D' _ Hpl HDm')).
    by apply plainName_spec in Hq as (_ & _ & Hq & _).
Qed.
Definition variantRegistry : NameRegistry :=
  mkRegistry (mkNames ORACLE ["SAKILA"] "SAKILA" (Some {["SAKILA" := ["TABLE1"; "TABLE2"; "Table2"]]}) ["public"] "public"
    (Some {["public" := ["table1"; "table2"; "Table2"]]}) "" None None) (sampleParams TARGET_DB_IMPORTER_ROLE).
Lemma key_of_case_variant_fails_witness :
  ∃ t, LookupTableName variantRegistry "TABLE2" = Val t ∧
       ∃ e ns, LookupTableName variantRegistry (ForKey t) = Fail e ∧ cause e = ErrMultipleMatchingNames "table" ns.
Proof.
  eapply (key_of_case_variant_fails variantRegistry _ _ "TABLE2" "Table2"); [vm_compute; reflexivity..|vm_compute; set_solver| | | | | | | | | | | | ].
  1-2: vm_compute; reflexivity.
  1-2: apply keysOf_elem; vm_compute; eauto.
  - apply plainMap_spec. vm_compute. reflexivity.
  - vm_compute. reflexivity.
  - vm_compute. set_solver.
  - vm_compute. set_solver.
  - vm_compute. set_solver.
  - vm_compute. set_solver.
  - vm_compute. discriminate.
  - vm_compute. reflexivity.
Defined.

(** ** The registry over the commands of a migration *)
(** Commands one after the other; [import data file] has export directories of its own. *)
Inductive session (f : file) : file → Prop :=
  | s_init written p reregister :
      Role p ≠ IMPORT_FILE_ROLE → session f (InitNameRegistry written f p reregister).1.1
  | s_again w1 w2 p :
      Role p ≠ IMPORT_FILE_ROLE → session f (Init w2 (Init w1 f (NewNameRegistry p)).1.1 (Init w1 f (NewNameRegistry p)).1.2).1.1.
Section kept.
(** The registry as it was when the source's names had been registered. *)
Context (n : Names) (m : gmap string (list string)).
Let D : string := DefaultSourceDBSchemaName n.
Context (Htables : SourceDBTableNames n = Some m).
(** Only PostgreSQL has several schemas. *)
Context (Hschemas : SourceDBType n = POSTGRESQL ∨ ∀ s, is_Some (m !! s) → s = D).
(** What every later registry keeps of it. *)
Record kept (n' : Names) : Prop := {
  k_type : SourceDBType n' = SourceDBType n;
  k_default : DefaultSourceDBSchemaName n' = D;
  k_sequences : SourceDBSequenceNames n' = SourceDBSequenceNames n;
  k_tables : ∃ m', SourceDBTableNames n' = Some m' ∧ ∀ s ts, m !! s = Some ts → m' !! s = Some ts;
  k_defaults : SourceDBType n = POSTGRESQL →
    DefaultYBSchemaName n' ∈ [""; D] ∧ DefaultSourceReplicaDBSchemaName n' ∈ [""; D] }.
Definition keptFile (f : file) : Prop := match f with NoFile => False | Stored n' => kept n' | Unreadable => True end.
Definition keptRegistry (reg : NameRegistry) : Prop := names reg = noNames ∨ kept (names reg).

Lemma load_kept f reg reg' : keptFile f → keptRegistry reg → load f reg = Val reg' → kept (names reg') ∧ params reg' = params reg.
Proof.
  destruct f as [|s|]; [done| |done]. intros [H1 H2 H3 (m' & H4 & H5) H6] Hreg [= <-]. split; [|done].
  split; cbn; try done.
  - rewrite H3. destruct Hreg as [->|Hreg]; [cbn|rewrite (k_sequences _ Hreg)]; destruct (SourceDBSequenceNames n) as [q|]; cbn; try done.
    + by rewrite (right_id_L ∅ (∪)). + by rewrite map_union_idemp.
  - rewrite H4. cbn. eexists. split; [done|]. intros s' ts Hs. apply lookup_union_Some_l. auto.
Qed.
Lemma registerNames_kept reg : Role (params reg) ≠ IMPORT_FILE_ROLE → kept (names reg) →
  kept (names (registerNames reg).1) ∧ params (registerNames reg).1 = params reg.
Proof.
  intros Hrole H. pose proof H as [H1 H2 H3 (m' & H4 & H5) H6]. unfold registerNames.
  rewrite (bool_decide_false (SourceDBTableNames _ = None)) by (by rewrite H4). rewrite andb_false_r.
  destruct (_ && bool_decide (YBTableNames _ = None)).
  { unfold registerYBNames. destruct (YBDB (params reg)) as [yb|]; [|done].
    assert (∀ schemas yt ys t, kept (mkNames (SourceDBType (names reg)) (SourceDBSchemaNames (names reg)) (DefaultSourceDBSchemaName (names reg))
      (SourceDBTableNames (names reg)) schemas
      (if bool_decide (is_Some (SourceDBTableNames (names reg))) && bool_decide (SourceDBType (names reg) = POSTGRESQL)
       then DefaultSourceDBSchemaName (names reg) else t) yt (DefaultSourceReplicaDBSchemaName (names reg))
      (SourceDBSequenceNames (names reg)) ys)) as Hk.
    { intros schemas yt ys t. split; cbn; [done..|eauto|]. intros Hpg. destruct (H6 Hpg) as [_ ?]. split; [|done].
      rewrite H4, H1, Hpg, H2. cbn. set_solver. }
    destruct (queryNames _ _ _) as [[yt ys]|e|msg]; cbn; [|auto..]. rewrite decide_False by done. auto. }
  destruct (_ && _); [|done]. unfold setDefaultSourceReplicaDBSchemaName. cbn [update names SourceDBTableNames]. rewrite H4. cbn.
  split; [|done]. set (X := if decide (SourceDBType (names reg) = POSTGRESQL) then _ else _).
  split; cbn; try done.
  - eexists. split; [done|]. intros s ts Hs. destruct (decide (s = X)) as [->|Hne]; [|rewrite lookup_insert_ne by done; auto].
    rewrite lookup_insert_eq. unfold namesIn. rewrite H2.
    assert (X = D) as HX by (unfold X in *; rewrite H1 in *; case_decide; [done|]; destruct Hschemas as [|Hall]; [done|]; eauto).
    rewrite HX in Hs. by rewrite (H5 _ _ Hs).
  - intros Hpg. destruct (H6 Hpg) as [? _]. split; [done|]. unfold X. rewrite H1, H2, decide_True by done. set_solver.
Qed.
Lemma save_kept w f reg : keptFile f → kept (names reg) → keptFile (save w f reg).1.
Proof. intros Hf Hr. unfold save. destruct f; [|destruct w|]; done. Qed.
Lemma Init_kept w f reg : Role (params reg) ≠ IMPORT_FILE_ROLE → keptFile f → keptRegistry reg →
  keptFile (Init w f reg).1.1 ∧ keptRegistry (Init w f reg).1.2 ∧ params (Init w f reg).1.2 = params reg ∧
  ((Init w f reg).2 = Val tt → kept (names (Init w f reg).1.2)).
Proof.
  intros Hrole Hf Hr. unfold Init. destruct (load f reg) as [reg1|e|msg] eqn:Hl; [|done..].
  destruct (load_kept _ _ _ Hf Hr Hl) as [Hk Hp]. rewrite <- Hp in Hrole |- *.
  destruct (registerNames_kept _ Hrole Hk) as [Hk' Hp']. unfold registerAndSave.
  destruct (registerNames reg1) as [reg2 [[]|e|msg]]; cbn in Hk', Hp'; unfold keptRegistry; cbn; auto.
  pose proof (save_kept w f reg2 Hf Hk') as Hs. destruct (save w f reg2) as [f' r]. cbn in *. auto.
Qed.
Lemma UnRegister_kept w f reg : keptFile f → kept (names reg) →
  keptFile (UnRegisterYBNames w f reg).1.1 ∧ keptRegistry (UnRegisterYBNames w f reg).1.2 ∧
  params (UnRegisterYBNames w f reg).1.2 = params reg.
Proof.
  intros Hf [H1 H2 H3 H4 H5]. unfold UnRegisterYBNames. set (reg' := update _ reg).
  assert (kept (names reg')) as Hk.
  { split; cbn; [done..|]. intros Hpg. destruct (H5 Hpg). split; [set_solver|done]. }
  pose proof (save_kept w f reg' Hf Hk) as Hs. destruct (save w f reg') as [f' r]. cbn in *. split_and!; [done|by right|done].
Qed.
Lemma session_kept f f' : session f f' → keptFile f → keptFile f'.
Proof.
  assert (∀ p, keptRegistry (NewNameRegistry p)) as Hnew by (by left).
  destruct 1 as [[[w1 w2] w3] p rr Hrole|w1 w2 p Hrole]; intros Hf; cbn.
  all: destruct (Init_kept w1 f (NewNameRegistry p) Hrole Hf (Hnew p)) as (Hf1 & Hr1 & Hp1 & Hk1).
  - destruct (Init w1 f (NewNameRegistry p)) as [[f1 reg1] [[]| |]]; cbn in *; try done.
    destruct rr; [|done]. destruct (UnRegister_kept w2 f1 reg1 Hf1 (Hk1 eq_refl)) as (Hf2 & Hr2 & Hp2).
    destruct (UnRegisterYBNames w2 f1 reg1) as [[f2 reg2] [[]| |]]; cbn in *; try done.
    apply Init_kept; [by rewrite Hp2, Hp1|done|done].
  - apply Init_kept; [by rewrite Hp1|done|done].
Qed.
Lemma sessions_kept f f' : rtc session f f' → keptFile f → keptFile f'.
Proof. induction 1; eauto using session_kept. Qed.
End kept.

(** ** The first registration, and what later commands find *)
Lemma queryNames_dom tables seqs l a b : queryNames tables seqs l = Val (a, b) → ∀ s, (is_Some (a !! s) ↔ s ∈ l) ∧ (is_Some (b !! s) ↔ s ∈ l).
Proof.
  unfold queryNames. rewrite lift_Val.
  assert (∀ l (a0 b0 a b : gmap string (list string)), foldM (λ '(tableMap, sequenceMap) schemaName,
     tableNames ← tables schemaName; seqNames ← seqs schemaName;
     Ok (<[schemaName := tableNames]> tableMap, <[schemaName := namesIn sequenceMap schemaName ++ seqNames]> sequenceMap))
     (a0, b0) l = Ok (a, b) → ∀ s, (is_Some (a !! s) ↔ s ∈ l ∨ is_Some (a0 !! s)) ∧ (is_Some (b !! s) ↔ s ∈ l ∨ is_Some (b0 !! s))) as H.
  { clear. intros l. induction l as [|x l IH]; intros a0 b0 a b; cbn [foldM].
    - intros [= <- <-] s. set_solver.
    - intros ([a1 b1] & (ts & Hts & (qs & Hqs & [= <- <-])%bind_Ok)%bind_Ok & Hf)%bind_Ok s.
      destruct (IH _ _ _ _ Hf s) as [-> ->]. rewrite elem_of_cons. destruct (decide (s = x)) as [->|Hne].
      + rewrite !lookup_insert_eq. split; naive_solver.
      + rewrite !lookup_insert_ne by done. split; naive_solver. }
  intros Hf s. destruct (H _ _ _ _ _ Hf s) as [-> ->]. rewrite lookup_empty. split; (split; [intros [?|[? ?]]; done|by left]).
Qed.
(** The exporter's first command: its catalogue's schemas, the default among them. *)
Lemma first_registration p f reg :
  Role p = SOURCE_DB_EXPORTER_ROLE → p_SourceDBType p ∈ [ORACLE; MYSQL; POSTGRESQL] →
  (p_SourceDBType p = ORACLE → length (p_SourceDBSchema p) = 1%nat) →
  Init true NoFile (NewNameRegistry p) = (f, reg, Val tt) →
  ∃ m q, f = Stored (names reg) ∧ params reg = p ∧ SourceDBTableNames (names reg) = Some m ∧
    SourceDBSequenceNames (names reg) = Some q ∧ (∀ s, is_Some (q !! s) → is_Some (m !! s)) ∧
    SourceDBType (names reg) = p_SourceDBType p ∧
    (DefaultSourceDBSchemaName (names reg) = "" ∨ is_Some (m !! DefaultSourceDBSchemaName (names reg))) ∧
    (SourceDBType (names reg) = POSTGRESQL ∨ ∀ s, is_Some (m !! s) → s = DefaultSourceDBSchemaName (names reg)) ∧
    DefaultYBSchemaName (names reg) = "" ∧ DefaultSourceReplicaDBSchemaName (names reg) = "" ∧ targetNames reg = None.
Proof.
  intros Hrole Htype Hone. unfold Init, load, registerAndSave, registerNames, NewNameRegistry. cbn [params names noNames SourceDBTableNames].
  rewrite Hrole. rewrite !bool_decide_true by done. cbn [andb]. unfold registerSourceNames. cbn [params].
  destruct (SDB p) as [sdb|]; [|done]. set (reg1 := initSourceDBSchemaNames _).
  destruct (queryNames _ _ _) as [[tm sm]|e|msg] eqn:Hq; [|done..]. cbn [save]. intros [= <- <-].
  pose proof (queryNames_dom _ _ _ _ _ Hq) as Hdom. clear Hq. exists tm, sm.
  unfold reg1, initSourceDBSchemaNames in *. cbn in *. set (l := if decide (p_SourceDBType p = ORACLE) then _ else _) in *.
  assert (p_SourceDBType p = POSTGRESQL ∨ ∃ s, l = [s]) as Hl.
  { rewrite !elem_of_cons in Htype. destruct Htype as [H|[H|[H|H]]]; [..|set_solver]; unfold l; rewrite H in *.
    - right. specialize (Hone eq_refl). destruct (p_SourceDBSchema p) as [|s [|]]; try done. by exists s.
    - right. by eexists.
    - by left. }
  clearbody l. split_and!; try done.
  - intros s Hs. by apply Hdom, Hdom.
  - destruct l as [|s [|s' l]]; [case_decide; set_solver| |].
    + right. apply Hdom. by left. + case_decide as Hp; [right; by apply Hdom|by left].
  - destruct Hl as [?|[s ->]]; [by left|right]. intros s' Hs'%Hdom. set_solver.
Qed.
(** The lookup of a key whose table the source side has. *)
Lemma lookup_by_key reg m S T o ig b :
  sourceNames reg = Some m → S ∈ keysOf m → T ∈ namesIn m S → plainName S = true → plainName T = true →
  checkIfSchemaNameIsDefault reg "" = Val b →
  (S ∈ defaultNames reg → S = DefaultSourceSideSchemaName reg) →
  NewObjectName (SourceDBType (names reg)) (DefaultSourceSideSchemaName reg) S T = Ok o →
  let k := quoted S +:+ "." +:+ quoted T in
  let k1 := if bool_decide (S ∈ defaultNames reg) then "" else quoted S in
  lookupSourceAndTargetTableNames reg k ig false =
    if bool_decide (Role (params reg) = TARGET_DB_IMPORTER_ROLE) &&
       xorb (bool_decide (DefaultSourceSideSchemaName reg = "")) (bool_decide (DefaultYBSchemaName (names reg) = ""))
    then Fail (errorString ("either both or none of the default schema names should be set: [" +:+
         DefaultSourceSideSchemaName reg +:+ "], [" +:+ DefaultYBSchemaName (names reg) +:+ "]"))
    else tgt ← match targetNames reg with
               | Some m' => lookupSide (lookup YUGABYTEDB m' (DefaultYBSchemaName (names reg)) k1) (quoted T) (ToLower (quoted T))
                              ("lookup target table name [" +:+ k +:+ "]") ig
               | None => Val None
               end;
         Val (Some o, tgt).
Proof.
  intros Hm HS HT HpS HpT Hck HSD Ho k k1. unfold lookupSourceAndTargetTableNames. rewrite andb_false_r.
  destruct (_ && xorb _ _); [done|]. fold (sourceNames reg) (targetNames reg). rewrite Hm.
  pose proof (plainName_spec _ HpS) as (HneS & HdS & _). pose proof (plainName_spec _ HpT) as (_ & HdT & _).
  assert (splitName k = Val (quoted S, quoted T)) as -> by (apply splitName_key; by apply dot_quoted). cbn [mbind res_bind].
  rewrite (check_spec _ _ _ Hck), unquotedName_quoted. cbn [mbind res_bind]. fold k1.
  assert (default_of (DefaultSourceSideSchemaName reg) k1 ≠ "" ∧
          matchName "schema" (keysOf m) (default_of (DefaultSourceSideSchemaName reg) k1) = Val S) as [Hne HmS].
  { unfold k1. destruct (decide (S ∈ defaultNames reg)) as [HSd|HSd].
    - rewrite bool_decide_true by done. unfold default_of. rewrite decide_True by done. rewrite <- (HSD HSd).
      split; [done|]. apply matchName_exact; [by apply bareName_plain|done].
    - rewrite bool_decide_false by done. unfold default_of. rewrite decide_False by done.
      split; [done|]. apply matchName_exact; [apply bareName_quoted|done]. }
  rewrite (lookupSide_found (lookup (SourceDBType (names reg)) m (DefaultSourceSideSchemaName reg) k1) (quoted T) _ _ _ o).
  - cbn [mbind res_bind]. by destruct (match targetNames reg with Some _ => _ | None => _ end) as [[]| |].
  - rewrite lookup_eq, HmS by done. cbn [mbind res_bind].
    rewrite (matchName_exact _ _ _ _ (bareName_quoted _ T) HT). cbn [mbind res_bind]. by rewrite Ho.
Qed.
(** A missing target never makes the lenient lookup of a key fail. *)
Lemma targetSide_found m' d k T msg :
  allUnambiguous m' → (∃ a, bareName "schema" (default_of d k) = Val a) →
  ∃ x, lookupSide (lookup YUGABYTEDB m' d k) (quoted T) (ToLower (quoted T)) msg true = Val x.
Proof.
  intros [Hu Hus] [a Ha]. assert (default_of d k ≠ "") as Hne by (intros H; by rewrite H in Ha).
  unfold lookupSide. rewrite lookup_eq, (matchName_unambiguous _ _ _ _ Hu Ha) by done.
  destruct (candidates _ a) as [|s l]; cbn [mbind res_bind]; [by eexists|].
  rewrite (matchName_unambiguous _ _ _ _ (Hus s) (bareName_quoted _ T)). destruct (candidates _ T) as [|t l']; cbn [mbind res_bind]; [by eexists|].
  assert (∀ u, quote2 YUGABYTEDB u = Ok (quoted u) ∧ ∃ v, minQuote2 u YUGABYTEDB = Ok v) as H
    by (intros; apply quotes_total; vm_compute; set_solver).
  unfold NewObjectName. generalize (if IsQuoted s then strip_ends s else s), (if IsQuoted t then strip_ends t else t). intros u v.
  destruct (H u) as (-> & ? & ->), (H v) as (-> & ? & ->). cbn. by eexists.
Qed.
Lemma createAll_Some m q : createAllObjectNamesMap (Some m) q = Some (union_with (λ a b, Some (a ++ b)) m (default ∅ q)).
Proof. by destruct q. Qed.
Lemma union_names m q s : namesIn (union_with (λ a b, Some (a ++ b)) m q) s = namesIn m s ++ namesIn q s.
Proof. unfold namesIn. rewrite lookup_union_with. destruct (m !! s), (q !! s); cbn; by rewrite ?app_nil_r. Qed.
Lemma union_keys (m q : gmap string (list string)) s : is_Some (union_with (λ a b, Some (a ++ b)) m q !! s) ↔ is_Some (m !! s) ∨ is_Some (q !! s).
Proof. rewrite lookup_union_with. destruct (m !! s), (q !! s); cbn; unfold is_Some; naive_solver. Qed.

(** Oracle's SAKILA is exported, then imported into ybsakila. *)
Definition sampleSource : SourceDBInterface := mkSourceDB (λ _, Ok ["TABLE1"; "MixedCaps"]) (λ _, Ok ["SEQ1"]).
Definition sampleTarget : YBDBInterface := mkYBDB (λ _, Ok ["table1"; "mixedcaps"]) (λ _, Ok ["seq1"]).
Definition exporterParams : NameRegistryParams := mkParams SOURCE_DB_EXPORTER_ROLE ORACLE ["SAKILA"] "ORCL" (Some sampleSource) [] None.
Definition importerParams : NameRegistryParams := mkParams TARGET_DB_IMPORTER_ROLE "" [] "" None ["ybsakila"] (Some sampleTarget).
Definition exportedRegistry : NameRegistry := (Init true NoFile (NewNameRegistry exporterParams)).1.2.
Definition importedFile : file := (InitNameRegistry (true, true, true) (Stored (names exportedRegistry)) importerParams true).1.1.
Definition importedNames : Names := match importedFile with Stored n => n | _ => noNames end.
Definition exportedTuple : NameTuple :=
  match LookupTableName exportedRegistry "mixedcaps" with Val t => t | _ => NIL_NAME_TUPLE end.

(** While the target's names are being taken anew, the file still has its sequences:
    if the new registration does not succeed, no command finds a table by a name without
    a schema any more, source-side commands included. *)
Theorem unregistered_names_block_lookups (reg : NameRegistry) (f : file) (n : Names) (p : NameRegistryParams) (arg table : string) (t : NameTuple) :
  YBSequenceNames (names reg) ≠ None → (UnRegisterYBNames true f reg).1.1 = Stored n →
  splitName arg = Val ("", table) →
  LookupTableName (mkRegistry n p) arg ≠ Val t ∧
  LookupTableNameAndIgnoreIfTargetNotFoundBasedOnRole (mkRegistry n p) arg ≠ Val t.
Proof.
  intros Hseq Hf Hsplit. unfold UnRegisterYBNames, save in Hf.
  assert (∃ q, YBTableNames n = None ∧ DefaultYBSchemaName n = "" ∧ YBSequenceNames n = Some q) as (q & Hyb & Hd & Hq).
  { destruct (YBSequenceNames (names reg)) as [q|] eqn:Hq; [|done]. exists q.
    destruct f; [|..|done]; cbn in Hf; injection Hf as <-; done. }
  rewrite LookupTableName_Val, LookupIgnore_Val. generalize (bool_decide (Role (params (mkRegistry n p)) ∈ [TARGET_DB_IMPORTER_ROLE; SOURCE_DB_EXPORTER_STATUS_ROLE; SOURCE_DB_EXPORTER_ROLE])).
  assert (∀ ig x, lookupSourceAndTargetTableNames (mkRegistry n p) arg ig false ≠ Val x) as H.
  { intros ig x. unfold lookupSourceAndTargetTableNames. rewrite andb_false_r. destruct (_ && xorb _ _); [done|].
    rewrite Hsplit. cbn [mbind res_bind]. intros (b & _ & H)%res_bind_Val.
    replace (if b then "" else "") with "" in H by (by destruct b). apply res_bind_Val in H as (src & _ & (tgt & Ht & _)%res_bind_Val).
    cbn [names] in Ht. rewrite Hyb, Hq, Hd in Ht. cbn in Ht. unfold lookupSide, lookup in Ht. cbn in Ht. by destruct ig. }
  intros b. split; intros (x & Hx & _); by eapply H.
Qed.
Lemma unregistered_names_block_lookups_witness :
  ∃ n, (UnRegisterYBNames true importedFile (mkRegistry importedNames importerParams)).1.1 = Stored n ∧
    LookupTableNameAndIgnoreIfTargetNotFoundBasedOnRole (mkRegistry n exporterParams) "mixedcaps" ≠ Val exportedTuple ∧
    LookupTableNameAndIgnoreIfTargetNotFoundBasedOnRole exportedRegistry "mixedcaps" = Val exportedTuple.
Proof.
  eexists. split; [vm_compute; reflexivity|]. split; [|vm_compute; reflexivity].
  eapply (unregistered_names_block_lookups (mkRegistry importedNames importerParams) importedFile _ exporterParams "mixedcaps" "mixedcaps");
    [vm_compute; discriminate|vm_compute; reflexivity|vm_compute; reflexivity].
Defined.
End NameReg.
