(* ===== verification/RegistryStrategies.v ===== *)
(** * Partitioning strategies kept under the keys of the name registry

    The strategies of PartitionStrategy.v are filed under the tables' keys and read back
    through the registry of NameReg.v: what the first assumes of its registry is what the
    second promises. *)
From S2P Require Import Prelude StructMap SqlName Event AttrNames ConflictCache PartitionStrategy NameReg.
Import SqlName Event NameReg.

Module RegistryStrategies.
(** The registry's strict lookup, as the callers' functions take it. *)
Definition registryLookup (reg : NameRegistry) (name : string) : result NameTuple := to_result (LookupTableName reg name).
Lemma registry_finds_keys reg arg t :
  wellFormed reg → schemaSpelled reg arg → LookupTableName reg arg = Val t → is_Some (nt_SourceName t) →
  registryLookup reg (ForKey t) = Ok t.
Proof.
  intros Hwf Hsp Ht Hs. apply to_result_Ok. apply LookupTableName_Val in Ht as ([src tgt] & H & ->).
  destruct Hs as [s Hs]. cbn in Hs. subst src. apply LookupTableName_Val. exists (Some s, tgt). split; [|done].
  exact (key_lookup _ _ _ _ _ Hwf Hsp H).
Qed.

Section registry.
Context (reg : NameRegistry) (Hwf : wellFormed reg).
Context (importerRole sourceDBType TargetDBType : string).
(** The tables of an import, as the registry gave them. *)
Definition fromRegistry (tableNames : list NameTuple) : Prop :=
  ∀ t, t ∈ tableNames → ∃ arg, schemaSpelled reg arg ∧ LookupTableName reg arg = Val t ∧ is_Some (nt_SourceName t).

(** The strategies that the first run of an import computes and files are what every
    run streams by: with tables the name registry gave, source names that are plain and
    no two target names equal up to case, the load succeeds and gives every table the
    strategy and the columns computed for it. *)
Theorem filed_strategies_load (GetTablesHavingExpressionUniqueIndexes : list NameTuple → result (list NameTuple))
    (TableToGeneratedStoredColumns : option (gmap string (list string)))
    (GetListOfTableAttributes : NameTuple → result (list string)) (cdcPartitionKey cdcPartitionKeyOverrides : string)
    (tableNames : list NameTuple) (st st' : PartitionStrategy.ImportDataStatusRecord)
    (uix : StructMap.t NameTuple (list ConflictCache.UniqueIndex)) (m : PartitionStrategy.Strategies) :
  cdcPartitionKey ∈ PartitionStrategy.validCdcPartitionKeys →
  PartitionStrategy.shouldForceTablePartitioning importerRole sourceDBType TargetDBType = false →
  fromRegistry tableNames →
  PartitionStrategy.computeAndPersistCdcPartitioningStrategyPerTable importerRole sourceDBType TargetDBType (registryLookup reg)
    GetTablesHavingExpressionUniqueIndexes TableToGeneratedStoredColumns GetListOfTableAttributes
    cdcPartitionKey cdcPartitionKeyOverrides tableNames st uix = Ok (m, st') →
  ∃ r, PartitionStrategy.getCdcPartitioningStrategyPerTable importerRole sourceDBType TargetDBType (registryLookup reg) (Some st') tableNames = Ok r ∧
       ∀ k, StructMap.Get r k = StructMap.Get m k.
Proof using Hwf.
  intros Hk Hforce Htables. apply PartitionStrategy.persisted_strategies_load; [done..|].
  intros t Ht. destruct (Htables t Ht) as (arg & Hsp & Hlook & Hs). exists t. split; [|done].
  by eapply registry_finds_keys.
Qed.
End registry.

(** A PostgreSQL schema with one table. *)
Definition usersRegistry : NameRegistry :=
  mkRegistry (mkNames POSTGRESQL ["public"] "public" (Some {["public" := ["users"]]}) ["public"] "public"
    (Some {["public" := ["users"]]}) "" None None) (sampleParams TARGET_DB_IMPORTER_ROLE).
Definition usersTuple : NameTuple := match LookupTableName usersRegistry "users" with Val t => t | _ => NIL_NAME_TUPLE end.
Definition usersResult : PartitionStrategy.Strategies * PartitionStrategy.ImportDataStatusRecord :=
  match PartitionStrategy.computeAndPersistCdcPartitioningStrategyPerTable TARGET_DB_IMPORTER_ROLE POSTGRESQL YUGABYTEDB
          (registryLookup usersRegistry) (λ _, Ok []) PartitionStrategy.sampleCaptured PartitionStrategy.sampleAttributes
          "auto" "public.users:(email)" [usersTuple] PartitionStrategy.sampleStatus StructMap.NewStructMap with
  | Ok r => r
  | _ => (StructMap.NewStructMap, PartitionStrategy.sampleStatus)
  end.
Lemma filed_strategies_load_witness :
  (∃ o, StructMap.Get usersResult.1 usersTuple = Some o) ∧
  ∃ r, PartitionStrategy.getCdcPartitioningStrategyPerTable TARGET_DB_IMPORTER_ROLE POSTGRESQL YUGABYTEDB
         (registryLookup usersRegistry) (Some usersResult.2) [usersTuple] = Ok r ∧
       StructMap.Get r usersTuple = StructMap.Get usersResult.1 usersTuple.
Proof.
  split; [vm_compute; eauto|].
  destruct (filed_strategies_load usersRegistry ltac:(eapply wellFormed_check;
      [vm_compute; reflexivity..|apply keysOf_elem; vm_compute; eauto|vm_compute; reflexivity])
    TARGET_DB_IMPORTER_ROLE POSTGRESQL YUGABYTEDB (λ _, Ok []) PartitionStrategy.sampleCaptured PartitionStrategy.sampleAttributes
    "auto" "public.users:(email)" [usersTuple] PartitionStrategy.sampleStatus usersResult.2 StructMap.NewStructMap usersResult.1)
    as (r & Hr & Hg).
  - apply (bool_decide_unpack _). vm_compute. exact I.
  - vm_compute. reflexivity.
  - intros t Ht. apply list_elem_of_singleton in Ht as ->. exists "users". split; [|split; [vm_compute; reflexivity|vm_compute; eauto]].
    intros p n Hsp. vm_compute in Hsp. injection Hsp as <- <-. left. vm_compute. set_solver.
  - vm_compute. reflexivity.
  - exists r. split; [exact Hr|apply Hg].
Defined.
End RegistryStrategies.
