(* ===== verification/SchemaSnapshot.v ===== *)
(** * Schema snapshots (src/yb-voyager/src/schemasnapshot: snapshot.go, postgres.go,
    capture.go, labels.go)

    What is kept of a source's schema to detect drift, and how the rows of the catalogue
    queries become it: tables first, then their links, columns, constraints and indexes are
    attached to them by OID.  The queries' rows are arguments. *)
From S2P Require Import Prelude SqlName.
Import SqlName.

Module SchemaSnapshot.
(** ** The data *)
Record ObjectRef : Type := mkObjectRef { Schema : string; Name : string }.
#[global] Instance ObjectRef_eq_dec : EqDecision ObjectRef.
Proof. solve_decision. Defined.
#[global] Instance ObjectRef_countable : Countable ObjectRef.
Proof. refine (inj_countable' (λ o, (Schema o, Name o)) (λ p, mkObjectRef p.1 p.2) _). by intros []. Defined.
(** [ForKey]; a database type that is not known panics there, and has no key here. *)
Definition ObjectRef_ForKey (dbType : string) (o : ObjectRef) : string :=
  match NewObjectName dbType "" (Schema o) (Name o) with Ok n => Unquoted (Qualified n) | _ => "" end.

(** A column, constraint or index: its table and its own name. *)
Record TableScopedObjectRef : Type := mkScoped { host : ObjectRef; sc_Name : string }.
#[global] Instance TableScopedObjectRef_eq_dec : EqDecision TableScopedObjectRef.
Proof. solve_decision. Defined.
Definition Scoped_ForKey (dbType : string) (r : TableScopedObjectRef) : string :=
  match NewObjectNameQualifiedWithTableName dbType "" (sc_Name r) (Schema (host r)) (Name (host r)) with
  | Ok n => CatalogName n | _ => "" end.

Inductive TableKind : Type := TableKindOrdinary | TableKindPartitioned | TableKindForeign.
#[global] Instance TableKind_eq_dec : EqDecision TableKind.
Proof. solve_decision. Defined.
Definition TableKind_string (k : TableKind) : string :=
  match k with TableKindOrdinary => "ordinary" | TableKindPartitioned => "partitioned" | TableKindForeign => "foreign" end.
Definition relkindToTableKind (relkind : string) : TableKind :=
  if decide (relkind = "p") then TableKindPartitioned
  else if decide (relkind = "f") then TableKindForeign else TableKindOrdinary.

(** A primary key, unique, check or foreign key constraint, or an index that backs none. *)
Record TableConstraint : Type := mkConstraint { con_ref : TableScopedObjectRef; con_ID : string; con_Definition : string; con_FromParent : bool }.
Record Index : Type := mkIndex { ind_ref : TableScopedObjectRef; ind_ID : string; ind_Definition : string; ind_FromParent : bool }.
Record Column : Type := mkColumn { col_ref : TableScopedObjectRef; col_ID : string; DataType : string; NotNull : bool; Default : string }.
#[global] Instance TableConstraint_eq_dec : EqDecision TableConstraint.
Proof. solve_decision. Defined.
#[global] Instance Index_eq_dec : EqDecision Index.
Proof. solve_decision. Defined.
#[global] Instance Column_eq_dec : EqDecision Column.
Proof. solve_decision. Defined.
Record Table : Type := mkTable {
  ref : ObjectRef; ID : string; Kind : TableKind;
  PartitionParent : option ObjectRef; PartitionChildren : list ObjectRef;
  InheritsFrom : list ObjectRef; InheritedBy : list ObjectRef; Columns : list Column;
  PrimaryKey : option TableConstraint; UniqueKeys : list TableConstraint; UniqueIndexes : list Index;
  Checks : list TableConstraint; ForeignKeys : list TableConstraint; Indexes : list Index }.
#[global] Instance Table_eq_dec : EqDecision Table.
Proof. solve_decision. Defined.
(** The display coordinates are left out. *)
Record SnapshotContent : Type := mkContent { Version : Z; DatabaseType : string; Tables : list Table }.
Definition VersionWithKeysAndIndexes : Z := 2.
Definition currentSnapshotVersion : Z := VersionWithKeysAndIndexes.
Record SnapshotHeader : Type := mkHeader {
  Label : string; Reason : string; Side : string; CapturedAt : Z; DatabaseVersion : string;
  Schemas : list string; IsPlaceholder : bool }.
(** A failed capture has no content. *)
Record SchemaSnapshot : Type := mkSnapshot { Header : SnapshotHeader; Content : option SnapshotContent }.

(** ** Labels *)
Definition LabelExportSchema : string := "export_schema".
Definition LabelExportDataFromSourceStart : string := "export_data_from_source_start".
Definition LabelExportDataFromSourcePeriodic : string := "export_data_from_source_periodic".
Definition LabelExportDataFromSourceExit : string := "export_data_from_source_exit".
Definition LabelSourceLive : string := "source_live".
Definition labelReasons (label : string) : option (list string) :=
  if decide (label ∈ [LabelExportSchema; LabelExportDataFromSourcePeriodic; LabelSourceLive]) then Some []
  else if decide (label = LabelExportDataFromSourceStart) then Some ["initial"; "resume"; "clean_restart"]
  else if decide (label = LabelExportDataFromSourceExit) then Some ["cutover"; "complete"; "interrupt"; "error"]
  else None.
Definition ValidateLabelReason (label reason : string) : result unit :=
  match labelReasons label with
  | None => Err ("unknown snapshot label " +:+ label)
  | Some [] => if decide (reason = "") then Ok () else Err ("label " +:+ label +:+ " does not accept a reason")
  | Some vocab =>
      if decide (reason = "") then Err ("label " +:+ label +:+ " requires a reason")
      else if decide (reason ∈ vocab) then Ok () else Err ("label " +:+ label +:+ " does not accept reason " +:+ reason)
  end.

(** ** Rows of the catalogue *)
Record tableRow : Type := mkTableRow { t_oid : string; t_schema : string; t_name : string; t_relkind : string }.
Record tableLink : Type := mkLink {
  childOID : string; childRef : ObjectRef; parentOID : string; parentRef : ObjectRef; isPartition : bool }.
Record columnRow : Type := mkColumnRow {
  c_tableOID : string; c_attnum : string; c_host : ObjectRef; c_name : string; c_type : string; c_notNull : bool; c_default : string }.
(** A definition is missing when its object was dropped while the queries ran. *)
Record constraintRow : Type := mkConstraintRow {
  k_tableOID : string; k_name : string; k_oid : string; contype : string; k_definition : option string; k_fromParent : bool }.
Record indexRow : Type := mkIndexRow {
  i_tableOID : string; i_name : string; i_oid : string; isUnique : bool; quotedName : string; indexDef : option string;
  tableRegclass : string; i_fromParent : bool }.

Definition loadTable (r : tableRow) : Table :=
  mkTable (mkObjectRef (t_schema r) (t_name r)) (t_oid r) (relkindToTableKind (t_relkind r)) None [] [] [] [] None [] [] [] [] [].
Definition loadColumn (r : columnRow) : Column :=
  mkColumn (mkScoped (c_host r) (c_name r)) (c_tableOID r +:+ ":" +:+ c_attnum r) (c_type r) (c_notNull r) (c_default r).
(** [strings.CutPrefix]. *)
Definition CutPrefix (s prefix : string) : option string :=
  if HasPrefix s prefix then Some (String.substring (String.length prefix) (String.length s) s) else None.
Definition stripIndexDefPrefix (indexDef quotedName tableRegclass : string) (isUnique : bool) : result string :=
  let create := if isUnique then "CREATE UNIQUE INDEX " else "CREATE INDEX " in
  match CutPrefix indexDef (create +:+ quotedName +:+ " ON " +:+ tableRegclass +:+ " ") with
  | Some rest => Ok rest
  | None =>
      match CutPrefix indexDef (create +:+ quotedName +:+ " ON ONLY " +:+ tableRegclass +:+ " ") with
      | Some rest => Ok rest
      | None => Err ("index " +:+ quotedName +:+ ": unexpected definition")
      end
  end.
(** A row once its definition is known: the table's OID, the field, and the object before
    its table is filled in. *)
Definition loadConstraint (r : constraintRow) : result (string * string * (ObjectRef → TableConstraint)) :=
  match k_definition r with
  | None => Err ("constraint " +:+ k_name r +:+ " was dropped while the schema was being captured")
  | Some d => Ok (k_tableOID r, contype r, λ t, mkConstraint (mkScoped t (k_name r)) (k_oid r) d (k_fromParent r))
  end.
Definition loadIndex (r : indexRow) : result (string * bool * (ObjectRef → Index)) :=
  match indexDef r with
  | None => Err ("index " +:+ quotedName r +:+ " was dropped while the schema was being captured")
  | Some d =>
      d ← stripIndexDefPrefix d (quotedName r) (tableRegclass r) (isUnique r);
      Ok (i_tableOID r, isUnique r, λ t, mkIndex (mkScoped t (i_name r)) (i_oid r) d (i_fromParent r))
  end.

(** ** Attaching *)
Definition set_links (parent : option ObjectRef) (children from by_ : list ObjectRef) (t : Table) : Table :=
  mkTable (ref t) (ID t) (Kind t) parent children from by_ (Columns t) (PrimaryKey t) (UniqueKeys t) (UniqueIndexes t)
    (Checks t) (ForeignKeys t) (Indexes t).
Definition add_column (c : Column) (t : Table) : Table :=
  mkTable (ref t) (ID t) (Kind t) (PartitionParent t) (PartitionChildren t) (InheritsFrom t) (InheritedBy t) (Columns t ++ [c])
    (PrimaryKey t) (UniqueKeys t) (UniqueIndexes t) (Checks t) (ForeignKeys t) (Indexes t).
Definition set_constraints (pk : option TableConstraint) (uks cs fks : list TableConstraint) (t : Table) : Table :=
  mkTable (ref t) (ID t) (Kind t) (PartitionParent t) (PartitionChildren t) (InheritsFrom t) (InheritedBy t) (Columns t)
    pk uks (UniqueIndexes t) cs fks (Indexes t).
Definition set_indexes (uis plain : list Index) (t : Table) : Table :=
  mkTable (ref t) (ID t) (Kind t) (PartitionParent t) (PartitionChildren t) (InheritsFrom t) (InheritedBy t) (Columns t)
    (PrimaryKey t) (UniqueKeys t) uis (Checks t) (ForeignKeys t) plain.
(** The index of a table by its OID; of equal ones the last counts. *)
Definition oidToIdx (tables : list Table) : gmap string nat :=
  foldl (λ m p, <[ID p.2 := p.1]> m) ∅ (imap pair tables).
(** The part of a column's ID before its colon. *)
Fixpoint tableOIDof (id : string) : string :=
  match id with "" => "" | String c id => if decide (c = ":"%char) then "" else String c (tableOIDof id) end.
Definition linkTable (lnk : tableLink) (asChild asParent : bool) (t : Table) : Table :=
  match isPartition lnk, asChild, asParent with
  | true, true, _ => set_links (Some (parentRef lnk)) (PartitionChildren t) (InheritsFrom t) (InheritedBy t) t
  | true, _, true => set_links (PartitionParent t) (PartitionChildren t ++ [childRef lnk]) (InheritsFrom t) (InheritedBy t) t
  | false, true, _ => set_links (PartitionParent t) (PartitionChildren t) (InheritsFrom t ++ [parentRef lnk]) (InheritedBy t) t
  | false, _, true => set_links (PartitionParent t) (PartitionChildren t) (InheritsFrom t) (InheritedBy t ++ [childRef lnk]) t
  | _, _, _ => t
  end.
Definition at_oid (idx : gmap string nat) (oid : string) (f : Table → Table) (tables : list Table) : list Table :=
  match idx !! oid with Some i => alter f i tables | None => tables end.
Definition linkTableHierarchy (tables : list Table) (links : list tableLink) : list Table :=
  let idx := oidToIdx tables in
  foldl (λ tables lnk, at_oid idx (parentOID lnk) (linkTable lnk false true) (at_oid idx (childOID lnk) (linkTable lnk true false) tables))
    tables links.
Definition attachColumns (tables : list Table) (columns : list Column) : list Table :=
  let idx := oidToIdx tables in foldl (λ tables c, at_oid idx (tableOIDof (col_ID c)) (add_column c) tables) tables columns.
Definition addConstraint (contype : string) (con : ObjectRef → TableConstraint) (t : Table) : result Table :=
  let con := con (ref t) in
  if decide (contype = "p") then
    match PrimaryKey t with
    | Some pk => Err ("table " +:+ Name (ref t) +:+ " has two primary keys")
    | None => Ok (set_constraints (Some con) (UniqueKeys t) (Checks t) (ForeignKeys t) t)
    end
  else if decide (contype = "u") then Ok (set_constraints (PrimaryKey t) (UniqueKeys t ++ [con]) (Checks t) (ForeignKeys t) t)
  else if decide (contype = "c") then Ok (set_constraints (PrimaryKey t) (UniqueKeys t) (Checks t ++ [con]) (ForeignKeys t) t)
  else if decide (contype = "f") then Ok (set_constraints (PrimaryKey t) (UniqueKeys t) (Checks t) (ForeignKeys t ++ [con]) t)
  else Err ("constraint has unexpected contype " +:+ contype).
Definition addIndex (isUnique : bool) (idx : ObjectRef → Index) (t : Table) : Table :=
  let i := idx (ref t) in
  if isUnique then set_indexes (UniqueIndexes t ++ [i]) (Indexes t) t else set_indexes (UniqueIndexes t) (Indexes t ++ [i]) t.
(** A constraint or index whose table is not in the snapshot is an error. *)
Definition at_oid_r (idx : gmap string nat) (oid : string) (f : Table → result Table) (tables : list Table) : result (list Table) :=
  match idx !! oid with
  | None => Err ("object belongs to table OID " +:+ oid +:+ ", which is not in the snapshot")
  | Some i => match tables !! i with None => Panic "index out of range" | Some t => t' ← f t; Ok (<[i:=t']> tables) end
  end.
Definition attachConstraints (tables : list Table) (rows : list (string * string * (ObjectRef → TableConstraint))) : result (list Table) :=
  let idx := oidToIdx tables in foldM (λ tables r, at_oid_r idx r.1.1 (addConstraint r.1.2 r.2) tables) tables rows.
Definition attachIndexes (tables : list Table) (rows : list (string * bool * (ObjectRef → Index))) : result (list Table) :=
  let idx := oidToIdx tables in foldM (λ tables r, at_oid_r idx r.1.1 (λ t, Ok (addIndex r.1.2 r.2 t)) tables) tables rows.

(** ** A capture *)
(** What the queries return, in their order; a failed one is an error. *)
Record catalog : Type := mkCatalog {
  q_searchPath : result unit; q_version : result (string * Z); q_tables : result (list tableRow); q_links : result (list tableLink);
  q_columns : result (list columnRow); q_constraints : bool → result (list constraintRow); q_indexes : result (list indexRow) }.
Definition minVersionNumConparentid : Z := 110000.
(** The version up to its first space. *)
Fixpoint beforeSpace (s : string) : string :=
  match s with "" => "" | String c s => if decide (c = " "%char) then "" else String c (beforeSpace s) end.
Definition TakeSnapshot (q : catalog) : result (list Table * string) :=
  _ ← q_searchPath q;
  v ← q_version q;
  trows ← q_tables q; links ← q_links q;
  let tables := linkTableHierarchy (map loadTable trows) links in
  crows ← q_columns q;
  let tables := attachColumns tables (map loadColumn crows) in
  krows ← q_constraints q (minVersionNumConparentid <=? v.2); ks ← mapM_result loadConstraint krows;
  tables ← attachConstraints tables ks;
  irows ← q_indexes q; idxs ← mapM_result loadIndex irows;
  tables ← attachIndexes tables idxs;
  Ok (tables, beforeSpace v.1).
Record CaptureParams : Type := mkParams {
  cp_DatabaseType : string; cp_Side : string; cp_Schemas : list string; cp_Label : string; cp_Reason : string }.
Definition SideSource : string := "source".
Definition newHeader (p : CaptureParams) (capturedAt : Z) (dbVersion : string) (isPlaceholder : bool) : SnapshotHeader :=
  mkHeader (cp_Label p) (cp_Reason p) (if decide (cp_Side p = "") then SideSource else cp_Side p) capturedAt dbVersion (cp_Schemas p) isPlaceholder.
(** [begin], [commit]: the transaction's; [now] the clock. *)
Definition Capture (p : CaptureParams) (begin_ : result unit) (q : catalog) (commit : result unit) (now : Z) : result SchemaSnapshot :=
  if decide (cp_Schemas p = []) then Err "schemasnapshot: no schemas in scope for capture" else
  _ ← ValidateLabelReason (cp_Label p) (cp_Reason p);
  _ ← begin_;
  if decide (cp_DatabaseType p = POSTGRESQL) then
    s ← TakeSnapshot q;
    _ ← commit;
    Ok (mkSnapshot (newHeader p now s.2 false) (Some (mkContent currentSnapshotVersion (cp_DatabaseType p) s.1)))
  else Err ("schemasnapshot: unsupported database type " +:+ cp_DatabaseType p).

(** ** What a snapshot holds: each row under its table *)
Definition loadedConstraint : Type := string * string * (ObjectRef → TableConstraint).
Definition loadedIndex : Type := string * bool * (ObjectRef → Index).
Definition constraintsOf (ks : list loadedConstraint) (oid contype : string) (o : ObjectRef) : list TableConstraint :=
  map (λ k, k.2 o) (filter (λ k : loadedConstraint, k.1.1 = oid ∧ k.1.2 = contype) ks).
Definition indexesOf (idxs : list loadedIndex) (oid : string) (unique : bool) (o : ObjectRef) : list Index :=
  map (λ i, i.2 o) (filter (λ i : loadedIndex, i.1.1 = oid ∧ i.1.2 = unique) idxs).
Definition parentsOf (links : list tableLink) (oid : string) (partition : bool) : list ObjectRef :=
  map parentRef (filter (λ l, childOID l = oid ∧ isPartition l = partition) links).
Definition childrenOf (links : list tableLink) (oid : string) (partition : bool) : list ObjectRef :=
  map childRef (filter (λ l, parentOID l = oid ∧ isPartition l = partition) links).
Definition with_links (links : list tableLink) (t : Table) : Table :=
  set_links (match last (parentsOf links (ID t) true) with Some p => Some p | None => PartitionParent t end)
    (PartitionChildren t ++ childrenOf links (ID t) true) (InheritsFrom t ++ parentsOf links (ID t) false)
    (InheritedBy t ++ childrenOf links (ID t) false) t.
Definition add_columns (cols : list Column) (t : Table) : Table :=
  mkTable (ref t) (ID t) (Kind t) (PartitionParent t) (PartitionChildren t) (InheritsFrom t) (InheritedBy t) (Columns t ++ cols)
    (PrimaryKey t) (UniqueKeys t) (UniqueIndexes t) (Checks t) (ForeignKeys t) (Indexes t).
Definition with_columns (cols : list Column) (t : Table) : Table :=
  add_columns (filter (λ c, tableOIDof (col_ID c) = ID t) cols) t.
Definition with_constraints (ks : list loadedConstraint) (t : Table) : Table :=
  set_constraints (match PrimaryKey t with Some pk => Some pk | None => head (constraintsOf ks (ID t) "p" (ref t)) end)
    (UniqueKeys t ++ constraintsOf ks (ID t) "u" (ref t)) (Checks t ++ constraintsOf ks (ID t) "c" (ref t))
    (ForeignKeys t ++ constraintsOf ks (ID t) "f" (ref t)) t.
Definition with_indexes (idxs : list loadedIndex) (t : Table) : Table :=
  set_indexes (UniqueIndexes t ++ indexesOf idxs (ID t) true (ref t)) (Indexes t ++ indexesOf idxs (ID t) false (ref t)) t.

Lemma oidToIdx_snoc ts t : oidToIdx (ts ++ [t]) = <[ID t := length ts]> (oidToIdx ts).
Proof. unfold oidToIdx. rewrite imap_app, foldl_app. cbn. by rewrite Nat.add_0_r. Qed.
Lemma oidToIdx_lookup ts oid i : NoDup (map ID ts) → oidToIdx ts !! oid = Some i ↔ ∃ t, ts !! i = Some t ∧ ID t = oid.
Proof.
  induction ts as [|t ts IH] using rev_ind.
  { intros _. unfold oidToIdx. cbn. rewrite lookup_empty. split; [done|by intros (? & ? & _)]. }
  rewrite map_app. intros (Hts & Hnew & _)%NoDup_app. rewrite oidToIdx_snoc. destruct (decide (ID t = oid)) as [<-|Hne].
  - rewrite lookup_insert_eq. split.
    + intros [= <-]. exists t. by rewrite lookup_app_r, Nat.sub_diag by lia.
    + intros (t' & Ht' & HID). destruct (decide (i < length ts)%nat) as [Hi|Hi].
      * rewrite lookup_app_l in Ht' by done. exfalso. apply (Hnew (ID t)); [|by left].
        rewrite <- HID. apply list_elem_of_fmap. exists t'. split; [done|]. by eapply list_elem_of_lookup_2.
      * rewrite lookup_app_r in Ht' by lia. assert (i - length ts = 0)%nat as Hz; [|f_equal; lia].
        destruct (i - length ts)%nat; [done|]. by destruct n.
  - rewrite lookup_insert_ne, IH by done. split; intros (t' & Ht' & HID); exists t'; (split; [|done]).
    + by apply lookup_app_l_Some.
    + apply lookup_app_Some in Ht' as [?|[_ Ht']]; [done|]. destruct (i - length ts)%nat; [by injection Ht' as ->|by destruct n].
Qed.
Lemma oidToIdx_same ts ts' : map ID ts = map ID ts' → oidToIdx ts = oidToIdx ts'.
Proof.
  revert ts'. induction ts as [|t ts IH] using rev_ind; intros ts' H.
  { by destruct ts'. }
  destruct ts' as [|t' ts' _] using rev_ind; [by destruct ts|]. rewrite !map_app in H. cbn in H.
  apply app_inj_tail in H as [H Ht]. rewrite !oidToIdx_snoc, Ht, (IH _ H). f_equal.
  by rewrite <- (length_map ID ts), H, length_map.
Qed.
(** Attaching at an OID changes the table with that OID and no other. *)
Lemma at_oid_map ts0 ts oid f : NoDup (map ID ts) → map ID ts = map ID ts0 →
  at_oid (oidToIdx ts0) oid f ts = map (λ t, if decide (ID t = oid) then f t else t) ts.
Proof.
  intros Hnd Hsame. unfold at_oid. rewrite <- (oidToIdx_same _ _ Hsame).
  destruct (oidToIdx ts !! oid) as [i|] eqn:Hi.
  - apply oidToIdx_lookup in Hi as (t & Ht & <-); [|done]. apply list_eq. intros j. rewrite list_lookup_fmap.
    destruct (decide (j = i)) as [->|Hne].
    + rewrite list_lookup_alter_eq, Ht. cbn. by rewrite decide_True.
    + rewrite list_lookup_alter_ne by done. destruct (ts !! j) as [t'|] eqn:Ht'; [|done]. cbn.
      rewrite decide_False; [done|]. intros Heq. apply Hne. eapply (NoDup_lookup (map ID ts)); [done| |].
      * by rewrite list_lookup_fmap, Ht'.
      * rewrite list_lookup_fmap, Ht. cbn. by rewrite Heq.
  - rewrite (map_ext_in _ id), map_id; [done|]. intros t Hin. rewrite decide_False; [done|]. intros <-.
    apply list_elem_of_In, list_elem_of_lookup in Hin as [i Ht]. assert (oidToIdx ts !! ID t = Some i) as H; [|congruence].
    apply oidToIdx_lookup; [done|]. by exists t.
Qed.
Lemma at_oid_r_Ok ts0 ts oid f ts' : NoDup (map ID ts) → map ID ts = map ID ts0 →
  at_oid_r (oidToIdx ts0) oid f ts = Ok ts' →
  ∃ t t', t ∈ ts ∧ ID t = oid ∧ f t = Ok t' ∧ ts' = map (λ t, if decide (ID t = oid) then t' else t) ts.
Proof.
  intros Hnd Hsame. unfold at_oid_r. rewrite <- (oidToIdx_same _ _ Hsame). destruct (oidToIdx ts !! oid) as [i|] eqn:Hi; [|done].
  pose proof (at_oid_map ts0 ts oid) as Hmap. unfold at_oid in Hmap. rewrite <- (oidToIdx_same _ _ Hsame), Hi in Hmap.
  apply oidToIdx_lookup in Hi as (t & Ht & HID); [|done]. rewrite Ht, bind_Ok. intros (t' & Hf & [= <-]).
  exists t, t'. split_and!; [by eapply list_elem_of_lookup_2|done|done|]. by rewrite <- (Hmap (λ _, t') Hnd Hsame), list_insert_alter.
Qed.

(** *** Each loop is a map over the tables *)
Lemma map_ID (f : Table → Table) ts : (∀ t, ID (f t) = ID t) → map ID (map f ts) = map ID ts.
Proof. intros H. rewrite map_map. by apply map_ext. Qed.
Lemma parentsOf_snoc links l oid b : parentsOf (links ++ [l]) oid b =
  parentsOf links oid b ++ (if decide (childOID l = oid ∧ isPartition l = b) then [parentRef l] else []).
Proof. unfold parentsOf. rewrite filter_app, map_app. f_equal. rewrite filter_cons, filter_nil. by destruct (decide _). Qed.
Lemma childrenOf_snoc links l oid b : childrenOf (links ++ [l]) oid b =
  childrenOf links oid b ++ (if decide (parentOID l = oid ∧ isPartition l = b) then [childRef l] else []).
Proof. unfold childrenOf. rewrite filter_app, map_app. f_equal. rewrite filter_cons, filter_nil. by destruct (decide _). Qed.
Lemma with_links_snoc links l t :
  with_links (links ++ [l]) t =
    (let t1 := with_links links t in let t2 := if decide (ID t1 = childOID l) then linkTable l true false t1 else t1 in
     if decide (ID t2 = parentOID l) then linkTable l false true t2 else t2).
Proof.
  assert (∀ t : Table, ID (if decide (ID t = childOID l) then linkTable l true false t else t) = ID t) as HID.
  { intros t'. destruct (decide _); [|done]. unfold linkTable. by destruct (isPartition l). }
  cbv zeta. rewrite HID. change (ID (with_links links t)) with (ID t). unfold with_links at 1.
  rewrite !parentsOf_snoc, !childrenOf_snoc. unfold linkTable.
  destruct (isPartition l) eqn:Hp; repeat (destruct (decide _); destruct_and?; try (exfalso; congruence); try (exfalso; match goal with H : ¬ _ |- _ => apply H; split; congruence end));
    unfold with_links, set_links; cbn; rewrite ?app_nil_r, ?last_snoc, ?app_assoc; try done.
Qed.
Lemma linkTableHierarchy_map ts links : NoDup (map ID ts) → linkTableHierarchy ts links = map (with_links links) ts.
Proof.
  intros Hnd. unfold linkTableHierarchy. induction links as [|l links IH] using rev_ind.
  - cbn. rewrite <- (map_id ts) at 1. apply map_ext. intros []. unfold with_links, set_links. cbn. by rewrite !app_nil_r.
  - rewrite foldl_app. cbn [foldl]. rewrite IH.
    assert (map ID (map (with_links links) ts) = map ID ts) as H1 by (by apply map_ID).
    rewrite (at_oid_map ts _ (childOID l)) by (by rewrite ?H1). rewrite map_map.
    rewrite (at_oid_map ts _ (parentOID l)).
    + rewrite map_map. apply map_ext. intros t. by rewrite with_links_snoc.
    + rewrite map_ID; [done|]. intros t. destruct (decide _); [|done]. unfold linkTable. by destruct (isPartition l).
    + rewrite map_ID; [done|]. intros t. destruct (decide _); [|done]. unfold linkTable. by destruct (isPartition l).
Qed.
Lemma attachColumns_map ts cols : NoDup (map ID ts) → attachColumns ts cols = map (with_columns cols) ts.
Proof.
  intros Hnd. unfold attachColumns. induction cols as [|c cols IH] using rev_ind.
  - cbn. rewrite <- (map_id ts) at 1. apply map_ext. intros []. unfold with_columns, add_columns. cbn. by rewrite app_nil_r.
  - rewrite foldl_app. cbn [foldl]. rewrite IH.
    assert (map ID (map (with_columns cols) ts) = map ID ts) as H1 by (by apply map_ID).
    rewrite (at_oid_map ts) by (by rewrite ?H1). rewrite map_map. apply map_ext. intros t.
    change (ID (with_columns cols t)) with (ID t). unfold with_columns at 3. rewrite filter_app, filter_cons, filter_nil.
    destruct (decide (ID t = _)) as [Heq|Hne]; [rewrite decide_True by (symmetry; done)|rewrite decide_False by congruence].
    + unfold with_columns, add_columns, add_column. cbn. by rewrite <- app_assoc.
    + by rewrite app_nil_r.
Qed.
Lemma NoDup_map_eq {A B} (f : A → B) l x y : NoDup (map f l) → x ∈ l → y ∈ l → f x = f y → x = y.
Proof.
  intros Hnd [i Hi]%list_elem_of_lookup [j Hj]%list_elem_of_lookup Heq. assert (i = j) as ->; [|congruence].
  eapply (NoDup_lookup (map f l)); [done|by rewrite list_lookup_fmap, Hi|rewrite list_lookup_fmap, Hj; cbn; by rewrite Heq].
Qed.
Lemma constraintsOf_snoc ks k oid ct o : constraintsOf (ks ++ [k]) oid ct o =
  constraintsOf ks oid ct o ++ (if decide (k.1.1 = oid ∧ k.1.2 = ct) then [k.2 o] else []).
Proof. unfold constraintsOf. rewrite filter_app, map_app. f_equal. rewrite filter_cons, filter_nil. by destruct (decide _). Qed.
Lemma indexesOf_snoc idxs i oid u o : indexesOf (idxs ++ [i]) oid u o =
  indexesOf idxs oid u o ++ (if decide (i.1.1 = oid ∧ i.1.2 = u) then [i.2 o] else []).
Proof. unfold indexesOf. rewrite filter_app, map_app. f_equal. rewrite filter_cons, filter_nil. by destruct (decide _). Qed.
(** Decides the tests a new element meets. *)
Ltac dec_conj := repeat (destruct (decide (_ ∧ _)) as [[? ?]|?]; try (exfalso; congruence);
  try (exfalso; match goal with H : ¬ _ |- _ => apply H; split; congruence end)).
Definition validContype (ct : string) : Prop := ct ∈ ["p"; "u"; "c"; "f"].
Lemma with_constraints_other ks k t : ID t ≠ k.1.1 → with_constraints (ks ++ [k]) t = with_constraints ks t.
Proof.
  intros Hne. unfold with_constraints. rewrite !constraintsOf_snoc.
  dec_conj. by rewrite !app_nil_r.
Qed.
Lemma with_constraints_add ks k t t' : ID t = k.1.1 → addConstraint k.1.2 k.2 (with_constraints ks t) = Ok t' →
  t' = with_constraints (ks ++ [k]) t ∧ validContype k.1.2 ∧
  (k.1.2 = "p" → PrimaryKey t = None ∧ constraintsOf ks (ID t) "p" (ref t) = []).
Proof.
  intros Hid. unfold addConstraint, validContype. change (ref (with_constraints ks t)) with (ref t).
  assert (∀ T : Prop, (∀ t2, t2 = with_constraints (ks ++ [k]) t → T) → T) as Hw by eauto.
  apply Hw. intros t2 Ht2. rewrite <- Ht2. unfold with_constraints in Ht2. rewrite !constraintsOf_snoc, <- Hid in Ht2. subst t2. clear Hw.
  destruct (decide (k.1.2 = "p")) as [->|H1]; [|destruct (decide (k.1.2 = "u")) as [->|H2]; [|destruct (decide (k.1.2 = "c")) as [->|H3];
    [|destruct (decide (k.1.2 = "f")) as [->|H4]; [|done]]]];
    rewrite ?(decide_False (P := _ ∧ k.1.2 = "p")) by (intros [_ ?]; congruence).
  - destruct (PrimaryKey (with_constraints ks t)) eqn:Hpk; [done|]. intros [= <-].
    dec_conj.
    cbn in Hpk. destruct (PrimaryKey t); [done|]. destruct (constraintsOf ks (ID t) "p" (ref t)); [|done].
    split_and!; [|by left|done]. unfold set_constraints. cbn. by rewrite !app_nil_r.
  - intros [= <-]. dec_conj.
    split_and!; [|by right; left|done]. unfold set_constraints. cbn. by rewrite !app_nil_r, <- !app_assoc.
  - intros [= <-]. dec_conj.
    split_and!; [|by right; right; left|done]. unfold set_constraints. cbn. by rewrite !app_nil_r, <- !app_assoc.
  - intros [= <-]. dec_conj.
    split_and!; [|by right; right; right; left|done]. unfold set_constraints. cbn. by rewrite !app_nil_r, <- !app_assoc.
Qed.
(** Every constraint is under its table, and a table has at most one primary key. *)
Lemma attachConstraints_map ts ks ts' : NoDup (map ID ts) → attachConstraints ts ks = Ok ts' →
  ts' = map (with_constraints ks) ts ∧
  (∀ k, k ∈ ks → validContype k.1.2 ∧ ∃ t, t ∈ ts ∧ ID t = k.1.1) ∧
  (∀ t, t ∈ ts → PrimaryKey t = None → (length (constraintsOf ks (ID t) "p" (ref t)) ≤ 1)%nat).
Proof.
  intros Hnd. unfold attachConstraints. revert ts'. induction ks as [|k ks IH] using rev_ind; intros ts'.
  - intros [= <-]. split_and!; [|by intros k ?%elem_of_nil|intros; cbn; lia].
    rewrite <- (map_id ts) at 1. apply map_ext. intros []. unfold with_constraints, set_constraints. cbn. rewrite !app_nil_r. by destruct PrimaryKey0.
  - rewrite foldM_snoc, bind_Ok. intros (ts1 & H1 & H2). destruct (IH _ H1) as (-> & Hin & Hpk).
    assert (map ID (map (with_constraints ks) ts) = map ID ts) as Hid by (by apply map_ID).
    apply at_oid_r_Ok in H2 as (t1 & t' & Ht1 & HID & Hadd & ->); [|by rewrite Hid|done].
    apply list_elem_of_fmap in Ht1 as (t & -> & Ht). change (ID (with_constraints ks t)) with (ID t) in HID.
    destruct (with_constraints_add ks k t t' HID Hadd) as (-> & Hct & Hone).
    assert (∀ t2, t2 ∈ ts → ID t2 = k.1.1 → t2 = t) as Huniq.
    { intros t2 Ht2 HID2. rewrite <- HID in HID2. by apply (NoDup_map_eq ID ts). }
    split_and!.
    + rewrite map_map. apply map_ext_in. intros t2 Ht2%list_elem_of_In. change (ID (with_constraints ks t2)) with (ID t2).
      destruct (decide (ID t2 = k.1.1)) as [Heq|Hne]; [by rewrite (Huniq t2 Ht2 Heq)|by rewrite with_constraints_other].
    + intros k' [Hk'| ->%list_elem_of_singleton]%elem_of_app; [by apply Hin|]. split; [done|]. by exists t.
    + intros t2 Ht2 Hnone. rewrite constraintsOf_snoc, length_app. destruct (decide _) as [[Heq Hp]|_]; cbn.
      * rewrite (Huniq t2 Ht2 (eq_sym Heq)) in *. destruct (Hone Hp) as [_ ->]. cbn. lia.
      * rewrite Nat.add_0_r. by apply Hpk.
Qed.
Lemma with_indexes_step idxs i t :
  with_indexes (idxs ++ [i]) t = if decide (ID t = i.1.1) then addIndex i.1.2 i.2 (with_indexes idxs t) else with_indexes idxs t.
Proof.
  unfold with_indexes at 1. rewrite !indexesOf_snoc. destruct (decide (ID t = i.1.1)) as [Heq|Hne].
  - unfold addIndex. destruct i.1.2; dec_conj;
      unfold with_indexes, set_indexes; cbn; by rewrite ?app_nil_r, <- ?app_assoc.
  - dec_conj. by rewrite !app_nil_r.
Qed.
Lemma attachIndexes_map ts idxs ts' : NoDup (map ID ts) → attachIndexes ts idxs = Ok ts' →
  ts' = map (with_indexes idxs) ts ∧ (∀ i, i ∈ idxs → ∃ t, t ∈ ts ∧ ID t = i.1.1).
Proof.
  intros Hnd. unfold attachIndexes. revert ts'. induction idxs as [|i idxs IH] using rev_ind; intros ts'.
  - intros [= <-]. split; [|by intros k ?%elem_of_nil].
    rewrite <- (map_id ts) at 1. apply map_ext. intros []. unfold with_indexes, set_indexes. cbn. by rewrite !app_nil_r.
  - rewrite foldM_snoc, bind_Ok. intros (ts1 & H1 & H2). destruct (IH _ H1) as (-> & Hin).
    assert (map ID (map (with_indexes idxs) ts) = map ID ts) as Hid by (by apply map_ID).
    apply at_oid_r_Ok in H2 as (t1 & t' & Ht1 & HID & [= <-] & ->); [|by rewrite Hid|done].
    apply list_elem_of_fmap in Ht1 as (t & -> & Ht). change (ID (with_indexes idxs t)) with (ID t) in HID. split.
    + rewrite map_map. apply map_ext_in. intros t2 Ht2%list_elem_of_In. change (ID (with_indexes idxs t2)) with (ID t2).
      rewrite with_indexes_step. destruct (decide _) as [Heq|]; [|done]. assert (t2 = t) as ->; [|done].
      rewrite <- HID in Heq. by apply (NoDup_map_eq ID ts).
    + intros i' [Hi'| ->%list_elem_of_singleton]%elem_of_app; [by apply Hin|]. by exists t.
Qed.

(** ** The snapshot that is taken *)
(** The table of a row with everything the other queries say of its OID. *)
Definition tableOf (links : list tableLink) (cols : list Column) (ks : list loadedConstraint) (idxs : list loadedIndex) (r : tableRow) : Table :=
  let o := mkObjectRef (t_schema r) (t_name r) in
  mkTable o (t_oid r) (relkindToTableKind (t_relkind r)) (last (parentsOf links (t_oid r) true)) (childrenOf links (t_oid r) true)
    (parentsOf links (t_oid r) false) (childrenOf links (t_oid r) false) (filter (λ c, tableOIDof (col_ID c) = t_oid r) cols)
    (head (constraintsOf ks (t_oid r) "p" o)) (constraintsOf ks (t_oid r) "u" o) (indexesOf idxs (t_oid r) true o)
    (constraintsOf ks (t_oid r) "c" o) (constraintsOf ks (t_oid r) "f" o) (indexesOf idxs (t_oid r) false o).
(** The rows the queries of a capture returned. *)
Record rowsOf (q : catalog) (trows : list tableRow) (links : list tableLink) (crows : list columnRow) (krows : list constraintRow)
    (irows : list indexRow) : Prop := {
  ro_tables : q_tables q = Ok trows; ro_links : q_links q = Ok links; ro_columns : q_columns q = Ok crows;
  ro_constraints : ∃ v, q_version q = Ok v ∧ q_constraints q (minVersionNumConparentid <=? v.2) = Ok krows;
  ro_indexes : q_indexes q = Ok irows }.
Lemma TakeSnapshot_rows q tables v : TakeSnapshot q = Ok (tables, v) → ∃ trows links crows krows irows ks idxs tables1,
  rowsOf q trows links crows krows irows ∧ mapM_result loadConstraint krows = Ok ks ∧ mapM_result loadIndex irows = Ok idxs ∧
  attachConstraints (attachColumns (linkTableHierarchy (map loadTable trows) links) (map loadColumn crows)) ks = Ok tables1 ∧
  attachIndexes tables1 idxs = Ok tables.
Proof.
  unfold TakeSnapshot. rewrite bind_Ok. intros (_ & _ & H). apply bind_Ok in H as (w & Hw & H).
  apply bind_Ok in H as (trows & Ht & H). apply bind_Ok in H as (links & Hl & H). apply bind_Ok in H as (crows & Hc & H).
  apply bind_Ok in H as (krows & Hk & H). apply bind_Ok in H as (ks & Hks & H). apply bind_Ok in H as (tables1 & Ha & H).
  apply bind_Ok in H as (irows & Hi & H). apply bind_Ok in H as (idxs & His & H). apply bind_Ok in H as (tables2 & Ha2 & [= <- <-]).
  exists trows, links, crows, krows, irows, ks, idxs, tables1. split_and!; [split; eauto|done..].
Qed.
Lemma TakeSnapshot_groups (q : catalog) (tables : list Table) (v : string) :
  TakeSnapshot q = Ok (tables, v) → (∀ trows, q_tables q = Ok trows → NoDup (map t_oid trows)) →
  ∃ trows links crows krows irows ks idxs,
    rowsOf q trows links crows krows irows ∧ mapM_result loadConstraint krows = Ok ks ∧ mapM_result loadIndex irows = Ok idxs ∧
    tables = map (tableOf links (map loadColumn crows) ks idxs) trows ∧
    (∀ k, k ∈ ks → validContype k.1.2 ∧ ∃ r, r ∈ trows ∧ t_oid r = k.1.1) ∧
    (∀ i, i ∈ idxs → ∃ r, r ∈ trows ∧ t_oid r = i.1.1) ∧
    (∀ r, r ∈ trows → (length (constraintsOf ks (t_oid r) "p" (mkObjectRef (t_schema r) (t_name r))) ≤ 1)%nat).
Proof.
  intros Htake Hoids. destruct (TakeSnapshot_rows _ _ _ Htake) as (trows & links & crows & krows & irows & ks & idxs & tables1 & Hrows & Hks & Hidxs & Hc & Hi).
  specialize (Hoids trows (ro_tables _ _ _ _ _ _ Hrows)).
  assert (NoDup (map ID (map loadTable trows))) as Hnd by (by rewrite map_map).
  rewrite linkTableHierarchy_map in Hc by done. rewrite attachColumns_map in Hc by (by rewrite map_ID).
  apply attachConstraints_map in Hc as (-> & Hkin & Hpk); [|by rewrite !map_ID].
  apply attachIndexes_map in Hi as (-> & Hiin); [|by rewrite !map_ID].
  assert (∀ oid, (∃ t, t ∈ map (with_columns (map loadColumn crows)) (map (with_links links) (map loadTable trows)) ∧ ID t = oid) →
    ∃ r, r ∈ trows ∧ t_oid r = oid) as Hrow.
  { intros oid (t & Ht & <-). rewrite !map_map in Ht. apply list_elem_of_fmap in Ht as (r & -> & Hr). by exists r. }
  exists trows, links, crows, krows, irows, ks, idxs. split_and!; [done..| | | |].
  - rewrite !map_map. apply map_ext. intros r. unfold tableOf, with_links. cbn. by destruct (last _).
  - intros k Hk. destruct (Hkin k Hk) as [? Hex]. split; [done|by apply Hrow].
  - intros i Hi. destruct (Hiin i Hi) as (t & Ht & <-). apply list_elem_of_fmap in Ht as (t1 & -> & Ht1). apply Hrow. by exists t1.
  - intros r Hr. apply (Hpk (with_columns (map loadColumn crows) (with_links links (loadTable r)))); [|done].
    by do 3 apply list_elem_of_fmap_2.
Qed.

(** A capture files every row of the catalogue under its table: if the OIDs of the tables
    are distinct and the capture succeeds, the tables are those of the table query, in its
    order, each with exactly the links, columns, constraints and indexes of its OID, in
    their queries' order; no constraint or index is lost, and no table has two primary
    keys. *)
Theorem snapshot_groups_rows (q : catalog) (tables : list Table) (v : string) :
  TakeSnapshot q = Ok (tables, v) → (∀ trows, q_tables q = Ok trows → NoDup (map t_oid trows)) →
  ∃ trows links crows krows irows ks idxs,
    rowsOf q trows links crows krows irows ∧ mapM_result loadConstraint krows = Ok ks ∧ mapM_result loadIndex irows = Ok idxs ∧
    tables = map (tableOf links (map loadColumn crows) ks idxs) trows ∧
    (∀ k, k ∈ ks → validContype k.1.2 ∧ ∃ r, r ∈ trows ∧ t_oid r = k.1.1) ∧
    (∀ i, i ∈ idxs → ∃ r, r ∈ trows ∧ t_oid r = i.1.1) ∧
    (∀ r, r ∈ trows → (length (constraintsOf ks (t_oid r) "p" (mkObjectRef (t_schema r) (t_name r))) ≤ 1)%nat).
Proof. apply TakeSnapshot_groups. Qed.

(** ** Well-formed snapshots *)
(** A table's columns, constraints and indexes name it as their host, and have distinct IDs. *)
Record wfTable (t : Table) : Prop := {
  wf_columns : NoDup (map col_ID (Columns t)) ∧ Forall (λ c, host (col_ref c) = ref t) (Columns t);
  wf_pk : Forall (λ c, host (con_ref c) = ref t) (option_list (PrimaryKey t));
  wf_constraints : Forall (λ l, NoDup (map con_ID l) ∧ Forall (λ c, host (con_ref c) = ref t) l) [UniqueKeys t; Checks t; ForeignKeys t];
  wf_indexes : Forall (λ l, NoDup (map ind_ID l) ∧ Forall (λ i, host (ind_ref i) = ref t) l) [UniqueIndexes t; Indexes t] }.
Record wfTables (ts : list Table) : Prop := {
  wf_ids : NoDup (map ID ts); wf_refs : NoDup (map ref ts); wf_tables : Forall wfTable ts }.
(** What the catalogue guarantees within one transaction: OIDs are unique and digits only,
    names are unique within a schema, and a column's row names the table of its OID. *)
Record catalogOk (q : catalog) : Prop := {
  ck_tables trows : q_tables q = Ok trows → NoDup (map t_oid trows) ∧ NoDup (map (λ r, (t_schema r, t_name r)) trows);
  ck_columns trows crows : q_tables q = Ok trows → q_columns q = Ok crows →
    NoDup (map (λ c, (c_tableOID c, c_attnum c)) crows) ∧
    Forall (λ c, str_has ":" (c_tableOID c) = false ∧
      ∀ r, r ∈ trows → t_oid r = c_tableOID c → c_host c = mkObjectRef (t_schema r) (t_name r)) crows;
  ck_constraints b krows : q_constraints q b = Ok krows → NoDup (map k_oid krows);
  ck_indexes irows : q_indexes q = Ok irows → NoDup (map i_oid irows) }.
Lemma tableOIDof_app oid s : str_has ":" oid = false → tableOIDof (oid +:+ ":" +:+ s) = oid.
Proof.
  induction oid as [|c oid IH]; [done|]. rewrite str_has_cons. intros [Hc Ho]%orb_false_iff. cbn [String.append tableOIDof].
  rewrite decide_False by (intros ->; by rewrite bool_decide_true in Hc). f_equal. by apply IH.
Qed.
Lemma columnID_inj c c' : str_has ":" (c_tableOID c) = false → str_has ":" (c_tableOID c') = false →
  col_ID (loadColumn c) = col_ID (loadColumn c') → (c_tableOID c, c_attnum c) = (c_tableOID c', c_attnum c').
Proof.
  intros H1 H2. cbn. intros H. assert (c_tableOID c = c_tableOID c') as Heq.
  { rewrite <- (tableOIDof_app _ (c_attnum c) H1), <- (tableOIDof_app _ (c_attnum c') H2). by f_equal. }
  rewrite Heq in *. f_equal. clear -H. induction (c_tableOID c') as [|x s IH]; cbn in H; injection H as H; [done|by apply IH].
Qed.
Lemma NoDup_map_filter {A B} (f : A → B) (P : A → Prop) `{∀ x, Decision (P x)} l : NoDup (map f l) → NoDup (map f (filter P l)).
Proof. intros Hnd. eapply sublist_NoDup; [exact Hnd|]. apply fmap_sublist, sublist_filter. Qed.

Lemma loadConstraint_objects krows ks o : mapM_result loadConstraint krows = Ok ks →
  map (λ k, con_ID (k.2 o)) ks = map k_oid krows ∧ Forall (λ k, host (con_ref (k.2 o)) = o) ks.
Proof.
  rewrite mapM_result_Ok. induction 1 as [|r k krows ks Hk _ [IH1 IH2]]; [done|]. unfold loadConstraint in Hk.
  destruct (k_definition r); [|done]. injection Hk as <-. cbn. rewrite IH1. split; [done|]. by constructor.
Qed.
Lemma loadIndex_objects irows idxs o : mapM_result loadIndex irows = Ok idxs →
  map (λ i, ind_ID (i.2 o)) idxs = map i_oid irows ∧ Forall (λ i, host (ind_ref (i.2 o)) = o) idxs.
Proof.
  rewrite mapM_result_Ok. induction 1 as [|r i irows idxs Hi _ [IH1 IH2]]; [done|]. unfold loadIndex in Hi.
  destruct (indexDef r); [|done]. apply bind_Ok in Hi as (d & _ & [= <-]). cbn. rewrite IH1. split; [done|]. by constructor.
Qed.
Lemma constraintsOf_wf ks oid ct o : NoDup (map (λ k : loadedConstraint, con_ID (k.2 o)) ks) → Forall (λ k : loadedConstraint, host (con_ref (k.2 o)) = o) ks →
  NoDup (map con_ID (constraintsOf ks oid ct o)) ∧ Forall (λ c, host (con_ref c) = o) (constraintsOf ks oid ct o).
Proof.
  intros Hnd Hf. unfold constraintsOf. rewrite map_map. split; [by apply NoDup_map_filter|]. apply Forall_map, Forall_forall.
  intros k [_ Hk]%list_elem_of_filter. rewrite Forall_forall in Hf. by apply Hf.
Qed.
Lemma indexesOf_wf idxs oid u o : NoDup (map (λ i : loadedIndex, ind_ID (i.2 o)) idxs) → Forall (λ i : loadedIndex, host (ind_ref (i.2 o)) = o) idxs →
  NoDup (map ind_ID (indexesOf idxs oid u o)) ∧ Forall (λ i, host (ind_ref i) = o) (indexesOf idxs oid u o).
Proof.
  intros Hnd Hf. unfold indexesOf. rewrite map_map. split; [by apply NoDup_map_filter|]. apply Forall_map, Forall_forall.
  intros i [_ Hi]%list_elem_of_filter. rewrite Forall_forall in Hf. by apply Hf.
Qed.
Lemma TakeSnapshot_wf (q : catalog) (tables : list Table) (v : string) :
  catalogOk q → TakeSnapshot q = Ok (tables, v) → wfTables tables.
Proof.
  intros Hq Htake. destruct (TakeSnapshot_groups _ _ _ Htake (λ trows H, proj1 (ck_tables q Hq trows H)))
    as (trows & links & crows & krows & irows & ks & idxs & Hrows & Hks & Hidxs & -> & _).
  destruct (ck_tables q Hq trows (ro_tables _ _ _ _ _ _ Hrows)) as [Hoids Hnames].
  destruct (ck_columns q Hq trows crows (ro_tables _ _ _ _ _ _ Hrows) (ro_columns _ _ _ _ _ _ Hrows)) as [Hcols Hhost].
  destruct (ro_constraints _ _ _ _ _ _ Hrows) as (w & _ & Hkq). pose proof (ck_constraints q Hq _ _ Hkq) as Hkoid.
  pose proof (ck_indexes q Hq _ (ro_indexes _ _ _ _ _ _ Hrows)) as Hioid. rewrite Forall_forall in Hhost. split.
  - by rewrite map_map.
  - rewrite map_map. unfold tableOf. cbn. rewrite <- (map_map (λ r, (t_schema r, t_name r)) (λ p, mkObjectRef p.1 p.2)).
    apply (NoDup_fmap_2_strong (λ p : string * string, mkObjectRef p.1 p.2)); [|done]. by intros [] [] _ _ [= -> ->].
  - apply Forall_map, Forall_forall. intros r Hr. set (o := mkObjectRef (t_schema r) (t_name r)).
    destruct (loadConstraint_objects _ _ o Hks) as [Hk1 Hk2]. destruct (loadIndex_objects _ _ o Hidxs) as [Hi1 Hi2].
    rewrite <- Hk1 in Hkoid. rewrite <- Hi1 in Hioid.
    split; cbn [tableOf Columns ref PrimaryKey UniqueKeys Checks ForeignKeys UniqueIndexes Indexes].
    + split.
      * apply NoDup_map_filter. rewrite map_map. clear -Hcols Hhost. induction crows as [|c crows IH]; [constructor|].
        apply NoDup_cons in Hcols as [Hnew Hcols]. cbn. apply NoDup_cons. split.
        -- intros (c' & Heq & Hc')%list_elem_of_fmap. apply Hnew, list_elem_of_fmap. exists c'. split; [|done].
           destruct (Hhost c (list_elem_of_here _ _)), (Hhost c' (list_elem_of_further _ _ _ Hc')). by apply columnID_inj.
        -- apply IH; [done|]. intros c' Hc'. apply Hhost. by right.
      * apply Forall_forall. intros c [Hid Hc]%list_elem_of_filter. apply list_elem_of_fmap in Hc as (c' & -> & Hc').
        destruct (Hhost c' Hc') as [Hnc Href]. cbn [loadColumn col_ID col_ref host] in Hid |- *. rewrite tableOIDof_app in Hid by done. by apply Href.
    + destruct (constraintsOf_wf ks (t_oid r) "p" o Hkoid Hk2) as [_ Hf]. destruct (constraintsOf _ _ _ _); cbn; [constructor|].
      inversion Hf; subst. by constructor.
    + repeat constructor; by apply constraintsOf_wf.
    + repeat constructor; by apply indexesOf_wf.
Qed.
Lemma Capture_Ok p b q c now s : Capture p b q c now = Ok s → ∃ tables v, TakeSnapshot q = Ok (tables, v) ∧ cp_DatabaseType p = POSTGRESQL ∧
  ValidateLabelReason (cp_Label p) (cp_Reason p) = Ok () ∧ cp_Schemas p ≠ [] ∧
  s = mkSnapshot (newHeader p now v false) (Some (mkContent currentSnapshotVersion (cp_DatabaseType p) tables)).
Proof.
  unfold Capture. destruct (decide (cp_Schemas p = [])); [done|]. intros ([] & Hl & ([] & _ & H)%bind_Ok)%bind_Ok. destruct (decide _); [|done].
  apply bind_Ok in H as ([tables v] & Ht & ([] & _ & [= <-])%bind_Ok). by exists tables, v.
Qed.
Lemma TakeSnapshot_refs q tables v : catalogOk q → TakeSnapshot q = Ok (tables, v) →
  ∃ trows, q_tables q = Ok trows ∧ map ref tables = map (λ r, mkObjectRef (t_schema r) (t_name r)) trows.
Proof.
  intros Hq Htake. destruct (TakeSnapshot_groups _ _ _ Htake (λ trows H, proj1 (ck_tables q Hq trows H)))
    as (trows & links & crows & krows & irows & ks & idxs & Hrows & _ & _ & -> & _).
  exists trows. split; [apply (ro_tables _ _ _ _ _ _ Hrows)|]. by rewrite map_map.
Qed.
(** C27: A capture is well-formed: in a catalogue that keeps its guarantees, what is captured
    has the label and reason of the vocabulary it was asked for and the newest version; its
    tables have distinct IDs and names, and the columns, constraints and indexes of a table
    have distinct IDs and name that table as their host. *)
Theorem capture_well_formed (p : CaptureParams) (b : result unit) (q : catalog) (c : result unit) (now : Z) (s : SchemaSnapshot) :
  catalogOk q → Capture p b q c now = Ok s →
  is_ok (ValidateLabelReason (Label (Header s)) (Reason (Header s))) = true ∧ IsPlaceholder (Header s) = false ∧
  ∃ content, Content s = Some content ∧ Version content = currentSnapshotVersion ∧ DatabaseType content = cp_DatabaseType p ∧ wfTables (Tables content).
Proof.
  intros Hq (tables & v & Ht & _ & Hl & _ & ->)%Capture_Ok. cbn. rewrite Hl. split_and!; [done..|]. eexists. split_and!; [done..|]. by eapply TakeSnapshot_wf.
Qed.

(** ** A concrete capture *)
(** A partitioned table with one partition, a key on each and an index. *)
Definition sampleCatalog : catalog :=
  let t := mkObjectRef "public" "t" in let p := mkObjectRef "public" "t_1" in
  mkCatalog (Ok ()) (Ok ("16.4 (Debian)", 160004))
    (Ok [mkTableRow "100" "public" "t" "p"; mkTableRow "101" "public" "t_1" "r"])
    (Ok [mkLink "101" p "100" t true])
    (Ok [mkColumnRow "100" "1" t "id" "integer" true ""; mkColumnRow "101" "1" p "id" "integer" true ""])
    (λ _, Ok [mkConstraintRow "100" "t_pkey" "200" "p" (Some "PRIMARY KEY (id)") false;
              mkConstraintRow "101" "t_1_pkey" "201" "p" (Some "PRIMARY KEY (id)") true])
    (Ok [mkIndexRow "101" "t_1_idx" "300" false "t_1_idx" (Some "CREATE INDEX t_1_idx ON public.t_1 USING btree (id)") "public.t_1" false]).
Definition sampleTables : list Table := match TakeSnapshot sampleCatalog with Ok (ts, _) => ts | _ => [] end.
Example sample_capture :
  match Capture (mkParams POSTGRESQL "" ["public"] LabelExportDataFromSourceStart "initial") (Ok ()) sampleCatalog (Ok ()) 7 with
  | Ok s => (Side (Header s), DatabaseVersion (Header s), map (λ t, (ID t, length (Columns t), length (PartitionChildren t), length (Indexes t)))
      (default [] (Tables <$> Content s))) = ("source", "16.4", [("100", 1, 1, 0); ("101", 1, 0, 1)]%nat)
  | _ => False
  end.
Proof. vm_compute. reflexivity. Qed.
Example labels : ValidateLabelReason LabelExportDataFromSourceExit "cutover" = Ok () ∧ is_ok (ValidateLabelReason LabelExportSchema "initial") = false ∧
  is_ok (ValidateLabelReason LabelExportDataFromSourceStart "") = false.
Proof. by vm_compute. Qed.
Lemma snapshot_groups_rows_witness : map ID sampleTables = ["100"; "101"] ∧
  ∃ trows links crows krows irows ks idxs, rowsOf sampleCatalog trows links crows krows irows ∧
    mapM_result loadConstraint krows = Ok ks ∧ mapM_result loadIndex irows = Ok idxs ∧
    sampleTables = map (tableOf links (map loadColumn crows) ks idxs) trows.
Proof.
  split; [vm_compute; reflexivity|].
  destruct (snapshot_groups_rows sampleCatalog sampleTables "16.4") as (trows & links & crows & krows & irows & ks & idxs & H1 & H2 & H3 & H4 & _).
  - vm_compute. reflexivity.
  - intros trows [= <-]. decided.
  - exists trows, links, crows, krows, irows, ks, idxs. exact (conj H1 (conj H2 (conj H3 H4))).
Defined.
Lemma sampleCatalog_ok : catalogOk sampleCatalog.
Proof.
  split.
  - intros trows [= <-]. split; decided.
  - intros trows crows [= <-] [= <-]. split; [decided|]. repeat constructor; cbn; intros r Hr; rewrite !elem_of_cons in Hr;
      by destruct Hr as [->|[->|?%elem_of_nil]].
  - intros b krows [= <-]. decided.
  - intros irows [= <-]. decided.
Qed.
Definition sampleParams : CaptureParams := mkParams POSTGRESQL "" ["public"] LabelExportDataFromSourceStart "initial".
Lemma capture_well_formed_witness : ∃ s content, Capture sampleParams (Ok ()) sampleCatalog (Ok ()) 7 = Ok s ∧ Content s = Some content ∧ wfTables (Tables content).
Proof.
  destruct (Capture sampleParams (Ok ()) sampleCatalog (Ok ()) 7) as [s| |] eqn:Hs; [|vm_compute in Hs; discriminate..].
  destruct (capture_well_formed sampleParams (Ok ()) sampleCatalog (Ok ()) 7 s sampleCatalog_ok Hs) as (_ & _ & c & Hc & _ & _ & Hwf).
  by exists s, c.
Defined.
End SchemaSnapshot.
