(* ===== verification/SchemaDiff.v ===== *)
(** * Schema differences (src/yb-voyager/src/schemadiff: diff.go, difftypes.go, match.go,
    tables.go, columns.go, constraints_and_indexes.go, filter.go, differ.go)

    What changed between two snapshots: objects are matched by stable IDs, or by names
    across engines, and compared field by field; the findings are sorted, and filtered by
    scope.  [finding] says what is to be found without maps and loops. *)
From S2P Require Import Prelude SqlName SchemaSnapshot.
Import SqlName SchemaSnapshot.

Module SchemaDiff.
(** ** Findings *)
Inductive DiffType : Type :=
  | TableAdded | TableDropped | TableNameChanged | TableSchemaChanged | TableKindChanged
  | TablePartitionAttached | TablePartitionDetached | TablePartitionChildrenChanged
  | TableInheritAdded | TableInheritRemoved | TableInheritedByAdded | TableInheritedByRemoved
  | ColumnAdded | ColumnDropped | ColumnNameChanged | ColumnTypeChanged | ColumnNotNullSet | ColumnNotNullDropped | ColumnDefaultChanged
  | PrimaryKeyAdded | PrimaryKeyDropped | PrimaryKeyNameChanged | UniqueAdded | UniqueDropped | UniqueNameChanged
  | CheckAdded | CheckDropped | CheckNameChanged | ForeignKeyAdded | ForeignKeyDropped | ForeignKeyNameChanged
  | UniqueIndexAdded | UniqueIndexDropped | UniqueIndexNameChanged | IndexAdded | IndexDropped | IndexNameChanged.
#[global] Instance DiffType_eq_dec : EqDecision DiffType.
Proof. solve_decision. Defined.
Definition AllDiffTypes : list DiffType :=
  [TableAdded; TableDropped; TableNameChanged; TableSchemaChanged; TableKindChanged;
   TablePartitionAttached; TablePartitionDetached; TablePartitionChildrenChanged;
   TableInheritAdded; TableInheritRemoved; TableInheritedByAdded; TableInheritedByRemoved;
   ColumnAdded; ColumnDropped; ColumnNameChanged; ColumnTypeChanged; ColumnNotNullSet; ColumnNotNullDropped; ColumnDefaultChanged;
   PrimaryKeyAdded; PrimaryKeyDropped; PrimaryKeyNameChanged; UniqueAdded; UniqueDropped; UniqueNameChanged;
   CheckAdded; CheckDropped; CheckNameChanged; ForeignKeyAdded; ForeignKeyDropped; ForeignKeyNameChanged;
   UniqueIndexAdded; UniqueIndexDropped; UniqueIndexNameChanged; IndexAdded; IndexDropped; IndexNameChanged].
Definition DiffType_string (t : DiffType) : string :=
  match t with
  | TableAdded => "TABLE_ADDED" | TableDropped => "TABLE_DROPPED" | TableNameChanged => "TABLE_NAME_CHANGED"
  | TableSchemaChanged => "TABLE_SCHEMA_CHANGED" | TableKindChanged => "TABLE_KIND_CHANGED"
  | TablePartitionAttached => "TABLE_PARTITION_ATTACHED" | TablePartitionDetached => "TABLE_PARTITION_DETACHED"
  | TablePartitionChildrenChanged => "TABLE_PARTITION_CHILDREN_CHANGED" | TableInheritAdded => "TABLE_INHERIT_ADDED"
  | TableInheritRemoved => "TABLE_INHERIT_REMOVED" | TableInheritedByAdded => "TABLE_INHERITED_BY_ADDED"
  | TableInheritedByRemoved => "TABLE_INHERITED_BY_REMOVED" | ColumnAdded => "COLUMN_ADDED" | ColumnDropped => "COLUMN_DROPPED"
  | ColumnNameChanged => "COLUMN_NAME_CHANGED" | ColumnTypeChanged => "COLUMN_TYPE_CHANGED" | ColumnNotNullSet => "COLUMN_NOT_NULL_SET"
  | ColumnNotNullDropped => "COLUMN_NOT_NULL_DROPPED" | ColumnDefaultChanged => "COLUMN_DEFAULT_CHANGED"
  | PrimaryKeyAdded => "PRIMARY_KEY_ADDED" | PrimaryKeyDropped => "PRIMARY_KEY_DROPPED" | PrimaryKeyNameChanged => "PRIMARY_KEY_NAME_CHANGED"
  | UniqueAdded => "UNIQUE_ADDED" | UniqueDropped => "UNIQUE_DROPPED" | UniqueNameChanged => "UNIQUE_NAME_CHANGED"
  | CheckAdded => "CHECK_ADDED" | CheckDropped => "CHECK_DROPPED" | CheckNameChanged => "CHECK_NAME_CHANGED"
  | ForeignKeyAdded => "FOREIGN_KEY_ADDED" | ForeignKeyDropped => "FOREIGN_KEY_DROPPED" | ForeignKeyNameChanged => "FOREIGN_KEY_NAME_CHANGED"
  | UniqueIndexAdded => "UNIQUE_INDEX_ADDED" | UniqueIndexDropped => "UNIQUE_INDEX_DROPPED"
  | UniqueIndexNameChanged => "UNIQUE_INDEX_NAME_CHANGED" | IndexAdded => "INDEX_ADDED" | IndexDropped => "INDEX_DROPPED"
  | IndexNameChanged => "INDEX_NAME_CHANGED"
  end.
Inductive Operation : Type := OpAdded | OpDropped | OpChanged.
Inductive ObjectType : Type := ObjectTypeTable | ObjectTypeColumn | ObjectTypeConstraint | ObjectTypeIndex.
#[global] Instance ObjectType_eq_dec : EqDecision ObjectType.
Proof. solve_decision. Defined.
#[global] Instance ObjectType_countable : Countable ObjectType.
Proof.
  refine (inj_countable' (λ t, match t with ObjectTypeTable => 0 | ObjectTypeColumn => 1 | ObjectTypeConstraint => 2 | ObjectTypeIndex => 3 end)%nat
    (λ n, match n with 0 => ObjectTypeTable | 1 => ObjectTypeColumn | 2 => ObjectTypeConstraint | _ => ObjectTypeIndex end)%nat _). by intros [].
Defined.
Inductive Attribute : Type :=
  | AttrNone | AttrName | AttrSchema | AttrKind | AttrType | AttrNullability | AttrDefault
  | AttrPartitionParent | AttrPartitionChildren | AttrInherits | AttrInheritedBy.
(** An identity of either kind, and the values a finding may carry. *)
Inductive ObjectIdent : Type := TableIdent (o : ObjectRef) | ScopedIdent (r : TableScopedObjectRef).
Definition ObjectIdent_ForKey (dbType : string) (i : ObjectIdent) : string :=
  match i with TableIdent o => ObjectRef_ForKey dbType o | ScopedIdent r => Scoped_ForKey dbType r end.
Inductive value : Type :=
  | VString (s : string) | VBool (b : bool) | VRef (o : ObjectRef) | VRefs (l : list ObjectRef) | VColumn (c : Column) | VTable (t : Table).
Record Difference : Type := newDifference {
  Type_ : DiffType; Operation_ : Operation; ObjectType_ : ObjectType; Attribute_ : Attribute;
  ObjectA : option ObjectIdent; ObjectB : option ObjectIdent; SideAValue : option value; SideBValue : option value }.

(** ** Matching *)
Definition byKey {T} (key : T → string) (l : list T) : gmap string T := foldl (λ m t, <[key t := t]> m) ∅ l.
Definition matchByKey {T} (as_ bs : list T) (keyA keyB : T → string) (onMatch : T → T → list Difference)
    (onDropped onAdded : T → list Difference) : list Difference :=
  let byKeyA := byKey keyA as_ in
  let byKeyB := byKey keyB bs in
  concat (map (λ p, match byKeyB !! p.1 with Some b => onMatch p.2 b | None => onDropped p.2 end) (map_to_list byKeyA)) ++
  concat (map (λ p, match byKeyA !! p.1 with Some _ => [] | None => onAdded p.2 end) (map_to_list byKeyB)).
Definition stableIDs (dbTypeA dbTypeB : string) : bool :=
  bool_decide (dbTypeA = dbTypeB) && (bool_decide (dbTypeA = POSTGRESQL) || bool_decide (dbTypeA = YUGABYTEDB)).
Definition chooseMatchKeys {T} (dbTypeA dbTypeB : string) (idOf : T → string) (nameKey : T → string → string) : (T → string) * (T → string) :=
  if stableIDs dbTypeA dbTypeB then (idOf, idOf) else (λ t, nameKey t dbTypeA, λ t, nameKey t dbTypeB).

(** ** Columns *)
Definition emitColumnDropped (c : Column) : list Difference :=
  [newDifference ColumnDropped OpDropped ObjectTypeColumn AttrNone (Some (ScopedIdent (col_ref c))) None (Some (VColumn c)) None].
Definition emitColumnAdded (c : Column) : list Difference :=
  [newDifference ColumnAdded OpAdded ObjectTypeColumn AttrNone None (Some (ScopedIdent (col_ref c))) None (Some (VColumn c))].
(** A change of attribute [attr] of a column or table, unless the values are equal. *)
Definition columnChange (t : DiffType) (attr : Attribute) (cA cB : Column) (vA vB : value) : Difference :=
  newDifference t OpChanged ObjectTypeColumn attr (Some (ScopedIdent (col_ref cA))) (Some (ScopedIdent (col_ref cB))) (Some vA) (Some vB).
Definition when (b : bool) (d : Difference) : list Difference := if b then [d] else [].
Definition compareMatchedColumns (cA cB : Column) : list Difference :=
  when (bool_decide (sc_Name (col_ref cA) ≠ sc_Name (col_ref cB)))
    (columnChange ColumnNameChanged AttrName cA cB (VString (sc_Name (col_ref cA))) (VString (sc_Name (col_ref cB)))) ++
  when (bool_decide (DataType cA ≠ DataType cB)) (columnChange ColumnTypeChanged AttrType cA cB (VString (DataType cA)) (VString (DataType cB))) ++
  when (bool_decide (NotNull cA ≠ NotNull cB))
    (columnChange (if NotNull cB then ColumnNotNullSet else ColumnNotNullDropped) AttrNullability cA cB (VBool (NotNull cA)) (VBool (NotNull cB))) ++
  when (bool_decide (Default cA ≠ Default cB)) (columnChange ColumnDefaultChanged AttrDefault cA cB (VString (Default cA)) (VString (Default cB))).
Definition columnKeys (dbTypeA dbTypeB : string) : (Column → string) * (Column → string) :=
  chooseMatchKeys dbTypeA dbTypeB col_ID (λ c dbType, Scoped_ForKey dbType (col_ref c)).
Definition diffColumnsIn (colsA colsB : list Column) (dbTypeA dbTypeB : string) : list Difference :=
  let '(keyA, keyB) := columnKeys dbTypeA dbTypeB in
  matchByKey colsA colsB keyA keyB compareMatchedColumns emitColumnDropped emitColumnAdded.

(** ** Constraints and indexes *)
Record kindTypes : Type := mkKind { added : DiffType; dropped : DiffType; nameChanged : DiffType; objectType : ObjectType }.
Definition primaryKeyTypes := mkKind PrimaryKeyAdded PrimaryKeyDropped PrimaryKeyNameChanged ObjectTypeConstraint.
Definition uniqueTypes := mkKind UniqueAdded UniqueDropped UniqueNameChanged ObjectTypeConstraint.
Definition checkTypes := mkKind CheckAdded CheckDropped CheckNameChanged ObjectTypeConstraint.
Definition foreignKeyTypes := mkKind ForeignKeyAdded ForeignKeyDropped ForeignKeyNameChanged ObjectTypeConstraint.
Definition uniqueIndexTypes := mkKind UniqueIndexAdded UniqueIndexDropped UniqueIndexNameChanged ObjectTypeIndex.
Definition indexTypes := mkKind IndexAdded IndexDropped IndexNameChanged ObjectTypeIndex.
(** What the comparison reads of either. *)
Record objectRef : Type := mkObj { o_ID : string; o_Ref : TableScopedObjectRef; o_Definition : string; o_FromParent : bool }.
Definition constraintRef (c : TableConstraint) : objectRef := mkObj (con_ID c) (con_ref c) (con_Definition c) (con_FromParent c).
Definition indexRef (i : Index) : objectRef := mkObj (ind_ID i) (ind_ref i) (ind_Definition i) (ind_FromParent i).
Definition droppedDifference (types : kindTypes) (r : objectRef) : Difference :=
  newDifference (dropped types) OpDropped (objectType types) AttrNone (Some (ScopedIdent (o_Ref r))) None (Some (VString (o_Definition r))) None.
Definition addedDifference (types : kindTypes) (r : objectRef) : Difference :=
  newDifference (added types) OpAdded (objectType types) AttrNone None (Some (ScopedIdent (o_Ref r))) None (Some (VString (o_Definition r))).
Definition renamedDifference (types : kindTypes) (a b : objectRef) : Difference :=
  newDifference (nameChanged types) OpChanged (objectType types) AttrName (Some (ScopedIdent (o_Ref a))) (Some (ScopedIdent (o_Ref b)))
    (Some (VString (sc_Name (o_Ref a)))) (Some (VString (sc_Name (o_Ref b)))).
Definition diffMatchedConstraintOrIndex (types : kindTypes) (a b : objectRef) : list Difference :=
  when (negb (o_FromParent a || o_FromParent b || bool_decide (sc_Name (o_Ref a) = sc_Name (o_Ref b)))) (renamedDifference types a b).
Definition diffConstraintsOrIndexes {T} (earlier later : list T) (toRef : T → objectRef) (types : kindTypes) : list Difference :=
  let laterByID := byKey o_ID (map toRef later) in
  let earlierIDs : gset string := list_to_set (map (λ x, o_ID (toRef x)) earlier) in
  concat (map (λ x, let rEarlier := toRef x in
    match laterByID !! o_ID rEarlier with
    | Some rLater => diffMatchedConstraintOrIndex types rEarlier rLater
    | None => when (negb (o_FromParent rEarlier)) (droppedDifference types rEarlier)
    end) earlier) ++
  concat (map (λ x, let rLater := toRef x in
    when (negb (bool_decide (o_ID rLater ∈ earlierIDs) || o_FromParent rLater)) (addedDifference types rLater)) later).

(** ** Tables *)
Definition tableKeys (dbTypeA dbTypeB : string) : (Table → string) * (Table → string) :=
  chooseMatchKeys dbTypeA dbTypeB ID (λ t dbType, ObjectRef_ForKey dbType (ref t)).
(** A link is keyed the way its table is, if the snapshot has it, and by name otherwise. *)
Definition linkKeyFunc (s : SnapshotContent) (tableKey : Table → string) (r : ObjectRef) : string :=
  let keyByRef : gmap ObjectRef string := foldl (λ m t, <[ref t := tableKey t]> m) ∅ (Tables s) in
  match keyByRef !! r with Some k => k | None => ObjectRef_ForKey (DatabaseType s) r end.
(** A finding's values are copies; a copy is the value itself here. *)
Definition emitTableDropped (t : Table) : list Difference :=
  [newDifference TableDropped OpDropped ObjectTypeTable AttrNone (Some (TableIdent (ref t))) None (Some (VTable t)) None].
Definition emitTableAdded (t : Table) : list Difference :=
  [newDifference TableAdded OpAdded ObjectTypeTable AttrNone None (Some (TableIdent (ref t))) None (Some (VTable t))].
Definition tableChange (t : DiffType) (attr : Attribute) (tA tB : Table) (vA vB : option value) : Difference :=
  newDifference t OpChanged ObjectTypeTable attr (Some (TableIdent (ref tA))) (Some (TableIdent (ref tB))) vA vB.
Definition partitionParentEqual (a b : option ObjectRef) (linkKeyA linkKeyB : ObjectRef → string) : bool :=
  match a, b with
  | None, None => true
  | Some a, Some b => bool_decide (linkKeyA a = linkKeyB b)
  | _, _ => false
  end.
Fixpoint take_all (set : gmap string Z) (ks : list string) : bool :=
  match ks with
  | [] => true
  | k :: ks => let n := default 0 (set !! k) - 1 in if n <? 0 then false else take_all (<[k:=n]> set) ks
  end.
Definition linkSetEqual (a b : list ObjectRef) (linkKeyA linkKeyB : ObjectRef → string) : bool :=
  if negb (length a =? length b)%nat then false
  else take_all (foldl (λ set r, <[linkKeyA r := default 0 (set !! linkKeyA r) + 1]> set) ∅ a) (map linkKeyB b).
(** [compareObjectRefs] as an order: by schema, then by name. *)
Definition ref_le (a b : ObjectRef) : Prop :=
  (Schema a ≠ Schema b ∧ String.le (Schema a) (Schema b)) ∨ (Schema a = Schema b ∧ String.le (Name a) (Name b)).
#[global] Instance ref_le_dec a b : Decision (ref_le a b).
Proof. unfold ref_le. apply _. Defined.
Definition sort_refs : list ObjectRef → list ObjectRef := merge_sort ref_le.
Definition diffLinkSet (tA tB : Table) (linksA linksB : list ObjectRef) (linkKeyA linkKeyB : ObjectRef → string)
    (addedType removedType : DiffType) (attr : Attribute) : list Difference :=
  let keysA : gset string := list_to_set (map linkKeyA linksA) in
  let keysB : gset string := list_to_set (map linkKeyB linksB) in
  let removed := sort_refs (filter (λ r, linkKeyA r ∉ keysB) linksA) in
  let addedLinks := sort_refs (filter (λ r, linkKeyB r ∉ keysA) linksB) in
  when (negb (bool_decide (removed = []))) (tableChange removedType attr tA tB (Some (VRefs removed)) None) ++
  when (negb (bool_decide (addedLinks = []))) (tableChange addedType attr tA tB None (Some (VRefs addedLinks))).
Definition primaryKeyAsSlice (key : option TableConstraint) : list TableConstraint := option_list key.
Definition diffPartitionParent (tA tB : Table) (linkKeyA linkKeyB : ObjectRef → string) : list Difference :=
  if partitionParentEqual (PartitionParent tA) (PartitionParent tB) linkKeyA linkKeyB then [] else
  match PartitionParent tA with
  | Some p => [tableChange TablePartitionDetached AttrPartitionParent tA tB (Some (VRef p)) None] | None => [] end ++
  match PartitionParent tB with
  | Some p => [tableChange TablePartitionAttached AttrPartitionParent tA tB None (Some (VRef p))] | None => [] end.
Definition compareMatchedTables (dbTypeA dbTypeB : string) (compareKeys : bool) (linkKeyA linkKeyB : ObjectRef → string)
    (tA tB : Table) : list Difference :=
  when (bool_decide (Name (ref tA) ≠ Name (ref tB)))
    (tableChange TableNameChanged AttrName tA tB (Some (VString (Name (ref tA)))) (Some (VString (Name (ref tB))))) ++
  when (bool_decide (Schema (ref tA) ≠ Schema (ref tB)))
    (tableChange TableSchemaChanged AttrSchema tA tB (Some (VString (Schema (ref tA)))) (Some (VString (Schema (ref tB))))) ++
  when (bool_decide (Kind tA ≠ Kind tB))
    (tableChange TableKindChanged AttrKind tA tB (Some (VString (TableKind_string (Kind tA)))) (Some (VString (TableKind_string (Kind tB))))) ++
  diffPartitionParent tA tB linkKeyA linkKeyB ++
  when (negb (linkSetEqual (PartitionChildren tA) (PartitionChildren tB) linkKeyA linkKeyB))
    (tableChange TablePartitionChildrenChanged AttrPartitionChildren tA tB (Some (VRefs (PartitionChildren tA))) (Some (VRefs (PartitionChildren tB)))) ++
  diffLinkSet tA tB (InheritsFrom tA) (InheritsFrom tB) linkKeyA linkKeyB TableInheritAdded TableInheritRemoved AttrInherits ++
  diffLinkSet tA tB (InheritedBy tA) (InheritedBy tB) linkKeyA linkKeyB TableInheritedByAdded TableInheritedByRemoved AttrInheritedBy ++
  diffColumnsIn (Columns tA) (Columns tB) dbTypeA dbTypeB ++
  (if compareKeys then
     diffConstraintsOrIndexes (primaryKeyAsSlice (PrimaryKey tA)) (primaryKeyAsSlice (PrimaryKey tB)) constraintRef primaryKeyTypes ++
     diffConstraintsOrIndexes (UniqueKeys tA) (UniqueKeys tB) constraintRef uniqueTypes ++
     diffConstraintsOrIndexes (Checks tA) (Checks tB) constraintRef checkTypes ++
     diffConstraintsOrIndexes (ForeignKeys tA) (ForeignKeys tB) constraintRef foreignKeyTypes ++
     diffConstraintsOrIndexes (UniqueIndexes tA) (UniqueIndexes tB) indexRef uniqueIndexTypes ++
     diffConstraintsOrIndexes (Indexes tA) (Indexes tB) indexRef indexTypes
   else []).
Definition comparesKeys (a b : SnapshotContent) : bool :=
  (VersionWithKeysAndIndexes <=? Version a) && (VersionWithKeysAndIndexes <=? Version b).
Definition diffTables (a b : SnapshotContent) : list Difference :=
  let '(keyA, keyB) := tableKeys (DatabaseType a) (DatabaseType b) in
  matchByKey (Tables a) (Tables b) keyA keyB
    (compareMatchedTables (DatabaseType a) (DatabaseType b) (comparesKeys a b) (linkKeyFunc a keyA) (linkKeyFunc b keyB))
    emitTableDropped emitTableAdded.

(** ** Sorting *)
Definition keyOf (dbTypeA dbTypeB : string) (d : Difference) : string :=
  match ObjectA d with
  | Some i => ObjectIdent_ForKey dbTypeA i
  | None => match ObjectB d with Some i => ObjectIdent_ForKey dbTypeB i | None => "" end
  end.
Definition str_lt (a b : string) : bool := bool_decide (String.le a b ∧ a ≠ b).
Definition less (dbTypeA dbTypeB : string) (x y : Difference) : bool :=
  let ki := keyOf dbTypeA dbTypeB x in
  let kj := keyOf dbTypeA dbTypeB y in
  if decide (ki ≠ kj) then str_lt ki kj else str_lt (DiffType_string (Type_ x)) (DiffType_string (Type_ y)).
(** [sort.Slice] permutes, and leaves a slice in order for a strict weak order. *)
Record SortLaws (sortSlice : (Difference → Difference → bool) → list Difference → list Difference) : Prop := {
  sort_perm lt l : sortSlice lt l ≡ₚ l;
  sort_sorted lt l : (∀ x, lt x x = false) → (∀ x y z, lt x y = true → lt y z = true → lt x z = true) →
    (∀ x y z, lt x y = false → lt y z = false → lt x z = false) → StronglySorted (λ x y, lt y x = false) (sortSlice lt l) }.
Section diff.
Context (sortSlice : (Difference → Difference → bool) → list Difference → list Difference).
Definition sortDifferences (diffs : list Difference) (dbTypeA dbTypeB : string) : list Difference := sortSlice (less dbTypeA dbTypeB) diffs.
Definition Diff (a b : SnapshotContent) : list Difference := sortDifferences (diffTables a b) (DatabaseType a) (DatabaseType b).

(** ** Scope *)
Record Scope : Type := mkScope { sc_Schemas : list string; sc_Tables : list ObjectRef; sc_ObjectTypes : list ObjectType }.
Definition schemasOf (d : Difference) : list string :=
  let schema i := match i with Some (TableIdent o) => [Schema o] | Some (ScopedIdent r) => [Schema (host r)] | None => [] end in
  schema (ObjectA d) ++ schema (ObjectB d).
Definition anchorTableOf (d : Difference) : option ObjectRef :=
  match (match ObjectA d with Some i => Some i | None => ObjectB d end) with
  | Some (ScopedIdent r) => Some (host r)
  | Some (TableIdent o) => if decide (ObjectType_ d = ObjectTypeTable) then Some o else None
  | None => None
  end.
Definition passesObjectTypeFilter (d : Difference) (includeTypes : gset ObjectType) : bool := bool_decide (ObjectType_ d ∈ includeTypes).
Definition passesSchemaFilter (d : Difference) (includeSchemas : gset string) : bool :=
  existsb (λ s, bool_decide (s ∈ includeSchemas)) (schemasOf d).
Definition passesTableFilter (d : Difference) (includeTables : gset ObjectRef) : bool :=
  match anchorTableOf d with None => true | Some anchor => bool_decide (anchor ∈ includeTables) end.
Definition FilterByScope (diffs : list Difference) (scope : Scope) : list Difference :=
  let includeTypes : gset ObjectType := list_to_set (sc_ObjectTypes scope) in
  let includeSchemas : gset string := list_to_set (sc_Schemas scope) in
  let includeTables : gset ObjectRef := list_to_set (sc_Tables scope) in
  filter (λ d, passesObjectTypeFilter d includeTypes && passesSchemaFilter d includeSchemas && passesTableFilter d includeTables) diffs.
Definition Differ_Diff (scope : Scope) (a b : SnapshotContent) : list Difference := FilterByScope (Diff a b) scope.
End diff.

(** ** What is to be found *)
(** A change of one object: dropped, added, or on both sides and changed. *)
Inductive matchFinding {T} (as_ bs : list T) (keyA keyB : T → string) (changed : T → T → Difference → Prop)
    (onDropped onAdded : T → list Difference) : Difference → Prop :=
  | f_changed a b d : a ∈ as_ → b ∈ bs → keyA a = keyB b → changed a b d → matchFinding as_ bs keyA keyB changed onDropped onAdded d
  | f_dropped a d : a ∈ as_ → (∀ b, b ∈ bs → keyB b ≠ keyA a) → d ∈ onDropped a → matchFinding as_ bs keyA keyB changed onDropped onAdded d
  | f_added b d : b ∈ bs → (∀ a, a ∈ as_ → keyA a ≠ keyB b) → d ∈ onAdded b → matchFinding as_ bs keyA keyB changed onDropped onAdded d.
Inductive columnFinding (cA cB : Column) : Difference → Prop :=
  | cf_name : sc_Name (col_ref cA) ≠ sc_Name (col_ref cB) →
      columnFinding cA cB (columnChange ColumnNameChanged AttrName cA cB (VString (sc_Name (col_ref cA))) (VString (sc_Name (col_ref cB))))
  | cf_type : DataType cA ≠ DataType cB →
      columnFinding cA cB (columnChange ColumnTypeChanged AttrType cA cB (VString (DataType cA)) (VString (DataType cB)))
  | cf_not_null_set : NotNull cA = false → NotNull cB = true →
      columnFinding cA cB (columnChange ColumnNotNullSet AttrNullability cA cB (VBool false) (VBool true))
  | cf_not_null_dropped : NotNull cA = true → NotNull cB = false →
      columnFinding cA cB (columnChange ColumnNotNullDropped AttrNullability cA cB (VBool true) (VBool false))
  | cf_default : Default cA ≠ Default cB →
      columnFinding cA cB (columnChange ColumnDefaultChanged AttrDefault cA cB (VString (Default cA)) (VString (Default cB))).
(** Constraints and indexes of one kind; copies of a parent's say nothing. *)
Inductive keyFinding (types : kindTypes) (earlier later : list objectRef) : Difference → Prop :=
  | kf_dropped r : r ∈ earlier → (∀ r', r' ∈ later → o_ID r' ≠ o_ID r) → o_FromParent r = false →
      keyFinding types earlier later (droppedDifference types r)
  | kf_added r : r ∈ later → (∀ r', r' ∈ earlier → o_ID r' ≠ o_ID r) → o_FromParent r = false →
      keyFinding types earlier later (addedDifference types r)
  | kf_renamed r r' : r ∈ earlier → r' ∈ later → o_ID r = o_ID r' → o_FromParent r = false → o_FromParent r' = false →
      sc_Name (o_Ref r) ≠ sc_Name (o_Ref r') → keyFinding types earlier later (renamedDifference types r r').
(** The links of one side whose key is no key of the other. *)
Definition unlinked (links others : list ObjectRef) (key otherKey : ObjectRef → string) : list ObjectRef :=
  sort_refs (filter (λ r, key r ∉ map otherKey others) links).
Section spec.
Context (dbTypeA dbTypeB : string) (compareKeys : bool) (linkKeyA linkKeyB : ObjectRef → string).
(** The six kinds of constraints and indexes of two versions of a table. *)
Definition keyLists (tA tB : Table) : list (kindTypes * list objectRef * list objectRef) :=
  [(primaryKeyTypes, map constraintRef (option_list (PrimaryKey tA)), map constraintRef (option_list (PrimaryKey tB)));
   (uniqueTypes, map constraintRef (UniqueKeys tA), map constraintRef (UniqueKeys tB));
   (checkTypes, map constraintRef (Checks tA), map constraintRef (Checks tB));
   (foreignKeyTypes, map constraintRef (ForeignKeys tA), map constraintRef (ForeignKeys tB));
   (uniqueIndexTypes, map indexRef (UniqueIndexes tA), map indexRef (UniqueIndexes tB));
   (indexTypes, map indexRef (Indexes tA), map indexRef (Indexes tB))].
Inductive tableFinding (tA tB : Table) : Difference → Prop :=
  | tf_name : Name (ref tA) ≠ Name (ref tB) →
      tableFinding tA tB (tableChange TableNameChanged AttrName tA tB (Some (VString (Name (ref tA)))) (Some (VString (Name (ref tB)))))
  | tf_schema : Schema (ref tA) ≠ Schema (ref tB) →
      tableFinding tA tB (tableChange TableSchemaChanged AttrSchema tA tB (Some (VString (Schema (ref tA)))) (Some (VString (Schema (ref tB)))))
  | tf_kind : Kind tA ≠ Kind tB →
      tableFinding tA tB (tableChange TableKindChanged AttrKind tA tB (Some (VString (TableKind_string (Kind tA)))) (Some (VString (TableKind_string (Kind tB)))))
  | tf_detached p : PartitionParent tA = Some p → Some (linkKeyA p) ≠ linkKeyB <$> PartitionParent tB →
      tableFinding tA tB (tableChange TablePartitionDetached AttrPartitionParent tA tB (Some (VRef p)) None)
  | tf_attached p : PartitionParent tB = Some p → linkKeyA <$> PartitionParent tA ≠ Some (linkKeyB p) →
      tableFinding tA tB (tableChange TablePartitionAttached AttrPartitionParent tA tB None (Some (VRef p)))
  | tf_children : ¬ map linkKeyA (PartitionChildren tA) ≡ₚ map linkKeyB (PartitionChildren tB) →
      tableFinding tA tB (tableChange TablePartitionChildrenChanged AttrPartitionChildren tA tB (Some (VRefs (PartitionChildren tA))) (Some (VRefs (PartitionChildren tB))))
  | tf_inherit_removed : unlinked (InheritsFrom tA) (InheritsFrom tB) linkKeyA linkKeyB ≠ [] →
      tableFinding tA tB (tableChange TableInheritRemoved AttrInherits tA tB (Some (VRefs (unlinked (InheritsFrom tA) (InheritsFrom tB) linkKeyA linkKeyB))) None)
  | tf_inherit_added : unlinked (InheritsFrom tB) (InheritsFrom tA) linkKeyB linkKeyA ≠ [] →
      tableFinding tA tB (tableChange TableInheritAdded AttrInherits tA tB None (Some (VRefs (unlinked (InheritsFrom tB) (InheritsFrom tA) linkKeyB linkKeyA))))
  | tf_inherited_by_removed : unlinked (InheritedBy tA) (InheritedBy tB) linkKeyA linkKeyB ≠ [] →
      tableFinding tA tB (tableChange TableInheritedByRemoved AttrInheritedBy tA tB (Some (VRefs (unlinked (InheritedBy tA) (InheritedBy tB) linkKeyA linkKeyB))) None)
  | tf_inherited_by_added : unlinked (InheritedBy tB) (InheritedBy tA) linkKeyB linkKeyA ≠ [] →
      tableFinding tA tB (tableChange TableInheritedByAdded AttrInheritedBy tA tB None (Some (VRefs (unlinked (InheritedBy tB) (InheritedBy tA) linkKeyB linkKeyA))))
  | tf_column d : matchFinding (Columns tA) (Columns tB) (columnKeys dbTypeA dbTypeB).1 (columnKeys dbTypeA dbTypeB).2 columnFinding
        emitColumnDropped emitColumnAdded d → tableFinding tA tB d
  | tf_key types earlier later d : compareKeys = true → (types, earlier, later) ∈ keyLists tA tB →
      keyFinding types earlier later d → tableFinding tA tB d.
End spec.
Definition finding (a b : SnapshotContent) : Difference → Prop :=
  let keys := tableKeys (DatabaseType a) (DatabaseType b) in
  matchFinding (Tables a) (Tables b) keys.1 keys.2
    (tableFinding (DatabaseType a) (DatabaseType b) (comparesKeys a b) (linkKeyFunc a keys.1) (linkKeyFunc b keys.2))
    emitTableDropped emitTableAdded.
(** Keys tell the tables of a snapshot, and the columns and keys of a table, apart. *)
Record distinctKeys (tableKey : Table → string) (columnKey : Column → string) (s : SnapshotContent) : Prop := {
  dk_tables : NoDup (map tableKey (Tables s));
  dk_columns t : t ∈ Tables s → NoDup (map columnKey (Columns t));
  dk_constraints t : t ∈ Tables s → Forall (λ l, NoDup (map con_ID l)) [UniqueKeys t; Checks t; ForeignKeys t];
  dk_indexes t : t ∈ Tables s → Forall (λ l, NoDup (map ind_ID l)) [UniqueIndexes t; Indexes t] }.
Definition comparable (a b : SnapshotContent) : Prop :=
  let tk := tableKeys (DatabaseType a) (DatabaseType b) in
  let ck := columnKeys (DatabaseType a) (DatabaseType b) in
  distinctKeys tk.1 ck.1 a ∧ distinctKeys tk.2 ck.2 b.

(** ** Lemmas: the comparison finds just that *)
Lemma byKey_lookup {T} (key : T → string) l k x : NoDup (map key l) → byKey key l !! k = Some x ↔ x ∈ l ∧ key x = k.
Proof.
  unfold byKey. induction l as [|y l IH] using rev_ind.
  { intros _. cbn. rewrite lookup_empty. split; [done|]. by intros [?%elem_of_nil _]. }
  rewrite map_app. intros (Hl & Hnew & _)%NoDup_app. rewrite foldl_app. cbn [foldl]. rewrite elem_of_app, list_elem_of_singleton.
  destruct (decide (key y = k)) as [<-|Hne].
  - rewrite lookup_insert_eq. split; [intros [= <-]; by split; [right|]|]. intros [[Hx| ->] Heq]; [|done].
    exfalso. apply (Hnew (key y)); [|by left]. rewrite <- Heq. by apply list_elem_of_fmap_2.
  - rewrite lookup_insert_ne, IH by done. split; [intros [? ?]; by split; [left|]|]. intros [[Hx| ->] Heq]; done.
Qed.
Lemma byKey_none {T} (key : T → string) l k : NoDup (map key l) → byKey key l !! k = None ↔ ∀ x, x ∈ l → key x ≠ k.
Proof.
  intros Hnd. rewrite eq_None_not_Some. split.
  - intros Hn x Hx Heq. apply Hn. exists x. by apply byKey_lookup.
  - intros H [x [Hx Heq]%byKey_lookup]; [|done]. by apply (H x).
Qed.
Lemma matchByKey_spec {T} (as_ bs : list T) keyA keyB onMatch (changed : T → T → Difference → Prop) onDropped onAdded d :
  NoDup (map keyA as_) → NoDup (map keyB bs) → (∀ a b d, a ∈ as_ → b ∈ bs → d ∈ onMatch a b ↔ changed a b d) →
  d ∈ matchByKey as_ bs keyA keyB onMatch onDropped onAdded ↔ matchFinding as_ bs keyA keyB changed onDropped onAdded d.
Proof.
  intros HA HB Hm. unfold matchByKey. rewrite elem_of_app, !elem_of_concat_map. split.
  - intros [([k x] & Hx & Hd)|([k x] & Hx & Hd)]; apply elem_of_map_to_list, byKey_lookup in Hx as [Hx Hk]; [|done| |done]; cbn in Hk, Hd.
    + destruct (byKey keyB bs !! k) as [b|] eqn:Hlk.
      * apply byKey_lookup in Hlk as [Hb Hkb]; [|done]. eapply f_changed; [exact Hx|exact Hb|congruence|by apply Hm].
      * eapply f_dropped; [exact Hx| |done]. rewrite byKey_none in Hlk by done. by rewrite Hk.
    + destruct (byKey keyA as_ !! k) as [a|] eqn:Hlk; [by apply elem_of_nil in Hd|]. rewrite byKey_none in Hlk by done.
      eapply f_added; [exact Hx| |done]. by rewrite Hk.
  - intros [a b d' Ha Hb Hk Hd|a d' Ha Hno Hd|b d' Hb Hno Hd].
    + left. exists (keyA a, a). split; [by apply elem_of_map_to_list, byKey_lookup|]. cbn.
      assert (byKey keyB bs !! keyA a = Some b) as -> by (by apply byKey_lookup). by apply Hm.
    + left. exists (keyA a, a). split; [by apply elem_of_map_to_list, byKey_lookup|]. cbn.
      assert (byKey keyB bs !! keyA a = None) as -> by (by apply byKey_none). done.
    + right. exists (keyB b, b). split; [by apply elem_of_map_to_list, byKey_lookup|]. cbn.
      assert (byKey keyA as_ !! keyB b = None) as -> by (by apply byKey_none). done.
Qed.
Lemma elem_of_when b d d' : d ∈ when b d' ↔ b = true ∧ d = d'.
Proof. destruct b; cbn; [rewrite list_elem_of_singleton; naive_solver|]. split; [by intros ?%elem_of_nil|by intros [? _]]. Qed.
Lemma compareMatchedColumns_spec cA cB d : d ∈ compareMatchedColumns cA cB ↔ columnFinding cA cB d.
Proof.
  unfold compareMatchedColumns. rewrite !elem_of_app, !elem_of_when, !bool_decide_eq_true. split.
  - intros [[? ->]|[[? ->]|[[? ->]|[? ->]]]]; [by constructor..| |by constructor].
    destruct (NotNull cA) eqn:?, (NotNull cB) eqn:?; try done; by constructor.
  - intros [?|?|HA HB|HA HB|?]; [by left|by right; left|..|by right; right; right]; right; right; left; by rewrite HA, HB.
Qed.
Lemma diffColumnsIn_spec colsA colsB dbA dbB d :
  NoDup (map (columnKeys dbA dbB).1 colsA) → NoDup (map (columnKeys dbA dbB).2 colsB) →
  d ∈ diffColumnsIn colsA colsB dbA dbB ↔
  matchFinding colsA colsB (columnKeys dbA dbB).1 (columnKeys dbA dbB).2 columnFinding emitColumnDropped emitColumnAdded d.
Proof.
  intros HA HB. unfold diffColumnsIn. destruct (columnKeys dbA dbB) as [kA kB]. apply matchByKey_spec; [done..|].
  intros a b d' _ _. apply compareMatchedColumns_spec.
Qed.
Lemma diffConstraintsOrIndexes_spec {T} (earlier later : list T) toRef types d :
  NoDup (map o_ID (map toRef later)) →
  d ∈ diffConstraintsOrIndexes earlier later toRef types ↔ keyFinding types (map toRef earlier) (map toRef later) d.
Proof.
  intros Hnd. unfold diffConstraintsOrIndexes. rewrite elem_of_app, !elem_of_concat_map. split.
  - intros [(x & Hx & Hd)|(x & Hx & Hd)].
    + destruct (byKey o_ID (map toRef later) !! o_ID (toRef x)) as [r'|] eqn:Hlk.
      * apply byKey_lookup in Hlk as [Hr' Hid]; [|done]. unfold diffMatchedConstraintOrIndex in Hd. apply elem_of_when in Hd as [Hb ->].
        apply negb_true_iff, orb_false_iff in Hb as [[H1 H2]%orb_false_iff H3%bool_decide_eq_false].
        apply kf_renamed; [by apply list_elem_of_fmap_2|done..].
      * rewrite byKey_none in Hlk by done. apply elem_of_when in Hd as [Hb%negb_true_iff ->].
        apply kf_dropped; [by apply list_elem_of_fmap_2|done..].
    + apply elem_of_when in Hd as [Hb ->]. apply negb_true_iff, orb_false_iff in Hb as [H1%bool_decide_eq_false H2].
      apply kf_added; [by apply list_elem_of_fmap_2| |done]. intros r' Hr' Heq. apply H1.
      apply elem_of_list_to_set, list_elem_of_fmap. apply list_elem_of_fmap in Hr' as (y & -> & Hy). by exists y.
  - intros [r Hr Hno Hp|r Hr Hno Hp|r r' Hr Hr' Hid Hp Hp' Hne].
    + apply list_elem_of_fmap in Hr as (x & -> & Hx). left. exists x. split; [done|].
      assert (byKey o_ID (map toRef later) !! o_ID (toRef x) = None) as -> by (by apply byKey_none). by rewrite elem_of_when, Hp.
    + apply list_elem_of_fmap in Hr as (x & -> & Hx). right. exists x. split; [done|]. rewrite elem_of_when, Hp, orb_false_r.
      split; [|done]. apply negb_true_iff, bool_decide_eq_false. intros (y & Heq & Hy)%elem_of_list_to_set%list_elem_of_fmap.
      apply (Hno (toRef y)); [by apply list_elem_of_fmap_2|done].
    + apply list_elem_of_fmap in Hr as (x & -> & Hx). left. exists x. split; [done|].
      assert (byKey o_ID (map toRef later) !! o_ID (toRef x) = Some r') as -> by (by apply byKey_lookup).
      unfold diffMatchedConstraintOrIndex. rewrite elem_of_when, Hp, Hp', bool_decide_false by done. done.
Qed.

(** *** Links *)
Definition countOf (k : string) (l : list string) : Z := Z.of_nat (length (filter (λ x, x = k) l)).
Lemma countOf_cons k x l : countOf k (x :: l) = (if decide (x = k) then 1 else 0) + countOf k l.
Proof. unfold countOf. rewrite filter_cons. destruct (decide (x = k)); cbn; lia. Qed.
Lemma countOf_perm k l l' : l ≡ₚ l' → countOf k l = countOf k l'.
Proof. unfold countOf. by intros ->. Qed.
Lemma countOf_elem k l : 0 < countOf k l → k ∈ l.
Proof.
  induction l as [|x l IH]; [done|]. rewrite countOf_cons. destruct (decide (x = k)) as [->|]; [by left|]. intros. right. apply IH. lia.
Qed.
Lemma count_set (f : ObjectRef → string) l (m : gmap string Z) : (∀ k, default 0 (m !! k) = 0) → ∀ k,
  default 0 (foldl (λ set r, <[f r := default 0 (set !! f r) + 1]> set) m l !! k) = countOf k (map f l).
Proof.
  intros Hm k. induction l as [|r l IH] using rev_ind; [by rewrite Hm|]. rewrite foldl_app. cbn [foldl].
  rewrite map_app. rewrite (countOf_perm k (map f l ++ map f [r]) (f r :: map f l)) by (cbn; by rewrite Permutation_app_comm).
  rewrite countOf_cons. destruct (decide (f r = k)) as [->|Hne]; [rewrite lookup_insert_eq, IH; cbn; lia|].
  rewrite lookup_insert_ne by done. by rewrite IH.
Qed.
Lemma take_all_spec set l ks : (∀ k, default 0 (set !! k) = countOf k l) → take_all set ks = true ↔ ks ⊆+ l.
Proof.
  revert set l. induction ks as [|k ks IH]; intros set l Hset; cbn [take_all]; [split; [intros _; apply submseteq_nil_l|done]|].
  rewrite Hset. destruct (countOf k l - 1 <? 0) eqn:Hn.
  - split; [done|]. intros Hsub. exfalso. apply Z.ltb_lt in Hn. assert (k ∈ l) as Hk.
    { eapply elem_of_submseteq; [|exact Hsub]. by left. }
    apply elem_of_Permutation in Hk as [l' Hl']. rewrite (countOf_perm k _ _ Hl'), countOf_cons, decide_True in Hn by done.
    unfold countOf in Hn. lia.
  - apply Z.ltb_ge in Hn. assert (k ∈ l) as Hk by (apply countOf_elem; lia). apply elem_of_Permutation in Hk as [l' Hl'].
    rewrite (IH _ l'); [rewrite Hl'; split; [apply submseteq_skip|]|].
    + intros Hsub. by apply (submseteq_app_inv_l ks l' [k]).
    + intros k'. rewrite (countOf_perm k _ _ Hl'), countOf_cons, decide_True by done. destruct (decide (k = k')) as [<-|Hne].
      * rewrite lookup_insert_eq. cbn. lia.
      * rewrite lookup_insert_ne, Hset, (countOf_perm k' _ _ Hl'), countOf_cons, decide_False by done. done.
Qed.
(** Links are the same when their keys are, counted. *)
Lemma linkSetEqual_spec a b lkA lkB : linkSetEqual a b lkA lkB = true ↔ map lkA a ≡ₚ map lkB b.
Proof.
  unfold linkSetEqual. destruct (length a =? length b)%nat eqn:Hlen; cbn [negb].
  - apply Nat.eqb_eq in Hlen. rewrite (take_all_spec _ (map lkA a)).
    + split; [|by intros ->]. intros Hsub. symmetry. apply submseteq_length_Permutation; [done|]. by rewrite !length_map, Hlen.
    + intros k. apply count_set. intros k'. by rewrite lookup_empty.
  - apply Nat.eqb_neq in Hlen. split; [done|]. intros Hp. apply Permutation_length in Hp. rewrite !length_map in Hp. done.
Qed.
Lemma filter_keys_ext (l others : list ObjectRef) f g :
  filter (λ r, f r ∉ (list_to_set (map g others) : gset string)) l = filter (λ r, f r ∉ map g others) l.
Proof. apply list_filter_iff. intros r. by rewrite elem_of_list_to_set. Qed.
Lemma diffLinkSet_spec tA tB lA lB lkA lkB addT remT attr d :
  d ∈ diffLinkSet tA tB lA lB lkA lkB addT remT attr ↔
  (unlinked lA lB lkA lkB ≠ [] ∧ d = tableChange remT attr tA tB (Some (VRefs (unlinked lA lB lkA lkB))) None) ∨
  (unlinked lB lA lkB lkA ≠ [] ∧ d = tableChange addT attr tA tB None (Some (VRefs (unlinked lB lA lkB lkA)))).
Proof.
  unfold diffLinkSet. rewrite !filter_keys_ext. fold (unlinked lA lB lkA lkB) (unlinked lB lA lkB lkA).
  by rewrite elem_of_app, !elem_of_when, !negb_true_iff, !bool_decide_eq_false.
Qed.
Lemma diffPartitionParent_spec tA tB lkA lkB d : d ∈ diffPartitionParent tA tB lkA lkB ↔
  (∃ p, PartitionParent tA = Some p ∧ Some (lkA p) ≠ lkB <$> PartitionParent tB ∧
        d = tableChange TablePartitionDetached AttrPartitionParent tA tB (Some (VRef p)) None) ∨
  (∃ p, PartitionParent tB = Some p ∧ lkA <$> PartitionParent tA ≠ Some (lkB p) ∧
        d = tableChange TablePartitionAttached AttrPartitionParent tA tB None (Some (VRef p))).
Proof.
  unfold diffPartitionParent. destruct (PartitionParent tA) as [p|], (PartitionParent tB) as [p'|]; cbn.
  - destruct (bool_decide (lkA p = lkB p')) eqn:Hb; [apply bool_decide_eq_true in Hb|apply bool_decide_eq_false in Hb].
    + split; [by intros ?%elem_of_nil|]. rewrite Hb. intros [(? & [= <-] & ? & _)|(? & [= <-] & ? & _)]; congruence.
    + rewrite !elem_of_cons, elem_of_nil. split.
      * intros [->|[->|[]]]; [left; exists p|right; exists p']; split_and!; congruence.
      * intros [(? & [= <-] & ? & ->)|(? & [= <-] & ? & ->)]; auto.
  - rewrite list_elem_of_singleton. split; [intros ->; left; by exists p|]. by intros [(? & [= <-] & ? & ->)|(? & [=] & _)].
  - rewrite list_elem_of_singleton. split; [intros ->; right; by exists p'|]. by intros [(? & [=] & _)|(? & [= <-] & ? & ->)].
  - split; [by intros ?%elem_of_nil|]. by intros [(? & [=] & _)|(? & [=] & _)].
Qed.

(** *** Tables *)
Lemma map_o_ID_constraint l : map o_ID (map constraintRef l) = map con_ID l.
Proof. by rewrite map_map. Qed.
Lemma map_o_ID_index l : map o_ID (map indexRef l) = map ind_ID l.
Proof. by rewrite map_map. Qed.
Lemma NoDup_option {A B} (f : A → B) (o : option A) : NoDup (map f (option_list o)).
Proof. destruct o; cbn; repeat constructor. by intros ?%elem_of_nil. Qed.
Lemma keys_spec b tA tB d :
  Forall (λ l, NoDup (map con_ID l)) [UniqueKeys tB; Checks tB; ForeignKeys tB] → Forall (λ l, NoDup (map ind_ID l)) [UniqueIndexes tB; Indexes tB] →
  d ∈ (if b : bool then
     diffConstraintsOrIndexes (primaryKeyAsSlice (PrimaryKey tA)) (primaryKeyAsSlice (PrimaryKey tB)) constraintRef primaryKeyTypes ++
     diffConstraintsOrIndexes (UniqueKeys tA) (UniqueKeys tB) constraintRef uniqueTypes ++
     diffConstraintsOrIndexes (Checks tA) (Checks tB) constraintRef checkTypes ++
     diffConstraintsOrIndexes (ForeignKeys tA) (ForeignKeys tB) constraintRef foreignKeyTypes ++
     diffConstraintsOrIndexes (UniqueIndexes tA) (UniqueIndexes tB) indexRef uniqueIndexTypes ++
     diffConstraintsOrIndexes (Indexes tA) (Indexes tB) indexRef indexTypes
   else []) ↔ b = true ∧ ∃ types earlier later, (types, earlier, later) ∈ keyLists tA tB ∧ keyFinding types earlier later d.
Proof.
  intros Hc Hi. destruct b; [|split; [by intros ?%elem_of_nil|by intros [? _]]].
  repeat (apply Forall_cons in Hc as [? Hc]). repeat (apply Forall_cons in Hi as [? Hi]).
  rewrite !elem_of_app, !diffConstraintsOrIndexes_spec by (rewrite ?map_o_ID_constraint, ?map_o_ID_index; done || apply NoDup_option).
  unfold keyLists, primaryKeyAsSlice. split.
  - intros Hd. split; [done|]. destruct Hd as [Hd|[Hd|[Hd|[Hd|[Hd|Hd]]]]]; eexists _, _, _; (split; [|exact Hd]).
    + by left.
    + by right; left.
    + by do 2 right; left.
    + by do 3 right; left.
    + by do 4 right; left.
    + by do 5 right; left.
  - intros (_ & types & earlier & later & Hin & Hd). rewrite !elem_of_cons, elem_of_nil in Hin.
    destruct Hin as [[= -> -> ->]|[[= -> -> ->]|[[= -> -> ->]|[[= -> -> ->]|[[= -> -> ->]|[[= -> -> ->]|[]]]]]]]; tauto.
Qed.
Lemma compareMatchedTables_spec dbA dbB ck lkA lkB tA tB d :
  NoDup (map (columnKeys dbA dbB).1 (Columns tA)) → NoDup (map (columnKeys dbA dbB).2 (Columns tB)) →
  Forall (λ l, NoDup (map con_ID l)) [UniqueKeys tB; Checks tB; ForeignKeys tB] → Forall (λ l, NoDup (map ind_ID l)) [UniqueIndexes tB; Indexes tB] →
  d ∈ compareMatchedTables dbA dbB ck lkA lkB tA tB ↔ tableFinding dbA dbB ck lkA lkB tA tB d.
Proof.
  intros HcA HcB Hc Hi. unfold compareMatchedTables. rewrite (elem_of_app (when _ _)), (elem_of_app (when _ _)), (elem_of_app (when _ _)).
  rewrite (elem_of_app (diffPartitionParent _ _ _ _)), (elem_of_app (when _ _)), !(elem_of_app (diffLinkSet _ _ _ _ _ _ _ _ _)).
  rewrite (elem_of_app (diffColumnsIn _ _ _ _)), keys_spec, diffColumnsIn_spec, !diffLinkSet_spec, diffPartitionParent_spec by done.
  rewrite !elem_of_when, !bool_decide_eq_true, negb_true_iff, <- not_true_iff_false, linkSetEqual_spec. split.
  - intros [[? ->]|[[? ->]|[[? ->]|[H|[[? ->]|[H|[H|[H|H]]]]]]]].
    + by constructor.
    + by constructor.
    + by constructor.
    + destruct H as [(p & ? & ? & ->)|(p & ? & ? & ->)]; [by apply tf_detached|by apply tf_attached].
    + by constructor.
    + destruct H as [[? ->]|[? ->]]; by constructor.
    + destruct H as [[? ->]|[? ->]]; by constructor.
    + by apply tf_column.
    + destruct H as (? & types & earlier & later & ? & ?). by eapply tf_key.
  - intros [?|?|?|p ? ?|p ? ?|?|?|?|?|?|d' ?|types earlier later d' ? ? ?].
    + by left.
    + by right; left.
    + by do 2 right; left.
    + do 3 right; left. left. by exists p.
    + do 3 right; left. right. by exists p.
    + by do 4 right; left.
    + do 5 right; left. by left.
    + do 5 right; left. by right.
    + do 6 right; left. by left.
    + do 6 right; left. by right.
    + by do 7 right; left.
    + do 8 right. split; [done|]. by exists types, earlier, later.
Qed.
Lemma diffTables_spec a b d : comparable a b → d ∈ diffTables a b ↔ finding a b d.
Proof.
  intros [[HtA HcA _ _] [HtB HcB Hc Hi]]. unfold diffTables, finding.
  destruct (tableKeys _ _) as [kA kB] eqn:Hk. cbn [fst snd] in *. apply matchByKey_spec; [done..|].
  intros tA tB d' HA HB. apply compareMatchedTables_spec; auto.
Qed.
(** Snapshots as captures leave them, of one engine with stable IDs. *)
Definition sameEngine (a b : SnapshotContent) : Prop := stableIDs (DatabaseType a) (DatabaseType b) = true.
Lemma wf_comparable a b : sameEngine a b → wfTables (Tables a) → wfTables (Tables b) → comparable a b.
Proof.
  intros Hs Ha Hb. unfold comparable, tableKeys, columnKeys, chooseMatchKeys. rewrite Hs. cbn [fst snd].
  assert (∀ s, wfTables (Tables s) → distinctKeys ID col_ID s) as H; [|by split; apply H].
  intros s [Hid _ Hwf]. rewrite Forall_forall in Hwf. split; [done|..]; intros t Ht; destruct (Hwf t Ht) as [[? _] _ Hc Hi]; [done|..];
    (eapply Forall_impl; [eassumption|]; by intros l [? _]).
Qed.

Section laws.
Context (sortSlice : (Difference → Difference → bool) → list Difference → list Difference) (Hsort : SortLaws sortSlice).
Lemma elem_of_Diff a b d : d ∈ Diff sortSlice a b ↔ d ∈ diffTables a b.
Proof. unfold Diff, sortDifferences. by rewrite (sort_perm _ Hsort). Qed.
Lemma str_lt_irrefl x : str_lt x x = false.
Proof. apply bool_decide_eq_false. by intros [_ ?]. Qed.
Lemma str_lt_false x y : str_lt x y = false ↔ String.le y x.
Proof.
  unfold str_lt. rewrite bool_decide_eq_false. split.
  - intros H. destruct (decide (x = y)) as [->|Hne]; [done|]. destruct (total String.le x y) as [Hle|]; [|done]. exfalso. auto.
  - intros Hyx [Hxy Hne]. apply Hne. by apply (anti_symm String.le).
Qed.
Lemma str_lt_trans x y z : str_lt x y = true → str_lt y z = true → str_lt x z = true.
Proof.
  unfold str_lt. rewrite !bool_decide_eq_true. intros [H1 H2] [H3 H4]. split; [by etrans|]. intros ->. apply H4. by apply (anti_symm String.le).
Qed.
Lemma str_lt_total x y : str_lt x y = false → x ≠ y → str_lt y x = true.
Proof. rewrite str_lt_false. intros ? ?. by apply bool_decide_eq_true. Qed.
(** The order is the lexicographic one on key and type. *)
Lemma less_false dbA dbB x y : less dbA dbB x y = false ↔
  (keyOf dbA dbB x = keyOf dbA dbB y ∧ String.le (DiffType_string (Type_ y)) (DiffType_string (Type_ x))) ∨
  (keyOf dbA dbB x ≠ keyOf dbA dbB y ∧ String.le (keyOf dbA dbB y) (keyOf dbA dbB x)).
Proof. unfold less. destruct (decide _) as [H|H]; rewrite str_lt_false; [tauto|]. apply dec_stable in H. tauto. Qed.
Lemma Diff_sorted a b : StronglySorted (λ x y, less (DatabaseType a) (DatabaseType b) y x = false) (Diff sortSlice a b).
Proof.
  apply (sort_sorted _ Hsort).
  - intros x. unfold less. rewrite decide_False by (intros H; by apply H). apply str_lt_irrefl.
  - intros x y z. unfold less. repeat destruct (decide _) as [?|?%dec_stable]; try congruence.
    + apply str_lt_trans.
    + intros H1 H2. exfalso. assert (keyOf (DatabaseType a) (DatabaseType b) x = keyOf (DatabaseType a) (DatabaseType b) z) as Heq by done.
      rewrite Heq in H1. pose proof (str_lt_trans _ _ _ H1 H2) as H3. by rewrite str_lt_irrefl in H3.
    + apply str_lt_trans.
  - intros x y z. rewrite !less_false. intros [[Hxy ?]|[Hxy ?]] [[Hyz ?]|[Hyz ?]].
    + left. split; [congruence|]. by etrans.
    + right. split; [congruence|]. by rewrite Hxy.
    + right. split; [congruence|]. by rewrite <- Hyz.
    + right. split; [|by etrans]. intros Heq. apply Hxy, (anti_symm String.le); [|done]. by rewrite Heq.
Qed.
(** C15: The differences of two snapshots are what is to be found between them, and nothing else:
    objects on one side only, by ID or by name, and each changed attribute of objects on both;
    of constraints and indexes those declared on the table, and only between snapshots that
    hold them.  They come sorted by identity, then type. *)
Theorem Diff_finds_all_changes (a b : SnapshotContent) : comparable a b →
  (∀ d, d ∈ Diff sortSlice a b ↔ finding a b d) ∧
  StronglySorted (λ x y, less (DatabaseType a) (DatabaseType b) y x = false) (Diff sortSlice a b).
Proof. intros Hc. split; [|apply Diff_sorted]. intros d. rewrite elem_of_Diff. by apply diffTables_spec. Qed.
End laws.

(** ** No difference *)
(** Two lists hold the same objects: the same keys, and related objects under each. *)
Definition sameBy {T} (keyA keyB : T → string) (R : T → T → Prop) (as_ bs : list T) : Prop :=
  (∀ a, a ∈ as_ → ∃ b, b ∈ bs ∧ keyA a = keyB b ∧ R a b) ∧ (∀ b, b ∈ bs → ∃ a, a ∈ as_ ∧ keyA a = keyB b).
Definition sameColumn (cA cB : Column) : Prop :=
  sc_Name (col_ref cA) = sc_Name (col_ref cB) ∧ DataType cA = DataType cB ∧ NotNull cA = NotNull cB ∧ Default cA = Default cB.
Record sameTable (columnKeyA columnKeyB : Column → string) (linkKeyA linkKeyB : ObjectRef → string) (tA tB : Table) : Prop := {
  same_ref : ref tA = ref tB; same_kind : Kind tA = Kind tB;
  same_parent : linkKeyA <$> PartitionParent tA = linkKeyB <$> PartitionParent tB;
  same_children : map linkKeyA (PartitionChildren tA) ≡ₚ map linkKeyB (PartitionChildren tB);
  same_inherits k : k ∈ map linkKeyA (InheritsFrom tA) ↔ k ∈ map linkKeyB (InheritsFrom tB);
  same_inherited k : k ∈ map linkKeyA (InheritedBy tA) ↔ k ∈ map linkKeyB (InheritedBy tB);
  same_columns : sameBy columnKeyA columnKeyB sameColumn (Columns tA) (Columns tB) }.
(** The constraints and indexes declared on a table are those of the other version, with
    their names; one that is a copy on either side may be there or not. *)
Definition sameKeys (tA tB : Table) : Prop :=
  ∀ types earlier later, (types, earlier, later) ∈ keyLists tA tB →
    (∀ r, r ∈ earlier → o_FromParent r = false → ∃ r', r' ∈ later ∧ o_ID r' = o_ID r ∧
       (o_FromParent r' = true ∨ sc_Name (o_Ref r) = sc_Name (o_Ref r'))) ∧
    (∀ r', r' ∈ later → o_FromParent r' = false → ∃ r, r ∈ earlier ∧ o_ID r = o_ID r').
Definition sameTables (a b : SnapshotContent) (R : Table → Table → Prop) : Prop :=
  let tk := tableKeys (DatabaseType a) (DatabaseType b) in
  let ck := columnKeys (DatabaseType a) (DatabaseType b) in
  sameBy tk.1 tk.2 (λ tA tB, sameTable ck.1 ck.2 (linkKeyFunc a tk.1) (linkKeyFunc b tk.2) tA tB ∧ R tA tB) (Tables a) (Tables b).
Definition sameSchema (a b : SnapshotContent) : Prop := sameTables a b (λ tA tB, comparesKeys a b = true → sameKeys tA tB).

Lemma sameBy_iff {T} (kA kB : T → string) (R R' : T → T → Prop) as_ bs :
  (∀ a b, a ∈ as_ → b ∈ bs → kA a = kB b → R a b ↔ R' a b) → sameBy kA kB R as_ bs ↔ sameBy kA kB R' as_ bs.
Proof.
  intros H. unfold sameBy. split; (intros [H1 H2]; split; [|done]); intros a Ha; destruct (H1 a Ha) as (b & Hb & Hk & HR);
    exists b; (split_and!; [done..|by apply (H a b Ha Hb Hk)]).
Qed.
Lemma matchFinding_none {T} (as_ bs : list T) kA kB (changed : T → T → Difference → Prop) onDropped onAdded :
  NoDup (map kB bs) → (∀ x, onDropped x ≠ []) → (∀ x, onAdded x ≠ []) →
  (∀ d, ¬ matchFinding as_ bs kA kB changed onDropped onAdded d) ↔ sameBy kA kB (λ a b, ∀ d, ¬ changed a b d) as_ bs.
Proof.
  intros Hnd Hdrop Hadd. split.
  - intros Hno. split.
    + intros a Ha. destruct (decide (Exists (λ b, kB b = kA a) bs)) as [(b & Hb & Hk)%Exists_exists|Hn].
      * exists b. split_and!; [done..|]. intros d Hd. by eapply Hno, f_changed.
      * exfalso. destruct (onDropped a) as [|d l] eqn:Hd; [by eapply Hdrop|]. eapply (Hno d), (f_dropped _ _ _ _ _ _ _ a); [done| |rewrite Hd; by left].
        intros b Hb Heq. apply Hn, Exists_exists. by exists b.
    + intros b Hb. destruct (decide (Exists (λ a, kA a = kB b) as_)) as [(a & Ha & Hk)%Exists_exists|Hn]; [by exists a|].
      exfalso. destruct (onAdded b) as [|d l] eqn:Hd; [by eapply Hadd|]. eapply (Hno d), (f_added _ _ _ _ _ _ _ b); [done| |rewrite Hd; by left].
      intros a Ha Heq. apply Hn, Exists_exists. by exists a.
  - intros [H1 H2] d [a b d' Ha Hb Hk Hd|a d' Ha Hn _|b d' Hb Hn _].
    + destruct (H1 a Ha) as (b' & Hb' & Hk' & HR). assert (b' = b) as ->; [|by apply (HR d')].
      apply (NoDup_map_eq kB bs); [done..|congruence].
    + destruct (H1 a Ha) as (b & Hb & Hk & _). by apply (Hn b).
    + destruct (H2 b Hb) as (a & Ha & Hk). by apply (Hn a).
Qed.
Lemma columnFinding_none cA cB : (∀ d, ¬ columnFinding cA cB d) ↔ sameColumn cA cB.
Proof.
  split.
  - intros Hno. split_and!; apply dec_stable; intros Hne.
    + by eapply Hno, cf_name.
    + by eapply Hno, cf_type.
    + destruct (NotNull cA) eqn:HA, (NotNull cB) eqn:HB; try done; [by eapply Hno, cf_not_null_dropped|by eapply Hno, cf_not_null_set].
    + by eapply Hno, cf_default.
  - intros (H1 & H2 & H3 & H4) d []; congruence.
Qed.
Lemma unlinked_nil l others f g : unlinked l others f g = [] ↔ ∀ k, k ∈ map f l → k ∈ map g others.
Proof.
  unfold unlinked, sort_refs. split.
  - intros Hnil. assert (filter (λ r, f r ∉ map g others) l = []) as Hf.
    { apply Permutation_nil_r. rewrite <- Hnil. symmetry. apply merge_sort_Permutation. }
    intros k (r & -> & Hr)%list_elem_of_fmap. apply dec_stable. intros Hne. apply (filter_nil_not_elem_of _ _ r Hf Hne Hr).
  - intros H. assert (filter (λ r, f r ∉ map g others) l = []) as ->; [|done].
    destruct (filter _ l) as [|r l'] eqn:Hf; [done|]. exfalso. assert (r ∈ filter (λ r, f r ∉ map g others) l) as Hr by (rewrite Hf; by left).
    apply list_elem_of_filter in Hr as [Hn Hr]. apply Hn, H. by apply list_elem_of_fmap_2.
Qed.
Lemma keyFinding_none types earlier later : NoDup (map o_ID later) →
  (∀ d, ¬ keyFinding types earlier later d) ↔
  (∀ r, r ∈ earlier → o_FromParent r = false → ∃ r', r' ∈ later ∧ o_ID r' = o_ID r ∧
     (o_FromParent r' = true ∨ sc_Name (o_Ref r) = sc_Name (o_Ref r'))) ∧
  (∀ r', r' ∈ later → o_FromParent r' = false → ∃ r, r ∈ earlier ∧ o_ID r = o_ID r').
Proof.
  intros Hnd. split.
  - intros Hno. split.
    + intros r Hr Hp. destruct (decide (Exists (λ r', o_ID r' = o_ID r) later)) as [(r' & Hr' & Hid)%Exists_exists|Hn].
      * exists r'. split_and!; [done..|]. destruct (o_FromParent r') eqn:Hp'; [by left|right]. apply dec_stable. intros Hne.
        by eapply Hno, (kf_renamed _ _ _ r r').
      * exfalso. eapply Hno, (kf_dropped _ _ _ r); [done| |done]. intros r' Hr' Heq. apply Hn, Exists_exists. by exists r'.
    + intros r' Hr' Hp. destruct (decide (Exists (λ r, o_ID r = o_ID r') earlier)) as [(r & Hr & Hid)%Exists_exists|Hn]; [by exists r|].
      exfalso. eapply Hno, (kf_added _ _ _ r'); [done| |done]. intros r Hr Heq. apply Hn, Exists_exists. by exists r.
  - intros [H1 H2] d [r Hr Hn Hp|r Hr Hn Hp|r r' Hr Hr' Hid Hp Hp' Hne].
    + destruct (H1 r Hr Hp) as (r' & Hr' & Hid & _). by apply (Hn r').
    + destruct (H2 r Hr Hp) as (r' & Hr' & Hid). by apply (Hn r').
    + destruct (H1 r Hr Hp) as (r2 & Hr2 & Hid2 & Hcase). assert (r2 = r') as ->.
      { apply (NoDup_map_eq o_ID later); [done..|congruence]. }
      destruct Hcase; congruence.
Qed.
Lemma tableFinding_none dbA dbB ck lkA lkB tA tB :
  NoDup (map (columnKeys dbA dbB).2 (Columns tB)) →
  Forall (λ l, NoDup (map con_ID l)) [UniqueKeys tB; Checks tB; ForeignKeys tB] → Forall (λ l, NoDup (map ind_ID l)) [UniqueIndexes tB; Indexes tB] →
  (∀ d, ¬ tableFinding dbA dbB ck lkA lkB tA tB d) ↔
  sameTable (columnKeys dbA dbB).1 (columnKeys dbA dbB).2 lkA lkB tA tB ∧ (ck = true → sameKeys tA tB).
Proof.
  intros Hcol Hc Hi.
  assert (∀ types earlier later, (types, earlier, later) ∈ keyLists tA tB → NoDup (map o_ID later)) as Hnd.
  { intros types earlier later Hin. unfold keyLists in Hin. rewrite !elem_of_cons, elem_of_nil in Hin.
    repeat (apply Forall_cons in Hc as [? Hc]). repeat (apply Forall_cons in Hi as [? Hi]).
    destruct Hin as [[= _ _ ->]|[[= _ _ ->]|[[= _ _ ->]|[[= _ _ ->]|[[= _ _ ->]|[[= _ _ ->]|[]]]]]]];
      rewrite ?map_o_ID_constraint, ?map_o_ID_index; done || apply NoDup_option. }
  assert ((∀ d, ¬ matchFinding (Columns tA) (Columns tB) (columnKeys dbA dbB).1 (columnKeys dbA dbB).2 columnFinding emitColumnDropped emitColumnAdded d)
    ↔ sameBy (columnKeys dbA dbB).1 (columnKeys dbA dbB).2 sameColumn (Columns tA) (Columns tB)) as Hcols.
  { rewrite matchFinding_none by done. apply sameBy_iff. intros; apply columnFinding_none. }
  split.
  - intros Hno. assert (∀ A B : ObjectRef, Name A = Name B → Schema A = Schema B → A = B) as Href by (intros [] []; cbn; by intros -> ->).
    split.
    + split.
      * apply Href; apply dec_stable; intros Hne; [by eapply Hno, tf_name|by eapply Hno, tf_schema].
      * apply dec_stable. intros Hne. by eapply Hno, tf_kind.
      * apply dec_stable. intros Hne. destruct (PartitionParent tA) as [p|] eqn:HA.
        -- by eapply Hno, (tf_detached _ _ _ _ _ _ _ p).
        -- destruct (PartitionParent tB) as [p|] eqn:HB; [|done]. eapply Hno, (tf_attached _ _ _ _ _ _ _ p); [done|by rewrite HA].
      * apply dec_stable. intros Hne. by eapply Hno, tf_children.
      * assert (unlinked (InheritsFrom tA) (InheritsFrom tB) lkA lkB = []) as H1 by (apply dec_stable; intros Hne; by eapply Hno, tf_inherit_removed).
        assert (unlinked (InheritsFrom tB) (InheritsFrom tA) lkB lkA = []) as H2 by (apply dec_stable; intros Hne; by eapply Hno, tf_inherit_added).
        rewrite unlinked_nil in H1, H2. intros k. split; [apply H1|apply H2].
      * assert (unlinked (InheritedBy tA) (InheritedBy tB) lkA lkB = []) as H1 by (apply dec_stable; intros Hne; by eapply Hno, tf_inherited_by_removed).
        assert (unlinked (InheritedBy tB) (InheritedBy tA) lkB lkA = []) as H2 by (apply dec_stable; intros Hne; by eapply Hno, tf_inherited_by_added).
        rewrite unlinked_nil in H1, H2. intros k. split; [apply H1|apply H2].
      * apply Hcols. intros d Hd. by eapply Hno, tf_column.
    + intros Hck types earlier later Hin. apply (keyFinding_none types); [by eapply Hnd|]. intros d Hd. by eapply Hno, tf_key.
  - intros [[Href Hkind Hpar Hch Hif Hib Hsc] Hkeys] d [?|?|?|p Hp ?|p Hp ?|?|Hu|Hu|Hu|Hu|d' Hd|types earlier later d' Hck Hin Hd]; try congruence.
    + rewrite Hp in Hpar. cbn in Hpar. done.
    + rewrite Hp in Hpar. cbn in Hpar. done.
    + apply Hu, unlinked_nil. intros k. apply Hif.
    + apply Hu, unlinked_nil. intros k. apply Hif.
    + apply Hu, unlinked_nil. intros k. apply Hib.
    + apply Hu, unlinked_nil. intros k. apply Hib.
    + by apply (proj2 Hcols Hsc d').
    + exact (proj2 (keyFinding_none types earlier later (Hnd _ _ _ Hin)) (Hkeys Hck _ _ _ Hin) d' Hd).
Qed.
Lemma finding_none a b : comparable a b → (∀ d, ¬ finding a b d) ↔ sameSchema a b.
Proof.
  intros [[HtA HcA _ _] [HtB HcB Hc Hi]]. unfold finding, sameSchema, sameTables. cbv zeta. rewrite matchFinding_none by done.
  apply sameBy_iff. intros tA tB HA HB _. apply tableFinding_none; auto.
Qed.
Lemma no_finding_iff sortSlice a b : SortLaws sortSlice → comparable a b → Diff sortSlice a b = [] ↔ sameSchema a b.
Proof.
  intros Hsort Hc. rewrite <- finding_none by done. split.
  - intros Hnil d Hd. apply diffTables_spec, (elem_of_Diff sortSlice Hsort) in Hd; [|done]. rewrite Hnil in Hd. by apply elem_of_nil in Hd.
  - intros Hno. destruct (Diff sortSlice a b) as [|d l] eqn:Hd; [done|]. exfalso. apply (Hno d). apply diffTables_spec; [done|].
    apply (elem_of_Diff sortSlice Hsort). rewrite Hd. by left.
Qed.
(** C20: No difference is reported exactly when the schemas are the same: the same tables with the
    same names, kinds, links and columns, and, where both snapshots hold them, the same
    constraints and indexes declared on them. *)
Theorem no_difference_iff_same_schema (sortSlice : (Difference → Difference → bool) → list Difference → list Difference)
    (a b : SnapshotContent) :
  SortLaws sortSlice → comparable a b → Diff sortSlice a b = [] ↔ sameSchema a b.
Proof. apply no_finding_iff. Qed.

(** ** Sides *)
Definition mirrorType (t : DiffType) : DiffType :=
  match t with
  | TableAdded => TableDropped | TableDropped => TableAdded
  | TablePartitionAttached => TablePartitionDetached | TablePartitionDetached => TablePartitionAttached
  | TableInheritAdded => TableInheritRemoved | TableInheritRemoved => TableInheritAdded
  | TableInheritedByAdded => TableInheritedByRemoved | TableInheritedByRemoved => TableInheritedByAdded
  | ColumnAdded => ColumnDropped | ColumnDropped => ColumnAdded
  | ColumnNotNullSet => ColumnNotNullDropped | ColumnNotNullDropped => ColumnNotNullSet
  | PrimaryKeyAdded => PrimaryKeyDropped | PrimaryKeyDropped => PrimaryKeyAdded
  | UniqueAdded => UniqueDropped | UniqueDropped => UniqueAdded
  | CheckAdded => CheckDropped | CheckDropped => CheckAdded
  | ForeignKeyAdded => ForeignKeyDropped | ForeignKeyDropped => ForeignKeyAdded
  | UniqueIndexAdded => UniqueIndexDropped | UniqueIndexDropped => UniqueIndexAdded
  | IndexAdded => IndexDropped | IndexDropped => IndexAdded
  | t => t
  end.
Definition mirror (d : Difference) : Difference :=
  newDifference (mirrorType (Type_ d)) (match Operation_ d with OpAdded => OpDropped | OpDropped => OpAdded | o => o end)
    (ObjectType_ d) (Attribute_ d) (ObjectB d) (ObjectA d) (SideBValue d) (SideAValue d).
Lemma matchFinding_mirror {T} (as_ bs : list T) kA kB (changed changed' : T → T → Difference → Prop) onDropped onAdded d :
  (∀ a b d, changed a b d → changed' b a (mirror d)) →
  (∀ x d, d ∈ onDropped x → mirror d ∈ onAdded x) → (∀ x d, d ∈ onAdded x → mirror d ∈ onDropped x) →
  matchFinding as_ bs kA kB changed onDropped onAdded d → matchFinding bs as_ kB kA changed' onDropped onAdded (mirror d).
Proof.
  intros Hc Hd Ha [a b d' HA HB Hk Hch|a d' HA Hn Hin|b d' HB Hn Hin].
  - eapply (f_changed _ _ _ _ _ _ _ b a); [done..|by apply Hc].
  - eapply (f_added _ _ _ _ _ _ _ a); [done..|by apply Hd].
  - eapply (f_dropped _ _ _ _ _ _ _ b); [done..|by apply Ha].
Qed.
Lemma columnFinding_mirror cA cB d : columnFinding cA cB d → columnFinding cB cA (mirror d).
Proof. intros []; constructor; congruence. Qed.
Lemma columns_mirror csA csB kA kB d : matchFinding csA csB kA kB columnFinding emitColumnDropped emitColumnAdded d →
  matchFinding csB csA kB kA columnFinding emitColumnDropped emitColumnAdded (mirror d).
Proof. apply matchFinding_mirror; [apply columnFinding_mirror|by intros x d' ->%list_elem_of_singleton; left|by intros x d' ->%list_elem_of_singleton; left]. Qed.
Lemma keyFinding_mirror types earlier later d :
  types ∈ [primaryKeyTypes; uniqueTypes; checkTypes; foreignKeyTypes; uniqueIndexTypes; indexTypes] →
  keyFinding types earlier later d → keyFinding types later earlier (mirror d).
Proof.
  intros Ht Hd. assert (mirrorType (added types) = dropped types ∧ mirrorType (dropped types) = added types ∧ mirrorType (nameChanged types) = nameChanged types)
    as (H1 & H2 & H3).
  { repeat (apply elem_of_cons in Ht as [->|Ht]; [done|]). by apply elem_of_nil in Ht. }
  destruct Hd as [r ? ? ?|r ? ? ?|r r' ? ? ? ? ? ?]; unfold mirror; cbn; rewrite ?H1, ?H2, ?H3.
  - by apply kf_added.
  - by apply kf_dropped.
  - by apply kf_renamed.
Qed.
Lemma tableFinding_mirror dbA dbB ck lkA lkB tA tB d :
  tableFinding dbA dbB ck lkA lkB tA tB d → (columnKeys dbA dbB).1 = (columnKeys dbB dbA).2 → (columnKeys dbA dbB).2 = (columnKeys dbB dbA).1 →
  tableFinding dbB dbA ck lkB lkA tB tA (mirror d).
Proof.
  intros Hd Hk1 Hk2. destruct Hd as [?|?|?|p Hp Hne|p Hp Hne|Hne|?|?|?|?|d' Hd|types earlier later d' Hck Hin Hd].
  - by apply tf_name.
  - by apply tf_schema.
  - by apply tf_kind.
  - by apply (tf_attached _ _ _ _ _ _ _ p).
  - by apply (tf_detached _ _ _ _ _ _ _ p).
  - apply tf_children. by intros ?.
  - by apply tf_inherit_added.
  - by apply tf_inherit_removed.
  - by apply tf_inherited_by_added.
  - by apply tf_inherited_by_removed.
  - apply tf_column. rewrite <- Hk1, <- Hk2. by apply columns_mirror.
  - apply (tf_key _ _ _ _ _ _ _ types later earlier); [done| |apply keyFinding_mirror; [|done]].
    + unfold keyLists in *. rewrite !elem_of_cons in *.
      destruct Hin as [[= -> -> ->]|[[= -> -> ->]|[[= -> -> ->]|[[= -> -> ->]|[[= -> -> ->]|[[= -> -> ->]|?%elem_of_nil]]]]]]; [repeat (first [left; reflexivity|right])..|done].
    + unfold keyLists in Hin. rewrite !elem_of_cons in *.
      destruct Hin as [[= -> -> ->]|[[= -> -> ->]|[[= -> -> ->]|[[= -> -> ->]|[[= -> -> ->]|[[= -> -> ->]|?%elem_of_nil]]]]]]; [repeat (first [left; reflexivity|right])..|done].
Qed.
Lemma stableIDs_sym dbA dbB : stableIDs dbA dbB = stableIDs dbB dbA.
Proof.
  unfold stableIDs. destruct (decide (dbA = dbB)) as [->|Hne]; [done|]. by rewrite (bool_decide_false (dbA = dbB)), (bool_decide_false (dbB = dbA)) by congruence.
Qed.
Lemma chooseMatchKeys_swap {T} dbA dbB (idOf : T → string) nameKey :
  (chooseMatchKeys dbA dbB idOf nameKey).1 = (chooseMatchKeys dbB dbA idOf nameKey).2 ∧
  (chooseMatchKeys dbA dbB idOf nameKey).2 = (chooseMatchKeys dbB dbA idOf nameKey).1.
Proof. unfold chooseMatchKeys. rewrite (stableIDs_sym dbB dbA). by destruct (stableIDs dbA dbB). Qed.
Lemma finding_mirror a b d : finding a b d → finding b a (mirror d).
Proof.
  unfold finding. cbv zeta. destruct (chooseMatchKeys_swap (DatabaseType b) (DatabaseType a) ID (λ t dbType, ObjectRef_ForKey dbType (ref t))) as [H1 H2].
  fold (tableKeys (DatabaseType a) (DatabaseType b)) (tableKeys (DatabaseType b) (DatabaseType a)) in H1, H2. rewrite H1, H2.
  apply matchFinding_mirror; [|by intros x d' ->%list_elem_of_singleton; left|by intros x d' ->%list_elem_of_singleton; left].
  intros tA tB d' Hd. assert (comparesKeys b a = comparesKeys a b) as -> by apply andb_comm.
  destruct (chooseMatchKeys_swap (DatabaseType a) (DatabaseType b) col_ID (λ c dbType, Scoped_ForKey dbType (col_ref c))).
  by apply tableFinding_mirror.
Qed.
Lemma comparable_sym a b : comparable a b → comparable b a.
Proof.
  unfold comparable. cbv zeta. destruct (chooseMatchKeys_swap (DatabaseType b) (DatabaseType a) ID (λ t dbType, ObjectRef_ForKey dbType (ref t))) as [H1 H2].
  destruct (chooseMatchKeys_swap (DatabaseType b) (DatabaseType a) col_ID (λ c dbType, Scoped_ForKey dbType (col_ref c))) as [H3 H4].
  fold (tableKeys (DatabaseType a) (DatabaseType b)) (tableKeys (DatabaseType b) (DatabaseType a)) in H1, H2.
  fold (columnKeys (DatabaseType a) (DatabaseType b)) (columnKeys (DatabaseType b) (DatabaseType a)) in H3, H4.
  rewrite H1, H2, H3, H4. by intros [? ?].
Qed.
(** The comparison does not favour a side: exchanging the snapshots turns every finding into its
    mirror image, added into dropped, attached into detached, old into new. *)
Theorem Diff_mirrored (sortSlice : (Difference → Difference → bool) → list Difference → list Difference) (a b : SnapshotContent) (d : Difference) :
  SortLaws sortSlice → comparable a b → d ∈ Diff sortSlice a b ↔ mirror d ∈ Diff sortSlice b a.
Proof.
  intros Hsort Hc. pose proof (comparable_sym _ _ Hc) as Hc'. rewrite !elem_of_Diff, !diffTables_spec by done. split; [apply finding_mirror|].
  intros Hd%finding_mirror. assert (mirror (mirror d) = d) as Heq; [|by rewrite Heq in Hd].
  destruct d as [t o ? ? ? ? ? ?]. unfold mirror. cbn. f_equal; [by destruct t|by destruct o].
Qed.

(** ** Findings within a scope *)
(** A scope that lists what a snapshot holds. *)
Definition covers (scope : Scope) (s : SnapshotContent) : Prop :=
  ∀ t, t ∈ Tables s → ref t ∈ sc_Tables scope ∧ Schema (ref t) ∈ sc_Schemas scope.
Definition allTypes : list ObjectType := [ObjectTypeTable; ObjectTypeColumn; ObjectTypeConstraint; ObjectTypeIndex].
Definition coversTypes (scope : Scope) : Prop := ∀ t : ObjectType, t ∈ sc_ObjectTypes scope.
(** Every finding is about a table of one of the snapshots, and is filed under it. *)
Definition about (d : Difference) (t : Table) : Prop := anchorTableOf d = Some (ref t) ∧ Schema (ref t) ∈ schemasOf d.
Lemma about_A d i t : ObjectA d = Some i →
  match i with TableIdent o => o = ref t ∧ ObjectType_ d = ObjectTypeTable | ScopedIdent r => host r = ref t end → about d t.
Proof.
  intros HA Hi. unfold about, anchorTableOf, schemasOf. rewrite HA. destruct i as [o|r].
  - destruct Hi as [-> ->]. rewrite decide_True by done. split; [done|by left].
  - rewrite Hi. split; [done|by left].
Qed.
Lemma about_B d i t : ObjectA d = None → ObjectB d = Some i →
  match i with TableIdent o => o = ref t ∧ ObjectType_ d = ObjectTypeTable | ScopedIdent r => host r = ref t end → about d t.
Proof.
  intros HA HB Hi. unfold about, anchorTableOf, schemasOf. rewrite HA, HB. destruct i as [o|r].
  - destruct Hi as [-> ->]. rewrite decide_True by done. split; [done|by left].
  - rewrite Hi. split; [done|by left].
Qed.
Lemma wf_keyLists t t' types earlier later : wfTable t → wfTable t' → (types, earlier, later) ∈ keyLists t t' →
  Forall (λ r, host (o_Ref r) = ref t) earlier ∧ Forall (λ r, host (o_Ref r) = ref t') later.
Proof.
  assert (∀ t l, Forall (λ c, host (con_ref c) = ref t) l → Forall (λ r, host (o_Ref r) = ref t) (map constraintRef l)) as Hc.
  { intros t0 l H. by apply Forall_map. }
  assert (∀ t l, Forall (λ i, host (ind_ref i) = ref t) l → Forall (λ r, host (o_Ref r) = ref t) (map indexRef l)) as Hi.
  { intros t0 l H. by apply Forall_map. }
  intros [_ Hpk Hcs His] [_ Hpk' Hcs' His'] Hin. unfold keyLists in Hin. rewrite !elem_of_cons in Hin.
  repeat (apply Forall_cons in Hcs as [[? ?] Hcs]). repeat (apply Forall_cons in Hcs' as [[? ?] Hcs']).
  repeat (apply Forall_cons in His as [[? ?] His]). repeat (apply Forall_cons in His' as [[? ?] His']).
  destruct Hin as [[= -> -> ->]|[[= -> -> ->]|[[= -> -> ->]|[[= -> -> ->]|[[= -> -> ->]|[[= -> -> ->]|?%elem_of_nil]]]]]]; [..|done]; auto.
Qed.
Lemma tableFinding_about dbA dbB ck lkA lkB tA tB d : wfTable tA → wfTable tB →
  tableFinding dbA dbB ck lkA lkB tA tB d → about d tA ∨ about d tB.
Proof.
  intros HA HB Hd. destruct Hd as [?|?|?|?|?|?|?|?|?|?|d Hd|types earlier later d Hck Hin Hd]; try (left; by eapply about_A).
  - destruct HA as [[_ HA] _ _ _], HB as [[_ HB] _ _ _]. rewrite Forall_forall in HA, HB.
    destruct Hd as [cA cB d HcA HcB _ Hd|c d Hc _ ->%list_elem_of_singleton|c d Hc _ ->%list_elem_of_singleton].
    + left. destruct Hd; (eapply about_A; [reflexivity|by apply HA]).
    + left. eapply about_A; [reflexivity|by apply HA].
    + right. eapply about_B; [reflexivity..|by apply HB].
  - destruct (wf_keyLists _ _ _ _ _ HA HB Hin) as [H1 H2]. rewrite Forall_forall in H1, H2. destruct Hd.
    + left. eapply about_A; [reflexivity|by apply H1].
    + right. eapply about_B; [reflexivity..|by apply H2].
    + left. eapply about_A; [reflexivity|by apply H1].
Qed.
Lemma finding_about a b d : wfTables (Tables a) → wfTables (Tables b) → finding a b d →
  ∃ t, (t ∈ Tables a ∨ t ∈ Tables b) ∧ about d t.
Proof.
  intros [_ _ Ha] [_ _ Hb] Hd. rewrite Forall_forall in Ha, Hb. unfold finding in Hd.
  destruct Hd as [tA tB d HA HB _ Hd|t d Ht _ ->%list_elem_of_singleton|t d Ht _ ->%list_elem_of_singleton].
  - destruct (tableFinding_about _ _ _ _ _ _ _ _ (Ha _ HA) (Hb _ HB) Hd); eauto.
  - exists t. split; [by left|]. by eapply about_A.
  - exists t. split; [by right|]. by eapply about_B.
Qed.
Lemma passes_iff scope d : passesObjectTypeFilter d (list_to_set (sc_ObjectTypes scope)) && passesSchemaFilter d (list_to_set (sc_Schemas scope)) &&
    passesTableFilter d (list_to_set (sc_Tables scope)) = true ↔
  ObjectType_ d ∈ sc_ObjectTypes scope ∧ (∃ s, s ∈ schemasOf d ∧ s ∈ sc_Schemas scope) ∧ (∀ t, anchorTableOf d = Some t → t ∈ sc_Tables scope).
Proof.
  rewrite !andb_true_iff. unfold passesObjectTypeFilter, passesSchemaFilter, passesTableFilter.
  rewrite bool_decide_eq_true, elem_of_list_to_set, existsb_exists. split.
  - intros [[H1 (s & Hs & Hin)] H3]. rewrite bool_decide_eq_true, elem_of_list_to_set in Hin. split_and!; [done| |].
    + exists s. by rewrite list_elem_of_In.
    + intros t Ht. rewrite Ht in H3. by apply bool_decide_eq_true, elem_of_list_to_set in H3.
  - intros (H1 & (s & Hs & Hin) & H3). split_and!; [done| |].
    + exists s. rewrite <- list_elem_of_In. split; [done|]. by apply bool_decide_eq_true, elem_of_list_to_set.
    + destruct (anchorTableOf d) as [t|]; [|done]. by apply bool_decide_eq_true, elem_of_list_to_set, H3.
Qed.
Lemma elem_of_FilterByScope scope l d : d ∈ FilterByScope l scope ↔ d ∈ l ∧
  ObjectType_ d ∈ sc_ObjectTypes scope ∧ (∃ s, s ∈ schemasOf d ∧ s ∈ sc_Schemas scope) ∧ (∀ t, anchorTableOf d = Some t → t ∈ sc_Tables scope).
Proof. unfold FilterByScope. rewrite list_elem_of_filter, Is_true_true, passes_iff. tauto. Qed.
Lemma FilterByScope_all scope l : (∀ d, d ∈ l → ∃ t, about d t ∧ ref t ∈ sc_Tables scope ∧ Schema (ref t) ∈ sc_Schemas scope) →
  coversTypes scope → FilterByScope l scope = l.
Proof.
  intros Hl Ht. unfold FilterByScope. induction l as [|d l IH]; [done|]. rewrite filter_cons, decide_True.
  - f_equal. apply IH. intros d' Hd'. apply Hl. by right.
  - apply Is_true_true, passes_iff. destruct (Hl d) as (t & [Ha Hs] & H1 & H2); [by left|]. split_and!; [apply Ht|by exists (Schema (ref t))|].
    intros t' Ht'. rewrite Ha in Ht'. by injection Ht' as <-.
Qed.
Lemma full_scope_all sortSlice scope a b : SortLaws sortSlice → sameEngine a b → wfTables (Tables a) → wfTables (Tables b) →
  covers scope a → covers scope b → coversTypes scope → Differ_Diff sortSlice scope a b = Diff sortSlice a b.
Proof.
  intros Hsort He Ha Hb Hca Hcb Hct. unfold Differ_Diff. apply FilterByScope_all; [|done]. intros d Hd.
  apply (elem_of_Diff sortSlice Hsort), diffTables_spec in Hd; [|by apply wf_comparable].
  destruct (finding_about _ _ _ Ha Hb Hd) as (t & [Ht|Ht] & Hab); exists t; (split; [done|]); [by apply Hca|by apply Hcb].
Qed.
(** The filter of a scope: a finding is reported exactly when it is to be found, its object type
    is listed, the schema of one of its sides is, and the table it is about.  A scope that
    lists all of both snapshots leaves everything; one that lists the schema on either side
    of a moved table still shows the move. *)
Theorem scope_keeps_exactly (sortSlice : (Difference → Difference → bool) → list Difference → list Difference) (scope : Scope) (a b : SnapshotContent) :
  SortLaws sortSlice → sameEngine a b → wfTables (Tables a) → wfTables (Tables b) →
  (∀ d, d ∈ Differ_Diff sortSlice scope a b ↔ finding a b d ∧ ObjectType_ d ∈ sc_ObjectTypes scope ∧
     (∃ s, s ∈ schemasOf d ∧ s ∈ sc_Schemas scope) ∧ (∃ t, (t ∈ Tables a ∨ t ∈ Tables b) ∧ about d t ∧ ref t ∈ sc_Tables scope)) ∧
  (covers scope a → covers scope b → coversTypes scope → Differ_Diff sortSlice scope a b = Diff sortSlice a b) ∧
  (∀ tA tB, tA ∈ Tables a → tB ∈ Tables b → ID tA = ID tB → Schema (ref tA) ≠ Schema (ref tB) →
     ref tA ∈ sc_Tables scope → ObjectTypeTable ∈ sc_ObjectTypes scope →
     Schema (ref tA) ∈ sc_Schemas scope ∨ Schema (ref tB) ∈ sc_Schemas scope →
     tableChange TableSchemaChanged AttrSchema tA tB (Some (VString (Schema (ref tA)))) (Some (VString (Schema (ref tB)))) ∈ Differ_Diff sortSlice scope a b).
Proof.
  intros Hsort He Ha Hb. pose proof (wf_comparable _ _ He Ha Hb) as Hc. split_and!.
  - intros d. unfold Differ_Diff. rewrite elem_of_FilterByScope, (elem_of_Diff sortSlice Hsort), (diffTables_spec _ _ _ Hc). split.
    + intros (Hd & H1 & H2 & H3). split_and!; [done..|]. destruct (finding_about _ _ _ Ha Hb Hd) as (t & Ht & [Hab ?]). exists t.
      split_and!; [done..|by apply H3].
    + intros (Hd & H1 & H2 & t & Ht & [Hab _] & Hin). split_and!; [done..|]. intros t' Ht'. rewrite Hab in Ht'. by injection Ht' as <-.
  - by apply full_scope_all.
  - intros tA tB HA HB Hid Hne Hin Hty Hsc. unfold Differ_Diff. rewrite elem_of_FilterByScope, (elem_of_Diff sortSlice Hsort), (diffTables_spec _ _ _ Hc).
    split_and!; [|done| |].
    + unfold finding. cbv zeta. apply (f_changed _ _ _ _ _ _ _ tA tB); [done..| |by apply tf_schema].
      unfold tableKeys, chooseMatchKeys. unfold sameEngine in He. by rewrite He.
    + destruct Hsc; [exists (Schema (ref tA))|exists (Schema (ref tB))]; (split; [|done]); [by left|by right; left].
    + cbn. by intros t [= <-].
Qed.

(** ** Concrete snapshots *)
#[local] Instance not_less_dec (lt : Difference → Difference → bool) : RelDecision (λ x y, lt y x = false).
Proof. intros x y. apply (bool_eq_dec (lt y x) false). Defined.
Definition mergeSlice (lt : Difference → Difference → bool) (l : list Difference) : list Difference := merge_sort (λ x y, lt y x = false) l.
Lemma mergeSlice_laws : SortLaws mergeSlice.
Proof.
  split; [intros lt l; apply merge_sort_Permutation|]. intros lt l Hirr Htr Hneg. unfold mergeSlice.
  assert (Transitive (λ x y, lt y x = false)) as Ht by (intros x y z H1 H2; by eapply Hneg).
  apply Sorted_StronglySorted; [done|]. apply Sorted_merge_sort. intros x y.
  destruct (lt y x) eqn:H1; [|by left]. destruct (lt x y) eqn:H2; [|by right]. pose proof (Htr _ _ _ H1 H2) as H. by rewrite Hirr in H.
Qed.
Definition sampleRef (schema name : string) : ObjectRef := mkObjectRef schema name.
Definition sampleColumn (o : ObjectRef) (oid attnum name type : string) (notNull : bool) : Column :=
  mkColumn (mkScoped o name) (oid +:+ ":" +:+ attnum) type notNull "".
Definition plainTable (o : ObjectRef) (oid : string) (cols : list Column) (pk : option TableConstraint) (idxs : list Index) : Table :=
  mkTable o oid TableKindOrdinary None [] [] [] cols pk [] [] [] [] idxs.
(** A table that is renamed and moved, loses a column and gains an index; another is dropped. *)
Definition ordersA : Table := plainTable (sampleRef "public" "orders") "16384"
  [sampleColumn (sampleRef "public" "orders") "16384" "1" "id" "integer" true; sampleColumn (sampleRef "public" "orders") "16384" "2" "note" "text" false]
  (Some (mkConstraint (mkScoped (sampleRef "public" "orders") "orders_pkey") "16390" "PRIMARY KEY (id)" false)) [].
Definition ordersB : Table := plainTable (sampleRef "sales" "purchases") "16384"
  [sampleColumn (sampleRef "sales" "purchases") "16384" "1" "id" "bigint" true]
  (Some (mkConstraint (mkScoped (sampleRef "sales" "purchases") "orders_pkey") "16390" "PRIMARY KEY (id)" false))
  [mkIndex (mkScoped (sampleRef "sales" "purchases") "purchases_idx") "16400" "USING btree (id)" false].
Definition itemsA : Table := plainTable (sampleRef "public" "items") "16386" [] None [].
Definition snapshotA : SnapshotContent := mkContent 2 POSTGRESQL [ordersA; itemsA].
Definition snapshotB : SnapshotContent := mkContent 2 POSTGRESQL [ordersB].
Example sample_diff : map Type_ (Diff mergeSlice snapshotA snapshotB) =
  [TableDropped; TableNameChanged; TableSchemaChanged; ColumnTypeChanged; ColumnDropped; IndexAdded].
Proof. vm_compute. reflexivity. Qed.
(** The same with the first snapshot taken before indexes were captured. *)
Example sample_diff_old : map Type_ (Diff mergeSlice (mkContent 1 POSTGRESQL [ordersA]) snapshotB) =
  [TableNameChanged; TableSchemaChanged; ColumnTypeChanged; ColumnDropped].
Proof. vm_compute. reflexivity. Qed.
(** Across engines, by name: the rename is a drop and an addition. *)
Example sample_diff_engines : map Type_ (Diff mergeSlice snapshotA (mkContent 2 YUGABYTEDB [ordersB])) = [TableDropped; TableDropped; TableAdded].
Proof. vm_compute. reflexivity. Qed.
Lemma sample_wf : wfTables (Tables snapshotA) ∧ wfTables (Tables snapshotB).
Proof.
  assert (∀ o oid cols pk idxs, NoDup (map col_ID cols) → Forall (λ c, host (col_ref c) = o) cols → Forall (λ c, host (con_ref c) = o) (option_list pk) →
    NoDup (map ind_ID idxs) → Forall (λ i, host (ind_ref i) = o) idxs → wfTable (plainTable o oid cols pk idxs)) as H.
  { intros. split; [done..| |]; repeat constructor; done. }
  split; split; [decided|decided| |decided|decided|]; repeat apply Forall_cons_2; try apply Forall_nil_2; apply H; try decided; repeat constructor.
Qed.
Lemma sample_comparable : comparable snapshotA snapshotB.
Proof. apply wf_comparable; [done|apply sample_wf..]. Qed.
Lemma Diff_finds_all_changes_witness :
  finding snapshotA snapshotB (newDifference TableDropped OpDropped ObjectTypeTable AttrNone (Some (TableIdent (ref itemsA))) None (Some (VTable itemsA)) None).
Proof. apply (Diff_finds_all_changes mergeSlice mergeSlice_laws snapshotA snapshotB sample_comparable). vm_compute. left. Defined.
Lemma no_difference_iff_same_schema_witness : sameSchema snapshotA snapshotA.
Proof.
  apply (no_difference_iff_same_schema mergeSlice); [apply mergeSlice_laws|apply wf_comparable; [done|apply sample_wf..]|]. vm_compute. reflexivity.
Defined.
Lemma Diff_mirrored_witness :
  newDifference TableAdded OpAdded ObjectTypeTable AttrNone None (Some (TableIdent (ref itemsA))) None (Some (VTable itemsA)) ∈ Diff mergeSlice snapshotB snapshotA.
Proof.
  apply (Diff_mirrored mergeSlice snapshotA snapshotB
    (newDifference TableDropped OpDropped ObjectTypeTable AttrNone (Some (TableIdent (ref itemsA))) None (Some (VTable itemsA)) None));
    [apply mergeSlice_laws|apply sample_comparable|]. vm_compute. left.
Defined.
Definition salesScope : Scope := mkScope ["sales"] [ref ordersA; ref ordersB; ref itemsA] allTypes.
Lemma scope_keeps_exactly_witness : map Type_ (Differ_Diff mergeSlice salesScope snapshotA snapshotB) = 
    [TableNameChanged; TableSchemaChanged; ColumnTypeChanged; IndexAdded] ∧
  tableChange TableSchemaChanged AttrSchema ordersA ordersB (Some (VString "public")) (Some (VString "sales")) ∈ Differ_Diff mergeSlice salesScope snapshotA snapshotB.
Proof.
  split; [vm_compute; reflexivity|].
  apply (proj2 (proj2 (scope_keeps_exactly mergeSlice salesScope snapshotA snapshotB mergeSlice_laws eq_refl (proj1 sample_wf) (proj2 sample_wf)))).
  - by left.
  - by left.
  - done.
  - done.
  - by left.
  - by left.
  - right. by left.
Defined.
End SchemaDiff.
