(* ===== verification/DriftGuidance.v ===== *)
(** * Guidance on schema drift (src/yb-voyager/src/schema/schemadrift/classification.go)

    What a change of the source's schema means for the migration, by its type and by when
    it was made: a severity, an impact and an action, in the texts the report prints. *)
From S2P Require Import Prelude SqlName SchemaSnapshot SchemaDiff.
Import SchemaDiff.

Module DriftGuidance.
(** ** The data *)
Inductive Severity : Type := SeverityAdvisory | SeverityPotentialImpact | SeverityBreaksRecoverable | SeverityBreaksUnrecoverable.
#[global] Instance Severity_eq_dec : EqDecision Severity.
Proof. solve_decision. Defined.
Record DriftInfo : Type := mkInfo { Severity_ : Severity; Impact : string; Action : string }.
(** When a change happened relative to the migration. *)
Inductive Timing : Type :=
  | TimingBeforeExportData | TimingOfflineAfterExportStart | TimingLiveAfterExportStart | TimingChangesOnlyAfterExportStart | TimingAfterCutover.
#[global] Instance Timing_eq_dec : EqDecision Timing.
Proof. solve_decision. Defined.
Definition Timing_string (t : Timing) : string :=
  match t with
  | TimingBeforeExportData => "before_export_data" | TimingOfflineAfterExportStart => "offline_after_export_start"
  | TimingLiveAfterExportStart => "live_after_export_start" | TimingChangesOnlyAfterExportStart => "changes_only_after_export_start"
  | TimingAfterCutover => "after_cutover"
  end.
Record situation : Type := mkSituation { Timing_ : Timing; FallBackPossible : bool; FallForwardPossible : bool }.

(** ** Impact and action per change type and timing *)
Definition tableRenamedOrMovedBeforeExportInfo : DriftInfo :=
  mkInfo SeverityBreaksRecoverable
        "If the table is in the export's scope, it is exported under its new name, which the target doesn't have, so `import data` fails."
        "Rename (or move) the table on the target before running `import data`. If `import data` already failed on it, run it again.".
Definition tableRenamedOrMovedOfflineInfo : DriftInfo :=
  mkInfo SeverityPotentialImpact
        "Rows already exported are not affected, but the target still has the old name."
        "Rename (or move) the table on the target before the application moves to the target.".
Definition tableRenamedOrMovedLiveInfo : DriftInfo :=
  mkInfo SeverityBreaksUnrecoverable
        "Rows written under the new name are not migrated, and a restart of `export data` fails."
        "Rename (or move) the table on the target, then restart the data migration: `export data --start-clean true`, then `import data --start-clean true --truncate-tables true`.".
Definition tableRenamedOrMovedChangesOnlyInfo : DriftInfo :=
  mkInfo SeverityBreaksUnrecoverable
        "Rows written under the new name are not migrated, and a restart of `export data` fails."
        "Rename (or move) the table on the target, then start a new migration in a new export directory.".
Definition columnTypeChangedInfo : DriftInfo :=
  mkInfo SeverityPotentialImpact
        "`import data` fails on the first value the target's column type can't hold."
        "Change the column type on the target. If `import data` already failed, run it again.".
Definition notNullDroppedInfo : DriftInfo :=
  mkInfo SeverityBreaksRecoverable
        "The source now allows NULLs, so `import data` fails on the first NULL in this column."
        "Drop NOT NULL on the target. If `import data` already failed, run it again.".
Definition notNullSetInfo : DriftInfo :=
  mkInfo SeverityAdvisory
        "`import data` is not affected."
        "Set NOT NULL on the target to keep the schemas the same.".
Definition columnDefaultChangedInfo : DriftInfo :=
  mkInfo SeverityPotentialImpact
        "`import data` is not affected, but once the application uses the target, its inserts get the old default."
        "Change the default on the target before the application moves to the target.".
Definition tableKindChangedInfo : DriftInfo :=
  mkInfo SeverityPotentialImpact
        "The migration is not affected mid-flight, but the target still has the table in its original form (ordinary vs partitioned vs foreign), so the schemas diverge and a restart may not reproduce the source layout."
        "Recreate the table on the target with the matching kind before cutover.".
Definition partitionAttachedAfterExportStartInfo : DriftInfo :=
  mkInfo SeverityPotentialImpact
        "The target's partition layout no longer matches the source."
        "Attach the partition on the target before the application moves to the target.".
Definition partitionDetachedInfo : DriftInfo :=
  mkInfo SeverityPotentialImpact
        "The target's partition layout no longer matches the source."
        "Detach the partition on the target before the application moves to the target.".
Definition partitionChildrenChangedInfo : DriftInfo :=
  mkInfo SeverityAdvisory
        "The partitions of this table changed."
        "See the entry for each partition.".
Definition inheritanceAddedOfflineInfo : DriftInfo :=
  mkInfo SeverityPotentialImpact
        "Rows already exported are not affected, but the target's inheritance no longer matches."
        "Apply the same inheritance on the target before the application moves to the target.".
Definition inheritanceRemovedInfo : DriftInfo :=
  mkInfo SeverityAdvisory
        "`export data` and `import data` are not affected."
        "Remove the same inheritance on the target before the application moves to the target.".
Definition primaryKeyDroppedLiveImpact : string :=
  "Every later change to this table reaches `import data` with an empty key, so it stops, and it fails again on every restart. A restart of `export data` refuses the table. This is also reported, with `PRIMARY_KEY_ADDED`, when the key was changed or re-created: if it was changed in one transaction, changing it on the target and running `import data` again recovers.".
Definition uniqueAddedRebuiltHint : string :=
  "If a unique key or unique index on the same columns is also reported as dropped for this table, it was rebuilt: the target already has it, and that entry's Action applies.".
Definition uniqueAddedInfo : DriftInfo :=
  mkInfo SeverityAdvisory
        ("`import data` is not affected. " +:+ uniqueAddedRebuiltHint)
        "Add it on the target to keep the schemas the same.".
Definition uniqueAddedLiveInfo : DriftInfo :=
  mkInfo SeverityAdvisory
        ("`import data` is not affected. " +:+ uniqueAddedRebuiltHint)
        "Add it on the target to keep the schemas the same. If `import data` is running, restart it afterwards: it reads the target's unique keys only when it starts, so with the new one missing, the first write that frees and reuses a value stops it. If it covers a stored generated column, add it on the target only after cutover, once `import data` has applied every change: `import data` can't keep changes to such a key in order, and restarting it does not change that.".
Definition uniqueIndexAddedLiveInfo : DriftInfo :=
  mkInfo SeverityPotentialImpact
        ("`import data` is not affected while the target doesn't have the index. If the index is on an expression, such as `lower(email)`, or covers a stored generated column, adding it on the target before cutover can stop `import data` on a unique violation: `import data` can't keep changes to such an index in order, and restarting it does not prevent another stop. " +:+ uniqueAddedRebuiltHint)
        "Add it on the target to keep the schemas the same. If it is on plain columns and covers no stored generated column, add it now, and if `import data` is running, restart it afterwards: it reads the target's unique keys only when it starts, so with the new one missing, the first write that frees and reuses a value stops it. If it is on an expression or covers a stored generated column, add it only after cutover, once `import data` has applied every change and before the application moves to the target. If you already added it and `import data` stopped, drop it on the target, run `import data` again, and add it back after cutover.".
Definition uniqueDroppedImpact : string :=
  "The source now allows duplicate values, but the target still enforces uniqueness, so `import data` fails on the first duplicate.".
Definition uniqueDroppedLiveImpact : string :=
  "The source now allows duplicate values, but the target still enforces uniqueness, so `import data` stops at the first duplicate value.".
Definition uniqueConstraintRebuiltHint : string :=
  "This is also reported, with an added unique key on the same columns, when a column type change re-created it. The source then still enforces uniqueness, so keep it on the target.".
Definition uniqueIndexRebuiltHint : string :=
  "This is also reported, with an added unique key, unique index or primary key on the same columns, when it was rebuilt (`REINDEX CONCURRENTLY`, a column type change) or turned into a constraint (`ADD CONSTRAINT ... USING INDEX`). The source then still enforces uniqueness, so keep it on the target.".
Definition uniqueDroppedAction : string :=
  "If it was rebuilt, as the Impact describes, keep it on the target. Otherwise drop it on the target too, and run `import data` again if it already failed.".
Definition uniqueDroppedLiveAction : string :=
  "If it was rebuilt, as the Impact describes, keep it on the target. Otherwise drop it on the target, then run `import data` again.".
Definition uniqueAddedFallBackRisk : string :=
  "If you cut over with fall-back while the target doesn't have it, `import data to source` stops at the first row from the target that breaks it.".
Definition checkAddedInfo : DriftInfo :=
  mkInfo SeverityAdvisory
        "`import data` is not affected."
        "Add it on the target to keep the schemas the same.".
Definition checkDroppedImpact : string :=
  "The source now allows rows the target's check rejects, so `import data` fails on the first one.".
Definition indexChangedInfo : DriftInfo :=
  mkInfo SeverityAdvisory
        "Only query speed is affected. `export data` and `import data` are not."
        "Make the same change on the target.".
Definition foreignKeyAddedInfo : DriftInfo :=
  mkInfo SeverityAdvisory
        "`import data` is not affected, because the target does not have the key."
        "Add it on the target to keep the schemas the same.".
Definition foreignKeyDroppedInfo : DriftInfo :=
  mkInfo SeverityPotentialImpact
        "Rows the source now allows load anyway, so the target's foreign key no longer holds for them. If the target user can't turn foreign-key checks off, the target still enforces the key: `import data` stops on the first orphan child row. A delete or update of a parent row the key protects also stops it if the key is `NO ACTION` or `RESTRICT`; with an `ON DELETE` or `ON UPDATE` action such as `CASCADE` or `SET NULL`, that change instead removes or changes rows the source keeps."
        "Drop it on the target (or change it to match), then run `import data` again if it stopped. Restore from the source any rows the key's action removed or changed on the target, because running `import data` again does not bring them back.".
Definition foreignKeyDroppedBeforeExportInfo : DriftInfo :=
  mkInfo SeverityPotentialImpact
        "Rows the source now allows load anyway, so the target's foreign key no longer holds for them. If the target user can't turn foreign-key checks off, the target still enforces the key: `import data` stops on the first orphan child row. In a live migration, a delete or update of a parent row the key protects also stops it if the key is `NO ACTION` or `RESTRICT`; with an `ON DELETE` or `ON UPDATE` action such as `CASCADE` or `SET NULL`, that change instead removes or changes rows the source keeps."
        "Drop it on the target (or change it to match), then run `import data` again if it stopped. In a live migration, restore from the source any rows the key's action removed or changed on the target, because running `import data` again does not bring them back.".
Definition foreignKeyDroppedOfflineInfo : DriftInfo :=
  mkInfo SeverityPotentialImpact
        "Rows the source now allows load anyway, so the target's foreign key no longer holds for them. If the target user can't turn foreign-key checks off, the target still enforces the key: `import data` stops on the first row that breaks it."
        "Drop it on the target (or change it to match), then run `import data` again if it stopped.".
Definition keyNameChangedInfo : DriftInfo :=
  mkInfo SeverityAdvisory
        "`export data` and `import data` are not affected."
        "Rename it on the target to keep the names the same.".
Definition afterCutoverInfo : DriftInfo :=
  mkInfo SeverityAdvisory
        "This change was made after cutover to target. Data already migrated to the target is not affected."
        "".
Definition fallForwardAction : string :=
  "Fall-forward is in use: make on the source-replica any change this asks you to make on the target, and when it restarts `import data`, restart `import data to source-replica` the same way.".
Definition fallBackRiskByDiffType (t : DiffType) : option string :=
  match t with
  | ColumnDropped => Some "If you cut over with fall-back, `import data to source` stops at the first insert on this table while the target still has this column, and later changes don't reach the source."
  | UniqueAdded => Some uniqueAddedFallBackRisk
  | UniqueIndexAdded => Some uniqueAddedFallBackRisk
  | CheckAdded => Some "If you cut over with fall-back while the target doesn't have this check, `import data to source` stops at the first row from the target that breaks it."
  | ForeignKeyAdded => Some "If you cut over with fall-back while the target doesn't have this key, rows from the target that break it still load into the source: `import data to source` runs with foreign-key checks off, or refuses to start until they are turned off. The source's key then no longer holds for those rows."
  | _ => None
  end.
Definition infoByDiffType (t : DiffType) (s : Timing) : option DriftInfo :=
  match t, s with
  | TableDropped, TimingBeforeExportData => Some (mkInfo SeverityAdvisory
        "The table was dropped before `export data` started, so it is not part of the migration."
        "Drop the table on the target if you don't need it.")
  | TableDropped, TimingOfflineAfterExportStart => Some (mkInfo SeverityAdvisory
        "Rows already exported are not affected."
        "Drop the table on the target if you don't need it.")
  | TableDropped, TimingLiveAfterExportStart => Some (mkInfo SeverityBreaksUnrecoverable
        "`export data` keeps running, but if it is restarted, the resume fails because the migration still expects this table."
        "If `export data` has to restart, restart the data migration: `export data --start-clean true`, then `import data --start-clean true --truncate-tables true`.")
  | TableDropped, TimingChangesOnlyAfterExportStart => Some (mkInfo SeverityBreaksUnrecoverable
        "`export data` keeps running, but if it is restarted, the resume fails because the migration still expects this table."
        "If `export data` has to restart, start a new migration in a new export directory.")
  | TableNameChanged, TimingBeforeExportData => Some tableRenamedOrMovedBeforeExportInfo
  | TableNameChanged, TimingOfflineAfterExportStart => Some tableRenamedOrMovedOfflineInfo
  | TableNameChanged, TimingLiveAfterExportStart => Some tableRenamedOrMovedLiveInfo
  | TableNameChanged, TimingChangesOnlyAfterExportStart => Some tableRenamedOrMovedChangesOnlyInfo
  | TableSchemaChanged, TimingBeforeExportData => Some tableRenamedOrMovedBeforeExportInfo
  | TableSchemaChanged, TimingOfflineAfterExportStart => Some tableRenamedOrMovedOfflineInfo
  | TableSchemaChanged, TimingLiveAfterExportStart => Some tableRenamedOrMovedLiveInfo
  | TableSchemaChanged, TimingChangesOnlyAfterExportStart => Some tableRenamedOrMovedChangesOnlyInfo
  | TableAdded, TimingBeforeExportData => Some (mkInfo SeverityBreaksRecoverable
        "If the table is in the export's scope, it is exported, so `import data` fails unless the target already has a table with that name."
        "Create the table on the target before running `import data`. If `import data` already failed on it, run it again.")
  | TableAdded, TimingOfflineAfterExportStart => Some (mkInfo SeverityAdvisory
        "The table was created after `export data` started, so its rows are not migrated."
        "If you need this table, create it on the target and migrate its rows separately: a new export directory with only this table in `--table-list`.")
  | TableAdded, TimingLiveAfterExportStart => Some (mkInfo SeverityAdvisory
        "The table was created after `export data` started, so its rows are not migrated, and a resume of `export data` doesn't pick it up. If you cut over with fall-back, changes to this table on the target are not sent back to the source."
        "If you need this table, create it on the target, then either migrate its rows separately (a new export directory with only this table in `--table-list`) or restart the data migration: `export data --start-clean true`, then `import data --start-clean true --truncate-tables true`.")
  | TableAdded, TimingChangesOnlyAfterExportStart => Some (mkInfo SeverityAdvisory
        "The table was created after `export data` started, so its rows are not migrated, and a resume of `export data` doesn't pick it up. If you cut over with fall-back, changes to this table on the target are not sent back to the source."
        "If you need this table, create it on the target, then either migrate its rows separately (a new export directory with only this table in `--table-list`) or start a new migration in a new export directory.")
  | ColumnAdded, TimingBeforeExportData => Some (mkInfo SeverityBreaksRecoverable
        "The export includes the new column, which the target doesn't have, so `import data` fails."
        "Add the column on the target before running `import data`. If `import data` already failed on it, run it again.")
  | ColumnAdded, TimingOfflineAfterExportStart => Some (mkInfo SeverityPotentialImpact
        "Rows already exported are not affected, but the target doesn't have the column."
        "Add the column on the target before the application moves to the target.")
  | ColumnAdded, TimingLiveAfterExportStart => Some (mkInfo SeverityBreaksRecoverable
        "`export data` stops at the first change that sets the new column, and `import data` can't apply it until the target has the column."
        "Add the column on the target, then restart `export data` and `import data`.")
  | ColumnDropped, TimingBeforeExportData => Some (mkInfo SeverityPotentialImpact
        "The export doesn't include the column, which the target still has. `import data` fails only if that column is NOT NULL without a default on the target."
        "Drop the column on the target, or give it a default, before running `import data`. If `import data` already failed on it, run it again.")
  | ColumnDropped, TimingOfflineAfterExportStart => Some (mkInfo SeverityPotentialImpact
        "Rows already exported are not affected, but the target still has the column."
        "Drop the column on the target before the application moves to the target.")
  | ColumnDropped, TimingLiveAfterExportStart => Some (mkInfo SeverityPotentialImpact
        "The target keeps the dropped column. `import data` is not affected unless that column is NOT NULL without a default on the target."
        "Drop the column on the target before cutover.")
  | ColumnNameChanged, TimingBeforeExportData => Some (mkInfo SeverityBreaksRecoverable
        "The export uses the new name, which the target doesn't have, so `import data` fails."
        "Rename the column on the target before running `import data`. If `import data` already failed on it, run it again.")
  | ColumnNameChanged, TimingOfflineAfterExportStart => Some (mkInfo SeverityPotentialImpact
        "Rows already exported are not affected, but the target still has the old name."
        "Rename the column on the target before the application moves to the target.")
  | ColumnNameChanged, TimingLiveAfterExportStart => Some (mkInfo SeverityBreaksUnrecoverable
        "`export data` stops at the first change written with the new name, and changes already queued under the old name can't be applied once the names differ."
        "Rename the column on the target, then restart the data migration: `export data --start-clean true`, then `import data --start-clean true --truncate-tables true`.")
  | ColumnNameChanged, TimingChangesOnlyAfterExportStart => Some (mkInfo SeverityBreaksUnrecoverable
        "`export data` stops at the first change written with the new name, and changes already queued under the old name can't be applied once the names differ."
        "Rename the column on the target, then start a new migration in a new export directory.")
  | ColumnTypeChanged, (TimingBeforeExportData | TimingLiveAfterExportStart) => Some columnTypeChangedInfo
  | ColumnTypeChanged, TimingOfflineAfterExportStart => Some (mkInfo SeverityPotentialImpact
        "Rows already exported are not affected, but the target column still has the old type."
        "Change the column type on the target before the application moves to the target.")
  | ColumnNotNullDropped, (TimingBeforeExportData | TimingLiveAfterExportStart) => Some notNullDroppedInfo
  | ColumnNotNullDropped, TimingOfflineAfterExportStart => Some (mkInfo SeverityPotentialImpact
        "Rows already exported are not affected, but the target column still rejects NULLs."
        "Drop NOT NULL on the target before the application moves to the target.")
  | ColumnNotNullSet, (TimingBeforeExportData | TimingOfflineAfterExportStart | TimingLiveAfterExportStart) => Some notNullSetInfo
  | ColumnDefaultChanged, (TimingBeforeExportData | TimingOfflineAfterExportStart | TimingLiveAfterExportStart) => Some columnDefaultChangedInfo
  | TableKindChanged, (TimingBeforeExportData | TimingOfflineAfterExportStart | TimingLiveAfterExportStart) => Some tableKindChangedInfo
  | TablePartitionAttached, TimingBeforeExportData => Some (mkInfo SeverityBreaksRecoverable
        "The export treats the table as a partition, which the target doesn't have, so `import data` fails."
        "Attach the partition on the target before running `import data`. If `import data` already failed on it, run it again.")
  | TablePartitionAttached, (TimingOfflineAfterExportStart | TimingLiveAfterExportStart) => Some partitionAttachedAfterExportStartInfo
  | TablePartitionDetached, (TimingBeforeExportData | TimingOfflineAfterExportStart) => Some partitionDetachedInfo
  | TablePartitionDetached, TimingLiveAfterExportStart => Some (mkInfo SeverityBreaksUnrecoverable
        "Rows written to the detached table are still sent to the partitioned table on the target: rows inside the old range land there, and rows outside it make `import data` fail."
        "Detach the partition on the target, then restart the data migration: `export data --start-clean true`, then `import data --start-clean true --truncate-tables true`.")
  | TablePartitionDetached, TimingChangesOnlyAfterExportStart => Some (mkInfo SeverityBreaksUnrecoverable
        "Rows written to the detached table are still sent to the partitioned table on the target: rows inside the old range land there, and rows outside it make `import data` fail."
        "Detach the partition on the target, then start a new migration in a new export directory.")
  | TablePartitionChildrenChanged, (TimingBeforeExportData | TimingOfflineAfterExportStart | TimingLiveAfterExportStart) => Some partitionChildrenChangedInfo
  | TableInheritAdded, TimingBeforeExportData => Some (mkInfo SeverityBreaksRecoverable
        "`export data` does not support tables that use inheritance, so it does not start."
        "Exclude the table and its parent with `--exclude-table-list`, and migrate them separately.")
  | TableInheritAdded, TimingOfflineAfterExportStart => Some inheritanceAddedOfflineInfo
  | TableInheritAdded, TimingLiveAfterExportStart => Some (mkInfo SeverityBreaksUnrecoverable
        "`export data` keeps running, but a restart fails because the table now uses inheritance."
        "If `export data` has to restart, restart the data migration: `export data --start-clean true`, then `import data --start-clean true --truncate-tables true`, with the table and its parent in `--exclude-table-list`. Both then leave the migration, so migrate them separately.")
  | TableInheritAdded, TimingChangesOnlyAfterExportStart => Some (mkInfo SeverityBreaksUnrecoverable
        "`export data` keeps running, but a restart fails because the table now uses inheritance."
        "If `export data` has to restart, start a new migration in a new export directory, with the table and its parent in `--exclude-table-list`. Both then leave the migration, so migrate them separately.")
  | TableInheritRemoved, (TimingBeforeExportData | TimingOfflineAfterExportStart | TimingLiveAfterExportStart) => Some inheritanceRemovedInfo
  | TableInheritedByAdded, TimingBeforeExportData => Some (mkInfo SeverityBreaksRecoverable
        "The table now has a child table, and `export data` does not support tables that use inheritance, so it does not start."
        "Exclude the table and its child tables with `--exclude-table-list`, and migrate them separately.")
  | TableInheritedByAdded, TimingOfflineAfterExportStart => Some inheritanceAddedOfflineInfo
  | TableInheritedByAdded, TimingLiveAfterExportStart => Some (mkInfo SeverityBreaksUnrecoverable
        "`export data` keeps running, but a restart fails because the table now has a child table."
        "If `export data` has to restart, restart the data migration: `export data --start-clean true`, then `import data --start-clean true --truncate-tables true`, with the table and its child tables in `--exclude-table-list`. They then leave the migration, so migrate them separately.")
  | TableInheritedByAdded, TimingChangesOnlyAfterExportStart => Some (mkInfo SeverityBreaksUnrecoverable
        "`export data` keeps running, but a restart fails because the table now has a child table."
        "If `export data` has to restart, start a new migration in a new export directory, with the table and its child tables in `--exclude-table-list`. They then leave the migration, so migrate them separately.")
  | TableInheritedByRemoved, (TimingBeforeExportData | TimingOfflineAfterExportStart | TimingLiveAfterExportStart) => Some inheritanceRemovedInfo
  | PrimaryKeyAdded, TimingBeforeExportData => Some (mkInfo SeverityBreaksRecoverable
        "In a live migration, `import data` refuses the table until the target has a primary key. An offline migration is not affected."
        "Add the same primary key on the target before running `import data`. If `import data` already failed on it, run it again.")
  | PrimaryKeyAdded, TimingOfflineAfterExportStart => Some (mkInfo SeverityAdvisory
        "`import data` is not affected."
        "Add the same primary key on the target to keep the schemas the same.")
  | PrimaryKeyAdded, TimingLiveAfterExportStart => Some (mkInfo SeverityAdvisory
        "The live migration is not affected. Either the table had no primary key, so it was not part of the live migration, or it is a partitioned table whose partitions already had keys, which now belong to this one. If `PRIMARY_KEY_DROPPED` is also reported for the table in the same interval, the key was replaced, and that entry's Action applies."
        "Add the same primary key on the target.")
  | PrimaryKeyDropped, TimingBeforeExportData => Some (mkInfo SeverityBreaksRecoverable
        "In a live migration, `export data` refuses a table without a primary key. In an offline migration, the target still has the key, so `import data` fails on the first duplicate key value."
        "In a live migration, add the key back on the source before starting `export data`. In an offline migration, drop it on the target too, and run `import data` again if it already failed.")
  | PrimaryKeyDropped, TimingOfflineAfterExportStart => Some (mkInfo SeverityPotentialImpact
        "Rows exported after the drop can repeat a key value. The target's key rejects them, so `import data` fails."
        "Drop the primary key on the target, then run `import data` again.")
  | PrimaryKeyDropped, TimingLiveAfterExportStart => Some (mkInfo SeverityBreaksUnrecoverable
        primaryKeyDroppedLiveImpact
        "Add the key back on the source, then restart the data migration: `export data --start-clean true`, then `import data --start-clean true --truncate-tables true`.")
  | PrimaryKeyDropped, TimingChangesOnlyAfterExportStart => Some (mkInfo SeverityBreaksUnrecoverable
        primaryKeyDroppedLiveImpact
        "Add the key back on the source, then start a new migration in a new export directory.")
  | PrimaryKeyNameChanged, (TimingBeforeExportData | TimingOfflineAfterExportStart | TimingLiveAfterExportStart) => Some keyNameChangedInfo
  | UniqueAdded, (TimingBeforeExportData | TimingOfflineAfterExportStart) => Some uniqueAddedInfo
  | UniqueAdded, TimingLiveAfterExportStart => Some uniqueAddedLiveInfo
  | UniqueDropped, TimingBeforeExportData => Some (mkInfo SeverityBreaksRecoverable
        (uniqueDroppedImpact +:+ " " +:+ uniqueConstraintRebuiltHint)
        uniqueDroppedAction)
  | UniqueDropped, TimingOfflineAfterExportStart => Some (mkInfo SeverityPotentialImpact
        (uniqueDroppedImpact +:+ " " +:+ uniqueConstraintRebuiltHint)
        uniqueDroppedAction)
  | UniqueDropped, TimingLiveAfterExportStart => Some (mkInfo SeverityBreaksRecoverable
        (uniqueDroppedLiveImpact +:+ " " +:+ uniqueConstraintRebuiltHint)
        uniqueDroppedLiveAction)
  | UniqueNameChanged, (TimingBeforeExportData | TimingOfflineAfterExportStart | TimingLiveAfterExportStart) => Some keyNameChangedInfo
  | CheckAdded, (TimingBeforeExportData | TimingOfflineAfterExportStart | TimingLiveAfterExportStart) => Some checkAddedInfo
  | CheckDropped, TimingBeforeExportData => Some (mkInfo SeverityBreaksRecoverable
        checkDroppedImpact
        "Drop it on the target too, and run `import data` again if it already failed.")
  | CheckDropped, TimingOfflineAfterExportStart => Some (mkInfo SeverityPotentialImpact
        checkDroppedImpact
        "Drop it on the target too, and run `import data` again if it already failed.")
  | CheckDropped, TimingLiveAfterExportStart => Some (mkInfo SeverityBreaksRecoverable
        "The source now allows rows the target's check rejects, so `import data` stops on the first one."
        "Drop it on the target, then run `import data` again.")
  | CheckNameChanged, (TimingBeforeExportData | TimingOfflineAfterExportStart | TimingLiveAfterExportStart) => Some keyNameChangedInfo
  | ForeignKeyAdded, (TimingBeforeExportData | TimingOfflineAfterExportStart | TimingLiveAfterExportStart) => Some foreignKeyAddedInfo
  | ForeignKeyDropped, TimingBeforeExportData => Some foreignKeyDroppedBeforeExportInfo
  | ForeignKeyDropped, TimingOfflineAfterExportStart => Some foreignKeyDroppedOfflineInfo
  | ForeignKeyDropped, TimingLiveAfterExportStart => Some foreignKeyDroppedInfo
  | ForeignKeyNameChanged, (TimingBeforeExportData | TimingOfflineAfterExportStart | TimingLiveAfterExportStart) => Some keyNameChangedInfo
  | UniqueIndexAdded, (TimingBeforeExportData | TimingOfflineAfterExportStart) => Some uniqueAddedInfo
  | UniqueIndexAdded, TimingLiveAfterExportStart => Some uniqueIndexAddedLiveInfo
  | UniqueIndexDropped, TimingBeforeExportData => Some (mkInfo SeverityBreaksRecoverable
        (uniqueDroppedImpact +:+ " " +:+ uniqueIndexRebuiltHint)
        uniqueDroppedAction)
  | UniqueIndexDropped, TimingOfflineAfterExportStart => Some (mkInfo SeverityPotentialImpact
        (uniqueDroppedImpact +:+ " " +:+ uniqueIndexRebuiltHint)
        uniqueDroppedAction)
  | UniqueIndexDropped, TimingLiveAfterExportStart => Some (mkInfo SeverityBreaksRecoverable
        (uniqueDroppedLiveImpact +:+ " " +:+ uniqueIndexRebuiltHint)
        uniqueDroppedLiveAction)
  | UniqueIndexNameChanged, (TimingBeforeExportData | TimingOfflineAfterExportStart | TimingLiveAfterExportStart) => Some keyNameChangedInfo
  | IndexAdded, (TimingBeforeExportData | TimingOfflineAfterExportStart | TimingLiveAfterExportStart) => Some indexChangedInfo
  | IndexDropped, (TimingBeforeExportData | TimingOfflineAfterExportStart | TimingLiveAfterExportStart) => Some indexChangedInfo
  | IndexNameChanged, (TimingBeforeExportData | TimingOfflineAfterExportStart | TimingLiveAfterExportStart) => Some keyNameChangedInfo
  | _, _ => None
  end.
Definition getDriftInfo (t : DiffType) (s : situation) : result DriftInfo :=
  if decide (Timing_ s = TimingAfterCutover) then Ok afterCutoverInfo else
  let info := infoByDiffType t (Timing_ s) in
  let info := match info with
              | None => if decide (Timing_ s = TimingChangesOnlyAfterExportStart) then infoByDiffType t TimingLiveAfterExportStart else None
              | info => info
              end in
  match info with
  | None => Err ("no Impact and Action for change type " +:+ DiffType_string t +:+ " at timing " +:+ Timing_string (Timing_ s))
  | Some info =>
      let info := match fallBackRiskByDiffType t with
                  | Some risk => if FallBackPossible s then mkInfo (Severity_ info) (Impact info +:+ " " +:+ risk) (Action info) else info
                  | None => info
                  end in
      Ok (if FallForwardPossible s && negb (bool_decide (t = TablePartitionChildrenChanged))
          then mkInfo (Severity_ info) (Impact info) (Action info +:+ " " +:+ fallForwardAction) else info)
  end.

(** ** Lemmas *)
Lemma elem_of_AllDiffTypes t : t ∈ AllDiffTypes.
Proof. destruct t; cbv; set_solver. Qed.
(** Whether the entry of [t] at [s] fits the migration, as a test. *)
Definition restartLive : string := "restart the data migration: `export data --start-clean true`, then `import data --start-clean true --truncate-tables true`".
Definition restartChangesOnly : string := "start a new migration in a new export directory".
Definition tells (what : string) (info : DriftInfo) : bool := str_contains what (Action info).
Definition fits (t : DiffType) (s : situation) : bool :=
  match getDriftInfo t s with
  | Ok info =>
      (negb (bool_decide (Severity_ info = SeverityBreaksUnrecoverable)) ||
       match Timing_ s with
       | TimingLiveAfterExportStart => tells restartLive info
       | TimingChangesOnlyAfterExportStart => tells restartChangesOnly info
       | _ => false
       end) &&
      (negb (bool_decide (Timing_ s = TimingChangesOnlyAfterExportStart)) || negb (tells "--start-clean" info)) &&
      (negb (bool_decide (Timing_ s ≠ TimingAfterCutover)) || bool_decide (Impact info ≠ "" ∧ Action info ≠ ""))
  | _ => false
  end.
Lemma fits_all t s : fits t s = true.
Proof.
  assert (forallb (λ t, forallb (λ tm, fits t (mkSituation tm false false) && fits t (mkSituation tm false true) &&
      fits t (mkSituation tm true false) && fits t (mkSituation tm true true))
    [TimingBeforeExportData; TimingOfflineAfterExportStart; TimingLiveAfterExportStart; TimingChangesOnlyAfterExportStart; TimingAfterCutover])
    AllDiffTypes = true) as H by (vm_compute; reflexivity).
  rewrite forallb_forall in H. specialize (H t (proj1 (list_elem_of_In _ _) (elem_of_AllDiffTypes t))).
  rewrite forallb_forall in H. destruct s as [tm fb ff]. specialize (H tm). rewrite !andb_true_iff in H.
  assert (In tm [TimingBeforeExportData; TimingOfflineAfterExportStart; TimingLiveAfterExportStart; TimingChangesOnlyAfterExportStart; TimingAfterCutover])
    as Hin by (destruct tm; cbn; tauto).
  destruct (H Hin) as [[[? ?] ?] ?]. by destruct fb, ff.
Qed.

(** C34: Every change of the schema, whenever it was made, gets guidance, which fits the
    migration: what breaks it for good is only found while changes stream, and then the
    action says how to start over, in a changes-only migration by a new export directory
    and never by a clean start; and unless the
    application has already moved, neither the impact nor the action is left empty. *)
Theorem guidance_fits_the_migration (t : DiffType) (s : situation) :
  ∃ info, getDriftInfo t s = Ok info ∧
    (Severity_ info = SeverityBreaksUnrecoverable →
       (Timing_ s = TimingLiveAfterExportStart ∧ str_contains restartLive (Action info) = true) ∨
       (Timing_ s = TimingChangesOnlyAfterExportStart ∧ str_contains restartChangesOnly (Action info) = true)) ∧
    (Timing_ s = TimingChangesOnlyAfterExportStart → str_contains "--start-clean" (Action info) = false) ∧
    (Timing_ s ≠ TimingAfterCutover → Impact info ≠ "" ∧ Action info ≠ "").
Proof.
  pose proof (fits_all t s) as H. unfold fits, tells in H. destruct (getDriftInfo t s) as [info| |]; [|done..].
  exists info. split; [done|]. rewrite !andb_true_iff, !orb_true_iff, !negb_true_iff, !bool_decide_eq_false, bool_decide_eq_true in H.
  destruct H as [[H1 H2] H3]. split_and!.
  - intros Hs. destruct H1 as [?|H1]; [done|]. destruct (Timing_ s); try done; [by left|by right].
  - intros Ht. by destruct H2.
  - intros Ht. by destruct H3.
Qed.
End DriftGuidance.
