(* ===== verification/SchemaDrift.v ===== *)
(** * Schema drift (src/yb-voyager/src/schema/schemadrift: build.go, report.go)

    The report: the captures in the order they were taken, each usable one compared with
    the usable one before it, every finding placed in the migration and given its guidance.
    The time of the report and [sort.Slice] are arguments. *)
From S2P Require Import Prelude SqlName SchemaSnapshot SchemaDiff DriftGuidance.
Import SqlName SchemaSnapshot SchemaDiff DriftGuidance.

Module SchemaDrift.
(** ** The data *)
Definition SNAPSHOT_ONLY : string := "snapshot-only".
Definition SNAPSHOT_AND_CHANGES : string := "snapshot-and-changes".
Definition CHANGES_ONLY : string := "changes-only".
(** [CutoverRequestedAt] is the zero time, [None], until cutover is requested. *)
Record MigrationInfo : Type := mkMigrationInfo { ExportType : string; CutoverRequestedAt : option Z; FallForwardEnabled : bool }.
Record Source : Type := mkSource { s_DatabaseType : string; Host : string; Port : Z; Database : string; s_DatabaseVersion : string }.
Record DetectionConfig : Type := mkConfig {
  d_Source : Source; Snapshots : list SchemaSnapshot; d_Scope : Scope; d_MigrationInfo : MigrationInfo }.
Record Window : Type := mkWindow { From : Z; To : Z }.
Record CapturePoint : Type := mkPoint { p_Label : string; p_Reason : string; p_CapturedAt : Z; Excluded : string }.
Record Diff_ : Type := mkDiff {
  r_Type : DiffType; r_Operation : Operation; r_ObjectType : ObjectType; r_Attribute : Attribute;
  Object : ObjectRef; SubObject : string; OldValue : option value; NewValue : option value }.
Record DriftEntry : Type := mkEntry { e_Diff : Diff_; e_Window : Window; Phase : string; e_Info : DriftInfo }.
Record Comparing : Type := mkComparing { cmp_Schemas : list string; cmp_Tables : list string; cmp_ObjectTypes : list string }.
Record Summary : Type := mkSummary { ChangeCount : Z; ComparedIntervalCount : Z; StoredCaptureCount : Z; LiveCompared : bool }.
(** The window of a report without a capture is the zero one, [None]. *)
Record Report : Type := mkReport {
  rep_Report : string; rep_Version : Z; GeneratedAt : Z; rep_Source : Source; rep_Window : option Window;
  rep_Comparing : Comparing; rep_Summary : Summary; Drifts : list DriftEntry; CapturePoints : list CapturePoint }.
Definition HasLiveRead (r : Report) : bool :=
  match last (CapturePoints r) with Some p => bool_decide (p_Label p = LabelSourceLive) | None => false end.

(** ** Placing an interval in the migration *)
(** [lo.Difference], of which the first half. *)
Definition missingSchemas (requested captured : list string) : list string := filter (λ s, s ∉ captured) requested.
Definition displaySchemas (schemas : list string) (dbType : string) : result (list string) :=
  mapM_result (λ s, i ← NewIdentifier dbType s; Ok (MinQuoted i)) schemas.
Definition ObjectRef_ForDisplay (dbType : string) (o : ObjectRef) : result string :=
  n ← NewObjectName dbType "" (Schema o) (Name o); Ok (ObjectName_String n).
Definition isExportDataRunningEnd (label : string) : bool :=
  bool_decide (label ∈ [LabelExportDataFromSourcePeriodic; LabelExportDataFromSourceExit]).
Definition isExportDataRunningStart (label : string) : bool :=
  bool_decide (label ∈ [LabelExportDataFromSourceStart; LabelExportDataFromSourcePeriodic]).
Definition phaseFor (prev next : CapturePoint) : string :=
  if bool_decide (p_Label prev = LabelExportSchema) && bool_decide (p_Label next = LabelExportDataFromSourceStart) then "export data: pending"
  else if isExportDataRunningStart (p_Label prev) && isExportDataRunningEnd (p_Label next) then "export data: running"
  else if bool_decide (p_Label prev = LabelExportDataFromSourceExit) && bool_decide (p_Label next = LabelExportDataFromSourceStart) then "export data: paused"
  else if bool_decide (p_Label next = LabelSourceLive) then "since last capture"
  else "".
Definition isAfterCutover (prev : CapturePoint) (m : MigrationInfo) : bool :=
  (bool_decide (p_Label prev = LabelExportDataFromSourceExit) && bool_decide (p_Reason prev = "cutover")) ||
  match CutoverRequestedAt m with Some t => negb (p_CapturedAt prev <? t) | None => false end.
Definition isBeforeExportData (fromNext : list CapturePoint) (m : MigrationInfo) : bool :=
  if decide (ExportType m = "") then true else
  match List.find (λ p, bool_decide (p_Label p = LabelExportDataFromSourceStart) || isExportDataRunningEnd (p_Label p)) fromNext with
  | Some firstExportData => bool_decide (p_Label firstExportData = LabelExportDataFromSourceStart) &&
      (bool_decide (p_Reason firstExportData = "initial") || bool_decide (p_Reason firstExportData = "clean_restart"))
  | None => false
  end.
Definition timingFor (points : list CapturePoint) (prevIdx nextIdx : nat) (m : MigrationInfo) : result Timing :=
  prev ← deref (points !! prevIdx);
  if isAfterCutover prev m then Ok TimingAfterCutover
  else if isBeforeExportData (drop nextIdx points) m then Ok TimingBeforeExportData
  else if decide (ExportType m = SNAPSHOT_ONLY) then Ok TimingOfflineAfterExportStart
  else if decide (ExportType m = SNAPSHOT_AND_CHANGES) then Ok TimingLiveAfterExportStart
  else if decide (ExportType m = CHANGES_ONLY) then Ok TimingChangesOnlyAfterExportStart
  else Err ("unknown export type " +:+ ExportType m +:+ " in the migration status record").
Definition situationFor (points : list CapturePoint) (prevIdx nextIdx : nat) (m : MigrationInfo) : result situation :=
  timing ← timingFor points prevIdx nextIdx m;
  let before := bool_decide (timing ≠ TimingAfterCutover) in
  Ok (mkSituation timing (before && bool_decide (ExportType m ≠ SNAPSHOT_ONLY) && negb (FallForwardEnabled m))
        (before && FallForwardEnabled m)).

(** ** The findings of an interval *)
Definition displayIdentity (d : Difference) : option ObjectIdent := match ObjectB d with Some i => Some i | None => ObjectA d end.
Definition splitIdentity (id : option ObjectIdent) : result (ObjectRef * string) :=
  match id with
  | Some (TableIdent o) => Ok (o, "")
  | Some (ScopedIdent r) => Ok (host r, sc_Name r)
  | None => Err "unexpected finding identity type"
  end.
Definition newEntry (window : Window) (phase : string) (s : situation) (d : Difference) : result DriftEntry :=
  '(obj, subObj) ← splitIdentity (displayIdentity d);
  info ← getDriftInfo (Type_ d) s;
  Ok (mkEntry (mkDiff (Type_ d) (Operation_ d) (ObjectType_ d) (Attribute_ d) obj subObj (SideAValue d) (SideBValue d)) window phase info).

(** ** The report *)
Record loopState : Type := mkLoop {
  points : list CapturePoint; drifts : list DriftEntry; liveCompared : bool; comparedIntervals : Z; prevIdx : option nat }.
Definition exclude (why : string) (p : CapturePoint) : CapturePoint := mkPoint (p_Label p) (p_Reason p) (p_CapturedAt p) why.
Definition pointOf (s : SchemaSnapshot) : CapturePoint := mkPoint (Label (Header s)) (Reason (Header s)) (CapturedAt (Header s)) "".
Definition captureFailed : string := "the capture failed, so this point holds no schema".

Section report.
Context (sortSlice : (Difference → Difference → bool) → list Difference → list Difference).
Definition compareInterval (p : DetectionConfig) (st : loopState) (i0 i : nat) (next : SchemaSnapshot) (content : SnapshotContent) : result loopState :=
  prev ← deref (Snapshots p !! i0);
  let window := mkWindow (CapturedAt (Header prev)) (CapturedAt (Header next)) in
  prevPoint ← deref (points st !! i0);
  nextPoint ← deref (points st !! i);
  let phase := phaseFor prevPoint nextPoint in
  s ← situationFor (points st) i0 i (d_MigrationInfo p);
  prevContent ← deref (Content prev);
  es ← mapM_result (newEntry window phase s) (Differ_Diff sortSlice (d_Scope p) prevContent content);
  Ok (mkLoop (points st) (drifts st ++ es) (liveCompared st || bool_decide (Label (Header next) = LabelSourceLive))
        (comparedIntervals st + 1) (Some i)).
Definition step (p : DetectionConfig) (st : loopState) (x : nat * SchemaSnapshot) : result loopState :=
  let '(i, next) := x in
  match Content next with
  | None => Ok (mkLoop (alter (exclude captureFailed) i (points st)) (drifts st) (liveCompared st) (comparedIntervals st) (prevIdx st))
  | Some content =>
      let captured := Schemas (Header next) in
      let missing := missingSchemas (sc_Schemas (d_Scope p)) captured in
      if decide (missing = []) then
        match prevIdx st with
        | None => Ok (mkLoop (points st) (drifts st) (liveCompared st) (comparedIntervals st) (Some i))
        | Some i0 => compareInterval p st i0 i next content
        end
      else
        c ← displaySchemas captured (s_DatabaseType (d_Source p));
        m ← displaySchemas missing (s_DatabaseType (d_Source p));
        Ok (mkLoop (alter (exclude ("captured only " +:+ Join ", " c +:+ ", so it cannot answer for " +:+ Join ", " m)) i (points st))
              (drifts st) (liveCompared st) (comparedIntervals st) (prevIdx st))
  end.
Definition ObjectType_string (t : ObjectType) : string :=
  match t with ObjectTypeTable => "TABLE" | ObjectTypeColumn => "COLUMN" | ObjectTypeConstraint => "CONSTRAINT" | ObjectTypeIndex => "INDEX" end.
Definition BuildReport (now : Z) (p : DetectionConfig) : result Report :=
  st ← foldM (step p) (mkLoop (map pointOf (Snapshots p)) [] false 0 None) (imap pair (Snapshots p));
  schemas ← displaySchemas (sc_Schemas (d_Scope p)) (s_DatabaseType (d_Source p));
  tables ← mapM_result (ObjectRef_ForDisplay (s_DatabaseType (d_Source p))) (sc_Tables (d_Scope p));
  let window := match head (points st), last (points st) with
                | Some first, Some last => Some (mkWindow (p_CapturedAt first) (p_CapturedAt last))
                | _, _ => None
                end in
  Ok (mkReport "schema_drift" 1 now (d_Source p) window
        (mkComparing schemas tables (map ObjectType_string (sc_ObjectTypes (d_Scope p))))
        (mkSummary (Z.of_nat (length (drifts st))) (comparedIntervals st)
           (Z.of_nat (length (filter (λ s, Label (Header s) ≠ LabelSourceLive) (Snapshots p)))) (liveCompared st))
        (drifts st) (points st)).
End report.

(** ** What the report is to hold *)
(** A snapshot that can answer for every requested schema. *)
Definition usable (p : DetectionConfig) (s : SchemaSnapshot) : Prop :=
  is_Some (Content s) ∧ missingSchemas (sc_Schemas (d_Scope p)) (Schemas (Header s)) = [].
#[global] Instance usable_dec p s : Decision (usable p s).
Proof. unfold usable. apply _. Defined.
Definition usableAt (p : DetectionConfig) (i : nat) : Prop := ∃ s, Snapshots p !! i = Some s ∧ usable p s.
(** Two usable snapshots with none between them. *)
Definition neighbours (p : DetectionConfig) (i j : nat) : Prop :=
  (i < j)%nat ∧ usableAt p i ∧ usableAt p j ∧ ∀ k, (i < k < j)%nat → ¬ usableAt p k.
Definition timeline (p : DetectionConfig) : list CapturePoint := map pointOf (Snapshots p).
(** The entry of finding [d] between snapshots [i] and [j]. *)
Inductive intervalEntry (p : DetectionConfig) (i j : nat) (d : Difference) (e : DriftEntry) : Prop :=
  | interval_entry prev next s : Snapshots p !! i = Some prev → Snapshots p !! j = Some next →
      situationFor (timeline p) i j (d_MigrationInfo p) = Ok s →
      newEntry (mkWindow (CapturedAt (Header prev)) (CapturedAt (Header next))) (phaseFor (pointOf prev) (pointOf next)) s d = Ok e →
      intervalEntry p i j d e.

(** ** Lemmas: the guidance, and identities *)
Lemma missing_nil requested captured : missingSchemas requested captured = [] ↔ requested ⊆ captured.
Proof.
  unfold missingSchemas. split.
  - intros H s Hs. destruct (decide (s ∈ captured)) as [|Hn]; [done|]. assert (s ∈ filter (λ s, s ∉ captured) requested) as Hin
      by (by apply list_elem_of_filter). rewrite H in Hin. by apply elem_of_nil in Hin.
  - intros H. destruct (filter _ requested) as [|s l] eqn:Hf; [done|]. assert (s ∈ filter (λ s, s ∉ captured) requested) as [Hn Hs]%list_elem_of_filter
      by (rewrite Hf; by left). by destruct Hn; apply H.
Qed.
Lemma getDriftInfo_total t s : ∃ info, getDriftInfo t s = Ok info.
Proof. pose proof (fits_all t s) as H. unfold fits in H. destruct (getDriftInfo t s) as [info| |]; [by exists info|done..]. Qed.
Definition identified (d : Difference) : Prop := ∃ i, displayIdentity d = Some i.
Lemma identified_A d i : ObjectA d = Some i → identified d.
Proof. unfold identified, displayIdentity. destruct (ObjectB d); eauto. Qed.
Lemma identified_B d i : ObjectB d = Some i → identified d.
Proof. unfold identified, displayIdentity. intros ->. eauto. Qed.
Lemma Forall_when (P : Difference → Prop) b d : P d → Forall P (when b d).
Proof. destruct b; cbn; [by repeat constructor|constructor]. Qed.
Lemma Forall_concat_map {A} (P : Difference → Prop) (f : A → list Difference) l : (∀ x, Forall P (f x)) → Forall P (concat (map f l)).
Proof. intros H. induction l; cbn; [constructor|]. by apply Forall_app. Qed.
Lemma Forall_matchByKey {T} (P : Difference → Prop) (as_ bs : list T) kA kB onMatch onDropped onAdded :
  (∀ a b, Forall P (onMatch a b)) → (∀ a, Forall P (onDropped a)) → (∀ b, Forall P (onAdded b)) →
  Forall P (matchByKey as_ bs kA kB onMatch onDropped onAdded).
Proof.
  intros Hm Hd Ha. unfold matchByKey. apply Forall_app. split; apply Forall_concat_map; intros x.
  - by destruct (_ !! x.1).
  - destruct (_ !! x.1); [constructor|done].
Qed.
Ltac identity := repeat lazymatch goal with
  | |- Forall _ (_ ++ _) => apply Forall_app_2
  | |- Forall _ (when _ _) => apply Forall_when
  | |- Forall _ (concat (map _ _)) => apply Forall_concat_map; intros; cbv zeta
  | |- Forall _ (matchByKey _ _ _ _ _ _ _) => apply Forall_matchByKey; intros
  | |- Forall _ (match ?x with _ => _ end) => destruct x
  | |- Forall _ (_ :: _) => apply Forall_cons_2
  | |- Forall _ [] => apply Forall_nil_2
  | |- identified _ => first [eapply identified_A; reflexivity|eapply identified_B; reflexivity]
  end.
Lemma diffTables_identified a b : Forall identified (diffTables a b).
Proof.
  unfold diffTables, emitTableDropped, emitTableAdded. destruct (tableKeys _ _) as [kA kB]. identity.
  unfold compareMatchedTables, diffLinkSet, diffPartitionParent, diffColumnsIn, emitColumnDropped, emitColumnAdded.
  destruct (columnKeys _ _) as [cA cB]. unfold compareMatchedColumns, diffConstraintsOrIndexes, diffMatchedConstraintOrIndex. identity.
Qed.
Lemma newEntry_total w ph s d : identified d → ∃ e, newEntry w ph s d = Ok e.
Proof.
  intros [i Hi]. unfold newEntry. rewrite Hi. destruct (getDriftInfo_total (Type_ d) s) as [info Hinfo].
  destruct i; cbn; rewrite Hinfo; cbn; eauto.
Qed.

(** ** Lemmas: the loop *)
Section loop.
Context (sortSlice : (Difference → Difference → bool) → list Difference → list Difference) (p : DetectionConfig).
(** The entries of an interval, from the snapshots alone. *)
Definition intervalOf (i j : nat) : result (list DriftEntry) :=
  prev ← deref (Snapshots p !! i); next ← deref (Snapshots p !! j);
  s ← situationFor (timeline p) i j (d_MigrationInfo p);
  a ← deref (Content prev); b ← deref (Content next);
  mapM_result (newEntry (mkWindow (CapturedAt (Header prev)) (CapturedAt (Header next))) (phaseFor (pointOf prev) (pointOf next)) s)
    (Differ_Diff sortSlice (d_Scope p) a b).
(** A point is as taken, but for the reason it is excluded. *)
Definition samePoint (a b : CapturePoint) : Prop := exclude "" a = exclude "" b.
(** The state after [n] snapshots. *)
Record Inv (n : nat) (st : loopState) : Prop := {
  inv_points : Forall2 samePoint (points st) (timeline p);
  inv_excluded i pt : points st !! i = Some pt → (Excluded pt = "" ↔ (n ≤ i)%nat ∨ usableAt p i);
  inv_prev i : prevIdx st = Some i ↔ (i < n)%nat ∧ usableAt p i ∧ ∀ k, (i < k < n)%nat → ¬ usableAt p k;
  inv_none : prevIdx st = None ↔ ∀ i, (i < n)%nat → ¬ usableAt p i;
  inv_intervals i j : neighbours p i j → (j < n)%nat → ∃ es, intervalOf i j = Ok es;
  inv_drifts e : e ∈ drifts st ↔ ∃ i j es, neighbours p i j ∧ (j < n)%nat ∧ intervalOf i j = Ok es ∧ e ∈ es;
  inv_count : comparedIntervals st = Z.max 0 (Z.of_nat (length (filter (usable p) (take n (Snapshots p)))) - 1);
  inv_live : liveCompared st = true ↔ ∃ i j s, neighbours p i j ∧ (j < n)%nat ∧ Snapshots p !! j = Some s ∧ Label (Header s) = LabelSourceLive }.

Lemma samePoint_timing pts i j m : Forall2 samePoint pts (timeline p) → situationFor pts i j m = situationFor (timeline p) i j m.
Proof.
  intros H. assert (∀ a b, samePoint a b → p_Label a = p_Label b ∧ p_Reason a = p_Reason b ∧ p_CapturedAt a = p_CapturedAt b) as Hs
    by (intros [] []; unfold samePoint, exclude; cbn; naive_solver).
  unfold situationFor, timingFor.
  assert (∀ l l', Forall2 samePoint l l' → isBeforeExportData l m = isBeforeExportData l' m) as Hb.
  { intros l l' Hl. unfold isBeforeExportData. destruct (decide _); [done|]. induction Hl as [|a b l l' Hab Hl IH]; [done|]. cbn.
    destruct (Hs _ _ Hab) as (Hlb & Hr & _). rewrite Hlb. destruct (bool_decide _ || _); [by rewrite Hlb, Hr|apply IH]. }
  rewrite (Hb (drop j pts) (drop j (timeline p))) by (by apply Forall2_drop).
  destruct (pts !! i) as [a|] eqn:Hi.
  - destruct (Forall2_lookup_l _ _ _ _ _ H Hi) as (b & -> & Hab). cbn [deref mbind result_bind]. unfold isAfterCutover.
    by destruct (Hs _ _ Hab) as (-> & -> & ->).
  - rewrite (proj2 (lookup_ge_None _ _)); [done|]. rewrite <- (Forall2_length _ _ _ H). by apply lookup_ge_None.
Qed.
Lemma neighbours_unique i i' j : neighbours p i j → neighbours p i' j → i = i'.
Proof.
  intros (Hi & Hu & _ & Hb) (Hi' & Hu' & _ & Hb'). destruct (Nat.lt_trichotomy i i') as [H|[H|H]]; [|done|].
  - exfalso. by apply (Hb i'); [lia|].
  - exfalso. by apply (Hb' i); [lia|].
Qed.
Lemma usableAt_iff i s : Snapshots p !! i = Some s → usableAt p i ↔ usable p s.
Proof. intros Hs. split; [|by exists s]. intros (s' & Hs' & ?). rewrite Hs in Hs'. by injection Hs' as <-. Qed.
Lemma take_usable n s : Snapshots p !! n = Some s →
  length (filter (usable p) (take (S n) (Snapshots p))) = (length (filter (usable p) (take n (Snapshots p))) + if decide (usable p s) then 1 else 0)%nat.
Proof. intros Hs. rewrite (take_S_r _ _ _ Hs), filter_app, length_app, filter_cons. by destruct (decide _). Qed.
Lemma neighbours_S n s i j : Snapshots p !! n = Some s → neighbours p i j →
  (j < S n)%nat ↔ (j < n)%nat ∨ (j = n ∧ usable p s).
Proof.
  intros Hs (_ & _ & Hj & _). split; [|lia]. intros H. destruct (decide (j = n)) as [->|]; [right|left; lia].
  split; [done|]. by apply (usableAt_iff n).
Qed.
Lemma Inv_init : Inv 0 (mkLoop (timeline p) [] false 0 None).
Proof.
  split; cbn [points drifts liveCompared comparedIntervals prevIdx].
  - apply Forall_Forall2_diag, Forall_true. done.
  - intros i pt (s & -> & Hs)%list_lookup_fmap_Some. cbn. split; [intros _; left; lia|done].
  - intros i. split; [done|lia].
  - split; [lia|done].
  - lia.
  - intros e. split; [by intros ?%elem_of_nil|]. intros (i & j & es & _ & ? & _). lia.
  - done.
  - split; [done|]. intros (i & j & s & _ & ? & _). lia.
Qed.
Lemma Inv_skip n st s why : Inv n st → Snapshots p !! n = Some s → ¬ usable p s → why ≠ "" →
  Inv (S n) (mkLoop (alter (exclude why) n (points st)) (drifts st) (liveCompared st) (comparedIntervals st) (prevIdx st)).
Proof.
  intros [HP HE HV HN HI HD HC HL] Hs Hu Hwhy.
  assert (¬ usableAt p n) as Hua by (by rewrite (usableAt_iff _ _ Hs)).
  assert (∀ i j, neighbours p i j → (j < S n)%nat ↔ (j < n)%nat) as Hlt by (intros i j Hij; rewrite (neighbours_S _ _ _ _ Hs Hij); tauto).
  assert (timeline p !! n = Some (pointOf s)) as Hpt by (unfold timeline; by rewrite list_lookup_fmap, Hs).
  split; cbn [points drifts liveCompared comparedIntervals prevIdx].
  - apply Forall2_lookup. intros i. destruct (decide (i = n)) as [->|Hne].
    + rewrite list_lookup_alter_eq. destruct (Forall2_lookup_r _ _ _ _ _ HP Hpt) as (pt & Hn & Hsame). rewrite Hn, Hpt. by constructor.
    + rewrite list_lookup_alter_ne by done. by apply Forall2_lookup.
  - intros i pt. destruct (decide (i = n)) as [->|Hne].
    + rewrite list_lookup_alter_eq. intros (pt' & _ & ->)%fmap_Some. cbn. split; [done|]. intros [?|?]; [lia|done].
    + rewrite list_lookup_alter_ne by done. intros Hi. rewrite (HE _ _ Hi). split; (intros [?|?]; [left; lia|by right]).
  - intros i. rewrite HV. split; intros (Hi & Hui & Hno); (split_and!; [|done|]).
    + lia.
    + intros k Hk. destruct (decide (k = n)) as [->|]; [done|]. apply Hno. lia.
    + destruct (decide (i = n)) as [->|]; [done|]. lia.
    + intros k Hk. apply Hno. lia.
  - rewrite HN. split; intros Hno i Hi; [|apply Hno; lia]. destruct (decide (i = n)) as [->|]; [done|]. apply Hno. lia.
  - intros i j Hij. rewrite (Hlt _ _ Hij). by apply HI.
  - intros e. rewrite HD. split; intros (i & j & es & Hij & Hj & ?); exists i, j, es; (split_and!; [done|by eapply Hlt|naive_solver..]).
  - rewrite HC, (take_usable _ _ Hs), decide_False by done. lia.
  - rewrite HL. split; intros (i & j & s' & Hij & Hj & ?); exists i, j, s'; (split_and!; [done|by eapply Hlt|naive_solver..]).
Qed.
Lemma take_none n : (∀ i, (i < n)%nat → ¬ usableAt p i) → filter (usable p) (take n (Snapshots p)) = [].
Proof.
  intros Hno. destruct (filter _ _) as [|s l] eqn:Hf; [done|exfalso].
  assert (s ∈ filter (usable p) (take n (Snapshots p))) as [Hu Hin]%list_elem_of_filter by (rewrite Hf; by left).
  apply list_elem_of_lookup in Hin as [i Hi]. apply lookup_take_Some in Hi as [Hi ?]. apply (Hno i); [done|by exists s].
Qed.
Lemma take_some n i : (i < n)%nat → usableAt p i → (1 ≤ length (filter (usable p) (take n (Snapshots p))))%nat.
Proof.
  intros Hi (s & Hs & Hu). assert (s ∈ filter (usable p) (take n (Snapshots p))) as Hin.
  { apply list_elem_of_filter. split; [done|]. apply list_elem_of_lookup. exists i. by apply lookup_take_Some. }
  destruct (filter _ _); [by apply elem_of_nil in Hin|]. cbn. lia.
Qed.
Lemma Inv_first n st s : Inv n st → Snapshots p !! n = Some s → usable p s → prevIdx st = None →
  Inv (S n) (mkLoop (points st) (drifts st) (liveCompared st) (comparedIntervals st) (Some n)).
Proof.
  intros [HP HE HV HN HI HD HC HL] Hs Hu Hnone. pose proof (proj1 HN Hnone) as Hno.
  assert (usableAt p n) as Hua by (by rewrite (usableAt_iff _ _ Hs)).
  assert (∀ i j, neighbours p i j → (j < S n)%nat ↔ (j < n)%nat) as Hlt.
  { intros i j Hij. rewrite (neighbours_S _ _ _ _ Hs Hij). split; [|by left]. intros [?|[-> _]]; [done|]. destruct Hij as (? & Hi & _). by destruct (Hno i). }
  split; cbn [points drifts liveCompared comparedIntervals prevIdx].
  - done.
  - intros i pt Hpt. rewrite (HE _ _ Hpt). split; (intros [?|?]; [|by right]); [|left; lia].
    destruct (decide (i = n)) as [->|]; [by right|left; lia].
  - intros i. split.
    + intros [= <-]. split_and!; [lia|done|lia].
    + intros (Hi & Hui & Hk). destruct (decide (i = n)) as [->|]; [done|]. destruct (Hno i); [lia|done].
  - split; [done|]. intros Hk. by destruct (Hk n); [lia|].
  - intros i j Hij. rewrite (Hlt _ _ Hij). by apply HI.
  - intros e. rewrite HD. split; intros (i & j & es & Hij & Hj & ?); exists i, j, es; (split_and!; [done|by eapply Hlt|naive_solver..]).
  - rewrite HC, (take_usable _ _ Hs), decide_True, take_none by done. cbn. lia.
  - rewrite HL. split; intros (i & j & s' & Hij & Hj & ?); exists i, j, s'; (split_and!; [done|by eapply Hlt|naive_solver..]).
Qed.
Lemma Inv_compare n st s es i0 : Inv n st → Snapshots p !! n = Some s → usable p s → prevIdx st = Some i0 → intervalOf i0 n = Ok es →
  Inv (S n) (mkLoop (points st) (drifts st ++ es) (liveCompared st || bool_decide (Label (Header s) = LabelSourceLive)) (comparedIntervals st + 1) (Some n)).
Proof.
  intros [HP HE HV HN HI HD HC HL] Hs Hu Hprev Hes. pose proof (proj1 (HV _) Hprev) as (Hi0 & Hu0 & Hbetween).
  assert (usableAt p n) as Hua by (by rewrite (usableAt_iff _ _ Hs)).
  assert (neighbours p i0 n) as Hnb by done.
  assert (∀ i j, neighbours p i j → (j < S n)%nat ↔ (j < n)%nat ∨ (i = i0 ∧ j = n)) as Hlt.
  { intros i j Hij. rewrite (neighbours_S _ _ _ _ Hs Hij). split; (intros [?|[? ?]]; [by left|right]); subst; [|done].
    split; [by eapply neighbours_unique|done]. }
  split; cbn [points drifts liveCompared comparedIntervals prevIdx].
  - done.
  - intros i pt Hpt. rewrite (HE _ _ Hpt). split; (intros [?|?]; [|by right]); [|left; lia].
    destruct (decide (i = n)) as [->|]; [by right|left; lia].
  - intros i. split.
    + intros [= <-]. split_and!; [lia|done|lia].
    + intros (Hi & Hui & Hk). destruct (decide (i = n)) as [->|]; [done|]. destruct (Hk n); [lia|done].
  - split; [done|]. intros Hk. by destruct (Hk n); [lia|].
  - intros i j Hij. rewrite (Hlt _ _ Hij). intros [?|[-> ->]]; [by apply HI|by exists es].
  - intros e. rewrite elem_of_app, HD. split.
    + intros [(i & j & es' & Hij & Hj & ? & ?)|He]; [exists i, j, es'|exists i0, n, es]; (split_and!; [done|lia|done..]).
    + intros (i & j & es' & Hij & Hj & Hes' & He). apply (Hlt _ _ Hij) in Hj as [Hj|[-> ->]]; [left; by exists i, j, es'|right].
      rewrite Hes in Hes'. by injection Hes' as <-.
  - rewrite HC, (take_usable _ _ Hs), decide_True by done. pose proof (take_some _ _ Hi0 Hu0). lia.
  - rewrite orb_true_iff, bool_decide_eq_true, HL. split.
    + intros [(i & j & s' & Hij & Hj & ?)|He]; [exists i, j, s'|exists i0, n, s]; (split_and!; [done|lia|naive_solver..]).
    + intros (i & j & s' & Hij & Hj & Hs' & He). apply (Hlt _ _ Hij) in Hj as [Hj|[-> ->]]; [left; by exists i, j, s'|right].
      rewrite Hs in Hs'. by injection Hs' as <-.
Qed.
Lemma samePoint_label a b : samePoint a b → p_Label a = p_Label b.
Proof. destruct a, b. by intros [= ? ? ?]. Qed.
Lemma compareInterval_eq n st s c i0 : Inv n st → Snapshots p !! n = Some s → Content s = Some c →
  compareInterval sortSlice p st i0 n s c =
    (es ← intervalOf i0 n;
     Ok (mkLoop (points st) (drifts st ++ es) (liveCompared st || bool_decide (Label (Header s) = LabelSourceLive)) (comparedIntervals st + 1) (Some n))).
Proof.
  intros HI Hs Hc. unfold compareInterval, intervalOf. rewrite (samePoint_timing (points st)) by apply HI. rewrite Hs.
  destruct (Snapshots p !! i0) as [prev|] eqn:Hprev; [|done]. cbn [deref mbind result_bind].
  assert (∀ i s, Snapshots p !! i = Some s → ∃ pt, points st !! i = Some pt ∧ p_Label pt = p_Label (pointOf s)) as Hpt.
  { intros i x Hx. assert (timeline p !! i = Some (pointOf x)) as Ht by (unfold timeline; by rewrite list_lookup_fmap, Hx).
    destruct (Forall2_lookup_r _ _ _ _ _ (inv_points _ _ HI) Ht) as (pt & Hpt & ?). exists pt. split; [done|]. by apply samePoint_label. }
  destruct (Hpt _ _ Hprev) as (a & -> & Ha), (Hpt _ _ Hs) as (b & -> & Hb). cbn [deref mbind result_bind].
  assert (phaseFor a b = phaseFor (pointOf prev) (pointOf s)) as -> by (unfold phaseFor; by rewrite Ha, Hb).
  destruct (situationFor _ _ _ _) as [si| |]; cbn [mbind result_bind]; [|done..].
  destruct (Content prev) as [a'|]; [|done]. cbn [deref mbind result_bind]. rewrite Hc. cbn [deref mbind result_bind]. by destruct (mapM_result _ _).
Qed.
Lemma step_Inv n st s st' : Inv n st → Snapshots p !! n = Some s → step sortSlice p st (n, s) = Ok st' → Inv (S n) st'.
Proof.
  intros HI Hs. unfold step. destruct (Content s) as [c|] eqn:Hc.
  - destruct (decide _) as [Hm|Hm].
    + assert (usable p s) as Hu by (split; [by rewrite Hc|done]). destruct (prevIdx st) as [i0|] eqn:Hprev.
      * rewrite (compareInterval_eq _ _ _ _ _ HI Hs Hc), bind_Ok. intros (es & Hes & [= <-]). by apply (Inv_compare n st s es i0).
      * intros [= <-]. by apply (Inv_first n st s).
    + rewrite bind_Ok. intros (cs & _ & Hcs). apply bind_Ok in Hcs as (ms & _ & [= <-]). apply (Inv_skip n st s); [done..| |done]. by intros [_ ?].
  - intros [= <-]. apply (Inv_skip n st s); [done..| |done]. intros [[? ?] _]. congruence.
Qed.
Lemma loop_Inv st : foldM (step sortSlice p) (mkLoop (timeline p) [] false 0 None) (imap pair (Snapshots p)) = Ok st → Inv (length (Snapshots p)) st.
Proof.
  intros H. rewrite <- (length_imap pair). refine (foldM_prefix _ Inv _ _ _ Inv_init _ H).
  intros n [i s] st1 st2 Hn HI. rewrite list_lookup_imap in Hn. apply fmap_Some in Hn as (s' & Hs & [= -> ->]). by apply step_Inv.
Qed.

(** ** Lemmas: nothing fails *)
Definition knownExport : Prop := ExportType (d_MigrationInfo p) ∈ [""; SNAPSHOT_ONLY; SNAPSHOT_AND_CHANGES; CHANGES_ONLY].
Lemma situationFor_total i j : (i < length (Snapshots p))%nat → knownExport → ∃ s, situationFor (timeline p) i j (d_MigrationInfo p) = Ok s.
Proof.
  intros Hi Hk. unfold situationFor, timingFor. destruct (lookup_lt_is_Some_2 (timeline p) i) as [pt ->]; [by unfold timeline; rewrite length_fmap|].
  cbn [deref mbind result_bind]. destruct (isAfterCutover _ _); [by eexists|]. destruct (isBeforeExportData _ _) eqn:Hb; [by eexists|].
  repeat (destruct (decide _); [by eexists|]). exfalso. unfold knownExport in Hk.
  repeat (apply elem_of_cons in Hk as [Hk|Hk]; [|]); [|done..|by apply elem_of_nil in Hk].
  unfold isBeforeExportData in Hb. by rewrite decide_True in Hb.
Qed.
Lemma intervalOf_total i j : SortLaws sortSlice → knownExport → usableAt p i → usableAt p j → ∃ es, intervalOf i j = Ok es.
Proof.
  intros Hsort Hk (s & Hs & [[a Ha] _]) (s' & Hs' & [[b Hb] _]). unfold intervalOf. rewrite Hs, Hs'. cbn [deref mbind result_bind].
  destruct (situationFor_total i j (lookup_lt_Some _ _ _ Hs) Hk) as [si ->]. cbn [mbind result_bind]. rewrite Ha, Hb. cbn [deref mbind result_bind]. apply mapM_result_total, Forall_forall.
  intros d [Hd _]%elem_of_FilterByScope. apply newEntry_total. apply (elem_of_Diff _ Hsort) in Hd. pose proof (diffTables_identified a b) as H.
  rewrite Forall_forall in H. by apply H.
Qed.
Definition knownDatabase : Prop := s_DatabaseType (d_Source p) ∈ knownTypes.
Lemma displaySchemas_total l : knownDatabase → ∃ r, displaySchemas l (s_DatabaseType (d_Source p)) = Ok r.
Proof.
  intros H. apply mapM_result_total, Forall_forall. intros s _. destruct (NewIdentifier_known _ s H) as [i ->]. cbn. by eexists.
Qed.
Lemma step_total n st s : SortLaws sortSlice → knownDatabase → knownExport → Inv n st → Snapshots p !! n = Some s →
  ∃ st', step sortSlice p st (n, s) = Ok st'.
Proof.
  intros Hsort Hdb Hk HI Hs. unfold step. destruct (Content s) as [c|] eqn:Hc; [|by eexists]. destruct (decide _) as [Hm|Hm].
  - destruct (prevIdx st) as [i0|] eqn:Hprev; [|by eexists]. rewrite (compareInterval_eq n st s c i0 HI Hs Hc).
    apply (inv_prev _ _ HI) in Hprev as (_ & Hu & _).
    destruct (intervalOf_total i0 n Hsort Hk Hu) as [es ->]; [|by eexists]. exists s. split; [done|]. split; [by rewrite Hc|done].
  - destruct (displaySchemas_total (Schemas (Header s)) Hdb) as [cs ->].
    destruct (displaySchemas_total (missingSchemas (sc_Schemas (d_Scope p)) (Schemas (Header s))) Hdb) as [ms ->]. by eexists.
Qed.
Lemma BuildReport_inv now r : BuildReport sortSlice now p = Ok r → ∃ st, Inv (length (Snapshots p)) st ∧ Drifts r = drifts st ∧ CapturePoints r = points st ∧
  ChangeCount (rep_Summary r) = Z.of_nat (length (drifts st)) ∧ ComparedIntervalCount (rep_Summary r) = comparedIntervals st ∧
  LiveCompared (rep_Summary r) = liveCompared st.
Proof.
  unfold BuildReport. rewrite bind_Ok. intros (st & Hst & H). exists st. split; [by apply loop_Inv|].
  apply bind_Ok in H as (ss & _ & (ts & _ & [= <-])%bind_Ok). done.
Qed.
Lemma intervalOf_elem i j es e : intervalOf i j = Ok es → usableAt p i → usableAt p j →
  e ∈ es ↔ ∃ prev next a b d, Snapshots p !! i = Some prev ∧ Snapshots p !! j = Some next ∧ Content prev = Some a ∧ Content next = Some b ∧
    d ∈ Differ_Diff sortSlice (d_Scope p) a b ∧ intervalEntry p i j d e.
Proof.
  intros H (prev & Hp & [[a Ha] _]) (next & Hn & [[b Hb] _]). unfold intervalOf in H. rewrite Hp, Hn in H. cbn [deref mbind result_bind] in H.
  apply bind_Ok in H as (s & Hs & H). rewrite Ha, Hb in H. cbn [deref mbind result_bind] in H. apply mapM_result_Ok in H. split.
  - intros He. apply list_elem_of_lookup in He as [k Hk]. destruct (Forall2_lookup_r _ _ _ _ _ H Hk) as (d & Hd & Hde).
    exists prev, next, a, b, d. split_and!; [done..|by eapply list_elem_of_lookup_2|by econstructor].
  - intros (prev' & next' & a' & b' & d & Hp' & Hn' & Ha' & Hb' & Hd & [pr ne s' Hpr Hne Hs' Hde]). simplify_eq.
    rewrite Hs in Hs'. injection Hs' as <-.
    apply list_elem_of_lookup in Hd as [k Hk]. destruct (Forall2_lookup_l _ _ _ _ _ H Hk) as (e' & He' & Hde').
    rewrite Hde in Hde'. injection Hde' as <-. by eapply list_elem_of_lookup_2.
Qed.
End loop.

(** ** Lemmas: no change across a chain *)
Lemma sameBy_trans {T} (kA kB kC : T → string) (R R' R'' : T → T → Prop) as_ bs cs :
  (∀ a b c, R a b → R' b c → R'' a c) → sameBy kA kB R as_ bs → sameBy kB kC R' bs cs → sameBy kA kC R'' as_ cs.
Proof.
  intros HR [H1 H2] [H3 H4]. split.
  - intros a Ha. destruct (H1 a Ha) as (b & Hb & Hk & ?), (H3 b Hb) as (c & Hc & Hk' & ?). exists c. split_and!; [done|congruence|by eapply HR].
  - intros c Hc. destruct (H4 c Hc) as (b & Hb & Hk), (H2 b Hb) as (a & Ha & Hk'). exists a. split; [done|congruence].
Qed.
Lemma sameTable_trans kA kB kC lA lB lC tA tB tC :
  sameTable kA kB lA lB tA tB → sameTable kB kC lB lC tB tC → sameTable kA kC lA lC tA tC.
Proof.
  intros [H1 H2 H3 H4 H5 H6 H7] [G1 G2 G3 G4 G5 G6 G7]. split; [congruence..|by etrans| | |].
  - intros k. by rewrite H5.
  - intros k. by rewrite H6.
  - eapply sameBy_trans; [|done|done]. unfold sameColumn. intuition congruence.
Qed.
(** The tables and columns of two snapshots are the same. *)
Definition sameTablesOnly (a b : SnapshotContent) : Prop := sameTables a b (λ _ _, True).
Lemma sameTables_trans db a b c : DatabaseType a = db → DatabaseType b = db → DatabaseType c = db → stableIDs db db = true →
  sameTablesOnly a b → sameTablesOnly b c → sameTablesOnly a c.
Proof.
  intros Ha Hb Hc Hdb. unfold sameTablesOnly, sameTables. rewrite Ha, Hb, Hc. unfold tableKeys, columnKeys, chooseMatchKeys. rewrite Hdb. cbn [fst snd].
  apply sameBy_trans. intros tA tB tC [? _] [? _]. split; [by eapply sameTable_trans|done].
Qed.
Lemma sameSchema_tables a b : sameSchema a b → sameTablesOnly a b.
Proof. intros [H1 H2]. split; [|done]. intros t Ht. destruct (H1 t Ht) as (t' & ? & ? & ? & _). by exists t'. Qed.
#[global] Instance usableAt_dec p i : Decision (usableAt p i).
Proof.
  destruct (Snapshots p !! i) as [s|] eqn:Hs.
  - destruct (decide (usable p s)); [left; by exists s|right; by rewrite (usableAt_iff p i s Hs)].
  - right. intros (s & ? & _). congruence.
Defined.
Lemma last_usable p i n : usableAt p i → ∃ k, (i ≤ k ≤ i + n)%nat ∧ usableAt p k ∧ ∀ x, (k < x ≤ i + n)%nat → ¬ usableAt p x.
Proof.
  intros Hi. induction n as [|n (k & Hk & Hu & Hno)]; [exists i; split_and!; [lia|lia|done|lia]|].
  destruct (decide (usableAt p (i + S n)%nat)) as [H|H]; [exists (i + S n)%nat; split_and!; [lia|lia|done|lia]|].
  exists k. split_and!; [lia|lia|done|]. intros x Hx. destruct (decide (x = (i + S n)%nat)) as [->|]; [done|]. apply Hno. lia.
Qed.
Lemma neighbour_before p i j : (i < j)%nat → usableAt p i → usableAt p j → ∃ k, (i ≤ k)%nat ∧ neighbours p k j.
Proof.
  intros Hij Hi Hj. destruct (last_usable p i (j - 1 - i) Hi) as (k & Hk & Hu & Hno). exists k. split; [lia|].
  split_and!; [lia|done|done|]. intros x Hx. apply Hno. lia.
Qed.
Definition contentAt (p : DetectionConfig) (i : nat) : option SnapshotContent := Snapshots p !! i ≫= Content.
Lemma contentAt_Some p i a : contentAt p i = Some a ↔ ∃ s, Snapshots p !! i = Some s ∧ Content s = Some a.
Proof. unfold contentAt. by rewrite bind_Some. Qed.
Lemma usable_content p i : usableAt p i → ∃ a, contentAt p i = Some a.
Proof. intros (s & Hs & [[a Ha] _]). exists a. apply contentAt_Some. eauto. Qed.

Section theorems.
Context (sortSlice : (Difference → Difference → bool) → list Difference → list Difference) (p : DetectionConfig).
(** C21: The report compares each usable snapshot with the usable one before it, however many
    failed or narrower captures lie between, and with no other: its entries are the findings
    of these pairs within the scope, each with the window and phase of its pair, the timing
    the timeline gives it, and the guidance for it.  Every capture has its point, marked as
    excluded just when it was not usable, and the counters count what was compared. *)
Theorem report_compares_neighbours (now : Z) (r : Report) : BuildReport sortSlice now p = Ok r →
  (∀ e, e ∈ Drifts r ↔ ∃ i j a b d, neighbours p i j ∧ contentAt p i = Some a ∧ contentAt p j = Some b ∧
     d ∈ Differ_Diff sortSlice (d_Scope p) a b ∧ intervalEntry p i j d e) ∧
  length (CapturePoints r) = length (Snapshots p) ∧
  (∀ i pt, CapturePoints r !! i = Some pt → Excluded pt = "" ↔ usableAt p i) ∧
  ChangeCount (rep_Summary r) = Z.of_nat (length (Drifts r)) ∧
  ComparedIntervalCount (rep_Summary r) = Z.max 0 (Z.of_nat (length (filter (usable p) (Snapshots p))) - 1) ∧
  (LiveCompared (rep_Summary r) = true ↔
     ∃ i j s, neighbours p i j ∧ Snapshots p !! j = Some s ∧ Label (Header s) = LabelSourceLive).
Proof.
  intros (st & HI & HDr & HCp & HCh & HCo & HLi)%BuildReport_inv. rewrite HDr, HCp, HCh, HCo, HLi.
  assert (∀ i j, neighbours p i j → (j < length (Snapshots p))%nat) as Hlt by (intros i j (_ & _ & (s & Hs & _) & _); by eapply lookup_lt_Some).
  split_and!; [| | |done| |].
  - intros e. rewrite (inv_drifts _ _ _ _ HI). split.
    + intros (i & j & es & Hij & _ & Hes & He). pose proof Hij as (_ & Hi & Hj & _).
      apply (intervalOf_elem sortSlice p i j es e Hes Hi Hj) in He as (prev & next & a & b & d & Hp & Hn & Ha & Hb & Hd & He).
      exists i, j, a, b, d. split_and!; [done|apply contentAt_Some; eauto..|done|done].
    + intros (i & j & a & b & d & Hij & (prev & Hp & Ha)%contentAt_Some & (next & Hn & Hb)%contentAt_Some & Hd & He).
      destruct (inv_intervals _ _ _ _ HI i j Hij (Hlt _ _ Hij)) as [es Hes]. exists i, j, es. split_and!; [done|by eapply Hlt|done|].
      pose proof Hij as (_ & Hi & Hj & _). apply (intervalOf_elem sortSlice p i j es e Hes Hi Hj). by exists prev, next, a, b, d.
  - rewrite (Forall2_length _ _ _ (inv_points _ _ _ _ HI)). apply length_fmap.
  - intros i pt Hpt. rewrite (inv_excluded _ _ _ _ HI i pt Hpt). split; [|by right]. intros [Hi|?]; [|done].
    apply lookup_lt_Some in Hpt. rewrite (Forall2_length _ _ _ (inv_points _ _ _ _ HI)) in Hpt. unfold timeline in Hpt. rewrite length_fmap in Hpt. lia.
  - rewrite (inv_count _ _ _ _ HI), take_ge by done. done.
  - rewrite (inv_live _ _ _ _ HI). split; [intros (i & j & s & ? & _ & ? & ?); by exists i, j, s|].
    intros (i & j & s & Hij & ? & ?). exists i, j, s. split_and!; [done|by eapply Hlt|done..].
Qed.

(** The report is always built where the database and the recorded export type are
    known: no finding lacks an identity or guidance, and no snapshot a place.  With an
    export type it does not know there is no report as soon as a pair of snapshots is to be
    compared that lies neither before the export nor after the cutover. *)
Theorem report_is_built (now : Z) : SortLaws sortSlice → knownDatabase p →
  (knownExport p → ∃ r, BuildReport sortSlice now p = Ok r) ∧
  (∀ i j pt, ¬ knownExport p → neighbours p i j → timeline p !! i = Some pt → isAfterCutover pt (d_MigrationInfo p) = false →
     isBeforeExportData (drop j (timeline p)) (d_MigrationInfo p) = false → ∀ r, BuildReport sortSlice now p ≠ Ok r).
Proof.
  intros Hsort Hdb. split.
  - intros Hk. assert (∀ n, (n ≤ length (Snapshots p))%nat →
      ∃ st, foldM (step sortSlice p) (mkLoop (timeline p) [] false 0 None) (take n (imap pair (Snapshots p))) = Ok st ∧ Inv sortSlice p n st) as H.
    { induction n as [|n IH]; intros Hn; [eexists; split; [reflexivity|apply Inv_init]|]. destruct IH as (st & Hst & HI); [lia|].
      destruct (lookup_lt_is_Some_2 (Snapshots p) n) as [s Hs]; [lia|]. destruct (step_total sortSlice p n st s Hsort Hdb Hk HI Hs) as [st' Hst'].
      exists st'. rewrite (take_S_r _ n (n, s)) by (by rewrite list_lookup_imap, Hs). rewrite foldM_snoc, Hst. split; [done|]. by eapply step_Inv. }
    destruct (H _ (Nat.le_refl _)) as (st & Hst & _). rewrite take_ge in Hst by (by rewrite length_imap).
    unfold BuildReport. unfold timeline in Hst. rewrite Hst. cbn [mbind result_bind].
    destruct (displaySchemas_total p (sc_Schemas (d_Scope p)) Hdb) as [ss ->]. cbn [mbind result_bind].
    destruct (mapM_result_total (ObjectRef_ForDisplay (s_DatabaseType (d_Source p))) (sc_Tables (d_Scope p))) as [ts ->]; [|by eexists].
    apply Forall_forall. intros o _. unfold ObjectRef_ForDisplay. destruct (NewObjectName_known _ "" (Schema o) (Name o) Hdb) as [n ->]. by eexists.
  - intros i j pt Hk Hij Hpt Hcut Hbef r (st & HI & _)%BuildReport_inv.
    destruct (inv_intervals _ _ _ _ HI i j Hij) as [es Hes].
    { destruct Hij as (_ & _ & (s & Hs & _) & _). by eapply lookup_lt_Some. }
    destruct Hij as (_ & (s & Hs & _) & (s' & Hs' & _) & _). unfold intervalOf, situationFor, timingFor in Hes.
    rewrite Hs, Hs', Hpt in Hes. cbn [deref mbind result_bind] in Hes. rewrite Hcut, Hbef in Hes.
    apply Hk. unfold knownExport. repeat case_decide; try done; set_solver.
Qed.

Lemma interval_nil (st : loopState) i j a b : Inv sortSlice p (length (Snapshots p)) st → drifts st = [] → neighbours p i j →
  contentAt p i = Some a → contentAt p j = Some b → Differ_Diff sortSlice (d_Scope p) a b = [].
Proof.
  intros HI Hnil Hij (prev & Hp & Ha)%contentAt_Some (next & Hn & Hb)%contentAt_Some.
  destruct (inv_intervals _ _ _ _ HI i j Hij) as [es Hes]; [by eapply lookup_lt_Some|]. assert (es = []) as ->.
  { destruct es as [|e es]; [done|]. assert (e ∈ drifts st) as He.
    { apply (inv_drifts _ _ _ _ HI). exists i, j, (e :: es). split_and!; [done|by eapply lookup_lt_Some|done|by left]. }
    rewrite Hnil in He. by apply elem_of_nil in He. }
  unfold intervalOf in Hes. rewrite Hp, Hn in Hes. cbn [deref mbind result_bind] in Hes. apply bind_Ok in Hes as (s & _ & Hes).
  rewrite Ha, Hb in Hes. cbn [deref mbind result_bind] in Hes. apply mapM_result_Ok in Hes. by inversion Hes.
Qed.
Lemma no_drifts_iff (st : loopState) : Inv sortSlice p (length (Snapshots p)) st →
  drifts st = [] ↔ ∀ i j a b, neighbours p i j → contentAt p i = Some a → contentAt p j = Some b → Differ_Diff sortSlice (d_Scope p) a b = [].
Proof.
  intros HI. split; [intros Hnil i j a b; by apply (interval_nil st)|]. intros Hsame. destruct (drifts st) as [|e l] eqn:Hdr; [done|exfalso].
  assert (e ∈ drifts st) as (i & j & es & Hij & _ & Hes & He)%(inv_drifts _ _ _ _ HI) by (rewrite Hdr; by left).
  pose proof Hij as (_ & Hi & Hj & _).
  apply (intervalOf_elem sortSlice p i j es e Hes Hi Hj) in He as (prev & next & a & b & d & Hp & Hn & Ha & Hb & Hd & _).
  rewrite (Hsame i j a b Hij) in Hd by (apply contentAt_Some; eauto). by apply elem_of_nil in Hd.
Qed.
(** A report without a finding, over a scope that lists all that was captured, means what it
    says: no pair of usable snapshots compared differs, and the tables and columns of any two
    usable snapshots of the timeline, its first and last above all, are the same. *)
Lemma no_drift_no_change (now : Z) (r : Report) (db : string) : SortLaws sortSlice → BuildReport sortSlice now p = Ok r →
  stableIDs db db = true → coversTypes (d_Scope p) →
  (∀ k c, usableAt p k → contentAt p k = Some c → DatabaseType c = db ∧ wfTables (Tables c) ∧ covers (d_Scope p) c) →
  (Drifts r = [] ↔ ∀ i j a b, neighbours p i j → contentAt p i = Some a → contentAt p j = Some b → sameSchema a b) ∧
  (Drifts r = [] → ∀ i j a b, (i < j)%nat → usableAt p i → usableAt p j → contentAt p i = Some a → contentAt p j = Some b → sameTablesOnly a b).
Proof.
  intros Hsort (st & HI & -> & _)%BuildReport_inv Hdb Hct Hall. rewrite (no_drifts_iff st HI).
  assert (∀ i j a b, neighbours p i j → contentAt p i = Some a → contentAt p j = Some b →
    Differ_Diff sortSlice (d_Scope p) a b = [] ↔ sameSchema a b) as Hiff.
  { intros i j a b (_ & Hi & Hj & _) Ha Hb. destruct (Hall _ _ Hi Ha) as (Ea & Wa & Ca), (Hall _ _ Hj Hb) as (Eb & Wb & Cb).
    assert (sameEngine a b) as He by (unfold sameEngine; by rewrite Ea, Eb).
    rewrite (full_scope_all sortSlice (d_Scope p) a b) by done. apply no_finding_iff; [done|by apply wf_comparable]. }
  split; [split; intros H i j a b Hij Ha Hb; apply (Hiff i j a b Hij Ha Hb); by apply (H i j)|].
  intros Hnil i j. induction j as [j IH] using lt_wf_ind. intros a b Hij Hi Hj Ha Hb.
  destruct (neighbour_before p i j Hij Hi Hj) as (k & Hik & Hkj). pose proof Hkj as (Hk & Hu & _).
  destruct (usable_content p k Hu) as [c Hc]. assert (sameTablesOnly c b) as Hcb.
  { apply sameSchema_tables, (Hiff k j c b Hkj Hc Hb). by apply (Hnil k j). }
  destruct (decide (i = k)) as [->|Hne]; [by simplify_eq|].
  apply (sameTables_trans db a c b); [by apply (Hall i)|by apply (Hall k)|by apply (Hall j)|done| |done].
  apply (IH k); [lia|lia|done..].
Qed.
End theorems.

(** ** Concrete timelines *)
Definition sampleHeader (label reason : string) (at_ : Z) (schemas : list string) : SnapshotHeader :=
  mkHeader label reason "source" at_ "16.14" schemas false.
Definition sampleSource : Source := mkSource POSTGRESQL "localhost" 5432 "shop" "16.14".
(** The export starts after the first capture; a capture fails, another covers one schema only. *)
Definition sampleTimeline (live : SnapshotContent) : list SchemaSnapshot :=
  [mkSnapshot (sampleHeader LabelExportSchema "" 10 ["public"; "sales"]) (Some snapshotA);
   mkSnapshot (sampleHeader LabelExportDataFromSourceStart "initial" 20 ["public"; "sales"]) None;
   mkSnapshot (sampleHeader LabelExportDataFromSourcePeriodic "" 30 ["public"]) (Some snapshotA);
   mkSnapshot (sampleHeader LabelExportDataFromSourceExit "interrupt" 40 ["sales"; "public"]) (Some snapshotA);
   mkSnapshot (sampleHeader LabelSourceLive "" 50 ["public"; "sales"]) (Some live)].
Definition sampleScope : Scope := mkScope ["public"; "sales"] [ref ordersA; ref itemsA] allTypes.
Definition sampleConfig (exportType : string) (live : SnapshotContent) : DetectionConfig :=
  mkConfig sampleSource (sampleTimeline live) sampleScope (mkMigrationInfo exportType None false).
Definition sampleReport (exportType : string) (live : SnapshotContent) : option Report :=
  match BuildReport mergeSlice 60 (sampleConfig exportType live) with Ok r => Some r | _ => None end.
Example sample_report : option_map (λ r, (map (λ e, (r_Type (e_Diff e), Phase e, Severity_ (e_Info e))) (Drifts r), map Excluded (CapturePoints r), rep_Summary r))
    (sampleReport SNAPSHOT_AND_CHANGES snapshotB) =
  Some ([(TableDropped, "since last capture", SeverityBreaksUnrecoverable); (TableNameChanged, "since last capture", SeverityBreaksUnrecoverable);
         (TableSchemaChanged, "since last capture", SeverityBreaksUnrecoverable); (ColumnTypeChanged, "since last capture", SeverityPotentialImpact);
         (ColumnDropped, "since last capture", SeverityPotentialImpact)],
        [""; captureFailed; "captured only public, so it cannot answer for sales"; ""; ""], mkSummary 5 2 4 true).
Proof. vm_compute. reflexivity. Qed.
Lemma sample_usable (exportType : string) (live : SnapshotContent) (i : nat) :
  (i < 5)%nat → usableAt (sampleConfig exportType live) i ↔ i ∈ [0; 3; 4]%nat.
Proof.
  intros Hi. destruct i as [|[|[|[|[|i]]]]]; [..|lia]; (etrans; [by apply usableAt_iff|]).
  2-3: split; [intros [[? Hc] Hm]; first [discriminate Hc|vm_compute in Hm; discriminate Hm]|intros Hin; exfalso; revert Hin; decided].
  all: split; [intros _; decided|intros _; split; [by eexists|vm_compute; reflexivity]].
Qed.
Lemma covers_check scope s :
  forallb (λ t, bool_decide (ref t ∈ sc_Tables scope) && bool_decide (Schema (ref t) ∈ sc_Schemas scope)) (Tables s) = true → covers scope s.
Proof.
  rewrite forallb_forall. intros H t Ht. specialize (H t (proj1 (list_elem_of_In _ _) Ht)).
  by rewrite andb_true_iff, !bool_decide_eq_true in H.
Qed.
Lemma sample_neighbours exportType live : neighbours (sampleConfig exportType live) 3 4.
Proof. split_and!; [lia|apply sample_usable; [lia|decided]..|lia]. Qed.
Lemma report_compares_neighbours_witness : ∃ r, BuildReport mergeSlice 60 (sampleConfig SNAPSHOT_AND_CHANGES snapshotB) = Ok r ∧
  ComparedIntervalCount (rep_Summary r) = 2 ∧ ChangeCount (rep_Summary r) = 5 ∧
  (∀ pt, CapturePoints r !! 2%nat = Some pt → Excluded pt ≠ "").
Proof.
  destruct (BuildReport mergeSlice 60 (sampleConfig SNAPSHOT_AND_CHANGES snapshotB)) as [r| |] eqn:Hr; [|vm_compute in Hr; discriminate..].
  pose proof (report_compares_neighbours mergeSlice (sampleConfig SNAPSHOT_AND_CHANGES snapshotB) 60 r Hr) as (_ & _ & He & Hch & Hco & _).
  exists r. split; [done|]. split; [by rewrite Hco; vm_compute|]. split.
  - rewrite Hch. vm_compute in Hr. injection Hr as <-. vm_compute. reflexivity.
  - intros pt Hpt Hex. apply (He 2%nat pt Hpt), sample_usable in Hex; [revert Hex; decided|lia].
Defined.
Lemma report_is_built_witness : (∃ r, BuildReport mergeSlice 60 (sampleConfig CHANGES_ONLY snapshotB) = Ok r) ∧
  (∀ r, BuildReport mergeSlice 60 (sampleConfig "offline" snapshotB) ≠ Ok r).
Proof.
  assert (∀ e, knownDatabase (sampleConfig e snapshotB)) as Hdb by (intros e; unfold knownDatabase; decided).
  split.
  - apply (report_is_built mergeSlice (sampleConfig CHANGES_ONLY snapshotB) 60 mergeSlice_laws (Hdb _)). unfold knownExport. decided.
  - refine (proj2 (report_is_built mergeSlice (sampleConfig "offline" snapshotB) 60 mergeSlice_laws (Hdb _)) 3%nat 4%nat
      (mkPoint LabelExportDataFromSourceExit "interrupt" 40 "") _ (sample_neighbours _ _) eq_refl _ _); [|vm_compute; reflexivity..].
    unfold knownExport. decided.
Defined.
Example no_drift_sample : ∃ r, BuildReport mergeSlice 60 (sampleConfig SNAPSHOT_AND_CHANGES snapshotA) = Ok r ∧ sameTablesOnly snapshotA snapshotA.
Proof.
  destruct (BuildReport mergeSlice 60 (sampleConfig SNAPSHOT_AND_CHANGES snapshotA)) as [r| |] eqn:Hr; [|vm_compute in Hr; discriminate..].
  exists r. split; [done|].
  refine (proj2 (no_drift_no_change mergeSlice (sampleConfig SNAPSHOT_AND_CHANGES snapshotA) 60 r POSTGRESQL mergeSlice_laws Hr eq_refl _ _) _ 0%nat 4%nat
    snapshotA snapshotA _ _ _ eq_refl eq_refl).
  - intros []; decided.
  - intros k c (s & Hk & _) Hc. pose proof (lookup_lt_Some _ _ _ Hk) as Hlt. cbn in Hlt.
    assert (c = snapshotA) as -> by (destruct k as [|[|[|[|[|k]]]]]; [cbn in Hc; congruence..|lia]).
    split; [done|]. split; [apply sample_wf|]. apply covers_check. vm_compute. reflexivity.
  - vm_compute in Hr. injection Hr as <-. reflexivity.
  - lia.
  - apply sample_usable; [lia|decided].
  - apply sample_usable; [lia|decided].
Qed.
End SchemaDrift.
