(* ===== verification/TablePatterns.v ===== *)
(** * Table lists (src/yb-voyager/src/utils/sqlname/nametuple.go: MatchesPattern;
    cmd/exportData.go: extractTableListFromString; src/utils/utils.go: CsvStringToSlice)

    The patterns a user lists tables by.  A pattern is matched by [filepath.Match] of the
    standard library, which is modelled as it works: the pattern is cut at its stars, and
    each piece is taken at the leftmost place where it fits. *)
From S2P Require Import Prelude SqlName.
Import SqlName.

Module TablePatterns.
(** ** Glob patterns *)
(** A literal, [?], or a class of ranges, perhaps negated. *)
Inductive term : Type := Lit (c : ascii) | AnyChar | Class (negated : bool) (ranges : list (ascii * ascii)).
Inductive token : Type := Star | Term (t : term).
(** The reader of a pattern, a character at a time. *)
Inductive mode : Type :=
  | InPattern | AfterBackslash | ClassStart
  | RangeLo (negated : bool) (ranges : list (ascii * ascii)) | RangeLoEscaped (negated : bool) (ranges : list (ascii * ascii))
  | AfterLo (negated : bool) (ranges : list (ascii * ascii)) (lo : ascii)
  | RangeHi (negated : bool) (ranges : list (ascii * ascii)) (lo : ascii)
  | RangeHiEscaped (negated : bool) (ranges : list (ascii * ascii)) (lo : ascii).
Definition BACKSLASH : ascii := ascii_of_nat 92.
Definition readLo (negated : bool) (ranges : list (ascii * ascii)) (c : ascii) : option (mode * list token) :=
  if bool_decide (c = "]"%char) && negb (bool_decide (ranges = [])) then Some (InPattern, [Term (Class negated ranges)])
  else if bool_decide (c = "-"%char) || bool_decide (c = "]"%char) then None
  else if decide (c = BACKSLASH) then Some (RangeLoEscaped negated ranges, [])
  else Some (AfterLo negated ranges c, []).
Definition readChar (m : mode) (c : ascii) : option (mode * list token) :=
  match m with
  | InPattern =>
      if decide (c = "*"%char) then Some (InPattern, [Star])
      else if decide (c = "?"%char) then Some (InPattern, [Term AnyChar])
      else if decide (c = "["%char) then Some (ClassStart, [])
      else if decide (c = BACKSLASH) then Some (AfterBackslash, [])
      else Some (InPattern, [Term (Lit c)])
  | AfterBackslash => Some (InPattern, [Term (Lit c)])
  | ClassStart => if decide (c = "^"%char) then Some (RangeLo true [], []) else readLo false [] c
  | RangeLo negated ranges => readLo negated ranges c
  | RangeLoEscaped negated ranges => Some (AfterLo negated ranges c, [])
  | AfterLo negated ranges lo =>
      if decide (c = "-"%char) then Some (RangeHi negated ranges lo, []) else readLo negated (ranges ++ [(lo, lo)]) c
  | RangeHi negated ranges lo =>
      if bool_decide (c = "-"%char) || bool_decide (c = "]"%char) then None
      else if decide (c = BACKSLASH) then Some (RangeHiEscaped negated ranges lo, [])
      else Some (RangeLo negated (ranges ++ [(lo, c)]), [])
  | RangeHiEscaped negated ranges lo => Some (RangeLo negated (ranges ++ [(lo, c)]), [])
  end.
(** [None] is [ErrBadPattern]: the pattern ends within an escape or a class. *)
Fixpoint readPattern (m : mode) (pattern : string) : option (list token) :=
  match pattern with
  | "" => match m with InPattern => Some [] | _ => None end
  | String c pattern => '(m, ts) ← readChar m c; rest ← readPattern m pattern; Some (ts ++ rest)
  end.
(** [scanChunk]: the pieces between stars, each with whether a star comes before it. *)
Fixpoint scanChunks (star : bool) (chunk : list term) (ts : list token) : list (bool * list term) :=
  match ts with
  | [] => if star || negb (length chunk =? 0)%nat then [(star, chunk)] else []
  | Star :: ts => (if (length chunk =? 0)%nat then [] else [(star, chunk)]) ++ scanChunks true [] ts
  | Term t :: ts => scanChunks star (chunk ++ [t]) ts
  end.
Definition in_range (c : ascii) (r : ascii * ascii) : bool :=
  (nat_of_ascii r.1 <=? nat_of_ascii c)%nat && (nat_of_ascii c <=? nat_of_ascii r.2)%nat.
Definition matchTerm (t : term) (c : ascii) : bool :=
  match t with
  | Lit d => bool_decide (c = d)
  | AnyChar => bool_decide (c ≠ "/"%char)
  | Class negated ranges => negb (Bool.eqb (existsb (in_range c) ranges) negated)
  end.
(** [matchChunk]: what is left of a name that begins as the piece says. *)
Fixpoint matchChunk (chunk : list term) (name : string) : option string :=
  match chunk, name with
  | [], _ => Some name
  | t :: chunk, String c name => if matchTerm t c then matchChunk chunk name else None
  | _ :: _, "" => None
  end.
(** The first place at which a piece fits; the last piece must end the name. *)
Definition fits (isLast : bool) (chunk : list term) (name : string) : option string :=
  match matchChunk chunk name with
  | Some t => if isLast && negb (bool_decide (t = "")) then None else Some t
  | None => None
  end.
Fixpoint seek (isLast : bool) (chunk : list term) (name : string) : option string :=
  match fits isLast chunk name with
  | Some t => Some t
  | None => match name with
            | "" => None
            | String c name => if decide (c = "/"%char) then None else seek isLast chunk name
            end
  end.
Fixpoint matchChunks (chunks : list (bool * list term)) (name : string) : bool :=
  match chunks with
  | [] => bool_decide (name = "")
  | (star, chunk) :: chunks =>
      let isLast := (length chunks =? 0)%nat in
      if star && (length chunk =? 0)%nat then negb (str_has "/" name)
      else match (if star then seek isLast chunk name else fits isLast chunk name) with
           | Some t => matchChunks chunks t
           | None => false
           end
  end.
Definition Match (pattern name : string) : option bool :=
  ts ← readPattern InPattern pattern; Some (matchChunks (scanChunks false [] ts) name).

(** ** Names and patterns *)
Definition ObjectName_MatchesPattern (nv : ObjectName) (pattern : string) : result bool :=
  let byTable (pattern : string) : result bool :=
    match Match (ToLower pattern) (ToLower (Unquoted (Unqualified nv))) with
    | None => Err ("invalid pattern: " +:+ pattern)
    | Some true => Ok true
    | Some false => match Match pattern (Quoted (Unqualified nv)) with
                    | None => Err ("invalid pattern: " +:+ pattern)
                    | Some b => Ok b
                    end
    end in
  match Split "." pattern with
  | [schema; table] =>
      if bool_decide (schema ≠ Quoted (SchemaName nv)) && negb (EqualFold schema (Unquoted (SchemaName nv))) then Ok false else byTable table
  | [table] => if FromDefaultSchema nv then byTable table else Ok false
  | _ => Err ("invalid pattern: " +:+ pattern)
  end.
Fixpoint matchesAny (names : list (option ObjectName)) (pattern : string) : result bool :=
  match names with
  | [] => Ok false
  | None :: names => matchesAny names pattern
  | Some n :: names => m ← ObjectName_MatchesPattern n pattern; if (m : bool) then Ok true else matchesAny names pattern
  end.
Definition NameTuple_MatchesPattern (t : NameTuple) (pattern : string) : result bool :=
  matchesAny [nt_SourceName t; nt_TargetName t] pattern.

(** ** Lists of patterns *)
Definition CsvStringToSlice (str : string) : list string := filter (λ s, s ≠ "") (map TrimSpace (Split "," str)).
Definition errIn {A} (context : string) (r : result A) : result A :=
  match r with Err e => Err (context +:+ ": " +:+ e) | r => r end.
Definition findPatternMatchingTables (fullTableList : list NameTuple) (pattern : string) : result (list NameTuple) :=
  foldM (λ matched tableName,
    ok ← errIn ("invalid table name pattern " +:+ pattern) (NameTuple_MatchesPattern tableName pattern);
    Ok (if (ok : bool) then matched ++ [tableName] else matched)) [] fullTableList.
(** [lo.UniqBy] *)
Fixpoint uniqBy {A} (key : A → string) (seen : gset string) (l : list A) : list A :=
  match l with
  | [] => []
  | x :: l => if decide (key x ∈ seen) then uniqBy key seen l else x :: uniqBy key ({[key x]} ∪ seen) l
  end.
Definition extractTableListFromString (fullTableList : list NameTuple) (flagTableList listName : string) : result (list NameTuple) :=
  if decide (flagTableList = "") then Ok [] else
  '(result, unknownTableNames) ← foldM (λ '(result, unknownTableNames) pattern,
      tables ← findPatternMatchingTables fullTableList pattern;
      Ok (result ++ tables, if (length tables =? 0)%nat then unknownTableNames ++ [pattern] else unknownTableNames))
    ([], []) (CsvStringToSlice flagTableList);
  if (0 <? length unknownTableNames)%nat then
    known ← mapM_result ForOutput fullTableList;
    Err ("Unknown table names in the " +:+ listName +:+ " list: [" +:+ Join " " unknownTableNames +:+ "] Valid table names are: [" +:+ Join " " known +:+ "]")
  else Ok (uniqBy ForKey ∅ result).

(** ** The meaning of a pattern *)
Inductive globs : list token → string → Prop :=
  | globs_nil : globs [] ""
  | globs_skip ts s : globs ts s → globs (Star :: ts) s
  | globs_take ts c s : c ≠ "/"%char → globs (Star :: ts) s → globs (Star :: ts) (String c s)
  | globs_term t ts c s : matchTerm t c = true → globs ts s → globs (Term t :: ts) (String c s).
Lemma globs_star ts s : globs (Star :: ts) s ↔ globs ts s ∨ ∃ c s', s = String c s' ∧ c ≠ "/"%char ∧ globs (Star :: ts) s'.
Proof.
  split.
  - inversion 1; subst; [by left|right; eauto].
  - intros [?|(c & s' & -> & ? & ?)]; by constructor.
Qed.
Lemma globs_star_star ts s : globs (Star :: Star :: ts) s ↔ globs (Star :: ts) s.
Proof.
  split; [|by apply globs_skip]. induction s as [|c s IH]; rewrite (globs_star (Star :: ts)); intros [?|(d & s' & Hs & ? & ?)]; try done.
  injection Hs as <- <-. apply globs_take; [done|by apply IH].
Qed.
Lemma globs_terms chunk ts s : globs (map Term chunk ++ ts) s ↔ ∃ t, matchChunk chunk s = Some t ∧ globs ts t.
Proof.
  revert s. induction chunk as [|x chunk IH]; intros s; cbn.
  - split; [by exists s|]. by intros (t & [= <-] & ?).
  - destruct s as [|c s]; [split; [by inversion 1|by intros (? & ? & _)]|]. split.
    + inversion 1 as [| | |? ? ? ? Hx Hs]; subst. rewrite Hx. by apply IH.
    + destruct (matchTerm x c) eqn:Hx; [|by intros (? & ? & _)]. intros H. apply globs_term; [done|by apply IH].
Qed.
Lemma no_slash_tail c s : str_has "/" (String c s) = false → str_has "/" s = false.
Proof. rewrite str_has_cons. by intros [_ ?]%orb_false_iff. Qed.
(** [s'] is what is left of [s] once some characters, none of them a slash, are skipped. *)
Inductive suffix : string → string → Prop :=
  | suffix_refl s : suffix s s
  | suffix_cons c s s' : c ≠ "/"%char → suffix s s' → suffix (String c s) s'.
Lemma globs_suffix ts s s' : suffix s s' → globs (Star :: ts) s' → globs (Star :: ts) s.
Proof. induction 1; [done|]. intros ?. apply globs_take; auto. Qed.
Lemma globs_find ts s : globs (Star :: ts) s ↔ ∃ s', suffix s s' ∧ globs ts s'.
Proof.
  split.
  - remember (Star :: ts) as l eqn:Hl. induction 1 as [|? s H|? c s Hc H IH|]; simplify_eq; [by exists s; split; [constructor|]|].
    destruct IH as (s' & ? & ?); [done|]. exists s'. split; [by constructor|done].
  - intros (s' & Hs & H). eapply globs_suffix; [done|]. by apply globs_skip.
Qed.
Lemma matchChunk_suffix chunk s s' t t' : str_has "/" s = false → suffix s s' →
  matchChunk chunk s = Some t → matchChunk chunk s' = Some t' → suffix t t'.
Proof.
  assert (∀ s t, str_has "/" s = false → matchChunk chunk s = Some t → suffix s t ∧ String.length s = (length chunk + String.length t)%nat) as Hlen.
  { clear. induction chunk as [|x chunk IH]; intros s t Hs; cbn; [intros [= <-]; by split; [constructor|]|]. destruct s as [|c s]; [done|].
    rewrite str_has_cons, orb_false_iff, bool_decide_eq_false in Hs. destruct Hs as [Hc Hs].
    destruct (matchTerm x c); [|done]. intros H. destruct (IH _ _ Hs H) as [? ?]. split; [by constructor|cbn; lia]. }
  assert (∀ s s', suffix s s' → (String.length s' ≤ String.length s)%nat ∧ (str_has "/" s = false → str_has "/" s' = false)) as Hle.
  { clear. induction 1 as [|c s s' Hc _ [IH IH']]; [done|]. split; [cbn; lia|]. rewrite str_has_cons, orb_false_iff. intros [_ ?]. auto. }
  assert (∀ s a b, suffix s a → suffix s b → (String.length b ≤ String.length a)%nat → suffix a b) as Htot.
  { clear -Hle. intros s a b Ha. revert b. induction Ha as [s|c s a Hc Ha IH]; intros b Hb Hl; [done|].
    inversion Hb as [|? ? ? ? Hb']; subst; [destruct (Hle _ _ Ha) as [? _]; cbn in Hl; lia|]. apply IH; [done|cbn in Hl; lia]. }
  assert (∀ a b c, suffix a b → suffix b c → suffix a c) as Htr by (clear; induction 1; [done|]; intros; constructor; auto).
  intros Hs Hss Ht Ht'. destruct (Hle _ _ Hss) as [Hl Hs'].
  destruct (Hlen _ _ Hs Ht) as [H1 H2], (Hlen _ _ (Hs' Hs) Ht') as [H3 H4]. apply (Htot s); [done|by apply (Htr s s')|lia].
Qed.
Lemma suffix_no_slash s s' : suffix s s' → str_has "/" s = false → str_has "/" s' = false.
Proof. induction 1 as [|c s s' Hc _ IH]; [done|]. rewrite str_has_cons, orb_false_iff. intros [_ ?]. auto. Qed.
Lemma matchChunk_no_slash chunk s t : str_has "/" s = false → matchChunk chunk s = Some t → str_has "/" t = false.
Proof.
  revert s. induction chunk as [|x chunk IH]; intros s Hs; cbn; [by intros [= <-]|]. destruct s as [|c s]; [done|].
  rewrite str_has_cons in Hs. apply orb_false_iff in Hs as [_ Hs]. destruct (matchTerm x c); [|done]. by apply IH.
Qed.
Lemma fits_no_slash isLast chunk s t : str_has "/" s = false → fits isLast chunk s = Some t → str_has "/" t = false.
Proof.
  intros Hs. unfold fits. destruct (matchChunk chunk s) eqn:Hm; [|done]. destruct (isLast && _); [done|]. intros [= <-]. by eapply matchChunk_no_slash.
Qed.
Lemma seek_no_slash isLast chunk s t : str_has "/" s = false → seek isLast chunk s = Some t → str_has "/" t = false.
Proof.
  induction s as [|c s IH]; intros Hs; cbn [seek]; (destruct (fits _ _ _) eqn:Hf; [intros [= <-]; by apply (fits_no_slash isLast chunk _ _ Hs Hf)|]); [done|].
  rewrite str_has_cons in Hs. apply orb_false_iff in Hs as [_ Hs]. case_decide; [done|]. by apply IH.
Qed.
(** The leftmost place is as good as any: what comes after a star may skip more. *)
Lemma seek_globs (isLast : bool) chunk (ts : list token) name : str_has "/" name = false → (if isLast then ts = [] else ∃ ts', ts = Star :: ts') →
  globs (Star :: map Term chunk ++ ts) name ↔ ∃ t, seek isLast chunk name = Some t ∧ globs ts t.
Proof.
  intros Hn Hts. rewrite globs_find. setoid_rewrite globs_terms.
  assert (∀ t, isLast = true → globs ts t → t = "") as Hend by (intros t -> H; subst ts; by inversion H). split.
  - intros (s' & Hs' & t' & Ht' & Hg). induction Hs' as [s|c s s' Hc Hs' IH].
    + destruct s; cbn [seek]; unfold fits; rewrite Ht'; (destruct isLast; cbn [andb]; [|by exists t']);
        assert (t' = "") as -> by (by apply Hend); rewrite bool_decide_true by done; by exists "".
    + cbn [seek]. unfold fits. destruct (matchChunk chunk (String c s)) as [t|] eqn:Ht.
      * destruct (isLast && negb (bool_decide (t = ""))) eqn:Hb.
        -- rewrite decide_False by done. apply IH; [|done]. by eapply no_slash_tail.
        -- exists t. split; [done|]. destruct isLast.
           ++ cbn in Hb. apply negb_false_iff, bool_decide_eq_true in Hb as ->. by rewrite (Hend t') in Hg.
           ++ destruct Hts as [ts' ->]. eapply globs_suffix; [|done]. eapply (matchChunk_suffix chunk); [done| |done..]. by constructor.
      * rewrite decide_False by done. apply IH; [|done]. by eapply no_slash_tail.
  - intros (t & Ht & Hg). revert Ht. assert (∀ s, fits isLast chunk s = Some t → matchChunk chunk s = Some t) as Hfit.
    { intros s. unfold fits. destruct (matchChunk chunk s); [|done]. by destruct (isLast && _). }
    induction name as [|c s IH]; cbn [seek].
    + destruct (fits isLast chunk "") eqn:Hf; [|done]. intros [= ->]. exists "". split; [constructor|]. exists t. split; [by apply Hfit|done].
    + destruct (fits isLast chunk (String c s)) eqn:Hf.
      * intros [= ->]. exists (String c s). split; [constructor|]. exists t. split; [by apply Hfit|done].
      * destruct (decide _) as [|Hc]; [done|]. intros H. destruct IH as (s' & ? & ?); [|done|].
        -- by eapply no_slash_tail.
        -- exists s'. split; [by constructor|done].
Qed.
Lemma fits_globs (isLast : bool) chunk (ts : list token) name : (if isLast then ts = [] else True) →
  globs (map Term chunk ++ ts) name ↔ ∃ t, fits isLast chunk name = Some t ∧ globs ts t.
Proof.
  intros Hts. rewrite globs_terms. unfold fits. destruct (matchChunk chunk name) as [t|]; [|naive_solver].
  destruct isLast; [|naive_solver]. subst ts. cbn. destruct (decide (t = "")) as [->|Hne]; [rewrite bool_decide_true by done; naive_solver|].
  rewrite bool_decide_false by done. cbn. split; [|naive_solver]. intros (? & [= <-] & H). by inversion H.
Qed.
Lemma globs_all name : str_has "/" name = false → globs [Star] name.
Proof.
  induction name as [|c s IH]; [intros _; apply globs_skip; constructor|]. rewrite str_has_cons, orb_false_iff, bool_decide_eq_false. intros [? ?].
  apply globs_take; auto.
Qed.
Lemma scanChunks_nil star chunk ts : scanChunks star chunk ts = [] → star = false ∧ chunk = [] ∧ ts = [].
Proof.
  revert star chunk. induction ts as [|[|t] ts IH]; intros star chunk; cbn.
  - destruct star, chunk; done.
  - destruct (length chunk =? 0)%nat; [|done]. cbn. intros H. by apply IH in H as [? _].
  - intros (_ & H & _)%IH. by destruct chunk.
Qed.
(** One piece, given what is known of the rest. *)
Lemma piece_globs star chunk ts rest name : str_has "/" name = false → (star = true ∨ chunk ≠ []) → (chunk = [] → ts = []) →
  (rest = [] ↔ ts = []) → (ts ≠ [] → ∃ ts', ts = Star :: ts') →
  (∀ t, str_has "/" t = false → matchChunks rest t = true ↔ globs ts t) →
  matchChunks ((star, chunk) :: rest) name = true ↔ globs ((if star then [Star] else []) ++ map Term chunk ++ ts) name.
Proof.
  intros Hn Hsc Hct Hnil Hst IH. cbn [matchChunks].
  assert ((length rest =? 0)%nat = bool_decide (ts = [])) as ->.
  { destruct rest as [|x rest]; cbn; [by rewrite bool_decide_true by (by apply Hnil)|]. rewrite bool_decide_false; [done|]. by intros ?%Hnil. }
  destruct (decide (chunk = [])) as [->|Hc].
  - destruct star; [|by destruct Hsc]. rewrite (Hct eq_refl). cbn. rewrite Hn. cbn. split; [intros _; by apply globs_all|done].
  - rewrite (proj2 (Nat.eqb_neq (length chunk) 0)), andb_false_r by (by destruct chunk).
    assert (∀ o : option string, (∀ t, o = Some t → str_has "/" t = false) →
      match o with Some t => matchChunks rest t | None => false end = true ↔ ∃ t, o = Some t ∧ globs ts t) as Ho.
    { intros [t|] Ht; [|by split; [|intros (? & ? & _)]]. rewrite (IH t) by (by apply Ht). naive_solver. }
    destruct star; cbn [app]; rewrite Ho.
    + symmetry. apply seek_globs; [done|]. case_bool_decide; auto.
    + intros t. by apply seek_no_slash.
    + symmetry. apply fits_globs. by case_bool_decide.
    + intros t. by apply fits_no_slash.
Qed.
Lemma matchChunks_globs ts : ∀ star chunk name, str_has "/" name = false →
  matchChunks (scanChunks star chunk ts) name = true ↔ globs ((if star then [Star] else []) ++ map Term chunk ++ ts) name.
Proof.
  induction ts as [|[|t] ts IH]; intros star chunk name Hn; cbn [scanChunks].
  - destruct (star || negb (length chunk =? 0)%nat) eqn:Hb.
    + apply piece_globs; [done| |done|done|done|].
      * apply orb_true_iff in Hb as [?|Hb]; [by left|right]. by destruct chunk.
      * intros t _. cbn. rewrite bool_decide_eq_true. split; [intros ->; constructor|by inversion 1].
    + apply orb_false_iff in Hb as [-> Hb]. destruct chunk; [|done]. cbn. rewrite bool_decide_eq_true. split; [intros ->; constructor|by inversion 1].
  - destruct chunk as [|x chunk]; cbn [length Nat.eqb app map].
    + rewrite (IH true [] name Hn). destruct star; cbn; [by rewrite globs_star_star|done].
    + apply (piece_globs star (x :: chunk)); [done|by right|done| |by eexists|].
      * split; [|done]. by intros (? & _)%scanChunks_nil.
      * intros s Hs. by rewrite (IH true [] s Hs).
  - rewrite (IH star (chunk ++ [t]) name Hn), map_app, <- app_assoc. done.
Qed.
(** Matching at the leftmost place is matching: a name without a slash is matched by a
    well-formed pattern exactly when the pattern's stars can be filled in some way. *)
Theorem Match_iff_globs (pattern name : string) (ts : list token) : readPattern InPattern pattern = Some ts → str_has "/" name = false →
  Match pattern name = Some true ↔ globs ts name.
Proof.
  intros Hts Hn. unfold Match. rewrite Hts. cbn. rewrite <- (matchChunks_globs ts false [] name Hn). split; [by intros [= ->]|by intros ->].
Qed.

(** ** Lemmas: table lists *)
Lemma elem_of_uniqBy {A} (key : A → string) l : ∀ seen x, x ∈ uniqBy key seen l → x ∈ l ∧ key x ∉ seen.
Proof.
  induction l as [|y l IH]; intros seen x; cbn; [by intros ?%elem_of_nil|]. destruct (decide _) as [Hs|Hs].
  - intros [? ?]%IH. split; [by right|done].
  - intros [->|Hx]%elem_of_cons; [by split; [left|]|]. apply IH in Hx as [? Hn]. split; [by right|set_solver].
Qed.
Lemma uniqBy_NoDup {A} (key : A → string) l : ∀ seen, NoDup (map key (uniqBy key seen l)).
Proof.
  induction l as [|y l IH]; intros seen; cbn; [constructor|]. destruct (decide _); [done|]. cbn. constructor; [|done].
  intros (x & Hk & Hx)%list_elem_of_fmap. apply elem_of_uniqBy in Hx as [_ Hx]. set_solver.
Qed.
Lemma uniqBy_key {A} (key : A → string) l : ∀ seen x, x ∈ l → key x ∈ seen ∨ key x ∈ map key (uniqBy key seen l).
Proof.
  induction l as [|y l IH]; intros seen x; [by intros ?%elem_of_nil|]. cbn. intros [->|Hx]%elem_of_cons.
  - destruct (decide _); [by left|right; by left].
  - destruct (decide _); [by apply IH|]. destruct (IH ({[key y]} ∪ seen) x Hx) as [H|H]; [|right; by right].
    apply elem_of_union in H as [->%elem_of_singleton|?]; [right; by left|by left].
Qed.
Lemma errIn_Ok {A} c (r : result A) a : errIn c r = Ok a ↔ r = Ok a.
Proof. by destruct r. Qed.
Lemma findPattern_spec full p l : findPatternMatchingTables full p = Ok l →
  ∀ t, t ∈ l ↔ t ∈ full ∧ NameTuple_MatchesPattern t p = Ok true.
Proof.
  unfold findPatternMatchingTables. revert l. induction full as [|x full IH] using rev_ind; intros l.
  - intros [= <-] t. split; [by intros ?%elem_of_nil|by intros [?%elem_of_nil _]].
  - rewrite foldM_snoc, bind_Ok. intros (l1 & H1 & (ok & Hok%errIn_Ok & [= <-])%bind_Ok) t. specialize (IH _ H1 t).
    rewrite (elem_of_app full). destruct ok; rewrite ?elem_of_app, ?IH, list_elem_of_singleton; split; try naive_solver.
    intros [[?| ->] ?]; [done|congruence].
Qed.
Lemma extract_spec full flag listName l : extractTableListFromString full flag listName = Ok l → flag ≠ "" →
  NoDup (map ForKey l) ∧
  (∀ t, t ∈ l → t ∈ full ∧ ∃ p, p ∈ CsvStringToSlice flag ∧ NameTuple_MatchesPattern t p = Ok true) ∧
  (∀ t p, t ∈ full → p ∈ CsvStringToSlice flag → NameTuple_MatchesPattern t p = Ok true → ForKey t ∈ map ForKey l) ∧
  (∀ p, p ∈ CsvStringToSlice flag → ∃ t, t ∈ full ∧ NameTuple_MatchesPattern t p = Ok true).
Proof.
  unfold extractTableListFromString. intros H Hne. rewrite decide_False in H by done. apply bind_Ok in H as ([found unknown] & Hf & H).
  destruct (0 <? length unknown)%nat eqn:Hu; [by apply bind_Ok in H as (? & _ & ?)|]. injection H as <-.
  assert (unknown = []) as -> by (by destruct unknown). clear Hu.
  assert ((∀ t, t ∈ found ↔ t ∈ full ∧ ∃ p, p ∈ CsvStringToSlice flag ∧ NameTuple_MatchesPattern t p = Ok true) ∧
    ∀ p, p ∈ CsvStringToSlice flag → ∃ t, t ∈ full ∧ NameTuple_MatchesPattern t p = Ok true) as [H1 H2].
  { remember [] as unknown eqn:Hun in Hf. clear Hne. revert found unknown Hun Hf. generalize (CsvStringToSlice flag) as ps.
    induction ps as [|p ps IH] using rev_ind; intros found unknown ->.
    - intros [= <-]. split; [|by intros ? ?%elem_of_nil]. intros t. split; [by intros ?%elem_of_nil|by intros (_ & ? & ?%elem_of_nil & _)].
    - rewrite foldM_snoc, bind_Ok. intros ([found1 unknown1] & Hf1 & (ts & Hts & Hst)%bind_Ok).
      pose proof (findPattern_spec _ _ _ Hts) as Hp. injection Hst as <- Hun.
      assert (unknown1 = [] ∧ ts ≠ []) as [-> Hne] by (by destruct ts, unknown1).
      destruct (IH _ _ eq_refl Hf1) as [IH1 IH2]. split.
      + intros t. rewrite elem_of_app, IH1, Hp. setoid_rewrite elem_of_app. setoid_rewrite list_elem_of_singleton. naive_solver.
      + intros q [Hq| ->%list_elem_of_singleton]%elem_of_app; [by apply IH2|]. destruct ts as [|t ts]; [done|]. exists t. apply Hp. by left. }
  split_and!; [apply uniqBy_NoDup| | |done].
  - intros t [Ht _]%elem_of_uniqBy. by apply H1.
  - intros t p Ht Hp Hm. destruct (uniqBy_key ForKey found ∅ t) as [?|?]; [apply H1; eauto|set_solver|done].
Qed.
(** A table list selects exactly what it names: when it is accepted, every pattern matched
    some table, and the result has, once each, the tables that match one of the patterns. *)
Theorem table_list_selects (full : list NameTuple) (flag listName : string) (l : list NameTuple) :
  extractTableListFromString full flag listName = Ok l → flag ≠ "" → NoDup (map ForKey full) →
  NoDup l ∧ (∀ t, t ∈ l ↔ t ∈ full ∧ ∃ p, p ∈ CsvStringToSlice flag ∧ NameTuple_MatchesPattern t p = Ok true) ∧
  (∀ p, p ∈ CsvStringToSlice flag → ∃ t, t ∈ l ∧ NameTuple_MatchesPattern t p = Ok true).
Proof.
  intros H Hne Hnd. destruct (extract_spec _ _ _ _ H Hne) as (Hk & H1 & H2 & H3).
  assert (∀ a b, a ∈ full → b ∈ full → ForKey a = ForKey b → a = b) as Hinj.
  { intros a b Ha Hb Hab. apply list_elem_of_lookup in Ha as [i Hi]. apply list_elem_of_lookup in Hb as [j Hj].
    assert (i = j) as ->; [|congruence]. eapply NoDup_lookup; [exact Hnd|..]; rewrite list_lookup_fmap; [by rewrite Hi|rewrite Hj; cbn; by rewrite Hab]. }
  assert (∀ t p, t ∈ full → p ∈ CsvStringToSlice flag → NameTuple_MatchesPattern t p = Ok true → t ∈ l) as Hin.
  { intros t p Ht Hp Hm. pose proof (H2 t p Ht Hp Hm) as (t' & Htt & Ht')%list_elem_of_fmap.
    rewrite (Hinj t t' Ht) by (first [by apply H1|done]). done. }
  split_and!.
  - by eapply NoDup_fmap_1.
  - intros t. split; [by apply H1|]. intros (Ht & p & Hp & Hm). by apply (Hin t p).
  - intros p Hp. destruct (H3 p Hp) as (t & Ht & Hm). exists t. split; [by apply (Hin t p)|done].
Qed.

(** ** Concrete patterns *)
Example match_star : Match "ord*s" "orders" = Some true ∧ Match "a*b?c" "axxbbyc" = Some true ∧ Match "[^a-c]x" "bx" = Some false ∧
  Match "[a-" "b" = None ∧ Match "*[^x]*b" "aa/b" = Some false ∧ Match "" "" = Some true.
Proof. vm_compute. repeat split. Qed.
Lemma Match_iff_globs_witness : globs [Term (Lit "o"%char); Star; Term (Lit "s"%char)] "orders".
Proof. apply (Match_iff_globs "o*s" "orders"); vm_compute; reflexivity. Defined.
Definition tupleOf_ (schema name : string) : NameTuple :=
  match NewObjectName POSTGRESQL "public" schema name with Ok n => mkNameTuple (Some n) (Some n) None | _ => NIL_NAME_TUPLE end.
Definition sampleTables : list NameTuple := [tupleOf_ "public" "orders"; tupleOf_ "sales" "Orders"; tupleOf_ "public" "items"].
Lemma table_list_selects_witness :
  (∀ t, t ∈ [tupleOf_ "public" "orders"; tupleOf_ "sales" "Orders"] ↔ t ∈ sampleTables ∧
     ∃ p, p ∈ ["ORD*"; "sales.*"] ∧ NameTuple_MatchesPattern t p = Ok true) ∧
  extractTableListFromString sampleTables " ORD* ,, sales.*" "include" = Ok [tupleOf_ "public" "orders"; tupleOf_ "sales" "Orders"].
Proof.
  split; [|vm_compute; reflexivity].
  apply (table_list_selects sampleTables " ORD* ,, sales.*" "include" [tupleOf_ "public" "orders"; tupleOf_ "sales" "Orders"]);
    [vm_compute; reflexivity|done|decided].
Defined.
End TablePatterns.
