(* ===== verification/DriftScope.v ===== *)
(** * The scope of a drift check (cmd/detectDrift.go: scope resolution)

    Which tables, schemas and kinds of objects a check compares: the tables any snapshot
    holds, as the name registry lists them, narrowed by table lists, with the partitions of
    each listed table, and by object types. *)
From S2P Require Import Prelude SqlName Event SchemaSnapshot SchemaDiff NameReg TablePatterns.
Import SqlName SchemaSnapshot SchemaDiff TablePatterns.

Module DriftScope.
(** ** Flags *)
Definition normalizeDriftListFlag (raw : string) : string := Join "," (CsvStringToSlice raw).
Definition driftObjectTypesByName (name : string) : option ObjectType :=
  if decide (name = "TABLE") then Some ObjectTypeTable else if decide (name = "COLUMN") then Some ObjectTypeColumn
  else if decide (name = "CONSTRAINT") then Some ObjectTypeConstraint else if decide (name = "INDEX") then Some ObjectTypeIndex else None.
Definition allDriftObjectTypes : list ObjectType := [ObjectTypeTable; ObjectTypeColumn; ObjectTypeConstraint; ObjectTypeIndex].
(** [lo.Uniq] *)
Definition uniq {A} `{EqDecision A} (l : list A) : list A := foldl (λ out x, if decide (x ∈ out) then out else out ++ [x]) [] l.
Definition parseDriftObjectTypeList (raw : string) : result (list ObjectType) :=
  if decide (TrimSpace raw = "") then Ok [] else
  let '(out, invalid) := foldl (λ '(out, invalid) p,
      match driftObjectTypesByName (ToUpper p) with Some ot => (out ++ [ot], invalid) | None => (out, invalid ++ [p]) end)
    ([], []) (CsvStringToSlice raw) in
  if (0 <? length invalid)%nat then Err ("unknown object type(s) [" +:+ Join " " invalid +:+ "]; supported types: TABLE, COLUMN, CONSTRAINT, INDEX")
  else Ok (uniq out).

(** ** The tables and partitions of all snapshots *)
Definition contents (snapshotContents : list (option SnapshotContent)) (liveContent : option SnapshotContent) : list Table :=
  flat_map (λ c, match c with Some c => Tables c | None => [] end) (snapshotContents ++ [liveContent]).
(** Per schema the names, in the order they are first seen. *)
Definition addName (st : gmap string (gset string) * gmap string (list string)) (t : Table)
    : gmap string (gset string) * gmap string (list string) :=
  let '(seen, universe) := st in
  let schema := Schema (ref t) in
  let name := Name (ref t) in
  let known := default ∅ (seen !! schema) in
  if decide (name ∈ known) then (seen, universe)
  else (<[schema := {[name]} ∪ known]> seen, <[schema := default [] (universe !! schema) ++ [name]]> universe).
Definition driftTableUniverse (snapshotContents : list (option SnapshotContent)) (liveContent : option SnapshotContent)
    : gmap string (list string) := (foldl addName (∅, ∅) (contents snapshotContents liveContent)).2.
Definition addChild (parent : ObjectRef) (st : gmap ObjectRef (gset ObjectRef) * gmap ObjectRef (list ObjectRef)) (child : ObjectRef)
    : gmap ObjectRef (gset ObjectRef) * gmap ObjectRef (list ObjectRef) :=
  let '(seen, children) := st in
  let known := default ∅ (seen !! parent) in
  if decide (child ∈ known) then (seen, children)
  else (<[parent := {[child]} ∪ known]> seen, <[parent := default [] (children !! parent) ++ [child]]> children).
Definition driftPartitionChildren (snapshotContents : list (option SnapshotContent)) (liveContent : option SnapshotContent)
    : gmap ObjectRef (list ObjectRef) :=
  (foldl (λ st t, foldl (addChild (ref t)) st (PartitionChildren t)) (∅, ∅) (contents snapshotContents liveContent)).2.
Definition childrenOf (children : gmap ObjectRef (list ObjectRef)) (r : ObjectRef) : list ObjectRef := default [] (children !! r).

(** The depth-first walk; [fuel] bounds the depth. *)
Fixpoint visit (fuel : nat) (children : gmap ObjectRef (list ObjectRef)) (st : gset ObjectRef * list ObjectRef) (r : ObjectRef)
    : gset ObjectRef * list ObjectRef :=
  match fuel with
  | O => st
  | S fuel => if decide (r ∈ st.1) then st else foldl (visit fuel children) ({[r]} ∪ st.1, st.2 ++ [r]) (childrenOf children r)
  end.
(** Every table the walk can come to. *)
Definition nodes (refs : list ObjectRef) (children : gmap ObjectRef (list ObjectRef)) : gset ObjectRef :=
  list_to_set (refs ++ flat_map (λ p : ObjectRef * list ObjectRef, p.2) (map_to_list children)).
Definition expandDriftPartitions (refs : list ObjectRef) (children : gmap ObjectRef (list ObjectRef)) : list ObjectRef :=
  (foldl (visit (S (size (nodes refs children))) children) (∅, []) refs).2.

(** ** Scope *)
Definition driftObjectRefs (tuples : list NameTuple) : result (list ObjectRef) :=
  mapM_result (λ t, n ← deref (nt_SourceName t); Ok (mkObjectRef (Unquoted (SchemaName n)) (Unquoted (Unqualified n)))) tuples.
Definition requireDriftTableListQualified (patternList flagName : string) (hasDefaultSchema : bool) : result unit :=
  if hasDefaultSchema then Ok () else
  match List.find (λ pattern, negb (str_has "." pattern)) (CsvStringToSlice patternList) with
  | Some pattern => Err ("--" +:+ flagName +:+ " entry " +:+ pattern +:+ " is not schema-qualified, and --source-db-schema names no " +:+
                         "default schema (no public); write it as schema.table")
  | None => Ok ()
  end.
Definition complementDriftTableRefs (universe exclude : list ObjectRef) : list ObjectRef :=
  let excludeSet : gset ObjectRef := list_to_set exclude in filter (λ r, r ∉ excludeSet) universe.
Definition complementDriftObjectTypes (exclude : list ObjectType) : list ObjectType :=
  let excludeSet : gset ObjectType := list_to_set exclude in filter (λ t, t ∉ excludeSet) allDriftObjectTypes.
Record driftScopeFilters : Type := mkFilters {
  tableList : string; excludeTableList : string; objectTypes : list ObjectType; excludeObjectTypes : list ObjectType }.
Definition sort_tuples : list NameTuple → list NameTuple := merge_sort (λ a b, String.le (ForKey a) (ForKey b)).
Definition resolveTables (filters : driftScopeFilters) (allTuples : list NameTuple) (allRefs : list ObjectRef) (hasDefaultSchema : bool)
    (partitionChildren : gmap ObjectRef (list ObjectRef)) : result (list ObjectRef) :=
  if decide (tableList filters ≠ "") then
    _ ← requireDriftTableListQualified (tableList filters) "table-list" hasDefaultSchema;
    includeTuples ← extractTableListFromString allTuples (tableList filters) "include";
    refs ← driftObjectRefs includeTuples;
    Ok (expandDriftPartitions refs partitionChildren)
  else if decide (excludeTableList filters ≠ "") then
    _ ← requireDriftTableListQualified (excludeTableList filters) "exclude-table-list" hasDefaultSchema;
    excludeTuples ← extractTableListFromString allTuples (excludeTableList filters) "exclude";
    refs ← driftObjectRefs excludeTuples;
    let includeTables := complementDriftTableRefs allRefs (expandDriftPartitions refs partitionChildren) in
    if decide (includeTables = [])
    then Err ("--exclude-table-list " +:+ excludeTableList filters +:+ " excludes every table in the comparison; nothing left to compare")
    else Ok includeTables
  else Ok allRefs.
Definition resolveObjectTypes (filters : driftScopeFilters) : result (list ObjectType) :=
  if decide (excludeObjectTypes filters ≠ []) then
    let types := complementDriftObjectTypes (excludeObjectTypes filters) in
    if decide (types = []) then Err "--exclude-object-type-list excludes every supported object type (TABLE, COLUMN, CONSTRAINT, INDEX); nothing left to compare"
    else Ok types
  else if decide (objectTypes filters = []) then Ok allDriftObjectTypes else Ok (objectTypes filters).
(** The registry lists the tables in the order of its map; they are sorted by key. *)
Definition resolveDriftScope (dbType : string) (snapshots : list SchemaSnapshot) (live : option SchemaSnapshot) (schemas : list string)
    (filters : driftScopeFilters) : result Scope :=
  let snapshotContents := map Content snapshots in
  let liveContent := live ≫= Content in
  let universe := driftTableUniverse snapshotContents liveContent in
  let reg := NameReg.NewInMemorySourceNameRegistry dbType schemas (Some universe) in
  tuples ← NameReg.to_result (NameReg.GetRegisteredTableList reg false);
  let allTuples := sort_tuples tuples in
  allRefs ← driftObjectRefs allTuples;
  let hasDefaultSchema := bool_decide (NameReg.DefaultSourceDBSchemaName (NameReg.names reg) ≠ "") in
  let partitionChildren := driftPartitionChildren snapshotContents liveContent in
  includeTables ← resolveTables filters allTuples allRefs hasDefaultSchema partitionChildren;
  types ← resolveObjectTypes filters;
  Ok (mkScope schemas includeTables types).

(** ** Lemmas: partitions *)
Section partitions.
Context (children : gmap ObjectRef (list ObjectRef)).
Definition child (p c : ObjectRef) : Prop := c ∈ childrenOf children p.
(** From one state of the walk to a later one: what is new is reachable from [rs], is
    listed once, and has all its children with it. *)
Record walked (rs : list ObjectRef) (st st' : gset ObjectRef * list ObjectRef) : Prop := {
  walked_sub : st.1 ⊆ st'.1;
  walked_new : ∃ l, st'.2 = st.2 ++ l ∧ NoDup l ∧ ∀ x, x ∈ l ↔ x ∈ st'.1 ∧ x ∉ st.1;
  walked_all r : r ∈ rs → r ∈ st'.1;
  walked_closed x c : x ∈ st'.1 → x ∉ st.1 → child x c → c ∈ st'.1;
  walked_reach x : x ∈ st'.1 → x ∉ st.1 → ∃ r, r ∈ rs ∧ rtc child r x }.
Lemma walked_nil st : walked [] st st.
Proof. split; [done|exists []; split_and!; [by rewrite app_nil_r|constructor|]|by intros ? ?%elem_of_nil|done|done]. intros x. split; [by intros ?%elem_of_nil|by intros []]. Qed.
Lemma walked_app rs rs' st st' st'' : walked rs st st' → walked rs' st' st'' → walked (rs ++ rs') st st''.
Proof.
  intros [H1 (l & Hl & Hnd & Hin) H3 H4 H5] [G1 (l' & Hl' & Hnd' & Hin') G3 G4 G5].
  assert (∀ x, x ∈ st''.1 → x ∉ st.1 → (x ∈ st'.1 ∧ x ∉ st.1) ∨ (x ∈ st''.1 ∧ x ∉ st'.1)) as Hcase.
  { intros x Hx Hn. destruct (decide (x ∈ st'.1)); [by left|by right]. }
  split.
  - set_solver.
  - exists (l ++ l'). split_and!; [by rewrite Hl', Hl, app_assoc| |].
    + apply NoDup_app. split_and!; [done| |done]. intros x Hx Hx'. apply Hin in Hx as [? _]. by apply Hin' in Hx' as [_ ?].
    + intros x. rewrite elem_of_app, Hin, Hin'. split; [|intros [? ?]; by apply Hcase]. intros [[? ?]|[? ?]]; (split; [set_solver|set_solver]).
  - intros r [?|?]%elem_of_app; [by apply G1, H3|by apply G3].
  - intros x c Hx Hn Hc. destruct (Hcase x Hx Hn) as [[? ?]|[? ?]]; [by apply G1, (H4 x)|by apply (G4 x)].
  - intros x Hx Hn. destruct (Hcase x Hx Hn) as [[? ?]|[? ?]]; [destruct (H5 x) as (r & ? & ?)|destruct (G5 x) as (r & ? & ?)]; [done..| |done|done|];
      exists r; (split; [apply elem_of_app; auto|done]).
Qed.
Lemma fold_walked (f : gset ObjectRef * list ObjectRef → ObjectRef → gset ObjectRef * list ObjectRef) (P : gset ObjectRef → Prop) rs :
  (∀ st st' r, P st.1 → walked [r] st st' → P st'.1) → (∀ st r, r ∈ rs → P st.1 → walked [r] st (f st r)) →
  ∀ st, P st.1 → walked rs st (foldl f st rs).
Proof.
  intros HP Hf. induction rs as [|r rs IH]; intros st Hst; [apply walked_nil|]. cbn [foldl].
  assert (walked [r] st (f st r)) as Hr by (apply Hf; [by left|done]).
  apply (walked_app [r] rs st (f st r)); [done|]. apply IH; [|by apply (HP st _ r)]. intros. apply Hf; [by right|done].
Qed.
(** The fuel is enough for the tables not yet seen. *)
Lemma visit_walked (U : gset ObjectRef) : (∀ x c, x ∈ U → child x c → c ∈ U) →
  ∀ fuel st r, r ∈ U → (size (U ∖ st.1) < fuel)%nat → walked [r] st (visit fuel children st r).
Proof.
  intros HU. induction fuel as [|fuel IH]; intros st r Hr Hfuel; [lia|]. cbn [visit]. destruct (decide (r ∈ st.1)) as [Hs|Hs].
  - split; [done|exists []; split_and!; [by rewrite app_nil_r|constructor|]| |done|done].
    + intros x. split; [by intros ?%elem_of_nil|by intros []].
    + by intros ? ->%list_elem_of_singleton.
  - set (st1 := ({[r]} ∪ st.1, st.2 ++ [r])).
    assert (walked (childrenOf children r) st1 (foldl (visit fuel children) st1 (childrenOf children r))) as [H1 (l & Hl & Hnd & Hin) H3 H4 H5].
    { assert (size (U ∖ st1.1) < fuel)%nat as Hlt.
      { assert (U ∖ st1.1 ⊂ U ∖ st.1) as Hsub%subset_size; [|lia]. cbn. split; [set_solver|]. intros H. specialize (H r). set_solver. }
      apply (fold_walked _ (λ s, (size (U ∖ s) < fuel)%nat)); [| |done].
      - intros s s' x Hs' [Hsub _ _ _ _]. eapply Nat.le_lt_trans; [|exact Hs']. apply subseteq_size. set_solver.
      - intros s x Hx Hs'. apply IH; [by apply (HU r)|done]. }
    cbn [st1 fst snd] in *. split.
    + set_solver.
    + exists (r :: l). split_and!; [by rewrite Hl, <- app_assoc| |].
      * constructor; [|done]. intros [_ ?]%Hin. set_solver.
      * intros x. rewrite elem_of_cons, Hin. split; [intros [->|[? ?]]; split; set_solver|]. intros [? ?]. destruct (decide (x = r)); [by left|right; set_solver].
    + intros x ->%list_elem_of_singleton. set_solver.
    + intros x c Hx Hn Hc. destruct (decide (x = r)) as [->|Hne]; [by apply H3|]. apply (H4 x); [done|set_solver|done].
    + intros x Hx Hn. exists r. split; [by left|]. destruct (decide (x = r)) as [->|Hne]; [done|].
      destruct (H5 x) as (c & Hc & Hcx); [done|set_solver|]. by eapply rtc_l.
Qed.
Lemma nodes_closed refs x c : x ∈ nodes refs children → child x c → c ∈ nodes refs children.
Proof.
  intros _ Hc. unfold nodes. apply elem_of_list_to_set, elem_of_app. right. unfold child, childrenOf in Hc.
  destruct (children !! x) as [l|] eqn:Hx; [|by apply elem_of_nil in Hc]. apply list_elem_of_In, in_flat_map. exists (x, l).
  split; [by apply list_elem_of_In, elem_of_map_to_list|by apply list_elem_of_In].
Qed.
Lemma expand_spec refs : NoDup (expandDriftPartitions refs children) ∧
  ∀ x, x ∈ expandDriftPartitions refs children ↔ ∃ r, r ∈ refs ∧ rtc child r x.
Proof.
  unfold expandDriftPartitions. set (U := nodes refs children). set (out := foldl _ _ _).
  assert (walked refs (∅, []) out) as [_ (l & Hl & Hnd & Hin) H3 H4 H5].
  { apply (fold_walked _ (λ s, (size (U ∖ s) < S (size U))%nat)).
    - intros s s' x Hs' [Hsub _ _ _ _]. eapply Nat.le_lt_trans; [|exact Hs']. apply subseteq_size. set_solver.
    - intros s x Hx Hs. apply (visit_walked U); [apply nodes_closed| |done]. apply elem_of_list_to_set, elem_of_app. by left.
    - cbn. rewrite difference_empty_L. lia. }
  cbn [fst snd] in *. rewrite Hl. cbn [app]. split; [done|]. intros x. rewrite Hin. split.
  - intros [Hx Hn]. by apply H5.
  - intros (r & Hr & Hrx). split; [|set_solver]. assert (r ∈ out.1) as Hro by (by apply H3). clear Hr. induction Hrx as [|r c x Hrc _ IH]; [done|].
    apply IH, (H4 r); [done|set_solver|done].
Qed.
End partitions.

(** ** Lemmas: the universe *)
Definition namesOf (m : gmap string (list string)) (s : string) : list string := default [] (m !! s).
Lemma universe_spec snaps live s n :
  (n ∈ namesOf (driftTableUniverse snaps live) s ↔ ∃ t, t ∈ contents snaps live ∧ ref t = mkObjectRef s n) ∧
  (is_Some (driftTableUniverse snaps live !! s) ↔ ∃ t, t ∈ contents snaps live ∧ Schema (ref t) = s).
Proof.
  unfold driftTableUniverse. generalize (contents snaps live) as ts. intros ts. set (st := foldl addName (∅, ∅) ts).
  assert ((∀ s n, n ∈ default ∅ (st.1 !! s) ↔ n ∈ namesOf st.2 s) ∧ (∀ s n, n ∈ namesOf st.2 s ↔ ∃ t, t ∈ ts ∧ ref t = mkObjectRef s n) ∧
    ∀ s, is_Some (st.2 !! s) ↔ ∃ t, t ∈ ts ∧ Schema (ref t) = s) as (_ & H1 & H2); [|by split].
  subst st. induction ts as [|t ts IH] using rev_ind.
  - cbn. unfold namesOf. split_and!; intros; rewrite !lookup_empty; cbn; (split; [try (intros []%elem_of_nil || intros [? ?] || set_solver)|]); try set_solver;
      try (intros [? ?]; done); intros (? & ?%elem_of_nil & _); done.
  - rewrite foldl_app. cbn [foldl]. destruct (foldl addName (∅, ∅) ts) as [seen universe]. cbn [fst snd] in IH. destruct IH as (I1 & I2 & I3).
    assert (∀ s n, (∃ t0, t0 ∈ ts ++ [t] ∧ ref t0 = mkObjectRef s n) ↔ (∃ t0, t0 ∈ ts ∧ ref t0 = mkObjectRef s n) ∨ ref t = mkObjectRef s n) as Hs.
    { intros s' n'. setoid_rewrite elem_of_app. setoid_rewrite list_elem_of_singleton. naive_solver. }
    assert (∀ s, (∃ t0, t0 ∈ ts ++ [t] ∧ Schema (ref t0) = s) ↔ (∃ t0, t0 ∈ ts ∧ Schema (ref t0) = s) ∨ Schema (ref t) = s) as Hk.
    { intros s'. setoid_rewrite elem_of_app. setoid_rewrite list_elem_of_singleton. naive_solver. }
    unfold addName. destruct (decide _) as [Hin|Hnin]; cbn [fst snd].
    + split_and!; [done| |].
      * intros s' n'. rewrite Hs, <- I2. split; [by left|]. intros [?|Ht]; [done|]. rewrite <- I1. by rewrite Ht in Hin.
      * intros s'. rewrite Hk, <- I3. split; [by left|]. intros [?|<-]; [done|]. apply I3.
        apply I1, I2 in Hin as (t0 & Ht0 & Hr). exists t0. split; [done|by rewrite Hr].
    + assert (∀ s n, n ∈ namesOf (<[Schema (ref t) := default [] (universe !! Schema (ref t)) ++ [Name (ref t)]]> universe) s ↔
        n ∈ namesOf universe s ∨ ref t = mkObjectRef s n) as Hn.
      { intros s' n'. unfold namesOf. destruct (decide (Schema (ref t) = s')) as [<-|Hne].
        - rewrite lookup_insert_eq. cbn. rewrite elem_of_app, list_elem_of_singleton. destruct (ref t); cbn. naive_solver.
        - rewrite lookup_insert_ne by done. split; [by left|]. intros [?|Ht]; [done|]. by rewrite Ht in Hne. }
      split_and!.
      * intros s' n'. rewrite Hn, <- I1. destruct (decide (Schema (ref t) = s')) as [<-|Hne].
        -- rewrite lookup_insert_eq. cbn. rewrite elem_of_union, elem_of_singleton. destruct (ref t); cbn. naive_solver.
        -- rewrite lookup_insert_ne by done. split; [by left|]. intros [?|Ht]; [done|]. by rewrite Ht in Hne.
      * intros s' n'. by rewrite Hn, I2, Hs.
      * intros s'. rewrite Hk, <- I3. destruct (decide (Schema (ref t) = s')) as [<-|Hne].
        -- rewrite lookup_insert_eq. split; [by right|by eexists].
        -- rewrite lookup_insert_ne by done. split; [by left|]. by intros [?|?].
Qed.
Lemma partition_spec snaps live p c : c ∈ childrenOf (driftPartitionChildren snaps live) p ↔
  ∃ t, t ∈ contents snaps live ∧ ref t = p ∧ c ∈ PartitionChildren t.
Proof.
  unfold driftPartitionChildren, childrenOf.
  assert (∀ pr cs st, (∀ p c, c ∈ default ∅ (st.1 !! p) ↔ c ∈ default [] (st.2 !! p)) →
    (∀ p c, c ∈ default ∅ ((foldl (addChild pr) st cs).1 !! p) ↔ c ∈ default [] ((foldl (addChild pr) st cs).2 !! p)) ∧
    ∀ p c, c ∈ default [] ((foldl (addChild pr) st cs).2 !! p) ↔ c ∈ default [] (st.2 !! p) ∨ (pr = p ∧ c ∈ cs)) as Hone.
  { intros pr cs. induction cs as [|x cs IH]; intros st Hst; cbn [foldl]; [split; [done|]; intros; set_solver|].
    assert ((∀ p c, c ∈ default ∅ ((addChild pr st x).1 !! p) ↔ c ∈ default [] ((addChild pr st x).2 !! p)) ∧
      ∀ p c, c ∈ default [] ((addChild pr st x).2 !! p) ↔ c ∈ default [] (st.2 !! p) ∨ (pr = p ∧ c = x)) as [A1 A2].
    { destruct st as [seen ch]. cbn [fst snd] in Hst. unfold addChild. destruct (decide _) as [Hin|Hn]; cbn [fst snd].
      - split; [done|]. intros p' c'. split; [by left|]. intros [?|[<- ->]]; [done|]. by apply Hst.
      - split; intros p' c'; (destruct (decide (pr = p')) as [<-|Hne]; [rewrite ?lookup_insert_eq|rewrite ?lookup_insert_ne by done]); cbn.
        + rewrite elem_of_union, elem_of_singleton, elem_of_app, list_elem_of_singleton, Hst. tauto.
        + apply Hst.
        + rewrite elem_of_app, list_elem_of_singleton. tauto.
        + tauto. }
    destruct (IH _ A1) as [B1 B2]. split; [done|]. intros p' c'. rewrite B2, A2, elem_of_cons. tauto. }
  generalize (contents snaps live) as ts. intros ts.
  assert (∀ st, (∀ p c, c ∈ default ∅ (st.1 !! p) ↔ c ∈ default [] (st.2 !! p)) → ∀ p c,
    c ∈ default [] ((foldl (λ st t, foldl (addChild (ref t)) st (PartitionChildren t)) st ts).2 !! p) ↔
    c ∈ default [] (st.2 !! p) ∨ ∃ t, t ∈ ts ∧ ref t = p ∧ c ∈ PartitionChildren t) as H.
  { induction ts as [|t ts IH]; intros st Hst p' c'; cbn [foldl]; [set_solver|]. destruct (Hone (ref t) (PartitionChildren t) st Hst) as [B1 B2].
    rewrite (IH _ B1), B2. setoid_rewrite elem_of_cons. naive_solver. }
  rewrite H by (intros; cbn; rewrite !lookup_empty; cbn; set_solver). cbn. rewrite lookup_empty. cbn. set_solver.
Qed.

(** ** Lemmas: the registry of the universe *)
Import NameReg.NameReg.
Section registry.
Context (schemas : list string) (m : gmap string (list string)).
Definition inMemory (d : string) : NameRegistry :=
  mkRegistry (mkNames POSTGRESQL schemas d (Some m) [] "" None "" None None)
    (mkParams Event.SOURCE_DB_EXPORTER_ROLE POSTGRESQL schemas "" None [] None).
(** The default schema: the only one, or [public] where it is one of them. *)
Definition defaultSchema : string := match schemas with [s] => s | _ => if decide ("public" ∈ schemas) then "public" else "" end.
Lemma defaultSchema_elem : defaultSchema = "" ∨ defaultSchema ∈ schemas.
Proof. unfold defaultSchema. destruct schemas as [|s [|s' l]]; [by left|right; by left|]. destruct (decide _); [by right|by left]. Qed.
Lemma inMemory_shape : NewInMemorySourceNameRegistry POSTGRESQL schemas (Some m) = inMemory defaultSchema.
Proof.
  unfold NewInMemorySourceNameRegistry, initSourceDBSchemaNames, defaultSchema. cbn -[decide elem_of]. by rewrite !decide_False, decide_True by done.
Qed.
Lemma lookup_plain d s t : (d = "" ∨ plainName d = true) → plainName s = true → plainName t = true → t ∈ namesOf m s →
  ∃ o, LookupTableName (inMemory d) (s +:+ "." +:+ t) = Val (mkNameTuple (Some o) (Some o) None) ∧
    NewObjectName POSTGRESQL d s t = Ok o.
Proof.
  intros Hd Hs Ht Hin. pose proof (plainName_spec _ Hs) as (Hsne & Hsdot & _ & _ & Hsq). pose proof (plainName_spec _ Ht) as (_ & Htdot & _ & _ & Htq).
  destruct (NewObjectName_known POSTGRESQL d s t) as [o Ho]; [decided|]. exists o.
  split; [|done]. unfold LookupTableName, lookupSourceAndTargetTableNames. cbn [andb]. rewrite (splitName_key s t Hsdot Htdot).
  cbn [mbind res_bind]. rewrite (bool_decide_false (Role (params (inMemory d)) = _)) by (vm_compute; congruence). cbn [andb].
  rewrite check_known by (vm_compute; set_solver). cbn [mbind res_bind]. rewrite (unquotedName_plain s Hs).
  cbn [names inMemory SourceDBTableNames SourceDBSequenceNames YBTableNames YBSequenceNames]. rewrite createAll_Some.
  set (m' := union_with (λ a b, Some (a ++ b)) m (default ∅ None)).
  assert (∀ x, namesIn m' x = namesOf m x) as Hnames.
  { intros x. unfold m'. rewrite union_names. cbn. unfold namesIn. rewrite lookup_empty. cbn. by rewrite app_nil_r. }
  assert (s ∈ keysOf m') as Hkey.
  { apply keysOf_elem. unfold m'. apply union_keys. left. unfold namesOf in Hin. destruct (m !! s); [done|by apply elem_of_nil in Hin]. }
  assert (∀ p, default_of d p = s → lookup POSTGRESQL m' d p t = Val o) as Hlook.
  { intros p Hp. rewrite lookup_eq by (by rewrite Hp). rewrite Hp, (matchName_exact _ _ _ _ (bareName_plain _ _ Hs) Hkey). cbn [mbind res_bind].
    rewrite Hnames, (matchName_exact _ _ _ _ (bareName_plain _ _ Ht) Hin). cbn [mbind res_bind]. by rewrite Ho. }
  assert (default_of d (if bool_decide (s ∈ defaultNames (inMemory d)) then "" else s) = s) as Hdef.
  { unfold default_of. case_bool_decide as Hd'; [rewrite decide_True by done|by rewrite decide_False].
    unfold defaultNames in Hd'. cbn in Hd'.
    assert (unquotedName d = d) as Hdd by (destruct Hd as [->|Hd]; [done|by apply unquotedName_plain]). rewrite Hdd in Hd'.
    apply elem_of_cons in Hd' as [->|Hd']; [done|]. repeat (apply elem_of_cons in Hd' as [?|Hd']; [done|]). by apply elem_of_nil in Hd'. }
  change (DefaultSourceSideSchemaName (inMemory d)) with d. change (SourceDBType (names (inMemory d))) with POSTGRESQL.
  erewrite lookupSide_found by (by apply Hlook). done.
Qed.
End registry.
Section scope.
Context (snapshots : list SchemaSnapshot) (live : option SchemaSnapshot) (schemas : list string).
Definition allTables : list Table := contents (map Content snapshots) (live ≫= Content).
(** The tables the check knows, by name, and the partitions recorded anywhere. *)
Definition known (o : ObjectRef) : Prop := ∃ t, t ∈ allTables ∧ ref t = o.
Definition partition (p c : ObjectRef) : Prop := ∃ t, t ∈ allTables ∧ ref t = p ∧ c ∈ PartitionChildren t.
Definition plainRef (o : ObjectRef) : bool := plainName (Schema o) && plainName (Name o).
Record plainNames : Prop := {
  plain_schemas : Forall (λ s, plainName s = true) schemas; plain_refs o : known o → plainRef o = true }.
(** The known tables a list of patterns names. *)
Definition named (patterns : string) (o : ObjectRef) : Prop :=
  known o ∧ ∃ n p, NewObjectName POSTGRESQL (defaultSchema schemas) (Schema o) (Name o) = Ok n ∧
    p ∈ CsvStringToSlice patterns ∧ ObjectName_MatchesPattern n p = Ok true.
Definition tupleFor (o : ObjectRef) (t : NameTuple) : Prop :=
  ∃ n, t = mkNameTuple (Some n) (Some n) None ∧ NewObjectName POSTGRESQL (defaultSchema schemas) (Schema o) (Name o) = Ok n.
Lemma tupleFor_ref o t : plainRef o = true → tupleFor o t →
  (n ← deref (nt_SourceName t); Ok (mkObjectRef (Unquoted (SchemaName n)) (Unquoted (Unqualified n)))) = Ok o ∧
  ForKey t = quoted (Schema o) +:+ "." +:+ quoted (Name o).
Proof.
  intros [Hs Ht]%andb_true_iff (n & -> & Hn). cbn [nt_SourceName deref mbind result_bind ForKey ForKey_r].
  destruct (NewObjectName_total POSTGRESQL (defaultSchema schemas) (Schema o) (Name o)) as (n' & Hn' & Hkey); [decided|done..|].
  rewrite Hn in Hn'. injection Hn' as <-. split; [|exact Hkey].
  pose proof (plainName_spec _ Hs) as (_ & _ & _ & _ & Hsq). pose proof (plainName_spec _ Ht) as (_ & _ & _ & _ & Htq).
  unfold NewObjectName in Hn. rewrite Hsq, Htq in Hn. repeat (apply bind_Ok in Hn as (? & _ & Hn)). injection Hn as <-. by destruct o.
Qed.
Lemma tupleFor_key o o' t t' : plainRef o = true → plainRef o' = true → tupleFor o t → tupleFor o' t' → ForKey t = ForKey t' → o = o'.
Proof.
  intros Ho Ho' Ht Ht'. destruct (tupleFor_ref _ _ Ho Ht) as [_ ->], (tupleFor_ref _ _ Ho' Ht') as [_ ->].
  apply andb_true_iff in Ho as [Hs Hn], Ho' as [Hs' Hn']. pose proof (plainName_spec _ Hs) as (_ & Hd & _). pose proof (plainName_spec _ Hs') as (_ & Hd' & _).
  assert (∀ s, str_has "." s = false → str_has "." (quoted s) = false) as Hq by (intros s H; unfold quoted; by rewrite !str_has_app, H).
  intros Heq. assert (Split "." (quoted (Schema o) +:+ String "." (quoted (Name o))) = Split "." (quoted (Schema o') +:+ String "." (quoted (Name o')))) as H by exact (f_equal (Split ".") Heq).
  pose proof (plainName_spec _ Hn) as (_ & He & _). pose proof (plainName_spec _ Hn') as (_ & He' & _).
  rewrite !Split_app, !Split_none in H by (by apply Hq). assert (quoted (Schema o) = quoted (Schema o') ∧ quoted (Name o) = quoted (Name o')) as [H1%quoted_inj H2%quoted_inj] by (split; congruence). destruct o, o'; cbn in *; congruence.
Qed.
Definition universe : gmap string (list string) := driftTableUniverse (map Content snapshots) (live ≫= Content).
Lemma universe_pairs s n : (s, n) ∈ flat_map (λ p : string * list string, map (pair p.1) p.2) (map_to_list universe) ↔ known (mkObjectRef s n).
Proof.
  transitivity (n ∈ namesOf universe s); [|apply (universe_spec _ _ s n)]. rewrite list_elem_of_In, in_flat_map. unfold namesOf. split.
  - intros ([s' l] & Hsl & (n' & [= -> ->] & Hn)%in_map_iff). apply list_elem_of_In, elem_of_map_to_list in Hsl. rewrite Hsl. by apply list_elem_of_In.
  - destruct (universe !! s) as [l|] eqn:Hs; [|by intros ?%elem_of_nil]. cbn. intros Hn. exists (s, l). split; [by apply list_elem_of_In, elem_of_map_to_list|].
    by apply in_map, list_elem_of_In.
Qed.
(** The registry's loop over these pairs. *)
Definition lookupAll (l : list (string * string)) : res (list NameTuple) :=
  foldl (λ res st, l ← res;
    if decide (st.2 ∈ namesIn ∅ st.1) then Val l
    else t ← wrap ("error lookup for the table name [" +:+ (st.1 +:+ "." +:+ st.2) +:+ "]")
               (LookupTableName (inMemory schemas universe (defaultSchema schemas)) (st.1 +:+ "." +:+ st.2));
         Val (l ++ [t])) (Val []) l.
Lemma registered_list : GetRegisteredTableList (inMemory schemas universe (defaultSchema schemas)) false =
  lookupAll (flat_map (λ p : string * list string, map (pair p.1) p.2) (map_to_list universe)).
Proof. unfold GetRegisteredTableList. by rewrite decide_True by (vm_compute; set_solver). Qed.
Lemma lookupAll_snoc l p : lookupAll (l ++ [p]) = (l' ← lookupAll l;
  t ← wrap ("error lookup for the table name [" +:+ (p.1 +:+ "." +:+ p.2) +:+ "]")
        (LookupTableName (inMemory schemas universe (defaultSchema schemas)) (p.1 +:+ "." +:+ p.2)); Val (l' ++ [t])).
Proof.
  unfold lookupAll. rewrite foldl_app. cbn [foldl]. destruct (foldl _ _ _) as [l'| |]; [|done..]. cbn [mbind res_bind].
  by rewrite decide_False by (unfold namesIn; rewrite lookup_empty; by intros ?%elem_of_nil).
Qed.
Lemma registered : plainNames → ∃ ts, GetRegisteredTableList (inMemory schemas universe (defaultSchema schemas)) false = Val ts ∧
  (∀ t, t ∈ ts → ∃ o, known o ∧ tupleFor o t) ∧ (∀ o, known o → ∃ t, t ∈ ts ∧ tupleFor o t).
Proof.
  intros [Hps Hpr]. rewrite registered_list.
  assert (∀ l, (∀ p : string * string, p ∈ l → p.2 ∈ namesOf universe p.1) → ∃ ts,
    lookupAll l = Val ts ∧ Forall2 (λ p t, tupleFor (mkObjectRef p.1 p.2) t) l ts) as H.
  { induction l as [|[s n] l IH] using rev_ind; intros Hl; [by exists []|]. destruct IH as (ts & Hts & HF); [intros p Hp; apply Hl, elem_of_app; by left|].
    assert (n ∈ namesOf universe s) as Hin by (apply (Hl (s, n)), elem_of_app; right; by left).
    assert (known (mkObjectRef s n)) as Hk by (by apply (universe_spec _ _ s n)). pose proof (Hpr _ Hk) as [Hs Hn]%andb_true_iff. cbn in Hs, Hn.
    destruct (lookup_plain schemas universe (defaultSchema schemas) s n) as (o & Ho & Hobj); [|done..|].
    { destruct (defaultSchema_elem schemas) as [?|Hd]; [by left|right]. rewrite Forall_forall in Hps. by apply Hps. }
    exists (ts ++ [mkNameTuple (Some o) (Some o) None]). rewrite lookupAll_snoc, Hts. cbn [mbind res_bind fst snd]. rewrite Ho. split; [done|].
    apply Forall2_app; [done|]. constructor; [by exists o|done]. }
  destruct (H (flat_map (λ p : string * list string, map (pair p.1) p.2) (map_to_list universe))) as (ts & Hts & HF).
  { intros [s n] Hp%universe_pairs. by apply (universe_spec _ _ s n). }
  exists ts. split; [exact Hts|]. split.
  - intros t [i Hi]%list_elem_of_lookup. destruct (Forall2_lookup_r _ _ _ _ _ HF Hi) as ([s n] & Hp & Ht). exists (mkObjectRef s n). split; [|done].
    apply universe_pairs. by eapply list_elem_of_lookup_2.
  - intros [s n] Hk. apply universe_pairs, list_elem_of_lookup in Hk as [i Hi].
    destruct (Forall2_lookup_l _ _ _ _ _ HF Hi) as (t & Ht & ?). exists t. split; [by eapply list_elem_of_lookup_2|done].
Qed.
Lemma Split_length c a b : length (Split c (a +:+ String c b)) = (length (Split c a) + length (Split c b))%nat.
Proof.
  induction a as [|d a IH]; cbn; [by rewrite bool_decide_true by done|]. destruct (bool_decide (d = c)); cbn; [by rewrite IH|].
  pose proof (Split_nonempty c a) as Ha. pose proof (Split_nonempty c (a +:+ String c b)) as Hb.
  destruct (Split c a); [done|]. destruct (Split c (a +:+ String c b)); [done|]. cbn in *. lia.
Qed.
Lemma Split_dots s t : str_has "." t = true → (3 ≤ length (Split "." (s +:+ String "." t)))%nat.
Proof.
  intros Ht. rewrite Split_length. assert (2 ≤ length (Split "." t))%nat as H2.
  { clear -Ht. induction t as [|d t IH]; [done|]. rewrite str_has_cons in Ht. cbn. pose proof (Split_nonempty "." t) as Hne.
    destruct (bool_decide (d = "."%char)); cbn in *.
    - destruct (Split "." t); [done|cbn; lia].
    - specialize (IH Ht). destruct (Split "." t); [done|done]. }
  pose proof (Split_nonempty "." s). destruct (Split "." s); [done|cbn; lia].
Qed.
(** A list of tuples of known tables, and what the resolution reads of it. *)
Definition tuplesOf (ts : list NameTuple) : Prop := ∀ t, t ∈ ts → ∃ o, known o ∧ tupleFor o t.
Lemma refs_of ts : plainNames → tuplesOf ts → ∃ refs, driftObjectRefs ts = Ok refs ∧ ∀ o, o ∈ refs ↔ known o ∧ ∃ t, t ∈ ts ∧ tupleFor o t.
Proof.
  intros Hp Hts. unfold driftObjectRefs. destruct (mapM_result_total (λ t, n ← deref (nt_SourceName t);
    Ok (mkObjectRef (Unquoted (SchemaName n)) (Unquoted (Unqualified n)))) ts) as [refs Hrefs].
  { apply Forall_forall. intros t Ht. destruct (Hts t Ht) as (o & Hk & Ho). exists o. by apply (tupleFor_ref _ _ (plain_refs Hp o Hk) Ho). }
  exists refs. split; [done|]. apply mapM_result_Ok in Hrefs. intros o. split.
  - intros [i Hi]%list_elem_of_lookup. destruct (Forall2_lookup_r _ _ _ _ _ Hrefs Hi) as (t & Ht & Hto).
    apply list_elem_of_lookup_2 in Ht. destruct (Hts t Ht) as (o' & Hk & Ho).
    rewrite (proj1 (tupleFor_ref _ _ (plain_refs Hp o' Hk) Ho)) in Hto. injection Hto as <-. split; [done|by exists t].
  - intros (Hk & t & [i Hi]%list_elem_of_lookup & Ho). destruct (Forall2_lookup_l _ _ _ _ _ Hrefs Hi) as (o' & Ho' & Hto).
    rewrite (proj1 (tupleFor_ref _ _ (plain_refs Hp o Hk) Ho)) in Hto. injection Hto as <-. by eapply list_elem_of_lookup_2.
Qed.
Lemma tuple_matches o t p : tupleFor o t → NameTuple_MatchesPattern t p = Ok true ↔
  ∃ n, NewObjectName POSTGRESQL (defaultSchema schemas) (Schema o) (Name o) = Ok n ∧ ObjectName_MatchesPattern n p = Ok true.
Proof.
  intros (n & -> & Hn). unfold NameTuple_MatchesPattern. cbn [matchesAny nt_SourceName nt_TargetName]. rewrite bind_Ok. split.
  - intros (m & Hm & H). exists n. split; [done|]. by destruct m.
  - intros (n' & Hn' & Hm). rewrite Hn in Hn'. injection Hn' as <-. by exists true.
Qed.
Lemma selected_refs ts patterns listName l : plainNames → tuplesOf ts → (∀ o, known o → ∃ t, t ∈ ts ∧ tupleFor o t) →
  patterns ≠ "" → extractTableListFromString ts patterns listName = Ok l →
  ∃ refs, driftObjectRefs l = Ok refs ∧ ∀ o, o ∈ refs ↔ named patterns o.
Proof.
  intros Hp Hts Hall Hne Hl. destruct (extract_spec _ _ _ _ Hl Hne) as (_ & H1 & H2 & _).
  destruct (refs_of l Hp) as (refs & Hr & Hin); [intros t Ht; apply Hts; by apply H1|]. exists refs. split; [done|].
  intros o. rewrite Hin. unfold named. split; intros [Hk H]; (split; [done|]).
  - destruct H as (t & Ht & Hto). destruct (H1 t Ht) as (_ & p & Hpin & Hm).
    apply (tuple_matches o t p Hto) in Hm as (n & ? & ?). by exists n, p.
  - destruct H as (n & p & Hn & Hpin & Hm). destruct (Hall o Hk) as (t & Ht & Hto).
    assert (NameTuple_MatchesPattern t p = Ok true) as Hmt by (apply (tuple_matches o t p Hto); by exists n).
    pose proof (H2 t p Ht Hpin Hmt) as (t' & Hkey & Ht')%list_elem_of_fmap. exists t'. split; [done|].
    destruct (Hts t' (proj1 (H1 t' Ht'))) as (o' & Hk' & Hto').
    by rewrite (tupleFor_key o o' t t' (plain_refs Hp o Hk) (plain_refs Hp o' Hk') Hto Hto' Hkey).
Qed.
Lemma partition_child p c : child (driftPartitionChildren (map Content snapshots) (live ≫= Content)) p c ↔ partition p c.
Proof. apply partition_spec. Qed.
Lemma partition_rtc p c : rtc (child (driftPartitionChildren (map Content snapshots) (live ≫= Content))) p c ↔ rtc partition p c.
Proof. split; (apply rtc_subrel; intros ? ?; apply partition_child). Qed.
(** The listed tables with all partitions below them. *)
Definition withPartitions (patterns : string) (o : ObjectRef) : Prop := ∃ r, named patterns r ∧ rtc partition r o.
(** What a scope is to hold for each choice of table lists. *)
Definition wantedTables (filters : driftScopeFilters) (o : ObjectRef) : Prop :=
  if decide (tableList filters ≠ "") then withPartitions (tableList filters) o
  else if decide (excludeTableList filters ≠ "") then known o ∧ ¬ withPartitions (excludeTableList filters) o
  else known o.
Definition wantedTypes (filters : driftScopeFilters) (t : ObjectType) : Prop :=
  if decide (excludeObjectTypes filters ≠ []) then t ∉ excludeObjectTypes filters
  else if decide (objectTypes filters = []) then True else t ∈ objectTypes filters.
Lemma all_types (t : ObjectType) : t ∈ allDriftObjectTypes.
Proof. destruct t; decided. Qed.
Lemma resolve_types filters types : resolveObjectTypes filters = Ok types → types ≠ [] ∧ ∀ t, t ∈ types ↔ wantedTypes filters t.
Proof.
  unfold resolveObjectTypes, wantedTypes, complementDriftObjectTypes. destruct (decide (excludeObjectTypes filters ≠ [])).
  - destruct (decide _); [done|]. intros [= <-]. split; [done|]. intros t. rewrite list_elem_of_filter, elem_of_list_to_set.
    split; [by intros [? _]|]. intros ?. split; [done|apply all_types].
  - destruct (decide (objectTypes filters = [])); intros [= <-]; (split; [done|]); [|done]. intros t. split; [done|]. intros _. apply all_types.
Qed.
Lemma resolve_tables filters ts allRefs hasDefault tables : plainNames → tuplesOf ts → (∀ o, known o → ∃ t, t ∈ ts ∧ tupleFor o t) →
  (∀ o, o ∈ allRefs ↔ known o) →
  resolveTables filters ts allRefs hasDefault (driftPartitionChildren (map Content snapshots) (live ≫= Content)) = Ok tables →
  (∀ o, o ∈ tables ↔ wantedTables filters o) ∧ (tableList filters = "" → excludeTableList filters ≠ "" → tables ≠ []).
Proof.
  intros Hp Hts Hall Hrefs. unfold resolveTables, wantedTables, withPartitions. destruct (decide (tableList filters ≠ "")) as [Ht|Ht].
  - rewrite bind_Ok. intros (_ & _ & (l & Hl & (refs & Hr & [= <-])%bind_Ok)%bind_Ok). split; [|done]. intros o.
    destruct (selected_refs _ _ _ _ Hp Hts Hall Ht Hl) as (refs' & Hr' & Hin). rewrite Hr in Hr'. injection Hr' as <-.
    rewrite (proj2 (expand_spec _ refs)). by setoid_rewrite Hin; setoid_rewrite partition_rtc.
  - destruct (decide (excludeTableList filters ≠ "")) as [He|He]; [|intros [= <-]; split; [done|]; intros _ ?; by destruct He].
    rewrite bind_Ok. intros (_ & _ & (l & Hl & (refs & Hr & H)%bind_Ok)%bind_Ok). destruct (decide _) as [|Hne]; [done|]. injection H as <-.
    split; [|done]. intros o. destruct (selected_refs _ _ _ _ Hp Hts Hall He Hl) as (refs' & Hr' & Hin). rewrite Hr in Hr'. injection Hr' as <-.
    unfold complementDriftTableRefs. rewrite list_elem_of_filter, elem_of_list_to_set, (proj2 (expand_spec _ refs)), Hrefs.
    setoid_rewrite Hin. setoid_rewrite partition_rtc. tauto.
Qed.
(** The resolution, with the registry's part done. *)
Lemma resolve_inv : plainNames → ∃ ts allRefs, tuplesOf ts ∧ (∀ o, known o → ∃ t, t ∈ ts ∧ tupleFor o t) ∧ (∀ o, o ∈ allRefs ↔ known o) ∧
  ∀ filters, resolveDriftScope POSTGRESQL snapshots live schemas filters =
    (tables ← resolveTables filters ts allRefs (bool_decide (defaultSchema schemas ≠ "")) (driftPartitionChildren (map Content snapshots) (live ≫= Content));
     types ← resolveObjectTypes filters; Ok (mkScope schemas tables types)).
Proof.
  intros Hp. unfold resolveDriftScope. rewrite inMemory_shape. fold universe.
  destruct (registered Hp) as (ts & -> & Hts & Hall). cbn [to_result mbind result_bind].
  assert (∀ t, t ∈ sort_tuples ts ↔ t ∈ ts) as Hsort by (intros t; unfold sort_tuples; by rewrite merge_sort_Permutation).
  assert (tuplesOf (sort_tuples ts)) as Hts' by (intros t Ht%Hsort; by apply Hts).
  assert (∀ o, known o → ∃ t, t ∈ sort_tuples ts ∧ tupleFor o t) as Hall' by (intros o Ho; setoid_rewrite Hsort; by apply Hall).
  destruct (refs_of (sort_tuples ts) Hp Hts') as (allRefs & -> & Hrefs). cbn [mbind result_bind].
  exists (sort_tuples ts), allRefs. split_and!; [done..| |done].
  intros o. rewrite Hrefs. split; [by intros [? _]|intros; split; [done|by apply Hall']].
Qed.
(** A scope that was resolved. *)
Record resolved (filters : driftScopeFilters) (scope : Scope) : Prop := {
  res_schemas : sc_Schemas scope = schemas;
  res_tables o : o ∈ sc_Tables scope ↔ wantedTables filters o;
  res_types t : t ∈ sc_ObjectTypes scope ↔ wantedTypes filters t;
  res_some_type : sc_ObjectTypes scope ≠ [];
  res_some_table : tableList filters = "" → excludeTableList filters ≠ "" → sc_Tables scope ≠ [] }.
Lemma resolve_resolved filters scope : plainNames → resolveDriftScope POSTGRESQL snapshots live schemas filters = Ok scope → resolved filters scope.
Proof.
  intros Hp. destruct (resolve_inv Hp) as (ts & allRefs & Hts & Hall & Hknown & ->).
  intros (tables & Ht & (types & Hty & [= <-])%bind_Ok)%bind_Ok.
  destruct (resolve_tables _ _ _ _ _ Hp Hts Hall Hknown Ht) as [H1 H2]. destruct (resolve_types _ _ Hty) as [H3 H4]. by split.
Qed.
(** C28: The scope of a check is what the user asked for: with a table list the tables that match
    one of its patterns and every partition below them at any depth, with an exclude list
    the known tables but these, without either every table any snapshot knows; likewise
    for object types.  It never comes out empty of object types, nor of tables by
    exclusion, which would compare nothing and report no drift; without filters it is
    always found. *)
Theorem scope_is_what_was_asked (filters : driftScopeFilters) : plainNames →
  (∀ scope, resolveDriftScope POSTGRESQL snapshots live schemas filters = Ok scope → resolved filters scope) ∧
  (tableList filters = "" → excludeTableList filters = "" → excludeObjectTypes filters = [] →
     ∃ scope, resolveDriftScope POSTGRESQL snapshots live schemas filters = Ok scope).
Proof.
  intros Hp. split; [intros scope; by apply resolve_resolved|]. destruct (resolve_inv Hp) as (ts & allRefs & _ & _ & _ & ->).
  intros H1 H2 H3. unfold resolveTables, resolveObjectTypes. rewrite H1, H2, H3. rewrite !decide_False by auto. cbn [mbind result_bind].
  destruct (decide _); by eexists.
Qed.
(** One table whose name has a dot, in any schema of any snapshot, keeps every check from
    its scope, whatever is asked for: the registry takes names apart at their dots. *)
Theorem dotted_name_fails (filters : driftScopeFilters) (o : ObjectRef) : known o → str_has "." (Name o) = true →
  ∀ scope, resolveDriftScope POSTGRESQL snapshots live schemas filters ≠ Ok scope.
Proof.
  intros Hk Hdot scope. unfold resolveDriftScope. rewrite inMemory_shape. fold universe.
  rewrite registered_list. set (reg := inMemory schemas universe (defaultSchema schemas)).
  assert (∀ t, LookupTableName reg (Schema o +:+ "." +:+ Name o) ≠ Val t) as Hlook.
  { intros t. unfold LookupTableName, lookupSourceAndTargetTableNames. cbn [andb].
    rewrite (bool_decide_false (Role (params reg) = _)) by (vm_compute; congruence). cbn [andb]. unfold splitName.
    change (Schema o +:+ "." +:+ Name o) with (Schema o +:+ String "." (Name o)). pose proof (Split_dots (Schema o) (Name o) Hdot) as H.
    destruct (Split "." (Schema o +:+ String "." (Name o))) as [|a [|b [|c l]]]; cbn in H; [lia..|done]. }
  assert ((Schema o, Name o) ∈ flat_map (λ p : string * list string, map (pair p.1) p.2) (map_to_list universe)) as Hin by (apply universe_pairs; by destruct o).
  assert (∀ l, (Schema o, Name o) ∈ l → ∀ ts, lookupAll l ≠ Val ts) as Hno; [|destruct (lookupAll _) eqn:Hl; [by destruct (Hno _ Hin _ Hl)|done..]].
  clear Hin. intros l. induction l as [|p l IH] using rev_ind; [by intros ?%elem_of_nil|].
  intros [Hin|Hin%list_elem_of_singleton]%elem_of_app ts Hts; rewrite lookupAll_snoc in Hts; apply res_bind_Val in Hts as (l' & Hl' & Hts).
  - by eapply (IH Hin).
  - subst p. apply res_bind_Val in Hts as (t & Ht & _). by apply wrap_Val, Hlook in Ht.
Qed.
End scope.

(** ** Concrete scopes *)
Lemma plainNames_check snapshots live schemas :
  forallb plainName schemas = true → forallb (λ t, plainRef (ref t)) (allTables snapshots live) = true → plainNames snapshots live schemas.
Proof.
  rewrite !forallb_forall. intros Hs Ht. split; [apply Forall_forall; intros s Hin; by apply Hs, list_elem_of_In|].
  intros o (t & Hin & <-). by apply Ht, list_elem_of_In.
Qed.
Definition partitioned (name : string) (children : list string) : Table :=
  mkTable (mkObjectRef "public" name) name TableKindPartitioned None (map (mkObjectRef "public") children) [] [] [] None [] [] [] [] [].
(** A table of two levels of partitions, one of which was dropped before the last snapshot. *)
Definition oldContent : SnapshotContent := mkContent 2 POSTGRESQL [partitioned "logs" ["logs_eu"; "logs_us"]; partitioned "logs_eu" ["logs_de"]; partitioned "logs_de" []; partitioned "logs_us" []; partitioned "users" []].
Definition newContent : SnapshotContent := mkContent 2 POSTGRESQL [partitioned "logs" ["logs_us"]; partitioned "logs_us" []; partitioned "users" []].
Definition sampleSnapshots : list SchemaSnapshot :=
  [mkSnapshot (mkHeader LabelExportSchema "" "source" 10 "16.14" ["public"] false) (Some oldContent);
   mkSnapshot (mkHeader LabelExportDataFromSourceStart "initial" "source" 20 "16.14" ["public"] true) None].
Definition sampleLive : SchemaSnapshot := mkSnapshot (mkHeader LabelSourceLive "" "source" 30 "16.14" ["public"] false) (Some newContent).
Definition sampleFilters (include exclude : string) : driftScopeFilters := mkFilters include exclude [] [ObjectTypeIndex].
Definition tablesOf (r : result Scope) : option (list string) := match r with Ok s => Some (map Name (sc_Tables s)) | _ => None end.
Example sample_include : tablesOf (resolveDriftScope POSTGRESQL sampleSnapshots (Some sampleLive) ["public"] (sampleFilters "LOGS" "")) =
  Some ["logs"; "logs_eu"; "logs_de"; "logs_us"].
Proof. vm_compute. reflexivity. Qed.
Example sample_exclude : tablesOf (resolveDriftScope POSTGRESQL sampleSnapshots (Some sampleLive) ["public"] (sampleFilters "" "logs_*")) = Some ["logs"; "users"].
Proof. vm_compute. reflexivity. Qed.
Example sample_exclude_all : resolveDriftScope POSTGRESQL sampleSnapshots (Some sampleLive) ["public"] (sampleFilters "" "*") =
  Err "--exclude-table-list * excludes every table in the comparison; nothing left to compare".
Proof. vm_compute. reflexivity. Qed.
Lemma sample_plain : plainNames sampleSnapshots (Some sampleLive) ["public"].
Proof. apply plainNames_check; vm_compute; reflexivity. Qed.
Lemma scope_is_what_was_asked_witness : ∃ scope,
  resolveDriftScope POSTGRESQL sampleSnapshots (Some sampleLive) ["public"] (sampleFilters "" "users") = Ok scope ∧
  (∀ t, t ∈ sc_ObjectTypes scope ↔ t ∉ [ObjectTypeIndex]) ∧
  (∀ o, o ∈ sc_Tables scope ↔ known sampleSnapshots (Some sampleLive) o ∧ ¬ withPartitions sampleSnapshots (Some sampleLive) ["public"] "users" o).
Proof.
  destruct (resolveDriftScope POSTGRESQL sampleSnapshots (Some sampleLive) ["public"] (sampleFilters "" "users")) as [scope| |] eqn:Hs;
    [|vm_compute in Hs; discriminate..].
  destruct (proj1 (scope_is_what_was_asked sampleSnapshots (Some sampleLive) ["public"] (sampleFilters "" "users") sample_plain) scope Hs)
    as [_ H1 H2 _ _]. exists scope. split; [done|]. split; [exact H2|exact H1].
Defined.
Definition dottedSnapshots : list SchemaSnapshot :=
  [mkSnapshot (mkHeader LabelExportSchema "" "source" 10 "16.14" ["public"] false) (Some (mkContent 2 POSTGRESQL [partitioned "users" []; partitioned "v1.2" []]))].
Lemma dotted_name_fails_witness : ∀ scope, resolveDriftScope POSTGRESQL dottedSnapshots None ["public"] (sampleFilters "users" "") ≠ Ok scope.
Proof.
  apply (dotted_name_fails dottedSnapshots None ["public"] (sampleFilters "users" "") (mkObjectRef "public" "v1.2")); [|done].
  exists (partitioned "v1.2" []). split; [right; left|done].
Defined.
End DriftScope.
