(* ===== verification/SnapshotStore.v ===== *)
(** * Stored schema snapshots (src/yb-voyager/src/metadb/schemaSnapshot.go,
    src/schemasnapshot: persist.go, capture.go; src/export/schema_snapshot_capture.go)

    The table of the metadata database that holds the snapshots, written by the captures of
    a migration and read by the drift check.  JSON is what it encodes; a time is a number
    of nanoseconds; the database's answer to a statement is an argument. *)
From S2P Require Import Prelude SqlName SchemaSnapshot.
Import SqlName SchemaSnapshot.

Module SnapshotStore.
(** ** The table *)
(** A name is what it is derived from: the label and the second of the capture. *)
Definition SnapshotName : Type := string * Z.
Definition deriveName (label : string) (capturedAt : Z) : SnapshotName := (label, capturedAt / 10 ^ 9).
Definition headerName (h : SnapshotHeader) : SnapshotName := deriveName (Label h) (CapturedAt h).
(** A list of schemas as JSON, or as older versions stored it. *)
Inductive schemasColumn : Type := SchemasJSON (l : list string) | SchemasText (s : string).
Definition schemasFromString (c : schemasColumn) : list string :=
  match c with SchemasJSON l => l | SchemasText "" => [] | SchemasText s => Split "," s end.
(** The JSON of a content, of a nil one, or what is no such JSON. *)
Inductive contentJSON : Type := EncodedContent (c : SnapshotContent) | NullContent | BadJSON.
Record SchemaSnapshotRow : Type := mkRow {
  row_Name : SnapshotName; row_Label : string; row_Reason : string; row_Side : string; row_CapturedAt : Z; row_DatabaseVersion : string;
  row_Schemas : schemasColumn; row_IsPlaceholder : bool; row_SnapshotJSON : option contentJSON }.
(** [None]: the table was never created. *)
Definition snapshotTable : Type := option (list SchemaSnapshotRow).
Definition createSchemaSnapshotsTable (t : snapshotTable) : list SchemaSnapshotRow := default [] t.
(** The name is unique; so are side, label and time together. *)
Definition conflicts (a b : SchemaSnapshotRow) : Prop :=
  row_Name a = row_Name b ∨ (row_Side a = row_Side b ∧ row_Label a = row_Label b ∧ row_CapturedAt a = row_CapturedAt b).
#[global] Instance conflicts_dec a b : Decision (conflicts a b).
Proof. unfold conflicts. apply _. Defined.
(** [created], [inserted]: whether the database carries the statement out. *)
Definition InsertSchemaSnapshot (created inserted : bool) (t : snapshotTable) (row : SchemaSnapshotRow) : snapshotTable * result unit :=
  if negb created then (t, Err "create schema_snapshots table") else
  let rows := createSchemaSnapshotsTable t in
  if negb inserted || existsb (λ r, bool_decide (conflicts r row)) rows then (Some rows, Err "insert schema snapshot")
  else (Some (rows ++ [row]), Ok ()).
Definition InsertSchemaSnapshotPlaceholder (created inserted : bool) (t : snapshotTable) (row : SchemaSnapshotRow) : snapshotTable * result unit :=
  InsertSchemaSnapshot created inserted t
    (mkRow (row_Name row) (row_Label row) (row_Reason row) (row_Side row) (row_CapturedAt row) (row_DatabaseVersion row) (row_Schemas row) true None).
Definition earlier (a b : SchemaSnapshotRow) : Prop := row_CapturedAt a ≤ row_CapturedAt b.
#[global] Instance earlier_dec a b : Decision (earlier a b).
Proof. unfold earlier. apply _. Defined.
(** Ordered by time; SQLite leaves rows of one time in their order. *)
Definition ListSchemaSnapshots (t : snapshotTable) : list SchemaSnapshotRow := merge_sort earlier (default [] t).
Definition GetSchemaSnapshotByName (t : snapshotTable) (name : SnapshotName) : option SchemaSnapshotRow :=
  List.find (λ r, bool_decide (row_Name r = name)) (default [] t).

(** ** Saving and loading *)
Definition sideOf (h : SnapshotHeader) : string := if decide (Side h = "") then SideSource else Side h.
Definition SaveSnapshot (created inserted : bool) (t : snapshotTable) (snap : SchemaSnapshot) : snapshotTable * result SnapshotName :=
  let h := Header snap in
  if decide (Label h = "") then (t, Err "schemasnapshot: snapshot has no label; cannot persist") else
  let data := match Content snap with Some c => EncodedContent c | None => NullContent end in
  let row := mkRow (headerName h) (Label h) (Reason h) (sideOf h) (CapturedAt h) (DatabaseVersion h) (SchemasJSON (Schemas h)) (IsPlaceholder h) (Some data) in
  let '(t, r) := InsertSchemaSnapshot created inserted t row in
  (t, _ ← r; Ok (headerName h)).
Definition SavePlaceholder (created inserted : bool) (t : snapshotTable) (h : SnapshotHeader) : snapshotTable * result SnapshotName :=
  if decide (Label h = "") then (t, Err "schemasnapshot: placeholder has no label; cannot persist") else
  let row := mkRow (headerName h) (Label h) (Reason h) (sideOf h) (CapturedAt h) (DatabaseVersion h) (SchemasJSON (Schemas h)) false None in
  let '(t, r) := InsertSchemaSnapshotPlaceholder created inserted t row in
  (t, _ ← r; Ok (headerName h)).
Definition rowToHeader (r : SchemaSnapshotRow) : SnapshotHeader :=
  mkHeader (row_Label r) (row_Reason r) (row_Side r) (row_CapturedAt r) (row_DatabaseVersion r) (schemasFromString (row_Schemas r)) (row_IsPlaceholder r).
Definition ListSnapshots (t : snapshotTable) : list SnapshotHeader := map rowToHeader (ListSchemaSnapshots t).
Inductive loadError : Type := ErrSnapshotNotFound | ErrPlaceholderSnapshot | ErrSnapshotVersionUnsupported (msg : string) | ErrUnmarshal.
Definition DecodeSnapshot (data : contentJSON) : loadError + SnapshotContent :=
  match data with
  | BadJSON => inl ErrUnmarshal
  | NullContent => inl (ErrSnapshotVersionUnsupported "no version set (Version 0 or missing)")
  | EncodedContent c =>
      if Version c =? 0 then inl (ErrSnapshotVersionUnsupported "no version set (Version 0 or missing)")
      else if currentSnapshotVersion <? Version c then inl (ErrSnapshotVersionUnsupported ("Version " +:+ itoa (Version c) +:+ " is newer than this library understands"))
      else inr c
  end.
(** A row that is no placeholder and has no JSON is read as the empty string. *)
Definition LoadSnapshotByName (t : snapshotTable) (name : SnapshotName) : loadError + SnapshotContent :=
  match GetSchemaSnapshotByName t name with
  | None => inl ErrSnapshotNotFound
  | Some row => if row_IsPlaceholder row then inl ErrPlaceholderSnapshot
                else DecodeSnapshot (default BadJSON (row_SnapshotJSON row))
  end.

(** ** Captures *)
(** What comes to a capture from outside: the source's transaction and catalogue, the
    clock, and the metadata database for the snapshot and for the placeholder. *)
Record surroundings : Type := mkSurroundings {
  handle : bool; begin_ : result unit; catalogue : catalog; commit : result unit; now : Z; later : Z;
  created : bool; inserted : bool; created' : bool; inserted' : bool }.
Definition CaptureAndSaveSnapshot (w : surroundings) (t : snapshotTable) (p : CaptureParams) (placeholderOnFailure : bool)
    : snapshotTable * result SnapshotName :=
  match Capture p (begin_ w) (catalogue w) (commit w) (now w) with
  | Ok snap => SaveSnapshot (created w) (inserted w) t snap
  | Err e => ((if placeholderOnFailure then (SavePlaceholder (created' w) (inserted' w) t (newHeader p (later w) "" true)).1 else t), Err e)
  | Panic e => (t, Panic e)
  end.
Record SchemaSnapshotCapture : Type := mkCapture { Params : CaptureParams; Disabled : bool }.
Definition Enabled (c : SchemaSnapshotCapture) : bool := bool_decide (cp_DatabaseType (Params c) = POSTGRESQL) && negb (Disabled c).
Definition RecordPlaceholder (w : surroundings) (c : SchemaSnapshotCapture) (t : snapshotTable) (label reason : string) : snapshotTable :=
  if negb (Enabled c) then t else
  (SavePlaceholder (created' w) (inserted' w) t (mkHeader label reason SideSource (later w) "" (cp_Schemas (Params c)) true)).1.
Definition SnapshotCapture_Capture (w : surroundings) (c : SchemaSnapshotCapture) (t : snapshotTable) (label reason : string) (placeholderOnFailure : bool)
    : snapshotTable * result unit :=
  if negb (Enabled c) then (t, Ok ()) else
  if negb (handle w) then ((if placeholderOnFailure then RecordPlaceholder w c t label reason else t), Err "no active database handle") else
  let p := mkParams (cp_DatabaseType (Params c)) (cp_Side (Params c)) (cp_Schemas (Params c)) label reason in
  let '(t, r) := CaptureAndSaveSnapshot w t p placeholderOnFailure in
  (t, _ ← r; Ok ()).

(** ** What the table holds *)
(** A catalogue of the given schemas. *)
Definition catalogFor (schemas : list string) (q : catalog) : Prop :=
  catalogOk q ∧ ∀ trows, q_tables q = Ok trows → Forall (λ r, t_schema r ∈ schemas) trows.
Record goodContent (schemas : list string) (c : SnapshotContent) : Prop := {
  good_version : Version c = currentSnapshotVersion; good_type : DatabaseType c = POSTGRESQL; good_tables : wfTables (Tables c);
  good_schemas : Forall (λ t, Schema (ref t) ∈ schemas) (Tables c) }.
(** A row of a capture of [schemas]: a placeholder, or a content that can be read. *)
Definition goodRow (schemas : list string) (r : SchemaSnapshotRow) : Prop :=
  row_Name r = deriveName (row_Label r) (row_CapturedAt r) ∧ row_Schemas r = SchemasJSON schemas ∧
  ((row_IsPlaceholder r = true ∧ row_SnapshotJSON r = None) ∨
   (row_IsPlaceholder r = false ∧ ∃ c, row_SnapshotJSON r = Some (EncodedContent c) ∧ goodContent schemas c)).
Definition goodTable (schemas : list string) (t : snapshotTable) : Prop :=
  Forall (goodRow schemas) (default [] t) ∧ NoDup (map row_Name (default [] t)).
Lemma Capture_good p b q c now s : catalogFor (cp_Schemas p) q → Capture p b q c now = Ok s →
  ∃ content, Content s = Some content ∧ goodContent (cp_Schemas p) content ∧ Header s = newHeader p now (DatabaseVersion (Header s)) false.
Proof.
  intros [Hq Hs] (tables & v & Ht & Hdb & _ & _ & ->)%Capture_Ok. eexists. split; [done|]. cbn. split; [|done]. split; cbn; [done|done|by eapply TakeSnapshot_wf|].
  destruct (TakeSnapshot_refs q tables v Hq Ht) as (trows & Htr & Hrefs). specialize (Hs trows Htr).
  apply Forall_forall. intros t Hin. assert (ref t ∈ map ref tables) as Hr by (by apply list_elem_of_fmap_2). rewrite Hrefs in Hr.
  apply list_elem_of_fmap in Hr as (r & -> & Hr). rewrite Forall_forall in Hs. by apply Hs.
Qed.
Lemma Insert_good schemas cr ins t row : goodTable schemas t → goodRow schemas row → goodTable schemas (InsertSchemaSnapshot cr ins t row).1.
Proof.
  intros [Hf Hnd] Hrow. unfold InsertSchemaSnapshot, createSchemaSnapshotsTable. destruct cr; [|done]. cbn [negb].
  destruct (negb ins || _) eqn:Hb; [done|]. apply orb_false_iff in Hb as [_ Hb]. split; cbn.
  - apply Forall_app. split; [done|]. by apply Forall_singleton.
  - rewrite map_app. apply NoDup_app. split_and!; [done| |apply NoDup_singleton]. intros n Hn ->%list_elem_of_singleton.
    apply list_elem_of_fmap in Hn as (r & Hr & Hin). assert (existsb (λ r, bool_decide (conflicts r row)) (default [] t) = true) as H; [|congruence].
    apply existsb_exists. exists r. split; [by apply list_elem_of_In|]. apply bool_decide_eq_true. by left.
Qed.
Lemma SavePlaceholder_good schemas cr ins t h : Schemas h = schemas → goodTable schemas t → goodTable schemas (SavePlaceholder cr ins t h).1.
Proof.
  intros Hs Ht. unfold SavePlaceholder, InsertSchemaSnapshotPlaceholder. destruct (decide _); [done|]. cbn [row_Name row_Label row_Reason row_Side row_CapturedAt row_DatabaseVersion row_Schemas].
  assert (goodTable schemas (InsertSchemaSnapshot cr ins t (mkRow (headerName h) (Label h) (Reason h) (sideOf h) (CapturedAt h) (DatabaseVersion h) (SchemasJSON (Schemas h)) true None)).1)
    as H by (apply Insert_good; [done|]; rewrite Hs; split_and!; [done|done|by left]).
  by destruct (InsertSchemaSnapshot _ _ _ _).
Qed.
Lemma Capture_keeps w c t label reason ph : catalogFor (cp_Schemas (Params c)) (catalogue w) → goodTable (cp_Schemas (Params c)) t →
  goodTable (cp_Schemas (Params c)) (SnapshotCapture_Capture w c t label reason ph).1.
Proof.
  intros Hq Ht. unfold SnapshotCapture_Capture, RecordPlaceholder. destruct (Enabled c); [|done]. cbn [negb].
  destruct (handle w); cbn [negb]; [|destruct ph; [by apply SavePlaceholder_good|done]].
  set (p := mkParams _ _ _ _ _). assert (goodTable (cp_Schemas (Params c)) (CaptureAndSaveSnapshot w t p ph).1) as H.
  { unfold CaptureAndSaveSnapshot. destruct (Capture p _ _ _ _) as [s| |] eqn:Hc; [|destruct ph; [by apply SavePlaceholder_good|done]|done].
    destruct (Capture_good p _ _ _ _ _ Hq Hc) as (content & Hcon & Hgood & Hh). unfold SaveSnapshot. rewrite Hh. cbn [newHeader Label Schemas].
    destruct (decide _); [done|]. rewrite Hcon. set (row := mkRow _ _ _ _ _ _ _ _ _).
    assert (goodTable (cp_Schemas (Params c)) (InsertSchemaSnapshot (created w) (inserted w) t row).1) as H.
    { apply Insert_good; [done|]. split_and!; [done|done|]. right. split; [done|]. by exists content. }
    by destruct (InsertSchemaSnapshot _ _ _ _). }
  by destruct (CaptureAndSaveSnapshot _ _ _ _).
Qed.
(** One capture of a migration of [schemas], whatever comes of it. *)
Definition captureStep (schemas : list string) (t t' : snapshotTable) : Prop :=
  ∃ w c label reason ph, cp_Schemas (Params c) = schemas ∧ catalogFor schemas (catalogue w) ∧ t' = (SnapshotCapture_Capture w c t label reason ph).1.
Lemma captures_good schemas t : rtc (captureStep schemas) None t → goodTable schemas t.
Proof.
  assert (goodTable schemas None) as H0 by (split; constructor). revert H0. generalize (None : snapshotTable) as t0.
  intros t0 H0. induction 1 as [|t0 t1 t2 (w & c & label & reason & ph & Hs & Hq & ->) _ IH]; [done|]. apply IH. rewrite <- Hs in *. by apply Capture_keeps.
Qed.
Lemma find_name t r : NoDup (map row_Name t) → r ∈ t → List.find (λ r', bool_decide (row_Name r' = row_Name r)) t = Some r.
Proof.
  induction t as [|x t IH]; intros Hnd Hin; [by apply elem_of_nil in Hin|]. cbn in *. apply NoDup_cons in Hnd as [Hx Hnd].
  apply elem_of_cons in Hin as [->|Hin]; [by rewrite bool_decide_true|]. rewrite bool_decide_false; [by apply IH|].
  intros Heq. apply Hx. rewrite Heq. by apply list_elem_of_fmap_2.
Qed.
(** What a listed header stands for. *)
Lemma listed_loads schemas t h : goodTable schemas t → h ∈ ListSnapshots t → Schemas h = schemas ∧
  ((IsPlaceholder h = true ∧ LoadSnapshotByName t (headerName h) = inl ErrPlaceholderSnapshot) ∨
   (IsPlaceholder h = false ∧ ∃ c, LoadSnapshotByName t (headerName h) = inr c ∧ goodContent schemas c)).
Proof.
  intros [Hf Hnd] (r & -> & Hr)%list_elem_of_fmap. unfold ListSchemaSnapshots in Hr. rewrite merge_sort_Permutation in Hr.
  rewrite Forall_forall in Hf. destruct (Hf r Hr) as (Hname & Hs & H). unfold LoadSnapshotByName, GetSchemaSnapshotByName.
  assert (headerName (rowToHeader r) = row_Name r) as -> by (by rewrite Hname). rewrite (find_name _ _ Hnd Hr). cbn [rowToHeader Schemas IsPlaceholder].
  rewrite Hs. split; [done|]. destruct H as [[-> _]|(-> & c & -> & Hc)]; [by left|right]. split; [done|]. exists c. split; [|done]. cbn.
  by rewrite (good_version _ _ Hc).
Qed.
Lemma listed_sorted t : StronglySorted (λ a b, CapturedAt a ≤ CapturedAt b) (ListSnapshots t).
Proof.
  unfold ListSnapshots, ListSchemaSnapshots.
  assert (StronglySorted earlier (merge_sort earlier (default [] t))) as H.
  { apply StronglySorted_merge_sort; [intros a b c; unfold earlier; lia|intros a b; unfold earlier; lia]. }
  induction H as [|r l _ IH Hr]; cbn; [constructor|]. constructor; [done|]. apply Forall_map. by eapply Forall_impl.
Qed.
(** C25: Whatever happens to the captures of a migration, failed connections, queries and
    writes, captures in one second, captures without a database, every entry of the timeline
    is a placeholder or loads as a well-formed snapshot of the newest version, under the
    name derived from its header; and the entries come oldest first. *)
Theorem every_capture_is_readable (schemas : list string) (t : snapshotTable) : rtc (captureStep schemas) None t →
  StronglySorted (λ a b, CapturedAt a ≤ CapturedAt b) (ListSnapshots t) ∧
  ∀ h, h ∈ ListSnapshots t → Schemas h = schemas ∧
    ((IsPlaceholder h = true ∧ LoadSnapshotByName t (headerName h) = inl ErrPlaceholderSnapshot) ∨
     (IsPlaceholder h = false ∧ ∃ c, LoadSnapshotByName t (headerName h) = inr c ∧ goodContent schemas c)).
Proof. intros Ht. split; [apply listed_sorted|]. intros h. apply listed_loads. by apply captures_good. Qed.

(** ** A concrete timeline *)
Lemma sampleCatalog_for : catalogFor ["public"] sampleCatalog.
Proof. split; [apply sampleCatalog_ok|]. intros trows [= <-]. by repeat constructor. Qed.
Definition working (now : Z) : surroundings := mkSurroundings true (Ok ()) sampleCatalog (Ok ()) now now true true true true.
Definition brokenTx (now : Z) : surroundings := mkSurroundings true (Err "connection refused") sampleCatalog (Ok ()) now now true true true true.
Definition sampleCapture : SchemaSnapshotCapture := mkCapture (mkParams POSTGRESQL "" ["public"] "" "") false.
Definition second : Z := 10 ^ 9.
Definition sampleTable : snapshotTable :=
  let t := (SnapshotCapture_Capture (working (5 * second)) sampleCapture None LabelExportSchema "" true).1 in
  let t := (SnapshotCapture_Capture (working (5 * second + 7)) sampleCapture t LabelExportSchema "" true).1 in
  (SnapshotCapture_Capture (brokenTx (3 * second)) sampleCapture t LabelExportDataFromSourceStart "initial" true).1.
(** The second capture of the same second is refused, the third leaves a placeholder. *)
Example sample_timeline : map (λ h, (Label h, CapturedAt h / second, IsPlaceholder h)) (ListSnapshots sampleTable) =
  [(LabelExportDataFromSourceStart, 3, true); (LabelExportSchema, 5, false)].
Proof. vm_compute. reflexivity. Qed.
Lemma sample_reached : rtc (captureStep ["public"]) None sampleTable.
Proof.
  unfold sampleTable. eapply rtc_l; [|eapply rtc_l; [|eapply rtc_l; [|apply rtc_refl]]].
  - exists (working (5 * second)), sampleCapture, LabelExportSchema, "", true. split; [done|]. split; [apply sampleCatalog_for|reflexivity].
  - exists (working (5 * second + 7)), sampleCapture, LabelExportSchema, "", true. split; [done|]. split; [apply sampleCatalog_for|reflexivity].
  - exists (brokenTx (3 * second)), sampleCapture, LabelExportDataFromSourceStart, "initial", true. split; [done|]. split; [apply sampleCatalog_for|reflexivity].
Qed.
Lemma every_capture_is_readable_witness :
  ∃ c, LoadSnapshotByName sampleTable (LabelExportSchema, 5) = inr c ∧ goodContent ["public"] c.
Proof.
  destruct (proj2 (every_capture_is_readable ["public"] sampleTable sample_reached) (mkHeader LabelExportSchema "" "source" (5 * second) "16.4" ["public"] false))
    as (_ & [[H _]|(_ & c & Hc & Hg)]).
  - vm_compute. right. left.
  - discriminate H.
  - exists c. exact (conj Hc Hg).
Defined.
End SnapshotStore.
