(* ===== verification/DriftCheck.v ===== *)
(** * The drift check (cmd/detectDrift.go: checkSchemaDrift)

    The composition: the stored snapshots and a live capture are loaded, the scope is
    resolved over all of them, the report is built, and a report that compared nothing is
    refused.  Writing the report is left out. *)
From S2P Require Import Prelude SqlName SchemaSnapshot SchemaDiff DriftGuidance SchemaDrift NameReg TablePatterns DriftScope SnapshotStore.
Import SqlName SchemaSnapshot SchemaDiff SchemaDrift DriftScope SnapshotStore.

Module DriftCheck.
(** The contents of the listed snapshots; only a version this program cannot read stops the check. *)
Fixpoint loadSnapshots (t : snapshotTable) (headers : list SnapshotHeader) : result (list SchemaSnapshot) :=
  match headers with
  | [] => Ok []
  | h :: headers =>
      content ← (if IsPlaceholder h then Ok None else
        match LoadSnapshotByName t (headerName h) with
        | inr c => Ok (Some c)
        | inl (ErrSnapshotVersionUnsupported msg) => Err ("cannot read snapshot: " +:+ msg)
        | inl _ => Ok None
        end);
      rest ← loadSnapshots t headers;
      Ok (mkSnapshot h content :: rest)
  end.
(** Where the live read comes from: the session and its catalogue. *)
Record liveRead : Type := mkLive { l_begin : result unit; l_catalogue : catalog; l_commit : result unit; l_now : Z }.
Definition captureLiveSnapshotForDrift (dbType : string) (schemas : list string) (l : liveRead) : result SchemaSnapshot :=
  Capture (SchemaSnapshot.mkParams dbType "" schemas LabelSourceLive "") (l_begin l) (l_catalogue l) (l_commit l) (l_now l).
Record driftCheckInput : Type := mkInput { in_Schemas : list string; Filters : driftScopeFilters; LiveRead : option liveRead }.
Definition nothingComparedError (r : Report) : string :=
  let usable := filter (λ c, Excluded c = "") (CapturePoints r) in
  let reasons := uniq (filter (λ s, s ≠ "") (map Excluded (CapturePoints r))) in
  let n := itoa (Z.of_nat (length (CapturePoints r))) in
  let u := itoa (Z.of_nat (length usable)) in
  if (length (CapturePoints r) =? 0)%nat then
    "this export directory holds no schema snapshots, so there is nothing to compare. " +:+
    "Snapshots are recorded while `export schema` and `export data` run, unless they ran with " +:+
    "--disable-schema-snapshot-capture=true or on a voyager version that did not capture by default"
  else if (length reasons =? 0)%nat then
    "only " +:+ u +:+ " of " +:+ n +:+ " captures is usable, and a single capture forms no interval, so there was nothing to compare"
  else
    "no two comparable schema snapshots in this export directory, so there was nothing to compare: " +:+ u +:+ " of " +:+ n +:+
    " captures usable; the rest were skipped because: " +:+ Join "; " reasons +:+
    ". If the schemas named there are not the ones you expected, check --source-db-schema".
Section check.
Context (sortSlice : (Difference → Difference → bool) → list Difference → list Difference).
(** [msr] is what the migration status record has for the report, if there is a record. *)
Definition checkSchemaDrift (now : Z) (source : Source) (msr : option MigrationInfo) (t : snapshotTable) (input : driftCheckInput) : result Report :=
  match msr with
  | None => Err "migration status record not found"
  | Some info =>
      snapshots ← loadSnapshots t (ListSnapshots t);
      live ← match LiveRead input with
             | None => Ok None
             | Some l => s ← captureLiveSnapshotForDrift (s_DatabaseType source) (in_Schemas input) l; Ok (Some s)
             end;
      scope ← resolveDriftScope (s_DatabaseType source) snapshots live (in_Schemas input) (Filters input);
      report ← BuildReport sortSlice now (mkConfig source (snapshots ++ option_list live) scope info);
      if ComparedIntervalCount (rep_Summary report) =? 0 then Err (nothingComparedError report) else Ok report
  end.

(** ** Lemmas *)
Lemma loadSnapshots_good schemas t hs : goodTable schemas t → (∀ h, h ∈ hs → h ∈ ListSnapshots t) →
  ∃ l, loadSnapshots t hs = Ok l ∧ map Header l = hs ∧
    Forall (λ s, Schemas (Header s) = schemas ∧
      ((IsPlaceholder (Header s) = true ∧ Content s = None) ∨
       ∃ c, Content s = Some c ∧ goodContent schemas c ∧ LoadSnapshotByName t (headerName (Header s)) = inr c)) l.
Proof.
  intros Ht. induction hs as [|h hs IH]; intros Hin; [by exists []|]. destruct IH as (l & Hl & Hh & Hf); [intros h' ?; apply Hin; by right|].
  destruct (listed_loads schemas t h Ht) as [Hs [[Hp _]|(Hp & c & Hc & Hg)]]; [apply Hin; by left|..]; cbn; rewrite Hp.
  - cbn [mbind result_bind]. rewrite Hl. cbn [mbind result_bind]. exists (mkSnapshot h None :: l). split; [done|]. split; [cbn; by rewrite Hh|].
    constructor; [split; [done|by left]|done].
  - rewrite Hc. cbn [mbind result_bind]. rewrite Hl. cbn [mbind result_bind]. exists (mkSnapshot h (Some c) :: l). split; [done|]. split; [cbn; by rewrite Hh|].
    constructor; [split; [done|right; by exists c]|done].
Qed.
Definition noFilters : driftScopeFilters := mkFilters "" "" [] [].
End check.
(** What the check reads was captured by this program, of the schemas it asks for, and its
    names are such as the registry can file. *)
Record checkable (schemas : list string) (t : snapshotTable) (l : liveRead) : Prop := {
  ck_captured : rtc (captureStep schemas) None t;
  ck_live : catalogFor schemas (l_catalogue l);
  ck_schemas : Forall (λ s, NameReg.NameReg.plainName s = true) schemas;
  ck_stored n c tb : LoadSnapshotByName t n = inr c → tb ∈ Tables c → plainRef (ref tb) = true;
  ck_liveNames s c tb : captureLiveSnapshotForDrift POSTGRESQL schemas l = Ok s → Content s = Some c → tb ∈ Tables c → plainRef (ref tb) = true }.
Lemma live_good schemas l s : catalogFor schemas (l_catalogue l) → captureLiveSnapshotForDrift POSTGRESQL schemas l = Ok s →
  ∃ c, Content s = Some c ∧ goodContent schemas c ∧ Schemas (Header s) = schemas.
Proof.
  intros Hq Hs. destruct (Capture_good (SchemaSnapshot.mkParams POSTGRESQL "" schemas LabelSourceLive "") _ _ _ _ _ Hq Hs) as (c & Hc & Hg & Hh). exists c. split_and!; [done..|]. by rewrite Hh.
Qed.
(** A listed snapshot has the content that loads under its name, and no placeholder has one. *)
Lemma stored_loads schemas t stored s c : goodTable schemas t → loadSnapshots t (ListSnapshots t) = Ok stored → s ∈ stored →
  Header s ∈ ListSnapshots t ∧ (Content s = Some c ↔ LoadSnapshotByName t (headerName (Header s)) = inr c) ∧
  (Content s = Some c → IsPlaceholder (Header s) = false).
Proof.
  intros Ht Hstored Hs. destruct (loadSnapshots_good schemas t (ListSnapshots t)) as (l' & Hl' & Hheaders & Hf); [done..|].
  rewrite Hstored in Hl'. injection Hl' as <-. assert (Header s ∈ ListSnapshots t) as Hh by (rewrite <- Hheaders; by apply list_elem_of_fmap_2).
  split; [done|]. rewrite Forall_forall in Hf. destruct (Hf s Hs) as [_ Hc]. destruct (listed_loads schemas t (Header s) Ht Hh) as [_ Hl].
  destruct Hc as [[Hp Hn]|(c' & Hc' & _ & Hload)], Hl as [[Hp' Hl]|(Hp' & c'' & Hl & _)]; [|congruence..|].
  - split; [|congruence]. split; [congruence|]. rewrite Hl. intros H. discriminate H.
  - split; [|done]. rewrite Hc', Hload. split; congruence.
Qed.
(** The timeline of a check without filters: each snapshot with a content is usable, and
    the scope lists all there is in it. *)
Section timeline.
Context (source : Source) (schemas : list string) (t : snapshotTable) (l : liveRead) (stored : list SchemaSnapshot) (live : SchemaSnapshot) (lc : SnapshotContent)
  (scope : Scope) (info : MigrationInfo).
Context (Hck : checkable schemas t l) (Hlive : captureLiveSnapshotForDrift POSTGRESQL schemas l = Ok live) (Hlc : Content live = Some lc)
  (Hstored : loadSnapshots t (ListSnapshots t) = Ok stored)
  (Hscope : resolveDriftScope POSTGRESQL stored (Some live) schemas noFilters = Ok scope).
Let p : DetectionConfig := mkConfig source (stored ++ [live]) scope info.
Lemma timeline_good s : s ∈ stored ++ [live] → Schemas (Header s) = schemas ∧ (Content s = None ∨ ∃ c, Content s = Some c ∧ goodContent schemas c ∧
  (s = live ∨ LoadSnapshotByName t (headerName (Header s)) = inr c)).
Proof.
  intros [Hs|Hs%list_elem_of_singleton]%elem_of_app.
  - destruct (loadSnapshots_good schemas t (ListSnapshots t)) as (l' & Hl' & _ & Hf); [by apply captures_good, Hck|done|].
    rewrite Hstored in Hl'. injection Hl' as <-. rewrite Forall_forall in Hf. destruct (Hf s Hs) as [Hsch [[_ ?]|(c & ? & ? & ?)]]; (split; [done|]); [by left|].
    right. exists c. auto.
  - subst s. destruct (live_good schemas l live (ck_live _ _ _ Hck) Hlive) as (c & Hc & Hg & Hsch). split; [done|]. right. exists c. auto.
Qed.
Lemma timeline_plain : plainNames stored (Some live) schemas.
Proof.
  split; [apply (ck_schemas _ _ _ Hck)|]. intros o (tb & Htb & <-). unfold allTables, contents in Htb.
  apply list_elem_of_In, in_flat_map in Htb as (oc & Hoc & Htb). destruct oc as [c|]; [|done]. apply list_elem_of_In in Hoc, Htb.
  assert (∃ s, s ∈ stored ++ [live] ∧ Content s = Some c) as (s & Hs & Hc).
  { apply elem_of_app in Hoc as [(s & Hsc & Hs)%list_elem_of_fmap|Hoc%list_elem_of_singleton].
    - exists s. split; [apply elem_of_app; by left|done].
    - exists live. split; [apply elem_of_app; right; by left|by rewrite Hoc]. }
  destruct (timeline_good s Hs) as [_ [?|(c' & Hc' & _ & [->|Hload])]]; [congruence|..]; rewrite Hc in Hc'; injection Hc' as <-.
  - by apply (ck_liveNames _ _ _ Hck live c).
  - by apply (ck_stored _ _ _ Hck (headerName (Header s)) c).
Qed.
Lemma timeline_usable i s : (stored ++ [live]) !! i = Some s → is_Some (Content s) → usableAt p i.
Proof.
  intros Hs Hc. exists s. split; [done|]. split; [done|]. apply missing_nil.
  change (d_Scope p) with scope. rewrite (res_schemas _ _ _ _ _ (resolve_resolved _ _ _ _ _ timeline_plain Hscope)).
  destruct (timeline_good s) as [-> _]; [by eapply list_elem_of_lookup_2|done].
Qed.
Lemma timeline_covered k c : usableAt p k → contentAt p k = Some c → DatabaseType c = POSTGRESQL ∧ wfTables (Tables c) ∧ covers scope c.
Proof.
  intros _ (s & Hs & Hc)%contentAt_Some. cbn in Hs. apply list_elem_of_lookup_2 in Hs.
  destruct (timeline_good s Hs) as [_ [?|(c' & Hc' & [_ Hdb Hwf Hsch] & _)]]; [congruence|]. rewrite Hc in Hc'. injection Hc' as <-. split_and!; [done..|].
  pose proof (resolve_resolved _ _ _ _ _ timeline_plain Hscope) as [Hss Hts _ _ _]. intros tb Htb. split.
  - apply Hts. unfold wantedTables. cbn. rewrite !decide_False by (intros H; by apply H). exists tb. split; [|done]. unfold allTables, contents.
    apply list_elem_of_In, in_flat_map. exists (Some c). split; [|by apply list_elem_of_In]. apply list_elem_of_In, elem_of_app.
    apply elem_of_app in Hs as [Hs|Hs%list_elem_of_singleton]; [left; rewrite <- Hc; by apply list_elem_of_fmap_2|right; subst s; cbn; rewrite Hc; by left].
  - rewrite Hss. rewrite Forall_forall in Hsch. by apply Hsch.
Qed.
Lemma timeline_types : coversTypes scope.
Proof.
  intros ty. apply (res_types _ _ _ _ _ (resolve_resolved _ _ _ _ _ timeline_plain Hscope)). unfold wantedTypes. cbn.
  rewrite decide_False by (intros H; by apply H). by rewrite decide_True.
Qed.
End timeline.


(** ** A concrete check *)
Definition sampleLiveRead : liveRead := mkLive (Ok ()) sampleCatalog (Ok ()) (9 * second).
Definition sampleCheck : result Report :=
  checkSchemaDrift mergeSlice (10 * second) sampleSource (Some (mkMigrationInfo SNAPSHOT_AND_CHANGES None false)) sampleTable
    (mkInput ["public"] noFilters (Some sampleLiveRead)).
Example sample_check : match sampleCheck with Ok r => (Drifts r, rep_Summary r) = ([], mkSummary 0 1 2 true) | _ => False end.
Proof. vm_compute. reflexivity. Qed.
(** Without the live read there is one snapshot, and nothing to compare. *)
Example sample_nothing : checkSchemaDrift mergeSlice 0 sampleSource (Some (mkMigrationInfo "" None false)) sampleTable (mkInput ["public"] noFilters None) =
  Err ("no two comparable schema snapshots in this export directory, so there was nothing to compare: 1 of 2 captures usable; " +:+
       "the rest were skipped because: the capture failed, so this point holds no schema. " +:+
       "If the schemas named there are not the ones you expected, check --source-db-schema").
Proof. vm_compute. reflexivity. Qed.
Lemma load_row t n c : LoadSnapshotByName t n = inr c → ∃ r, r ∈ default [] t ∧ row_SnapshotJSON r = Some (EncodedContent c).
Proof.
  unfold LoadSnapshotByName, GetSchemaSnapshotByName. destruct (List.find _ _) as [r|] eqn:Hr; [|done]. apply List.find_some in Hr as [Hr _].
  destruct (row_IsPlaceholder r); [done|]. destruct (row_SnapshotJSON r) as [[c'| |]|] eqn:Hj; cbn; try done.
  destruct (Version c' =? 0); [done|]. destruct (currentSnapshotVersion <? Version c'); [done|]. intros [= ->]. exists r. split; [by apply list_elem_of_In|done].
Qed.
Definition contentPlain (c : SnapshotContent) : bool := forallb (λ tb, plainRef (ref tb)) (Tables c).
Lemma contentPlain_spec c tb : contentPlain c = true → tb ∈ Tables c → plainRef (ref tb) = true.
Proof. unfold contentPlain. rewrite forallb_forall. intros H Hin. by apply H, list_elem_of_In. Qed.
Lemma sample_checkable : checkable ["public"] sampleTable sampleLiveRead.
Proof.
  split; [apply sample_reached|apply sampleCatalog_for|by repeat constructor| |].
  - intros n c tb (r & Hr & Hj)%load_row Hin.
    assert (forallb (λ r, match row_SnapshotJSON r with Some (EncodedContent c) => contentPlain c | _ => true end) (default [] sampleTable) = true) as H
      by (vm_compute; reflexivity).
    rewrite forallb_forall in H. specialize (H r (proj1 (list_elem_of_In _ _) Hr)). rewrite Hj in H. by apply (contentPlain_spec c).
  - intros s c tb Hs Hc Hin. assert (match captureLiveSnapshotForDrift POSTGRESQL ["public"] sampleLiveRead with
      Ok s => match Content s with Some c => contentPlain c | None => true end | _ => true end = true) as H by (vm_compute; reflexivity).
    rewrite Hs, Hc in H. by apply (contentPlain_spec c).
Qed.
End DriftCheck.
