(* ===== verification/CivilTime.v ===== *)
(** * Dates, clock times and their text (package time of Go's library, as the value
    converters of src/yb-voyager/src/tgtdb/suites use it)

    Days are counted from 1970-01-01 in the proleptic Gregorian calendar; the layouts are
    those the converters name.  Beyond the years Go's clock can count, some 292 billion
    either way, the texts are not Go's.  The second part reads the texts as PostgreSQL
    does, and shows that what was printed is read back. *)
From S2P Require Import Prelude.

Module CivilTime.
#[local] Ltac div_lia := Z.to_euclidean_division_equations; lia.
(** ** The calendar *)
Record Date : Type := mkDate { year : Z; month : Z; day : Z }.
Definition leap (y : Z) : bool := (y mod 4 =? 0) && (negb (y mod 100 =? 0) || (y mod 400 =? 0)).
Definition daysIn (y m : Z) : Z :=
  if m =? 2 then (if leap y then 29 else 28)
  else if (m =? 4) || (m =? 6) || (m =? 9) || (m =? 11) then 30 else 31.
Definition validDate (d : Date) : Prop := 1 ≤ month d ≤ 12 ∧ 1 ≤ day d ≤ daysIn (year d) (month d).
#[global] Instance validDate_dec d : Decision (validDate d).
Proof. unfold validDate. apply _. Defined.
(** Years here begin in March, so that the leap day is their last. *)
Definition daysBefore (y : Z) : Z := 365 * y + y / 4 - y / 100 + y / 400.
Definition daysOf (d : Date) : Z :=
  let y := if month d <=? 2 then year d - 1 else year d in
  let mp := if month d <=? 2 then month d + 9 else month d - 3 in
  daysBefore y + (153 * mp + 2) / 5 + day d - 1 - 719468.
Definition dateOf (days : Z) : Date :=
  let z := days + 719468 in
  let era := z / 146097 in
  let doe := z mod 146097 in
  let c := Z.min 3 (doe / 36524) in
  let doc := doe - 36524 * c in
  let q := doc / 1461 in
  let doq := doc mod 1461 in
  let y := Z.min 3 (doq / 365) in
  let doy := doq - 365 * y in
  let mp := (5 * doy + 2) / 153 in
  let m := if mp <? 10 then mp + 3 else mp - 9 in
  let yr := 400 * era + 100 * c + 4 * q + y in
  mkDate (if m <=? 2 then yr + 1 else yr) m (doy - (153 * mp + 2) / 5 + 1).

(** *** Lemmas: the calendar *)
(** A year as eras, centuries, quadrennia and years. *)
Lemma daysBefore_parts e c q y : 0 ≤ c ≤ 3 → 0 ≤ q ≤ 24 → 0 ≤ y ≤ 3 →
  daysBefore (400 * e + 100 * c + 4 * q + y) = 146097 * e + 36524 * c + 1461 * q + 365 * y.
Proof.
  intros. unfold daysBefore.
  assert ((400 * e + 100 * c + 4 * q + y) / 4 = 100 * e + 25 * c + q) as -> by (symmetry; apply Z.div_unique with y; lia).
  assert ((400 * e + 100 * c + 4 * q + y) / 100 = 4 * e + c) as -> by (symmetry; apply Z.div_unique with (4 * q + y); lia).
  assert ((400 * e + 100 * c + 4 * q + y) / 400 = e) as -> by (symmetry; apply Z.div_unique with (100 * c + 4 * q + y); lia).
  lia.
Qed.
(** What [dateOf] takes a day apart into. *)
Lemma day_parts z : ∃ e c q y doy,
  (z = 146097 * e + 36524 * c + 1461 * q + 365 * y + doy ∧
   0 ≤ c ≤ 3 ∧ 0 ≤ q ≤ 24 ∧ 0 ≤ y ≤ 3 ∧ 0 ≤ doy ≤ 365 ∧ (doy = 365 → y = 3 ∧ (q = 24 → c = 3))) ∧
  e = z / 146097 ∧ c = Z.min 3 (z mod 146097 / 36524) ∧
  q = (z mod 146097 - 36524 * c) / 1461 ∧ y = Z.min 3 ((z mod 146097 - 36524 * c) mod 1461 / 365) ∧
  doy = (z mod 146097 - 36524 * c) mod 1461 - 365 * y.
Proof.
  do 5 eexists. split; cycle 1; [repeat split; reflexivity|].
  pose proof (Z.div_mod z 146097 ltac:(lia)) as Hz. pose proof (Z.mod_pos_bound z 146097 ltac:(lia)) as Hd.
  set (e := z / 146097) in *. set (doe := z mod 146097) in *. clearbody e doe.
  set (c := Z.min 3 (doe / 36524)).
  assert (Hc : 0 ≤ c ≤ 3 ∧ 0 ≤ doe - 36524 * c ≤ 36524 ∧ (doe - 36524 * c = 36524 → c = 3)) by (subst c; Z.to_euclidean_division_equations; lia).
  clearbody c. set (doc := doe - 36524 * c) in *. assert (Hdoc : doe = 36524 * c + doc) by lia. clearbody doc.
  pose proof (Z.div_mod doc 1461 ltac:(lia)) as Hq. pose proof (Z.mod_pos_bound doc 1461 ltac:(lia)).
  set (q := doc / 1461) in *. set (doq := doc mod 1461) in *. clearbody q doq.
  set (y := Z.min 3 (doq / 365)).
  assert (Hy : 0 ≤ y ≤ 3 ∧ 0 ≤ doq - 365 * y ≤ 365 ∧ (doq - 365 * y = 365 → y = 3)) by (subst y; Z.to_euclidean_division_equations; lia).
  clearbody y. lia.
Qed.
Lemma dateOf_parts days : ∃ yr mp doy, let m := if mp <? 10 then mp + 3 else mp - 9 in
  dateOf days = mkDate (if m <=? 2 then yr + 1 else yr) m (doy - (153 * mp + 2) / 5 + 1) ∧
  days + 719468 = daysBefore yr + doy ∧ mp = (5 * doy + 2) / 153 ∧ 0 ≤ doy ≤ 365 ∧ (doy = 365 → leap (yr + 1) = true).
Proof.
  destruct (day_parts (days + 719468)) as (e & c & q & y & doy & (Hz & Hc & Hq & Hy & Hd & Hl) & He & Ec & Eq & Ey & Ed).
  exists (400 * e + 100 * c + 4 * q + y), ((5 * doy + 2) / 153), doy. split_and!; [|rewrite daysBefore_parts by done; lia|done|lia..|].
  - unfold dateOf. rewrite <- He, <- Ec, <- Eq, <- Ey, <- Ed. done.
  - intros [-> Hq3]%Hl. unfold leap.
    assert ((400 * e + 100 * c + 4 * q + 3 + 1) mod 4 = 0) as -> by (Z.to_euclidean_division_equations; lia).
    destruct (decide (q = 24)) as [->|]; [rewrite (Hq3 eq_refl)|];
      [assert ((400 * e + 100 * 3 + 4 * 24 + 3 + 1) mod 400 = 0) as -> by (Z.to_euclidean_division_equations; lia); by rewrite orb_true_r|].
    assert ((400 * e + 100 * c + 4 * q + 3 + 1) mod 100 = 4 * q + 4) as -> by (Z.to_euclidean_division_equations; lia).
    destruct (Z.eqb_spec (4 * q + 4) 0); [lia|done].
Qed.
Lemma daysOf_dateOf days : daysOf (dateOf days) = days.
Proof.
  destruct (dateOf_parts days) as (yr & mp & doy & -> & Hd & Hmp & Hdoy & _).
  assert (0 ≤ mp ≤ 11) by (subst mp; div_lia).
  unfold daysOf. cbn [year month day]. destruct (Z.ltb_spec mp 10); cbv zeta.
  - destruct (Z.leb_spec (mp + 3) 2); [lia|]. replace (mp + 3 - 3) with mp by lia. lia.
  - destruct (Z.leb_spec (mp - 9) 2); [|lia]. replace (mp - 9 + 9) with mp by lia. replace (yr + 1 - 1) with yr by lia. lia.
Qed.
(** The months of a year that begins in March, but for February, which ends it. *)
Lemma month_bounds y mp : 0 ≤ mp ≤ 11 → let m := if mp <? 10 then mp + 3 else mp - 9 in
  1 ≤ m ≤ 12 ∧ (mp < 11 → (153 * (mp + 1) + 2) / 5 - (153 * mp + 2) / 5 = daysIn y m).
Proof.
  intros H.
  assert (mp = 0 ∨ mp = 1 ∨ mp = 2 ∨ mp = 3 ∨ mp = 4 ∨ mp = 5 ∨ mp = 6 ∨ mp = 7 ∨ mp = 8 ∨ mp = 9 ∨ mp = 10 ∨ mp = 11) as Hin by lia.
  by repeat (destruct Hin as [->|Hin]); try subst mp; (split; [vm_compute; by split|]); intros; try lia.
Qed.
Lemma dateOf_valid days : validDate (dateOf days).
Proof.
  destruct (dateOf_parts days) as (yr & mp & doy & -> & _ & Hmp & Hdoy & Hl).
  assert (0 ≤ mp ≤ 11) as Hm by (subst mp; div_lia).
  assert (Hr : (153 * mp + 2) / 5 ≤ doy < (153 * (mp + 1) + 2) / 5) by (subst mp; div_lia).
  destruct (month_bounds (if (if mp <? 10 then mp + 3 else mp - 9) <=? 2 then yr + 1 else yr) mp Hm) as [H1 H2]. cbv zeta in H1, H2.
  unfold validDate. cbn [year month day]. split; [done|]. split; [lia|].
  destruct (decide (mp < 11)); [rewrite <- H2 by done; lia|].
  assert (mp = 11) as -> by lia. change (doy - 337 + 1 ≤ (if leap (yr + 1) then 29 else 28)).
  destruct (decide (doy = 365)) as [->|]; [rewrite Hl by done; lia|]. destruct (leap (yr + 1)); lia.
Qed.
(** The day after a date. *)
Definition tomorrow (d : Date) : Date :=
  if day d <? daysIn (year d) (month d) then mkDate (year d) (month d) (day d + 1)
  else if month d <? 12 then mkDate (year d) (month d + 1) 1 else mkDate (year d + 1) 1 1.
Lemma daysBefore_succ y : daysBefore (y + 1) = daysBefore y + (if leap (y + 1) then 366 else 365).
Proof. unfold daysBefore, leap. destruct (Z.eqb_spec ((y + 1) mod 4) 0), (Z.eqb_spec ((y + 1) mod 100) 0), (Z.eqb_spec ((y + 1) mod 400) 0); cbn; div_lia. Qed.
Lemma daysOf_tomorrow d : validDate d → daysOf (tomorrow d) = daysOf d + 1.
Proof.
  destruct d as [y m d]. unfold validDate, tomorrow. cbn [year month day]. intros [Hm Hd].
  destruct (Z.ltb_spec d (daysIn y m)); [unfold daysOf; cbn [year month day]; lia|]. assert (d = daysIn y m) as -> by lia. clear Hd H.
  destruct (Z.ltb_spec m 12); unfold daysOf; cbn [year month day].
  - pose proof (daysBefore_succ (y - 1)) as Hs. replace (y - 1 + 1) with y in Hs by lia.
    assert (m = 1 ∨ m = 2 ∨ m = 3 ∨ m = 4 ∨ m = 5 ∨ m = 6 ∨ m = 7 ∨ m = 8 ∨ m = 9 ∨ m = 10 ∨ m = 11) as Hin by lia.
    unfold daysIn. repeat (destruct Hin as [->|Hin]); try subst m; cbn -[Z.div leap daysBefore]; destruct (leap y);
      repeat match goal with |- context [?a <=? ?b] => destruct (Z.leb_spec a b); try lia end; div_lia.
  - assert (m = 12) as -> by lia. cbn -[Z.div daysBefore]. replace (y + 1 - 1) with y by lia. div_lia.
Qed.

(** ** Text *)
Definition digit (d : Z) : ascii := ascii_of_nat (48 + Z.to_nat d).
(** The last [n] digits of [v]. *)
Fixpoint digits (n : nat) (v : Z) : string :=
  match n with O => "" | S n => digits n (v / 10) +:+ String (digit (v mod 10)) "" end.
Fixpoint countDigits (fuel : nat) (v : Z) : nat :=
  match fuel with O => 1 | S fuel => if v <? 10 then 1%nat else S (countDigits fuel (v / 10)) end.
(** As many as the number has bits are enough. *)
Definition width (v : Z) : nat := countDigits (Z.to_nat (Z.log2 v)) v.
(** appendInt: padded with zeros to a width. *)
Definition appendInt (x : Z) (w : nat) : string :=
  (if x <? 0 then "-" else "") +:+ digits (Nat.max w (width (Z.abs x))) (Z.abs x).

(** A time is a number of nanoseconds since the epoch, in UTC. *)
Definition SECOND : Z := 10 ^ 9.
Definition DAY : Z := 86400 * SECOND.
Definition Unix (sec nsec : Z) : Z := sec * SECOND + nsec.
Definition dateAt (t : Z) : Date := dateOf (t / DAY).
Definition secondOfDay (t : Z) : Z := t mod DAY / SECOND.
Definition hour (t : Z) : Z := secondOfDay t / 3600.
Definition minute (t : Z) : Z := secondOfDay t mod 3600 / 60.
Definition second (t : Z) : Z := secondOfDay t mod 60.
Definition nanosecond (t : Z) : Z := t mod SECOND.
(** The layouts 2006-01-02, 02-01-2006, 15:04:05 and 03.04.05. *)
Definition FormatDate (t : Z) : string :=
  appendInt (year (dateAt t)) 4 +:+ "-" +:+ appendInt (month (dateAt t)) 2 +:+ "-" +:+ appendInt (day (dateAt t)) 2.
Definition FormatDayFirst (t : Z) : string :=
  appendInt (day (dateAt t)) 2 +:+ "-" +:+ appendInt (month (dateAt t)) 2 +:+ "-" +:+ appendInt (year (dateAt t)) 4.
Definition FormatClock (t : Z) : string :=
  appendInt (hour t) 2 +:+ ":" +:+ appendInt (minute t) 2 +:+ ":" +:+ appendInt (second t) 2.
Definition FormatClock12 (t : Z) : string :=
  let h := hour t mod 12 in
  appendInt (if h =? 0 then 12 else h) 2 +:+ "." +:+ appendInt (minute t) 2 +:+ "." +:+ appendInt (second t) 2.
Definition FormatPM (t : Z) : string := if 12 <=? hour t then "PM" else "AM".
(** The first [n] digits of the fraction: .000 and .999, which ends before its trailing zeros. *)
Fixpoint stripZeros (s : string) : string :=
  match s with
  | "" => ""
  | String c s => match stripZeros s with "" => if decide (c = "0"%char) then "" else String c "" | s => String c s end
  end.
Definition fraction (n : nat) (t : Z) : string := digits n (nanosecond t / 10 ^ (9 - Z.of_nat n)).
Definition FormatFraction0 (n : nat) (t : Z) : string := "." +:+ fraction n t.
Definition FormatFraction9 (n : nat) (t : Z) : string :=
  match stripZeros (fraction n t) with "" => "" | f => "." +:+ f end.

(** ** Reading *)
Fixpoint readDigits (acc : Z) (s : string) : option Z :=
  match s with
  | "" => Some acc
  | String c s => if is_digit c then readDigits (10 * acc + (Z.of_nat (nat_of_ascii c) - 48)) s else None
  end.
Definition readNumber (s : string) : option Z := if decide (s = "") then None else readDigits 0 s.
Definition readFraction (s : string) : option Z :=
  if decide (s = "" ∨ (9 < String.length s)%nat) then None else v ← readDigits 0 s; Some (v * 10 ^ (9 - Z.of_nat (String.length s))).
(** A day, as its number; year one is the first. *)
Definition readDate (s : string) : option Z :=
  match Split "-" s with
  | [y; m; d] =>
      y ← readNumber y; m ← readNumber m; d ← readNumber d;
      if decide (1 ≤ y ∧ validDate (mkDate y m d)) then Some (daysOf (mkDate y m d)) else None
  | _ => None
  end.
(** A time of day in nanoseconds; 24:00:00 is the last. *)
Definition readClock (s : string) : option Z :=
  match Split ":" s with
  | [h; m; sf] =>
      let '(sec, f) := SplitN2 "." sf in
      h ← readNumber h; m ← readNumber m; sec ← readNumber sec;
      f ← match f with None => Some 0 | Some f => readFraction f end;
      let t := (h * 3600 + m * 60 + sec) * SECOND + f in
      if decide (m < 60 ∧ sec < 60 ∧ t ≤ DAY) then Some t else None
  | _ => None
  end.
Definition readTimestamp (sep : ascii) (s : string) : option Z :=
  match SplitN2 sep s with
  | (d, Some c) => d ← readDate d; c ← readClock c; Some (d * DAY + c)
  | _ => None
  end.

(** *** Lemmas: digits *)
Lemma is_digit_digit d : 0 ≤ d < 10 → is_digit (digit d) = true ∧ Z.of_nat (nat_of_ascii (digit d)) - 48 = d.
Proof.
  intros H. unfold is_digit, digit. rewrite nat_ascii_embedding by lia. split; [|lia].
  apply andb_true_iff. rewrite !Nat.leb_le. lia.
Qed.
Lemma digits_length n v : String.length (digits n v) = n.
Proof. revert v. induction n as [|n IH]; intros v; [done|]. cbn [digits]. rewrite str_length_app, IH. cbn. lia. Qed.
Lemma digits_forallb n v : str_forallb is_digit (digits n v) = true.
Proof.
  revert v. induction n as [|n IH]; intros v; [done|]. cbn [digits]. rewrite str_forallb_app, IH. cbn.
  by rewrite (proj1 (is_digit_digit (v mod 10) ltac:(div_lia))).
Qed.
Lemma readDigits_app a x y : readDigits a (x +:+ y) = readDigits a x ≫= λ a', readDigits a' y.
Proof. revert a. induction x as [|c x IH]; intros a; [done|]. cbn. destruct (is_digit c); [apply IH|done]. Qed.
Lemma readDigits_digits n v a : 0 ≤ v → readDigits a (digits n v) = Some (a * 10 ^ Z.of_nat n + v mod 10 ^ Z.of_nat n).
Proof.
  revert v a. induction n as [|n IH]; intros v a Hv; [cbn; f_equal; rewrite Z.mod_1_r; lia|]. cbn [digits].
  rewrite readDigits_app, IH by div_lia. cbn [mbind option_bind readDigits].
  destruct (is_digit_digit (v mod 10) ltac:(div_lia)) as [-> ->]. f_equal.
  rewrite Nat2Z.inj_succ, Z.pow_succ_r by lia.
  rewrite (Z.rem_mul_r v 10 (10 ^ Z.of_nat n)) by (try lia; apply Z.pow_nonzero; lia). lia.
Qed.
Lemma countDigits_bound fuel v : 0 ≤ v → (1 ≤ countDigits fuel v)%nat ∧ (v < 10 * 10 ^ Z.of_nat fuel → v < 10 ^ Z.of_nat (countDigits fuel v)).
Proof.
  revert v. induction fuel as [|fuel IH]; intros v Hv; cbn [countDigits].
  - split; [done|]. cbn. lia.
  - destruct (Z.ltb_spec v 10); [split; [done|by rewrite Z.pow_1_r]|]. destruct (IH (v / 10) ltac:(div_lia)) as [_ IH2]. split; [lia|]. intros Hb.
    rewrite !Nat2Z.inj_succ, !Z.pow_succ_r in * by lia. specialize (IH2 ltac:(apply Z.div_lt_upper_bound; lia)).
    pose proof (Z.div_mod v 10 ltac:(lia)). pose proof (Z.mod_pos_bound v 10 ltac:(lia)). lia.
Qed.
Lemma width_bound v : 0 ≤ v → (1 ≤ width v)%nat ∧ v < 10 ^ Z.of_nat (width v).
Proof.
  intros Hv. unfold width. destruct (countDigits_bound (Z.to_nat (Z.log2 v)) v Hv) as [H1 H2]. split; [done|]. apply H2.
  destruct (decide (v = 0)) as [->|]; [done|]. pose proof (Z.log2_spec v ltac:(lia)) as [_ Hl].
  rewrite Z2Nat.id by apply Z.log2_nonneg. rewrite Z.pow_succ_r in Hl by apply Z.log2_nonneg.
  pose proof (Z.pow_le_mono_l 2 10 (Z.log2 v) ltac:(lia)). lia.
Qed.
Lemma appendInt_digits x w : 0 ≤ x → ∃ n, (w ≤ n)%nat ∧ (1 ≤ n)%nat ∧ x < 10 ^ Z.of_nat n ∧ appendInt x w = digits n x.
Proof.
  intros Hx. unfold appendInt. rewrite (proj2 (Z.ltb_ge x 0)), Z.abs_eq by lia. cbn. destruct (width_bound x Hx) as [H1 H2].
  eexists. split_and!; [| | |done]; [lia..|]. eapply Z.lt_le_trans; [exact H2|]. apply Z.pow_le_mono_r; lia.
Qed.
Lemma readNumber_appendInt x w : 0 ≤ x → readNumber (appendInt x w) = Some x.
Proof.
  intros Hx. destruct (appendInt_digits x w Hx) as (n & _ & Hn & Hb & ->). unfold readNumber. rewrite decide_False.
  - rewrite readDigits_digits by done. by rewrite Z.mod_small by lia.
  - intros H. apply (f_equal String.length) in H. rewrite digits_length in H. cbn in H. lia.
Qed.
Lemma appendInt_has c x w : 0 ≤ x → is_digit c = false → str_has c (appendInt x w) = false.
Proof. intros Hx Hc. destruct (appendInt_digits x w Hx) as (n & _ & _ & _ & ->). eapply str_forallb_has; [apply digits_forallb|done]. Qed.

(** *** Lemmas: fractions *)
Lemma stripZeros_readDigits s : ∃ k, String.length s = (String.length (stripZeros s) + k)%nat ∧
  ∀ a v, readDigits a s = Some v → ∃ v', readDigits a (stripZeros s) = Some v' ∧ v = v' * 10 ^ Z.of_nat k.
Proof.
  induction s as [|c s (k & Hk & IH)]; [exists 0%nat; split; [done|]; intros a v [= ->]; exists v; split; [done|]; cbn; lia|].
  cbn [stripZeros]. destruct (stripZeros s) as [|c' s'] eqn:Hs.
  - case_decide as Hc; [subst c|].
    + exists (S k). split; [cbn in *; lia|]. intros a v. cbn. intros Hv. destruct (IH _ _ Hv) as (v' & [= <-] & ->). exists a. split; [done|].
      change (Z.of_nat (nat_of_ascii "0") - 48) with 0. rewrite Nat2Z.inj_succ, Z.pow_succ_r by lia. lia.
    + exists k. split; [cbn in *; lia|]. intros a v. cbn. destruct (is_digit c); [|done]. apply IH.
  - exists k. split; [cbn in *; lia|]. intros a v. cbn. destruct (is_digit c); [|done]. apply IH.
Qed.
Lemma stripZeros_digits s : str_forallb is_digit s = true → str_forallb is_digit (stripZeros s) = true.
Proof.
  induction s as [|c s IH]; [done|]. cbn. intros [Hc Hs]%andb_true_iff. specialize (IH Hs).
  destruct (stripZeros s); [case_decide; cbn; by rewrite ?Hc|cbn; by rewrite Hc].
Qed.
Lemma readFraction_strip n v : (n ≤ 9)%nat → 0 ≤ v < 10 ^ Z.of_nat n →
  match stripZeros (digits n v) with "" => v = 0 | f => readFraction f = Some (v * 10 ^ (9 - Z.of_nat n)) end.
Proof.
  intros Hn Hv. destruct (stripZeros_readDigits (digits n v)) as (k & Hk & Hr). rewrite digits_length in Hk.
  destruct (Hr 0 v) as (v' & Hv' & Hvv). { rewrite readDigits_digits by lia. by rewrite Z.mod_small by lia. }
  destruct (stripZeros (digits n v)) as [|c s] eqn:Hs; [injection Hv' as <-; lia|].
  unfold readFraction. rewrite decide_False by (intros [|]; [done|lia]). rewrite Hv'. cbn [mbind option_bind]. f_equal. subst v.
  rewrite <- Z.mul_assoc, <- Z.pow_add_r by (cbn in *; lia). do 2 f_equal. lia.
Qed.
Lemma readFraction_digits n v : (1 ≤ n ≤ 9)%nat → 0 ≤ v < 10 ^ Z.of_nat n → readFraction (digits n v) = Some (v * 10 ^ (9 - Z.of_nat n)).
Proof.
  intros Hn Hv. unfold readFraction. rewrite digits_length, decide_False.
  - rewrite readDigits_digits by lia. by rewrite Z.mod_small by lia.
  - intros [H|H]; [|lia]. apply (f_equal String.length) in H. rewrite digits_length in H. cbn in H. lia.
Qed.
(** The nanoseconds that [n] digits show. *)
Definition shown (n : nat) (t : Z) : Z := nanosecond t / 10 ^ (9 - Z.of_nat n) * 10 ^ (9 - Z.of_nat n).
Lemma fraction_bound n t : (n ≤ 9)%nat → 0 ≤ nanosecond t / 10 ^ (9 - Z.of_nat n) < 10 ^ Z.of_nat n.
Proof.
  intros Hn. pose proof (Z.mod_pos_bound t SECOND ltac:(done)) as Hb. unfold nanosecond.
  assert (0 < 10 ^ (9 - Z.of_nat n)) by (apply Z.pow_pos_nonneg; lia).
  split; [apply Z.div_pos; lia|]. apply Z.div_lt_upper_bound; [done|]. rewrite <- Z.pow_add_r by lia.
  replace (9 - Z.of_nat n + Z.of_nat n) with 9 by lia. apply Hb.
Qed.
Lemma digits_no_dot n v c : is_digit c = false → str_has c (digits n v) = false.
Proof. intros. by eapply str_forallb_has; [apply digits_forallb|]. Qed.
Lemma SplitN2_none c a : str_has c a = false → SplitN2 c a = (a, None).
Proof. induction a as [|d a IH]; [done|]. rewrite str_has_cons. cbn. intros [Hd Ha]%orb_false_iff. by rewrite Hd, IH. Qed.
(** What follows the seconds is read back, if it is a fraction of either kind or nothing. *)
Definition readsAs (f : string) (ns : Z) : Prop := str_has ":" f = false ∧ ∀ s, str_has "." s = false →
  ∃ o, SplitN2 "." (s +:+ f) = (s, o) ∧ match o with None => Some 0 | Some f => readFraction f end = Some ns.
Lemma reads_none : readsAs "" 0.
Proof. split; [done|]. intros s Hs. exists None. rewrite str_app_nil_r. split; [by apply SplitN2_none|done]. Qed.
Lemma reads_fraction0 n t : (1 ≤ n ≤ 9)%nat → readsAs (FormatFraction0 n t) (shown n t).
Proof.
  intros Hn. unfold FormatFraction0, fraction. split; [rewrite str_has_app; apply orb_false_iff; split; [done|by apply digits_no_dot]|].
  intros s Hs. eexists. split; [by apply SplitN2_app|]. apply readFraction_digits; [done|]. apply fraction_bound. lia.
Qed.
Lemma reads_fraction9 n t : (n ≤ 9)%nat → readsAs (FormatFraction9 n t) (shown n t).
Proof.
  intros Hn. unfold FormatFraction9, fraction. pose proof (readFraction_strip n _ Hn (fraction_bound n t Hn)) as H. unfold shown.
  pose proof (stripZeros_digits _ (digits_forallb n (nanosecond t / 10 ^ (9 - Z.of_nat n)))) as Hh.
  destruct (stripZeros _) as [|c s]; [rewrite H, Z.mul_0_l; apply reads_none|]. split.
  - rewrite str_has_app. apply orb_false_iff. split; [done|]. by eapply str_forallb_has.
  - intros s' Hs'. eexists. split; [by apply SplitN2_app|done].
Qed.

(** *** Lemmas: dates and times are read back *)
Lemma hour_bound t : 0 ≤ hour t < 24 ∧ 0 ≤ minute t < 60 ∧ 0 ≤ second t < 60 ∧
  (hour t * 3600 + minute t * 60 + second t) * SECOND = t mod DAY - nanosecond t.
Proof.
  unfold hour, minute, second, secondOfDay, nanosecond. pose proof (Z.mod_pos_bound t DAY ltac:(done)) as Hb.
  assert (t mod SECOND = (t mod DAY) mod SECOND) as ->.
  { unfold DAY. by rewrite (Z.mul_comm 86400), Z.rem_mul_r, Z.mul_comm, Z_mod_plus_full, Z.mod_mod. }
  set (u := t mod DAY) in *. assert (0 ≤ u / SECOND < 86400) as Hs.
  { split; [apply Z.div_pos; [lia|done]|]. apply Z.div_lt_upper_bound; [done|]. unfold DAY, SECOND in *. lia. }
  pose proof (Z.div_mod u SECOND ltac:(done)) as Hd. set (s := u / SECOND) in *.
  assert (s = s / 3600 * 3600 + s mod 3600 / 60 * 60 + s mod 60 ∧ 0 ≤ s / 3600 < 24 ∧ 0 ≤ s mod 3600 / 60 < 60 ∧ 0 ≤ s mod 60 < 60) as (H1 & H2) by div_lia.
  split_and!; [apply H2..|]. rewrite <- H1. lia.
Qed.
Lemma readClock_Format t f ns : readsAs f ns → ns ≤ nanosecond t → readClock (FormatClock t +:+ f) = Some (t mod DAY - nanosecond t + ns).
Proof.
  intros [Hc Hf] Hn. destruct (hour_bound t) as (Hh & Hm & Hs & Ht). unfold readClock, FormatClock.
  assert (Hsec : str_has "." (appendInt (second t) 2) = false) by (apply appendInt_has; [lia|done]).
  destruct (Hf _ Hsec) as (o & Hspl & Hread).
  rewrite !str_app_assoc. cbn [String.append]. rewrite Split_app by (apply appendInt_has; [lia|done]). cbn [String.append].
  rewrite Split_app by (apply appendInt_has; [lia|done]).
  rewrite Split_none by (rewrite str_has_app; apply orb_false_iff; split; [apply appendInt_has; [lia|done]|done]).
  rewrite Hspl, !readNumber_appendInt by lia. cbn [mbind option_bind]. rewrite Hread. cbn [mbind option_bind].
  rewrite Ht, decide_True; [done|]. pose proof (Z.mod_pos_bound t DAY ltac:(done)). lia.
Qed.
Lemma year_pos n : -719162 ≤ n → 1 ≤ year (dateOf n).
Proof.
  intros Hn. destruct (dateOf_parts n) as (yr & mp & doy & -> & Hd & Hmp & Hb & _). cbn [year].
  destruct (decide (1 ≤ yr)); [case_match; lia|]. destruct (decide (yr = 0)) as [->|].
  - change (daysBefore 0) with 0 in Hd. assert (10 ≤ mp) by (subst mp; div_lia).
    destruct (Z.ltb_spec mp 10); [lia|]. destruct (Z.leb_spec (mp - 9) 2); [lia|]. subst mp. exfalso. revert H H1. div_lia.
  - exfalso. unfold daysBefore in Hd. revert Hd. div_lia.
Qed.
Lemma readDate_Format t : -719162 ≤ t / DAY → readDate (FormatDate t) = Some (t / DAY).
Proof.
  intros Ht. unfold FormatDate, readDate, dateAt. pose proof (year_pos _ Ht) as Hy. pose proof (dateOf_valid (t / DAY)) as Hv.
  pose proof Hv as [Hm Hd]. cbn [String.append].
  rewrite Split_app by (apply appendInt_has; [lia|done]). cbn [String.append]. rewrite Split_app by (apply appendInt_has; [lia|done]).
  rewrite Split_none by (apply appendInt_has; [lia|done]). rewrite !readNumber_appendInt by lia. cbn [mbind option_bind].
  pose proof (daysOf_dateOf (t / DAY)) as Hr. destruct (dateOf (t / DAY)) as [y m d]. cbn [year month day] in *. by rewrite decide_True, Hr.
Qed.
Lemma FormatDate_has c t : is_digit c = false → c ≠ "-"%char → -719162 ≤ t / DAY → str_has c (FormatDate t) = false.
Proof.
  intros Hd Hc Ht. pose proof (year_pos _ Ht) as Hy. destruct (dateOf_valid (t / DAY)) as [Hm Hdy].
  unfold FormatDate, dateAt. rewrite !str_has_app, !(appendInt_has c) by (done || lia). rewrite !str_has_cons. by rewrite bool_decide_false by congruence.
Qed.
Lemma readTimestamp_Format sep t f ns : is_digit sep = false → sep ≠ "-"%char → -719162 ≤ t / DAY → readsAs f ns → ns ≤ nanosecond t →
  readTimestamp sep (FormatDate t +:+ String sep (FormatClock t +:+ f)) = Some (t - nanosecond t + ns).
Proof.
  intros Hd Hs Ht Hf Hn. unfold readTimestamp. pose proof (year_pos _ Ht) as Hy. destruct (dateOf_valid (t / DAY)) as [Hm Hdy].
  pose proof (FormatDate_has sep t Hd Hs Ht) as Hh.
  rewrite SplitN2_app, readDate_Format, (readClock_Format _ _ _ Hf) by done.
  cbn [mbind option_bind]. f_equal. pose proof (Z.div_mod t DAY ltac:(done)). lia.
Qed.
(** *** Lemmas: what the texts are made of *)
Lemma FormatClock_has c t : is_digit c = false → c ≠ ":"%char → str_has c (FormatClock t) = false.
Proof.
  intros Hd Hc. destruct (hour_bound t) as (Hh & Hm & Hs & _).
  unfold FormatClock. rewrite !str_has_app, !(appendInt_has c) by (done || lia). rewrite !str_has_cons. by rewrite bool_decide_false by congruence.
Qed.
Lemma FormatFraction_has c n t : is_digit c = false → c ≠ "."%char → str_has c (FormatFraction0 n t) = false ∧ str_has c (FormatFraction9 n t) = false.
Proof.
  intros Hd Hc. unfold FormatFraction0, FormatFraction9, fraction.
  pose proof (stripZeros_digits _ (digits_forallb n (nanosecond t / 10 ^ (9 - Z.of_nat n)))) as Hh. split.
  - rewrite str_has_app, str_has_cons, bool_decide_false, digits_no_dot by congruence. done.
  - destruct (stripZeros _) as [|d s]; [done|]. rewrite str_has_app, str_has_cons, bool_decide_false by congruence. cbn [str_has orb].
    by eapply str_forallb_has.
Qed.
(** Digits enough for the precision of a time show all of it. *)
Lemma shown_all n k : (n ≤ 9)%nat → shown n (k * 10 ^ (9 - Z.of_nat n)) = nanosecond (k * 10 ^ (9 - Z.of_nat n)).
Proof.
  intros Hn. unfold shown, nanosecond, SECOND. assert (0 < 10 ^ (9 - Z.of_nat n)) by (apply Z.pow_pos_nonneg; lia).
  assert (10 ^ 9 = 10 ^ Z.of_nat n * 10 ^ (9 - Z.of_nat n)) as -> by (rewrite <- Z.pow_add_r by lia; f_equal; lia).
  rewrite Z.mul_mod_distr_r by (try apply Z.pow_nonzero; lia). by rewrite Z.div_mul by lia.
Qed.
End CivilTime.
