(* ===== verification/ValueSuite.v ===== *)
(** * Value converters (src/yb-voyager/src/tgtdb/suites: yugabytedbSuite.go, oracleSuite.go)

    A value of a change event or of an exported row comes as Debezium writes it, a number
    of microseconds, a string in base 64; a converter turns it into the text the target
    takes, as a literal of a statement or as it is.  The encodings of Go's library
    (base64, hexadecimal and binary numbers, dates) are modelled as far as they are used.
    The two Oracle converters that compute with floating point or parse a zone are
    arguments of the suite. *)
From S2P Require Import Prelude CivilTime.
Import CivilTime.

Module ValueSuite.
(** ** What the schema registry knows of a column *)
Record ColumnSchema : Type := mkColumnSchema { cs_Type : string; cs_Name : string; Parameters : gmap string string }.
(** The schema is a pointer and may be nil. *)
Definition ConverterFn : Type := string → bool → option ColumnSchema → result string.

(** ** Encodings *)
(** Base 64: [None] for a character outside of the alphabet. *)
Definition code (c : ascii) : Z := Z.of_nat (nat_of_ascii c).
Definition base64Value (c : ascii) : option Z :=
  let n := code c in
  if (65 <=? n) && (n <=? 90) then Some (n - 65)
  else if (97 <=? n) && (n <=? 122) then Some (n - 71)
  else if (48 <=? n) && (n <=? 57) then Some (n + 4)
  else if n =? 43 then Some 62 else if n =? 47 then Some 63 else None.
(** Line breaks are ignored; the last group of four may be padded, and nothing follows it. *)
Fixpoint decodeQuanta (s : list ascii) : option (list Z) :=
  match s with
  | [] => Some []
  | a :: b :: c :: d :: rest =>
      a ← base64Value a; b ← base64Value b;
      let b0 := a * 4 + b / 16 in
      if decide (c = "="%char) then if decide (d = "="%char ∧ rest = []) then Some [b0] else None
      else c ← base64Value c;
        let b1 := b mod 16 * 16 + c / 4 in
        if decide (d = "="%char) then if decide (rest = []) then Some [b0; b1] else None
        else d ← base64Value d; bytes ← decodeQuanta rest; Some (b0 :: b1 :: c mod 4 * 64 + d :: bytes)
  | _ => None
  end.
Definition isLineBreak (c : ascii) : bool := (code c =? 10) || (code c =? 13).
Definition DecodeString (s : string) : option (list Z) :=
  decodeQuanta (filter (λ c, negb (isLineBreak c)) (String.list_ascii_of_string s)).
(** The verb %02x of a byte, and %b. *)
Definition hexDigit (n : Z) : ascii := ascii_of_nat (Z.to_nat (if n <? 10 then 48 + n else 87 + n)).
Definition FormatHex (b : Z) : string := String (hexDigit (b / 16)) (String (hexDigit (b mod 16)) "").
Fixpoint positiveBits (p : positive) (rest : string) : string :=
  match p with xH => String "1" rest | xO p => positiveBits p (String "0" rest) | xI p => positiveBits p (String "1" rest) end.
Definition FormatBinary (v : Z) : string := match v with Zpos p => positiveBits p "" | _ => "0" end.
Fixpoint repeatChar (n : nat) (c : ascii) : string := match n with O => "" | S n => String c (repeatChar n c) end.
(** %0*b: zeros in front up to the width; a negative width has blanks behind, and one
    beyond a million is none. *)
Definition FormatBinary0 (width v : Z) : string :=
  let s := FormatBinary v in
  let missing w := Z.to_nat (w - Z.of_nat (String.length s)) in
  if (1000000 <? width) || (width <? -1000000) then "%!(BADWIDTH)" +:+ s
  else if width <? 0 then s +:+ repeatChar (missing (- width)) " " else repeatChar (missing width) "0" +:+ s.

(** ** Literals *)
(** strings.Replace of a quote by two. *)
Fixpoint escapeQuotes (s : string) : string :=
  match s with "" => "" | String c s => if decide (c = "'"%char) then String c (String c (escapeQuotes s)) else String c (escapeQuotes s) end.
Definition quoteValueIfRequired (value : string) (formatIfRequired : bool) (_ : option ColumnSchema) : result string :=
  Ok (if formatIfRequired then "'" +:+ value +:+ "'" else value).
Definition quoteValueIfRequiredWithEscaping (value : string) (formatIfRequired : bool) (_ : option ColumnSchema) : result string :=
  Ok (if formatIfRequired then "'" +:+ escapeQuotes value +:+ "'" else value).
Definition parseInt (what s : string) : result Z := match ParseInt64 s with Some n => Ok n | None => Err ("parsing epoch " +:+ what) end.

(** ** The suite of YugabyteDB and PostgreSQL *)
Definition convertDate : ConverterFn := λ v format schema,
  epochDays ← parseInt "seconds" v;
  let epochSecs := wrap64 (epochDays * 24 * 60 * 60) in
  quoteValueIfRequired (FormatDate (Unix epochSecs 0)) format schema.
Definition convertTimestamp : ConverterFn := λ v format schema,
  epochMilliSecs ← parseInt "milliseconds" v;
  let t := Unix (Z.quot epochMilliSecs 1000) 0 in
  quoteValueIfRequired (FormatDate t +:+ " " +:+ FormatClock t) format schema.
Definition convertMicroTimestamp : ConverterFn := λ v format schema,
  epochMicroSecs ← parseInt "microseconds" v;
  let t := Unix (Z.quot epochMicroSecs 1000000) (Z.rem epochMicroSecs 1000000 * 1000) in
  quoteValueIfRequired (FormatDate t +:+ "T" +:+ FormatClock t +:+ FormatFraction9 6 t) format schema.
Definition convertNanoTimestamp : ConverterFn := λ v format schema,
  epochNanoSecs ← parseInt "nanoseconds" v;
  let t := Unix (Z.quot epochNanoSecs 1000000000) (Z.rem epochNanoSecs 1000000000) in
  quoteValueIfRequired (FormatDate t +:+ "T" +:+ FormatClock t +:+ FormatFraction9 9 t) format schema.
Definition convertTime : ConverterFn := λ v format schema,
  epochMilliSecs ← parseInt "milliseconds" v;
  if (epochMilliSecs <? 0) || (86400000 <? epochMilliSecs) then Err "time-of-day offset is outside [00:00:00, 24:00:00]" else
  let t := epochMilliSecs * 1000000 in
  let timeValue := if epochMilliSecs =? 86400000 then "24:00:00.000" else FormatClock t +:+ FormatFraction9 3 t in
  quoteValueIfRequired timeValue format schema.
Definition convertMicroTime : ConverterFn := λ v format schema,
  epochMicroSecs ← parseInt "microseconds" v;
  if (epochMicroSecs <? 0) || (86400000000 <? epochMicroSecs) then Err "time-of-day offset is outside [00:00:00, 24:00:00]" else
  let t := epochMicroSecs * 1000 in
  let timeValue := if epochMicroSecs =? 86400000000 then "24:00:00.000000" else FormatClock t +:+ FormatFraction0 6 t in
  quoteValueIfRequired timeValue format schema.
Definition BIT_VARYING_MAX_LEN : Z := 2147483647.
Definition littleEndian (bytes : list Z) : Z := foldr (λ b data, b + 256 * data) 0 bytes.
Definition orBytes (bytes : list Z) : Z := foldl (λ data ib, Z.lor data (Z.shiftl ib.2 (8 * Z.of_nat ib.1))) 0 (imap pair bytes).
(** The length is parsed whether or not there is one: without it the conversion panics. *)
Definition convertBits : ConverterFn := λ v format schema,
  match DecodeString v with
  | None => Err "decoding variable scale decimal in base64"
  | Some bytes =>
      let data := if (8 <=? length bytes)%nat then littleEndian (take 8 bytes) else orBytes bytes in
      let quote := if format then "'" else "" in
      match schema with
      | None => Panic "nil pointer dereference"
      | Some schema =>
          match ParseInt64 (default "" (Parameters schema !! "length")) with
          | None => Panic "strconv.Atoi: invalid syntax"
          | Some n =>
              let length := match Parameters schema !! "length" with Some _ => n | None => BIT_VARYING_MAX_LEN end in
              if length =? BIT_VARYING_MAX_LEN then Ok (quote +:+ FormatBinary data +:+ quote)
              else Ok (quote +:+ FormatBinary0 length data +:+ quote)
          end
      end
  end.
Definition unchanged : ConverterFn := λ v _ _, Ok v.
Definition convertBytes : ConverterFn := λ v format _,
  match DecodeString v with
  | None => Err "decoding base64 string"
  | Some bytes => let hex := "\x" +:+ Join "" (map FormatHex bytes) in Ok (if format then "'" +:+ hex +:+ "'" else hex)
  end.
(** A map from the name of a type, none twice. *)
Definition Suite : Type := list (string * ConverterFn).
Definition converterFor (suite : Suite) (type : string) : option ConverterFn := snd <$> List.find (λ p, bool_decide (p.1 = type)) suite.
Definition YBValueConverterSuite : Suite := [
  ("io.debezium.data.Json", quoteValueIfRequiredWithEscaping);
  ("io.debezium.data.Enum", quoteValueIfRequiredWithEscaping);
  ("io.debezium.time.Interval", quoteValueIfRequired);
  ("io.debezium.data.Uuid", quoteValueIfRequired);
  ("io.debezium.data.Ltree", quoteValueIfRequired);
  ("io.debezium.time.Date", convertDate);
  ("io.debezium.time.Timestamp", convertTimestamp);
  ("io.debezium.time.MicroTimestamp", convertMicroTimestamp);
  ("io.debezium.time.NanoTimestamp", convertNanoTimestamp);
  ("io.debezium.time.ZonedTimestamp", quoteValueIfRequired);
  ("io.debezium.time.Time", convertTime);
  ("io.debezium.time.MicroTime", convertMicroTime);
  ("io.debezium.data.Bits", convertBits);
  ("io.debezium.data.geometry.Point", unchanged);
  ("io.debezium.data.geometry.Geometry", unchanged);
  ("io.debezium.data.geometry.Geography", unchanged);
  ("org.apache.kafka.connect.data.Decimal", unchanged);
  ("io.debezium.data.VariableScaleDecimal", unchanged);
  ("BYTES", convertBytes);
  ("MAP", quoteValueIfRequiredWithEscaping);
  ("STRING", quoteValueIfRequiredWithEscaping)].

(** ** The suite of Oracle *)
Definition TO_DATE (s : string) (format : bool) : string := if format then "TO_DATE('" +:+ s +:+ "', 'DD-MM-YYYY')" else s.
Definition TO_TIMESTAMP (s : string) (format : bool) : string := if format then "TO_TIMESTAMP('" +:+ s +:+ "','DD-MM-RR HH:MI:SS.FF9 AM')" else s.
Definition oraDATE : ConverterFn := λ v format _,
  epochMilliSecs ← parseInt "milliseconds" v;
  Ok (TO_DATE (FormatDayFirst (Unix (Z.quot epochMilliSecs 1000) 0)) format).
Definition oraDate : ConverterFn := λ v format _,
  epochDays ← parseInt "seconds" v;
  Ok (TO_DATE (FormatDayFirst (Unix (wrap64 (epochDays * 24 * 60 * 60)) 0)) format).
(** The layout 02-01-2006 03.04.05.000 PM, with [n] digits of the fraction. *)
Definition oraTimestampFormat (n : nat) (t : Z) : string :=
  FormatDayFirst t +:+ " " +:+ FormatClock12 t +:+ FormatFraction0 n t +:+ " " +:+ FormatPM t.
Definition oraTimestamp : ConverterFn := λ v format _,
  epochMilliSecs ← parseInt "milliseconds" v;
  Ok (TO_TIMESTAMP (oraTimestampFormat 3 (Unix (Z.quot epochMilliSecs 1000) 0)) format).
Definition oraMicroTimestamp : ConverterFn := λ v format _,
  epochMicroSecs ← parseInt "microseconds" v;
  Ok (TO_TIMESTAMP (oraTimestampFormat 6 (Unix (Z.quot epochMicroSecs 1000000) (Z.rem epochMicroSecs 1000000 * 1000))) format).
Definition oraNanoTimestamp : ConverterFn := λ v format _,
  epochNanoSecs ← parseInt "nanoseconds" v;
  Ok (TO_TIMESTAMP (oraTimestampFormat 9 (Unix (Z.quot epochNanoSecs 1000000000) (Z.rem epochNanoSecs 1000000000))) format).
Definition oraBytes : ConverterFn := λ v format _,
  match DecodeString v with
  | None => Err "decoding base64 string"
  | Some bytes => let hex := Join "" (map FormatHex bytes) in Ok (if format then "'" +:+ hex +:+ "'" else hex)
  end.
(** Go converts to float64 and back: beyond 53 bits rounded to even (on amd64, 2^63 wraps). *)
Definition float64OfInt (x : Z) : Z :=
  let a := Z.abs x in
  let e := Z.log2 a - 52 in
  if e <=? 0 then x else
  let m := a / 2 ^ e in
  let r := a mod 2 ^ e in
  let m := if (2 ^ (e - 1) <? r) || ((r =? 2 ^ (e - 1)) && Z.odd m) then m + 1 else m in
  Z.sgn x * (m * 2 ^ e).
Definition absInt64 (x : Z) : Z := wrap64 (Z.abs (float64OfInt x)).
Definition TrimPrefix (s p : string) : string := if HasPrefix s p then String.substring (String.length p) (String.length s - String.length p) s else s.
(** A part that is missing is an index out of range. *)
Definition part (l : list string) (i : nat) : result string := match l !! i with Some s => Ok s | None => Panic "index out of range" end.
Definition oraIntervalYearToMonth : ConverterFn := λ v format _,
  let splits := Split "M" (TrimPrefix v "P") in
  s0 ← part splits 0;
  let yearsMonths := Split "Y" s0 in
  y ← part yearsMonths 0; years ← match ParseInt64 y with Some n => Ok n | None => Err "parsing years" end;
  m ← part yearsMonths 1; months ← match ParseInt64 m with Some n => Ok n | None => Err "parsing months" end;
  let text := if (years <? 0) || (months <? 0) then "-" +:+ itoa (absInt64 years) +:+ "-" +:+ itoa (absInt64 months)
              else itoa years +:+ "-" +:+ itoa months in
  Ok (if format then "INTERVAL'" +:+ text +:+ "'YEAR TO MONTH" else text).
Section oracle.
Context (zonedTimestamp intervalDayToSecond : ConverterFn).
Definition OraValueConverterSuite : Suite := [
  ("DATE", oraDATE);
  ("io.debezium.time.Date", oraDate);
  ("io.debezium.time.Timestamp", oraTimestamp);
  ("io.debezium.time.MicroTimestamp", oraMicroTimestamp);
  ("io.debezium.time.NanoTimestamp", oraNanoTimestamp);
  ("io.debezium.time.ZonedTimestamp", zonedTimestamp);
  ("BYTES", oraBytes);
  ("STRING", quoteValueIfRequiredWithEscaping);
  ("INTERVAL YEAR TO MONTH", oraIntervalYearToMonth);
  ("INTERVAL DAY TO SECOND", intervalDayToSecond)].
End oracle.

(** ** What a text means to the target *)
(** A string constant: two quotes stand for one; a backslash for itself. *)
Fixpoint readBody (s : string) : option string :=
  match s with
  | "" => None
  | String c s =>
      if decide (c = "'"%char) then
        match s with "" => Some "" | String c' s => if decide (c' = "'"%char) then String c <$> readBody s else None end
      else String c <$> readBody s
  end.
Definition readLiteral (s : string) : option string :=
  match s with String c s => if decide (c = "'"%char) then readBody s else None | "" => None end.
(** A formatted value stands in a statement, another is taken as it is. *)
Definition meant (format : bool) (out : string) : option string := if format then readLiteral out else Some out.
(** The same encodings the other way. *)
Definition base64Char (n : Z) : ascii :=
  ascii_of_nat (Z.to_nat (if n <? 26 then n + 65 else if n <? 52 then n + 71 else if n <? 62 then n - 4 else if n =? 62 then 43 else 47)).
Fixpoint encodeQuanta (bytes : list Z) : list ascii :=
  match bytes with
  | [] => []
  | [a] => [base64Char (a / 4); base64Char (a mod 4 * 16); "="%char; "="%char]
  | [a; b] => [base64Char (a / 4); base64Char (a mod 4 * 16 + b / 16); base64Char (b mod 16 * 4); "="%char]
  | a :: b :: c :: rest =>
      base64Char (a / 4) :: base64Char (a mod 4 * 16 + b / 16) :: base64Char (b mod 16 * 4 + c / 64) :: base64Char (c mod 64) :: encodeQuanta rest
  end.
Definition EncodeToString (bytes : list Z) : string := String.string_of_list_ascii (encodeQuanta bytes).
Definition hexValue (c : ascii) : option Z :=
  let n := code c in
  if (48 <=? n) && (n <=? 57) then Some (n - 48) else if (97 <=? n) && (n <=? 102) then Some (n - 87) else None.
Fixpoint readHex (s : string) : option (list Z) :=
  match s with
  | "" => Some []
  | String a (String b s) => a ← hexValue a; b ← hexValue b; bytes ← readHex s; Some (16 * a + b :: bytes)
  | _ => None
  end.
(** The hexadecimal form of bytea. *)
Definition readBytea (s : string) : option (list Z) :=
  match s with String a (String b s) => if decide (a = "\"%char ∧ b = "x"%char) then readHex s else None | _ => None end.
Fixpoint readBinary (acc : Z) (s : string) : option Z :=
  match s with
  | "" => Some acc
  | String c s => if decide (c = "0"%char) then readBinary (2 * acc) s else if decide (c = "1"%char) then readBinary (2 * acc + 1) s else None
  end.
(** The types whose values are numbers: the instant of one, in nanoseconds, and how the
    target reads its text. *)
Definition instant (type : string) (v : Z) : option Z :=
  if decide (type = "io.debezium.time.Date") then Some (v * DAY)
  else if decide (type = "io.debezium.time.Timestamp") then Some (Z.quot v 1000 * SECOND)
  else if decide (type = "io.debezium.time.MicroTimestamp") then Some (v * 1000)
  else if decide (type = "io.debezium.time.NanoTimestamp") then Some v
  else if decide (type = "io.debezium.time.Time") then Some (v * 1000000)
  else if decide (type = "io.debezium.time.MicroTime") then Some (v * 1000)
  else None.
Definition isTimeOfDay (type : string) : bool := bool_decide (type = "io.debezium.time.Time" ∨ type = "io.debezium.time.MicroTime").
Definition readInstant (type s : string) : option Z :=
  if isTimeOfDay type then readClock s
  else if decide (type = "io.debezium.time.Date") then n ← readDate s; Some (n * DAY)
  else readTimestamp (if decide (type = "io.debezium.time.Timestamp") then " "%char else "T"%char) s.
(** The first day of year one, and for a date what an int64 counts in seconds. *)
Definition inRange (type : string) (v : Z) : Prop :=
  in_int64 v = true ∧
  match instant type v with
  | Some t => if isTimeOfDay type then 0 ≤ t ≤ DAY
              else -719162 * DAY ≤ t ∧ (type = "io.debezium.time.Date" → in_int64 (v * 86400) = true)
  | None => False
  end.

#[local] Ltac lia_div := Z.to_euclidean_division_equations; lia.
(** ** Lemmas *)
Lemma readBody_escape s : readBody (escapeQuotes s +:+ "'") = Some s.
Proof.
  induction s as [|c s IH]; [done|]. cbn [escapeQuotes]. case_decide as Hc; cbn [String.append readBody].
  - subst c. rewrite !decide_True by done. by rewrite IH.
  - rewrite decide_False by done. by rewrite IH.
Qed.
Lemma escape_id s : str_has "'" s = false → escapeQuotes s = s.
Proof.
  induction s as [|c s IH]; [done|]. rewrite str_has_cons. intros [Hc Hs]%orb_false_iff. apply bool_decide_eq_false in Hc.
  cbn. rewrite decide_False by done. by rewrite IH.
Qed.
Lemma meant_escaped v format schema : ∃ out, quoteValueIfRequiredWithEscaping v format schema = Ok out ∧ meant format out = Some v.
Proof. eexists. split; [done|]. destruct format; [|done]. apply readBody_escape. Qed.
Lemma meant_quoted v format schema : (format = true → str_has "'" v = false) →
  ∃ out, quoteValueIfRequired v format schema = Ok out ∧ meant format out = Some v.
Proof. intros Hv. eexists. split; [done|]. destruct format; [|done]. pose proof (readBody_escape v) as H. rewrite escape_id in H by auto. exact H. Qed.

(** *** Base 64 and hexadecimal *)
Lemma base64_char n : 0 ≤ n < 64 → base64Value (base64Char n) = Some n ∧ base64Char n ≠ "="%char ∧ isLineBreak (base64Char n) = false.
Proof.
  intros Hn. assert (∀ k, (k < 64)%nat → bool_decide (base64Value (base64Char (Z.of_nat k)) = Some (Z.of_nat k) ∧
    base64Char (Z.of_nat k) ≠ "="%char ∧ isLineBreak (base64Char (Z.of_nat k)) = false) = true) as H.
  { intros k Hk. assert (forallb (λ k, bool_decide (base64Value (base64Char (Z.of_nat k)) = Some (Z.of_nat k) ∧
      base64Char (Z.of_nat k) ≠ "="%char ∧ isLineBreak (base64Char (Z.of_nat k)) = false)) (seq 0 64) = true) as Hall by (vm_compute; done).
    rewrite forallb_forall in Hall. apply Hall, in_seq. lia. }
  specialize (H (Z.to_nat n) ltac:(lia)). rewrite Z2Nat.id in H by lia. by apply bool_decide_eq_true in H.
Qed.
Definition isByte (b : Z) : Prop := 0 ≤ b < 256.
(** Three bytes at a time. *)
Lemma list_ind3 {A} (P : list A → Prop) : P [] → (∀ a, P [a]) → (∀ a b, P [a; b]) → (∀ a b c l, P l → P (a :: b :: c :: l)) → ∀ l, P l.
Proof. intros H0 H1 H2 H3. fix IH 1. intros [|a [|b [|c l]]]; [done|apply H1|apply H2|apply H3, IH]. Qed.
#[local] Ltac base64_step :=
  repeat match goal with
  | |- context [base64Value (base64Char ?n)] => rewrite (proj1 (base64_char n ltac:(lia_div))); cbn [mbind option_bind]
  | |- context [decide (base64Char ?n = "="%char)] => rewrite (decide_False (P := base64Char n = "="%char)) by (apply base64_char; lia_div)
  | |- context [decide (base64Char ?n = "="%char ∧ _)] => rewrite (decide_False (P := base64Char n = "="%char ∧ _)) by (intros [He _]; revert He; apply base64_char; lia_div)
  end.
Lemma decode_encode bytes : Forall isByte bytes → decodeQuanta (encodeQuanta bytes) = Some bytes.
Proof.
  unfold isByte. induction bytes as [|a|a b|a b c l IH] using list_ind3; intros Hb; repeat (apply Forall_cons in Hb as [? Hb]).
  - done.
  - cbn [encodeQuanta decodeQuanta]. base64_step. rewrite !decide_True by done. do 2 f_equal. lia_div.
  - cbn [encodeQuanta decodeQuanta]. base64_step. rewrite !decide_True by done. do 2 f_equal; [lia_div|f_equal; lia_div].
  - cbn [encodeQuanta decodeQuanta]. base64_step. rewrite IH by done. cbn [mbind option_bind]. do 2 f_equal; [lia_div|f_equal; [lia_div|f_equal; lia_div]].
Qed.
Lemma encode_lines bytes : Forall isByte bytes → filter (λ c, negb (isLineBreak c)) (encodeQuanta bytes) = encodeQuanta bytes.
Proof.
  intros Hb. assert (Forall (λ c, isLineBreak c = false) (encodeQuanta bytes)) as H.
  { revert Hb. unfold isByte. induction bytes as [|a|a b|a b c l IH] using list_ind3; intros Hb; repeat (apply Forall_cons in Hb as [? Hb]); cbn [encodeQuanta];
      repeat (apply Forall_cons; split); try done; try (apply base64_char; lia_div). by apply IH. }
  induction H as [|c l Hc _ IH]; [done|]. rewrite filter_cons, decide_True by by rewrite Hc. by rewrite IH.
Qed.
Lemma DecodeString_Encode bytes : Forall isByte bytes → DecodeString (EncodeToString bytes) = Some bytes.
Proof. intros Hb. unfold DecodeString, EncodeToString. rewrite String.list_ascii_of_string_of_list_ascii, encode_lines by done. by apply decode_encode. Qed.
Lemma hex_digit n : 0 ≤ n < 16 → hexValue (hexDigit n) = Some n ∧ hexDigit n ≠ "'"%char.
Proof.
  intros Hn. assert (n = 0 ∨ n = 1 ∨ n = 2 ∨ n = 3 ∨ n = 4 ∨ n = 5 ∨ n = 6 ∨ n = 7 ∨ n = 8 ∨ n = 9 ∨ n = 10 ∨ n = 11 ∨ n = 12 ∨ n = 13 ∨ n = 14 ∨ n = 15) as H by lia.
  by repeat (destruct H as [->|H]); try subst n.
Qed.
Lemma readHex_Format bytes : Forall isByte bytes → readHex (Join "" (map FormatHex bytes)) = Some bytes ∧ str_has "'" (Join "" (map FormatHex bytes)) = false.
Proof.
  unfold isByte. induction 1 as [|b l Hb _ [IH1 IH2]]; [done|]. cbn [map]. rewrite Join_cons. unfold FormatHex at 1 3.
  destruct (hex_digit (b / 16) ltac:(lia_div)) as [E1 N1], (hex_digit (b mod 16) ltac:(lia_div)) as [E2 N2].
  cbn [String.append]. split.
  - cbn [readHex]. rewrite E1, E2, IH1. cbn [mbind option_bind]. do 2 f_equal. lia_div.
  - rewrite !str_has_cons, !bool_decide_false by done. done.
Qed.
(** *** Bits *)
Lemma readBinary_positive p rest acc : 0 ≤ acc → readBinary acc (positiveBits p rest) = readBinary (acc * 2 ^ Z.of_nat (Pos.size_nat p) + Zpos p) rest.
Proof.
  revert rest. induction p as [p IH|p IH|]; intros rest Ha; cbn [positiveBits Pos.size_nat]; rewrite ?IH by done; cbn [readBinary];
    rewrite ?decide_True, ?decide_False, ?decide_True by done; f_equal; rewrite Nat2Z.inj_succ, Z.pow_succ_r by lia; lia.
Qed.
Lemma length_positiveBits p rest : String.length (positiveBits p rest) = (Pos.size_nat p + String.length rest)%nat.
Proof. revert rest. induction p as [p IH|p IH|]; intros rest; cbn [positiveBits Pos.size_nat]; rewrite ?IH; cbn [String.length]; lia. Qed.
Lemma readBinary_Format v : 0 ≤ v → readBinary 0 (FormatBinary v) = Some v.
Proof. intros Hv. destruct v as [|p|p]; [done| |lia]. cbn [FormatBinary]. by rewrite readBinary_positive. Qed.
Lemma size_nat_bound p : 2 ^ Z.of_nat (Pos.size_nat p) ≤ 2 * Zpos p.
Proof. induction p as [p IH|p IH|]; cbn [Pos.size_nat]; [..|done]; rewrite Nat2Z.inj_succ, Z.pow_succ_r by lia; lia. Qed.
Lemma length_FormatBinary v n : 0 < n → 0 ≤ v < 2 ^ n → Z.of_nat (String.length (FormatBinary v)) ≤ n.
Proof.
  intros Hn [H0 Hv]. destruct v as [|p|p]; [cbn; lia| |lia]. cbn [FormatBinary]. rewrite length_positiveBits. cbn [String.length].
  pose proof (size_nat_bound p) as Hs. assert (2 ^ Z.of_nat (Pos.size_nat p) < 2 ^ (n + 1)) as Hlt by (rewrite Z.pow_add_r; lia).
  apply Z.pow_lt_mono_r_iff in Hlt; lia.
Qed.
Lemma readBinary_zeros n s : readBinary 0 (repeatChar n "0" +:+ s) = readBinary 0 s.
Proof. induction n as [|n IH]; [done|]. cbn. apply IH. Qed.
Lemma length_repeatChar n c : String.length (repeatChar n c) = n.
Proof. induction n; cbn; congruence. Qed.
(** Only zeros and ones. *)
Lemma binary_chars v : str_forallb (λ c, bool_decide (c = "0"%char ∨ c = "1"%char)) (FormatBinary v) = true.
Proof.
  destruct v as [|p|p]; [done| |done]. cbn [FormatBinary].
  assert (∀ rest, str_forallb (λ c, bool_decide (c = "0"%char ∨ c = "1"%char)) rest = true →
    str_forallb (λ c, bool_decide (c = "0"%char ∨ c = "1"%char)) (positiveBits p rest) = true) as H; [|by apply H].
  induction p as [p IH|p IH|]; intros rest Hr; cbn [positiveBits]; [by apply IH|by apply IH|done].
Qed.
Lemma FormatBinary0_spec w v : 0 ≤ w ≤ 1000000 → 0 ≤ v → readBinary 0 (FormatBinary0 w v) = Some v ∧
  str_has "'" (FormatBinary0 w v) = false ∧ (0 < w → v < 2 ^ w → Z.of_nat (String.length (FormatBinary0 w v)) = w).
Proof.
  intros Hw Hv. unfold FormatBinary0. rewrite (proj2 (Z.ltb_ge _ _)), (proj2 (Z.ltb_ge w (-1000000))), (proj2 (Z.ltb_ge w 0)) by lia. cbn [orb].
  split_and!.
  - rewrite readBinary_zeros. by apply readBinary_Format.
  - rewrite str_has_app. apply orb_false_iff. split; [|eapply str_forallb_has; [apply binary_chars|done]].
    generalize (Z.to_nat (w - Z.of_nat (String.length (FormatBinary v)))). intros n. by induction n.
  - intros Hw' Hb. rewrite str_length_app, length_repeatChar. pose proof (length_FormatBinary v w Hw' ltac:(lia)). lia.
Qed.
Lemma lor_shift a b n : 0 ≤ n → 0 ≤ a < 2 ^ n → Z.lor a (Z.shiftl b n) = a + b * 2 ^ n.
Proof.
  intros Hn Ha. assert (Z.land a (Z.shiftl b n) = 0) as Hl.
  { apply Z.bits_inj'. intros i Hi. rewrite Z.land_spec, Z.bits_0. destruct (Z.ltb_spec i n).
    - rewrite Z.shiftl_spec_low by done. apply andb_false_r.
    - rewrite <- (Z.mod_small a (2 ^ n)), Z.mod_pow2_bits_high by lia. done. }
  rewrite <- Z.shiftl_mul_pow2, Z.add_nocarry_lxor, Z.lxor_lor by done. done.
Qed.
Lemma littleEndian_bound bytes : Forall isByte bytes → 0 ≤ littleEndian bytes < 2 ^ (8 * Z.of_nat (length bytes)).
Proof.
  unfold isByte. induction 1 as [|b l Hb _ IH]; [done|]. cbn [littleEndian foldr length]. fold (littleEndian l).
  rewrite Nat2Z.inj_succ, Z.mul_succ_r, Z.pow_add_r by lia. lia.
Qed.
Lemma orBytes_from bytes : Forall isByte bytes → ∀ (k : nat) acc, 0 ≤ acc < 2 ^ (8 * Z.of_nat k) →
  foldl (λ data ib, Z.lor data (Z.shiftl ib.2 (8 * Z.of_nat ib.1))) acc (imap (λ i b, ((k + i)%nat, b)) bytes)
  = acc + littleEndian bytes * 2 ^ (8 * Z.of_nat k).
Proof.
  unfold isByte. induction 1 as [|b l Hb _ IH]; intros k acc Ha; [cbn; lia|]. cbn [imap foldl fst snd]. rewrite Nat.add_0_r, lor_shift by lia.
  rewrite (imap_ext _ (λ i b, ((S k + i)%nat, b))) by (intros; cbn; f_equal; lia). 
  assert (2 ^ (8 * Z.of_nat (S k)) = 256 * 2 ^ (8 * Z.of_nat k)) as Hp.
  { rewrite Nat2Z.inj_succ, Z.mul_succ_r, Z.add_comm, Z.pow_add_r by lia. done. }
  rewrite IH, Hp by (rewrite Hp; nia). cbn [littleEndian foldr]. fold (littleEndian l). ring.
Qed.
Lemma orBytes_littleEndian bytes : Forall isByte bytes → orBytes bytes = littleEndian bytes.
Proof. intros Hb. unfold orBytes. rewrite (imap_ext _ (λ i b, ((0 + i)%nat, b))) by done. rewrite orBytes_from by done. cbn. lia. Qed.
(** What the conversion makes of the bytes: the first eight of them, the lowest first. *)
Lemma convertBits_spec bytes format type name params n : Forall isByte bytes → params !! "length" = Some (itoa n) → 0 ≤ n ≤ 1000000 →
  convertBits (EncodeToString bytes) format (Some (mkColumnSchema type name params)) =
    Ok (let text := FormatBinary0 n (littleEndian (take 8 bytes)) in if format then "'" +:+ text +:+ "'" else text).
Proof.
  intros Hb Hl Hn. unfold convertBits. rewrite DecodeString_Encode by done. cbn [Parameters]. rewrite Hl. cbn [default from_option id].
  rewrite ParseInt64_itoa by (unfold in_int64, int64_min, int64_max; apply andb_true_iff; rewrite !Z.leb_le; lia).
  destruct (Z.eqb_spec n BIT_VARYING_MAX_LEN); [unfold BIT_VARYING_MAX_LEN in *; lia|].
  assert ((if (8 <=? length bytes)%nat then littleEndian (take 8 bytes) else orBytes bytes) = littleEndian (take 8 bytes)) as ->.
  { destruct (Nat.leb_spec 8 (length bytes)); [done|]. rewrite orBytes_littleEndian, take_ge by (done || lia). done. }
  destruct format; [done|]. cbn. by rewrite str_app_nil_r.
Qed.
(** *** Times *)
Lemma parseInt_itoa what v : in_int64 v = true → parseInt what (itoa v) = Ok v.
Proof. intros Hv. unfold parseInt. by rewrite ParseInt64_itoa. Qed.
(** Seconds and a remainder, both cut towards zero, make up the time. *)
Lemma Unix_micro v : Unix (Z.quot v 1000000) (Z.rem v 1000000 * 1000) = v * 1000.
Proof. unfold Unix, SECOND. pose proof (Z.quot_rem' v 1000000). lia. Qed.
Lemma Unix_nano v : Unix (Z.quot v 1000000000) (Z.rem v 1000000000) = v.
Proof. unfold Unix, SECOND. pose proof (Z.quot_rem' v 1000000000). lia. Qed.
Lemma whole_second s : nanosecond (s * SECOND) = 0.
Proof. apply Z.mod_mul. done. Qed.
Lemma at_least_day n t : n * DAY ≤ t → n ≤ t / DAY.
Proof. intros H. apply Z.div_le_lower_bound; [done|lia]. Qed.
Definition survives (type : string) (v : Z) (format : bool) (r : result string) : Prop :=
  ∃ out text, r = Ok out ∧ meant format out = Some text ∧ readInstant type text = instant type v.
Lemma survives_quoted type v format schema text : str_has "'" text = false → readInstant type text = instant type v →
  survives type v format (quoteValueIfRequired text format schema).
Proof. intros Hq Hr. destruct (meant_quoted text format schema) as (out & Ho & Hm); [done|]. by exists out, text. Qed.
Lemma noQuote_timestamp sep t f : sep ≠ "'"%char → -719162 ≤ t / DAY → str_has "'" f = false →
  str_has "'" (FormatDate t +:+ String sep (FormatClock t +:+ f)) = false.
Proof.
  intros Hs Ht Hf. rewrite str_has_app, FormatDate_has, str_has_cons, bool_decide_false by done. cbn [orb].
  by rewrite str_has_app, FormatClock_has, Hf by done.
Qed.
Lemma Date_survives v format schema : inRange "io.debezium.time.Date" v → survives "io.debezium.time.Date" v format (convertDate (itoa v) format schema).
Proof.
  intros (Hv & [Hlo Hs]). unfold convertDate. rewrite parseInt_itoa by done. cbn [mbind result_bind].
  replace (v * 24 * 60 * 60) with (v * 86400) by lia. rewrite wrap64_id by by apply Hs.
  assert (Unix (v * 86400) 0 = v * DAY) as -> by (unfold Unix, DAY; lia). apply at_least_day in Hlo.
  apply survives_quoted; [by apply FormatDate_has|]. change (readInstant "io.debezium.time.Date" (FormatDate (v * DAY))) with (n ← readDate (FormatDate (v * DAY)); Some (n * DAY)).
  rewrite readDate_Format by done. cbn [mbind option_bind]. by rewrite Z.div_mul.
Qed.
Lemma Timestamp_survives v format schema : inRange "io.debezium.time.Timestamp" v →
  survives "io.debezium.time.Timestamp" v format (convertTimestamp (itoa v) format schema).
Proof.
  intros (Hv & [Hlo _]). unfold convertTimestamp. rewrite parseInt_itoa by done. cbn [mbind result_bind]. apply at_least_day in Hlo.
  assert (Unix (Z.quot v 1000) 0 = Z.quot v 1000 * SECOND) as -> by (unfold Unix; lia).
  pose proof (readTimestamp_Format " " (Z.quot v 1000 * SECOND) "" 0 eq_refl ltac:(done) Hlo reads_none) as Hr.
  rewrite whole_second in Hr. pose proof (noQuote_timestamp " " (Z.quot v 1000 * SECOND) "" ltac:(done) Hlo eq_refl) as Hq. rewrite str_app_nil_r in Hr, Hq.
  apply survives_quoted; [exact Hq|].
  change (readTimestamp " " (FormatDate (Z.quot v 1000 * SECOND) +:+ String " " (FormatClock (Z.quot v 1000 * SECOND))) = Some (Z.quot v 1000 * SECOND)).
  rewrite Hr by done. f_equal. lia.
Qed.
Lemma timestampT_survives type v k n format schema : instant type v = Some (k * 10 ^ (9 - Z.of_nat n)) → (n ≤ 9)%nat →
  (∀ s, readInstant type s = readTimestamp "T" s) → -719162 * DAY ≤ k * 10 ^ (9 - Z.of_nat n) →
  survives type v format (quoteValueIfRequired (FormatDate (k * 10 ^ (9 - Z.of_nat n)) +:+ "T" +:+ FormatClock (k * 10 ^ (9 - Z.of_nat n)) +:+
    FormatFraction9 n (k * 10 ^ (9 - Z.of_nat n))) format schema).
Proof.
  intros Hi Hn Hread Hlo. apply at_least_day in Hlo. set (t := k * 10 ^ (9 - Z.of_nat n)) in *. pose proof (shown_all n k Hn) as Hsh. fold t in Hsh.
  change ("T" +:+ ?x) with (String "T" x) at 1. apply survives_quoted.
  - apply noQuote_timestamp; [done..|]. by apply FormatFraction_has.
  - rewrite Hread, Hi, (readTimestamp_Format _ _ _ (shown n t)) by (first [done|by apply reads_fraction9|lia]). f_equal. lia.
Qed.
Lemma clock_survives type v t f ns format schema : instant type v = Some t → isTimeOfDay type = true → 0 ≤ t < DAY →
  readsAs f ns → ns = nanosecond t → str_has "'" f = false → survives type v format (quoteValueIfRequired (FormatClock t +:+ f) format schema).
Proof.
  intros Hi Hd Ht Hf Hn Hq. apply survives_quoted; [by rewrite str_has_app, FormatClock_has|].
  unfold readInstant. rewrite Hd, (readClock_Format _ _ _ Hf), Hi by lia. f_equal. rewrite Z.mod_small by done. lia.
Qed.
Lemma Time_survives v format schema : inRange "io.debezium.time.Time" v → survives "io.debezium.time.Time" v format (convertTime (itoa v) format schema).
Proof.
  intros (Hv & Hlo & Hhi). change (v * 1000000 ≤ DAY) in Hhi. change (0 ≤ v * 1000000) in Hlo. unfold convertTime. rewrite parseInt_itoa by done. cbn [mbind result_bind].
  assert (0 ≤ v ≤ 86400000) as Hb by (unfold DAY, SECOND in *; lia).
  rewrite (proj2 (Z.ltb_ge _ _)), (proj2 (Z.ltb_ge 86400000 v)) by lia. cbn [orb].
  destruct (Z.eqb_spec v 86400000) as [->|]; [apply survives_quoted; vm_compute; reflexivity|].
  eapply clock_survives; [done..|unfold DAY, SECOND; lia|apply (reads_fraction9 3); lia|exact (shown_all 3 v ltac:(lia))|by apply FormatFraction_has].
Qed.
Lemma MicroTime_survives v format schema : inRange "io.debezium.time.MicroTime" v →
  survives "io.debezium.time.MicroTime" v format (convertMicroTime (itoa v) format schema).
Proof.
  intros (Hv & Hlo & Hhi). change (v * 1000 ≤ DAY) in Hhi. change (0 ≤ v * 1000) in Hlo. unfold convertMicroTime. rewrite parseInt_itoa by done. cbn [mbind result_bind].
  assert (0 ≤ v ≤ 86400000000) as Hb by (unfold DAY, SECOND in *; lia).
  rewrite (proj2 (Z.ltb_ge _ _)), (proj2 (Z.ltb_ge 86400000000 v)) by lia. cbn [orb].
  destruct (Z.eqb_spec v 86400000000) as [->|]; [apply survives_quoted; vm_compute; reflexivity|].
  eapply clock_survives; [done..|unfold DAY, SECOND; lia|apply (reads_fraction0 6); lia|exact (shown_all 6 v ltac:(lia))|by apply FormatFraction_has].
Qed.
Lemma instant_types type v : is_Some (instant type v) → type ∈ ["io.debezium.time.Date"; "io.debezium.time.Timestamp"; "io.debezium.time.MicroTimestamp";
  "io.debezium.time.NanoTimestamp"; "io.debezium.time.Time"; "io.debezium.time.MicroTime"].
Proof. unfold instant. intros H. repeat case_decide; subst; [set_solver..|by destruct H]. Qed.
#[local] Ltac converter_is f := match goal with Hf : converterFor YBValueConverterSuite _ = Some ?g |- _ =>
  assert (g = f) as -> by (injection Hf; intros; by symmetry); clear Hf end.

(** *** What survives *)
Lemma numbers_survive (type : string) (f : ConverterFn) (v : Z) (format : bool) (schema : option ColumnSchema) :
  converterFor YBValueConverterSuite type = Some f → inRange type v →
  ∃ out text, f (itoa v) format schema = Ok out ∧ meant format out = Some text ∧ readInstant type text = instant type v.
Proof.
  intros Hf Hr. change (survives type v format (f (itoa v) format schema)). pose proof Hr as [Hv Hi].
  assert (is_Some (instant type v)) as Hs by (destruct (instant type v); [by eexists|done]). apply instant_types in Hs.
  repeat (apply elem_of_cons in Hs as [->|Hs]); [..|by apply elem_of_nil in Hs].
  - converter_is convertDate. by apply Date_survives.
  - converter_is convertTimestamp. by apply Timestamp_survives.
  - converter_is convertMicroTimestamp. unfold convertMicroTimestamp. rewrite parseInt_itoa by done. cbn [mbind result_bind]. rewrite Unix_micro.
    change (v * 1000) with (v * 10 ^ (9 - Z.of_nat 6)). destruct Hi as [Hlo _]. apply timestampT_survives; [reflexivity|lia|reflexivity|exact Hlo].
  - converter_is convertNanoTimestamp. unfold convertNanoTimestamp. rewrite parseInt_itoa by done. cbn [mbind result_bind]. rewrite Unix_nano.
    assert (v = v * 10 ^ (9 - Z.of_nat 9)) as Ht by (change (10 ^ (9 - Z.of_nat 9)) with 1; lia).
    destruct Hi as [Hlo _]. rewrite Ht at 2 3 4. apply timestampT_survives; [by rewrite <- Ht|lia|reflexivity|rewrite <- Ht; exact Hlo].
  - converter_is convertTime. by apply Time_survives.
  - converter_is convertMicroTime. by apply MicroTime_survives.
Qed.
(** Text stays within its literal and is read back as it was, whatever it holds; so are the
    values of types that are quoted without escaping, if they hold no quote. *)
Lemma texts_survive (type v : string) (f : ConverterFn) (format : bool) (schema : option ColumnSchema) :
  converterFor YBValueConverterSuite type = Some f →
  type ∈ ["STRING"; "MAP"; "io.debezium.data.Json"; "io.debezium.data.Enum"] ∨
  (type ∈ ["io.debezium.time.Interval"; "io.debezium.data.Uuid"; "io.debezium.data.Ltree"; "io.debezium.time.ZonedTimestamp"] ∧ str_has "'" v = false) →
  ∃ out, f v format schema = Ok out ∧ meant format out = Some v.
Proof.
  intros Hf [Ht|[Ht Hv]]; (repeat (apply elem_of_cons in Ht as [->|Ht]); [..|by apply elem_of_nil in Ht]).
  all: first [converter_is quoteValueIfRequiredWithEscaping; apply meant_escaped | converter_is quoteValueIfRequired; by apply meant_quoted].
Qed.
(** The bytes behind a base 64 text are read back from its hexadecimal literal, and the bits of
    a bit string, the lowest byte first, at the length of the column when they fit, as far
    as the first eight bytes hold them. *)
Lemma binary_values_survive (bytes : list Z) (format : bool) (type name : string) (params : gmap string string) (n : Z) : Forall isByte bytes →
  (∀ schema, ∃ out text, convertBytes (EncodeToString bytes) format schema = Ok out ∧ meant format out = Some text ∧ readBytea text = Some bytes) ∧
  (params !! "length" = Some (itoa n) → 0 < n ≤ 1000000 →
   ∃ out text, convertBits (EncodeToString bytes) format (Some (mkColumnSchema type name params)) = Ok out ∧ meant format out = Some text ∧
     readBinary 0 text = Some (littleEndian (take 8 bytes)) ∧
     (littleEndian (take 8 bytes) < 2 ^ n → Z.of_nat (String.length text) = n)).
Proof.
  intros Hb. split.
  - intros schema. unfold convertBytes. rewrite DecodeString_Encode by done. destruct (readHex_Format bytes Hb) as [Hr Hq].
    destruct (meant_quoted ("\x" +:+ Join "" (map FormatHex bytes)) format schema) as (out & Ho & Hm).
    { intros _. rewrite str_has_app, Hq. done. }
    injection Ho as <-. do 2 eexists. split; [done|]. split; [exact Hm|]. exact Hr.
  - intros Hl Hn. rewrite (convertBits_spec _ _ _ _ _ n) by (done || lia).
    pose proof (littleEndian_bound (take 8 bytes) (Forall_take _ _ _ Hb)) as [Hlo _].
    destruct (FormatBinary0_spec n (littleEndian (take 8 bytes)) ltac:(lia) Hlo) as (Hr & Hq & Hlen).
    destruct (meant_quoted (FormatBinary0 n (littleEndian (take 8 bytes))) format None) as (out & Ho & Hm); [done|]. injection Ho as <-.
    do 2 eexists. split; [done|]. split; [exact Hm|]. split; [exact Hr|]. apply Hlen. lia.
Qed.
(** What the converters refuse: numbers that are none, base 64 that is none, times outside the day. *)
Lemma malformed_is_refused (v : string) (format : bool) (schema : option ColumnSchema) :
  (ParseInt64 v = None → ∀ type f, type ∈ ["io.debezium.time.Date"; "io.debezium.time.Timestamp"; "io.debezium.time.MicroTimestamp";
     "io.debezium.time.NanoTimestamp"; "io.debezium.time.Time"; "io.debezium.time.MicroTime"] →
     converterFor YBValueConverterSuite type = Some f → ∃ e, f v format schema = Err e) ∧
  (DecodeString v = None → (∃ e, convertBytes v format schema = Err e) ∧ ∃ e, convertBits v format schema = Err e).
Proof.
  split_and!.
  - intros Hv type f Ht Hf. (repeat (apply elem_of_cons in Ht as [->|Ht]); [..|by apply elem_of_nil in Ht]).
    + converter_is convertDate. unfold convertDate, parseInt. rewrite Hv. by eexists.
    + converter_is convertTimestamp. unfold convertTimestamp, parseInt. rewrite Hv. by eexists.
    + converter_is convertMicroTimestamp. unfold convertMicroTimestamp, parseInt. rewrite Hv. by eexists.
    + converter_is convertNanoTimestamp. unfold convertNanoTimestamp, parseInt. rewrite Hv. by eexists.
    + converter_is convertTime. unfold convertTime, parseInt. rewrite Hv. by eexists.
    + converter_is convertMicroTime. unfold convertMicroTime, parseInt. rewrite Hv. by eexists.
  - intros Hv. unfold convertBytes, convertBits. rewrite Hv. split; by eexists.
Qed.
Lemma outside_day_is_refused (type : string) (f : ConverterFn) (v t : Z) (format : bool) (schema : option ColumnSchema) :
  converterFor YBValueConverterSuite type = Some f → isTimeOfDay type = true → in_int64 v = true → instant type v = Some t → t < 0 ∨ DAY < t →
  ∃ e, f (itoa v) format schema = Err e.
Proof.
  unfold isTimeOfDay. intros Hf Ht%bool_decide_eq_true Hv Hi Hout. destruct Ht as [->| ->]; injection Hi as <-; unfold DAY, SECOND in Hout.
  - converter_is convertTime. unfold convertTime. rewrite parseInt_itoa by done. cbn [mbind result_bind]. eexists.
    destruct (Z.ltb_spec v 0); [reflexivity|]. rewrite (proj2 (Z.ltb_lt _ _)) by lia. reflexivity.
  - converter_is convertMicroTime. unfold convertMicroTime. rewrite parseInt_itoa by done. cbn [mbind result_bind]. eexists.
    destruct (Z.ltb_spec v 0); [reflexivity|]. rewrite (proj2 (Z.ltb_lt _ _)) by lia. reflexivity.
Qed.
(** Milliseconds within a second are one text; so are an Oracle DATE's times within a day, and
    bit strings that differ beyond the 64th bit; and a bit string without a length panics. *)
Lemma timestamp_loses_milliseconds (v w : Z) (format : bool) (schema : option ColumnSchema) :
  in_int64 v = true → in_int64 w = true → Z.quot v 1000 = Z.quot w 1000 →
  convertTimestamp (itoa v) format schema = convertTimestamp (itoa w) format schema.
Proof. intros Hv Hw H. unfold convertTimestamp. rewrite !parseInt_itoa by done. cbn [mbind result_bind]. by rewrite H. Qed.
Lemma oracle_date_loses_time (v w : Z) (format : bool) (schema : option ColumnSchema) : in_int64 v = true → in_int64 w = true →
  Z.quot v 1000 / 86400 = Z.quot w 1000 / 86400 → oraDATE (itoa v) format schema = oraDATE (itoa w) format schema.
Proof.
  intros Hv Hw H. unfold oraDATE. rewrite !parseInt_itoa by done. cbn [mbind result_bind].
  assert (Hd : ∀ s, dateAt (Unix s 0) = dateOf (s / 86400)).
  { intros s. unfold dateAt, Unix, DAY. by rewrite Z.add_0_r, Z.div_mul_cancel_r. }
  unfold FormatDayFirst. by rewrite !Hd, H.
Qed.
Lemma bits_beyond_64_are_lost (low high high' : list Z) (format : bool) (type name : string) (params : gmap string string) (n : Z) :
  length low = 8%nat → Forall isByte (low ++ high) → Forall isByte (low ++ high') → params !! "length" = Some (itoa n) → 0 ≤ n ≤ 1000000 →
  convertBits (EncodeToString (low ++ high)) format (Some (mkColumnSchema type name params)) =
  convertBits (EncodeToString (low ++ high')) format (Some (mkColumnSchema type name params)).
Proof. intros Hl Hb Hb' Hp Hn. rewrite !(convertBits_spec _ _ _ _ _ n) by done. rewrite <- Hl, !take_app_length. done. Qed.
Lemma bits_without_length_panic (v : string) (bytes : list Z) (format : bool) (type name : string) (params : gmap string string) :
  DecodeString v = Some bytes → params !! "length" = None →
  convertBits v format (Some (mkColumnSchema type name params)) = Panic "strconv.Atoi: invalid syntax".
Proof. intros Hv Hp. unfold convertBits. rewrite Hv. cbn [Parameters]. by rewrite Hp. Qed.

(** ** Theorem *)
Definition numberTypes : list string := ["io.debezium.time.Date"; "io.debezium.time.Timestamp"; "io.debezium.time.MicroTimestamp";
  "io.debezium.time.NanoTimestamp"; "io.debezium.time.Time"; "io.debezium.time.MicroTime"].

(** ** Witnesses *)
Definition bitColumn : gmap string string := {["length" := itoa 12]}.
Lemma texts_survive_witness :
  quoteValueIfRequiredWithEscaping "O'Reilly'; DROP TABLE t; --" true None = Ok "'O''Reilly''; DROP TABLE t; --'" ∧
  ∃ out, quoteValueIfRequiredWithEscaping "O'Reilly'; DROP TABLE t; --" true None = Ok out ∧ meant true out = Some "O'Reilly'; DROP TABLE t; --".
Proof.
  split; [by vm_compute|]. apply (texts_survive "STRING" "O'Reilly'; DROP TABLE t; --" quoteValueIfRequiredWithEscaping true None).
  - reflexivity.
  - left. by left.
Defined.
Lemma binary_values_survive_witness :
  convertBytes "3q2+7w==" true None = Ok "'\xdeadbeef'" ∧ EncodeToString [222; 173; 190; 239] = "3q2+7w==" ∧
  convertBits (EncodeToString [5; 2]) false (Some (mkColumnSchema "bytes" "io.debezium.data.Bits" bitColumn)) = Ok "001000000101" ∧
  ∃ out text, convertBits (EncodeToString [5; 2]) false (Some (mkColumnSchema "bytes" "io.debezium.data.Bits" bitColumn)) = Ok out ∧
    meant false out = Some text ∧ readBinary 0 text = Some 517 ∧ (517 < 2 ^ 12 → Z.of_nat (String.length text) = 12).
Proof.
  split; [by vm_compute|]. split; [by vm_compute|]. split; [by vm_compute|].
  apply (binary_values_survive [5; 2] false "bytes" "io.debezium.data.Bits" bitColumn 12); [repeat constructor; by vm_compute|by vm_compute|lia].
Defined.
End ValueSuite.
