(* ===== verification/ValueConverter.v ===== *)
(** * Schema registry and value conversion of rows and events (src/yb-voyager/src/utils/schemareg,
    src/dbzm/valueConverter.go)

    The exporters leave a file per table that says how Debezium represents its columns; the
    registry loads these files, and the converters look each column's type up in it and
    apply the suite's converter for that type.  What a directory holds and the lookup of a
    table name are arguments, as is the order in which Go ranges over an event's columns.
    The splitting of a row into its columns and back (CsvRowProcessor) is left out. *)
From S2P Require Import Prelude StructMap SqlName Event CivilTime ValueSuite.
Import SqlName Event CivilTime ValueSuite.

Module ValueConverter.
(** ** The schema registry *)
Record Column : Type := mkColumn { c_Name : string; c_Index : Z; c_Schema : ColumnSchema }.
Definition TableSchema : Type := list Column.
Definition isOriginalType (dbColType : string) : bool := str_contains "DATE" dbColType || str_contains "INTERVAL" dbColType.
Definition getColumnType (ts : TableSchema) (columnName : string) (getSourceDatatypeIfRequired : bool) : result (string * ColumnSchema) :=
  match List.find (λ c, bool_decide (c_Name c = columnName)) ts with
  | None => Err ("Column " +:+ columnName +:+ " not found in table schema")
  | Some c =>
      let s := c_Schema c in
      let kafkaType := if decide (cs_Name s ≠ "") then cs_Name s else cs_Type s in
      Ok (match Parameters s !! "__debezium.source.column.type" with
          | Some dbColType => if getSourceDatatypeIfRequired && isOriginalType dbColType then dbColType else kafkaType
          | None => kafkaType
          end, s)
  end.
Record SchemaRegistry : Type := mkRegistry {
  importerRole : string; tableList : list NameTuple; TableNameToSchema : StructMap.t NameTuple TableSchema }.
Definition NewSchemaRegistry (tableList : list NameTuple) (importerRole : string) : SchemaRegistry :=
  mkRegistry importerRole tableList StructMap.NewStructMap.
Definition withSchemas (reg : SchemaRegistry) (m : StructMap.t NameTuple TableSchema) : SchemaRegistry :=
  mkRegistry (importerRole reg) (tableList reg) m.
(** What opening and decoding a file gives. *)
Inductive schemaFile : Type := DecodedSchema (ts : TableSchema) | CannotOpen | CannotDecode.
(** The files of the exporter's directory, in their order. *)
Definition schemaDir : Type := result (list (string * schemaFile)).
Definition HasSuffix (s p : string) : bool :=
  (String.length p <=? String.length s)%nat && bool_decide (String.substring (String.length s - String.length p) (String.length p) s = p).
Definition TrimSuffix (s p : string) : string := if HasSuffix s p then String.substring 0 (String.length s - String.length p) s else s.
Section registry.
Context (lookupTable : string → result NameTuple).
(** A file for one table; what an error leaves behind is what was put before. *)
Definition loadSchemaFile (reg : SchemaRegistry) (file : string * schemaFile) : SchemaRegistry * result unit :=
  if HasSuffix file.1 ".tmp" then (reg, Ok ()) else
  match file.2 with
  | CannotOpen => (reg, Err ("failed to open table schema file " +:+ file.1))
  | CannotDecode => (reg, Err ("failed to decode table schema file " +:+ file.1))
  | DecodedSchema ts =>
      let tableName := TrimSuffix file.1 "_schema.json" in
      match lookupTable tableName with
      | Ok table =>
          if negb (existsb (λ t, bool_decide (ForKey t = ForKey table)) (tableList reg)) then (reg, Ok ())
          else if negb (TargetTableAvailable table) && bool_decide (importerRole reg = TARGET_DB_IMPORTER_ROLE)
          then (reg, Err "table is not present in the target database")
          else (withSchemas reg (StructMap.Put (TableNameToSchema reg) table ts), Ok ())
      | Err e => (reg, Err ("lookup " +:+ tableName +:+ " from name registry: " +:+ e))
      | Panic e => (reg, Panic e)
      end
  end.
Fixpoint loadSchemaFiles (reg : SchemaRegistry) (files : list (string * schemaFile)) : SchemaRegistry * result unit :=
  match files with
  | [] => (reg, Ok ())
  | file :: files =>
      match loadSchemaFile reg file with
      | (reg, Ok _) => loadSchemaFiles reg files
      | (reg, e) => (reg, e)
      end
  end.
Definition Init (dir : schemaDir) (reg : SchemaRegistry) : SchemaRegistry * result unit :=
  match dir with
  | Ok files => loadSchemaFiles reg files
  | Err e => (reg, Err ("failed to read schema dir: " +:+ e))
  | Panic e => (reg, Panic e)
  end.
Definition GetColumnTypes (reg : SchemaRegistry) (table : NameTuple) (columnNames : list string) (getSourceDatatypes : bool)
    : result (list (string * ColumnSchema)) :=
  match StructMap.Get (TableNameToSchema reg) table with
  | None => Err "table not found in schema registry"
  | Some ts => mapM_result (λ columnName, getColumnType ts columnName getSourceDatatypes) columnNames
  end.
(** A table that is not found has the registry loaded again. *)
Definition GetColumnType (dir : schemaDir) (reg : SchemaRegistry) (table : NameTuple) (columnName : string) (getSourceDatatype : bool)
    : SchemaRegistry * result (string * ColumnSchema) :=
  match StructMap.Get (TableNameToSchema reg) table with
  | Some ts => (reg, getColumnType ts columnName getSourceDatatype)
  | None =>
      let '(reg, r) := Init dir (withSchemas reg (StructMap.Clear (TableNameToSchema reg))) in
      (reg, _ ← r;
            match StructMap.Get (TableNameToSchema reg) table with
            | None => Err "table not found in schema registry"
            | Some ts => getColumnType ts columnName getSourceDatatype
            end)
  end.

(** ** The suite of a target *)
Section suites.
Context (zonedTimestamp intervalDayToSecond : ConverterFn).
Definition digits1to9 : list Z := [1; 2; 3; 4; 5; 6; 7; 8; 9].
Definition getDebeziumValueConverterSuite (targetDBType : string) : result Suite :=
  if decide (targetDBType = ORACLE) then
    Ok (OraValueConverterSuite zonedTimestamp intervalDayToSecond ++
        map (λ i, ("INTERVAL YEAR(" +:+ itoa i +:+ ") TO MONTH", oraIntervalYearToMonth)) digits1to9 ++
        flat_map (λ i, map (λ j, ("INTERVAL DAY(" +:+ itoa i +:+ ") TO SECOND(" +:+ itoa j +:+ ")", intervalDayToSecond)) digits1to9) digits1to9)
  else if decide (targetDBType ∈ [YUGABYTEDB; YUGABYTEDB_AMP; POSTGRESQL]) then Ok YBValueConverterSuite
  else Err ("no converter suite found for " +:+ targetDBType).
End suites.
Definition shouldFormatAsPerSourceDatatypes (targetDBType : string) : bool := bool_decide (targetDBType = ORACLE).

(** ** Events *)
Record StreamingPhaseDebeziumValueConverter : Type := mkStreaming {
  schemaRegistrySource : SchemaRegistry; schemaRegistryTarget : option SchemaRegistry;
  valueConverterSuite : Suite; targetDBType : string; sourceDBType : string }.
Definition with_source (conv : StreamingPhaseDebeziumValueConverter) (reg : SchemaRegistry) : StreamingPhaseDebeziumValueConverter :=
  mkStreaming reg (schemaRegistryTarget conv) (valueConverterSuite conv) (targetDBType conv) (sourceDBType conv).
Definition with_target (conv : StreamingPhaseDebeziumValueConverter) (reg : SchemaRegistry) : StreamingPhaseDebeziumValueConverter :=
  mkStreaming (schemaRegistrySource conv) (Some reg) (valueConverterSuite conv) (targetDBType conv) (sourceDBType conv).
(** [dirS]: the files of the source's exporter; the target's registry is loaded when first used. *)
Definition NewStreamingPhaseDebeziumValueConverter (suite : result Suite) (dirS : schemaDir) (tableList : list NameTuple) (importerRole targetDBType sourceDBType : string)
    : result StreamingPhaseDebeziumValueConverter :=
  let '(reg, r) := Init dirS (NewSchemaRegistry tableList importerRole) in
  _ ← r;
  let target := if decide (importerRole ∈ [SOURCE_REPLICA_DB_IMPORTER_ROLE; SOURCE_DB_IMPORTER_ROLE])
                then Some (NewSchemaRegistry tableList importerRole) else None in
  suite ← suite;
  Ok (mkStreaming reg target suite targetDBType sourceDBType).
Definition checkSourceExporter (exporterRole : string) : bool := bool_decide (exporterRole = SOURCE_DB_EXPORTER_ROLE).
Definition INTERVAL : string := "io.debezium.time.Interval".
(** The directories of both exporters. *)
Context (dirS dirT : schemaDir).
Definition columnTypeOf (conv : StreamingPhaseDebeziumValueConverter) (table : NameTuple) (column exporterRole : string)
    : StreamingPhaseDebeziumValueConverter * result (string * ColumnSchema) :=
  let getSource := shouldFormatAsPerSourceDatatypes (targetDBType conv) in
  let '(conv, r) :=
    if checkSourceExporter exporterRole then
      let '(reg, r) := GetColumnType dirS (schemaRegistrySource conv) table column getSource in (with_source conv reg, r)
    else
      match schemaRegistryTarget conv with
      | None => (conv, Panic "nil pointer dereference")
      | Some reg => let '(reg, r) := GetColumnType dirT reg table column getSource in (with_target conv reg, r)
      end in
  match r with
  | Ok (colType, schema) =>
      if negb (checkSourceExporter exporterRole) && EqualFold colType INTERVAL && bool_decide (sourceDBType conv = ORACLE) then
        let '(reg, r) := GetColumnType dirS (schemaRegistrySource conv) table (ToUpper column) getSource in (with_source conv reg, r)
      else (conv, Ok (colType, schema))
  | r => (conv, r)
  end.
Definition convertValue (suite : Suite) (colType : string) (schema : ColumnSchema) (format : bool) (v : string) : result string :=
  match converterFor suite colType with Some converterFn => converterFn v format (Some schema) | None => Ok v end.
Fixpoint convertColumns (conv : StreamingPhaseDebeziumValueConverter) (table : NameTuple) (m : fields) (exporterRole : string) (format : bool) (order : list string)
    : StreamingPhaseDebeziumValueConverter * fields * result unit :=
  match order with
  | [] => (conv, m, Ok ())
  | column :: order =>
      match entries m !! column with
      | Some (Some v) =>
          let '(conv, r) := columnTypeOf conv table column exporterRole in
          match (ts ← r; convertValue (valueConverterSuite conv) ts.1 ts.2 format v) with
          | Ok v' => convertColumns conv table (Some (<[column := Some v']> (entries m))) exporterRole format order
          | Err e => (conv, m, Err e)
          | Panic e => (conv, m, Panic e)
          end
      | _ => convertColumns conv table m exporterRole format order
      end
  end.
Definition convertMap := convertColumns.
Definition with_fields (e : Event) (key values : fields) : Event :=
  mkEvent (Vsn e) (Op e) (TableNameTup e) (partitionSchemaName e) (partitionTableName e) (PartitionTableTup e) key values (BeforeFields e) (AfterFields e) (ExporterRole e).
(** [orderK], [orderF]: the orders of the ranges over the key and the fields. *)
Definition ConvertEvent (conv : StreamingPhaseDebeziumValueConverter) (ev : Event) (table : NameTuple) (format : bool) (orderK orderF : list string)
    : StreamingPhaseDebeziumValueConverter * Event * result unit :=
  let '(conv, key, r) := convertMap conv table (EvKey ev) (ExporterRole ev) format orderK in
  match r with
  | Ok _ =>
      let '(conv, values, r) := convertMap conv table (Fields ev) (ExporterRole ev) format orderF in (conv, with_fields ev key values, r)
  | r => (conv, with_fields ev key (Fields ev), r)
  end.

(** ** Rows *)
Definition YB_VOYAGER_NULL_STRING : string := "__YBV_NULL__".
Record SnapshotPhaseDebeziumValueConverter : Type := mkSnapshotConverter {
  sn_schemaRegistry : SchemaRegistry; sn_suite : Suite; sn_targetDBType : string;
  converterFnCache : StructMap.t NameTuple (list (option ConverterFn)); dbzmColumnSchemasCache : StructMap.t NameTuple (list ColumnSchema) }.
Definition NewSnapshotPhaseDebeziumValueConverter (suite : result Suite) (tableList : list NameTuple) (importerRole targetDBType : string)
    : result SnapshotPhaseDebeziumValueConverter :=
  let '(reg, r) := Init dirS (NewSchemaRegistry tableList importerRole) in
  _ ← r; suite ← suite;
  Ok (mkSnapshotConverter reg suite targetDBType StructMap.NewStructMap StructMap.NewStructMap).
(** The converters and schemas as the registry gives them. *)
Definition lookupConverterFns (conv : SnapshotPhaseDebeziumValueConverter) (table : NameTuple) (columnNames : list string)
    : result (list (option ConverterFn) * list ColumnSchema) :=
  ts ← GetColumnTypes (sn_schemaRegistry conv) table columnNames (shouldFormatAsPerSourceDatatypes (sn_targetDBType conv));
  Ok (map (λ t, converterFor (sn_suite conv) t.1) ts, map snd ts).
Definition getConverterFns (conv : SnapshotPhaseDebeziumValueConverter) (table : NameTuple) (columnNames : list string)
    : SnapshotPhaseDebeziumValueConverter * result (list (option ConverterFn) * list ColumnSchema) :=
  match StructMap.Get (converterFnCache conv) table, StructMap.Get (dbzmColumnSchemasCache conv) table with
  | Some fns, Some schemas => (conv, Ok (fns, schemas))
  | _, _ =>
      match lookupConverterFns conv table columnNames with
      | Ok (fns, schemas) =>
          (mkSnapshotConverter (sn_schemaRegistry conv) (sn_suite conv) (sn_targetDBType conv)
             (StructMap.Put (converterFnCache conv) table fns) (StructMap.Put (dbzmColumnSchemasCache conv) table schemas), Ok (fns, schemas))
      | r => (conv, r)
      end
  end.
(** The values of a row, in place; a value without a converter in the list is out of range. *)
Fixpoint convertValues (i : nat) (fns : list (option ConverterFn)) (schemas : list ColumnSchema) (columnValues : list string) : result (list string) :=
  match columnValues with
  | [] => Ok []
  | columnValue :: columnValues =>
      v ← (if decide (columnValue = YB_VOYAGER_NULL_STRING) then Ok columnValue else
           match fns !! i with
           | None => Panic "index out of range"
           | Some None => Ok columnValue
           | Some (Some converterFn) =>
               match schemas !! i with None => Panic "index out of range" | Some schema => converterFn columnValue false (Some schema) end
           end);
      vs ← convertValues (S i) fns schemas columnValues;
      Ok (v :: vs)
  end.
Definition ConvertRow (conv : SnapshotPhaseDebeziumValueConverter) (table : NameTuple) (columnNames columnValues : list string)
    : SnapshotPhaseDebeziumValueConverter * result (list string) :=
  let '(conv, r) := getConverterFns conv table columnNames in
  (conv, p ← r; convertValues 0 p.1 p.2 columnValues).
(** The columns of every table with their parameters, under their names on the target. *)
Definition columnParameters `{TargetDB} (table : NameTuple) (ts : TableSchema) : result (gmap string (gmap string string)) :=
  foldM (λ m col, q ← QuoteAttributeName table (c_Name col); Ok (<[q := Parameters (c_Schema col)]> m)) ∅ ts.
Definition GetTableNameToSchema `{TargetDB} (conv : SnapshotPhaseDebeziumValueConverter) (order : list (string * NameTuple))
    : result (StructMap.t NameTuple (gmap string (gmap string string))) :=
  StructMap.IterKV order [] (λ m table ts, params ← columnParameters table ts; Ok (true, StructMap.Put m table params))
    (TableNameToSchema (sn_schemaRegistry conv)) StructMap.NewStructMap.

(** ** Specification *)
(** The schema of a table as the registry has it, or finds it in the directory. *)
Definition schemaOf (dir : schemaDir) (reg : SchemaRegistry) (table : NameTuple) : result TableSchema :=
  match StructMap.Get (TableNameToSchema reg) table with
  | Some ts => Ok ts
  | None =>
      let '(reg, r) := Init dir (withSchemas reg (StructMap.Clear (TableNameToSchema reg))) in
      _ ← r; match StructMap.Get (TableNameToSchema reg) table with Some ts => Ok ts | None => Err "table not found in schema registry" end
  end.
(** The type of a column: for an event of the target the target's, unless it is an interval
    of an Oracle source. *)
Definition typeSpec (conv : StreamingPhaseDebeziumValueConverter) (table : NameTuple) (column exporterRole : string) : result (string * ColumnSchema) :=
  let getSource := shouldFormatAsPerSourceDatatypes (targetDBType conv) in
  let source col := (ts ← schemaOf dirS (schemaRegistrySource conv) table; getColumnType ts col getSource) in
  if checkSourceExporter exporterRole then source column else
  match schemaRegistryTarget conv with
  | None => Panic "nil pointer dereference"
  | Some reg =>
      t ← (ts ← schemaOf dirT reg table; getColumnType ts column getSource);
      if EqualFold t.1 INTERVAL && bool_decide (sourceDBType conv = ORACLE) then source (ToUpper column) else Ok t
  end.
Definition valueSpec (conv : StreamingPhaseDebeziumValueConverter) (table : NameTuple) (exporterRole : string) (format : bool) (column v : string) : result string :=
  t ← typeSpec conv table column exporterRole; convertValue (valueConverterSuite conv) t.1 t.2 format v.
(** Every value by its column's type; a null stays one. *)
Definition convertedMap (conv : StreamingPhaseDebeziumValueConverter) (table : NameTuple) (exporterRole : string) (format : bool) (m : gmap string (option string))
    : gmap string (option string) :=
  map_imap (λ c o, Some (v ← o; Some (match valueSpec conv table exporterRole format c v with Ok v' => v' | _ => v end))) m.
Definition convertible (conv : StreamingPhaseDebeziumValueConverter) (table : NameTuple) (exporterRole : string) (format : bool) (m : gmap string (option string)) : Prop :=
  ∀ c v, m !! c = Some (Some v) → is_ok (valueSpec conv table exporterRole format c v) = true.
(** The two converters give a table's columns the same types. *)
Record sameTypes (table : NameTuple) (a b : StreamingPhaseDebeziumValueConverter) : Prop := {
  same_source : schemaOf dirS (schemaRegistrySource b) table = schemaOf dirS (schemaRegistrySource a) table;
  same_target : (λ reg, schemaOf dirT reg table) <$> schemaRegistryTarget b = (λ reg, schemaOf dirT reg table) <$> schemaRegistryTarget a;
  same_suite : valueConverterSuite b = valueConverterSuite a;
  same_targetDBType : targetDBType b = targetDBType a;
  same_sourceDBType : sourceDBType b = sourceDBType a }.

(** ** Lemmas *)
Lemma sameTypes_refl table a : sameTypes table a a.
Proof. by split. Qed.
Lemma sameTypes_trans table a b c : sameTypes table a b → sameTypes table b c → sameTypes table a c.
Proof. intros [H1 H2 H3 H4 H5] [K1 K2 K3 K4 K5]. split; congruence. Qed.
Lemma typeSpec_same table a b column role : sameTypes table a b → typeSpec b table column role = typeSpec a table column role.
Proof.
  intros [H1 H2 _ H4 H5]. unfold typeSpec. rewrite H1, H4, H5. destruct (checkSourceExporter role); [done|].
  destruct (schemaRegistryTarget a), (schemaRegistryTarget b); cbn in H2; try done. injection H2 as H2. by rewrite H2.
Qed.
Lemma valueSpec_same table a b role format column v : sameTypes table a b →
  valueSpec b table role format column v = valueSpec a table role format column v.
Proof. intros H. unfold valueSpec. by rewrite (typeSpec_same table a b), (same_suite _ _ _ H). Qed.
(** A lookup answers by the table's schema, and leaves it what it was. *)
Lemma GetColumnType_spec dir reg table column getSource :
  let '(reg', r) := GetColumnType dir reg table column getSource in
  r = (ts ← schemaOf dir reg table; getColumnType ts column getSource) ∧
  (is_ok r = true → schemaOf dir reg' table = schemaOf dir reg table).
Proof.
  unfold GetColumnType. destruct (StructMap.Get (TableNameToSchema reg) table) as [ts|] eqn:Hg.
  - unfold schemaOf. rewrite Hg. by split.
  - assert (schemaOf dir reg table = (let '(reg, r) := Init dir (withSchemas reg (StructMap.Clear (TableNameToSchema reg))) in
      _ ← r; match StructMap.Get (TableNameToSchema reg) table with Some ts => Ok ts | None => Err "table not found in schema registry" end)) as ->
      by (unfold schemaOf; by rewrite Hg).
    destruct (Init dir _) as [reg' [[]|e|e]]; [|by split..]. cbn [mbind result_bind]. unfold schemaOf at 1.
    by destruct (StructMap.Get (TableNameToSchema reg') table) as [ts|].
Qed.
Lemma columnTypeOf_spec conv table column role :
  let '(conv', r) := columnTypeOf conv table column role in
  r = typeSpec conv table column role ∧ (is_ok r = true → sameTypes table conv conv').
Proof.
  unfold columnTypeOf, typeSpec. set (gs := shouldFormatAsPerSourceDatatypes (targetDBType conv)).
  assert (Hs : ∀ conv0 col, sameTypes table conv conv0 → let '(reg, r) := GetColumnType dirS (schemaRegistrySource conv0) table col gs in
    r = (ts ← schemaOf dirS (schemaRegistrySource conv) table; getColumnType ts col gs) ∧ (is_ok r = true → sameTypes table conv (with_source conv0 reg))).
  { intros conv0 col [H1 H2 H3 H4 H5]. pose proof (GetColumnType_spec dirS (schemaRegistrySource conv0) table col gs) as H.
    destruct (GetColumnType dirS _ table col gs) as [reg r]. destruct H as [-> H]. rewrite H1 in *. split; [done|]. intros Hok. split; cbn; auto. }
  destruct (checkSourceExporter role) eqn:Hrole.
  - specialize (Hs conv column (sameTypes_refl table conv)). destruct (GetColumnType dirS _ table column gs) as [reg [[t s]|e|e]]; cbn [negb andb]; exact Hs.
  - destruct (schemaRegistryTarget conv) as [regT|] eqn:HT; [|by split].
    pose proof (GetColumnType_spec dirT regT table column gs) as H. destruct (GetColumnType dirT regT table column gs) as [reg r]. destruct H as [<- H].
    destruct r as [[t s]|e|e]; cbn [mbind result_bind negb andb fst]; [|by split..].
    assert (sameTypes table conv (with_target conv reg)) as Hsame by (split; cbn; rewrite ?HT; cbn; auto; by rewrite H).
    destruct (EqualFold t INTERVAL && bool_decide (sourceDBType conv = ORACLE)) eqn:Hi; cbn [sourceDBType with_target]; rewrite Hi; [|by split].
    specialize (Hs _ (ToUpper column) Hsame). destruct (GetColumnType dirS _ table (ToUpper column) gs) as [reg' r]. exact Hs.
Qed.
Lemma convertColumns_spec table role format : ∀ order conv m, NoDup order →
  let '(conv', m', r) := convertColumns conv table m role format order in
  (r = Ok () → sameTypes table conv conv' ∧ ∀ c, entries m' !! c = if decide (c ∈ order) then convertedMap conv table role format (entries m) !! c else entries m !! c) ∧
  (r = Ok () ↔ ∀ c v, c ∈ order → entries m !! c = Some (Some v) → is_ok (valueSpec conv table role format c v) = true).
Proof.
  induction order as [|c order IH]; intros conv m Hnd; cbn [convertColumns].
  { split; [|split; [intros _ c v Hc; by apply elem_of_nil in Hc|done]]. intros _. split; [apply sameTypes_refl|].
    intros c. rewrite decide_False; [done|apply not_elem_of_nil]. }
  apply NoDup_cons in Hnd as [Hc Hnd]. destruct (entries m !! c) as [[v|]|] eqn:Hm.
  - pose proof (columnTypeOf_spec conv table c role) as H. destruct (columnTypeOf conv table c role) as [conv1 r1]. destruct H as [-> Hsame].
    assert (Hv : (ts ← typeSpec conv table c role; convertValue (valueConverterSuite conv1) ts.1 ts.2 format v) = valueSpec conv table role format c v).
    { unfold valueSpec. destruct (typeSpec conv table c role) as [t|e|e]; [|done..]. cbn. by rewrite (same_suite _ _ _ (Hsame eq_refl)). }
    rewrite Hv. destruct (valueSpec conv table role format c v) as [v'|e|e] eqn:Hspec.
    + assert (sameTypes table conv conv1) as Hs1.
      { apply Hsame. unfold valueSpec in Hspec. by destruct (typeSpec conv table c role). }
      specialize (IH conv1 (Some (<[c:=Some v']> (entries m))) Hnd). cbn [entries default from_option id] in IH.
      destruct (convertColumns conv1 table _ role format order) as [[conv2 m2] r2]. destruct IH as [IH1 IH2]. split.
      * intros Hr. destruct (IH1 Hr) as [Hs2 Hl]. split; [by eapply sameTypes_trans|]. intros d. rewrite Hl. unfold convertedMap. rewrite !map_lookup_imap.
        destruct (decide (d = c)) as [->|Hd].
        -- rewrite decide_False, decide_True, lookup_insert_eq, Hm by (done || left). cbn. by rewrite Hspec.
        -- rewrite lookup_insert_ne by done. destruct (decide (d ∈ order)).
           ++ rewrite decide_True by by right. destruct (entries m !! d) as [[w|]|]; [|done..]. cbn. by rewrite (valueSpec_same table conv conv1).
           ++ rewrite decide_False; [done|]. by intros [?|?]%elem_of_cons.
      * rewrite IH2. split.
        -- intros H d w [->|Hd]%elem_of_cons Hdw; [rewrite Hm in Hdw; injection Hdw as <-; by rewrite Hspec|].
           rewrite <- (valueSpec_same table conv conv1) by done. apply H; [done|]. rewrite lookup_insert_ne; [done|]. by intros ->.
        -- intros H d w Hd Hdw. rewrite (valueSpec_same table conv conv1) by done. apply H; [by right|]. rewrite lookup_insert_ne in Hdw; [done|]. by intros ->.
    + split; [done|]. split; [done|]. intros H. specialize (H c v ltac:(left) Hm). by rewrite Hspec in H.
    + split; [done|]. split; [done|]. intros H. specialize (H c v ltac:(left) Hm). by rewrite Hspec in H.
  - specialize (IH conv m Hnd). destruct (convertColumns conv table m role format order) as [[conv2 m2] r2]. destruct IH as [IH1 IH2]. split.
    + intros Hr. destruct (IH1 Hr) as [Hs2 Hl]. split; [done|]. intros d. rewrite Hl. destruct (decide (d = c)) as [->|Hd].
      * rewrite decide_False, decide_True by (done || left). unfold convertedMap. by rewrite map_lookup_imap, Hm.
      * destruct (decide (d ∈ order)); [by rewrite (decide_True (P := d ∈ c :: order)) by (by right)|]. rewrite decide_False; [done|]. by intros [?|?]%elem_of_cons.
    + rewrite IH2. split; intros H d w Hd Hdw; [|by apply H; [right|]]. apply elem_of_cons in Hd as [->|Hd]; [by rewrite Hm in Hdw|by apply H].
  - specialize (IH conv m Hnd). destruct (convertColumns conv table m role format order) as [[conv2 m2] r2]. destruct IH as [IH1 IH2]. split.
    + intros Hr. destruct (IH1 Hr) as [Hs2 Hl]. split; [done|]. intros d. rewrite Hl. destruct (decide (d = c)) as [->|Hd].
      * rewrite decide_False, decide_True by (done || left). unfold convertedMap. by rewrite map_lookup_imap, Hm.
      * destruct (decide (d ∈ order)); [by rewrite (decide_True (P := d ∈ c :: order)) by (by right)|]. rewrite decide_False; [done|]. by intros [?|?]%elem_of_cons.
    + rewrite IH2. split; intros H d w Hd Hdw; [|by apply H; [right|]]. apply elem_of_cons in Hd as [->|Hd]; [by rewrite Hm in Hdw|by apply H].
Qed.
(** The ranges over the key and the fields of an event. *)
Definition ranges (ev : Event) (orderK orderF : list string) : Prop :=
  orderK ≡ₚ map_keys (entries (EvKey ev)) ∧ orderF ≡ₚ map_keys (entries (Fields ev)).
Lemma convertMap_spec table role format order conv m : order ≡ₚ map_keys (entries m) →
  let '(conv', m', r) := convertMap conv table m role format order in
  (r = Ok () → sameTypes table conv conv' ∧ entries m' = convertedMap conv table role format (entries m)) ∧
  (r = Ok () ↔ convertible conv table role format (entries m)).
Proof.
  intros Ho. assert (NoDup order) as Hnd by (rewrite Ho; apply NoDup_fst_map_to_list).
  assert (Hin : ∀ c, c ∈ order ↔ is_Some (entries m !! c)) by (intros c; by rewrite Ho, elem_of_map_keys).
  pose proof (convertColumns_spec table role format order conv m Hnd) as H. unfold convertMap.
  destruct (convertColumns conv table m role format order) as [[conv' m'] r]. destruct H as [H1 H2]. split.
  - intros Hr. destruct (H1 Hr) as [Hs Hl]. split; [done|]. apply map_eq. intros c. rewrite Hl. case_decide as Hc; [done|].
    rewrite Hin in Hc. unfold convertedMap. rewrite map_lookup_imap. destruct (entries m !! c); [by destruct Hc; eexists|done].
  - rewrite H2. split; [|by intros H c v _; apply H]. intros H c v Hv. apply H; [|done]. rewrite Hin. by eexists.
Qed.
(** What an event becomes, and when: each column by its own type, whatever the order. *)
Lemma ConvertEvent_spec conv ev table format orderK orderF : ranges ev orderK orderF →
  let '(conv', ev', r) := ConvertEvent conv ev table format orderK orderF in
  (r = Ok () → sameTypes table conv conv' ∧
     entries (EvKey ev') = convertedMap conv table (ExporterRole ev) format (entries (EvKey ev)) ∧
     entries (Fields ev') = convertedMap conv table (ExporterRole ev) format (entries (Fields ev))) ∧
  ev' = with_fields ev (EvKey ev') (Fields ev') ∧
  (r = Ok () ↔ convertible conv table (ExporterRole ev) format (entries (EvKey ev)) ∧ convertible conv table (ExporterRole ev) format (entries (Fields ev))).
Proof.
  intros [HK HF]. unfold ConvertEvent. pose proof (convertMap_spec table (ExporterRole ev) format orderK conv (EvKey ev) HK) as H.
  destruct (convertMap conv table (EvKey ev) _ format orderK) as [[conv1 key] r1]. destruct H as [H1 H2].
  destruct r1 as [[]|e|e].
  - pose proof (convertMap_spec table (ExporterRole ev) format orderF conv1 (Fields ev) HF) as K.
    destruct (convertMap conv1 table (Fields ev) _ format orderF) as [[conv2 values] r2]. destruct K as [K1 K2].
    destruct (H1 eq_refl) as [Hs Hk]. split_and!; [|done|].
    + intros Hr. destruct (K1 Hr) as [Hs2 Hv]. cbn [EvKey Fields with_fields]. split; [by eapply sameTypes_trans|]. split; [done|]. rewrite Hv.
      apply map_eq. intros c. unfold convertedMap. rewrite !map_lookup_imap. destruct (entries (Fields ev) !! c) as [[v|]|]; [|done..]. cbn.
      by rewrite (valueSpec_same table conv conv1).
    + rewrite K2. assert (convertible conv1 table (ExporterRole ev) format (entries (Fields ev)) ↔ convertible conv table (ExporterRole ev) format (entries (Fields ev))) as ->.
      { unfold convertible. by setoid_rewrite (valueSpec_same table conv conv1 _ _ _ _ Hs). }
      split; [|by intros []]. intros H. split; [|done]. by apply H2.
  - split; [done|]. split; [done|]. split; [done|]. intros [H _]. by apply H2 in H.
  - split; [done|]. split; [done|]. split; [done|]. intros [H _]. by apply H2 in H.
Qed.

(** ** Values the target understands *)
Definition escapedTypes : list string := ["STRING"; "MAP"; "io.debezium.data.Json"; "io.debezium.data.Enum"].
Definition plainTypes : list string := ["io.debezium.time.Interval"; "io.debezium.data.Uuid"; "io.debezium.data.Ltree"; "io.debezium.time.ZonedTimestamp"].
(** Sent as it is: numbers, booleans, decimals and what else has no converter. *)
Definition passedOn (type : string) : Prop := converterFor YBValueConverterSuite type = None ∨ converterFor YBValueConverterSuite type = Some unchanged.
(** What Debezium sends for a column of a type. *)
Inductive wellFormed (type : string) (schema : ColumnSchema) : string → Prop :=
  | wf_escaped v : type ∈ escapedTypes → wellFormed type schema v
  | wf_plain v : type ∈ plainTypes → str_has "'" v = false → wellFormed type schema v
  | wf_number n : type ∈ numberTypes → inRange type n → wellFormed type schema (itoa n)
  | wf_bytes bytes : type = "BYTES" → Forall isByte bytes → wellFormed type schema (EncodeToString bytes)
  | wf_bits bytes n : type = "io.debezium.data.Bits" → Forall isByte bytes → (length bytes ≤ 8)%nat →
      Parameters schema !! "length" = Some (itoa n) → 0 < n ≤ 1000000 → littleEndian bytes < 2 ^ n → wellFormed type schema (EncodeToString bytes)
  | wf_passedOn v : passedOn type → wellFormed type schema v.
(** What the target is to read from the text [out] for the value [v]. *)
Inductive denotes (format : bool) (type : string) (schema : ColumnSchema) : string → string → Prop :=
  | denotes_text v out : type ∈ escapedTypes ++ plainTypes → meant format out = Some v → denotes format type schema v out
  | denotes_number n text out : type ∈ numberTypes → meant format out = Some text → readInstant type text = instant type n →
      denotes format type schema (itoa n) out
  | denotes_bytes bytes text out : type = "BYTES" → meant format out = Some text → readBytea text = Some bytes →
      denotes format type schema (EncodeToString bytes) out
  | denotes_bits bytes n text out : type = "io.debezium.data.Bits" → Parameters schema !! "length" = Some (itoa n) → meant format out = Some text →
      readBinary 0 text = Some (littleEndian bytes) → Z.of_nat (String.length text) = n → denotes format type schema (EncodeToString bytes) out
  | denotes_itself v : passedOn type → denotes format type schema v v.
Lemma text_converter type : type ∈ escapedTypes ++ plainTypes → ∃ f, converterFor YBValueConverterSuite type = Some f.
Proof. intros Ht. repeat (apply elem_of_cons in Ht as [->|Ht]; [by eexists|]). by apply elem_of_nil in Ht. Qed.
Lemma number_converter type : type ∈ numberTypes → ∃ f, converterFor YBValueConverterSuite type = Some f.
Proof. intros Ht. repeat (apply elem_of_cons in Ht as [->|Ht]; [by eexists|]). by apply elem_of_nil in Ht. Qed.
Lemma convertValue_denotes type schema v format : wellFormed type schema v →
  ∃ out, convertValue YBValueConverterSuite type schema format v = Ok out ∧ denotes format type schema v out.
Proof.
  unfold convertValue. intros [v' Ht|v' Ht Hq|n Ht Hr|bytes -> Hb|bytes n -> Hb H8 Hp Hn Hv|v' Hc].
  - assert (type ∈ escapedTypes ++ plainTypes) as Hin by (apply elem_of_app; by left). destruct (text_converter type Hin) as [f Hf]. rewrite Hf.
    destruct (texts_survive type v' f format (Some schema) Hf (or_introl Ht)) as (out & -> & Hm). exists out. split; [done|by constructor].
  - assert (type ∈ escapedTypes ++ plainTypes) as Hin by (apply elem_of_app; by right). destruct (text_converter type Hin) as [f Hf]. rewrite Hf.
    destruct (texts_survive type v' f format (Some schema) Hf (or_intror (conj Ht Hq))) as (out & -> & Hm). exists out. split; [done|by constructor].
  - destruct (number_converter type Ht) as [f Hf]. rewrite Hf.
    destruct (numbers_survive type f n format (Some schema) Hf Hr) as (out & text & -> & Hm & Hi). exists out. split; [done|by econstructor].
  - destruct (binary_values_survive bytes format "" "" ∅ 1 Hb) as [H _]. destruct (H (Some schema)) as (out & text & Ho & Hm & Hr).
    exists out. split; [exact Ho|by econstructor].
  - destruct schema as [type name params]. destruct (binary_values_survive bytes format type name params n Hb) as [_ H].
    destruct (H Hp Hn) as (out & text & Ho & Hm & Hr & Hl). rewrite take_ge in Hr, Hl by done. exists out. split; [exact Ho|]. eapply denotes_bits; eauto.
  - exists v'. split; [by destruct Hc as [-> | ->]|by constructor].
Qed.
(** Every column that holds a value is well-formed for its type. *)
Definition wellFormedMap (conv : StreamingPhaseDebeziumValueConverter) (table : NameTuple) (exporterRole : string) (m : gmap string (option string)) : Prop :=
  ∀ c v, m !! c = Some (Some v) → ∃ type schema, typeSpec conv table c exporterRole = Ok (type, schema) ∧ wellFormed type schema v.
(** The columns are the same, nulls are nulls, and every value is understood as it was sent. *)
Definition understood (conv : StreamingPhaseDebeziumValueConverter) (table : NameTuple) (exporterRole : string) (format : bool) (m m' : gmap string (option string)) : Prop :=
  ∀ c, match m !! c with
       | Some (Some v) => ∃ type schema out, typeSpec conv table c exporterRole = Ok (type, schema) ∧ m' !! c = Some (Some out) ∧ denotes format type schema v out
       | o => m' !! c = o
       end.
Lemma convertedMap_understood conv table role format m : valueConverterSuite conv = YBValueConverterSuite → wellFormedMap conv table role m →
  convertible conv table role format m ∧ understood conv table role format m (convertedMap conv table role format m).
Proof.
  intros Hs Hw. assert (Hv : ∀ c v, m !! c = Some (Some v) → ∃ type schema out, typeSpec conv table c role = Ok (type, schema) ∧
    valueSpec conv table role format c v = Ok out ∧ denotes format type schema v out).
  { intros c v Hc. destruct (Hw c v Hc) as (type & schema & Ht & Hwf). destruct (convertValue_denotes type schema v format Hwf) as (out & Ho & Hd).
    exists type, schema, out. split; [done|]. split; [|done]. unfold valueSpec. by rewrite Ht, Hs. }
  split.
  - intros c v Hc. destruct (Hv c v Hc) as (type & schema & out & _ & -> & _). done.
  - intros c. unfold convertedMap. destruct (m !! c) as [[v|]|] eqn:Hc; rewrite map_lookup_imap, Hc; [|done..].
    destruct (Hv c v Hc) as (type & schema & out & Ht & Ho & Hd). exists type, schema, out. split; [done|]. split; [|done]. cbn. by rewrite Ho.
Qed.


(** ** Rows *)
(** The batches' producers convert row after row; the columns of a table are those of its
    data file, the same for every row. *)
Fixpoint convertRows (names : string → list string) (conv : SnapshotPhaseDebeziumValueConverter) (rows : list (NameTuple * list string))
    : SnapshotPhaseDebeziumValueConverter * list (result (list string)) :=
  match rows with
  | [] => (conv, [])
  | (table, values) :: rows =>
      let '(conv, r) := ConvertRow conv table (names (ForKey table)) values in
      let '(conv, rs) := convertRows names conv rows in (conv, r :: rs)
  end.
(** A row by the schema registry alone. *)
Definition rowSpec (conv : SnapshotPhaseDebeziumValueConverter) (table : NameTuple) (columnNames columnValues : list string) : result (list string) :=
  p ← lookupConverterFns conv table columnNames; convertValues 0 p.1 p.2 columnValues.
Record sameRegistry (a b : SnapshotPhaseDebeziumValueConverter) : Prop := {
  sn_same_registry : sn_schemaRegistry b = sn_schemaRegistry a; sn_same_suite : sn_suite b = sn_suite a; sn_same_type : sn_targetDBType b = sn_targetDBType a }.
Lemma lookup_same a b table columnNames : sameRegistry a b → lookupConverterFns b table columnNames = lookupConverterFns a table columnNames.
Proof. intros [H1 H2 H3]. unfold lookupConverterFns. by rewrite H1, H2, H3. Qed.
(** What is cached is what the registry says. *)
Definition cacheTrue (names : string → list string) (conv : SnapshotPhaseDebeziumValueConverter) : Prop :=
  ∀ table fns schemas, StructMap.Get (converterFnCache conv) table = Some fns → StructMap.Get (dbzmColumnSchemasCache conv) table = Some schemas →
    lookupConverterFns conv table (names (ForKey table)) = Ok (fns, schemas).
Lemma lookup_key conv t t' columnNames : ForKey t = ForKey t' → lookupConverterFns conv t columnNames = lookupConverterFns conv t' columnNames.
Proof. intros H. unfold lookupConverterFns, GetColumnTypes, StructMap.Get. change (Key t) with (ForKey t). change (Key t') with (ForKey t'). by rewrite H. Qed.
Lemma ConvertRow_spec names conv table values : cacheTrue names conv →
  let '(conv', r) := ConvertRow conv table (names (ForKey table)) values in
  r = rowSpec conv table (names (ForKey table)) values ∧ cacheTrue names conv' ∧ sameRegistry conv conv'.
Proof.
  intros Hc. unfold ConvertRow, getConverterFns, rowSpec.
  assert (Hmiss : let '(conv', r) := match lookupConverterFns conv table (names (ForKey table)) with
      | Ok (fns, schemas) => (mkSnapshotConverter (sn_schemaRegistry conv) (sn_suite conv) (sn_targetDBType conv)
          (StructMap.Put (converterFnCache conv) table fns) (StructMap.Put (dbzmColumnSchemasCache conv) table schemas), Ok (fns, schemas))
      | r => (conv, r) end in r = lookupConverterFns conv table (names (ForKey table)) ∧ cacheTrue names conv' ∧ sameRegistry conv conv').
  { destruct (lookupConverterFns conv table (names (ForKey table))) as [[fns schemas]|e|e] eqn:Hl; [|by split_and!..].
    split_and!; [done| |by split]. intros t fns' schemas'. cbn [converterFnCache dbzmColumnSchemasCache].
    rewrite !StructMap.Get_Put. case_decide as Hk; [|apply Hc]. change (ForKey table = ForKey t) in Hk. intros [= <-] [= <-].
    rewrite <- Hk, <- Hl. rewrite (lookup_key _ t table) by done. by apply lookup_same. }
  destruct (StructMap.Get (converterFnCache conv) table) as [fns|] eqn:H1; [destruct (StructMap.Get (dbzmColumnSchemasCache conv) table) as [schemas|] eqn:H2|].
  - by rewrite (Hc _ _ _ H1 H2).
  - destruct (match lookupConverterFns _ _ _ with Ok _ => _ | _ => _ end) as [conv' r]. by destruct Hmiss as (-> & ? & ?).
  - destruct (match lookupConverterFns _ _ _ with Ok _ => _ | _ => _ end) as [conv' r]. by destruct Hmiss as (-> & ? & ?).
Qed.
(** The cache makes no difference. *)
Lemma convertRows_uncached names rows : ∀ conv, cacheTrue names conv →
  (convertRows names conv rows).2 = map (λ row, rowSpec conv row.1 (names (ForKey row.1)) row.2) rows.
Proof.
  induction rows as [|[table values] rows IH]; intros conv Hc; [done|]. cbn [convertRows map fst snd].
  pose proof (ConvertRow_spec names conv table values Hc) as H. destruct (ConvertRow conv table _ values) as [conv1 r]. destruct H as (-> & Hc1 & Hs).
  specialize (IH conv1 Hc1). destruct (convertRows names conv1 rows) as [conv2 rs]. cbn in IH |- *. subst rs. f_equal.
  apply map_ext. intros row. unfold rowSpec. by rewrite (lookup_same _ _ _ _ Hs).
Qed.
(** A value of a row, null or of its column's type, and the text that stands for it. *)
Definition wellFormedValue (t : string * ColumnSchema) (v : string) : Prop := v = YB_VOYAGER_NULL_STRING ∨ wellFormed t.1 t.2 v.
Definition understoodValue (t : string * ColumnSchema) (v out : string) : Prop :=
  if decide (v = YB_VOYAGER_NULL_STRING) then out = v else denotes false t.1 t.2 v out.
Lemma convertValues_understood (all : list (string * ColumnSchema)) : ∀ i types values,
  (∀ j t, types !! j = Some t → all !! (i + j)%nat = Some t) → Forall2 wellFormedValue types values →
  ∃ outs, convertValues i (map (λ t, converterFor YBValueConverterSuite t.1) all) (map snd all) values = Ok outs ∧
    Forall3 understoodValue types values outs.
Proof.
  intros i types values Ht Hw. revert i Ht. induction Hw as [|t v types values Hv Hw IH]; intros i Ht; [exists []; by split; [|constructor]|].
  destruct (IH (S i)) as (outs & Ho & Hf). { intros j t' Hj. specialize (Ht (S j) t' Hj). by rewrite Nat.add_succ_r in Ht. }
  pose proof (Ht 0%nat t eq_refl) as Hi. rewrite Nat.add_0_r in Hi. cbn [convertValues]. rewrite !list_lookup_fmap, Hi. cbn [fmap option_fmap option_map].
  assert (∃ out, (if decide (v = YB_VOYAGER_NULL_STRING) then Ok v else
      match converterFor YBValueConverterSuite t.1 with None => Ok v | Some converterFn => converterFn v false (Some t.2) end) = Ok out ∧ understoodValue t v out) as (out & Hout & Hu).
  { unfold understoodValue. case_decide as Hn; [by exists v|]. destruct Hv as [|Hv]; [done|].
    exact (convertValue_denotes t.1 t.2 v false Hv). }
  exists (out :: outs). split; [|by constructor]. case_decide as Hn; cbn [mbind result_bind].
  - injection Hout as ->. by rewrite Ho.
  - destruct (converterFor YBValueConverterSuite t.1) as [f|]; [rewrite Hout|injection Hout as ->]; cbn [mbind result_bind]; by rewrite Ho.
Qed.
End registry.

(** ** Witnesses *)
Definition sampleColumns : TableSchema :=
  [mkColumn "id" 0 (mkColumnSchema "int32" "" ∅); mkColumn "name" 1 (mkColumnSchema "STRING" "" ∅);
   mkColumn "at" 2 (mkColumnSchema "int64" "io.debezium.time.MicroTimestamp" ∅)].
Definition accounts : NameTuple := Event.sampleTable.
Definition sampleRegistry : SchemaRegistry := withSchemas (NewSchemaRegistry [accounts] TARGET_DB_IMPORTER_ROLE) (StructMap.Put StructMap.NewStructMap accounts sampleColumns).
Definition sampleStreaming : StreamingPhaseDebeziumValueConverter := mkStreaming sampleRegistry None YBValueConverterSuite YUGABYTEDB POSTGRESQL.
Definition sampleKey : gmap string (option string) := {["id" := Some "7"]}.
Definition sampleFields : gmap string (option string) := <["name" := Some "O'Reilly"]> (<["at" := Some (itoa 1640995200500000)]> (<["note" := None]> ∅)).
Definition sampleEvent : Event := mkEvent 1 "u" accounts "" "" accounts (Some sampleKey) (Some sampleFields) None None SOURCE_DB_EXPORTER_ROLE.
Lemma sampleKey_wellFormed dirS dirT : wellFormedMap (λ _, Err "") dirS dirT sampleStreaming accounts SOURCE_DB_EXPORTER_ROLE sampleKey.
Proof.
  unfold sampleKey. intros c v [<- [= <-]]%lookup_singleton_Some. exists "int32", (mkColumnSchema "int32" "" ∅). split; [by vm_compute|]. apply wf_passedOn. by left.
Qed.
Lemma sampleFields_wellFormed dirS dirT : wellFormedMap (λ _, Err "") dirS dirT sampleStreaming accounts SOURCE_DB_EXPORTER_ROLE sampleFields.
Proof.
  unfold sampleFields. intros c v Hc. apply lookup_insert_Some in Hc as [[<- [= <-]]|[_ Hc]]; [|apply lookup_insert_Some in Hc as [[<- [= <-]]|[_ Hc]]].
  - exists "STRING", (mkColumnSchema "STRING" "" ∅). split; [by vm_compute|]. apply wf_escaped. by left.
  - exists "io.debezium.time.MicroTimestamp", (mkColumnSchema "int64" "io.debezium.time.MicroTimestamp" ∅). split; [by vm_compute|]. apply wf_number; [decided|].
    split; [by vm_compute|]. vm_compute. by split.
  - by apply lookup_insert_Some in Hc as [[_ [=]]|[_ Hc]].
Qed.
Definition sampleSnapshotConverter : SnapshotPhaseDebeziumValueConverter :=
  mkSnapshotConverter sampleRegistry YBValueConverterSuite YUGABYTEDB StructMap.NewStructMap StructMap.NewStructMap.
Definition sampleRows : list (NameTuple * list string) := [(accounts, ["1"; "it's"; "0"]); (accounts, ["2"; YB_VOYAGER_NULL_STRING; "-1500000"])].
Definition sampleTypes : list (string * ColumnSchema) := map (λ c, (if decide (cs_Name (c_Schema c) = "") then cs_Type (c_Schema c) else cs_Name (c_Schema c), c_Schema c)) sampleColumns.
Lemma sampleRows_wellFormed table values : (table, values) ∈ sampleRows → ∃ types,
  GetColumnTypes sampleRegistry table ["id"; "name"; "at"] false = Ok types ∧ Forall2 wellFormedValue types values.
Proof.
  assert (Hid : ∀ v, wellFormedValue ("int32", mkColumnSchema "int32" "" ∅) v) by (intros v; right; apply wf_passedOn; by left).
  assert (Hname : ∀ v, wellFormedValue ("STRING", mkColumnSchema "STRING" "" ∅) v) by (intros v; right; apply wf_escaped; by left).
  assert (Hat : ∀ n, -719162 * DAY ≤ n * 1000 → in_int64 n = true →
    wellFormedValue ("io.debezium.time.MicroTimestamp", mkColumnSchema "int64" "io.debezium.time.MicroTimestamp" ∅) (itoa n)).
  { intros n Hlo Hn. right. apply wf_number; [decided|]. split; [done|]. split; [exact Hlo|]. intros [=]. }
  assert (Ht : GetColumnTypes sampleRegistry accounts ["id"; "name"; "at"] false = Ok sampleTypes) by (vm_compute; reflexivity).
  intros [[= -> ->]|[[= -> ->]|[]%elem_of_nil]%elem_of_cons]%elem_of_cons; exists sampleTypes; (split; [exact Ht|]);
    (apply Forall2_cons_2; [apply Hid|]; apply Forall2_cons_2; [apply Hname|]; apply Forall2_cons_2; [|constructor]).
  - apply (Hat 0); [by vm_compute|done].
  - apply (Hat (-1500000)); [by vm_compute|done].
Qed.
End ValueConverter.
