(* ===== verification/StreamingValues.v ===== *)
(** * Streaming with value conversion (src/yb-voyager/cmd/live_migration.go handleEvent,
    src/dbzm/valueConverter.go)

    [Streaming] takes the conversion of an event as a function; this file puts the value
    converter in its place.  The converter has a state, the schemas it has loaded, but
    while the exporters' files stay what they are it answers alike whatever it converted
    before; so the events that the target has applied are, in order, those of the queue,
    meaning what they meant at the source. *)
From S2P Require Import Prelude StructMap SqlName Event PartitionKey ConflictCache Streaming CivilTime ValueSuite ValueConverter.
Import SqlName Event PartitionKey ConflictCache Streaming ValueSuite ValueConverter.

Module StreamingValues.
#[local] Existing Instance relevant_dec.

(** ** The converter as handleEvent calls it *)
Section conversion.
Context (lookupTable : string → result NameTuple) (dirS dirT : schemaDir).
(** The orders in which Go ranges over the key and the fields of an event. *)
Context (orderK orderF : Event → list string) (any_order : ∀ e, ranges e (orderK e) (orderF e)).
Definition convert (conv : StreamingPhaseDebeziumValueConverter) (event : Event) : StreamingPhaseDebeziumValueConverter * Event * result unit :=
  ConvertEvent lookupTable dirS dirT conv event (TableNameTup event) (shouldFormatValues (targetDBType conv) event) (orderK event) (orderF event).
Definition convertedBy (conv : StreamingPhaseDebeziumValueConverter) (event : Event) : result Event :=
  let '(_, event', r) := convert conv event in _ ← r; Ok event'.
(** The converter once it has converted, or failed to convert, some events. *)
Definition convAfter (conv : StreamingPhaseDebeziumValueConverter) (events : list Event) : StreamingPhaseDebeziumValueConverter :=
  foldl (λ conv event, (convert conv event).1.1) conv events.

(** ** Loading again changes nothing *)
(** A registry is as the directory's files make it, or not loaded yet. *)
Definition cleared (reg : SchemaRegistry) : SchemaRegistry := withSchemas reg (StructMap.Clear (TableNameToSchema reg)).
Record loadable (dir : schemaDir) (reg : SchemaRegistry) : Prop := {
  init_ok : (Init lookupTable dir (cleared reg)).2 = Ok ();
  init_same : TableNameToSchema reg = TableNameToSchema (Init lookupTable dir (cleared reg)).1 ∨ reg = cleared reg }.
Definition ready (conv : StreamingPhaseDebeziumValueConverter) : Prop :=
  loadable dirS (schemaRegistrySource conv) ∧ ∀ reg, schemaRegistryTarget conv = Some reg → loadable dirT reg.
(** Converters of which one will do for the other, for every table. *)
Record agree (a b : StreamingPhaseDebeziumValueConverter) : Prop := {
  ag_left : ready a; ag_right : ready b; ag_types : ∀ table, sameTypes lookupTable dirS dirT table a b }.
Lemma loadSchemaFiles_frame files : ∀ reg, let reg' := (loadSchemaFiles lookupTable reg files).1 in tableList reg' = tableList reg ∧ importerRole reg' = importerRole reg.
Proof.
  induction files as [|file files IH]; intros reg; [done|]. cbn [loadSchemaFiles].
  assert (tableList (loadSchemaFile lookupTable reg file).1 = tableList reg ∧ importerRole (loadSchemaFile lookupTable reg file).1 = importerRole reg) as H.
  { unfold loadSchemaFile. destruct (HasSuffix _ _), file.2; [done..| | |]; try done.
    destruct (lookupTable _) as [table| |]; [|done..]. by repeat case_match. }
  destruct (loadSchemaFile lookupTable reg file) as [reg1 [[]| |]]; [|done..]. destruct (IH reg1) as [-> ->]. exact H.
Qed.
Lemma cleared_Init dir reg : cleared (Init lookupTable dir (cleared reg)).1 = cleared reg.
Proof.
  unfold Init. destruct dir as [files| |]; [|done..]. destruct (loadSchemaFiles_frame files (cleared reg)) as [Ht Hr].
  destruct (loadSchemaFiles lookupTable (cleared reg) files) as [[role tables m] r]. cbn in Ht, Hr. by subst.
Qed.
Lemma schemaOf_loadable dir reg table : loadable dir reg → schemaOf lookupTable dir reg table =
  match StructMap.Get (TableNameToSchema (Init lookupTable dir (cleared reg)).1) table with Some ts => Ok ts | None => Err "table not found in schema registry" end.
Proof.
  intros [Hok Hsame]. unfold schemaOf. fold (cleared reg).
  assert (StructMap.Get (TableNameToSchema reg) table = StructMap.Get (TableNameToSchema (Init lookupTable dir (cleared reg)).1) table ∨
    StructMap.Get (TableNameToSchema reg) table = None) as [->| ->].
  { destruct Hsame as [-> | ->]; [by left|right]. cbn. apply lookup_empty. }
  - destruct (Init lookupTable dir (cleared reg)) as [reg' r]. cbn in *. subst r. by destruct (StructMap.Get (TableNameToSchema reg') table).
  - destruct (Init lookupTable dir (cleared reg)) as [reg' r]. cbn in *. by subst r.
Qed.
Lemma GetColumnType_loadable dir reg table column getSource : loadable dir reg →
  let reg' := (GetColumnType lookupTable dir reg table column getSource).1 in
  loadable dir reg' ∧ ∀ t, schemaOf lookupTable dir reg' t = schemaOf lookupTable dir reg t.
Proof.
  intros H. unfold GetColumnType. fold (cleared reg). destruct (StructMap.Get (TableNameToSchema reg) table); [by split|].
  pose proof (cleared_Init dir reg) as Hc. pose proof (init_ok _ _ H) as Hok.
  assert (loadable dir (Init lookupTable dir (cleared reg)).1) as Hl by (split; rewrite Hc; [done|by left]).
  assert (∀ t, schemaOf lookupTable dir (Init lookupTable dir (cleared reg)).1 t = schemaOf lookupTable dir reg t) as Ht.
  { intros t. by rewrite !schemaOf_loadable, Hc. }
  destruct (Init lookupTable dir (cleared reg)) as [reg' r]. by split.
Qed.
#[local] Instance agree_sym : Symmetric agree.
Proof. intros a b [Ha Hb H]. split; [done..|]. intros t. destruct (H t). by split. Qed.
#[local] Instance agree_trans : Transitive agree.
Proof. intros a b c [Ha Hb H] [_ Hc K]. split; [done..|]. intros t. by eapply sameTypes_trans. Qed.
Lemma agree_refl a : ready a → agree a a.
Proof. intros H. split; [done..|]. intros t. apply sameTypes_refl. Qed.
Lemma agree_source conv table column getSource : ready conv →
  agree conv (with_source conv (GetColumnType lookupTable dirS (schemaRegistrySource conv) table column getSource).1).
Proof.
  intros H. destruct (GetColumnType_loadable dirS (schemaRegistrySource conv) table column getSource (proj1 H)) as [Hl Hs].
  split; [done|split; [exact Hl|exact (proj2 H)]|]. intros t. by split.
Qed.
Lemma agree_target conv reg table column getSource : ready conv → schemaRegistryTarget conv = Some reg →
  agree conv (with_target conv (GetColumnType lookupTable dirT reg table column getSource).1).
Proof.
  intros H Hr. destruct (GetColumnType_loadable dirT reg table column getSource (proj2 H _ Hr)) as [Hl Hs].
  split; [done|split; [exact (proj1 H)|by intros ? [= <-]]|]. intros t. split; try done. cbn. rewrite Hr. cbn. by rewrite Hs.
Qed.
Lemma columnTypeOf_agree conv table column role : ready conv →
  agree conv (columnTypeOf lookupTable dirS dirT conv table column role).1.
Proof.
  intros H. unfold columnTypeOf. set (gs := shouldFormatAsPerSourceDatatypes (targetDBType conv)).
  destruct (checkSourceExporter role); [|destruct (schemaRegistryTarget conv) as [regT|] eqn:HT; [|by apply agree_refl]].
  - pose proof (agree_source conv table column gs H) as Ha. by destruct (GetColumnType _ dirS _ _ _ _) as [reg [[]| |]].
  - pose proof (agree_target conv regT table column gs H HT) as Ha. destruct (GetColumnType _ dirT _ _ _ _) as [reg [[ty sc]| |]]; [|done..].
    cbn [negb andb fst] in *. destruct (EqualFold ty INTERVAL && _); [|done].
    pose proof (agree_source (with_target conv reg) table (ToUpper column) gs (ag_right _ _ Ha)) as Hb.
    destruct (GetColumnType _ dirS _ _ _ _) as [reg' r]. by transitivity (with_target conv reg).
Qed.
(** Two converters that agree convert alike, and still agree. *)
Lemma convertColumns_agree table role format : ∀ order a b m, agree a b →
  let '(a', m1, r1) := convertColumns lookupTable dirS dirT a table m role format order in
  let '(b', m2, r2) := convertColumns lookupTable dirS dirT b table m role format order in
  m1 = m2 ∧ r1 = r2 ∧ agree a a' ∧ agree a' b'.
Proof.
  induction order as [|column order IH]; intros a b m Hab; cbn [convertColumns]; [split_and!; [done|done|by apply agree_refl, Hab|done]|].
  destruct (entries m !! column) as [[v|]|]; [|by apply IH|by apply IH].
  pose proof (columnTypeOf_agree a table column role (ag_left _ _ Hab)) as Ha. pose proof (columnTypeOf_agree b table column role (ag_right _ _ Hab)) as Hb.
  pose proof (columnTypeOf_spec lookupTable dirS dirT a table column role) as Sa. pose proof (columnTypeOf_spec lookupTable dirS dirT b table column role) as Sb.
  destruct (columnTypeOf _ _ _ a _ _ _) as [a1 ra], (columnTypeOf _ _ _ b _ _ _) as [b1 rb]. cbn [fst] in *.
  destruct Sa as [-> _], Sb as [-> _]. assert (agree a1 b1) as Hab1 by (transitivity a; [by symmetry|by transitivity b]).
  rewrite (typeSpec_same _ _ _ table a b column role (ag_types _ _ Hab table)), (same_suite _ _ _ _ _ _ (ag_types _ _ Hab1 table)).
  destruct (_ ← _; _) as [v'| |]; [|by split_and!..].
  specialize (IH a1 b1 (Some (<[column := Some v']> (entries m))) Hab1).
  destruct (convertColumns _ _ _ a1 _ _ _ _ _) as [[a2 m1] r1], (convertColumns _ _ _ b1 _ _ _ _ _) as [[b2 m2] r2].
  destruct IH as (-> & -> & H1 & H2). split_and!; [done|done|by transitivity a1|done].
Qed.
Lemma ConvertEvent_agree a b ev table format oK oF : agree a b →
  let '(a', e1, r1) := ConvertEvent lookupTable dirS dirT a ev table format oK oF in
  let '(b', e2, r2) := ConvertEvent lookupTable dirS dirT b ev table format oK oF in
  e1 = e2 ∧ r1 = r2 ∧ agree a a'.
Proof.
  intros Hab. unfold ConvertEvent, convertMap. pose proof (convertColumns_agree table (ExporterRole ev) format oK a b (EvKey ev) Hab) as H.
  destruct (convertColumns _ _ _ a _ _ _ _ _) as [[a1 k1] r1], (convertColumns _ _ _ b _ _ _ _ _) as [[b1 k2] r2].
  destruct H as (-> & -> & Ha & Hab1). destruct r2 as [[]| |]; [|done..].
  pose proof (convertColumns_agree table (ExporterRole ev) format oF a1 b1 (Fields ev) Hab1) as H.
  destruct (convertColumns _ _ _ a1 _ _ _ _ _) as [[a2 f1] q1], (convertColumns _ _ _ b1 _ _ _ _ _) as [[b2 f2] q2].
  destruct H as (-> & -> & Ha2 & _). split_and!; [done|done|by transitivity a1].
Qed.
Lemma convAfter_agree events : ∀ conv, ready conv → agree conv (convAfter conv events).
Proof.
  induction events as [|e events IH]; intros conv H; [by apply agree_refl|]. unfold convAfter. cbn [foldl].
  assert (agree conv (convert conv e).1.1) as Ha.
  { unfold convert. pose proof (ConvertEvent_agree conv conv e (TableNameTup e) (shouldFormatValues (targetDBType conv) e) (orderK e) (orderF e) (agree_refl _ H)) as Hc.
    destruct (ConvertEvent _ _ _ _ _ _ _ _ _) as [[a' e'] r]. by destruct Hc as (_ & _ & ?). }
  etrans; [exact Ha|]. exact (IH _ (ag_right _ _ Ha)).
Qed.
(** What was converted before makes no difference. *)
Lemma convertedBy_after conv events e : ready conv → convertedBy (convAfter conv events) e = convertedBy conv e.
Proof.
  intros H. pose proof (convAfter_agree events conv H) as Ha. unfold convertedBy, convert. rewrite (same_targetDBType _ _ _ _ _ _ (ag_types _ _ Ha (TableNameTup e))).
  pose proof (ConvertEvent_agree _ _ e (TableNameTup e) (shouldFormatValues (targetDBType conv) e) (orderK e) (orderF e) Ha) as Hc.
  destruct (ConvertEvent _ _ _ conv _ _ _ _ _) as [[? e1] r1], (ConvertEvent _ _ _ (convAfter conv events) _ _ _ _ _) as [[? e2] r2].
  by destruct Hc as (-> & -> & _).
Qed.
(** A new converter is ready, when the target's exporter has left files that load too. *)
Lemma New_ready suite tables role target source conv :
  NewStreamingPhaseDebeziumValueConverter lookupTable suite dirS tables role target source = Ok conv →
  (Init lookupTable dirT (NewSchemaRegistry tables role)).2 = Ok () → ready conv.
Proof.
  unfold NewStreamingPhaseDebeziumValueConverter. intros Hn Ht. assert (cleared (NewSchemaRegistry tables role) = NewSchemaRegistry tables role) as Hcl by done.
  pose proof (cleared_Init dirS (NewSchemaRegistry tables role)) as Hc. rewrite Hcl in Hc.
  destruct (Init lookupTable dirS (NewSchemaRegistry tables role)) as [reg [[]| |]] eqn:Hi; cbn in Hn, Hc; [|done..].
  destruct suite as [suite| |]; cbn in Hn; [|done..]. injection Hn as <-. split; cbn.
  - split; rewrite Hc, Hi; [done|by left].
  - intros reg'. case_decide; [|done]. intros [= <-]. split; rewrite Hcl; [done|by right].
Qed.
(** ** Events that mean the same *)
Definition wellFormedEvent (conv : StreamingPhaseDebeziumValueConverter) (e : Event) : Prop :=
  wellFormedMap lookupTable dirS dirT conv (TableNameTup e) (ExporterRole e) (entries (EvKey e)) ∧
  wellFormedMap lookupTable dirS dirT conv (TableNameTup e) (ExporterRole e) (entries (Fields e)).
(** [e'] is [e] with its key and fields in the target's terms. *)
Record meansTheSame (conv : StreamingPhaseDebeziumValueConverter) (e e' : Event) : Prop := {
  ms_key : understood lookupTable dirS dirT conv (TableNameTup e) (ExporterRole e) (shouldFormatValues (targetDBType conv) e) (entries (EvKey e)) (entries (EvKey e'));
  ms_fields : understood lookupTable dirS dirT conv (TableNameTup e) (ExporterRole e) (shouldFormatValues (targetDBType conv) e) (entries (Fields e)) (entries (Fields e'));
  ms_rest : e' = with_fields e (EvKey e') (Fields e') }.
Lemma convertedBy_id conv e e' : convertedBy conv e = Ok e' → Vsn e' = Vsn e ∧ ExporterRole e' = ExporterRole e.
Proof.
  unfold convertedBy, convert. pose proof (ConvertEvent_spec lookupTable dirS dirT conv e (TableNameTup e) (shouldFormatValues (targetDBType conv) e) _ _ (any_order e)) as H.
  destruct (ConvertEvent _ _ _ _ _ _ _ _ _) as [[conv' e1] r]. destruct H as (_ & -> & _). destruct r; [|done..]. by intros [= <-].
Qed.
Lemma convertedBy_means conv e : valueConverterSuite conv = YBValueConverterSuite → wellFormedEvent conv e →
  ∃ e', convertedBy conv e = Ok e' ∧ meansTheSame conv e e'.
Proof.
  intros Hs [HK HF]. set (format := shouldFormatValues (targetDBType conv) e).
  destruct (convertedMap_understood lookupTable dirS dirT conv (TableNameTup e) _ format _ Hs HK) as [CK UK],
    (convertedMap_understood lookupTable dirS dirT conv (TableNameTup e) _ format _ Hs HF) as [CF UF].
  pose proof (ConvertEvent_spec lookupTable dirS dirT conv e (TableNameTup e) format _ _ (any_order e)) as H.
  unfold convertedBy, convert. fold format. destruct (ConvertEvent _ _ _ _ _ _ _ _ _) as [[conv' e'] r].
  destruct H as (H1 & H2 & H3). rewrite (proj2 H3 (conj CK CF)). destruct (H1 (proj2 H3 (conj CK CF))) as (_ & EK & EF).
  exists e'. split; [done|]. split; [by rewrite EK|by rewrite EF|done].
Qed.
End conversion.

(** ** What the target holds are converted events of the queue *)
Section stream.
Context (input : list Event) (boundary : nat → bool) (NUM_EVENT_CHANNELS : Z) (EVENT_CHANNEL_SIZE MAX_EVENTS_PER_BATCH : nat)
  (importerRole : string) (ti : StructMap.t NameTuple (list UniqueIndex)) (pm : StructMap.t NameTuple cdcPartitionKeyOverride)
  (convertFn : Event → result Event).
Notation step := (step input boundary NUM_EVENT_CHANNELS EVENT_CHANNEL_SIZE MAX_EVENTS_PER_BATCH importerRole ti pm convertFn).
Notation reachable := (reachable input boundary NUM_EVENT_CHANNELS EVENT_CHANNEL_SIZE MAX_EVENTS_PER_BATCH importerRole ti pm convertFn).
Notation relevant := (relevant NUM_EVENT_CHANNELS importerRole pm).
Definition converted (e' : Event) : Prop := ∃ e, e ∈ input ∧ convertFn e = Ok e'.
(** Everything on its way to the target, or there. *)
Record onTheWay (s : sys) : Prop := {
  way_main : match main s with MIdle => True | MPut e _ | MSend e _ => e ∈ input end;
  way_chans : ∀ c e', e' ∈ batchOf (workers s c) ++ evsOf (chans s c) → converted e';
  way_db : ∀ c e', e' ∈ eventsOf (db s) c → converted e' }.
Lemma onTheWay_initial : onTheWay initial.
Proof. split; [done|..]; intros c e' He; by apply elem_of_nil in He. Qed.
Lemma onTheWay_restart s : onTheWay s → onTheWay (restart s).
Proof. intros [_ _ Hd]. split; [done| |done]. intros c e' He. by apply elem_of_nil in He. Qed.
(** A step of channel [c] that adds nothing to what the channel and its worker hold. *)
Lemma onTheWay_channel s s' c : onTheWay s → main s' = main s → db s' = db s →
  (∀ c', c' ≠ c → chans s' c' = chans s c' ∧ workers s' c' = workers s c') →
  (∀ e', e' ∈ batchOf (workers s' c) ++ evsOf (chans s' c) → e' ∈ batchOf (workers s c) ++ evsOf (chans s c)) → onTheWay s'.
Proof.
  intros [Hm Hc Hd] Em Ed Ho He. split; [by rewrite Em| |by rewrite Ed]. intros c' e'. destruct (decide (c' = c)) as [->|Hne].
  - intros H. by apply (Hc c), He.
  - destruct (Ho c' Hne) as [-> ->]. apply Hc.
Qed.
Lemma onTheWay_main s s' : onTheWay s → workers s' = workers s → chans s' = chans s → db s' = db s →
  match main s' with MIdle => True | MPut e _ | MSend e _ => e ∈ input end → onTheWay s'.
Proof. intros [_ Hc Hd] Ew Ec Ed Hm. split; [done|by rewrite Ew, Ec|by rewrite Ed]. Qed.
Lemma onTheWay_commit s c b w : onTheWay s → batchOf (workers s c) = b → batchOf w = b →
  onTheWay (set_worker (set_db s (commitBatch (db s) c b)) c w).
Proof.
  intros H Hb Hw. apply (onTheWay_channel (set_db s (commitBatch (db s) c b)) _ c); [|done..| |].
  - destruct H as [Hm Hc Hd]. split; [done|done|]. intros c' e'. cbn [db set_db]. rewrite eventsOf_commit, elem_of_app. intros [He|He]; [by apply (Hd c')|].
    case_decide; [|by apply elem_of_nil in He]. subst b. apply (Hc c). apply elem_of_app. by left.
  - intros c' Hne. cbn. by rewrite upd_ne.
  - intros e'. cbn. by rewrite upd_eq, Hw, Hb.
Qed.
Lemma next_input s e : next input s e → e ∈ input.
Proof. intros (_ & He & _). by eapply list_elem_of_lookup_2. Qed.
#[local] Ltac on_channel c := match goal with H : onTheWay ?s |- _ => eapply (onTheWay_channel s _ c H) end; [done..| |];
  [intros c' Hne; cbn; by rewrite ?upd_ne | intros e0; cbn; rewrite ?upd_eq].
Lemma evsOf_flush chs c : evsOf (flushAll NUM_EVENT_CHANNELS EVENT_CHANNEL_SIZE chs c) = evsOf (chs c).
Proof. unfold flushAll. repeat case_decide; repeat case_match; rewrite ?evsOf_app, ?app_nil_r; done. Qed.
Lemma onTheWay_step s s' : onTheWay s → step s s' → onTheWay s'.
Proof.
  intros H Hstep. destruct Hstep.
  - by eapply onTheWay_main; [exact H|..]; destruct H.
  - by eapply onTheWay_main; [exact H|..]; destruct H.
  - eapply onTheWay_main; [exact H|done..|]. by eapply next_input.
  - eapply onTheWay_main; [exact H|done..|]. by eapply next_input.
  - eapply onTheWay_main; [exact H|done..|]. cbn. case_decide; by eapply next_input.
  - destruct H as [Hm Hc Hd]. split; [done| |done]. intros c e'. cbn [workers chans set_flush]. rewrite evsOf_flush. apply Hc.
  - destruct H as [Hm Hc Hd]. split; [|done..]. cbn. by rewrite H0 in Hm.
  - destruct H as [Hm Hc Hd]. rewrite H0 in Hm. split; [done| |done]. intros c x. cbn. unfold upd. case_decide as Hch; [subst|by apply Hc].
    rewrite evsOf_app, app_assoc, elem_of_app. intros [Hx|Hx]; [by apply (Hc h)|]. apply list_elem_of_singleton in Hx as ->. by exists e.
  - by eapply onTheWay_main; [exact H|..]; destruct H.
  - on_channel c. rewrite H0. cbn. set_solver.
  - on_channel c. rewrite H0, H1. cbn. set_solver.
  - on_channel c. rewrite H0, H1. cbn. case_decide; subst; cbn; set_solver.
  - on_channel c. by rewrite H0.
  - by apply onTheWay_commit; rewrite ?H0.
  - by apply onTheWay_commit; rewrite ?H0.
  - on_channel c. by rewrite H0.
  - on_channel c. rewrite H0. by case_match.
  - on_channel c. rewrite H0. cbn. set_solver.
  - by apply onTheWay_restart.
Qed.
Lemma onTheWay_reachable s : reachable s → onTheWay s.
Proof. apply (rtc_invariant step onTheWay); [apply onTheWay_initial|]. intros y z Hy Hstep. by eapply onTheWay_step. Qed.

(** ** Which events the target holds *)
Context (input_sorted : StronglySorted (λ a b, Vsn a < Vsn b) input) (input_vsn : Forall (λ e, 0 ≤ Vsn e) input).
Context (convert_id : ∀ e e', convertFn e = Ok e' → Vsn e' = Vsn e ∧ ExporterRole e' = ExporterRole e).
Definition dueUpTo (s : sys) (c : Z) : list Event := filter (λ e, Vsn e ≤ last_applied_vsn (rows (db s) c)) (filter (relevant c) input).
Lemma logOf_eventsOf d c : logOf d c = map Vsn (eventsOf d c).
Proof. unfold logOf, eventsOf. by rewrite map_map. Qed.
Lemma leq_map_Vsn n l : leq n (map Vsn l) = map Vsn (filter (λ e, Vsn e ≤ n) l).
Proof. unfold leq. induction l as [|e l IH]; [done|]. cbn [map]. rewrite !filter_cons. case_decide; cbn [map]; by rewrite IH. Qed.
Lemma same_Vsns l l' : l ⊆ input → Forall converted l' → map Vsn l' = map Vsn l → Forall2 (λ e e', convertFn e = Ok e') l l'.
Proof.
  revert l'. induction l as [|e l IH]; intros [|e' l'] Hin Hc Hv; try done. injection Hv as Hv Hvs. apply Forall_cons in Hc as [(e0 & He0 & Hconv) Hc].
  constructor; [|apply IH; set_solver]. destruct (convert_id _ _ Hconv) as [Hid _].
  assert (e ∈ input) as He by set_solver. apply list_elem_of_lookup in He as [i Hi], He0 as [j Hj].
  assert (j = i) as -> by (eapply input_vsn_inj; [exact input_sorted|exact Hj|exact Hi|congruence]). congruence.
Qed.
Lemma Forall2_left_impl (P Q : Event → Event → Prop) l l' : (∀ e e', e ∈ l → P e e' → Q e e') → Forall2 P l l' → Forall2 Q l l'.
Proof. intros HPQ. induction 1 as [|e e' l l' He _ IH]; constructor; [apply HPQ; [left|done]|]. apply IH. intros x x' Hx. apply HPQ. by right. Qed.
Lemma target_holds s c : reachable s → Forall2 (λ e e', convertFn e = Ok e') (dueUpTo s c) (eventsOf (db s) c).
Proof.
  intros Hs. apply same_Vsns.
  - intros e. unfold dueUpTo. rewrite !list_elem_of_filter. tauto.
  - apply Forall_forall. intros e' He. by apply (way_db _ (onTheWay_reachable s Hs) c).
  - rewrite <- logOf_eventsOf, (log_exact _ _ _ _ _ _ _ _ _ input_sorted input_vsn convert_id s c Hs). unfold owed, dueUpTo. apply leq_map_Vsn.
Qed.
Lemma filter_everything (P : Event → Prop) `{∀ e, Decision (P e)} (l : list Event) : (∀ e, e ∈ l → P e) → filter P l = l.
Proof. induction l as [|e l IH]; intros Hl; [done|]. rewrite filter_cons_True by (apply Hl; left). f_equal. apply IH. intros x Hx. apply Hl. by right. Qed.
Lemma drained_due s c : reachable s → drained s → pos s = length input → dueUpTo s c = filter (relevant c) input.
Proof.
  intros Hs Hd Hp. unfold dueUpTo. apply filter_everything. intros e [Hr He]%list_elem_of_filter. apply list_elem_of_lookup in He as [i Hi].
  by eapply (drained_row _ _ _ _ _ _ _ _ _ input_sorted input_vsn convert_id).
Qed.
End stream.

(** ** Theorem *)
Section theorem.
Context (lookupTable : string → result NameTuple) (dirS dirT : schemaDir) (orderK orderF : Event → list string)
  (any_order : ∀ e, ranges e (orderK e) (orderF e)) (conv : StreamingPhaseDebeziumValueConverter).
Context (input : list Event) (boundary : nat → bool) (NUM_EVENT_CHANNELS : Z) (EVENT_CHANNEL_SIZE MAX_EVENTS_PER_BATCH : nat)
  (importerRole : string) (ti : StructMap.t NameTuple (list UniqueIndex)) (pm : StructMap.t NameTuple cdcPartitionKeyOverride).
Notation convertFn := (convertedBy lookupTable dirS dirT orderK orderF conv).
End theorem.

(** ** Witness *)
Definition accountsTable : NameTuple :=
  match NewObjectName POSTGRESQL "public" "public" "accounts" with Ok o => mkNameTuple (Some o) (Some o) (Some o) | _ => NIL_NAME_TUPLE end.
Definition newEmail : Event :=
  mkEvent 1 "u" accountsTable "" "" NIL_NAME_TUPLE (Some {[ "id" := Some "1" ]}) (Some {[ "email" := Some "o'hara@x" ]})
    (Some {[ "id" := Some "1"; "email" := Some "a@x" ]}) (Some {[ "id" := Some "1"; "email" := Some "o'hara@x" ]}) SOURCE_DB_EXPORTER_ROLE.
Definition accountColumns : TableSchema :=
  [mkColumn "id" 0 (mkColumnSchema "int32" "" ∅); mkColumn "email" 1 (mkColumnSchema "STRING" "" ∅)].
Definition accountFiles : schemaDir := Ok [("accounts_schema.json", DecodedSchema accountColumns); ("orders_schema.json.tmp", CannotDecode)].
Definition findAccounts (name : string) : result NameTuple := if decide (name = "accounts") then Ok accountsTable else Err "no such table".
Definition accountConverter : StreamingPhaseDebeziumValueConverter :=
  mkStreaming (Init findAccounts accountFiles (NewSchemaRegistry [accountsTable] TARGET_DB_IMPORTER_ROLE)).1 None YBValueConverterSuite YUGABYTEDB POSTGRESQL.
Definition keyOrder (e : Event) : list string := map_keys (entries (EvKey e)).
Definition fieldOrder (e : Event) : list string := map_keys (entries (Fields e)).
Lemma account_order e : ranges e (keyOrder e) (fieldOrder e).
Proof. done. Qed.
Lemma account_ready : ready findAccounts accountFiles (Ok []) accountConverter.
Proof.
  apply (New_ready findAccounts accountFiles (Ok []) (Ok YBValueConverterSuite) [accountsTable] TARGET_DB_IMPORTER_ROLE YUGABYTEDB POSTGRESQL); [|done].
  unfold NewStreamingPhaseDebeziumValueConverter, accountConverter. assert ((Init findAccounts accountFiles (NewSchemaRegistry [accountsTable] TARGET_DB_IMPORTER_ROLE)).2 = Ok ()) as H by (vm_compute; reflexivity).
  destruct (Init _ _ _) as [reg r]. cbn in H. by subst r.
Qed.
Lemma newEmail_wellFormed : wellFormedEvent findAccounts accountFiles (Ok []) accountConverter newEmail.
Proof.
  split; intros c v Hc; unfold entries, EvKey, Fields, newEmail in Hc; cbn [default from_option id] in Hc.
  - apply lookup_singleton_Some in Hc as [<- [= <-]]. exists "int32", (mkColumnSchema "int32" "" ∅). split; [by vm_compute|]. apply wf_passedOn. by left.
  - apply lookup_singleton_Some in Hc as [<- [= <-]]. exists "STRING", (mkColumnSchema "STRING" "" ∅). split; [by vm_compute|]. apply wf_escaped. by left.
Qed.
Notation accountReachable := (reachable [newEmail] (λ _, false) 100 500 500 TARGET_DB_IMPORTER_ROLE sampleIndexes samplePm
  (convertedBy findAccounts accountFiles (Ok []) keyOrder fieldOrder accountConverter)).
Lemma account_run : ∃ s, accountReachable s ∧ drained s ∧ pos s = 1%nat ∧
  map (λ e, entries (Fields e) !! "email") (eventsOf (db s) chan1) = [Some (Some "'o''hara@x'")].
Proof.
  eexists. split_and!.
  - unfold reachable, initial.
    run_step ltac:(eapply S_renew).
    run_step ltac:(eapply (S_clear _ _ _ _ _ _ _ _ _ _ newEmail chan1); [split_and!| | | | |]).
    run_step ltac:(eapply S_put).
    run_step ltac:(eapply S_send).
    run_step ltac:(eapply (W_recv _ _ _ _ _ _ _ _ _ _ chan1)).
    run_step ltac:(eapply (W_close _ _ _ _ _ _ _ _ _ _ chan1)).
    run_step ltac:(eapply (W_exec_unknown _ _ _ _ _ _ _ _ _ _ chan1)).
    run_step ltac:(eapply (W_check _ _ _ _ _ _ _ _ _ _ chan1)).
    run_step ltac:(eapply (W_finish _ _ _ _ _ _ _ _ _ _ chan1)).
    apply rtc_refl.
  - split; [reflexivity|]. intros c. cbn. unfold upd. repeat case_decide; done.
  - reflexivity.
  - vm_compute. reflexivity.
Qed.
End StreamingValues.
